(* ===== verification/_CoqProject ===== *)
-Q . S2P
Prelude.v
CString.v
WordStr.v
Strtol.v
Environ.v
World.v
Open64.v
Preopen.v
Random.v
Digest.v
Sha2.v
Md5.v
Base64.v
Calendar.v
Qsort.v
Msort.v
Hsearch.v
Tsearch.v
Tdelete.v
Printf.v
Inet.v
Inet6.v
CryptOut.v
ShaCrypt.v
Md5Crypt.v
Getopt.v
GetoptRun.v
GetoptSpec.v
NsName.v
NsWire.v
NsText.v
LongLong.v
Mpn.v
MpnSpec.v
MpnMul.v
MpnDiv.v
MpnDiv1.v
Xdr.v
XdrSpec.v
XdrCompound.v
XdrMem.v
RpcMsg.v
Tzset.v
TzChange.v
TzParse.v
Gconv.v
GconvUtf8.v
GconvLoop.v
GconvStream.v
