(* ===== verification/Prelude.v ===== *)
(** * await-glibc: a verification development

    The repository is a fork of the GNU C library, release 2.35.  Its own
    code is the pre-open mechanism of
    [sysdeps/unix/sysv/linux/open64.c]: [open64] answers calls from tables of
    descriptors that were opened before, which it finds in environment
    variables.  The rest is the library that this code and every program
    calls.  The development models the pre-open mechanism completely, the
    parts of the library it is built from (strings, number parsing, the
    environment), and a set of self-contained components of the library whose
    correctness is not obvious.  All paths below are under
    [src/glibc-2.35/].

    ** Files and what they model

    - [Prelude]: outcomes of C code ([Val], [Fault] for undefined behaviour,
      [NoFuel]), machine integers as [Z] with explicit wrap-around, bytes and
      C strings, shared tactics and lemmas.
    - [CString]: byte-level string routines on pointers into objects
      ([string/strrchr.c], [strcmp.c], [strncmp.c], [strncpy.c],
      [strtok_r.c]).
    - [WordStr]: [string/strlen.c], [strchr.c], [memchr.c] word by word on a
      byte memory with aligned 64-bit loads; equal to the byte-level ones.
    - [Strtol]: [stdlib/strtol_l.c] and [strtol.c].
    - [Environ]: [stdlib/getenv.c], [setenv.c], [putenv.c]: pointer arrays in
      a store, so that [environ] and the array [setenv] owns may alias.
    - [World]: the state monad of the pre-open code: environment, heap of
      allocated blocks, the static pointer of [strtok], the system calls
      issued, [errno]; allocation may fail at any request.
    - [Open64]: every function of [open64.c] in that monad, and their
      specifications.
    - [Preopen]: the specification [open_spec] of [open64], the refinement
      theorem and the theorems about the single functions.
    - [Random]: [stdlib/random_r.c] on a store of state arrays.
    - [Digest]: the streaming code that [crypt/sha256.c], [sha512.c] and
      [md5.c] share, over a class [Md] of block functions with laws
      [MdLaws]; [Sha2] and [Md5] are the instances.
    - [Base64]: [resolv/base64.c].
    - [Calendar]: [time/offtime.c], the UTC path of [time/tzset.c],
      [time/mktime.c] and [timegm.c].
    - [Qsort], [Msort]: [stdlib/qsort.c] and [stdlib/msort.c].
    - [Hsearch]: [misc/hsearch_r.c].
    - [Tsearch]: [misc/tsearch.c] but for [tdelete]: red-black trees as nodes
      in a heap, the code on links to nodes, the trees a heap holds as
      zippers; [Tdelete]: [tdelete] with its stack of links.
    - [Printf]: the formats [%d], [%u] and [%x] of [sprintf] and [snprintf]
      that the next files use.
    - [Inet], [Inet6]: [resolv/inet_pton.c] and [inet_ntop.c]; [Inet] holds
      the code and IPv4, [Inet6] the texts of IPv6 and the round trip.
    - [CryptOut]: [string/stpncpy.c], [__b64_from_24bit] and the result
      buffer of the password hashes; [ShaCrypt]: [crypt/sha256-crypt.c] and
      [sha512-crypt.c], over the digests; [Md5Crypt]: [crypt/md5-crypt.c].
    - [Getopt]: [posix/getopt.c] and [getopt1.c]; [GetoptRun]: the invariant
      of a scan, kept by every call; [GetoptSpec]: a reference parser, the
      resolution of long options, and the theorems.
    - [NsName]: the functions [ns_name_*] of [resolv/] on domain names, with
      [ns_makecanon.c], [ns_samename.c], [ns_samedomain.c] and the string
      comparisons they call; [NsWire]: what a compressed name denotes,
      packing and unpacking; [NsText]: names as text.
    - [LongLong]: the double-word macros of [stdlib/longlong.h]; [Mpn]: the
      loops of the multi-precision arithmetic of [stdlib/] on a memory of
      limbs, specified in [MpnSpec]; [MpnMul]: [mul_n.c] and [mul.c];
      [MpnDiv]: [divrem.c]; [MpnDiv1]: [divmod_1.c] and [mod_1.c].
    - [Xdr]: the filters of [sunrpc/xdr.c], [xdr_array.c], [xdr_ref.c] and
      [xdr_intXX_t.c] over any stream; [XdrSpec]: classes of what a stream
      and a filter promise, with the basic filters as instances;
      [XdrCompound]: the filters that are composed, and descriptions of the
      types they can be put together for; [XdrMem]: [xdr_mem.c] and
      [xdr_sizeof.c] as streams, and the theorems; [RpcMsg]: the call
      messages of [rpc_cmsg.c].
    - [Tzset]: [time/tzset.c] for zones given as rules, with the conversions
      of [sscanf] it uses; [TzChange]: what a rule says of a year, and local
      time; [TzParse]: the syntax of [TZ] and its parser.
    - [Gconv]: the conversion loop of [iconv/loop.c] as a function of its
      body, the bodies of [iconv/gconv_simple.c] for ASCII, UTF-8 and UCS-2,
      the conversion state, and [wcsmbs/mbrtowc.c] for UTF-8; [GconvUtf8]:
      the encoding and the two bodies; [GconvLoop]: a class of what a body
      promises, its eight instances, and the loops; [GconvStream]:
      characters split between calls, and [mbrtowc].

    ** What the theorems show

    Pre-open mechanism: with the log off and tables of fewer than 128 paths
    and no more descriptors than paths, [open64] refines [open_spec]; the
    list parser round-trips; the search returns the first match; and the
    theorems that pin down what the code does where it differs from its
    comments (the parent directory is opened, [errno] is lost, slots that
    were never written are read, buffers overflow).  These theorems assume
    the class [World.Alloc], that every allocation is granted: the code
    does not check [malloc], and [find_matching_malloc_refused] shows a
    fault when one is refused.  Library: the optimised string routines equal their
    byte-by-byte meaning; [strtol] computes the value of a numeral with
    exact overflow behaviour; [getenv], [setenv] and [unsetenv] implement a
    map for every pattern of allocation failures; [random_r] computes its
    recurrence; the digests do not depend on how the input is cut; base64
    round-trips; [gmtime] is the proleptic Gregorian calendar and [timegm]
    its inverse on all [int] fields; both sorting routines sort, stay in
    bounds and keep their stack small; the hash table is a finite map; the
    search trees stay red-black trees and implement a sorted list of nodes,
    deletion included, and freeing them touches no node twice;
    [inet_pton] accepts exactly the addresses of RFC 4291 and the dotted
    quads and inverts [inet_ntop]; the password hashes compute the scheme
    their comments describe for every alignment, wherever the copies are
    allocated and as long as no allocation fails, never overrun the caller's
    buffer, erase the local objects that held bytes of the key, and verify
    their own results; a loop over [getopt] reports what a reference parser
    reports and leaves the vector permuted, and a loop over any entry point
    ends, for option strings without the character 255 and long options
    that do not return -1;
    unpacking a domain name is safe and exact on every message, names that
    were packed are unpacked again, and text is read back; multi-precision
    products, quotients and remainders are exact on every input the
    functions are meant for, on every path of the code; objects of the types
    that [XdrCompound.desc] describes, in which the arms of a union have one
    type and no type is recursive, round-trip through memory when
    allocations are granted, and for them any bytes are decoded without a
    fault and nothing is left allocated after [xdr_free]; call messages
    decoded in the buffer are those decoded by the filters, when allocations
    are granted; [tzset] reads the POSIX syntax of [TZ] when there is no
    data file, [localtime] uses the zone it describes, and local time
    follows the rules year by year; the conversion
    loops convert exactly the characters their input begins with, encoding
    and decoding are inverse, UTF-8 may be cut anywhere between calls when
    errors are not ignored, and [mbrtowc] returns what the C standard says.

    ** Bounds and fuel

    A loop that is not structural takes fuel, and each theorem shows that
    the fuel given by the calling definition is enough: the number of words
    or bytes of the object for the string loops, the length of the input for
    the parsers and sorting loops, 64 rounds for the year loop of
    [__offtime] (each round divides the error by more than 365), 70 for the
    binary search of [ranged_convert] (64 halvings), and [2^32] rounds,
    counted in binary by [Hsearch.Loop], for the loops over hash tables.
    The loops over search trees take any fuel above a multiple of the
    logarithm of the number of nodes, which bounds the height; [tdelete] is
    shown correct below [2^20 - 1] nodes, where its stack of 40 links is
    never full, since one of its pushes has no check.  The loops of
    [getopt] take the length of the vector; a caller's loop over [getopt]
    the number of characters and elements of the arguments.  Unpacking a
    domain name takes the sizes of the message and of the buffer: each
    label uses up the buffer, and each pointer the bound on the bytes
    looked at.  The recursion of Karatsuba takes the size as its fuel, and
    two rounds correct an estimate of a quotient limb.  A conversion loop
    takes the length of its input, of which every round uses a byte.

    ** Not modelled, and why

    The configuration is x86-64 Linux: little-endian, 64-bit [long], signed
    [char], unaligned access.  Locale-dependent behaviour is that of the C
    locale, without digit grouping.  Threads and locks are left out: the
    functions are modelled as the sequential code they are between lock and
    unlock.  System calls are events with a result chosen by the
    environment.  Objects that are sorted are elements of a list, so that
    the byte loops that copy them are whole assignments.  The largest parts
    of the library, [malloc], stdio, the dynamic loader, threads, locales,
    most character set conversions (all but ASCII, UTF-8 and UCS-2, and all
    transliteration), floating point, name resolution and the
    assembly routines, are not modelled; the manifest lists them.
    Components planned next: [posix/fnmatch.c], the UCS-4 conversions of
    [iconv/gconv_simple.c], [argz] and [envz], and [obstack]. *)

From stdpp Require Export prelude strings.

#[global] Set Default Goal Selector "!".

(** ** Outcomes of C code

    Every modelled routine that can touch memory returns an [outcome]:
    [Val v] is a normal return, [Fault] is undefined behaviour (an access
    outside the object a pointer points into, a null or uninitialised
    pointer used as an address, signed overflow), and [NoFuel] says that the
    fuel of a bounded loop ran out.  Termination theorems show that the last
    one cannot happen for the fuel a routine is given. *)
Inductive outcome (A : Type) : Type :=
  | Val (a : A)
  | Fault
  | NoFuel.
Arguments Val {A} _.
Arguments Fault {A}.
Arguments NoFuel {A}.

#[export] Instance outcome_ret : MRet outcome := @Val.
#[export] Instance outcome_bind : MBind outcome := λ A B f m,
  match m with
  | Val a => f a
  | Fault => Fault
  | NoFuel => NoFuel
  end.
#[export] Instance outcome_fmap : FMap outcome := λ A B f m,
  match m with
  | Val a => Val (f a)
  | Fault => Fault
  | NoFuel => NoFuel
  end.

#[export] Instance outcome_eq_dec {A} `{EqDecision A} : EqDecision (outcome A).
Proof. solve_decision. Defined.

(** A read through a pointer that the model represents as an option. *)
Definition deref {A : Type} (o : option A) : outcome A :=
  match o with
  | Some a => Val a
  | None => Fault
  end.

Lemma bind_Val {A B : Type} (m : outcome A) (f : A → outcome B) (b : B) :
  m ≫= f = Val b → ∃ a, m = Val a ∧ f a = Val b.
Proof. destruct m; naive_solver. Qed.

Lemma fmap_Val {A B : Type} (m : outcome A) (f : A → B) (b : B) :
  f <$> m = Val b → ∃ a, m = Val a ∧ f a = b.
Proof. destruct m; naive_solver. Qed.

(** Invert every monadic hypothesis that is known to return. *)
Ltac inv_outcome :=
  repeat match goal with
  | H : _ ≫= _ = Val _ |- _ =>
      let a := fresh "a" in let Ha := fresh "Ha" in
      apply bind_Val in H as (a & Ha & H)
  | H : _ <$> _ = Val _ |- _ =>
      let a := fresh "a" in let Ha := fresh "Ha" in
      apply fmap_Val in H as (a & Ha & H)
  | H : Val _ = Val _ |- _ => injection H as H
  | H : Fault = Val _ |- _ => discriminate H
  | H : NoFuel = Val _ |- _ => discriminate H
  | H : mret _ = Val _ |- _ => injection H as H
  end.

(** ** Machine integers

    A [w]-bit unsigned value is a [Z] in [0, 2^w); arithmetic wraps with
    [wrapu].  [wraps] is the two's complement reading of the low [w] bits,
    the conversion gcc performs for a narrowing cast. *)
Open Scope Z_scope.

Definition wrapu (w x : Z) : Z := x mod 2 ^ w.
Definition wraps (w x : Z) : Z :=
  let y := x mod 2 ^ w in if y <? 2 ^ (w - 1) then y else y - 2 ^ w.

Definition INT_MAX : Z := 2147483647.
Definition INT_MIN : Z := -2147483648.
Definition LONG_MAX : Z := 9223372036854775807.
Definition LONG_MIN : Z := -9223372036854775808.
Definition ULONG_MAX : Z := 18446744073709551615.

Lemma wrapu_bound w x : 0 <= w → 0 <= wrapu w x < 2 ^ w.
Proof. intros. apply Z.mod_pos_bound. lia. Qed.

Lemma wrapu_small w x : 0 <= x < 2 ^ w → wrapu w x = x.
Proof. apply Z.mod_small. Qed.

Lemma wraps_small w x :
  1 <= w → - 2 ^ (w - 1) <= x < 2 ^ (w - 1) → wraps w x = x.
Proof.
  intros Hw Hx. unfold wraps.
  assert (2 ^ w = 2 * 2 ^ (w - 1)) as E.
  { rewrite <- Z.pow_succ_r by lia. f_equal. lia. }
  destruct (decide (0 <= x)).
  - rewrite Z.mod_small by lia. destruct (Z.ltb_spec x (2 ^ (w - 1))); lia.
  - replace (x mod 2 ^ w) with (x + 2 ^ w).
    + destruct (Z.ltb_spec (x + 2 ^ w) (2 ^ (w - 1))); lia.
    + apply Z.mod_unique with (-1); lia.
Qed.

Lemma wraps_bound w x : 1 <= w → - 2 ^ (w - 1) <= wraps w x < 2 ^ (w - 1).
Proof.
  intros Hw. unfold wraps.
  assert (2 ^ w = 2 * 2 ^ (w - 1)) as E.
  { rewrite <- Z.pow_succ_r by lia. f_equal. lia. }
  pose proof (Z.mod_pos_bound x (2 ^ w) ltac:(lia)).
  destruct (Z.ltb_spec (x mod 2 ^ w) (2 ^ (w - 1))); lia.
Qed.

(** A byte below a value shifted by eight bits. *)
Lemma testbit_byte_low b v i :
  0 <= b < 256 → 0 <= i < 8 → Z.testbit (b + 256 * v) i = Z.testbit b i.
Proof.
  intros Hb Hi. change 256 with (2 ^ 8) in *.
  rewrite <- (Z.mod_pow2_bits_low (b + 2 ^ 8 * v) 8 i) by lia.
  f_equal. rewrite Z.mul_comm, Z_mod_plus_full. by apply Z.mod_small.
Qed.

Lemma testbit_byte_high b v i :
  0 <= b < 256 → 8 <= i → Z.testbit (b + 256 * v) i = Z.testbit v (i - 8).
Proof.
  intros Hb Hi. change 256 with (2 ^ 8) in *.
  replace i with (i - 8 + 8) at 1 by lia.
  rewrite <- Z.div_pow2_bits by lia. f_equal.
  rewrite Z.mul_comm, Z_div_plus_full by lia. rewrite Z.div_small by lia. lia.
Qed.

Lemma lor_byte b v : 0 <= b < 256 → Z.lor b (Z.shiftl v 8) = b + 256 * v.
Proof.
  intros Hb. apply Z.bits_inj'. intros i Hi. rewrite Z.lor_spec, Z.shiftl_spec by lia.
  destruct (decide (i < 8)).
  - rewrite testbit_byte_low by lia. rewrite (Z.testbit_neg_r v) by lia. apply orb_false_r.
  - rewrite testbit_byte_high by lia.
    rewrite <- (Z.mod_small b (2 ^ 8)) by lia. by rewrite Z.mod_pow2_bits_high by lia.
Qed.

(** The low bits of a word, below a multiple of a power of two. *)
Lemma lor_low k a b : 0 <= k → 0 <= b < 2 ^ k → Z.lor (a * 2 ^ k) b = a * 2 ^ k + b.
Proof.
  intros Hk Hb. rewrite <- Z.lxor_lor, <- Z.add_nocarry_lxor; [done|..];
    apply Z.bits_inj'; intros i Hi; rewrite Z.land_spec, Z.bits_0, <- Z.shiftl_mul_pow2 by done;
    (destruct (decide (i < k));
      [by rewrite Z.shiftl_spec_low|
       rewrite <- (Z.mod_small b (2 ^ k)), Z.mod_pow2_bits_high by lia; apply andb_false_r]).
Qed.

(** ** Bytes and C strings

    A byte is a [Z] in [0, 256), [unsigned char].  A pointer into an object
    is the list of the bytes from where it points to the end of the object,
    so that [p + 1] is the tail and a read of the empty list is out of
    bounds.  A C string is a pointer [s ++ 0 :: t] with [nul_free s]. *)
Definition nul_free (s : list Z) : Prop := Forall (λ b, b ≠ 0) s.
Definition bytes_ok (s : list Z) : Prop := Forall (λ b, 0 <= b < 256) s.

Lemma nul_free_app s t : nul_free (s ++ t) ↔ nul_free s ∧ nul_free t.
Proof. unfold nul_free. apply Forall_app. Qed.

Lemma nul_free_cons b s : nul_free (b :: s) ↔ b ≠ 0 ∧ nul_free s.
Proof. unfold nul_free. by rewrite Forall_cons. Qed.

Lemma bytes_ok_cons b s : bytes_ok (b :: s) ↔ 0 <= b < 256 ∧ bytes_ok s.
Proof. unfold bytes_ok. by rewrite Forall_cons. Qed.

#[export] Instance nul_free_dec s : Decision (nul_free s).
Proof. unfold nul_free. apply _. Defined.
#[export] Instance bytes_ok_dec s : Decision (bytes_ok s).
Proof. unfold bytes_ok. apply _. Defined.

(** A string literal as bytes. *)
Definition bytes_of_string (s : string) : list Z :=
  (λ a, Z.of_N (Ascii.N_of_ascii a)) <$> String.list_ascii_of_string s.
Notation "'$' s" := (bytes_of_string s%string) (at level 9, s at level 9, format "'$' s").

(** The characters the sources name. *)
Definition SLASH : Z := 47.
Definition COLON : Z := 58.
Definition EQUALS : Z := 61.

(** Hint database of the development: facts about strings and widths that
    side conditions need. *)
Create HintDb cdb.
#[export] Hint Resolve wrapu_bound wraps_bound : cdb.

Ltac zcase :=
  repeat match goal with
  | |- context [ (?x =? ?y)%Z ] => destruct (Z.eqb_spec x y)
  | |- context [ (?x <? ?y)%Z ] => destruct (Z.ltb_spec x y)
  | |- context [ (?x <=? ?y)%Z ] => destruct (Z.leb_spec x y)
  | |- context [ (?x >? ?y)%Z ] => rewrite (Z.gtb_ltb x y)
  | |- context [ (?x >=? ?y)%Z ] => rewrite (Z.geb_leb x y)
  end.
