(* ===== verification/CString.v ===== *)
(** * C strings over byte buffers

    The string routines of [string/] that the rest of the library calls, on
    the pointer representation of [Prelude]: a pointer is the list of bytes
    from where it points to the end of its object.  [strrchr], [strcmp],
    [strncmp], [strncpy] and [strtok_r] follow their source files.  [strlen],
    [strchr], [strspn], [strcspn] and [strnlen] are here the byte-by-byte
    meaning that clients reason with; [WordStr] models the word-at-a-time
    code of those files and shows that it computes these functions. *)

From S2P Require Import Prelude.

Module CString.

(** ** Byte-by-byte meanings *)

(** The bytes before the terminating NUL. *)
Fixpoint cstr (p : list Z) : outcome (list Z) :=
  match p with
  | [] => Fault
  | b :: p' => if b =? 0 then Val [] else cons b <$> cstr p'
  end.

Definition strlen (p : list Z) : outcome nat := length <$> cstr p.

Fixpoint strnlen (p : list Z) (n : nat) {struct n} : outcome nat :=
  match n with
  | O => Val 0%nat
  | S n' =>
      match p with
      | [] => Fault
      | b :: p' => if b =? 0 then Val 0%nat else S <$> strnlen p' n'
      end
  end.

Fixpoint strchr (p : list Z) (c : Z) : outcome (option (list Z)) :=
  match p with
  | [] => Fault
  | b :: p' =>
      if b =? c then Val (Some (b :: p'))
      else if b =? 0 then Val None
      else strchr p' c
  end.

Definition elemb (b : Z) (set : list Z) : bool := bool_decide (b ∈ set).

(** Length of the longest prefix all of whose bytes satisfy [ok]; the NUL
    ends it whatever [ok] says of it. *)
Fixpoint span_len (ok : Z → bool) (p : list Z) : outcome nat :=
  match p with
  | [] => Fault
  | b :: p' => if (b =? 0) || negb (ok b) then Val 0%nat else S <$> span_len ok p'
  end.

Definition strspn (p accept : list Z) : outcome nat :=
  a ← cstr accept; span_len (λ b, elemb b a) p.

Definition strcspn (p reject : list Z) : outcome nat :=
  r ← cstr reject; span_len (λ b, negb (elemb b r)) p.

(** ** [string/strrchr.c] *)

(** The loop [while ((p = strchr (s, c)) != NULL) { found = p; s = p + 1; }]. *)
Fixpoint strrchr_loop (fuel : nat) (found : option (list Z)) (s : list Z) (c : Z)
    : outcome (option (list Z)) :=
  match fuel with
  | O => NoFuel
  | S fuel' =>
      p ← strchr s c;
      match p with
      | None => Val found
      | Some q => strrchr_loop fuel' (Some q) (tail q) c
      end
  end.

Definition strrchr (s : list Z) (c : Z) : outcome (option (list Z)) :=
  let c := wrapu 8 c in
  if c =? 0 then strchr s 0 else strrchr_loop (S (length s)) None s c.

(** ** [string/strcmp.c] *)

Fixpoint strcmp (s1 s2 : list Z) : outcome Z :=
  match s1, s2 with
  | c1 :: s1', c2 :: s2' =>
      if c1 =? 0 then Val (c1 - c2)
      else if c1 =? c2 then strcmp s1' s2'
      else Val (c1 - c2)
  | _, _ => Fault
  end.

(** ** [string/strncmp.c]

    One [c1 = *s1++; c2 = *s2++; if (c1 == 0 || c1 != c2) return c1 - c2;]:
    [inl] is the return, [inr] carries both characters and the advanced
    pointers. *)
Definition strncmp_char (s1 s2 : list Z)
    : outcome (Z + Z * Z * list Z * list Z) :=
  match s1, s2 with
  | c1 :: s1', c2 :: s2' =>
      if (c1 =? 0) || negb (c1 =? c2) then Val (inl (c1 - c2))
      else Val (inr (c1, c2, s1', s2'))
  | _, _ => Fault
  end.

(** The rolled loop [while (n > 0)], followed by [return c1 - c2]. *)
Fixpoint strncmp_tail (n : nat) (c1 c2 : Z) (s1 s2 : list Z) : outcome Z :=
  match n with
  | O => Val (c1 - c2)
  | S n' =>
      r ← strncmp_char s1 s2;
      match r with
      | inl d => Val d
      | inr (c1', c2', s1', s2') => strncmp_tail n' c1' c2' s1' s2'
      end
  end.

(** The unrolled loop, [n4 > 0] rounds of four characters, then the rest. *)
Fixpoint strncmp_quads (n4 rest : nat) (c1 c2 : Z) (s1 s2 : list Z) : outcome Z :=
  match n4 with
  | O => strncmp_tail rest c1 c2 s1 s2
  | S n4' =>
      r ← strncmp_char s1 s2;
      match r with
      | inl d => Val d
      | inr (_, _, s1, s2) =>
      r ← strncmp_char s1 s2;
      match r with
      | inl d => Val d
      | inr (_, _, s1, s2) =>
      r ← strncmp_char s1 s2;
      match r with
      | inl d => Val d
      | inr (_, _, s1, s2) =>
      r ← strncmp_char s1 s2;
      match r with
      | inl d => Val d
      | inr (c1, c2, s1, s2) => strncmp_quads n4' rest c1 c2 s1 s2
      end end end end
  end.

Definition strncmp (s1 s2 : list Z) (n : nat) : outcome Z :=
  if (4 <=? n)%nat
  then strncmp_quads (n / 4) (n mod 4) 0 0 s1 s2
  else strncmp_tail n 0 0 s1 s2.

(** ** Writes into a buffer *)

(** Store [bs] at offset [off] of the object [buf]. *)
Definition write_at (buf : list Z) (off : nat) (bs : list Z) : outcome (list Z) :=
  if (off + length bs <=? length buf)%nat
  then Val (take off buf ++ bs ++ drop (off + length bs) buf)
  else Fault.

(** Read [n] bytes through [p]. *)
Definition read_n (p : list Z) (n : nat) : outcome (list Z) :=
  if (n <=? length p)%nat then Val (take n p) else Fault.

(** [memcpy (s1, s2, n)] and [memset (s1 + off, c, n)]. *)
Definition memcpy (s1 s2 : list Z) (n : nat) : outcome (list Z) :=
  bs ← read_n s2 n; write_at s1 0 bs.

Definition memset (s1 : list Z) (off : nat) (c : Z) (n : nat) : outcome (list Z) :=
  write_at s1 off (replicate n c).

(** ** [string/strncpy.c] *)
Definition strncpy (s1 s2 : list Z) (n : nat) : outcome (list Z) :=
  size ← strnlen s2 n;
  s1 ← (if (size =? n)%nat then Val s1 else memset s1 size 0 (n - size));
  memcpy s1 s2 size.

(** ** [string/strtok_r.c]

    The string being split is the object [buf]; [s] and [*save_ptr] are
    offsets into it, [None] for a null pointer.  Returns the object after
    the store, the token and the new [*save_ptr]. *)
Definition strtok_r (buf : list Z) (s : option nat) (delim : list Z)
    (save_ptr : option nat) : outcome (list Z * option nat * option nat) :=
  s ← deref (match s with None => save_ptr | Some s => Some s end);
  b ← deref (buf !! s);
  if b =? 0 then Val (buf, None, Some s)
  else
    n ← strspn (drop s buf) delim;
    let s := (s + n)%nat in
    b ← deref (buf !! s);
    if b =? 0 then Val (buf, None, Some s)
    else
      n ← strcspn (drop s buf) delim;
      let end_ := (s + n)%nat in
      b ← deref (buf !! end_);
      if b =? 0 then Val (buf, Some s, Some end_)
      else Val (<[end_ := 0]> buf, Some s, Some (S end_)).

(** ** Facts clients use *)

Lemma cstr_spec s t : nul_free s → cstr (s ++ 0 :: t) = Val s.
Proof.
  induction s as [|b s IH]; [done|].
  rewrite nul_free_cons; intros [Hb Hs]; simpl.
  destruct (Z.eqb_spec b 0); [done|]. by rewrite IH.
Qed.

Lemma cstr_inv p s : cstr p = Val s → nul_free s ∧ ∃ t, p = s ++ 0 :: t.
Proof.
  revert s; induction p as [|b p IH]; intros s; simpl; [done|].
  destruct (Z.eqb_spec b 0) as [->|Hb]; intros H.
  - injection H as <-. split; [by constructor|by eexists].
  - inv_outcome. subst. destruct (IH _ Ha) as (Hf & t & ->).
    split; [by constructor|by exists t].
Qed.

Lemma strlen_spec s t : nul_free s → strlen (s ++ 0 :: t) = Val (length s).
Proof. intros Hs. unfold strlen. by rewrite cstr_spec. Qed.

Lemma strchr_found s c t :
  nul_free s → c ∉ s → strchr (s ++ c :: t) c = Val (Some (c :: t)).
Proof.
  induction s as [|b s IH]; simpl.
  - intros _ _. by rewrite Z.eqb_refl.
  - rewrite nul_free_cons, not_elem_of_cons. intros [Hb Hs] [Hc Hc'].
    destruct (Z.eqb_spec b c); [by subst|].
    destruct (Z.eqb_spec b 0); [done|]. by apply IH.
Qed.

Lemma strchr_absent s c t :
  nul_free s → c ∉ s → c ≠ 0 → strchr (s ++ 0 :: t) c = Val None.
Proof.
  intros Hs Hc Hc0; induction s as [|b s IH]; simpl.
  - by destruct c.
  - rewrite nul_free_cons in Hs; rewrite not_elem_of_cons in Hc.
    destruct Hs as [Hb Hs], Hc as [Hc Hc'].
    destruct (Z.eqb_spec b c); [by subst|].
    destruct (Z.eqb_spec b 0); [done|]. by apply IH.
Qed.

(** Split a list at its first or last occurrence of a byte. *)
Lemma split_first (c : Z) (s : list Z) :
  c ∈ s → ∃ a b, s = a ++ c :: b ∧ c ∉ a.
Proof.
  induction s as [|x s IH]; [set_solver|].
  destruct (decide (x = c)) as [->|Hx].
  - intros _. exists [], s. set_solver.
  - intros [?|Hc]%elem_of_cons; [by subst|].
    destruct (IH Hc) as (a & b & -> & Ha).
    exists (x :: a), b. set_solver.
Qed.

Lemma split_last (c : Z) (s : list Z) :
  c ∈ s → ∃ a b, s = a ++ c :: b ∧ c ∉ b.
Proof.
  induction s as [|x s IH] using rev_ind; [set_solver|].
  destruct (decide (x = c)) as [->|Hx].
  - intros _. exists s, []. set_solver.
  - intros [Hc|?%list_elem_of_singleton]%elem_of_app; [|by subst].
    destruct (IH Hc) as (a & b & -> & Hb).
    exists a, (b ++ [x]). rewrite <- app_assoc. set_solver.
Qed.

(** ** [strrchr]: the last occurrence *)

Lemma strrchr_loop_absent fuel found s c t :
  nul_free s → c ∉ s → c ≠ 0 →
  strrchr_loop (S fuel) found (s ++ 0 :: t) c = Val found.
Proof. intros. simpl. by rewrite strchr_absent. Qed.

Lemma strrchr_loop_last fuel found a c b t :
  (length a < fuel)%nat → nul_free a → nul_free b → c ∉ b → c ≠ 0 →
  strrchr_loop (S fuel) found (a ++ c :: b ++ 0 :: t) c
  = Val (Some (c :: b ++ 0 :: t)).
Proof.
  revert fuel found a.
  induction fuel as [|fuel IH]; intros found a Hl Ha Hb Hc Hc0; [lia|].
  destruct (decide (c ∈ a)) as [Hin|Hin].
  - destruct (split_first c a Hin) as (a1 & a2 & -> & Ha1).
    apply nul_free_app in Ha as [Hn1 [_ Hn2]%nul_free_cons].
    rewrite <- app_assoc, <- app_comm_cons.
    cbn [strrchr_loop]. rewrite strchr_found by done. cbn [mbind outcome_bind tail].
    apply IH; [|done..].
    rewrite length_app in Hl. simpl in Hl. lia.
  - cbn [strrchr_loop]. rewrite strchr_found by done. cbn [mbind outcome_bind tail].
    by apply strrchr_loop_absent.
Qed.

Lemma strrchr_absent s c t :
  nul_free s → 0 < c < 256 → c ∉ s → strrchr (s ++ 0 :: t) c = Val None.
Proof.
  intros Hs Hc Hin. unfold strrchr. rewrite wrapu_small by lia.
  destruct (Z.eqb_spec c 0); [lia|]. by apply strrchr_loop_absent.
Qed.

Lemma strrchr_last a c b t :
  nul_free a → nul_free b → 0 < c < 256 → c ∉ b →
  strrchr (a ++ c :: b ++ 0 :: t) c = Val (Some (c :: b ++ 0 :: t)).
Proof.
  intros Ha Hb Hc Hin. unfold strrchr. rewrite wrapu_small by lia.
  destruct (Z.eqb_spec c 0); [lia|].
  apply strrchr_loop_last; [|done..|lia].
  rewrite length_app. simpl. lia.
Qed.

(** ** [strcmp] *)

(** [strcmp] agrees with the lexicographic order on unsigned bytes in which
    the terminator is below every other byte. *)
Fixpoint lexcmp (s1 s2 : list Z) : Z :=
  match s1, s2 with
  | [], [] => 0
  | [], c2 :: _ => 0 - c2
  | c1 :: _, [] => c1
  | c1 :: s1', c2 :: s2' => if c1 =? c2 then lexcmp s1' s2' else c1 - c2
  end.

Lemma strcmp_lexcmp s1 s2 t1 t2 :
  nul_free s1 → nul_free s2 →
  strcmp (s1 ++ 0 :: t1) (s2 ++ 0 :: t2) = Val (lexcmp s1 s2).
Proof.
  revert s2; induction s1 as [|c1 s1 IH]; intros [|c2 s2]; simpl; [done|..].
  - done.
  - rewrite nul_free_cons. intros [Hc _] _.
    destruct (Z.eqb_spec c1 0); [done|]. by rewrite Z.sub_0_r.
  - rewrite !nul_free_cons. intros [Hc Hs] [Hc' Hs'].
    destruct (Z.eqb_spec c1 0); [done|].
    destruct (Z.eqb_spec c1 c2); [by apply IH|done].
Qed.

Lemma lexcmp_0 s1 s2 : nul_free s1 → nul_free s2 → lexcmp s1 s2 = 0 ↔ s1 = s2.
Proof.
  revert s2; induction s1 as [|c1 s1 IH]; intros [|c2 s2];
    rewrite ?nul_free_cons; simpl; intros Hs1 Hs2; [done|split; [lia|done]..|].
  destruct (Z.eqb_spec c1 c2) as [->|Hne].
  - rewrite IH by naive_solver. naive_solver.
  - split; [lia|naive_solver].
Qed.

Lemma strcmp_eq s1 s2 t1 t2 :
  nul_free s1 → nul_free s2 →
  strcmp (s1 ++ 0 :: t1) (s2 ++ 0 :: t2) = Val 0 ↔ s1 = s2.
Proof.
  intros H1 H2. rewrite strcmp_lexcmp by done.
  rewrite <- (lexcmp_0 s1 s2) by done. split; [by intros [= ->]|by intros ->].
Qed.

(** ** [strncmp]: the unrolled loop is the plain one *)

Fixpoint strncmp_ref (n : nat) (s1 s2 : list Z) : outcome Z :=
  match n with
  | O => Val 0
  | S n' =>
      match s1, s2 with
      | c1 :: s1', c2 :: s2' =>
          if (c1 =? 0) || negb (c1 =? c2) then Val (c1 - c2)
          else strncmp_ref n' s1' s2'
      | _, _ => Fault
      end
  end.

Lemma strncmp_tail_ref n c s1 s2 :
  strncmp_tail n c c s1 s2 = strncmp_ref n s1 s2.
Proof.
  revert c s1 s2; induction n as [|n IH]; intros c s1 s2; simpl.
  - by rewrite Z.sub_diag.
  - destruct s1 as [|c1 s1], s2 as [|c2 s2]; simpl; try done.
    destruct (Z.eqb_spec c1 0), (Z.eqb_spec c1 c2); simpl; try done.
    subst. apply IH.
Qed.

Lemma strncmp_quads_ref n4 r c s1 s2 :
  strncmp_quads n4 r c c s1 s2 = strncmp_ref (4 * n4 + r) s1 s2.
Proof.
  revert c s1 s2; induction n4 as [|n4 IH]; intros c s1 s2.
  - apply strncmp_tail_ref.
  - replace (4 * S n4 + r)%nat with (S (S (S (S (4 * n4 + r))))) by lia.
    cbn [strncmp_quads strncmp_ref].
    do 4 (destruct s1 as [|?c1 s1], s2 as [|?c2 s2]; simpl; try done;
      match goal with
      | |- context [ (?x =? 0) || negb (?x =? ?y) ] =>
          destruct (Z.eqb_spec x 0), (Z.eqb_spec x y); simpl; try done
      end).
    subst. apply IH.
Qed.

Lemma strncmp_unrolled n s1 s2 : strncmp s1 s2 n = strncmp_ref n s1 s2.
Proof.
  unfold strncmp. destruct (Nat.leb_spec 4 n).
  - rewrite strncmp_quads_ref. f_equal. rewrite (Nat.div_mod_eq n 4) at 3. lia.
  - apply strncmp_tail_ref.
Qed.

(** Comparing a string of exactly [n] bytes against another string tests
    for a prefix. *)
Lemma strncmp_prefix p s t1 t2 :
  nul_free p → nul_free s →
  ∃ d, strncmp_ref (length p) (s ++ 0 :: t1) (p ++ t2) = Val d ∧
       (d = 0 ↔ p `prefix_of` s).
Proof.
  revert s; induction p as [|c p IH]; intros [|b s]; simpl;
    rewrite ?nul_free_cons; intros Hp Hs.
  - exists 0. split; [done|]. split; [|done]. intros _. apply prefix_nil.
  - exists 0. split; [done|]. split; [|done]. intros _. apply prefix_nil.
  - exists (0 - c). split; [done|]. split; [lia|].
    intros [k Hk]. done.
  - destruct Hp as [Hc Hp], Hs as [Hb Hs].
    destruct (Z.eqb_spec b 0); [done|]. simpl.
    destruct (Z.eqb_spec b c) as [->|Hne]; simpl.
    + destruct (IH s Hp Hs) as (d & -> & Hd). exists d. split; [done|].
      rewrite Hd. split; [apply prefix_cons|apply prefix_cons_inv_2].
    + exists (b - c). split; [done|]. split; [lia|].
      intros ?%prefix_cons_inv_1. by subst.
Qed.

(** ** [strncpy]: copy, pad with NULs, stay within [n] bytes *)

Lemma strnlen_spec s t n :
  nul_free s → strnlen (s ++ 0 :: t) n = Val (length s `min` n)%nat.
Proof.
  revert n; induction s as [|b s IH]; intros [|n]; simpl; try done.
  rewrite nul_free_cons; intros [Hb Hs].
  destruct (Z.eqb_spec b 0); [done|]. by rewrite IH.
Qed.

Lemma strnlen_prefix s t n :
  nul_free s → (n <= length s)%nat → strnlen (s ++ t) n = Val n.
Proof.
  revert n; induction s as [|b s IH]; intros [|n]; simpl; try done; [intros; lia|].
  rewrite nul_free_cons; intros [Hb Hs] Hn.
  destruct (Z.eqb_spec b 0); [done|]. rewrite IH by (done || lia). done.
Qed.

Lemma write_at_mid a b c bs :
  length b = length bs → write_at (a ++ b ++ c) (length a) bs = Val (a ++ bs ++ c).
Proof.
  intros Hl. unfold write_at. rewrite !length_app.
  destruct (Nat.leb_spec (length a + length bs) (length a + (length b + length c))); [|lia].
  rewrite take_app_length. do 3 f_equal.
  rewrite drop_app_add', <- Hl, drop_app_length; done.
Qed.

(** Storing a terminator after a string, or again behind it. *)
Lemma write_nul_at c d :
  (length c < length d)%nat →
  write_at (c ++ drop (length c) d) (length c) [0] = Val (c ++ 0 :: drop (S (length c)) d).
Proof.
  intros Hl. destruct (drop (length c) d) as [|x r] eqn:E.
  - apply (f_equal length) in E. rewrite length_drop in E. simpl in E. lia.
  - replace (drop (S (length c)) d) with r.
    + exact (write_at_mid c [x] r [0] eq_refl).
    + replace (S (length c)) with (length c + 1)%nat by lia.
      by rewrite <- drop_drop, E.
Qed.

Lemma write_nul_after (c j : list Z) (off : nat) :
  (length c < off < length (c ++ 0%Z :: j))%nat →
  ∃ j', write_at (c ++ 0 :: j) off [0] = Val (c ++ 0 :: j').
Proof.
  intros Ho. unfold write_at. cbn [length].
  destruct (Nat.leb_spec (off + 1) (length (c ++ 0 :: j))); [|lia].
  rewrite (take_app_ge c (0 :: j) off) by lia.
  destruct (off - length c)%nat as [|k] eqn:E; [lia|].
  change (take (S k) (0 :: j)) with (0 :: take k j). rewrite <- app_assoc, <- app_comm_cons.
  by eexists.
Qed.

(** The source string is shorter than [n]: the destination receives the
    string and then NULs up to [n] bytes; bytes after [n] are untouched. *)
Lemma strncpy_short s t d n :
  nul_free s → (length s < n <= length d)%nat →
  strncpy d (s ++ 0 :: t) n
  = Val (s ++ replicate (n - length s) 0 ++ drop n d).
Proof.
  intros Hs Hn. unfold strncpy. rewrite strnlen_spec by done. simpl.
  replace (length s `min` n)%nat with (length s) by lia.
  destruct (Nat.eqb_spec (length s) n); [lia|].
  unfold memset.
  assert (d = take (length s) d ++ take (n - length s) (drop (length s) d) ++ drop n d)
    as E.
  { rewrite <- (take_drop (length s) d) at 1. f_equal.
    rewrite <- (take_drop (n - length s) (drop (length s) d)) at 1. f_equal.
    rewrite drop_drop. f_equal. lia. }
  assert (length (take (length s) d) = length s) as El by (rewrite length_take; lia).
  pose proof (write_at_mid (take (length s) d) (take (n - length s) (drop (length s) d))
    (drop n d) (replicate (n - length s) 0)) as W.
  rewrite El, <- E in W. rewrite W.
  2: { rewrite length_take, length_drop, length_replicate. lia. }
  simpl.
  unfold memcpy, read_n. rewrite length_app.
  destruct (Nat.leb_spec (length s) (length s + length (0 :: t))); [|lia]. simpl.
  rewrite take_app_length.
  change (0%nat) with (length (@nil Z)).
  exact (write_at_mid [] (take (length s) d) _ s El).
Qed.

(** Exactly [n] bytes of a longer source are copied, with no terminator. *)
Lemma strncpy_exact s t d :
  nul_free s → (length s <= length d)%nat →
  strncpy d (s ++ t) (length s) = Val (s ++ drop (length s) d).
Proof.
  intros Hs Hn. unfold strncpy. rewrite strnlen_prefix by done. simpl.
  rewrite Nat.eqb_refl. simpl. unfold memcpy, read_n. rewrite length_app.
  destruct (Nat.leb_spec (length s) (length s + length t)); [|lia]. simpl.
  rewrite take_app_length.
  unfold write_at. simpl. destruct (Nat.leb_spec (length s) (length d)); [done|lia].
Qed.

(** ** Tokens *)

(** The maximal runs of bytes that are not delimiters. *)
Definition flush (cur : list Z) : list (list Z) :=
  match cur with [] => [] | _ => [cur] end.

Fixpoint tokens_from (isd : Z → bool) (cur s : list Z) : list (list Z) :=
  match s with
  | [] => flush cur
  | b :: s' =>
      if isd b then flush cur ++ tokens_from isd [] s'
      else tokens_from isd (cur ++ [b]) s'
  end.

Definition tokens (isd : Z → bool) (s : list Z) : list (list Z) :=
  tokens_from isd [] s.

Lemma tokens_skip isd ds s :
  Forall (λ b, isd b = true) ds → tokens isd (ds ++ s) = tokens isd s.
Proof.
  unfold tokens. induction 1 as [|b ds Hb _ IH]; simpl; [done|]. by rewrite Hb.
Qed.

Lemma tokens_from_run isd cur tok s :
  Forall (λ b, isd b = false) tok →
  tokens_from isd cur (tok ++ s) = tokens_from isd (cur ++ tok) s.
Proof.
  intros H; revert cur; induction H as [|b tok Hb _ IH]; intros cur; simpl.
  - by rewrite app_nil_r.
  - by rewrite Hb, IH, <- app_assoc.
Qed.

Lemma tokens_last isd tok :
  tok ≠ [] → Forall (λ b, isd b = false) tok → tokens isd tok = [tok].
Proof.
  intros Hne H. unfold tokens. rewrite <- (app_nil_r tok) at 1.
  rewrite tokens_from_run by done. simpl. by destruct tok.
Qed.

Lemma tokens_next isd tok d s :
  tok ≠ [] → Forall (λ b, isd b = false) tok → isd d = true →
  tokens isd (tok ++ d :: s) = tok :: tokens isd s.
Proof.
  intros Hne H Hd. unfold tokens. rewrite tokens_from_run by done. simpl.
  rewrite Hd. by destruct tok.
Qed.

Lemma tokens_from_length isd cur s :
  (length (tokens_from isd cur s) <= length (flush cur) + length s)%nat.
Proof.
  revert cur; induction s as [|b s IH]; intros cur; cbn [tokens_from length]; [lia|].
  destruct (isd b).
  - rewrite length_app. specialize (IH []). simpl in IH. lia.
  - specialize (IH (cur ++ [b])). assert (length (flush (cur ++ [b])) <= 1)%nat.
    { destruct (cur ++ [b]); simpl; lia. }
    lia.
Qed.

Lemma tokens_length isd s : (length (tokens isd s) <= length s)%nat.
Proof. apply (tokens_from_length isd []). Qed.

(** How [strtok_r] sees the rest of the string. *)
Lemma span_split (ok : Z → bool) (s : list Z) :
  ∃ a b, s = a ++ b ∧ Forall (λ x, ok x = true) a ∧
         (b = [] ∨ ∃ x b', b = x :: b' ∧ ok x = false).
Proof.
  induction s as [|x s (a & b & -> & Ha & Hb)].
  - exists [], []. naive_solver.
  - destruct (ok x) eqn:E.
    + exists (x :: a), b. naive_solver.
    + exists [], (x :: a ++ b). naive_solver.
Qed.

Lemma span_len_nul ok a t :
  nul_free a → Forall (λ x, ok x = true) a →
  span_len ok (a ++ 0 :: t) = Val (length a).
Proof.
  intros Hn H; revert Hn; induction H as [|x a Hx _ IH]; simpl; [done|].
  rewrite nul_free_cons; intros [Hx0 Ha].
  destruct (Z.eqb_spec x 0); [done|]. rewrite Hx; simpl. by rewrite IH.
Qed.

Lemma span_len_stop ok a x t :
  nul_free a → Forall (λ x, ok x = true) a → ok x = false →
  span_len ok (a ++ x :: t) = Val (length a).
Proof.
  intros Hn H Hx; revert Hn; induction H as [|y a Hy _ IH]; simpl.
  - rewrite Hx, orb_true_r. done.
  - rewrite nul_free_cons; intros [Hx0 Ha].
    destruct (Z.eqb_spec y 0); [done|]. rewrite Hy; simpl. by rewrite IH.
Qed.

(** ** [strtok_r] *)

Lemma elemb_false_ne b set x : elemb b set = true → elemb x set = false → b ≠ x.
Proof. congruence. Qed.

Lemma deref_mid (a : list Z) (x : Z) (b : list Z) : deref ((a ++ x :: b) !! length a) = Val x.
Proof. by rewrite list_lookup_middle. Qed.

Lemma drop_mid (a b : list Z) : drop (length a) (a ++ b) = b.
Proof. apply drop_app_length. Qed.

Lemma Forall_negb {A} (f : A → bool) l :
  Forall (λ x, f x = false) l → Forall (λ x, negb (f x) = true) l.
Proof. intros H. eapply Forall_impl; [exact H|]. by intros x ->. Qed.

Section strtok.
(** The delimiter set: a C string with contents [D]. *)
Variables (D dt : list Z).
Hypothesis HD : nul_free D.
Abbreviation delim := (D ++ 0 :: dt).
Abbreviation isd := (λ b, elemb b D).

(** What is left of the string is all delimiters: no token, and the saved
    pointer is left at the terminator. *)
Lemma strtok_r_none pre s t sv :
  nul_free s → Forall (λ b, isd b = true) s →
  strtok_r (pre ++ s ++ 0 :: t) (Some (length pre)) delim sv
  = Val (pre ++ s ++ 0 :: t, None, Some (length pre + length s)%nat).
Proof using HD.
  intros Hs Hd. unfold strtok_r. cbn [deref mbind outcome_bind].
  destruct s as [|b s]; cbn [app].
  - rewrite deref_mid. cbn. by rewrite Nat.add_0_r.
  - rewrite deref_mid. cbn [mbind outcome_bind].
    apply nul_free_cons in Hs as Hs'. destruct Hs' as [Hb Hs'].
    destruct (Z.eqb_spec b 0); [done|].
    rewrite drop_mid. unfold strspn. rewrite cstr_spec by done.
    cbn [mbind outcome_bind].
    pose proof (span_len_nul isd (b :: s) t Hs Hd) as E.
    rewrite <- app_comm_cons in E. rewrite E. cbn [mbind outcome_bind].
    change (pre ++ b :: s ++ 0 :: t) with (pre ++ (b :: s) ++ 0 :: t).
    rewrite app_assoc, <- length_app, deref_mid. done.
Qed.

(** Leading delimiters are skipped: the rest of the call starts at the
    first byte [x] of the token. *)
Lemma strtok_r_at pre ds x rest sv :
  nul_free ds → x ≠ 0 → Forall (λ b, isd b = true) ds → isd x = false →
  let buf := pre ++ ds ++ x :: rest in
  strtok_r buf (Some (length pre)) delim sv
  = (n ← span_len (λ b, negb (isd b)) (x :: rest);
     let end_ := (length (pre ++ ds) + n)%nat in
     b ← deref (buf !! end_);
     if b =? 0 then Val (buf, Some (length (pre ++ ds)), Some end_)
     else Val (<[end_ := 0]> buf, Some (length (pre ++ ds)), Some (S end_))).
Proof using HD.
  intros Hnd Hx0 Hd Hx buf. unfold strtok_r. cbn [deref mbind outcome_bind].
  assert (∃ b, buf !! length pre = Some b ∧ b ≠ 0) as (b & -> & Hb).
  { subst buf. destruct ds as [|d ds]; cbn [app].
    - exists x. split; [by apply list_lookup_middle|done].
    - exists d. split; [by apply list_lookup_middle|].
      by apply nul_free_cons in Hnd as [? _]. }
  cbn [deref mbind outcome_bind]. destruct (Z.eqb_spec b 0); [done|].
  subst buf. rewrite drop_mid. unfold strspn. rewrite cstr_spec by done.
  cbn [mbind outcome_bind app]. rewrite (span_len_stop isd ds x) by done.
  cbn [mbind outcome_bind]. rewrite app_assoc, <- length_app, deref_mid.
  cbn [mbind outcome_bind]. destruct (Z.eqb_spec x 0); [done|].
  rewrite drop_mid. unfold strcspn. by rewrite cstr_spec by done.
Qed.

(** The last token: it ends at the terminator, nothing is overwritten. *)
Lemma strtok_r_last pre ds tok t sv :
  nul_free (ds ++ tok) → Forall (λ b, isd b = true) ds →
  tok ≠ [] → Forall (λ b, isd b = false) tok →
  strtok_r (pre ++ ds ++ tok ++ 0 :: t) (Some (length pre)) delim sv
  = Val (pre ++ ds ++ tok ++ 0 :: t, Some (length (pre ++ ds)),
         Some (length (pre ++ ds ++ tok))).
Proof using HD.
  intros [Hnd Hnt]%nul_free_app Hd Hne Ht. destruct tok as [|x tok]; [done|].
  pose proof (span_len_nul (λ b, negb (isd b)) (x :: tok) t Hnt
    (Forall_negb _ _ Ht)) as E.
  apply Forall_cons in Ht as [Hx _]. apply nul_free_cons in Hnt as [Hx0 _].
  cbn [app] in *. rewrite strtok_r_at, E by done. cbn [mbind outcome_bind].
  rewrite <- length_app. rewrite !app_assoc, (app_comm_cons tok), app_assoc, deref_mid.
  done.
Qed.

(** A token followed by a delimiter: the delimiter becomes a NUL and the
    saved pointer is just past it. *)
Lemma strtok_r_next pre ds tok d rest sv :
  nul_free (ds ++ tok ++ [d]) → Forall (λ b, isd b = true) ds →
  tok ≠ [] → Forall (λ b, isd b = false) tok → isd d = true →
  strtok_r (pre ++ ds ++ tok ++ d :: rest) (Some (length pre)) delim sv
  = Val (pre ++ ds ++ tok ++ 0 :: rest, Some (length (pre ++ ds)),
         Some (S (length (pre ++ ds ++ tok)))).
Proof using HD.
  intros [Hnd [Hnt Hnx]%nul_free_app]%nul_free_app Hd Hne Ht Hisd.
  apply nul_free_cons in Hnx as [Hd0 _]. destruct tok as [|x tok]; [done|].
  pose proof (span_len_stop (λ b, negb (isd b)) (x :: tok) d rest Hnt
    (Forall_negb _ _ Ht)) as E.
  apply Forall_cons in Ht as [Hx _]. apply nul_free_cons in Hnt as [Hx0 _].
  cbn [app] in *. rewrite strtok_r_at, E by (done || by rewrite Hisd).
  cbn [mbind outcome_bind].
  rewrite <- length_app, !app_assoc, (app_comm_cons tok), app_assoc, deref_mid.
  cbn [mbind outcome_bind]. destruct (Z.eqb_spec d 0); [done|].
  rewrite <- (Nat.add_0_r (length ((pre ++ ds) ++ x :: tok))) at 1.
  rewrite insert_app_r. cbn. by rewrite <- !app_assoc.
Qed.
End strtok.

End CString.
