(* ===== verification/WordStr.v ===== *)
(** * Word-at-a-time string search

    [string/strlen.c], [string/strchr.c], [string/memchr.c] read memory one
    [unsigned long] at a time once the pointer is aligned, so they also read
    bytes past the end of the string.  Memory is here a partial map from
    addresses to bytes, an access to an unmapped byte or a misaligned word
    access is a [Fault], and mapping has at least word granularity (a page is
    a multiple of eight bytes).  The theorems show that the routines compute
    the byte-by-byte functions and never fault on a mapped string. *)

From S2P Require Import Prelude CString.

Module WordStr.
Import CString.

Definition memory : Type := Z → option Z.

(** [sizeof (unsigned long int)]. *)
Definition SIZEOF_LONG : Z := 8.

Definition load8 (m : memory) (a : Z) : outcome Z := deref (m a).

Fixpoint load_bytes (m : memory) (a : Z) (n : nat) : outcome (list Z) :=
  match n with
  | O => Val []
  | S n' => b ← load8 m a; bs ← load_bytes m (a + 1) n'; Val (b :: bs)
  end.

(** Little-endian value of a byte list. *)
Definition le (bs : list Z) : Z := foldr (λ b v, b + 256 * v) 0 bs.

Definition aligned (a : Z) : bool := Z.land a (SIZEOF_LONG - 1) =? 0.

(** [*longword_ptr]. *)
Definition load64 (m : memory) (a : Z) : outcome Z :=
  if aligned a then le <$> load_bytes m a 8 else Fault.

Definition not64 (x : Z) : Z := Z.lxor x ULONG_MAX.

(** ** The common shape of [strlen.c] and [strchr.c]

    [stop b] is what a byte test decides: [Some r] returns (with [r] and the
    address), [None] goes on.  [suspect w] is the word test. *)
Section scan.
Context {R : Type} (stop : Z → option R) (suspect : Z → bool).

(** [for (char_ptr = s; char_ptr & 7; ++char_ptr) ...]: at most seven
    rounds; [inl] is a return, [inr] the aligned pointer. *)
Fixpoint scan_head (fuel : nat) (m : memory) (p : Z) : outcome (Z * R + Z) :=
  if aligned p then Val (inr p)
  else match fuel with
       | O => NoFuel
       | S fuel' =>
           b ← load8 m p;
           match stop b with
           | Some r => Val (inl (p, r))
           | None => scan_head fuel' m (p + 1)
           end
       end.

(** The eight byte tests on [cp[0]] ... [cp[7]]. *)
Fixpoint scan_word (n : nat) (m : memory) (cp : Z) : outcome (option (Z * R)) :=
  match n with
  | O => Val None
  | S n' =>
      b ← load8 m cp;
      match stop b with
      | Some r => Val (Some (cp, r))
      | None => scan_word n' m (cp + 1)
      end
  end.

(** [for (;;) { longword = *longword_ptr++; if (suspect) {...} }]. *)
Fixpoint scan_words (fuel : nat) (m : memory) (p : Z) : outcome (Z * R) :=
  match fuel with
  | O => NoFuel
  | S fuel' =>
      w ← load64 m p;
      if suspect w then
        r ← scan_word 8 m p;
        match r with
        | Some pr => Val pr
        | None => scan_words fuel' m (p + 8)
        end
      else scan_words fuel' m (p + 8)
  end.

Definition scan (fuel : nat) (m : memory) (s : Z) : outcome (Z * R) :=
  h ← scan_head 8 m s;
  match h with
  | inl pr => Val pr
  | inr p => scan_words fuel m p
  end.
End scan.

(** ** [string/strlen.c] *)

Definition himagic : Z := Z.lor (Z.shiftl (Z.shiftl 0x80808080 16) 16) 0x80808080.
Definition lomagic : Z := Z.lor (Z.shiftl (Z.shiftl 0x01010101 16) 16) 0x01010101.

(** [((longword - lomagic) & ~longword & himagic) != 0]. *)
Definition has_zero (w : Z) : bool :=
  negb (Z.land (Z.land (wrapu 64 (w - lomagic)) (not64 w)) himagic =? 0).

Definition strlen_stop (b : Z) : option unit := if b =? 0 then Some () else None.

Definition strlen (fuel : nat) (m : memory) (str : Z) : outcome Z :=
  scan strlen_stop has_zero fuel m str ≫= λ r : Z * unit, Val (fst r - str).

(** ** [string/strchr.c] *)

(** [magic_bits = -1; magic_bits = magic_bits / 0xff * 0xfe << 1 >> 1 | 1]. *)
Definition magic_bits : Z :=
  Z.lor (Z.shiftr (wrapu 64 (Z.shiftl (ULONG_MAX / 0xff * 0xfe) 1)) 1) 1.

(** [(((longword + magic_bits) ^ ~longword) & ~magic_bits) != 0]. *)
Definition hole_unchanged (w : Z) : bool :=
  negb (Z.land (Z.lxor (wrapu 64 (w + magic_bits)) (not64 w)) (not64 magic_bits) =? 0).

Definition charmask (c : Z) : Z :=
  let m := Z.lor c (Z.shiftl c 8) in
  let m := Z.lor m (Z.shiftl m 16) in
  Z.lor m (Z.shiftl (Z.shiftl m 16) 16).

(** [Some true]: the byte is [c]; [Some false]: it is the terminator. *)
Definition strchr_stop (c b : Z) : option bool :=
  if b =? c then Some true else if b =? 0 then Some false else None.

Definition strchr_suspect (c w : Z) : bool :=
  hole_unchanged w || hole_unchanged (Z.lxor w (charmask c)).

Definition strchr (fuel : nat) (m : memory) (s c_in : Z) : outcome (option Z) :=
  let c := wrapu 8 c_in in
  scan (strchr_stop c) (strchr_suspect c) fuel m s ≫= λ r : Z * bool,
  Val (if snd r then Some (fst r) else None).

(** ** [string/memchr.c] *)

(** The two byte loops: before the pointer is aligned ([inr] carries the
    remaining count and the pointer) and after the word loop. *)
Fixpoint memchr_head (n : nat) (m : memory) (p c : Z) : outcome (Z + nat * Z) :=
  match n with
  | O => Val (inr (O, p))
  | S n' =>
      if aligned p then Val (inr (n, p))
      else b ← load8 m p;
           if b =? c then Val (inl p) else memchr_head n' m (p + 1) c
  end.

Definition repeated_one : Z := Z.lor 0x01010101 (Z.shiftl (Z.shiftl 0x01010101 31) 1).

(** [(((longword1 - repeated_one) & ~longword1) & (repeated_one << 7)) != 0]. *)
Definition memchr_suspect (w : Z) : bool :=
  negb (Z.land (Z.land (wrapu 64 (w - repeated_one)) (not64 w))
               (wrapu 64 (Z.shiftl repeated_one 7)) =? 0).

Fixpoint memchr_words (fuel n : nat) (m : memory) (p c : Z) : outcome (nat * Z) :=
  match fuel with
  | O => NoFuel
  | S fuel' =>
      if (8 <=? n)%nat then
        w ← load64 m p;
        if memchr_suspect (Z.lxor w (charmask c)) then Val (n, p)
        else memchr_words fuel' (n - 8) m (p + 8) c
      else Val (n, p)
  end.

Fixpoint memchr_tail (n : nat) (m : memory) (p c : Z) : outcome (option Z) :=
  match n with
  | O => Val None
  | S n' =>
      b ← load8 m p;
      if b =? c then Val (Some p) else memchr_tail n' m (p + 1) c
  end.

Definition memchr (m : memory) (s c_in : Z) (n : nat) : outcome (option Z) :=
  let c := wrapu 8 c_in in
  h ← memchr_head n m s c;
  match h with
  | inl p => Val (Some p)
  | inr (n, p) =>
      memchr_words (S n) n m p c ≫= λ np : nat * Z,
      memchr_tail (fst np) m (snd np) c
  end.

(** ** Bytes of a word *)

Lemma land_byte_bound b c : 0 <= b < 256 → 0 <= Z.land b c < 256.
Proof.
  intros Hb.
  replace (Z.land b c) with (Z.land b c mod 2 ^ 8); [apply Z.mod_pos_bound; lia|].
  rewrite <- Z.land_ones by lia. rewrite <- Z.land_assoc, (Z.land_comm c), Z.land_assoc.
  rewrite Z.land_ones by lia. by rewrite Z.mod_small by lia.
Qed.

(** Bitwise operators act on the low byte and the rest separately. *)
Lemma land_byte b v c w :
  0 <= b < 256 → 0 <= c < 256 →
  Z.land (b + 256 * v) (c + 256 * w) = Z.land b c + 256 * Z.land v w.
Proof.
  intros Hb Hc. apply Z.bits_inj'. intros i Hi.
  pose proof (land_byte_bound b c Hb) as Hbc.
  rewrite Z.land_spec. destruct (decide (i < 8)).
  - rewrite !testbit_byte_low, Z.land_spec by lia. done.
  - rewrite !testbit_byte_high, Z.land_spec by lia. done.
Qed.

Lemma lxor_byte_bound b c : 0 <= b < 256 → 0 <= c < 256 → 0 <= Z.lxor b c < 256.
Proof.
  intros Hb Hc. split; [apply Z.lxor_nonneg; lia|].
  destruct (decide (Z.lxor b c = 0)) as [->|Hne]; [lia|].
  assert (0 <= Z.lxor b c) by (apply Z.lxor_nonneg; lia).
  change 256 with (2 ^ 8). apply Z.log2_lt_pow2; [lia|].
  eapply Z.le_lt_trans; [apply Z.log2_lxor; lia|].
  apply Z.max_lub_lt.
  - destruct (decide (b = 0)) as [->|]; [done|]. apply Z.log2_lt_pow2; lia.
  - destruct (decide (c = 0)) as [->|]; [done|]. apply Z.log2_lt_pow2; lia.
Qed.

Lemma lxor_byte b v c w :
  0 <= b < 256 → 0 <= c < 256 →
  Z.lxor (b + 256 * v) (c + 256 * w) = Z.lxor b c + 256 * Z.lxor v w.
Proof.
  intros Hb Hc. apply Z.bits_inj'. intros i Hi.
  pose proof (lxor_byte_bound b c Hb Hc) as Hbc.
  rewrite Z.lxor_spec. destruct (decide (i < 8)).
  - rewrite !testbit_byte_low, Z.lxor_spec by lia. done.
  - rewrite !testbit_byte_high, Z.lxor_spec by lia. done.
Qed.

Lemma le_bound bs : bytes_ok bs → 0 <= le bs < 256 ^ Z.of_nat (length bs).
Proof.
  induction 1 as [|b bs Hb _ IH]; [done|].
  cbn [length le foldr]. rewrite Nat2Z.inj_succ, Z.pow_succ_r by lia.
  fold (le bs). lia.
Qed.

Lemma le_lxor bs cs :
  bytes_ok bs → bytes_ok cs → length bs = length cs →
  Z.lxor (le bs) (le cs) = le (zip_with Z.lxor bs cs).
Proof.
  intros Hbs; revert cs; induction Hbs as [|b bs Hb _ IH];
    intros [|c cs] Hcs Hl; try done.
  apply Forall_cons in Hcs as [Hc Hcs]. cbn [le foldr zip_with].
  fold (le bs) (le cs). rewrite lxor_byte by done.
  rewrite IH by (done || simpl in *; lia). done.
Qed.

(** For a byte value [P] can be checked by running over all 256 of them. *)
Definition all_bytes : list Z := seqZ 0 256.

Lemma byte_cases (P : Z → bool) b :
  forallb P all_bytes = true → 0 <= b < 256 → P b = true.
Proof.
  intros H Hb. rewrite forallb_forall in H. apply H.
  apply list_elem_of_In, elem_of_seqZ. lia.
Qed.

(** ** The zero-byte test of [strlen.c] and [memchr.c] is exact *)

Definition zero_mask (n : nat) (v : Z) : Z :=
  Z.land (Z.land ((v - le (replicate n 1)) mod 256 ^ Z.of_nat n)
                 (Z.lxor v (le (replicate n 255))))
         (le (replicate n 128)).

Lemma zero_mask_nonneg n v : 0 <= zero_mask n v.
Proof.
  unfold zero_mask. apply Z.land_nonneg. right.
  apply le_bound. apply Forall_replicate. lia.
Qed.

Lemma nonzero_byte_mask b :
  1 <= b < 256 → Z.land (Z.land (b - 1) (Z.lxor b 255)) 128 = 0.
Proof.
  intros Hb.
  pose proof (byte_cases (λ b, (b =? 0) || (Z.land (Z.land (b - 1) (Z.lxor b 255)) 128 =? 0))
    b ltac:(by vm_compute) ltac:(lia)) as H.
  apply orb_true_iff in H as [H|H]; lia.
Qed.

Lemma zero_mask_cons n b v :
  0 <= b < 256 → 0 <= v →
  zero_mask (S n) (b + 256 * v)
  = if b =? 0 then 128 + 256 * Z.land (Z.land ((v - le (replicate n 1) - 1) mod 256 ^ Z.of_nat n)
                         (Z.lxor v (le (replicate n 255)))) (le (replicate n 128))
    else 256 * zero_mask n v.
Proof.
  intros Hb Hv. unfold zero_mask. cbn [replicate le foldr].
  fold (le (replicate n 1)) (le (replicate n 255)) (le (replicate n 128)).
  rewrite Nat2Z.inj_succ, Z.pow_succ_r by lia.
  set (o := le (replicate n 1)). set (M := 256 ^ Z.of_nat n).
  assert (0 < M) by (unfold M; apply Z.pow_pos_nonneg; lia).
  rewrite lxor_byte by lia. destruct (Z.eqb_spec b 0) as [->|Hb0].
  - replace ((0 + 256 * v - (1 + 256 * o)) mod (256 * M))
      with (255 + 256 * ((v - o - 1) mod M)).
    2: { apply Z.mod_unique with ((v - o - 1) / M).
         - left. pose proof (Z.mod_pos_bound (v - o - 1) M ltac:(lia)). lia.
         - pose proof (Z.div_mod (v - o - 1) M ltac:(lia)). lia. }
    rewrite land_byte by (lia || by apply lxor_byte_bound).
    rewrite land_byte by (lia || done). done.
  - replace ((b + 256 * v - (1 + 256 * o)) mod (256 * M))
      with (b - 1 + 256 * ((v - o) mod M)).
    2: { apply Z.mod_unique with ((v - o) / M).
         - left. pose proof (Z.mod_pos_bound (v - o) M ltac:(lia)). lia.
         - pose proof (Z.div_mod (v - o) M ltac:(lia)). lia. }
    rewrite land_byte by (lia || apply lxor_byte_bound; lia).
    pose proof (land_byte_bound (b - 1) (Z.lxor b 255) ltac:(lia)).
    rewrite land_byte by lia. rewrite nonzero_byte_mask by lia. lia.
Qed.

Lemma zero_mask_spec bs : bytes_ok bs → zero_mask (length bs) (le bs) ≠ 0 ↔ 0 ∈ bs.
Proof.
  induction 1 as [|b bs Hb Hbs IH]; [split; [done|by intros ?%elem_of_nil]|].
  cbn [length le foldr]. fold (le bs).
  rewrite zero_mask_cons by (done || by apply le_bound). rewrite elem_of_cons.
  destruct (Z.eqb_spec b 0) as [->|Hb0].
  - split; [by left|]. intros _.
    match goal with |- 128 + 256 * ?x ≠ 0 => assert (0 <= x) end; [|lia].
    apply Z.land_nonneg. right. apply le_bound, Forall_replicate. lia.
  - rewrite <- IH. split; [intros H; right; lia|]. intros [?|H]; lia.
Qed.

Lemma has_zero_spec bs :
  bytes_ok bs → length bs = 8%nat → has_zero (le bs) = true ↔ 0 ∈ bs.
Proof.
  intros Hbs Hl. rewrite <- (zero_mask_spec bs Hbs), Hl.
  unfold has_zero. rewrite negb_true_iff, Z.eqb_neq. done.
Qed.

Lemma memchr_suspect_spec bs :
  bytes_ok bs → length bs = 8%nat → memchr_suspect (le bs) = true ↔ 0 ∈ bs.
Proof.
  intros Hbs Hl. rewrite <- (zero_mask_spec bs Hbs), Hl.
  unfold memchr_suspect. rewrite negb_true_iff, Z.eqb_neq. done.
Qed.

(** ** The hole test of [strchr.c] catches every zero byte *)

(** Bit [k] of the test is set when the addition leaves hole [k] alone. *)
Lemma hole_bit w k :
  0 <= k < 64 → Z.testbit magic_bits k = false →
  Z.testbit (wrapu 64 (w + magic_bits)) k = Z.testbit w k →
  hole_unchanged w = true.
Proof.
  intros Hk Hm Hs. unfold hole_unchanged. apply negb_true_iff, Z.eqb_neq.
  intros E. assert (Z.testbit 0 k = true) as Hb; [|by rewrite Z.bits_0 in Hb].
  rewrite <- E, Z.land_spec, Z.lxor_spec. unfold not64. rewrite !Z.lxor_spec.
  change ULONG_MAX with (Z.ones 64). rewrite Z.ones_spec_low by lia.
  rewrite Hs, Hm. by destruct (Z.testbit w k).
Qed.

Lemma testbit_odd_div a k : 0 <= k → Z.testbit a k = Z.odd (a / 2 ^ k).
Proof. intros Hk. by rewrite Z.testbit_odd, Z.shiftr_div_pow2. Qed.

Lemma odd_add_even a b : Z.even b = true → Z.odd (a + b) = Z.odd a.
Proof. intros H. by rewrite Z.odd_add, <- (Z.negb_even b), H, xorb_false_r. Qed.

(** A zero byte between a low part below [2^e] and a high part: the carry out
    of the low part is absorbed, so the hole above the byte is unchanged. *)
Lemma hole_above e lo hi :
  0 <= e → e + 8 < 64 → 0 <= lo < 2 ^ e → 0 <= hi < 2 ^ (56 - e) →
  lo + magic_bits mod 2 ^ e + 2 ^ e * (magic_bits / 2 ^ e mod 256) < 2 ^ (e + 8) →
  Z.testbit magic_bits (e + 8) = false →
  hole_unchanged (lo + 2 ^ (e + 8) * hi) = true.
Proof.
  intros He He' Hlo Hhi Hcar Hm.
  apply (hole_bit _ (e + 8)); [lia|done|].
  unfold wrapu. rewrite Z.mod_pow2_bits_low by lia.
  rewrite !testbit_odd_div by lia.
  set (P := 2 ^ (e + 8)) in *.
  assert (P = 2 ^ e * 256) as HP by (unfold P; rewrite Z.pow_add_r by lia; lia).
  assert (0 < 2 ^ e) by (apply Z.pow_pos_nonneg; lia).
  pose proof (Z.div_mod magic_bits (2 ^ e) ltac:(lia)) as D1.
  pose proof (Z.div_mod (magic_bits / 2 ^ e) 256 ltac:(lia)) as D2.
  assert (magic_bits / P = magic_bits / 2 ^ e / 256) as D3
    by (rewrite HP, Z.div_div by lia; done).
  pose proof (Z.mod_pos_bound magic_bits (2 ^ e) ltac:(lia)).
  pose proof (Z.mod_pos_bound (magic_bits / 2 ^ e) 256 ltac:(lia)).
  replace ((lo + P * hi + magic_bits) / P) with (hi + magic_bits / P).
  2: { apply Z.div_unique with
         (lo + magic_bits mod 2 ^ e + 2 ^ e * (magic_bits / 2 ^ e mod 256)); [lia|].
       rewrite D3. rewrite D1 at 1. rewrite D2 at 1. rewrite HP. ring. }
  replace ((lo + P * hi) / P) with hi.
  2: { apply Z.div_unique with lo; nia. }
  apply odd_add_even. rewrite testbit_odd_div in Hm by lia. fold P in Hm.
  by rewrite <- Z.negb_odd, Hm.
Qed.

Lemma le_split bs1 b bs2 :
  le (bs1 ++ b :: bs2)
  = le bs1 + 256 ^ Z.of_nat (length bs1) * (b + 256 * le bs2).
Proof.
  induction bs1 as [|x bs1 IH]; cbn [app le foldr length].
  - fold (le bs2). lia.
  - fold (le (bs1 ++ b :: bs2)) (le bs1). rewrite IH, Nat2Z.inj_succ, Z.pow_succ_r by lia.
    ring.
Qed.

(** The last byte: the hole is its own top bit. *)
Lemma hole_top lo : 0 <= lo < 2 ^ 56 → hole_unchanged lo = true.
Proof.
  intros Hlo. apply (hole_bit _ 63); [lia|done|].
  unfold wrapu. rewrite Z.mod_pow2_bits_low by lia.
  rewrite !testbit_odd_div by lia.
  rewrite !Z.div_small; [done|lia|].
  assert (magic_bits = 0x7efefefefefefeff) as -> by done. lia.
Qed.

(** The carry condition of [hole_above] for each byte below the last. *)
Lemma hole_carry k :
  (k < 7)%nat → let e := 8 * Z.of_nat k in
  2 ^ e - 1 + magic_bits mod 2 ^ e + 2 ^ e * (magic_bits / 2 ^ e mod 256) < 2 ^ (e + 8)
  ∧ Z.testbit magic_bits (e + 8) = false.
Proof.
  intros Hk. do 7 (destruct k as [|k]; [by vm_compute|]). lia.
Qed.

Lemma hole_unchanged_zero bs :
  bytes_ok bs → length bs = 8%nat → 0 ∈ bs → hole_unchanged (le bs) = true.
Proof.
  intros Hbs Hl (bs1 & bs2 & ->)%list_elem_of_split.
  apply Forall_app in Hbs as [H1 [_ H2]%Forall_cons].
  rewrite length_app in Hl. cbn [length] in Hl.
  rewrite le_split, Z.add_0_l.
  pose proof (le_bound bs1 H1) as B1. pose proof (le_bound bs2 H2) as B2.
  set (k := length bs1) in *.
  replace (length bs2) with (7 - k)%nat in B2 by lia.
  assert (k = 7%nat ∨ (k < 7)%nat) as [->|Hk] by lia.
  - replace (le bs2) with 0 by (change (256 ^ Z.of_nat (7 - 7)) with 1 in B2; lia).
    rewrite !Z.mul_0_r, Z.add_0_r. apply hole_top. exact B1.
  - assert (∀ j : nat, 256 ^ Z.of_nat j = 2 ^ (8 * Z.of_nat j)) as Hp.
    { intros j. change 256 with (2 ^ 8). by rewrite <- Z.pow_mul_r by lia. }
    rewrite Hp in *. rewrite Z.mul_assoc.
    replace (2 ^ (8 * Z.of_nat k) * 256) with (2 ^ (8 * Z.of_nat k + 8))
      by (rewrite Z.pow_add_r by lia; done).
    replace (8 * Z.of_nat (7 - k)) with (56 - 8 * Z.of_nat k) in B2 by lia.
    destruct (hole_carry k Hk) as [Hc Hb].
    apply hole_above; [lia|lia|done|done|lia|done].
Qed.

(** ** [charmask] repeats the byte *)
Lemma charmask_spec c : 0 <= c < 256 → charmask c = le (replicate 8 c).
Proof.
  intros Hc. apply Z.eqb_eq.
  apply (byte_cases (λ c, charmask c =? le (replicate 8 c))); [by vm_compute|done].
Qed.

Lemma xor_charmask bs c :
  bytes_ok bs → length bs = 8%nat → 0 <= c < 256 →
  ∃ xs, Z.lxor (le bs) (charmask c) = le xs ∧ bytes_ok xs ∧ length xs = 8%nat ∧
        (0 ∈ xs ↔ c ∈ bs).
Proof.
  intros Hbs Hl Hc. rewrite charmask_spec by done.
  exists (flip Z.lxor c <$> bs). repeat split.
  - rewrite le_lxor, <- Hl, zip_with_replicate_r by
      (done || (apply Forall_replicate; lia) || by rewrite length_replicate). done.
  - apply Forall_fmap. eapply Forall_impl; [exact Hbs|].
    intros b Hb. by apply lxor_byte_bound.
  - by rewrite length_fmap.
  - intros (b & Hb & Hin)%list_elem_of_fmap. symmetry in Hb.
    apply Z.lxor_eq in Hb. by subst.
  - intros Hin. apply list_elem_of_fmap. exists c. split; [|done].
    symmetry. apply Z.lxor_nilpotent.
Qed.

(** ** Memory that is mapped word by word *)

Record well_mapped (m : memory) : Prop := {
  wm_byte : ∀ a b, m a = Some b → 0 <= b < 256;
  wm_word : ∀ a j, is_Some (m a) → 0 <= j < 8 → is_Some (m (a - a mod 8 + j))
}.

(** [m] holds the bytes [bs] from address [a] on. *)
Definition holds (m : memory) (a : Z) (bs : list Z) : Prop :=
  ∀ i b, bs !! i = Some b → m (a + Z.of_nat i) = Some b.

Lemma aligned_spec a : aligned a = true ↔ a mod 8 = 0.
Proof.
  unfold aligned. change (SIZEOF_LONG - 1) with (Z.ones 3).
  rewrite Z.land_ones by lia. apply Z.eqb_eq.
Qed.

Lemma load_bytes_spec m a n :
  (∀ j, 0 <= j < Z.of_nat n → is_Some (m (a + j))) →
  ∃ bs, load_bytes m a n = Val bs ∧ length bs = n ∧
        ∀ j, (j < n)%nat → m (a + Z.of_nat j) = bs !! j.
Proof.
  revert a; induction n as [|n IH]; intros a Hm.
  - exists []. repeat split; [done..|]. lia.
  - destruct (Hm 0 ltac:(lia)) as [b Hb]. rewrite Z.add_0_r in Hb.
    destruct (IH (a + 1)) as (bs & E & Hl & Hbs).
    { intros j Hj. rewrite <- Z.add_assoc. apply Hm. lia. }
    exists (b :: bs). cbn [load_bytes]. unfold load8. rewrite Hb, E. simpl.
    repeat split; [lia|]. intros [|j] Hj; simpl.
    + by rewrite Z.add_0_r.
    + rewrite <- Hbs by lia. f_equal. lia.
Qed.

Lemma load64_spec m p :
  well_mapped m → p mod 8 = 0 → is_Some (m p) →
  ∃ bs, load64 m p = Val (le bs) ∧ length bs = 8%nat ∧ bytes_ok bs ∧
        ∀ j, (j < 8)%nat → m (p + Z.of_nat j) = bs !! j.
Proof.
  intros Hm Hp Hs.
  destruct (load_bytes_spec m p 8) as (bs & E & Hl & Hbs).
  { intros j Hj. rewrite <- (Z.sub_0_r p) at 1. rewrite <- Hp.
    apply (wm_word m Hm); [done|lia]. }
  exists bs. unfold load64. rewrite (proj2 (aligned_spec p) Hp), E.
  repeat split; [done| |done].
  apply Forall_lookup. intros j b Hj.
  eapply (wm_byte m Hm). rewrite Hbs; [exact Hj|].
  apply lookup_lt_Some in Hj. lia.
Qed.

(** ** The scan finds the first stopping byte *)
Section scan_correct.
Context {R : Type} (stop : Z → option R) (suspect : Z → bool).
Hypothesis suspect_sound : ∀ bs b r,
  bytes_ok bs → length bs = 8%nat → b ∈ bs → stop b = Some r →
  suspect (le bs) = true.
Variables (m : memory) (e be : Z) (r : R).
Hypothesis Hm : well_mapped m.
Hypothesis He : m e = Some be.
Hypothesis Hbe : stop be = Some r.

(** No byte of [p, e) stops the search. *)
Definition clear_from (p : Z) : Prop :=
  ∀ a, p <= a < e → ∃ b, m a = Some b ∧ stop b = None.

Lemma scan_word_spec n p :
  p <= e → clear_from p →
  scan_word stop n m p
  = Val (if e <? p + Z.of_nat n then Some (e, r) else None).
Proof using He Hbe.
  revert p; induction n as [|n IH]; intros p Hp Hc; cbn [scan_word].
  - destruct (Z.ltb_spec e (p + Z.of_nat 0)); [lia|done].
  - unfold load8. destruct (decide (p = e)) as [->|Hne].
    + rewrite He; cbn [deref mbind outcome_bind]. rewrite Hbe.
      destruct (Z.ltb_spec e (e + Z.of_nat (S n))); [done|lia].
    + destruct (Hc p ltac:(lia)) as (b & -> & Hb); cbn [deref mbind outcome_bind].
      rewrite Hb, IH by (lia || (intros a Ha; apply Hc; lia)).
      by replace (p + 1 + Z.of_nat n) with (p + Z.of_nat (S n)) by lia.
Qed.

Lemma scan_words_spec fuel p :
  p mod 8 = 0 → p <= e → clear_from p → e - p < 8 * Z.of_nat fuel →
  scan_words stop suspect fuel m p = Val (e, r).
Proof using suspect_sound Hm He Hbe.
  revert p; induction fuel as [|fuel IH]; intros p Hal Hp Hc Hf; [lia|].
  cbn [scan_words].
  assert (is_Some (m p)) as Hs.
  { destruct (decide (p = e)) as [->|]; [by eexists|].
    destruct (Hc p ltac:(lia)) as (b & -> & _). by eexists. }
  destruct (load64_spec m p Hm Hal Hs) as (bs & -> & Hl & Hok & Hbs).
  cbn [mbind outcome_bind].
  rewrite scan_word_spec by done. cbn [mbind outcome_bind].
  destruct (Z.ltb_spec e (p + Z.of_nat 8)) as [Hlt|Hge].
  - rewrite (suspect_sound bs be r) by
      (done || (apply list_elem_of_lookup; exists (Z.to_nat (e - p));
                rewrite <- Hbs by lia; rewrite <- He; f_equal; lia)).
    done.
  - assert (scan_words stop suspect fuel m (p + 8) = Val (e, r)) as E.
    { apply IH; [|lia| |lia].
      - by rewrite Z.add_mod, Hal by lia.
      - intros a Ha. apply Hc. lia. }
    by destruct (suspect (le bs)).
Qed.

Lemma scan_head_spec fuel p :
  p <= e → clear_from p → (- p) mod 8 <= Z.of_nat fuel →
  scan_head stop fuel m p = Val (inl (e, r)) ∨
  ∃ q, scan_head stop fuel m p = Val (inr q) ∧ q mod 8 = 0 ∧ p <= q <= e.
Proof using He Hbe.
  revert p; induction fuel as [|fuel IH]; intros p Hp Hc Hf;
    cbn [scan_head]; destruct (aligned p) eqn:E.
  - right. exists p. apply aligned_spec in E. by repeat split.
  - apply not_true_iff_false in E. rewrite aligned_spec in E. exfalso.
    assert ((- p) mod 8 = 0) by (pose proof (Z.mod_pos_bound (- p) 8); lia).
    apply E. rewrite <- (Z.opp_involutive p). by apply Z_mod_zero_opp_full.
  - right. exists p. apply aligned_spec in E. by repeat split.
  - apply not_true_iff_false in E. rewrite aligned_spec in E.
    unfold load8. destruct (decide (p = e)) as [->|Hne].
    + left. rewrite He; simpl. by rewrite Hbe.
    + destruct (Hc p ltac:(lia)) as (b & -> & Hb); simpl. rewrite Hb.
      destruct (IH (p + 1)) as [H|(q & H & Hq & Hpq)].
      * lia.
      * intros a Ha. apply Hc. lia.
      * Z.div_mod_to_equations. lia.
      * by left.
      * right. exists q. repeat split; [done..|lia|lia].
Qed.

Lemma scan_spec fuel s :
  s <= e → clear_from s → e - s < 8 * Z.of_nat fuel →
  scan stop suspect fuel m s = Val (e, r).
Proof using suspect_sound Hm He Hbe.
  intros Hs Hc Hf. unfold scan.
  destruct (scan_head_spec 8 s Hs Hc) as [->|(q & -> & Hq & Hsq)].
  { pose proof (Z.mod_pos_bound (- s) 8). lia. }
  - done.
  - cbn. apply scan_words_spec; [done|lia| |lia].
    intros a Ha. apply Hc. lia.
Qed.
End scan_correct.

(** ** [strlen] and [strchr] refine their byte-by-byte meanings *)

Lemma strlen_suspect_sound bs b r :
  bytes_ok bs → length bs = 8%nat → b ∈ bs → strlen_stop b = Some r →
  has_zero (le bs) = true.
Proof.
  unfold strlen_stop. intros Hok Hl Hb. destruct (Z.eqb_spec b 0) as [->|]; [|done].
  intros _. by apply has_zero_spec.
Qed.

Lemma strchr_suspect_sound c bs b r :
  0 <= c < 256 →
  bytes_ok bs → length bs = 8%nat → b ∈ bs → strchr_stop c b = Some r →
  strchr_suspect c (le bs) = true.
Proof.
  unfold strchr_stop, strchr_suspect. intros Hc Hok Hl Hb.
  destruct (Z.eqb_spec b c) as [->|].
  - intros _. destruct (xor_charmask bs c Hok Hl Hc) as (xs & -> & Hx & Hlx & Hz).
    rewrite (hole_unchanged_zero xs) by (done || by apply Hz). apply orb_true_r.
  - destruct (Z.eqb_spec b 0) as [->|]; [|done]. intros _.
    by rewrite hole_unchanged_zero.
Qed.

(** The first stopping index of a search in a buffer. *)
Lemma strchr_first p c o :
  CString.strchr p c = Val o →
  ∃ i b r, p !! i = Some b ∧ strchr_stop c b = Some r ∧
    (∀ j x, (j < i)%nat → p !! j = Some x → strchr_stop c x = None) ∧
    o = (if r : bool then Some (drop i p) else None).
Proof.
  unfold strchr_stop. revert o.
  induction p as [|b p IH]; intros o; cbn [CString.strchr]; [done|].
  destruct (b =? c) eqn:E1; [|destruct (b =? 0) eqn:E2].
  - intros [= <-]. exists 0%nat, b, true. rewrite E1. repeat split. lia.
  - intros [= <-]. exists 0%nat, b, false. rewrite E1, E2. repeat split. lia.
  - intros (i & x & r & Hi & Hx & Hlt & ->)%IH. exists (S i), x, r.
    repeat split; [done..|]. intros [|j] y Hj Hy.
    + injection Hy as <-. by rewrite E1, E2.
    + by apply (Hlt j); [lia|].
Qed.

Lemma holds_clear {R} (stop : Z → option R) m a p i b :
  holds m a p → p !! i = Some b →
  (∀ j x, (j < i)%nat → p !! j = Some x → stop x = None) →
  clear_from stop m (a + Z.of_nat i) a.
Proof.
  intros Hh Hi Hlt x Hx.
  destruct (lookup_lt_is_Some_2 p (Z.to_nat (x - a))) as [y Hy].
  { apply lookup_lt_Some in Hi. lia. }
  exists y. split; [|apply (Hlt (Z.to_nat (x - a))); [lia|done]].
  rewrite <- (Hh _ _ Hy). f_equal. lia.
Qed.

Lemma strchr_refines fuel m a p c_in o :
  well_mapped m → holds m a p →
  CString.strchr p (wrapu 8 c_in) = Val o →
  Z.of_nat (length p) <= 8 * Z.of_nat fuel →
  strchr fuel m a c_in
  = Val ((λ q, a + Z.of_nat (length p - length q)) <$> o).
Proof.
  intros Hm Hh Ho Hf. unfold strchr. set (c := wrapu 8 c_in) in *.
  assert (0 <= c < 256) as Hc by (by apply wrapu_bound).
  destruct (strchr_first p c o Ho) as (i & b & r & Hi & Hb & Hlt & ->).
  pose proof (lookup_lt_Some _ _ _ Hi) as Hil.
  rewrite (scan_spec _ _ (λ bs b r, strchr_suspect_sound c bs b r Hc) m
    (a + Z.of_nat i) b r Hm (Hh _ _ Hi) Hb).
  - cbn. destruct r; [|done]. simpl. do 2 f_equal. rewrite length_drop. lia.
  - lia.
  - by eapply holds_clear.
  - lia.
Qed.

Lemma strlen_refines fuel m a p n :
  well_mapped m → holds m a p →
  CString.strlen p = Val n → Z.of_nat n < 8 * Z.of_nat fuel →
  strlen fuel m a = Val (Z.of_nat n).
Proof.
  intros Hm Hh Hn Hf. unfold CString.strlen in Hn. inv_outcome. subst n.
  apply cstr_inv in Ha as (Hs & t & ->).
  assert ((a0 ++ 0 :: t) !! length a0 = Some 0) as Hi by by apply list_lookup_middle.
  unfold strlen.
  rewrite (scan_spec _ _ strlen_suspect_sound m (a + Z.of_nat (length a0)) 0 () Hm
    (Hh _ _ Hi) eq_refl).
  - cbn. f_equal. lia.
  - lia.
  - eapply holds_clear; [done..|]. intros j x Hj Hx.
    rewrite lookup_app_l in Hx by done.
    unfold strlen_stop. destruct (Z.eqb_spec x 0) as [->|]; [|done].
    exfalso. by eapply (Forall_lookup_1 _ _ _ _ Hs).
  - lia.
Qed.

(** ** [memchr] *)
Section memchr_correct.
Variables (m : memory) (e c : Z).
Hypothesis Hm : well_mapped m.
Hypothesis Hc : 0 <= c < 256.

(** From [p] on, with [n] bytes to go: the first [c] is at [e] when that is
    in range; all bytes the search must look at are mapped. *)
Definition search_at (p : Z) (n : nat) : Prop :=
  p <= e ∧ (e < p + Z.of_nat n → m e = Some c) ∧
  ∀ a, p <= a < e → a < p + Z.of_nat n → ∃ b, m a = Some b ∧ b ≠ c.

Definition answer (p : Z) (n : nat) : option Z :=
  if e <? p + Z.of_nat n then Some e else None.

Lemma search_step p n :
  search_at p (S n) → p < e → ∃ b, m p = Some b ∧ b ≠ c ∧ search_at (p + 1) n.
Proof using.
  intros (Hp & He & Hb) Hlt. destruct (Hb p ltac:(lia) ltac:(lia)) as (b & Hpb & Hne).
  exists b. split_and!; [done..|]. split_and!; [lia|intros; apply He; lia|].
  intros a Ha Ha'. apply Hb; lia.
Qed.

Lemma answer_step p n : answer (p + 1) n = answer p (S n).
Proof using. unfold answer. by replace (p + 1 + Z.of_nat n) with (p + Z.of_nat (S n)) by lia. Qed.

Lemma memchr_tail_spec n p : search_at p n → memchr_tail n m p c = Val (answer p n).
Proof using.
  revert p; induction n as [|n IH]; intros p Hs; cbn [memchr_tail].
  - destruct Hs as (Hp & _ & _). unfold answer.
    destruct (Z.ltb_spec e (p + Z.of_nat 0)); [lia|done].
  - unfold load8. destruct (decide (p = e)) as [->|Hne].
    + destruct Hs as (_ & He & _). rewrite He by lia. cbn.
      rewrite Z.eqb_refl. unfold answer.
      destruct (Z.ltb_spec e (e + Z.of_nat (S n))); [done|lia].
    + destruct (search_step p n Hs) as (b & -> & Hb & Hs').
      { destruct Hs. lia. }
      cbn [deref mbind outcome_bind]. destruct (Z.eqb_spec b c); [done|].
      by rewrite IH, answer_step.
Qed.

Lemma memchr_head_spec n p :
  search_at p n →
  (memchr_head n m p c = Val (inl e) ∧ answer p n = Some e) ∨
  ∃ n' p', memchr_head n m p c = Val (inr (n', p')) ∧ search_at p' n' ∧
           answer p' n' = answer p n ∧ (n' = 0%nat ∨ p' mod 8 = 0).
Proof using.
  revert p; induction n as [|n IH]; intros p Hs; cbn [memchr_head].
  - right. exists 0%nat, p. split_and!; [done..|by left].
  - destruct (aligned p) eqn:E.
    { right. exists (S n), p. apply aligned_spec in E.
      split_and!; [done..|by right]. }
    unfold load8. destruct (decide (p = e)) as [->|Hne].
    + left. destruct Hs as (_ & He & _). rewrite He by lia. cbn.
      rewrite Z.eqb_refl. split; [done|]. unfold answer.
      destruct (Z.ltb_spec e (e + Z.of_nat (S n))); [done|lia].
    + destruct (search_step p n Hs) as (b & -> & Hb & Hs').
      { destruct Hs. lia. }
      cbn [deref mbind outcome_bind]. destruct (Z.eqb_spec b c); [done|].
      rewrite <- answer_step. by apply IH.
Qed.

Lemma memchr_words_spec fuel n p :
  (n < fuel)%nat → search_at p n → n = 0%nat ∨ p mod 8 = 0 →
  ∃ n' p', memchr_words fuel n m p c = Val (n', p') ∧ search_at p' n' ∧
           answer p' n' = answer p n.
Proof using Hm Hc.
  revert n p; induction fuel as [|fuel IH]; intros n p Hf Hs Hal; [lia|].
  cbn [memchr_words]. destruct (Nat.leb_spec 8 n); [|by eauto].
  destruct Hal as [|Hal]; [lia|].
  destruct Hs as (Hp & He & Hb).
  assert (is_Some (m p)) as Hsome.
  { destruct (decide (p = e)) as [->|]; [rewrite He by lia; by eexists|].
    destruct (Hb p ltac:(lia) ltac:(lia)) as (b & -> & _). by eexists. }
  destruct (load64_spec m p Hm Hal Hsome) as (bs & -> & Hl & Hok & Hbs).
  cbn [mbind outcome_bind].
  destruct (xor_charmask bs c Hok Hl Hc) as (xs & -> & Hx & Hlx & Hz).
  destruct (memchr_suspect (le xs)) eqn:Hsus.
  { exists n, p. by split_and!. }
  apply not_true_iff_false in Hsus.
  rewrite memchr_suspect_spec, Hz in Hsus by done.
  assert (p + 8 <= e) as He8.
  { apply Z.nlt_ge. intros Hlt. apply Hsus.
    apply list_elem_of_lookup. exists (Z.to_nat (e - p)).
    rewrite <- Hbs by lia. rewrite <- (He ltac:(lia)). f_equal. lia. }
  destruct (IH (n - 8)%nat (p + 8)) as (n' & p' & E & Hs' & Ha').
  - lia.
  - split_and!; [lia|intros; apply He; lia|]. intros a Ha Ha'. apply Hb; lia.
  - right. by rewrite Z.add_mod, Hal by lia.
  - exists n', p'. split_and!; [done..|]. rewrite Ha'. unfold answer.
    by replace (p + 8 + Z.of_nat (n - 8)) with (p + Z.of_nat n) by lia.
Qed.

Lemma memchr_search s c_in n :
  c = wrapu 8 c_in → search_at s n → memchr m s c_in n = Val (answer s n).
Proof using Hm Hc.
  intros E Hs. unfold memchr. rewrite <- E.
  destruct (memchr_head_spec n s Hs) as [[-> ->]|(n1 & p1 & -> & Hs1 & <- & Hal)]; [done|].
  cbn [mbind outcome_bind]. destruct (memchr_words_spec (S n1) n1 p1) as (n2 & p2 & -> & Hs2 & <-);
    [lia|done..|].
  by apply memchr_tail_spec.
Qed.
End memchr_correct.

(** ** A concrete memory: one mapped block *)

Definition mem_list (base : Z) (bs : list Z) : memory := λ a,
  if base <=? a then bs !! Z.to_nat (a - base) else None.

Lemma mem_list_well_mapped base bs :
  base mod 8 = 0 → Z.of_nat (length bs) mod 8 = 0 → bytes_ok bs →
  well_mapped (mem_list base bs).
Proof.
  intros Hb Hl Hok. unfold mem_list. split; intros a.
  - intros b. destruct (base <=? a); [|done].
    apply (Forall_lookup_1 _ _ _ _ Hok).
  - intros j. destruct (Z.leb_spec base a) as [Hle|]; [|by intros []].
    intros H%lookup_lt_is_Some Hj.
    destruct (Z.leb_spec base (a - a mod 8 + j)).
    + apply lookup_lt_is_Some. Z.div_mod_to_equations. lia.
    + Z.div_mod_to_equations. lia.
Qed.

Lemma mem_list_holds base bs a :
  base <= a → holds (mem_list base bs) a (drop (Z.to_nat (a - base)) bs).
Proof.
  intros Ha i b Hi. unfold mem_list.
  destruct (Z.leb_spec base (a + Z.of_nat i)); [|lia].
  rewrite lookup_drop in Hi. rewrite <- Hi. f_equal. lia.
Qed.

(** ** Main theorems *)

(** [strlen.c] on any mapped C string returns, without a fault and within
    [n / 8 + 1] word reads, the number of bytes before the terminator, whatever
    the alignment of the pointer. *)
Theorem strlen_word_correct m a p n :
  well_mapped m → holds m a p → CString.strlen p = Val n →
  strlen (S (n / 8)) m a = Val (Z.of_nat n).
Proof.
  intros Hm Hh Hn. apply (strlen_refines _ m a p); [done..|].
  pose proof (Nat.div_mod_eq n 8). pose proof (Nat.mod_upper_bound n 8). lia.
Qed.

Definition demo_mem : memory := mem_list 4096 ($"xx/usr/lib/libc.so" ++ [0; 7; 7; 7; 7; 7]).

Lemma demo_mem_ok : well_mapped demo_mem.
Proof. apply mem_list_well_mapped; [done..|]. apply (bool_decide_unpack _). by vm_compute. Qed.

Lemma demo_mem_holds : holds demo_mem 4099 ($"usr/lib/libc.so" ++ [0; 7; 7; 7; 7; 7]).
Proof. exact (mem_list_holds 4096 _ 4099 ltac:(done)). Qed.

Lemma strlen_word_correct_witness : strlen 2 demo_mem 4099 = Val 15.
Proof.
  apply (strlen_word_correct demo_mem 4099 ($"usr/lib/libc.so" ++ [0; 7; 7; 7; 7; 7]) 15).
  - apply demo_mem_ok.
  - apply demo_mem_holds.
  - reflexivity.
Defined.

(** [strchr.c] on any mapped C string finds exactly what the byte-by-byte
    search finds, the first occurrence of [(unsigned char) c] or nothing,
    although its word test also fires on words without a match. *)
Theorem strchr_word_correct m a p c_in o :
  well_mapped m → holds m a p → CString.strchr p (wrapu 8 c_in) = Val o →
  strchr (S (length p / 8)) m a c_in
  = Val ((λ q, a + Z.of_nat (length p - length q)) <$> o).
Proof.
  intros Hm Hh Ho. apply strchr_refines; [done..|].
  pose proof (Nat.div_mod_eq (length p) 8).
  pose proof (Nat.mod_upper_bound (length p) 8). lia.
Qed.

Lemma strchr_word_correct_witness : strchr 3 demo_mem 4099 47 = Val (Some 4102).
Proof.
  apply (strchr_word_correct demo_mem 4099 ($"usr/lib/libc.so" ++ [0; 7; 7; 7; 7; 7]) 47
    (Some ($"/lib/libc.so" ++ [0; 7; 7; 7; 7; 7]))).
  - apply demo_mem_ok.
  - apply demo_mem_holds.
  - reflexivity.
Defined.

(** [memchr.c] returns the first occurrence of the byte among the first
    [n], and [NULL] when there is none; only the bytes up to the match need to
    be mapped, so a count larger than the object is harmless when the byte
    occurs. *)
Theorem memchr_word_correct m a p c_in n :
  well_mapped m → holds m a p →
  let c := wrapu 8 c_in in
  (∀ x t, p = x ++ c :: t → c ∉ x → (length x < n)%nat →
     memchr m a c_in n = Val (Some (a + Z.of_nat (length x)))) ∧
  (c ∉ p → length p = n → memchr m a c_in n = Val None).
Proof.
  intros Hm Hh c. assert (0 <= c < 256) as Hc by by apply wrapu_bound.
  assert (∀ x t, p = x ++ t → c ∉ x → ∀ b, a <= b < a + Z.of_nat (length x) →
    ∃ y, m b = Some y ∧ y ≠ c) as Hx.
  { intros x t -> Hx b Hb.
    destruct (lookup_lt_is_Some_2 x (Z.to_nat (b - a))) as [y Hy]; [lia|].
    exists y. split; [|intros ->; by apply Hx, (list_elem_of_lookup_2 _ _ _ Hy)].
    rewrite <- (Hh (Z.to_nat (b - a)) y) by by apply lookup_app_l_Some.
    f_equal. lia. }
  split.
  - intros x t -> Hcx Hn.
    rewrite (memchr_search m (a + Z.of_nat (length x)) c); [|done..|].
    + unfold answer. destruct (Z.ltb_spec (a + Z.of_nat (length x)) (a + Z.of_nat n));
        [done|lia].
    + split_and!; [lia| |intros b Hb _; by apply (Hx x (c :: t))].
      intros _. by apply Hh, list_lookup_middle.
  - intros Hcp <-.
    rewrite (memchr_search m (a + Z.of_nat (length p)) c); [|done..|].
    + unfold answer. destruct (Z.ltb_spec (a + Z.of_nat (length p)) (a + Z.of_nat (length p)));
        [lia|done].
    + split_and!; [lia|lia|]. intros b Hb _. apply (Hx p []); [by rewrite app_nil_r|done..].
Qed.

Lemma memchr_word_correct_witness :
  memchr demo_mem 4099 46 1000 = Val (Some 4111) ∧
  memchr demo_mem 4099 5 21 = Val None.
Proof.
  destruct (memchr_word_correct demo_mem 4099 ($"usr/lib/libc.so" ++ [0; 7; 7; 7; 7; 7]) 46 1000
    demo_mem_ok demo_mem_holds) as [H1 _].
  destruct (memchr_word_correct demo_mem 4099 ($"usr/lib/libc.so" ++ [0; 7; 7; 7; 7; 7]) 5 21
    demo_mem_ok demo_mem_holds) as [_ H2].
  split.
  - apply (H1 $"usr/lib/libc" ($"so" ++ [0; 7; 7; 7; 7; 7])).
    + reflexivity.
    + apply (bool_decide_unpack _). by vm_compute.
    + simpl. lia.
  - apply H2; [|reflexivity]. apply (bool_decide_unpack _). by vm_compute.
Defined.

End WordStr.
