(* ===== verification/Strtol.v ===== *)
(** * Integer parsing: [stdlib/strtol_l.c]

    The body shared by [strtol] and [strtoul] on a 64-bit target, in the C
    locale and without digit grouping ([group == 0], the only way the
    external entry points call it).  Positions are offsets from [nptr].  The
    theorems state the value read, the end pointer and [errno] for every
    base, and that every NUL-terminated string is handled without reading
    past its end. *)

From S2P Require Import Prelude CString.

Module Strtol.

Definition EINVAL : Z := 22.
Definition ERANGE : Z := 34.

(** What a call returns: the value, the store to [*endptr] (an offset from
    [nptr]) if any, and the [errno] it sets if any. *)
Record conv := Conv { ret : Z; endptr : option nat; set_errno : option Z }.

(** The C locale's [isspace], [isalpha] and [toupper]. *)
Definition isspace (c : Z) : bool := (c =? 32) || ((9 <=? c) && (c <=? 13)).
Definition isalpha (c : Z) : bool :=
  ((65 <=? c) && (c <=? 90)) || ((97 <=? c) && (c <=? 122)).
Definition toupper (c : Z) : Z := if (97 <=? c) && (c <=? 122) then c - 32 else c.

(** [while (ISSPACE ( *s)) ++s;] *)
Fixpoint skip_space (p : list Z) : outcome nat :=
  match p with
  | [] => Fault
  | c :: p' => if isspace c then S <$> skip_space p' else Val 0%nat
  end.

(** The tables [__strtol_ul_max_tab] and [__strtol_ul_rem_tab], indexed by
    [base - 2]. *)
Definition cutoff_tab : list Z := (λ x, ULONG_MAX / x) <$> seqZ 2 35.
Definition cutlim_tab : list Z := (λ x, ULONG_MAX mod x) <$> seqZ 2 35.

(** The value of a digit, [None] where the loop breaks. *)
Definition digit (base c : Z) : option Z :=
  let v := if (48 <=? c) && (c <=? 57) then Some (c - 48)
           else if isalpha c then Some (toupper c - 65 + 10)
           else None in
  v ≫= λ d, if base <=? d then None else Some d.

(** The conversion loop from [*s] on: how far [s] moved, [i] and
    [overflow]. *)
Fixpoint digits (base cutoff cutlim : Z) (p : list Z) (i : Z) (overflow : bool)
    : outcome (nat * Z * bool) :=
  match p with
  | [] => Fault
  | c :: p' =>
      if c =? 0 then Val (0%nat, i, overflow)
      else match digit base c with
           | None => Val (0%nat, i, overflow)
           | Some d =>
               let next :=
                 if (cutoff <? i) || ((i =? cutoff) && (cutlim <? d))
                 then digits base cutoff cutlim p' i true
                 else digits base cutoff cutlim p' (wrapu 64 (wrapu 64 (i * base) + d)) overflow in
               (λ r, (S r.1.1, r.1.2, r.2)) <$> next
           end
  end.

(** The label [noconv]. *)
Definition noconv (p : list Z) (save : nat) : outcome conv :=
  if (2 <=? save)%nat then
    x ← deref (p !! (save - 1)%nat);
    if toupper x =? 88 then
      z ← deref (p !! (save - 2)%nat);
      if z =? 48 then Val (Conv 0 (Some (save - 1)%nat) None)
      else Val (Conv 0 (Some 0%nat) None)
    else Val (Conv 0 (Some 0%nat) None)
  else Val (Conv 0 (Some 0%nat) None).

(** The number prefix: the offset after it and the base in force. *)
Definition prefix (p : list Z) (s : nat) (base : Z) : outcome (nat * Z) :=
  c ← deref (p !! s);
  if c =? 48 then
    if (base =? 0) || (base =? 16) then
      x ← deref (p !! S s);
      if toupper x =? 88 then Val ((s + 2)%nat, 16)
      else Val (s, if base =? 0 then 8 else base)
    else Val (s, base)
  else Val (s, if base =? 0 then 10 else base).

(** [__strtol_l_internal (nptr, endptr, base, 0, loc)] with [endptr] not
    null; [uns] is the [UNSIGNED] build. *)
Definition strtol_internal (uns : bool) (nptr : list Z) (base : Z) : outcome conv :=
  if (base <? 0) || (base =? 1) || (36 <? base) then Val (Conv 0 None (Some EINVAL))
  else
    s ← skip_space nptr;
    c ← deref (nptr !! s);
    if c =? 0 then noconv nptr 0
    else
      let negative := c =? 45 in
      let s := if (c =? 45) || (c =? 43) then S s else s in
      prefix nptr s base ≫= λ sb : nat * Z,
      let save := sb.1 in
      let base := sb.2 in
      cutoff ← deref (cutoff_tab !! Z.to_nat (base - 2));
      cutlim ← deref (cutlim_tab !! Z.to_nat (base - 2));
      digits base cutoff cutlim (drop save nptr) 0 false ≫= λ r : nat * Z * bool,
      let s := (save + r.1.1)%nat in
      let i := r.1.2 in
      let overflow := r.2 in
      if (r.1.1 =? 0)%nat then noconv nptr save
      else
        let overflow :=
          if uns then overflow
          else overflow || (i >? (if negative then - (LONG_MIN + 1) + 1 else LONG_MAX)) in
        if overflow then
          Val (Conv (if uns then ULONG_MAX else if negative then LONG_MIN else LONG_MAX)
                    (Some s) (Some ERANGE))
        else
          let v := if negative then - i else i in
          Val (Conv (if uns then wrapu 64 v else wraps 64 v) (Some s) None).

Definition strtol (nptr : list Z) (base : Z) : outcome conv := strtol_internal false nptr base.
Definition strtoul (nptr : list Z) (base : Z) : outcome conv := strtol_internal true nptr base.

(** ** The digit loop computes the number, or reports that it does not fit *)

(** The value of a digit string read after the value [i]. *)
Definition horner (base : Z) (i : Z) (ds : list Z) : Z :=
  foldl (λ v d, v * base + d) i ds.

(** [cs] is a digit string of the base with digit values [ds]. *)
Definition digit_string (base : Z) (cs ds : list Z) : Prop :=
  Forall2 (λ c d, c ≠ 0 ∧ digit base c = Some d) cs ds.

(** [x] ends a digit string. *)
Definition non_digit (base x : Z) : Prop := x = 0 ∨ digit base x = None.

Lemma digit_bound base c d : digit base c = Some d → 0 <= d < base.
Proof.
  unfold digit, isalpha, toupper.
  destruct (Z.leb_spec 48 c), (Z.leb_spec c 57), (Z.leb_spec 65 c), (Z.leb_spec c 90),
    (Z.leb_spec 97 c), (Z.leb_spec c 122); simpl; try done;
    case_match eqn:E; intros [= <-]; apply Z.leb_gt in E; lia.
Qed.

Lemma horner_ge base i ds :
  2 <= base → 0 <= i → Forall (λ d, 0 <= d) ds → i <= horner base i ds.
Proof.
  intros Hb; revert i; induction ds as [|d ds IH]; intros i Hi Hds; simpl; [lia|].
  apply Forall_cons in Hds as [Hd Hds].
  transitivity (i * base + d); [nia|]. apply IH; [nia|done].
Qed.

Lemma cutoff_test base i d :
  2 <= base → 0 <= i → 0 <= d < base →
  (ULONG_MAX / base <? i) || ((i =? ULONG_MAX / base) && (ULONG_MAX mod base <? d))
  = (ULONG_MAX <? i * base + d).
Proof.
  intros Hb Hi Hd.
  pose proof (Z.div_mod ULONG_MAX base ltac:(lia)) as D.
  pose proof (Z.mod_pos_bound ULONG_MAX base ltac:(lia)) as B.
  set (q := ULONG_MAX / base) in *. set (r := ULONG_MAX mod base) in *.
  destruct (Z.ltb_spec q i), (Z.eqb_spec i q), (Z.ltb_spec r d),
    (Z.ltb_spec ULONG_MAX (i * base + d)); simpl; try done; nia.
Qed.

Lemma digits_spec base cs ds x t i ov :
  2 <= base → digit_string base cs ds → Forall (λ d, 0 <= d < base) ds →
  non_digit base x → 0 <= i <= ULONG_MAX →
  ∃ i', digits base (ULONG_MAX / base) (ULONG_MAX mod base) (cs ++ x :: t) i ov
        = Val (length cs, i', ov || (ULONG_MAX <? horner base i ds)) ∧
        (ov = false → horner base i ds <= ULONG_MAX → i' = horner base i ds).
Proof.
  intros Hb Hcs; revert i ov; induction Hcs as [|c d cs ds [Hc Hd] Hcs IH];
    intros i ov Hds Hx Hi.
  - exists i. split; [|done]. cbn [app digits length horner foldl].
    assert ((ULONG_MAX <? i) = false) as -> by lia. rewrite orb_false_r.
    destruct Hx as [->|Hx]; [done|]. rewrite Hx. by destruct (x =? 0).
  - apply Forall_cons in Hds as [Hdb Hds]. cbn [app digits length horner foldl].
    destruct (Z.eqb_spec c 0); [done|]. rewrite Hd. rewrite cutoff_test by lia.
    fold (horner base (i * base + d) ds).
    destruct (Z.ltb_spec ULONG_MAX (i * base + d)) as [Hov|Hfit].
    + destruct (IH i true Hds Hx Hi) as (i' & -> & _). exists i'.
      assert (i * base + d <= horner base (i * base + d) ds).
      { apply horner_ge; [lia|nia|]. eapply Forall_impl; [exact Hds|]. simpl. lia. }
      cbn. destruct (Z.ltb_spec ULONG_MAX (horner base (i * base + d) ds)); [|lia].
      rewrite orb_true_r. split; [done|lia].
    + assert (0 <= i * base) by (apply Z.mul_nonneg_nonneg; lia).
      unfold wrapu. rewrite Zplus_mod_idemp_l, (Z.mod_small (i * base + d)) by (unfold ULONG_MAX in *; lia).
      destruct (IH (i * base + d) ov Hds Hx ltac:(lia)) as (i' & -> & Hi').
      exists i'. done.
Qed.

Lemma digit_string_bound base cs ds :
  digit_string base cs ds → Forall (λ d, 0 <= d < base) ds.
Proof.
  induction 1 as [|c d cs ds [_ Hd] _ IH]; constructor; [|done].
  by eapply digit_bound.
Qed.

(** A digit is neither blank nor a sign. *)
Lemma digit_char base c d :
  digit base c = Some d → isspace c = false ∧ c ≠ 45 ∧ c ≠ 43.
Proof.
  unfold digit, isalpha, isspace.
  destruct (Z.leb_spec 48 c), (Z.leb_spec c 57), (Z.leb_spec 65 c), (Z.leb_spec c 90),
    (Z.leb_spec 97 c), (Z.leb_spec c 122); simpl; try done; intros _;
    (split; [|lia]); apply orb_false_iff; split; lia.
Qed.

(** ** White space, sign and prefix *)

Lemma skip_space_spec ws c t :
  Forall (λ c, isspace c = true) ws → isspace c = false →
  skip_space (ws ++ c :: t) = Val (length ws).
Proof.
  intros H Hc; induction H as [|w ws Hw _ IH]; simpl; [by rewrite Hc|].
  by rewrite Hw, IH.
Qed.

(** The sign part of a number and whether it negates. *)
Inductive sign : list Z → bool → Prop :=
  | sign_none : sign [] false
  | sign_plus : sign [43] false
  | sign_minus : sign [45] true.

(** [number_prefix base pre rest eb]: with argument [base], the prefix [pre]
    in front of [rest] selects base [eb]. *)
Inductive number_prefix : Z → list Z → list Z → Z → Prop :=
  | np_hex base x rest :
      base = 0 ∨ base = 16 → x = 120 ∨ x = 88 → number_prefix base [48; x] rest 16
  | np_octal x rest : toupper x ≠ 88 → number_prefix 0 [] (48 :: x :: rest) 8
  | np_decimal c rest : c ≠ 48 → number_prefix 0 [] (c :: rest) 10
  | np_given base c x rest :
      2 <= base <= 36 → (base = 16 → c = 48 → toupper x ≠ 88) →
      number_prefix base [] (c :: x :: rest) base.

Lemma lookup_at (a : list Z) (c : Z) (t : list Z) : (a ++ c :: t) !! length a = Some c.
Proof. by apply list_lookup_middle. Qed.

Lemma lookup_after (a : list Z) (c x : Z) (t : list Z) :
  (a ++ c :: x :: t) !! S (length a) = Some x.
Proof.
  change (c :: x :: t) with ([c] ++ x :: t). rewrite app_assoc.
  rewrite <- (lookup_at (a ++ [c]) x t). f_equal. rewrite length_app. simpl. lia.
Qed.

Lemma prefix_spec base pre rest eb a :
  number_prefix base pre rest eb →
  prefix (a ++ pre ++ rest) (length a) base = Val ((length a + length pre)%nat, eb).
Proof.
  destruct 1 as [base x rest Hb Hx|x rest Hx|c rest Hc|base c x rest Hb Hx];
    unfold prefix; cbn [app]; rewrite lookup_at; cbn [deref mbind outcome_bind].
  - rewrite lookup_after. cbn.
    assert ((base =? 0) || (base =? 16) = true) as -> by (destruct Hb; subst; done).
    by destruct Hx; subst.
  - rewrite lookup_after. cbn. destruct (Z.eqb_spec (toupper x) 88); [done|].
    by rewrite Nat.add_0_r.
  - destruct (Z.eqb_spec c 48); [done|]. by rewrite Nat.add_0_r.
  - rewrite lookup_after. cbn [length]. rewrite Nat.add_0_r.
    destruct (Z.eqb_spec base 0); [lia|]. cbn [orb].
    destruct (Z.eqb_spec c 48); [|done]. destruct (Z.eqb_spec base 16); [|done].
    cbn. destruct (Z.eqb_spec (toupper x) 88); [naive_solver|done].
Qed.

Lemma number_prefix_base base pre rest eb :
  number_prefix base pre rest eb → 2 <= eb <= 36 ∧ (base = 0 ∨ 2 <= base <= 36).
Proof. destruct 1; lia. Qed.

Lemma table_lookup (f : Z → Z) eb :
  2 <= eb <= 36 → (f <$> seqZ 2 35) !! Z.to_nat (eb - 2) = Some (f eb).
Proof.
  intros Hb. rewrite list_lookup_fmap, lookup_seqZ_lt by lia. simpl. do 2 f_equal. lia.
Qed.

(** A numeral: blanks, sign, prefix, digits, and what ends it. *)
Record numeral (base : Z) (ws sg pre cs : list Z) (x : Z) (t : list Z)
    (neg : bool) (eb : Z) (ds : list Z) : Prop := {
  nu_ws : Forall (λ c, isspace c = true) ws;
  nu_sign : sign sg neg;
  nu_prefix : number_prefix base pre (cs ++ x :: t) eb;
  nu_digits : digit_string eb cs ds;
  nu_some : cs ≠ [];
  nu_end : non_digit eb x
}.

(** The first character after the blanks. *)
Lemma numeral_head base ws sg pre cs x t neg eb ds :
  numeral base ws sg pre cs x t neg eb ds →
  ∃ c rest, sg ++ pre ++ cs ++ x :: t = c :: rest ∧ isspace c = false ∧ c ≠ 0 ∧
            (c =? 45) = neg ∧ ((c =? 45) || (c =? 43) = negb (bool_decide (sg = []))).
Proof.
  intros [_ Hs Hp Hd Hne _]. destruct Hs; cbn [app].
  - assert (∃ c rest d b, pre ++ cs ++ x :: t = c :: rest ∧ c ≠ 0 ∧ digit b c = Some d)
      as (c & rest & d & b & -> & Hc & (Hsp & H1 & H2)%digit_char).
    { inversion Hd as [|c' d' cs' ds' [Hc' Hd'] Hrest]; [by subst|].
      destruct pre as [|c pre]; [cbn [app]; eauto 10|].
      inversion Hp. subst. by eexists 48, _, 0, 10. }
    exists c, rest. split_and!; [done..|lia|].
    destruct (Z.eqb_spec c 45), (Z.eqb_spec c 43); done.
  - by eexists _, _.
  - by eexists _, _.
Qed.

(** The common part of [strtol] and [strtoul]: what the digit loop is run on
    and what it returns. *)
Lemma strtol_internal_numeral uns base ws sg pre cs x t neg eb ds :
  numeral base ws sg pre cs x t neg eb ds →
  let p := ws ++ sg ++ pre ++ cs ++ x :: t in
  let v := horner eb 0 ds in
  let off := length (ws ++ sg ++ pre ++ cs) in
  ∃ i, (v <= ULONG_MAX → i = v) ∧
  strtol_internal uns p base =
    (let overflow := ULONG_MAX <? v in
     let overflow :=
       if uns then overflow
       else overflow || (i >? (if neg then - (LONG_MIN + 1) + 1 else LONG_MAX)) in
     if overflow then
       Val (Conv (if uns then ULONG_MAX else if neg then LONG_MIN else LONG_MAX)
                 (Some off) (Some ERANGE))
     else
       let r := if neg then - i else i in
       Val (Conv (if uns then wrapu 64 r else wraps 64 r) (Some off) None)).
Proof.
  intros Hn p v off. destruct (numeral_head _ _ _ _ _ _ _ _ _ _ Hn)
    as (c & rest & E & Hsp & Hc0 & Hneg & Hsg).
  destruct Hn as [Hws Hs Hp Hd Hne Hx].
  destruct (number_prefix_base _ _ _ _ Hp) as [Heb Hbase].
  destruct (digits_spec eb cs ds x t 0 false ltac:(lia) Hd
    (digit_string_bound _ _ _ Hd) Hx ltac:(done)) as (i & Hdig & Hi).
  exists i. split; [by apply Hi|]. unfold strtol_internal.
  assert ((base <? 0) || (base =? 1) || (36 <? base) = false) as ->.
  { rewrite !orb_false_iff. lia. }
  subst p. rewrite E at 1. rewrite skip_space_spec by done. cbn [mbind outcome_bind].
  rewrite E at 1. rewrite lookup_at. cbn [deref mbind outcome_bind].
  destruct (Z.eqb_spec c 0); [done|]. rewrite Hsg, Hneg.
  assert ((if negb (bool_decide (sg = [])) then S (length ws) else length ws)
    = length (ws ++ sg)) as ->.
  { rewrite length_app. destruct Hs; simpl; lia. }
  rewrite app_assoc, (prefix_spec _ _ _ _ (ws ++ sg) Hp).
  cbn [mbind outcome_bind fst snd]. unfold cutoff_tab, cutlim_tab.
  rewrite !table_lookup by done. cbn [deref mbind outcome_bind].
  rewrite app_assoc, <- length_app, drop_app_length, Hdig. cbn [mbind outcome_bind fst snd].
  destruct (Nat.eqb_spec (length cs) 0) as [?%nil_length_inv|_]; [done|].
  subst off. rewrite !length_app, !Nat.add_assoc. done.
Qed.

(** ** Every C string is handled within its bounds *)
Section total.
Variables (s t : list Z).
Hypothesis Hs : nul_free s.
Abbreviation p := (s ++ 0 :: t).

Lemma lookup_in k : (k <= length s)%nat → ∃ c, p !! k = Some c ∧ (c ≠ 0 → (k < length s)%nat).
Proof using.
  intros Hk. destruct (decide (k = length s)) as [->|].
  - exists 0. by rewrite lookup_at.
  - destruct (lookup_lt_is_Some_2 p k) as [c Hc]; [rewrite length_app; simpl; lia|].
    exists c. split; [done|lia].
Qed.

Lemma skip_space_total u : nul_free u → ∃ k, skip_space (u ++ 0 :: t) = Val k ∧ (k <= length u)%nat.
Proof using.
  induction u as [|c u IH]; cbn [app skip_space length]; [by exists 0%nat|].
  intros [_ Hu]%nul_free_cons. destruct (isspace c); [|by exists 0%nat; split; [|lia]].
  destruct (IH Hu) as (k & -> & Hk). exists (S k). split; [done|lia].
Qed.

Lemma digits_total base co cl u i ov :
  nul_free u →
  ∃ n i' ov', digits base co cl (u ++ 0 :: t) i ov = Val (n, i', ov') ∧ (n <= length u)%nat.
Proof using.
  revert i ov; induction u as [|c u IH]; intros i ov; cbn [app digits length].
  - intros _. by exists 0%nat, i, ov.
  - intros [Hc Hu]%nul_free_cons. destruct (Z.eqb_spec c 0); [done|].
    destruct (digit base c) as [d|]; [|by exists 0%nat, i, ov; split; [|lia]].
    destruct ((co <? i) || ((i =? co) && (cl <? d))).
    + destruct (IH i true Hu) as (n' & i' & ov' & -> & Hn).
      exists (S n'), i', ov'. split; [done|lia].
    + destruct (IH (wrapu 64 (wrapu 64 (i * base) + d)) ov Hu) as (n' & i' & ov' & -> & Hn).
      exists (S n'), i', ov'. split; [done|lia].
Qed.

Lemma prefix_total k base :
  (k <= length s)%nat → base = 0 ∨ 2 <= base <= 36 →
  ∃ k' eb, prefix p k base = Val (k', eb) ∧ (k <= k' <= length s)%nat ∧ 2 <= eb <= 36.
Proof using.
  intros Hk Hb. unfold prefix. destruct (lookup_in k Hk) as (c & -> & Hc).
  cbn [deref mbind outcome_bind]. destruct (Z.eqb_spec c 48) as [->|].
  - specialize (Hc ltac:(done)).
    destruct (Z.eqb_spec base 0), (Z.eqb_spec base 16); cbn [orb];
      [lia|..|eexists _, _; split; [done|lia]];
      (destruct (lookup_in (S k) ltac:(lia)) as (x & -> & Hx);
       cbn [deref mbind outcome_bind]; destruct (Z.eqb_spec (toupper x) 88) as [E|];
       [assert (x ≠ 0) by (by intros ->)|];
       (eexists _, _; split; [done|lia])).
  - destruct (Z.eqb_spec base 0); (eexists _, _; split; [done|lia]).
Qed.

Lemma noconv_total k :
  (k <= length s)%nat →
  ∃ e, noconv p k = Val (Conv 0 (Some e) None) ∧ (e <= length s)%nat.
Proof using.
  intros Hk. unfold noconv. destruct (Nat.leb_spec 2 k); [|by exists 0%nat; split; [|lia]].
  destruct (lookup_in (k - 1) ltac:(lia)) as (x & -> & _).
  destruct (lookup_in (k - 2) ltac:(lia)) as (z & -> & _).
  cbn [deref mbind outcome_bind].
  destruct (toupper x =? 88); [|by exists 0%nat; split; [|lia]].
  destruct (z =? 48); (eexists; split; [done|lia]).
Qed.

Lemma strtol_internal_total uns base :
  ∃ r, strtol_internal uns p base = Val r ∧
       (2 <= base <= 36 → is_Some (endptr r)) ∧
       (∀ e, endptr r = Some e → (e <= length s)%nat) ∧
       (if uns then 0 <= ret r <= ULONG_MAX else LONG_MIN <= ret r <= LONG_MAX).
Proof using Hs.
  unfold strtol_internal.
  destruct ((base <? 0) || (base =? 1) || (36 <? base)) eqn:Eb.
  { eexists. split; [done|]. split; [|by destruct uns].
    rewrite !orb_true_iff in Eb. lia. }
  rewrite !orb_false_iff in Eb.
  destruct (skip_space_total s Hs) as (k & -> & Hk). cbn [mbind outcome_bind].
  destruct (lookup_in k Hk) as (c & -> & Hc). cbn [deref mbind outcome_bind].
  assert (∀ k e, (k <= length s)%nat → noconv p k = Val e →
    (2 <= base <= 36 → is_Some (endptr e)) ∧ (∀ e', endptr e = Some e' → (e' <= length s)%nat) ∧
    (if uns then 0 <= ret e <= ULONG_MAX else LONG_MIN <= ret e <= LONG_MAX)) as Hno.
  { intros k' e Hk' E. destruct (noconv_total k' Hk') as (e' & E' & He').
    rewrite E' in E. injection E as <-. split; [by eexists|].
    split; [naive_solver|by destruct uns]. }
  destruct (Z.eqb_spec c 0) as [->|Hc0].
  { destruct (noconv_total 0) as (e & E & He); [lia|]. eexists. split; [exact E|].
    apply (Hno 0%nat); [lia|done]. }
  specialize (Hc Hc0).
  destruct (prefix_total (if (c =? 45) || (c =? 43) then S k else k) base)
    as (k' & eb & -> & Hk' & Heb); [destruct (_ || _); lia|lia|].
  cbn [mbind outcome_bind fst snd]. unfold cutoff_tab, cutlim_tab.
  rewrite !table_lookup by done. cbn [deref mbind outcome_bind].
  destruct (digits_total eb (ULONG_MAX / eb) (ULONG_MAX mod eb) (drop k' s) 0 false)
    as (n & i & ov & E & Hn); [by apply Forall_drop|].
  rewrite drop_app_le, E by lia. rewrite length_drop in Hn.
  cbn [mbind outcome_bind fst snd].
  destruct (Nat.eqb_spec n 0).
  { destruct (noconv_total k') as (e0 & E' & He); [lia|]. eexists. split; [exact E'|].
    apply (Hno k'); [lia|done]. }
  pose proof (wrapu_bound 64 (if c =? 45 then - i else i) ltac:(lia)).
  pose proof (wraps_bound 64 (if c =? 45 then - i else i) ltac:(lia)).
  unfold ULONG_MAX, LONG_MIN, LONG_MAX in *.
  match goal with |- context [ if ?b then Val _ else Val _ ] => destruct b end;
    (eexists; split; [done|]); (split; [by eexists|]); (split; [cbn; intros ? [= <-]; lia|]);
    destruct uns; cbn; try destruct (c =? 45); lia.
Qed.
End total.

(** ** Main theorems *)

(** C31. [strtol] on a numeral (blanks, optional sign, the prefix the base
    admits, a non-empty digit string, a character that ends it) returns its
    value clamped to [long], sets [errno] to [ERANGE] exactly when the value
    does not fit, and stores the address just past the last digit, for every
    base and any number of digits. *)
Theorem strtol_correct base ws sg pre cs x t neg eb ds :
  numeral base ws sg pre cs x t neg eb ds →
  let v := if neg then - horner eb 0 ds else horner eb 0 ds in
  strtol (ws ++ sg ++ pre ++ cs ++ x :: t) base
  = Val (Conv (Z.max LONG_MIN (Z.min LONG_MAX v))
              (Some (length (ws ++ sg ++ pre ++ cs)))
              (if (LONG_MIN <=? v) && (v <=? LONG_MAX) then None else Some ERANGE)).
Proof.
  intros Hn v.
  destruct (strtol_internal_numeral false _ _ _ _ _ _ _ _ _ _ Hn) as (i & Hi & E).
  unfold strtol. rewrite E. clear E. cbv zeta.
  assert (0 <= horner eb 0 ds) as Hpos.
  { destruct Hn as [_ _ Hp Hd _ _]. apply number_prefix_base in Hp as [Hb _].
    apply digit_string_bound in Hd. apply horner_ge; [lia|lia|].
    eapply Forall_impl; [exact Hd|]. simpl. lia. }
  subst v. revert Hpos Hi. generalize (horner eb 0 ds). intros h Hpos Hi.
  unfold ULONG_MAX, LONG_MIN, LONG_MAX in *. rewrite Z.gtb_ltb.
  destruct (Z.ltb_spec 18446744073709551615 h) as [Hbig|Hfit]; cbn [orb].
  - destruct neg; do 2 f_equal; try lia;
      match goal with |- context [ if ?b then _ else _ ] => destruct b eqn:Eb end; lia || done.
  - rewrite Hi by lia. destruct neg; cbn [orb].
    all: match goal with |- context [ ?a <? ?b ] => destruct (Z.ltb_spec a b) end.
    all: rewrite ?wraps_small by lia; do 2 f_equal; try lia.
    all: match goal with |- context [ if ?b then _ else _ ] => destruct b eqn:Eb end; lia || done.
Qed.

Lemma strtol_correct_witness :
  strtol ($"  -0x80000000000000000zz" ++ [0]) 0 = Val (Conv LONG_MIN (Some 22%nat) (Some ERANGE)).
Proof.
  apply (strtol_correct 0 $"  " $"-" $"0x" $"80000000000000000" 122 ($"z" ++ [0]) true 16
    (8 :: replicate 16 0)).
  constructor.
  - repeat constructor.
  - constructor.
  - apply np_hex; by left.
  - repeat constructor; done.
  - done.
  - by right.
Defined.

(** [strtoul] returns the value of the numeral modulo [2^64] after its
    sign, or [ULONG_MAX] with [ERANGE] when the digits alone exceed
    [ULONG_MAX]: a minus sign is never an error. *)
Theorem strtoul_correct base ws sg pre cs x t neg eb ds :
  numeral base ws sg pre cs x t neg eb ds →
  let h := horner eb 0 ds in
  strtoul (ws ++ sg ++ pre ++ cs ++ x :: t) base
  = Val (if ULONG_MAX <? h
         then Conv ULONG_MAX (Some (length (ws ++ sg ++ pre ++ cs))) (Some ERANGE)
         else Conv (wrapu 64 (if neg then - h else h))
                   (Some (length (ws ++ sg ++ pre ++ cs))) None).
Proof.
  intros Hn h.
  destruct (strtol_internal_numeral true _ _ _ _ _ _ _ _ _ _ Hn) as (i & Hi & E).
  unfold strtoul. rewrite E. clear E. cbv zeta. fold h in Hi |- *.
  destruct (Z.ltb_spec ULONG_MAX h); [done|]. by rewrite Hi.
Qed.

Lemma strtoul_correct_witness :
  strtoul ($"-1:" ++ [0]) 10 = Val (Conv ULONG_MAX (Some 2%nat) None).
Proof.
  apply (strtoul_correct 10 [] $"-" [] $"1" 58 [0] true 10 [1]).
  constructor.
  - constructor.
  - constructor.
  - apply np_given; [lia|done].
  - repeat constructor; done.
  - done.
  - by right.
Defined.

(** C32. On any NUL-terminated string and any base, [strtol] and [strtoul]
    return without reading outside the string, the end pointer (always stored
    for a base from 2 to 36) lies within the string, and the value is in range
    for the type. *)
Theorem strtol_total uns s t base :
  nul_free s →
  ∃ r, strtol_internal uns (s ++ 0 :: t) base = Val r ∧
       (2 <= base <= 36 → is_Some (endptr r)) ∧
       (∀ e, endptr r = Some e → (e <= length s)%nat) ∧
       (if uns then 0 <= ret r <= ULONG_MAX else LONG_MIN <= ret r <= LONG_MAX).
Proof. intros Hs. by apply strtol_internal_total. Qed.

Lemma strtol_total_witness :
  ∃ r, strtol_internal false ($"0x" ++ [0]) 0 = Val r ∧
       (2 <= 0 <= 36 → is_Some (endptr r)) ∧
       (∀ e, endptr r = Some e → (e <= 2)%nat) ∧ LONG_MIN <= ret r <= LONG_MAX.
Proof.
  apply (strtol_total false $"0x" [] 0). apply (bool_decide_unpack _). by vm_compute.
Defined.

End Strtol.
