(* ===== verification/Environ.v ===== *)
(** * The process environment: [stdlib/getenv.c], [stdlib/setenv.c],
    [stdlib/putenv.c]

    [environ] and [last_environ] are pointers to arrays kept in a store, so
    that the two may point to the same array, as they do once [setenv] has
    allocated one.  An array is the list of its non-null entries (its null
    terminator is implicit) and an entry is a pointer to a C string
    [NAME=VALUE].  Allocation may fail: [alloc n] says whether the [n]-th
    request succeeds. *)

From S2P Require Import Prelude CString.
From stdpp Require Import gmap.
Local Open Scope Z_scope.

Module Environ.
Import CString.

Definition EINVAL : Z := 22.
Definition ENOMEM : Z := 12.

(** ** [getenv] *)

(** [*(const uint16_t * ) p], little endian. *)
Definition load16 (p : list Z) : outcome Z :=
  b0 ← deref (p !! 0%nat); b1 ← deref (p !! 1%nat); Val (Z.lor b0 (Z.shiftl b1 8)).

(** The loop for a name of one character. *)
Fixpoint getenv_one (name_start : Z) (ep : list (list Z)) : outcome (option (list Z)) :=
  match ep with
  | [] => Val None
  | e :: ep' =>
      ep_start ← load16 e;
      if name_start =? ep_start then Val (Some (drop 2 e))
      else getenv_one name_start ep'
  end.

(** The loop for a longer name; [name] and [len] are already advanced by
    two. *)
Fixpoint getenv_many (name_start : Z) (name : list Z) (len : nat) (ep : list (list Z))
    : outcome (option (list Z)) :=
  match ep with
  | [] => Val None
  | e :: ep' =>
      ep_start ← load16 e;
      if name_start =? ep_start then
        d ← strncmp (drop 2 e) name len;
        if d =? 0 then
          c ← deref (e !! (len + 2)%nat);
          if c =? EQUALS then Val (Some (drop (len + 3) e))
          else getenv_many name_start name len ep'
        else getenv_many name_start name len ep'
      else getenv_many name_start name len ep'
  end.

Definition getenv (environ : option (list (list Z))) (name : list Z)
    : outcome (option (list Z)) :=
  match environ with
  | None => Val None
  | Some es =>
      c0 ← deref (name !! 0%nat);
      if c0 =? 0 then Val None
      else
        c1 ← deref (name !! 1%nat);
        if c1 =? 0 then getenv_one (Z.lor (Z.shiftl EQUALS 8) c0) es
        else
          len ← strlen name;
          name_start ← load16 name;
          getenv_many name_start (drop 2 name) (len - 2) es
  end.

(** ** The state of [setenv.c] *)
Record env_state := EnvState {
  arrays : gmap nat (list (list Z));   (** the pointer arrays *)
  environ : option nat;                (** [__environ] *)
  last_environ : option nat;           (** the array [setenv] allocated *)
  known_values : list (list Z);        (** strings already allocated *)
  requests : nat;                      (** allocation requests so far *)
  errno : Z
}.

Section setenv.
Variable alloc : nat → bool.
(** [__libc_use_alloca (size)]. *)
Variable use_alloca : nat → bool.

(** [!strncmp ( *ep, name, namelen) && ( *ep)[namelen] == '=']. *)
Definition entry_matches (e name : list Z) (namelen : nat) : outcome bool :=
  d ← strncmp e name namelen;
  if d =? 0 then c ← deref (e !! namelen); Val (c =? EQUALS) else Val false.

(** The search loop: [size] at the break, [true] when [*ep] is not null. *)
Fixpoint find_entry (ep : list (list Z)) (name : list Z) (namelen : nat)
    : outcome (nat * bool) :=
  match ep with
  | [] => Val (0%nat, false)
  | e :: ep' =>
      b ← entry_matches e name namelen;
      if b : bool then Val (0%nat, true)
      else (λ r, (S r.1, r.2)) <$> find_entry ep' name namelen
  end.

Definition array_of (st : env_state) (p : option nat) : outcome (list (list Z)) :=
  match p with
  | None => Val []
  | Some id => deref (arrays st !! id)
  end.

Definition out_of_memory (st : env_state) : env_state :=
  EnvState (arrays st) (environ st) (last_environ st) (known_values st)
           (S (requests st)) ENOMEM.

(** The branch that extends the array: [realloc], copy unless the array is
    already ours, both pointers set.  [None] when [realloc] fails. *)
Definition extend (st : env_state) (size : nat) : outcome (option nat * env_state) :=
  if alloc (requests st) then
    old ← array_of st (last_environ st);
    contents ← (if bool_decide (environ st = last_environ st)
                then Val (take size old)
                else take size <$> array_of st (environ st));
    let id := fresh (dom (arrays st)) in
    let rest := match last_environ st with
                | None => arrays st
                | Some l => delete l (arrays st)
                end in
    Val (Some id, EnvState (<[id := contents]> rest) (Some id) (Some id)
                           (known_values st) (S (requests st)) (errno st))
  else Val (None, out_of_memory st).

(** [STORE_VALUE (np)]: [tsearch] allocates a node; without it the value is
    not remembered, and the caller does not learn of it. *)
Definition store_value (st : env_state) (v : list Z) : env_state :=
  if alloc (requests st) then
    EnvState (arrays st) (environ st) (last_environ st) (v :: known_values st)
             (S (requests st)) (errno st)
  else out_of_memory st.

(** The string to store when [combined] is null: [NAME=VALUE] is built,
    reused when known, else allocated and remembered. *)
Definition make_value (st : env_state) (name value : list Z) (namelen vallen : nat)
    : outcome (option (list Z) * env_state) :=
  let varlen := (namelen + 1 + vallen)%nat in
  n ← read_n name namelen;
  v ← read_n value vallen;
  let new_value := n ++ [EQUALS] ++ v in
  let st1 := EnvState (arrays st) (environ st) (last_environ st) (known_values st)
                      (S (requests st)) (errno st) in
  if use_alloca varlen then
    if bool_decide (new_value ∈ known_values st) then Val (Some new_value, st)
    else if alloc (requests st) then
      Val (Some new_value, store_value st1 new_value)
    else Val (None, out_of_memory st)
  else if alloc (requests st) then
    if bool_decide (new_value ∈ known_values st) then Val (Some new_value, st1)
    else Val (Some new_value, store_value st1 new_value)
  else Val (None, out_of_memory st).

(** [*ep = np], where [ep] is slot [size] of array [id]: the null slot at
    the end or an existing entry. *)
Definition store_entry (st : env_state) (id size : nat) (np : list Z) : outcome env_state :=
  es ← deref (arrays st !! id);
  es' ← (if (size <? length es)%nat then Val (<[size := np]> es)
         else if (size =? length es)%nat then Val (es ++ [np])
         else Fault);
  Val (EnvState (<[id := es']> (arrays st)) (environ st) (last_environ st)
                (known_values st) (requests st) (errno st)).

(** [vallen]: only needed, and only computed, when [combined] is null. *)
Definition value_len (value combined : option (list Z)) : outcome nat :=
  match combined with
  | Some _ => Val 0%nat
  | None => v ← deref value; S <$> strlen v
  end.

(** The choice of [np]. *)
Definition new_entry (st : env_state) (name : list Z) (value combined : option (list Z))
    (namelen vallen : nat) : outcome (option (list Z) * env_state) :=
  match combined with
  | Some c => Val (Some c, st)
  | None => v ← deref value; make_value st name v namelen vallen
  end.

(** [__add_to_environ (name, value, combined, replace)]. *)
Definition add_to_environ (st : env_state) (name : list Z)
    (value combined : option (list Z)) (replace : Z) : outcome (Z * env_state) :=
  namelen ← strlen name;
  vallen ← value_len value combined;
  es ← array_of st (environ st);
  find_entry es name namelen ≫= λ r : nat * bool,
  let size := r.1 in
  (if r.2 then Val (environ st, st) else extend st size) ≫= λ x : option nat * env_state,
  match x.1 with
  | None => Val (-1, x.2)
  | Some id =>
      let st := x.2 in
      if negb r.2 || negb (replace =? 0) then
        new_entry st name value combined namelen vallen ≫= λ y : option (list Z) * env_state,
        match y.1 with
        | None => Val (-1, y.2)
        | Some np => st ← store_entry y.2 id size np; Val (0, st)
        end
      else Val (0, st)
  end.

(** [name == NULL || *name == 0 || strchr (name, '=') != NULL]. *)
Definition bad_name (name : option (list Z)) : outcome bool :=
  match name with
  | None => Val true
  | Some n =>
      c ← deref (n !! 0%nat);
      if c =? 0 then Val true
      else r ← strchr n EQUALS; Val (match r with Some _ => true | None => false end)
  end.

Definition einval (st : env_state) : env_state :=
  EnvState (arrays st) (environ st) (last_environ st) (known_values st) (requests st) EINVAL.

Definition setenv (st : env_state) (name value : option (list Z)) (replace : Z)
    : outcome (Z * env_state) :=
  bad ← bad_name name;
  if bad : bool then Val (-1, einval st)
  else n ← deref name; add_to_environ st n value None replace.

(** The loop of [unsetenv]: every matching entry is removed by moving the
    later ones back; [ep] is the part of the array from [*ep] on. *)
Fixpoint unset_entries (ep : list (list Z)) (name : list Z) (len : nat)
    : outcome (list (list Z)) :=
  match ep with
  | [] => Val []
  | e :: ep' =>
      b ← entry_matches e name len;
      if b : bool then unset_entries ep' name len
      else cons e <$> unset_entries ep' name len
  end.

Definition unsetenv (st : env_state) (name : option (list Z)) : outcome (Z * env_state) :=
  bad ← bad_name name;
  if bad : bool then Val (-1, einval st)
  else
    n ← deref name;
    len ← strlen n;
    match environ st with
    | None => Val (0, st)
    | Some id =>
        es ← deref (arrays st !! id);
        es' ← unset_entries es n len;
        Val (0, EnvState (<[id := es']> (arrays st)) (environ st) (last_environ st)
                         (known_values st) (requests st) (errno st))
    end.

Definition clearenv (st : env_state) : Z * env_state :=
  match environ st with
  | Some id =>
      if bool_decide (environ st = last_environ st)
      then (0, EnvState (delete id (arrays st)) None None
                        (known_values st) (requests st) (errno st))
      else (0, EnvState (arrays st) None (last_environ st)
                        (known_values st) (requests st) (errno st))
  | None => (0, EnvState (arrays st) None (last_environ st)
                         (known_values st) (requests st) (errno st))
  end.

(** [putenv (string)]; the copy of the name is on the stack or, when it is
    long, allocated and freed again. *)
Definition putenv (st : env_state) (s : list Z) : outcome (Z * env_state) :=
  r ← strchr s EQUALS;
  match r with
  | Some name_end =>
      let n := (length s - length name_end)%nat in
      let name := take n s ++ [0] in
      if use_alloca (n + 1) then add_to_environ st name None (Some s) 1
      else if alloc (requests st) then
        add_to_environ
          (EnvState (arrays st) (environ st) (last_environ st) (known_values st)
                    (S (requests st)) (errno st)) name None (Some s) 1
      else Val (-1, out_of_memory st)
  | None => (λ r, (0, r.2)) <$> unsetenv st (Some s)
  end.
End setenv.

(** ** Lookup by name *)

(** A usable environment entry: a non-empty C string. *)
Definition entry_ok (e : list Z) : Prop :=
  bytes_ok e ∧ ∃ s t, e = s ++ 0 :: t ∧ nul_free s ∧ s ≠ [].

(** A usable name: a non-empty string. *)
Definition name_ok (name : list Z) : Prop := nul_free name ∧ bytes_ok name ∧ name ≠ [].

Definition key (name : list Z) : list Z := name ++ [EQUALS].

(** What the environment says of a name: the text after the first
    [NAME=]. *)
Fixpoint env_lookup (name : list Z) (es : list (list Z)) : option (list Z) :=
  match es with
  | [] => None
  | e :: es' =>
      if bool_decide (key name `prefix_of` e) then Some (drop (length name + 1) e)
      else env_lookup name es'
  end.

Lemma key_prefix name e s t :
  nul_free name → e = s ++ 0 :: t → nul_free s →
  key name `prefix_of` e ↔ name `prefix_of` s ∧ e !! length name = Some EQUALS.
Proof.
  intros Hn -> Hs. unfold key. split.
  - intros [k Hk]. rewrite <- app_assoc in Hk. simpl in Hk. rewrite Hk.
    split; [|by apply list_lookup_middle].
    assert (name `prefix_of` s ++ 0 :: t) as [u Hu] by (rewrite Hk; by eexists).
    destruct (decide (length name <= length s)%nat) as [Hle|Hgt].
    + exists (drop (length name) s).
      rewrite <- (take_drop (length name) s) at 1. f_equal.
      rewrite <- (take_app_le s (0 :: t)) by done. rewrite Hu. apply take_app_length.
    + exfalso. assert ((name ++ u) !! length s = Some 0) as H0
        by (rewrite <- Hu; by apply list_lookup_middle).
      rewrite lookup_app_l in H0 by lia. by eapply (Forall_lookup_1 _ _ _ _ Hn).
  - intros [[k ->] Hl]. rewrite <- app_assoc in *.
    rewrite <- (Nat.add_0_r (length name)), lookup_app_r, Nat.add_0_r, Nat.sub_diag in Hl by lia.
    destruct (k ++ 0 :: t) as [|c r]; [done|]. injection Hl as ->.
    exists r. by rewrite <- app_assoc.
Qed.

Lemma entry_matches_spec e name t :
  entry_ok e → nul_free name →
  entry_matches e (name ++ t) (length name) = Val (bool_decide (key name `prefix_of` e)).
Proof.
  intros [_ (s & u & -> & Hs & _)] Hn. unfold entry_matches.
  rewrite strncmp_unrolled.
  destruct (strncmp_prefix name s u t Hn Hs) as (d & -> & Hd). cbn [mbind outcome_bind].
  destruct (Z.eqb_spec d 0) as [->|Hne].
  - destruct (proj1 Hd eq_refl) as [k ->].
    destruct (lookup_lt_is_Some_2 ((name ++ k) ++ 0 :: u) (length name)) as [c Hc].
    { rewrite !length_app. simpl. lia. }
    rewrite Hc. cbn [deref mbind outcome_bind]. f_equal.
    rewrite (bool_decide_ext _ _ (key_prefix name _ _ u Hn eq_refl Hs)), Hc.
    destruct (Z.eqb_spec c EQUALS) as [->|]; symmetry.
    + apply bool_decide_eq_true. split; [by eexists|done].
    + apply bool_decide_eq_false. intros [_ [=]]. done.
  - f_equal. symmetry. apply bool_decide_eq_false.
    rewrite (key_prefix name _ s u) by done. rewrite <- Hd. naive_solver.
Qed.

Lemma load16_spec b0 b1 r :
  0 <= b0 < 256 → load16 (b0 :: b1 :: r) = Val (b0 + 256 * b1).
Proof. intros Hb. unfold load16. cbn. by rewrite lor_byte. Qed.

Lemma pair_eq a b c d :
  0 <= a < 256 → 0 <= c < 256 → a + 256 * b = c + 256 * d ↔ a = c ∧ b = d.
Proof. lia. Qed.

(** An entry has two readable bytes. *)
Lemma entry_two e : entry_ok e → ∃ b0 b1 r, e = b0 :: b1 :: r ∧ 0 <= b0 < 256 ∧ 0 <= b1 < 256 ∧ b0 ≠ 0.
Proof.
  intros [Hok (s & t & -> & Hs & Hne)]. destruct s as [|b0 s]; [done|].
  apply nul_free_cons in Hs as [Hb0 _].
  apply Forall_cons in Hok as [H0 Hok].
  destruct s as [|b1 s]; apply Forall_cons in Hok as [H1 _]; by eexists _, _, _.
Qed.

Lemma getenv_one_spec c es :
  0 <= c < 256 → c ≠ 0 → Forall entry_ok es →
  getenv_one (c + 256 * EQUALS) es = Val (env_lookup [c] es).
Proof.
  intros Hc Hc0 Hes. induction Hes as [|e es He _ IH]; [done|].
  cbn [getenv_one env_lookup].
  destruct (entry_two e He) as (b0 & b1 & r & -> & H0 & H1 & _).
  rewrite load16_spec by done. cbn [mbind outcome_bind].
  destruct (Z.eqb_spec (c + 256 * EQUALS) (b0 + 256 * b1)) as [E|E].
  - apply pair_eq in E as [-> <-]; [|done..].
    rewrite bool_decide_eq_true_2; [done|]. by exists r.
  - rewrite bool_decide_eq_false_2; [done|]. intros [k [= -> ->]]. done.
Qed.

Lemma getenv_many_spec a b name t es :
  0 <= a < 256 → 0 <= b < 256 → a ≠ 0 → b ≠ 0 → nul_free name → Forall entry_ok es →
  getenv_many (a + 256 * b) (name ++ t) (length name) es
  = Val (env_lookup (a :: b :: name) es).
Proof.
  intros Ha Hb Ha0 Hb0 Hn Hes. induction Hes as [|e es He _ IH]; [done|].
  cbn [getenv_many env_lookup].
  destruct (entry_two e He) as (b0 & b1 & r & -> & H0 & H1 & _).
  rewrite load16_spec by done. cbn [mbind outcome_bind].
  destruct (Z.eqb_spec (a + 256 * b) (b0 + 256 * b1)) as [E|E].
  - apply pair_eq in E as [<- <-]; [|done..].
    destruct He as [_ (s & u & Hs & Hns & Hne)].
    destruct s as [|s0 [|s1 s]]; [done|by injection Hs as -> ->|].
    injection Hs as <- <- ->.
    apply nul_free_cons in Hns as [_ [_ Hns]%nul_free_cons].
    replace (key (a :: b :: name)) with (a :: b :: key name) by done.
    change (drop 2 (a :: b :: s ++ 0 :: u)) with (s ++ 0 :: u). rewrite strncmp_unrolled.
    destruct (strncmp_prefix name s u t Hn Hns) as (d & -> & Hd). cbn [mbind outcome_bind].
    assert (a :: b :: key name `prefix_of` a :: b :: s ++ 0 :: u ↔
            key name `prefix_of` s ++ 0 :: u) as Hiff.
    { split; [|intros H; by do 2 apply prefix_cons].
      by intros ?%prefix_cons_inv_2%prefix_cons_inv_2. }
    rewrite (bool_decide_ext _ _ Hiff).
    rewrite (bool_decide_ext _ _ (key_prefix name _ s u Hn eq_refl Hns)).
    destruct (Z.eqb_spec d 0) as [->|Hne'].
    + destruct (proj1 Hd eq_refl) as [k ->].
      replace (length name + 2)%nat with (S (S (length name))) by lia.
      change ((a :: b :: (name ++ k) ++ 0 :: u) !! S (S (length name)))
        with (((name ++ k) ++ 0 :: u) !! length name).
      destruct (lookup_lt_is_Some_2 ((name ++ k) ++ 0 :: u) (length name)) as [c Hc].
      { rewrite !length_app. simpl. lia. }
      rewrite Hc. cbn [deref mbind outcome_bind].
      destruct (Z.eqb_spec c EQUALS) as [->|].
      * rewrite bool_decide_eq_true_2 by (split; [by eexists|done]).
        replace (length (a :: b :: name) + 1)%nat with (length name + 3)%nat
          by (simpl; lia). done.
      * rewrite bool_decide_eq_false_2; [done|]. by intros [_ [=]].
    + rewrite bool_decide_eq_false_2 by naive_solver. done.
  - rewrite bool_decide_eq_false_2; [done|]. intros [k [= -> -> _]]. done.
Qed.

Lemma getenv_spec es name t :
  Forall entry_ok es → name_ok name →
  getenv (Some es) (name ++ 0 :: t) = Val (env_lookup name es).
Proof.
  intros Hes (Hn & Hok & Hne). unfold getenv.
  destruct name as [|a name]; [done|].
  pose proof (strlen_spec (a :: name) t Hn) as Hlen.
  apply nul_free_cons in Hn as [Ha0 Hn]. apply Forall_cons in Hok as [Ha Hok].
  cbn [app lookup list_lookup deref mbind outcome_bind].
  destruct (Z.eqb_spec a 0); [done|].
  destruct name as [|b name]; cbn [app lookup list_lookup deref mbind outcome_bind].
  - rewrite Z.eqb_refl, Z.lor_comm, lor_byte by done. by apply getenv_one_spec.
  - apply nul_free_cons in Hn as [Hb0 Hn]. apply Forall_cons in Hok as [Hb Hok].
    destruct (Z.eqb_spec b 0); [done|].
    cbn [app length] in Hlen. rewrite Hlen. cbn [mbind outcome_bind].
    rewrite load16_spec by done. cbn [mbind outcome_bind drop].
    rewrite Nat.sub_succ, Nat.sub_succ, Nat.sub_0_r. by apply getenv_many_spec.
Qed.

(** The text found is itself a C string. *)
Lemma env_lookup_cstr name es p :
  Forall entry_ok es → nul_free name → env_lookup name es = Some p →
  ∃ v t, p = v ++ 0 :: t ∧ nul_free v.
Proof.
  intros Hes Hn. induction Hes as [|e es He _ IH]; [done|]. cbn [env_lookup].
  destruct (bool_decide_reflect (key name `prefix_of` e)) as [Hk|_]; [|done].
  intros [= <-]. destruct He as [_ (s & t & -> & Hs & _)].
  apply (key_prefix name _ s t Hn eq_refl Hs) in Hk as [[k ->] Hk].
  apply nul_free_app in Hs as [_ Hs]. rewrite <- app_assoc in *.
  rewrite lookup_app_r, Nat.sub_diag in Hk by lia.
  destruct k as [|c k]; [done|]. injection Hk as ->.
  apply nul_free_cons in Hs as [_ Hs]. exists k, t. split; [|done].
  rewrite drop_app_ge by lia.
  by replace (length name + 1 - length name)%nat with 1%nat by lia.
Qed.

(** ** Entries as a map from names *)

Definition has (name : list Z) (es : list (list Z)) : bool :=
  match env_lookup name es with Some _ => true | None => false end.

(** Replace the first entry of the name, or append. *)
Fixpoint env_set (name np : list Z) (es : list (list Z)) : list (list Z) :=
  match es with
  | [] => [np]
  | e :: es' =>
      if bool_decide (key name `prefix_of` e) then np :: es'
      else e :: env_set name np es'
  end.

Definition env_unset (name : list Z) (es : list (list Z)) : list (list Z) :=
  filter (λ e, ¬ key name `prefix_of` e) es.

Lemma key_inj n1 n2 e :
  EQUALS ∉ n1 → EQUALS ∉ n2 → key n1 `prefix_of` e → key n2 `prefix_of` e → n1 = n2.
Proof.
  unfold key. intros H1 H2 [k1 E1] [k2 E2]. rewrite E1 in E2. clear E1.
  rewrite <- !app_assoc in E2. simpl in E2.
  revert n2 H2 E2; induction n1 as [|a n1 IH]; intros [|b n2] H2 E2; simpl in *;
    try set_solver.
  injection E2 as -> E2. f_equal. apply IH; set_solver.
Qed.

Lemma env_lookup_set name v es :
  env_lookup name (env_set name (key name ++ v) es) = Some v.
Proof.
  assert (drop (length name + 1) (key name ++ v) = v) as E.
  { replace (length name + 1)%nat with (length (key name)) by (unfold key; by rewrite length_app).
    apply drop_app_length. }
  induction es as [|e es IH]; cbn [env_set env_lookup].
  - rewrite bool_decide_eq_true_2 by by eexists. by rewrite E.
  - destruct (bool_decide (key name `prefix_of` e)) eqn:Em; cbn [env_lookup].
    + rewrite bool_decide_eq_true_2 by by eexists. by rewrite E.
    + by rewrite Em.
Qed.

Lemma env_lookup_set_ne name name' np es :
  EQUALS ∉ name → EQUALS ∉ name' → name ≠ name' → key name `prefix_of` np →
  env_lookup name' (env_set name np es) = env_lookup name' es.
Proof.
  intros Hn Hn' Hne Hnp.
  assert (∀ e, key name `prefix_of` e → bool_decide (key name' `prefix_of` e) = false) as Hk.
  { intros e He. apply bool_decide_eq_false_2. intros He'. by eapply Hne, key_inj. }
  induction es as [|e es IH]; cbn [env_set env_lookup].
  - by rewrite Hk.
  - destruct (bool_decide (key name `prefix_of` e)) eqn:Em; cbn [env_lookup].
    + apply bool_decide_eq_true_1 in Em. by rewrite !Hk.
    + by rewrite IH.
Qed.

Lemma env_lookup_unset name es : env_lookup name (env_unset name es) = None.
Proof.
  unfold env_unset. induction es as [|e es IH]; [done|].
  destruct (decide (key name `prefix_of` e)) as [Hk|Hk].
  - by rewrite filter_cons_False by naive_solver.
  - rewrite filter_cons_True by done. cbn [env_lookup].
    by rewrite bool_decide_eq_false_2.
Qed.

Lemma env_lookup_unset_ne name name' es :
  EQUALS ∉ name → EQUALS ∉ name' → name ≠ name' →
  env_lookup name' (env_unset name es) = env_lookup name' es.
Proof.
  intros Hn Hn' Hne. unfold env_unset. induction es as [|e es IH]; [done|].
  destruct (decide (key name `prefix_of` e)) as [Hk|Hk].
  - rewrite filter_cons_False by naive_solver. cbn [env_lookup].
    rewrite bool_decide_eq_false_2; [done|]. intros He. by eapply Hne, key_inj.
  - rewrite filter_cons_True by done. cbn [env_lookup]. by rewrite IH.
Qed.

Lemma env_set_ok name np es :
  entry_ok np → Forall entry_ok es → Forall entry_ok (env_set name np es).
Proof.
  intros Hnp; induction 1 as [|e es He Hes IH]; cbn [env_set]; [by constructor|].
  destruct (bool_decide _); by constructor.
Qed.

(** ** The loops *)

Lemma find_entry_spec es name t :
  Forall entry_ok es → nul_free name →
  ∃ i, find_entry es (name ++ t) (length name) = Val (i, has name es) ∧
       (if has name es then (i < length es)%nat else i = length es) ∧
       ∀ np, (if has name es then <[i := np]> es else es ++ [np]) = env_set name np es.
Proof.
  intros Hes Hn. unfold has. induction Hes as [|e es He _ (i & E & Hi & Hs)].
  - by exists 0%nat.
  - cbn [find_entry env_lookup env_set]. rewrite entry_matches_spec by done.
    cbn [mbind outcome_bind]. destruct (bool_decide (key name `prefix_of` e)).
    + exists 0%nat. split_and!; [done|simpl; lia|done].
    + exists (S i). rewrite E. split; [done|].
      split; [destruct (env_lookup name es); simpl in *; lia|].
      intros np. rewrite <- Hs. by destruct (env_lookup name es).
Qed.

Lemma unset_entries_spec es name t :
  Forall entry_ok es → nul_free name →
  unset_entries es (name ++ t) (length name) = Val (env_unset name es).
Proof.
  intros Hes Hn. unfold env_unset. induction Hes as [|e es He _ IH]; [done|].
  cbn [unset_entries]. rewrite entry_matches_spec by done. cbn [mbind outcome_bind].
  destruct (decide (key name `prefix_of` e)) as [Hk|Hk].
  - rewrite bool_decide_eq_true_2 by done. by rewrite filter_cons_False by naive_solver.
  - rewrite bool_decide_eq_false_2, IH by done. by rewrite filter_cons_True.
Qed.

(** ** Well-formed states *)

Definition entries (st : env_state) : list (list Z) :=
  match environ st with None => [] | Some id => default [] (arrays st !! id) end.

Record env_wf (st : env_state) : Prop := {
  wf_environ : ∀ id, environ st = Some id → is_Some (arrays st !! id);
  wf_last : ∀ id, last_environ st = Some id → is_Some (arrays st !! id);
  wf_entries : Forall entry_ok (entries st)
}.

(** [getenv] in a state. *)
Definition getenv_in (st : env_state) (name : list Z) : outcome (option (list Z)) :=
  getenv (environ st ≫= λ id, arrays st !! id) name.

Lemma getenv_in_spec st name t :
  env_wf st → name_ok name →
  getenv_in st (name ++ 0 :: t) = Val (env_lookup name (entries st)).
Proof.
  intros [He _ Hes] Hn. unfold getenv_in, entries in *.
  destruct (environ st) as [id|]; [|done].
  destruct (He id eq_refl) as [es Hid]. simpl. rewrite Hid in *. by apply getenv_spec.
Qed.

Lemma array_of_environ st : env_wf st → array_of st (environ st) = Val (entries st).
Proof.
  intros [He _ _]. unfold array_of, entries. destruct (environ st) as [id|]; [|done].
  by destruct (He id eq_refl) as [es ->].
Qed.

Section setenv_correct.
Variable alloc : nat → bool.
Variable use_alloca : nat → bool.

(** After [extend] succeeds the entries are as before, in a fresh array. *)
Lemma extend_spec st :
  env_wf st →
  (extend alloc st (length (entries st)) = Val (None, out_of_memory st)) ∨
  ∃ id st', extend alloc st (length (entries st)) = Val (Some id, st') ∧
    env_wf st' ∧ environ st' = Some id ∧ arrays st' !! id = Some (entries st) ∧
    entries st' = entries st.
Proof using.
  intros Hwf. pose proof Hwf as [He Hl Hes]. unfold extend.
  destruct (alloc (requests st)); [right|by left].
  set (id := fresh (dom (arrays st))).
  assert (∃ old, array_of st (last_environ st) = Val old) as [old Hold].
  { unfold array_of. destruct (last_environ st) as [l|]; [|by eexists].
    destruct (Hl l eq_refl) as [old ->]. by eexists. }
  rewrite Hold. cbn [mbind outcome_bind].
  assert ((if bool_decide (environ st = last_environ st)
           then Val (take (length (entries st)) old)
           else take (length (entries st)) <$> array_of st (environ st))
          = Val (entries st)) as ->.
  { destruct (bool_decide_reflect (environ st = last_environ st)) as [E|_].
    - rewrite <- E, array_of_environ in Hold by done. injection Hold as <-.
      by rewrite firstn_all.
    - rewrite array_of_environ by done. cbn. by rewrite firstn_all. }
  cbn [mbind outcome_bind]. eexists id, _. split; [done|].
  assert (entries (EnvState (<[id:=entries st]>
    match last_environ st with Some l => delete l (arrays st) | None => arrays st end)
    (Some id) (Some id) (known_values st) (S (requests st)) (errno st)) = entries st) as Een.
  { unfold entries at 1. cbn. by rewrite lookup_insert_eq. }
  split_and!; [|done|cbn; apply lookup_insert_eq|done].
  split; cbn [environ last_environ arrays].
  - intros ? [= <-]. rewrite lookup_insert_eq. by eexists.
  - intros ? [= <-]. rewrite lookup_insert_eq. by eexists.
  - by rewrite Een.
Qed.

(** [make_value] changes neither the arrays nor the pointers. *)
Lemma make_value_spec st name value t u :
  ∃ o st', make_value alloc use_alloca st (name ++ t) (value ++ 0 :: u)
             (length name) (S (length value)) = Val (o, st') ∧
    arrays st' = arrays st ∧ environ st' = environ st ∧
    last_environ st' = last_environ st ∧
    (o = Some (key name ++ value ++ [0]) ∨ o = None ∧ errno st' = ENOMEM).
Proof using.
  unfold make_value, read_n.
  destruct (Nat.leb_spec (length name) (length (name ++ t))) as [_|H];
    [|rewrite length_app in H; lia].
  destruct (Nat.leb_spec (S (length value)) (length (value ++ 0 :: u))) as [_|H];
    [|rewrite length_app in H; simpl in H; lia].
  cbn [mbind outcome_bind]. rewrite take_app_length.
  replace (take (S (length value)) (value ++ 0 :: u)) with (value ++ [0]).
  2: { rewrite take_app, take_ge by lia. f_equal.
       by replace (S (length value) - length value)%nat with 1%nat by lia. }
  replace (name ++ [EQUALS] ++ value ++ [0]) with (key name ++ value ++ [0])
    by (unfold key; by rewrite <- !app_assoc).
  destruct (use_alloca (length name + 1 + S (length value))),
    (bool_decide (key name ++ value ++ [0] ∈ known_values st)), (alloc (requests st));
    eexists _, _; (split; [done|]); unfold store_value; cbn [requests];
    try destruct (alloc (S (requests st))); split_and!; try done; by (left + right).
Qed.

Lemma store_entry_spec st id size np :
  env_wf st → environ st = Some id → entry_ok np → (size <= length (entries st))%nat →
  let es' := if (size <? length (entries st))%nat then <[size := np]> (entries st)
             else entries st ++ [np] in
  Forall entry_ok es' →
  ∃ st', store_entry st id size np = Val st' ∧ env_wf st' ∧ entries st' = es'.
Proof using.
  intros [He Hl Hes] Hid Hnp Hsz es' Hes'. unfold store_entry.
  destruct (He id Hid) as [es Hes0].
  assert (entries st = es) as E by (unfold entries; by rewrite Hid, Hes0).
  rewrite Hes0, E in *. cbn [deref mbind outcome_bind]. subst es'. rewrite E in *.
  set (es' := if (size <? length es)%nat then <[size:=np]> es else es ++ [np]) in *.
  assert ((if (size <? length es)%nat then Val (<[size:=np]> es)
           else if (size =? length es)%nat then Val (es ++ [np]) else Fault) = Val es') as ->.
  { subst es'. destruct (Nat.ltb_spec size (length es)); [done|].
    destruct (Nat.eqb_spec size (length es)); [done|lia]. }
  cbn [mbind outcome_bind]. eexists. split; [done|].
  assert (entries (EnvState (<[id:=es']> (arrays st)) (environ st) (last_environ st)
    (known_values st) (requests st) (errno st)) = es') as Een.
  { unfold entries. cbn. by rewrite Hid, lookup_insert_eq. }
  split; [|done]. split; cbn [environ last_environ arrays]; [..|by rewrite Een].
  - intros id' Hid'. destruct (decide (id = id')) as [->|];
      [rewrite lookup_insert_eq; by eexists|rewrite lookup_insert_ne by done; by apply He].
  - intros id' Hid'. destruct (decide (id = id')) as [->|];
      [rewrite lookup_insert_eq; by eexists|rewrite lookup_insert_ne by done; by apply Hl].
Qed.

(** Where the new entry comes from: the caller's string, or a copy of the
    value. *)
Inductive source (name np : list Z) : option (list Z) → option (list Z) → Prop :=
  | src_combined value : source name np value (Some np)
  | src_value v u : np = key name ++ v ++ [0] → nul_free v →
                    source name np (Some (v ++ 0 :: u)) None.

Lemma env_wf_same st st' :
  arrays st' = arrays st → environ st' = environ st → last_environ st' = last_environ st →
  env_wf st → env_wf st' ∧ entries st' = entries st.
Proof using.
  intros Ha He Hl [H1 H2 H3].
  assert (entries st' = entries st) as E by (unfold entries; by rewrite He, Ha).
  split; [|done]. split; [by rewrite He, Ha|by rewrite Hl, Ha|by rewrite E].
Qed.

Lemma source_len name np value combined :
  source name np value combined → ∃ n, value_len value combined = Val n ∧
  ∀ st t, ∃ o st', new_entry alloc use_alloca st (name ++ t) value combined (length name) n
                   = Val (o, st') ∧
    arrays st' = arrays st ∧ environ st' = environ st ∧
    last_environ st' = last_environ st ∧
    (o = Some np ∨ o = None ∧ errno st' = ENOMEM).
Proof using.
  destruct 1 as [value|v u -> Hv]; unfold value_len, new_entry.
  - exists 0%nat. split; [done|]. intros st t. exists (Some np), st. naive_solver.
  - exists (S (length v)). cbn. rewrite strlen_spec by done. split; [done|].
    intros st t. apply make_value_spec.
Qed.

(** The outcome of [__add_to_environ]: the entries change as the map
    operation says, or the call fails with [ENOMEM] and no entry
    changes. *)
Lemma add_to_environ_spec st name np t value combined replace :
  env_wf st → nul_free name → source name np value combined → entry_ok np →
  ∃ rc st', add_to_environ alloc use_alloca st (name ++ 0 :: t) value combined replace
            = Val (rc, st') ∧ env_wf st' ∧
    (rc = 0 ∧ entries st' = (if has name (entries st) && (replace =? 0) then entries st
                             else env_set name np (entries st)) ∨
     rc = -1 ∧ errno st' = ENOMEM ∧ entries st' = entries st).
Proof using.
  intros Hwf Hn Hsrc Hnp. unfold add_to_environ.
  rewrite strlen_spec by done. cbn [mbind outcome_bind].
  destruct (source_len _ _ _ _ Hsrc) as (vl & -> & Hnew). cbn [mbind outcome_bind].
  rewrite array_of_environ by done. cbn [mbind outcome_bind].
  destruct (find_entry_spec (entries st) name (0 :: t) (wf_entries _ Hwf) Hn)
    as (i & -> & Hi & Hset). cbn [mbind outcome_bind fst snd].
  assert (∃ x : option nat * env_state,
    (if has name (entries st) then Val (environ st, st) else extend alloc st i) = Val x ∧
    (x = (None, out_of_memory st) ∨ ∃ id, x.1 = Some id ∧ environ x.2 = Some id ∧
      env_wf x.2 ∧ entries x.2 = entries st)) as (x & -> & Hx).
  { destruct (has name (entries st)).
    - eexists. split; [done|]. right. destruct (environ st) as [id|] eqn:E.
      + by exists id.
      + unfold entries in Hi. rewrite E in Hi. simpl in Hi. lia.
    - subst i. destruct (extend_spec st Hwf) as [->|(id & st' & -> & H1 & H2 & _ & H3)].
      + eexists. split; [done|]. by left.
      + eexists. split; [done|]. right. by exists id. }
  cbn [mbind outcome_bind].
  destruct Hx as [->|(id & Hid & Henv & Hwf' & Hes)]; cbn [fst snd].
  { eexists _, _. split; [done|].
    destruct (env_wf_same st (out_of_memory st)) as [? ?]; [done..|]. naive_solver. }
  rewrite Hid. destruct (has name (entries st) && (replace =? 0)) eqn:Ecase.
  { apply andb_true_iff in Ecase as [-> ->]. cbn. eexists _, _. split; [done|].
    split; [done|]. by left. }
  replace (negb (has name (entries st)) || negb (replace =? 0)) with true
    by (rewrite <- negb_andb, Ecase; done).
  destruct (Hnew x.2 (0 :: t)) as (o & st2 & -> & Ha & He & Hl & Ho).
  destruct (env_wf_same x.2 st2 Ha He Hl Hwf') as [Hwf2 Hes2].
  cbn [mbind outcome_bind fst snd].
  destruct Ho as [->|[-> Herr]].
  2: { eexists _, _. split; [done|]. split; [done|]. right. by rewrite Hes2, Hes. }
  assert ((if (i <? length (entries st2))%nat then <[i:=np]> (entries st2)
           else entries st2 ++ [np]) = env_set name np (entries st)) as Hset2.
  { rewrite Hes2, Hes, <- Hset. destruct (has name (entries st)).
    - destruct (Nat.ltb_spec i (length (entries st))); [done|lia].
    - destruct (Nat.ltb_spec i (length (entries st))); [lia|done]. }
  destruct (store_entry_spec st2 id i np Hwf2) as (st3 & -> & Hwf3 & Hes3).
  - by rewrite He.
  - done.
  - rewrite Hes2, Hes. destruct (has name (entries st)); lia.
  - rewrite Hset2. apply env_set_ok; [done|]. by apply wf_entries.
  - cbn. eexists _, _. split; [done|]. split; [done|]. left.
    by rewrite Hes3, Hset2.
Qed.

Lemma bad_name_ok name t :
  name_ok name → EQUALS ∉ name → bad_name (Some (name ++ 0 :: t)) = Val false.
Proof using.
  intros (Hn & _ & Hne) Heq. unfold bad_name. destruct name as [|c name]; [done|].
  apply nul_free_cons in Hn as Hc. destruct Hc as [Hc _].
  change (((c :: name) ++ 0 :: t) !! 0%nat) with (Some c). cbn [deref mbind outcome_bind].
  destruct (Z.eqb_spec c 0); [done|]. by rewrite strchr_absent.
Qed.
End setenv_correct.

(** ** Main theorems *)

(** C8. [getenv], with its two-byte comparisons and its special case for
    one-character names, returns the text after the first entry [NAME=] of any
    environment of non-empty strings, and [NULL] when there is none. *)
Theorem getenv_correct es name t :
  Forall entry_ok es → name_ok name →
  getenv (Some es) (name ++ 0 :: t) = Val (env_lookup name es).
Proof. apply getenv_spec. Qed.

(** Make a C string, and a way to discharge its side conditions. *)
Definition cs (s : string) : list Z := $s ++ [0].

Lemma entry_ok_cs s :
  bool_decide (nul_free $s ∧ bytes_ok $s ∧ $s ≠ []) = true → entry_ok (cs s).
Proof.
  intros (H1 & H2 & H3)%bool_decide_eq_true_1. split.
  - apply Forall_app. split; [done|]. by repeat constructor.
  - by exists (bytes_of_string s), [].
Qed.

Lemma entries_ok_cs l :
  forallb (λ s, bool_decide (nul_free $s ∧ bytes_ok $s ∧ $s ≠ [])) l = true →
  Forall entry_ok (cs <$> l).
Proof.
  rewrite forallb_forall. intros H. apply Forall_fmap, Forall_forall. intros s Hs.
  apply entry_ok_cs, H. by apply list_elem_of_In.
Qed.

Lemma name_ok_lit s :
  bool_decide (nul_free $s ∧ bytes_ok $s ∧ $s ≠ []) = true → name_ok $s.
Proof. by intros H%bool_decide_eq_true_1. Qed.

Lemma getenv_correct_witness :
  getenv (Some [cs "A=1"; cs "PATH=/bin"; cs "PATH=/usr"]) (cs "PATH") = Val (Some (cs "/bin")).
Proof.
  apply (getenv_correct [cs "A=1"; cs "PATH=/bin"; cs "PATH=/usr"] $"PATH" []).
  - apply (entries_ok_cs ["A=1"; "PATH=/bin"; "PATH=/usr"]%string). by vm_compute.
  - apply name_ok_lit. by vm_compute.
Defined.

Lemma entry_ok_value name v :
  name_ok name → nul_free v → bytes_ok v → entry_ok (key name ++ v ++ [0]).
Proof.
  intros (Hn & Hb & Hne) Hv Hbv. unfold key. split.
  - unfold bytes_ok. rewrite !Forall_app, !Forall_singleton. unfold EQUALS. split_and!; done || lia.
  - exists (name ++ [EQUALS] ++ v), []. split_and!.
    + by rewrite <- !app_assoc.
    + rewrite !nul_free_app. split_and!; [done|by apply Forall_singleton|done].
    + by destruct name.
Qed.

(** C9. [setenv] on a valid name either succeeds, and then [getenv] of the name
    gives the new value (the old one when the name was set and [replace] is
    zero), or fails with [ENOMEM] and then [getenv] of the name is unchanged;
    in both cases every other name keeps its value and the state stays well
    formed, for every pattern of allocation failures. *)
Theorem setenv_getenv alloc use_alloca st name v t u replace :
  env_wf st → name_ok name → EQUALS ∉ name → nul_free v → bytes_ok v →
  ∃ rc st', setenv alloc use_alloca st (Some (name ++ 0 :: t)) (Some (v ++ 0 :: u)) replace
            = Val (rc, st') ∧ env_wf st' ∧
    (rc = 0 ∧ getenv_in st' (name ++ [0])
              = (if has name (entries st) && (replace =? 0)
                 then getenv_in st (name ++ [0]) else Val (Some (v ++ [0]))) ∨
     rc = -1 ∧ errno st' = ENOMEM ∧ getenv_in st' (name ++ [0]) = getenv_in st (name ++ [0])) ∧
    ∀ name', name_ok name' → EQUALS ∉ name' → name ≠ name' →
      getenv_in st' (name' ++ [0]) = getenv_in st (name' ++ [0]).
Proof.
  intros Hwf Hn Heq Hv Hbv. unfold setenv. rewrite bad_name_ok by done.
  cbn [mbind outcome_bind deref].
  destruct (add_to_environ_spec alloc use_alloca st name (key name ++ v ++ [0]) t
    (Some (v ++ 0 :: u)) None replace Hwf (proj1 Hn) (src_value _ _ v u eq_refl Hv)
    (entry_ok_value name v Hn Hv Hbv)) as (rc & st' & E & Hwf' & Hcase).
  exists rc, st'. split; [exact E|]. split; [done|]. split.
  - rewrite !getenv_in_spec by done.
    destruct Hcase as [[-> ->]|(-> & -> & ->)]; [left|by right]. split; [done|].
    destruct (_ && _); [done|]. by rewrite env_lookup_set.
  - intros name' Hn' Heq' Hne. rewrite !getenv_in_spec by done. f_equal.
    destruct Hcase as [[_ ->]|(_ & _ & ->)]; [|done].
    destruct (_ && _); [done|]. apply env_lookup_set_ne; [done..|]. by eexists.
Qed.

Definition demo_env : env_state :=
  EnvState {[ 0%nat := [cs "A=1"; cs "PATH=/bin"] ]} (Some 0%nat) None [] 0 0.

Lemma demo_env_wf : env_wf demo_env.
Proof.
  split; cbn.
  - intros ? [= <-]. by eexists.
  - done.
  - apply (entries_ok_cs ["A=1"; "PATH=/bin"]%string). by vm_compute.
Qed.

Lemma lit_ok s : bool_decide (nul_free $s ∧ bytes_ok $s) = true → nul_free $s ∧ bytes_ok $s.
Proof. by intros H%bool_decide_eq_true_1. Qed.

Lemma setenv_getenv_witness :
  ∃ rc st', setenv (λ _, true) (λ _, true) demo_env (Some (cs "PATH")) (Some (cs "/opt")) 1
            = Val (rc, st') ∧ env_wf st' ∧
    (rc = 0 ∧ getenv_in st' (cs "PATH") = Val (Some (cs "/opt")) ∨
     rc = -1 ∧ errno st' = ENOMEM ∧ getenv_in st' (cs "PATH") = Val (Some (cs "/bin"))) ∧
    ∀ name', name_ok name' → EQUALS ∉ name' → $"PATH" ≠ name' →
      getenv_in st' (name' ++ [0]) = getenv_in demo_env (name' ++ [0]).
Proof.
  apply (setenv_getenv (λ _, true) (λ _, true) demo_env $"PATH" $"/opt" [] [] 1).
  - apply demo_env_wf.
  - apply name_ok_lit. by vm_compute.
  - apply (bool_decide_unpack _). by vm_compute.
  - apply lit_ok. by vm_compute.
  - apply lit_ok. by vm_compute.
Defined.

(** [unsetenv] on a valid name always succeeds, removes every entry of the
    name, duplicates included, and changes no other name. *)
Theorem unsetenv_removes st name t :
  env_wf st → name_ok name → EQUALS ∉ name →
  ∃ st', unsetenv st (Some (name ++ 0 :: t)) = Val (0, st') ∧ env_wf st' ∧
    getenv_in st' (name ++ [0]) = Val None ∧
    ∀ name', name_ok name' → EQUALS ∉ name' → name ≠ name' →
      getenv_in st' (name' ++ [0]) = getenv_in st (name' ++ [0]).
Proof.
  intros Hwf Hn Heq. unfold unsetenv. rewrite bad_name_ok by done.
  cbn [mbind outcome_bind deref]. rewrite strlen_spec by apply Hn.
  cbn [mbind outcome_bind]. pose proof Hwf as [He Hl Hes].
  assert (∀ st', env_wf st' → entries st' = env_unset name (entries st) →
    getenv_in st' (name ++ [0]) = Val None ∧
    ∀ name', name_ok name' → EQUALS ∉ name' → name ≠ name' →
      getenv_in st' (name' ++ [0]) = getenv_in st (name' ++ [0])) as Hmain.
  { intros st' Hwf' E. split.
    - by rewrite getenv_in_spec, E, env_lookup_unset.
    - intros. by rewrite !getenv_in_spec, E, env_lookup_unset_ne. }
  destruct (environ st) as [id|] eqn:Eid.
  - destruct (He id eq_refl) as [es Hid].
    assert (entries st = es) as Een by (unfold entries; by rewrite Eid, Hid).
    rewrite Hid. cbn [deref mbind outcome_bind]. rewrite Een in Hes.
    rewrite unset_entries_spec by (done || apply Hn). cbn [mbind outcome_bind].
    eexists. split; [done|].
    assert (entries (EnvState (<[id:=env_unset name es]> (arrays st)) (Some id) (last_environ st)
      (known_values st) (requests st) (errno st)) = env_unset name (entries st)) as Een'.
    { unfold entries at 1. cbn. by rewrite lookup_insert_eq, Een. }
    match goal with |- env_wf ?s ∧ _ => assert (env_wf s) as Hwf' end.
    { split; cbn [environ last_environ arrays].
      - intros ? [= <-]. rewrite lookup_insert_eq. by eexists.
      - intros id' Hid'. destruct (decide (id = id')) as [->|];
          [rewrite lookup_insert_eq; by eexists|rewrite lookup_insert_ne by done; by apply Hl].
      - rewrite Een', Een. apply Forall_forall. intros e [_ He']%list_elem_of_filter.
        by eapply (proj1 (Forall_forall _ _)). }
    split; [done|]. by apply Hmain.
  - exists st. split; [done|]. split; [done|]. apply Hmain; [done|].
    unfold entries. by rewrite Eid.
Qed.

Lemma unsetenv_removes_witness :
  ∃ st', unsetenv demo_env (Some (cs "PATH")) = Val (0, st') ∧ env_wf st' ∧
    getenv_in st' (cs "PATH") = Val None ∧
    ∀ name', name_ok name' → EQUALS ∉ name' → $"PATH" ≠ name' →
      getenv_in st' (name' ++ [0]) = getenv_in demo_env (name' ++ [0]).
Proof.
  apply (unsetenv_removes demo_env $"PATH" []).
  - apply demo_env_wf.
  - apply name_ok_lit. by vm_compute.
  - apply (bool_decide_unpack _). by vm_compute.
Defined.

End Environ.
