(* ===== verification/World.v ===== *)
(** * The world a library call runs in

    The state the pre-open code of [open64.c] reads and changes: the
    environment, the allocator, the static pointer of [strtok], [errno] and
    the system calls issued so far; and the state monad its functions are
    written in.  The kernel and the allocator are parameters: [kernel]
    answers a system call given those before it, and [alloc] says for each
    request whether it succeeds and what the new block contains. *)

From S2P Require Import Prelude CString Environ.
Local Open Scope Z_scope.

Module World.
Import CString.

(** The system calls of [open64.c]; a path is the bytes before its NUL,
    [None] for a null pointer. *)
Inductive syscall :=
  | SysOpen (path : list Z) (flags mode : Z)
  | SysOpenat (dirfd : Z) (path : option (list Z)) (flags : Z) (mode : option Z)
  | SysWrite (fd : Z) (buf : list Z)
  | SysClose (fd : Z).

#[export] Instance syscall_eq_dec : EqDecision syscall.
Proof. solve_decision. Defined.

Record world := MkWorld {
  w_environ : option (list (list Z));   (** [__environ] *)
  w_cwd : option (list Z);              (** what [getcwd] finds, [None]: it fails *)
  w_next : nat;                         (** allocation requests so far *)
  w_freed : list nat;                   (** blocks freed *)
  w_strtok : option (nat * nat);        (** [static char *olds]: block, offset *)
  w_errno : Z;
  w_trace : list syscall                (** system calls issued, oldest first *)
}.

(** A block returned by [malloc]: its number and its bytes. *)
Abbreviation block := (nat * list Z)%type.

Definition M (A : Type) : Type := world → outcome (A * world).

#[export] Instance M_ret : MRet M := λ A a w, Val (a, w).
#[export] Instance M_bind : MBind M := λ A B f m w,
  match m w with
  | Val (a, w') => f a w'
  | Fault => Fault
  | NoFuel => NoFuel
  end.

(** A computation that does not touch the world. *)
Definition lift {A : Type} (o : outcome A) : M A := λ w,
  match o with
  | Val a => Val (a, w)
  | Fault => Fault
  | NoFuel => NoFuel
  end.

(** Running a bind, for rewriting. *)
Lemma bind_run {A B : Type} (m : M A) (f : A → M B) w a w' :
  m w = Val (a, w') → (m ≫= f) w = f a w'.
Proof. intros H. unfold mbind, M_bind. by rewrite H. Qed.

Lemma bind_lift {A B : Type} (a : A) (f : A → M B) w : (lift (Val a) ≫= f) w = f a w.
Proof. done. Qed.

Lemma bind_ret {A B : Type} (a : A) (f : A → M B) w : ((mret a : M A) ≫= f) w = f a w.
Proof. done. Qed.

Lemma bind_assoc {A B C : Type} (m : M A) (f : A → M B) (g : B → M C) w :
  (m ≫= λ a, f a ≫= g) w = ((m ≫= f) ≫= g) w.
Proof. unfold mbind, M_bind. by destruct (m w) as [[a w']| |]. Qed.

Lemma bind_fault {A B : Type} (m : M A) (f : A → M B) w :
  m w = Fault → (m ≫= f) w = Fault.
Proof. intros H. unfold mbind, M_bind. by rewrite H. Qed.

Definition fault {A : Type} : M A := λ _, Fault.

Definition ENOMEM : Z := 12.

Definition set_errno (e : Z) : M unit := λ w,
  Val ((), MkWorld (w_environ w) (w_cwd w) (w_next w) (w_freed w) (w_strtok w) e (w_trace w)).

Definition set_strtok (p : option (nat * nat)) : M unit := λ w,
  Val ((), MkWorld (w_environ w) (w_cwd w) (w_next w) (w_freed w) p (w_errno w) (w_trace w)).

Section world.
Variable alloc : nat → option (nat → Z).
Variable kernel : list syscall → syscall → Z.

Definition malloc (size : nat) : M (option block) := λ w,
  let n := w_next w in
  match alloc n with
  | Some init =>
      Val (Some (n, init <$> seq 0 size),
           MkWorld (w_environ w) (w_cwd w) (S n) (w_freed w) (w_strtok w)
                   (w_errno w) (w_trace w))
  | None =>
      Val (None, MkWorld (w_environ w) (w_cwd w) (S n) (w_freed w) (w_strtok w)
                         ENOMEM (w_trace w))
  end.

(** [free (p)]; freeing twice is undefined. *)
Definition free (p : option block) : M unit := λ w,
  match p with
  | None => Val ((), w)
  | Some (n, _) =>
      if bool_decide (n ∈ w_freed w) then Fault
      else Val ((), MkWorld (w_environ w) (w_cwd w) (w_next w) (n :: w_freed w)
                            (w_strtok w) (w_errno w) (w_trace w))
  end.

(** [string/strdup.c]. *)
Definition strdup (s : list Z) : M (option block) :=
  len ← lift (S <$> strlen s);
  new ← malloc len;
  match new with
  | None => mret None
  | Some (n, buf) => buf ← lift (memcpy buf s len); mret (Some (n, buf))
  end.

(** [INLINE_SYSCALL]: a kernel result in [-4095, -1] becomes [errno] and
    [-1]. *)
Definition inline_syscall (c : syscall) : M Z := λ w,
  let r := kernel (w_trace w) c in
  let tr := w_trace w ++ [c] in
  if (-4095 <=? r) && (r <=? -1)
  then Val (-1, MkWorld (w_environ w) (w_cwd w) (w_next w) (w_freed w) (w_strtok w) (- r) tr)
  else Val (r, MkWorld (w_environ w) (w_cwd w) (w_next w) (w_freed w) (w_strtok w)
                       (w_errno w) tr).

Definition getenv (name : list Z) : M (option (list Z)) := λ w,
  lift (Environ.getenv (w_environ w) name) w.

(** [string/strtok.c]: [s] is the block to start on, or null; the bytes of
    the block being split are passed along. *)
Definition strtok (b : block) (start : bool) (delim : list Z) : M (block * option nat) := λ w,
  let save := match w_strtok w with
              | Some (n, off) => if (n =? b.1)%nat then Some off else None
              | None => None
              end in
  match strtok_r b.2 (if start then Some 0%nat else None) delim save with
  | Val (buf, tok, save') =>
      Val (((b.1, buf), tok),
           MkWorld (w_environ w) (w_cwd w) (w_next w) (w_freed w)
                   ((λ off, (b.1, off)) <$> save') (w_errno w) (w_trace w))
  | Fault => Fault
  | NoFuel => NoFuel
  end.
End world.

(** ** What library code may do to the world *)

(** Only blocks that were requested have been freed. *)
Definition heap_ok (w : world) : Prop := Forall (λ n, (n < w_next w)%nat) (w_freed w).

(** [frame w w']: from [w] to [w'] only memory was allocated and freed (and
    [errno] and the [strtok] pointer possibly set); no system call was
    issued. *)
Record frame (w w' : world) : Prop := {
  fr_environ : w_environ w' = w_environ w;
  fr_cwd : w_cwd w' = w_cwd w;
  fr_trace : w_trace w' = w_trace w;
  fr_next : (w_next w <= w_next w')%nat;
  fr_freed : ∀ n, n ∈ w_freed w → n ∈ w_freed w';
  fr_ok : heap_ok w → heap_ok w'
}.

(** The same, and the [strtok] pointer and [errno] were not touched. *)
Record quiet (w w' : world) : Prop := {
  qu_frame : frame w w';
  qu_strtok : w_strtok w' = w_strtok w;
  qu_errno : w_errno w' = w_errno w
}.

#[export] Instance frame_preorder : PreOrder frame.
Proof.
  split.
  - intros w. by split.
  - intros w1 w2 w3 [] []. split; [congruence..|lia|auto|auto].
Qed.

#[export] Instance quiet_preorder : PreOrder quiet.
Proof.
  split.
  - intros w. by split.
  - intros w1 w2 w3 [] []. split; [by etrans|congruence..].
Qed.

(** In between: [errno] may have been set. *)
Record mute (w w' : world) : Prop := {
  mu_frame : frame w w';
  mu_strtok : w_strtok w' = w_strtok w
}.

#[export] Instance mute_preorder : PreOrder mute.
Proof.
  split.
  - intros w. by split.
  - intros w1 w2 w3 [] []. split; [by etrans|congruence].
Qed.

Lemma quiet_mute w w' : quiet w w' → mute w w'.
Proof. intros []. by split. Qed.

(** The world after [k] successful allocations. *)
Definition bump (k : nat) (w : world) : world :=
  MkWorld (w_environ w) (w_cwd w) (k + w_next w) (w_freed w) (w_strtok w)
          (w_errno w) (w_trace w).

Lemma bump_0 w : bump 0 w = w.
Proof. by destruct w. Qed.

Lemma bump_bump j k w : bump j (bump k w) = bump (j + k) w.
Proof. unfold bump. cbn. by rewrite Nat.add_assoc. Qed.

Lemma bump_quiet k w : quiet w (bump k w).
Proof.
  split; [|done..]. split; cbn; [done..|lia|done|].
  unfold heap_ok. cbn. intros H. eapply Forall_impl; [exact H|]. simpl. lia.
Qed.

(** The world after [strtok] stored its pointer. *)
Definition set_tok (p : option (nat * nat)) (w : world) : world :=
  MkWorld (w_environ w) (w_cwd w) (w_next w) (w_freed w) p (w_errno w) (w_trace w).

Lemma set_tok_frame p w : frame w (set_tok p w).
Proof. by split. Qed.

(** What [INLINE_SYSCALL] makes of a kernel result: the value, and [errno]. *)
Definition sys_failed (r : Z) : bool := (-4095 <=? r) && (r <=? -1).
Definition sys_ret (r : Z) : Z := if sys_failed r then -1 else r.
Definition sys_errno (e r : Z) : Z := if sys_failed r then - r else e.

(** The world after a system call was answered by [r]. *)
Definition called (c : syscall) (r : Z) (w : world) : world :=
  MkWorld (w_environ w) (w_cwd w) (w_next w) (w_freed w) (w_strtok w)
          (sys_errno (w_errno w) r) (w_trace w ++ [c]).

Lemma inline_syscall_run kernel c w :
  inline_syscall kernel c w
  = let r := kernel (w_trace w) c in Val (sys_ret r, called c r w).
Proof.
  unfold inline_syscall, sys_ret, called, sys_errno, sys_failed. cbv zeta.
  by destruct (_ && _).
Qed.

(** Allocation that always succeeds. *)
Class Alloc (alloc : nat → option (nat → Z)) : Prop :=
  alloc_total : ∀ n, ∃ init, alloc n = Some init.

Section alloc.
Context (alloc : nat → option (nat → Z)) {HA : Alloc alloc}.

Lemma malloc_ok size w :
  ∃ buf, malloc alloc size w = Val (Some (w_next w, buf), bump 1 w) ∧ length buf = size.
Proof using HA.
  unfold malloc. destruct (alloc_total (w_next w)) as [init ->].
  eexists. split; [done|]. by rewrite length_fmap, length_seq.
Qed.

(** [strdup] returns a fresh block that holds exactly the string. *)
Lemma strdup_ok s t w :
  nul_free s →
  strdup alloc (s ++ 0 :: t) w = Val (Some (w_next w, s ++ [0]), bump 1 w).
Proof using HA.
  intros Hs. unfold strdup, mbind, M_bind, lift. rewrite strlen_spec by done. cbn [fmap outcome_fmap].
  destruct (malloc_ok (S (length s)) w) as (buf & -> & Hl).
  assert (memcpy buf (s ++ 0 :: t) (S (length s)) = Val (s ++ [0])) as ->; [|done].
  unfold memcpy, read_n. rewrite length_app.
  destruct (Nat.leb_spec (S (length s)) (length s + length (0 :: t)));
    [|simpl in *; lia]. cbn [mbind outcome_bind].
  replace (take (S (length s)) (s ++ 0 :: t)) with (s ++ [0]).
  2: { rewrite take_app, take_ge by lia. f_equal.
       by replace (S (length s) - length s)%nat with 1%nat by lia. }
  unfold write_at. rewrite length_app. cbn [length].
  destruct (Nat.leb_spec (0 + (length s + 1)) (length buf)); [|lia].
  rewrite drop_ge by lia. by rewrite app_nil_r.
Qed.
End alloc.

Lemma free_ok n buf w :
  n ∉ w_freed w → (n < w_next w)%nat →
  ∃ w', free (Some (n, buf)) w = Val ((), w') ∧ frame w w' ∧ n ∈ w_freed w' ∧
        w_strtok w' = w_strtok w ∧ w_errno w' = w_errno w.
Proof.
  intros Hn Hlt. unfold free. rewrite bool_decide_eq_false_2 by done.
  eexists. split; [done|]. cbn. split_and!; [|set_solver|done..].
  split; cbn; [done..|lia|set_solver|]. intros H. by constructor.
Qed.

End World.
