(* ===== verification/Open64.v ===== *)
(** * The pre-open mechanism: [sysdeps/unix/sysv/linux/open64.c]

    [open64] first asks whether the path was opened in advance: a file listed
    in [PREOPEN_FILES], whose descriptor is at the same position of
    [PREOPEN_FILE_FDS], or a path below a directory of [PREOPEN_PATHS] /
    [PREOPEN_PATH_FDS].  Every function of the file is translated, in the
    order of the file, in the state monad of [World] ([DEBUG_PRINTF] is
    empty: [PREOPEN_DEBUG] is not defined).  Then come the meaning of the
    matching in terms of path components, and the theorems. *)

From S2P Require Import Prelude CString Strtol Environ World.
Local Open Scope Z_scope.

Module Open64.
Import CString World.

Definition MAX_LIST_LEN : nat := 128.
Definition MAX_PATH_LEN : nat := 256.
Definition PATH_MAX : nat := 4096.
Definition DEBUG_BUF : nat := 4096.

(** Flags, for x86-64. *)
Definition O_WRONLY : Z := 1.
Definition O_CREAT : Z := 64.
Definition O_APPEND : Z := 1024.
Definition O_DIRECTORY : Z := 65536.
Definition O_TMPFILE_BITS : Z := Z.lor 4194304 O_DIRECTORY.
Definition O_LARGEFILE : Z := 0.
Definition AT_FDCWD : Z := -100.

(** A string literal of the source. *)
Definition lit (s : string) : list Z := $s ++ [0].

Section open64.
Variable alloc : nat → option (nat → Z).
Variable kernel : list syscall → syscall → Z.

Local Abbreviation malloc := (malloc alloc).
Local Abbreviation strdup := (strdup alloc).
Local Abbreviation inline_syscall := (inline_syscall kernel).

(** [long int fd = strtol (p, &endptr, 10); if ( *endptr != 0) ...]: the
    value and the character at the end pointer. *)
Definition strtol10 (p : list Z) : M (Z * Z) :=
  r ← lift (Strtol.strtol p 10);
  _ ← (match Strtol.set_errno r with None => mret () | Some e => set_errno e end);
  e ← lift (deref (Strtol.endptr r));
  c ← lift (deref (p !! e));
  mret (Strtol.ret r, c).

Definition get_debug_fd : M Z :=
  fd_str ← getenv (lit "PREOPEN_DEBUG_FD");
  r ← (match fd_str with
       | None => mret None
       | Some s =>
           strtol10 s ≫= λ r : Z * Z,
           mret (if (r.2 =? 0) && (r.1 >? 0) then Some (wraps 32 r.1) else None)
       end);
  match r with
  | Some fd => mret fd
  | None =>
      path ← getenv (lit "PREOPEN_DEBUG_FILE");
      match path with
      | None => mret (-1)
      | Some p =>
          p ← lift (cstr p);
          r ← inline_syscall (SysOpen p (Z.lor (Z.lor O_WRONLY O_APPEND) O_CREAT) 438);
          mret (wraps 32 r)
      end
  end.

(** [memcpy (buffer + len, src, n); len += n;] *)
Definition append (buffer : list Z) (len : nat) (src : list Z) : M (list Z * nat) :=
  b ← lift (write_at buffer len src); mret (b, (len + length src)%nat).

Definition debug_log (log_fd : Z) (prefix filepath : list Z) (fd : Z) : M unit :=
  if log_fd <=? 0 then mret ()
  else
    let buffer := replicate DEBUG_BUF 0 in
    pfx ← lift (cstr prefix);
    append buffer 0 pfx ≫= λ s : list Z * nat,
    append s.1 s.2 $": " ≫= λ s : list Z * nat,
    path ← lift (cstr filepath);
    append s.1 s.2 path ≫= λ s : list Z * nat,
    append s.1 s.2 (if fd >? 0 then $" success" else $" failed") ≫= λ s : list Z * nat,
    append s.1 s.2 [10] ≫= λ s : list Z * nat,
    out ← lift (read_n s.1 s.2);
    _ ← inline_syscall (SysWrite log_fd out);
    mret ().

(** [while (len > 0 && result[len - 1] == '/') result[--len] = 0;] *)
Fixpoint strip_slashes (len : nat) (result : list Z) : outcome (list Z) :=
  match len with
  | O => Val result
  | S len' =>
      c ← deref (result !! len');
      if c =? SLASH then
        result ← write_at result len' [0]; strip_slashes len' result
      else Val result
  end.

Definition remove_last_component (path : option (list Z)) : M (option (list Z)) :=
  match path with
  | None => mret None
  | Some p =>
      r ← strdup p;
      match r with
      | None => mret None
      | Some (_, result) =>
          len ← lift (strlen result);
          result ← lift (strip_slashes len result);
          last_slash ← lift (strrchr result SLASH);
          match last_slash with
          | Some q =>
              let off := (length result - length q)%nat in
              result ← lift (write_at result off [0]);
              if (off =? 0)%nat
              then result ← lift (write_at result 1 [0]); mret (Some result)
              else mret (Some result)
          | None => result ← lift (write_at result 0 [0]); mret (Some result)
          end
      end
  end.

Definition get_absolute_path (path : list Z) : M (option (list Z)) :=
  r ← malloc PATH_MAX;
  match r with
  | None => mret None
  | Some (n, abs_path) =>
      abs_path ← lift (memset abs_path 0 0 PATH_MAX);
      c ← lift (deref (path !! 0%nat));
      if c =? SLASH then
        abs_path ← lift (strncpy abs_path path (PATH_MAX - 1));
        abs_path ← lift (write_at abs_path (PATH_MAX - 1) [0]);
        mret (Some abs_path)
      else
        λ w, match w_cwd w with
        | None => (_ ← free (Some (n, abs_path)); mret None) w
        | Some cwd =>
           (d ← lift (strncmp path (lit "./") 2);
            let path_to_append := if d =? 0 then drop 2 path else path in
            let cwd_len := length cwd in
            path_len ← lift (strlen path_to_append);
            if (PATH_MAX <? cwd_len + path_len + 2)%nat
            then _ ← free (Some (n, abs_path)); mret None
            else
              abs_path ← lift (write_at abs_path 0 cwd);
              abs_path ← lift (write_at abs_path cwd_len [SLASH]);
              bs ← lift (read_n path_to_append path_len);
              abs_path ← lift (write_at abs_path (cwd_len + 1) bs);
              abs_path ← lift (write_at abs_path (cwd_len + path_len + 1) [0]);
              total_len ← lift (strlen abs_path);
              c ← (if (1 <? total_len)%nat
                   then lift (deref (abs_path !! (total_len - 1)%nat)) else mret 0);
              if (1 <? total_len)%nat && (c =? SLASH)
              then abs_path ← lift (write_at abs_path (total_len - 1) [0]);
                   mret (Some abs_path)
              else mret (Some abs_path)) w
        end
  end.

(** The list that [get_string_list] builds: a block of [MAX_LIST_LEN]
    pointers of which the first ones point to the strings, the next one is
    null, and the others are not initialised. *)
Record string_list := StringList { sl_block : nat; sl_strings : list block }.

(** [result_list[i]]: [Some] a string, [None] the null pointer; the other
    slots hold no pointer. *)
Definition slot (l : string_list) (i : nat) : outcome (option (list Z)) :=
  match sl_strings l !! i with
  | Some b => Val (Some b.2)
  | None => if (i =? length (sl_strings l))%nat then Val None else Fault
  end.

(** [for (i = 0; i < cnt; i++) free (result_list[i]);] *)
Fixpoint free_all (bs : list block) : M unit :=
  match bs with
  | [] => mret ()
  | b :: bs' => _ ← free (Some b); free_all bs'
  end.

(** The loop over tokens; [None] when a [strdup] failed. *)
Fixpoint token_loop (fuel : nat) (env_str : block) (token : option nat) (acc : list block)
    : M (option (list block)) :=
  match fuel with
  | O => λ _, NoFuel
  | S fuel' =>
      match token with
      | Some tok =>
          if (length acc <? MAX_LIST_LEN)%nat then
            s ← strdup (drop tok env_str.2);
            match s with
            | None => _ ← free_all acc; mret None
            | Some b =>
                strtok env_str false (lit ":") ≫= λ r : block * option nat,
                token_loop fuel' r.1 r.2 (acc ++ [b])
            end
          else mret (Some acc)
      | None => mret (Some acc)
      end
  end.

(** The store [result_list[cnt] = NULL] is out of bounds when all
    [MAX_LIST_LEN] slots are taken. *)
Definition get_string_list (env_str : option block) : M (option string_list) :=
  r ← malloc (8 * MAX_LIST_LEN);
  match r with
  | None => mret None
  | Some (n, mem) =>
      l ← (match env_str with
           | None => mret (Some [])
           | Some b =>
               strtok b true (lit ":") ≫= λ r : block * option nat,
               token_loop (S (length b.2)) r.1 r.2 []
           end);
      match l with
      | None => _ ← free (Some (n, mem)); mret None
      | Some strs =>
          if (length strs <? MAX_LIST_LEN)%nat
          then mret (Some (StringList n strs)) else fault
      end
  end.

(** [while (current < n) { start = strchr (start, '/'); ... start++; }]. *)
Fixpoint skip_components (n : nat) (start : list Z) : outcome (option (list Z)) :=
  match n with
  | O => Val (Some start)
  | S n' =>
      p ← strchr start SLASH;
      match p with
      | None => Val None
      | Some q => skip_components n' (tail q)
      end
  end.

Definition get_path_component (path : option (list Z)) (n : nat) : M (option block) :=
  result ← malloc MAX_PATH_LEN;
  match path with
  | None => mret None
  | Some p =>
      start ← (match p with [] => fault | _ :: start => mret start end);
      s ← lift (skip_components n start);
      match s with
      | None => mret None
      | Some start =>
          end_ ← lift (strchr start SLASH);
          match end_ with
          | None =>
              len ← lift (strlen start);
              if (MAX_PATH_LEN <=? len)%nat then mret None
              else
                r ← lift (deref result);
                buf ← lift (strncpy (r : block).2 start (MAX_PATH_LEN - 1));
                buf ← lift (write_at buf (MAX_PATH_LEN - 1) [0]);
                mret (Some (r.1, buf))
          | Some e =>
              let len := (length start - length e)%nat in
              if (MAX_PATH_LEN <=? len)%nat then mret None
              else
                r ← lift (deref result);
                buf ← lift (strncpy (r : block).2 start len);
                buf ← lift (write_at buf len [0]);
                mret (Some (r.1, buf))
          end
      end
  end.

(** The [while (1)] loop over depths: whether entry [i] matches. *)
Fixpoint compare_paths (fuel : nat) (file_path preopen_path : option (list Z)) (depth : nat)
    : M bool :=
  match fuel with
  | O => λ _, NoFuel
  | S fuel' =>
      file_component ← get_path_component file_path depth;
      preopen_component ← get_path_component preopen_path depth;
      match file_component, preopen_component with
      | None, None => mret true
      | Some f, Some p =>
          d ← lift (strcmp f.2 p.2);
          if d =? 0 then compare_paths fuel' file_path preopen_path (S depth) else mret false
      | _, _ => mret false
      end
  end.

(** One more than the bytes of either path: more than its components. *)
Definition compare_fuel (file_path preopen_path : option (list Z)) : nat :=
  S (S (length (default [] file_path) + length (default [] preopen_path))).

(** The loop over entries from [i] on, [k] of them left; [preopen_paths] may
    be a null pointer. *)
Fixpoint find_from (file_path : option (list Z)) (preopen_paths : option string_list)
    (i k : nat) : M Z :=
  match k with
  | O => mret (-1)
  | S k' =>
      l ← lift (deref preopen_paths);
      p ← lift (slot l i);
      m ← compare_paths (compare_fuel file_path p) file_path p 0;
      if m : bool then mret (Z.of_nat i) else find_from file_path preopen_paths (S i) k'
  end.

Definition find_matching_preopen_path (file_path : option (list Z))
    (preopen_paths : option string_list) (path_count : nat) : M Z :=
  find_from file_path preopen_paths 0 path_count.

(** The conversion loop over the descriptor list. *)
Fixpoint parse_fds (l : list block) (fds : list Z) : M (list Z) :=
  match l with
  | [] => mret fds
  | b :: l' =>
      strtol10 b.2 ≫= λ r : Z * Z,
      let fd := if r.2 =? 0 then r.1 else -1 in
      if (length fds <? MAX_LIST_LEN)%nat then parse_fds l' (fds ++ [wraps 32 fd]) else fault
  end.

(** [preopen_..._str = strdup (buff); list = get_string_list (str); free (str);] *)
Definition env_list (buff : list Z) : M (option string_list) :=
  str ← strdup buff;
  l ← get_string_list str;
  _ ← free str;
  mret l.

(** [const char *abs = file; if (file[0] != '/') abs = get_absolute_path (file);] *)
Definition absolute (file : list Z) : M (option (list Z)) :=
  c ← lift (deref (file !! 0%nat));
  if c =? SLASH then mret (Some file) else get_absolute_path file.

Definition preopen_file (file : list Z) (oflag mode : Z) : M Z :=
  buff ← getenv (lit "PREOPEN_FILES");
  match buff with
  | None => mret (-1)
  | Some b =>
      preopen_files ← env_list b;
      buff ← getenv (lit "PREOPEN_FILE_FDS");
      match buff with
      | None => mret (-1)
      | Some b =>
          fds_list ← env_list b;
          fl ← lift (deref fds_list);
          preopen_file_fds ← parse_fds (sl_strings fl) [];
          abs_file ← absolute file;
          path_index ← find_matching_preopen_path abs_file preopen_files
                         (length preopen_file_fds);
          if 0 <=? path_index
          then lift (deref (preopen_file_fds !! Z.to_nat path_index))
          else mret (-1)
      end
  end.

Definition preopen_from_dir (file : list Z) (oflag mode : Z) : M Z :=
  buff ← getenv (lit "PREOPEN_PATHS");
  match buff with
  | None => mret (-1)
  | Some b =>
      preopen_paths ← env_list b;
      buff ← getenv (lit "PREOPEN_PATH_FDS");
      match buff with
      | None => mret (-1)
      | Some b =>
          fds_list ← env_list b;
          fl ← lift (deref fds_list);
          preopen_path_fds ← parse_fds (sl_strings fl) [];
          abs_path ← absolute file;
          abs_path ← (if Z.land oflag O_DIRECTORY =? 0
                      then remove_last_component abs_path else mret abs_path);
          path_index ← find_matching_preopen_path abs_path preopen_paths
                         (length preopen_path_fds);
          if 0 <=? path_index then
            dirfd ← lift (deref (preopen_path_fds !! Z.to_nat path_index));
            path ← (match abs_path with
                    | None => mret None
                    | Some p => lift (Some <$> cstr p)
                    end);
            r ← inline_syscall
                  (SysOpenat dirfd path oflag
                     (if Z.land oflag O_CREAT =? 0 then None else Some mode));
            let fd := wraps 32 r in
            if fd =? -1 then mret (-1) else mret fd
          else mret (-1)
      end
  end.

Definition preopen (file : list Z) (oflag mode : Z) : M Z :=
  preopen_fd ← preopen_file file oflag mode;
  if preopen_fd >? 0 then mret preopen_fd
  else
    preopen_fd ← preopen_from_dir file oflag mode;
    if preopen_fd >? 0 then mret preopen_fd else mret (-1).

Definition open_needs_mode (oflag : Z) : bool :=
  negb (Z.land oflag O_CREAT =? 0) || (Z.land oflag O_TMPFILE_BITS =? O_TMPFILE_BITS).

(** [__libc_open64 (file, oflag, ...)]; [arg] is the variable argument. *)
Definition libc_open64 (file : list Z) (oflag arg : Z) : M Z :=
  let mode := if open_needs_mode oflag then arg else 0 in
  log_fd ← get_debug_fd;
  fd ← preopen file oflag mode;
  _ ← debug_log log_fd (lit "preopen") file fd;
  if fd >? 0 then mret fd
  else
    path ← lift (cstr file);
    r ← inline_syscall (SysOpenat AT_FDCWD (Some path) (Z.lor oflag O_LARGEFILE) (Some mode));
    let fd := wraps 32 r in
    _ ← debug_log log_fd (lit "open") file fd;
    _ ← inline_syscall (SysClose log_fd);
    mret fd.
End open64.

(** ** Path components *)

(** The components of what follows the first character of a path. *)
Fixpoint split (s : list Z) : list (list Z) :=
  match s with
  | [] => [[]]
  | c :: s' =>
      if c =? SLASH then [] :: split s'
      else match split s' with
           | [] => [[c]]
           | h :: l => (c :: h) :: l
           end
  end.

Definition short (c : list Z) : bool := (length c <? MAX_PATH_LEN)%nat.

(** The components the matching compares: all of them, up to the first one
    that does not fit a buffer. *)
Fixpoint visible_of (l : list (list Z)) : list (list Z) :=
  match l with
  | [] => []
  | c :: l' => if short c then c :: visible_of l' else []
  end.

Definition visible (s : list Z) : list (list Z) := visible_of (split s).

Lemma split_absent s : SLASH ∉ s → split s = [s].
Proof.
  induction s as [|c s IH]; [done|]. rewrite not_elem_of_cons. intros [Hc Hs]. simpl.
  destruct (Z.eqb_spec c SLASH); [by subst|]. by rewrite IH.
Qed.

Lemma split_found a b : SLASH ∉ a → split (a ++ SLASH :: b) = a :: split b.
Proof.
  induction a as [|c a IH]; [done|]. rewrite not_elem_of_cons. intros [Hc Hs]. simpl.
  destruct (Z.eqb_spec c SLASH); [by subst|]. by rewrite IH.
Qed.

Lemma split_length s : (length (split s) <= S (length s))%nat.
Proof.
  induction s as [|c s IH]; simpl; [lia|].
  destruct (c =? SLASH); simpl; [lia|]. destruct (split s); simpl in *; lia.
Qed.

Lemma visible_of_length l : (length (visible_of l) <= length l)%nat.
Proof. induction l as [|c l IH]; simpl; [lia|]. destruct (short c); simpl; lia. Qed.

(** [split], seen through a search for the first slash. *)
Lemma split_cases s :
  nul_free s →
  ((SLASH ∉ s) ∧ split s = [s] ∧ ∀ t, strchr (s ++ 0 :: t) SLASH = Val None) ∨
  ∃ a b, s = a ++ SLASH :: b ∧ (SLASH ∉ a) ∧ nul_free a ∧ nul_free b ∧ split s = a :: split b ∧
    ∀ t, strchr (s ++ 0 :: t) SLASH = Val (Some (SLASH :: b ++ 0 :: t)).
Proof.
  intros Hs. destruct (decide (SLASH ∈ s)) as [Hin|Hin].
  - right. destruct (split_first SLASH s Hin) as (a & b & -> & Ha).
    apply nul_free_app in Hs as [Hna [_ Hnb]%nul_free_cons].
    exists a, b. split_and!; [done..|by apply split_found|].
    intros t. rewrite <- app_assoc, <- app_comm_cons. by apply strchr_found.
  - left. split_and!; [done|by apply split_absent|]. intros t. by apply strchr_absent.
Qed.

Lemma skip_components_spec n s t :
  nul_free s →
  match split s !! n with
  | None => skip_components n (s ++ 0 :: t) = Val None
  | Some c => ∃ s', skip_components n (s ++ 0 :: t) = Val (Some (s' ++ 0 :: t)) ∧
                    nul_free s' ∧ split s' = drop n (split s)
  end.
Proof.
  revert s; induction n as [|n IH]; intros s Hs.
  - destruct (split_cases s Hs) as [(_ & E & _)|(a & b & _ & _ & _ & _ & E & _)];
      rewrite E; simpl; exists s; by rewrite <- E.
  - destruct (split_cases s Hs) as [(_ & -> & Hc)|(a & b & -> & _ & _ & Hb & -> & Hc)];
      cbn [skip_components]; rewrite Hc; cbn [mbind outcome_bind].
    + by destruct n.
    + specialize (IH b Hb). by destruct n.
Qed.

(** The component [d] that [get_path_component] returns. *)
Definition component (s : list Z) (d : nat) : option (list Z) :=
  split s !! d ≫= λ c, if short c then Some c else None.

Section correct.
Context (alloc : nat → option (nat → Z)) {HA : Alloc alloc}.

Lemma get_path_component_null n w :
  get_path_component alloc None n w = Val (None, bump 1 w).
Proof using HA.
  unfold get_path_component.
  destruct (malloc_ok alloc MAX_PATH_LEN w) as (buf & E & _).
  by rewrite (bind_run _ _ _ _ _ E).
Qed.

Lemma get_path_component_spec x s t n w :
  nul_free s →
  ∃ o, get_path_component alloc (Some (x :: s ++ 0 :: t)) n w = Val (o, bump 1 w) ∧
  match component s n with
  | None => o = None
  | Some c => nul_free c ∧ ∃ b junk, o = Some (b, c ++ 0 :: junk)
  end.
Proof using HA.
  intros Hs. unfold get_path_component, component.
  destruct (malloc_ok alloc MAX_PATH_LEN w) as (buf & E & Hl).
  rewrite (bind_run _ _ _ _ _ E), bind_ret.
  pose proof (skip_components_spec n s t Hs) as Hskip.
  destruct (split s !! n) as [c|] eqn:Ec; cbn [mbind option_bind].
  2: { rewrite Hskip, bind_lift. by eexists. }
  destruct Hskip as (s' & -> & Hs' & Hsp). rewrite bind_lift.
  assert (∃ l, split s' = c :: l) as [l El].
  { rewrite Hsp. eexists. by apply drop_S. }
  destruct (split_cases s' Hs') as [(_ & Es & Hc)|(a & b & -> & _ & Ha & Hb & Es & Hc)];
    rewrite Hc, bind_lift; rewrite Es in El; injection El as -> <-.
  - rewrite strlen_spec, bind_lift by done. unfold short.
    destruct (Nat.leb_spec MAX_PATH_LEN (length c)), (Nat.ltb_spec (length c) MAX_PATH_LEN);
      try lia; [by eexists|].
    cbn [deref]. rewrite bind_lift.
    destruct (decide (length c = MAX_PATH_LEN - 1)%nat) as [Emax|].
    + rewrite <- Emax, strncpy_exact, bind_lift by (done || simpl; unfold MAX_PATH_LEN in *; lia).
      rewrite write_nul_at, bind_lift by (simpl; unfold MAX_PATH_LEN in *; lia).
      eexists. split; [done|]. split; [done|]. by eexists _, _.
    + rewrite strncpy_short, bind_lift by (done || simpl; unfold MAX_PATH_LEN in *; lia).
      destruct (MAX_PATH_LEN - 1 - length c)%nat as [|k] eqn:Ek; [unfold MAX_PATH_LEN in *; lia|].
      cbn [replicate app snd].
      destruct (write_nul_after c (replicate k 0 ++ drop (MAX_PATH_LEN - 1) buf) (MAX_PATH_LEN - 1))
        as [j ->].
      { rewrite length_app. cbn [length]. rewrite length_app, length_replicate, length_drop.
        unfold MAX_PATH_LEN in *. lia. }
      rewrite bind_lift. eexists. split; [done|]. split; [done|]. by eexists _, _.
  - rewrite <- app_assoc, <- app_comm_cons.
    replace (length (c ++ SLASH :: b ++ 0%Z :: t) - length (SLASH :: b ++ 0%Z :: t))%nat
      with (length c) by (rewrite length_app; lia).
    unfold short.
    destruct (Nat.leb_spec MAX_PATH_LEN (length c)), (Nat.ltb_spec (length c) MAX_PATH_LEN);
      try lia; [by eexists|].
    cbn [deref]. rewrite bind_lift, strncpy_exact, bind_lift by (done || simpl; lia).
    rewrite write_nul_at, bind_lift by (simpl; lia).
    eexists. split; [done|]. split; [done|]. by eexists _, _.
Qed.
(** ** Matching compares the visible components *)

(** A path argument and its visible components. *)
Inductive cpath : option (list Z) → list (list Z) → Prop :=
  | cp_null : cpath None []
  | cp_string x s t : nul_free s → cpath (Some (x :: s ++ 0 :: t)) (visible s).

Lemma visible_of_lookup l d :
  (d <= length (visible_of l))%nat →
  (l !! d ≫= λ c, if short c then Some c else None) = visible_of l !! d.
Proof using.
  revert d; induction l as [|c l IH]; intros d Hd; [by destruct d|].
  cbn [visible_of] in *. destruct (short c) eqn:E.
  - destruct d as [|d]; cbn -[short]; [by rewrite E|]. apply IH. simpl in Hd. lia.
  - destruct d as [|d]; [|simpl in Hd; lia]. cbn -[short]. by rewrite E.
Qed.

Lemma cpath_component p V d w :
  cpath p V → (d <= length V)%nat →
  ∃ o, get_path_component alloc p d w = Val (o, bump 1 w) ∧
  match V !! d with
  | None => o = None
  | Some c => nul_free c ∧ ∃ b junk, o = Some (b, c ++ 0 :: junk)
  end.
Proof using HA.
  destruct 1 as [|x s t Hs]; intros Hd.
  - exists None. by rewrite get_path_component_null.
  - unfold visible in *. rewrite <- (visible_of_lookup (split s) d Hd). by apply get_path_component_spec.
Qed.

Lemma cpath_fuel p V : cpath p V → (length V <= S (length (default [] p)))%nat.
Proof using.
  destruct 1 as [|x s t _]; simpl; [lia|]. rewrite length_app. simpl.
  etrans; [apply visible_of_length|]. etrans; [apply split_length|]. lia.
Qed.

Lemma compare_paths_spec fuel p1 p2 V1 V2 d w :
  cpath p1 V1 → cpath p2 V2 → (d <= length V1)%nat → (d <= length V2)%nat →
  (length V1 - d < fuel)%nat →
  ∃ k, compare_paths alloc fuel p1 p2 d w
       = Val (bool_decide (drop d V1 = drop d V2), bump k w).
Proof using HA.
  intros H1 H2. revert d w; induction fuel as [|fuel IH]; intros d w Hd1 Hd2 Hf; [lia|].
  cbn [compare_paths].
  destruct (cpath_component p1 V1 d w H1 Hd1) as (o1 & E1 & Ho1).
  rewrite (bind_run _ _ _ _ _ E1).
  destruct (cpath_component p2 V2 d (bump 1 w) H2 Hd2) as (o2 & E2 & Ho2).
  rewrite (bind_run _ _ _ _ _ E2), bump_bump.
  destruct (V1 !! d) as [c1|] eqn:L1, (V2 !! d) as [c2|] eqn:L2.
  - destruct Ho1 as (Hc1 & b1 & j1 & ->), Ho2 as (Hc2 & b2 & j2 & ->). cbn [snd].
    rewrite strcmp_lexcmp, bind_lift by done.
    rewrite (drop_S V1 c1 d), (drop_S V2 c2 d) by done.
    destruct (Z.eqb_spec (lexcmp c1 c2) 0) as [E|E].
    + apply lexcmp_0 in E as ->; [|done..].
      destruct (IH (S d) (bump (1 + 1) w)) as [k ->].
      * apply lookup_lt_Some in L1. lia.
      * apply lookup_lt_Some in L2. lia.
      * apply lookup_lt_Some in L1. lia.
      * eexists. rewrite bump_bump. do 2 f_equal.
        apply bool_decide_ext. split; [by intros ->|by intros [= ->]].
    + eexists. rewrite bool_decide_eq_false_2; [done|].
      intros [= -> _]. by apply E, lexcmp_0.
  - destruct Ho1 as (Hc1 & b1 & j1 & ->). subst o2. eexists.
    rewrite (drop_S V1 c1 d) by done. rewrite (drop_ge V2 d) by by apply lookup_ge_None.
    done.
  - destruct Ho2 as (Hc2 & b2 & j2 & ->). subst o1. eexists.
    rewrite (drop_S V2 c2 d) by done. rewrite (drop_ge V1 d) by by apply lookup_ge_None.
    done.
  - subst. eexists. by rewrite !drop_ge by by apply lookup_ge_None.
Qed.

(** The first entry with the same visible components. *)
Fixpoint first_match (V : list (list Z)) (Vs : list (list (list Z))) (i : nat) : Z :=
  match Vs with
  | [] => -1
  | V' :: Vs' => if bool_decide (V = V') then Z.of_nat i else first_match V Vs' (S i)
  end.

(** The strings of a list and their visible components. *)
Definition list_paths (l : string_list) (Vs : list (list (list Z))) : Prop :=
  Forall2 (λ (b : block) V, cpath (Some b.2) V) (sl_strings l) Vs.

Lemma compare_entry file V p V' w :
  cpath file V → cpath p V' →
  ∃ k, compare_paths alloc (compare_fuel file p) file p 0 w
       = Val (bool_decide (V = V'), bump k w).
Proof using HA.
  intros H1 H2. destruct (compare_paths_spec (compare_fuel file p) file p V V' 0 w H1 H2)
    as [k Hk]; [lia|lia| |by exists k].
  pose proof (cpath_fuel file V H1). unfold compare_fuel. lia.
Qed.

Lemma slot_spec l Vs i V' :
  list_paths l Vs → Vs !! i = Some V' → ∃ p, slot l i = Val p ∧ cpath p V'.
Proof using.
  intros Hl Hi. destruct (Forall2_lookup_r _ _ _ _ _ Hl Hi) as (b & Hb & Hc).
  unfold slot. rewrite Hb. by eexists.
Qed.

Lemma find_from_spec file V l Vs i k w :
  cpath file V → list_paths l Vs → (i + k <= length Vs)%nat →
  ∃ j, find_from alloc file (Some l) i k w
       = Val (first_match V (take k (drop i Vs)) i, bump j w).
Proof using HA.
  intros Hf Hl. revert i w; induction k as [|k IH]; intros i w Hk.
  - exists 0%nat. by rewrite bump_0.
  - cbn [find_from deref]. rewrite bind_lift.
    destruct (lookup_lt_is_Some_2 Vs i) as [V' HV']; [lia|].
    destruct (slot_spec l Vs i V' Hl HV') as (p & -> & Hp). rewrite bind_lift.
    destruct (compare_entry file V p V' w Hf Hp) as [j1 E].
    rewrite (bind_run _ _ _ _ _ E). rewrite (drop_S Vs V' i HV').
    cbn [take first_match]. destruct (bool_decide (V = V')); [by exists j1|].
    destruct (IH (S i) (bump j1 w)) as [j2 ->]; [lia|].
    exists (j2 + j1)%nat. by rewrite bump_bump.
Qed.

(** More descriptors than paths: when nothing matches, the loop reads a
    slot that was never written. *)
Lemma find_from_past_end file V l Vs i k w :
  cpath file V → list_paths l Vs → V ≠ [] → (i <= length Vs)%nat →
  (S (length Vs) < i + k)%nat → first_match V (drop i Vs) i = -1 →
  find_from alloc file (Some l) i k w = Fault.
Proof using HA.
  intros Hf Hl Hne. revert i w; induction k as [|k IH]; intros i w Hi Hk Hno; [lia|].
  pose proof (Forall2_length _ _ _ Hl) as Hlen.
  cbn [find_from deref]. rewrite bind_lift.
  destruct (decide (i = length Vs)) as [->|].
  - unfold slot at 1. rewrite lookup_ge_None_2 by lia.
    rewrite Hlen, Nat.eqb_refl, bind_lift.
    destruct (compare_entry file V None [] w Hf cp_null) as [j E].
    rewrite (bind_run _ _ _ _ _ E), bool_decide_eq_false_2 by done.
    destruct k as [|k]; [lia|]. cbn [find_from deref]. rewrite bind_lift.
    unfold slot. rewrite lookup_ge_None_2 by lia.
    destruct (Nat.eqb_spec (S (length Vs)) (length (sl_strings l))); [lia|]. done.
  - destruct (lookup_lt_is_Some_2 Vs i) as [V' HV']; [lia|].
    destruct (slot_spec l Vs i V' Hl HV') as (p & -> & Hp). rewrite bind_lift.
    destruct (compare_entry file V p V' w Hf Hp) as [j1 E].
    rewrite (bind_run _ _ _ _ _ E). rewrite (drop_S Vs V' i HV') in Hno.
    cbn [first_match] in Hno. destruct (bool_decide (V = V')); [lia|].
    apply IH; [lia|lia|done].
Qed.
(** ** Splitting an environment value at the colons *)

Definition is_colon (b : Z) : bool := elemb b [COLON].
Definition colon_tokens (s : list Z) : list (list Z) := tokens is_colon s.

(** The remaining tokens [T] of the string in block [id]: [tok] is the
    offset of the first of them, and the saved pointer stands before the
    others. *)
Definition pending (id : nat) (buf : list Z) (tok : option nat) (w : world)
    (T : list (list Z)) : Prop :=
  match T with
  | [] => tok = None ∧ ∃ off, w_strtok w = Some (id, off)
  | t :: T' =>
      ∃ o r pre s, tok = Some o ∧ drop o buf = t ++ 0 :: r ∧ nul_free t ∧
        buf = pre ++ s ++ [0] ∧ nul_free s ∧ colon_tokens s = T' ∧
        w_strtok w = Some (id, length pre)
  end.

Lemma strtok_pending id pre s start w :
  nul_free s →
  (start = true ∧ pre = []) ∨ (start = false ∧ w_strtok w = Some (id, length pre)) →
  ∃ buf tok off, strtok (id, pre ++ s ++ [0]) start (lit ":") w
    = Val ((id, buf, tok), set_tok (Some (id, off)) w) ∧
    pending id buf tok (set_tok (Some (id, off)) w) (colon_tokens s).
Proof using.
  intros Hs Hstart.
  assert (∃ sv, strtok (id, pre ++ s ++ [0]) start (lit ":") w =
    match strtok_r (pre ++ s ++ [0]) (Some (length pre)) ([COLON] ++ 0 :: []) sv with
    | Val (buf, tok, save') => Val ((id, buf, tok), set_tok ((λ off, (id, off)) <$> save') w)
    | Fault => Fault
    | NoFuel => NoFuel
    end) as [sv ->].
  { unfold strtok. destruct Hstart as [[-> ->]|[-> Hw]]; cbn [fst snd].
    - by eexists.
    - exists None. rewrite Hw, Nat.eqb_refl. done. }
  assert (nul_free [COLON]) as HD by by apply Forall_singleton.
  destruct (span_split is_colon s) as (ds & rest & -> & Hds & Hrest).
  apply nul_free_app in Hs as [Hnd Hnr].
  unfold colon_tokens. rewrite tokens_skip by done.
  destruct Hrest as [->|(x & rest' & -> & Hx)].
  { rewrite app_nil_r, (strtok_r_none [COLON] [] HD) by done.
    eexists _, _, _. split; [done|]. split; [done|]. by eexists. }
  destruct (span_split (λ b, negb (is_colon b)) (x :: rest')) as (tok & r & E & Htok & Hr).
  rewrite E in *. apply nul_free_app in Hnr as [Hnt Hnr].
  assert (tok ≠ []) as Hne.
  { intros ->. destruct Hr as [->|(y & r' & -> & Hy)]; [done|].
    injection E as -> ->. by rewrite Hx in Hy. }
  assert (Forall (λ b, is_colon b = false) tok) as Htok'.
  { eapply Forall_impl; [exact Htok|]. intros b Hb. by apply negb_true_iff in Hb. }
  destruct Hr as [->|(y & r' & -> & Hy)].
  - rewrite app_nil_r in *.
    rewrite tokens_last by done. rewrite <- !app_assoc.
    rewrite (strtok_r_last [COLON] [] HD pre ds tok []) by
      (done || by apply nul_free_app).
    eexists _, _, _. split; [done|].
    exists (length (pre ++ ds)), [], (pre ++ ds ++ tok), []. split_and!; try done.
    + by rewrite (app_assoc pre ds), drop_app_length.
    + by rewrite <- !app_assoc.
  - apply negb_false_iff in Hy. apply nul_free_cons in Hnr as [Hy0 Hnr].
    rewrite tokens_next by done. rewrite <- !app_assoc, <- app_comm_cons.
    rewrite (strtok_r_next [COLON] [] HD pre ds tok y (r' ++ [0])) by
      (done || (rewrite !nul_free_app; split_and!; [done..|by apply Forall_singleton])).
    eexists _, _, _. split; [done|].
    exists (length (pre ++ ds)), (r' ++ [0]), (pre ++ ds ++ tok ++ [0]), r'.
    split_and!; try done.
    + by rewrite (app_assoc pre ds), drop_app_length.
    + by rewrite <- !app_assoc.
    + cbn. do 2 f_equal. rewrite !length_app. simpl. lia.
Qed.

(** Strings of blocks. *)
Definition hold (bs : list block) (T : list (list Z)) : Prop :=
  bs.*2 = (λ t, t ++ [0]) <$> T.

Lemma token_loop_spec fuel id buf tok acc w T :
  pending id buf tok w T → (length T < fuel)%nat →
  ∃ bs w', token_loop alloc fuel (id, buf) tok acc w = Val (Some (acc ++ bs), w') ∧
    hold bs (take (MAX_LIST_LEN - length acc) T) ∧ frame w w' ∧ w_freed w' = w_freed w ∧
    w_errno w' = w_errno w ∧ ∃ off, w_strtok w' = Some (id, off).
Proof using HA.
  revert fuel buf tok acc w; induction T as [|t T IH]; intros fuel buf tok acc w Hp Hf;
    (destruct fuel as [|fuel]; [simpl in Hf; lia|]); cbn [token_loop].
  - destruct Hp as [-> Hoff]. exists [], w. rewrite take_nil, app_nil_r. by split_and!.
  - destruct Hp as (o & r & pre & s & -> & Hdrop & Ht & Hbuf & Hs & HT & Hw). cbn [snd].
    destruct (Nat.ltb_spec (length acc) MAX_LIST_LEN) as [Hlt|Hge].
    + rewrite Hdrop. rewrite (bind_run _ _ _ _ _ (strdup_ok alloc t r w Ht)).
      destruct (strtok_pending id pre s false (bump 1 w) Hs) as (buf' & tok' & off & E & Hp');
        [by right|].
      subst buf. rewrite (bind_run _ _ _ _ _ E). cbn [fst snd].
      rewrite <- HT in IH |- *.
      destruct (IH fuel buf' tok' (acc ++ [(w_next w, t ++ [0])]) _ Hp')
        as (bs & w' & -> & Hbs & Hfr & Hfreed & Herr & Hoff).
      { rewrite HT. simpl in Hf. lia. }
      exists ((w_next w, t ++ [0]) :: bs), w'. split_and!; [|..|done|done|done].
      * by rewrite <- app_assoc.
      * replace (MAX_LIST_LEN - length acc)%nat
          with (S (MAX_LIST_LEN - length (acc ++ [(w_next w, t ++ [0%Z])])))%nat
          by (rewrite length_app; simpl; lia).
        unfold hold in *. cbn. by rewrite Hbs.
      * etrans; [|exact Hfr]. etrans; [apply bump_quiet|apply set_tok_frame].
    + exists [], w. replace (MAX_LIST_LEN - length acc)%nat with 0%nat by lia.
      rewrite app_nil_r. split_and!; [done..|by eexists].
Qed.
(** The list of an environment value of fewer than 128 tokens, and the
    out-of-bounds store of the terminator otherwise. *)
Lemma get_string_list_spec id s w :
  nul_free s →
  let T := colon_tokens s in
  if (length T <? MAX_LIST_LEN)%nat then
    ∃ l w', get_string_list alloc (Some (id, s ++ [0])) w = Val (Some l, w') ∧
      hold (sl_strings l) T ∧ frame w w' ∧ w_freed w' = w_freed w ∧
      w_errno w' = w_errno w ∧ ∃ off, w_strtok w' = Some (id, off)
  else get_string_list alloc (Some (id, s ++ [0])) w = Fault.
Proof using HA.
  intros Hs T. unfold get_string_list.
  destruct (malloc_ok alloc (8 * MAX_LIST_LEN) w) as (mem & E & _).
  rewrite (bind_run _ _ _ _ _ E). clear E.
  destruct (strtok_pending id [] s true (bump 1 w) Hs) as (buf & tok & off & E & Hp);
    [by left|]. cbn [app] in E.
  destruct (token_loop_spec (S (length (s ++ [0]))) id buf tok [] _ _ Hp)
    as (bs & w' & E' & Hbs & Hfr & Hfreed & Herr & Hoff).
  { pose proof (tokens_length is_colon s). unfold colon_tokens.
    rewrite length_app. simpl. lia. }
  cbn [app] in E'. rewrite Nat.sub_0_r in Hbs. fold T in Hbs.
  erewrite bind_run.
  2: { rewrite (bind_run _ _ _ _ _ E). exact E'. }
  assert (length bs = length (take MAX_LIST_LEN T)) as Hl.
  { apply (f_equal length) in Hbs. by rewrite !length_fmap in Hbs. }
  rewrite length_take in Hl. cbv beta iota. rewrite Hl.
  destruct (Nat.ltb_spec (length T) MAX_LIST_LEN).
  - rewrite (proj2 (Nat.ltb_lt _ _)) by lia.
    eexists _, w'. split; [done|]. cbn [sl_strings].
    rewrite take_ge in Hbs by lia. split_and!; [done|..|done|done|done].
    etrans; [|exact Hfr]. etrans; [apply bump_quiet|apply set_tok_frame].
  - by rewrite (proj2 (Nat.ltb_ge _ _)) by lia.
Qed.

(** The saved pointer of [strtok] points into a block that was freed. *)
Definition strtok_dangling (w : world) : Prop :=
  ∃ id off, w_strtok w = Some (id, off) ∧ id ∈ w_freed w.

Lemma env_list_spec s t w :
  nul_free s → heap_ok w →
  let T := colon_tokens s in
  if (length T <? MAX_LIST_LEN)%nat then
    ∃ l w', env_list alloc (s ++ 0 :: t) w = Val (Some l, w') ∧
      hold (sl_strings l) T ∧ frame w w' ∧ strtok_dangling w'
  else env_list alloc (s ++ 0 :: t) w = Fault.
Proof using HA.
  intros Hs Hok T. unfold env_list.
  rewrite (bind_run _ _ _ _ _ (strdup_ok alloc s t w Hs)).
  pose proof (get_string_list_spec (w_next w) s (bump 1 w) Hs) as H.
  cbv zeta in H. fold T in H. revert H. destruct (length T <? MAX_LIST_LEN)%nat; intros H.
  - destruct H as (l & w' & E & Hl & Hfr & Hfreed & _ & off & Hoff).
    rewrite (bind_run _ _ _ _ _ E).
    destruct (free_ok (w_next w) (s ++ [0]) w') as (w2 & E2 & Hfr2 & Hin & Hst & _).
    + rewrite Hfreed. cbn. intros Hin.
      apply (proj1 (Forall_forall _ _) Hok) in Hin. lia.
    + pose proof (fr_next _ _ Hfr). simpl in *. lia.
    + rewrite (bind_run _ _ _ _ _ E2). exists l, w2. split_and!; [done..| |].
      * etrans; [apply (bump_quiet 1)|]. by etrans.
      * exists (w_next w), off. by rewrite Hst.
  - by apply bind_fault.
Qed.

(** ** Descriptors *)

(** The descriptor a token of a descriptor list stands for. *)
Definition fd_of (t : list Z) : Z :=
  match Strtol.strtol (t ++ [0]) 10 with
  | Val r => if bool_decide (Strtol.endptr r = Some (length t))
             then wraps 32 (Strtol.ret r) else -1
  | _ => -1
  end.

Lemma mute_dangling w w' : mute w w' → strtok_dangling w → strtok_dangling w'.
Proof using.
  intros [Hf Hs] (id & off & E & Hin). exists id, off. rewrite Hs.
  split; [done|]. by apply (fr_freed _ _ Hf).
Qed.

Lemma strtol10_spec t w :
  nul_free t →
  ∃ v c w', strtol10 (t ++ [0]) w = Val ((v, c), w') ∧ mute w w' ∧
    wraps 32 (if c =? 0 then v else -1) = fd_of t.
Proof using.
  intros Ht. unfold strtol10, fd_of, Strtol.strtol.
  destruct (Strtol.strtol_internal_total t [] Ht false 10) as (r & -> & He & Hle & _).
  rewrite bind_lift. destruct (He ltac:(lia)) as [e Ee]. specialize (Hle e Ee).
  assert (∃ w', (match Strtol.set_errno r with None => mret () | Some e => set_errno e end) w
    = Val ((), w') ∧ mute w w') as (w' & E & Hm).
  { destruct (Strtol.set_errno r); [|by exists w].
    eexists. split; [done|]. by repeat split. }
  rewrite (bind_run _ _ _ _ _ E). rewrite Ee. cbn [deref]. rewrite bind_lift.
  destruct (decide (e = length t)) as [->|Hne].
  - rewrite list_lookup_middle by done. cbn [deref]. rewrite bind_lift.
    eexists _, _, w'. split; [done|]. split; [done|].
    by rewrite bool_decide_eq_true_2.
  - rewrite lookup_app_l by lia.
    destruct (lookup_lt_is_Some_2 t e) as [c Hc]; [lia|]. rewrite Hc. cbn [deref].
    rewrite bind_lift. eexists _, _, w'. split; [done|]. split; [done|].
    rewrite bool_decide_eq_false_2 by naive_solver.
    destruct (Z.eqb_spec c 0) as [->|]; [|done].
    exfalso. by eapply (Forall_lookup_1 _ _ _ _ Ht).
Qed.

Lemma parse_fds_spec bs T fds w :
  hold bs T → Forall nul_free T → (length fds + length T <= MAX_LIST_LEN)%nat →
  ∃ w', parse_fds bs fds w = Val (fds ++ (fd_of <$> T), w') ∧ mute w w'.
Proof using.
  revert bs fds w; induction T as [|t T IH]; intros [|b bs] fds w Hh HT Hl; try done.
  - exists w. by rewrite app_nil_r.
  - injection Hh as Hb Hh. apply Forall_cons in HT as [Ht HT]. cbn [parse_fds].
    rewrite Hb. destruct (strtol10_spec t w Ht) as (v & c & w1 & E & Hm & Hfd).
    rewrite (bind_run _ _ _ _ _ E). cbn [fst snd]. rewrite Hfd.
    rewrite (proj2 (Nat.ltb_lt _ _)) by (simpl in Hl; lia).
    destruct (IH bs (fds ++ [fd_of t]) w1 Hh HT) as (w2 & -> & Hm2).
    { rewrite length_app. simpl in *. lia. }
    exists w2. rewrite <- app_assoc. split; [done|by etrans].
Qed.

(** A decimal descriptor is read as written. *)
Lemma fd_of_decimal cs ds :
  cs ≠ [] → Strtol.digit_string 10 cs ds → Strtol.horner 10 0 ds <= INT_MAX →
  fd_of cs = Strtol.horner 10 0 ds.
Proof using.
  intros Hne Hd Hmax. unfold fd_of, Strtol.strtol.
  assert (Strtol.numeral 10 [] [] [] cs 0 [] false 10 ds) as Hn.
  { constructor; [constructor|constructor| |done|done|by left].
    destruct cs as [|c cs]; [done|]. destruct cs; apply Strtol.np_given; lia || done. }
  destruct (Strtol.strtol_internal_numeral false _ _ _ _ _ _ _ _ _ _ Hn) as (i & Hi & E).
  cbn [app] in E. rewrite E. clear E.
  assert (0 <= Strtol.horner 10 0 ds) as H0.
  { apply Strtol.horner_ge; [lia|lia|]. apply Strtol.digit_string_bound in Hd.
    eapply Forall_impl; [exact Hd|]. simpl. lia. }
  revert Hmax Hi H0. generalize (Strtol.horner 10 0 ds). intros h Hmax Hi H0.
  unfold INT_MAX, ULONG_MAX, LONG_MAX in *.
  rewrite Hi by lia. cbv zeta. rewrite Z.gtb_ltb.
  destruct (Z.ltb_spec 18446744073709551615 h); [lia|].
  destruct (Z.ltb_spec 9223372036854775807 h); [lia|]. cbn [orb Strtol.endptr Strtol.ret].
  rewrite bool_decide_eq_true_2 by done.
  rewrite (wraps_small 64), (wraps_small 32) by lia. done.
Qed.
(** ** Absolute paths *)

(** One trailing slash is dropped, except from a path of length one. *)
Definition drop_slash (a : list Z) : list Z :=
  if (1 <? length a)%nat && bool_decide (last a = Some SLASH)
  then take (length a - 1) a else a.

Definition skip_dot (f : list Z) : list Z :=
  if bool_decide ($"./" `prefix_of` f) then drop 2 f else f.

(** The absolute path of [f], as a string. *)
Definition abs_of (cwd : option (list Z)) (f : list Z) : option (list Z) :=
  if bool_decide (head f = Some SLASH) then Some f
  else c ← cwd;
       let g := skip_dot f in
       if (PATH_MAX <? length c + length g + 2)%nat then None
       else Some (drop_slash (c ++ [SLASH] ++ g)).

Lemma write_at_grow a n d bs :
  (length a + length bs <= n)%nat →
  write_at (a ++ replicate (n - length a) d) (length a) bs
  = Val ((a ++ bs) ++ replicate (n - length (a ++ bs)) d).
Proof using.
  intros Hn. rewrite length_app.
  replace (n - length a)%nat with (length bs + (n - (length a + length bs)))%nat by lia.
  rewrite replicate_add, write_at_mid by by rewrite length_replicate.
  by rewrite <- app_assoc.
Qed.

Lemma drop_slash_write a j w :
  nul_free a → (1 < length a)%nat →
  ∃ j', (c ← lift (deref ((a ++ 0 :: j) !! (length a - 1)%nat));
    if (1 <? length a)%nat && (c =? SLASH)
    then abs_path ← lift (write_at (a ++ 0 :: j) (length a - 1) [0]);
         (mret (Some abs_path) : M (option (list Z)))
    else mret (Some (a ++ 0 :: j))) w = Val (Some (drop_slash a ++ 0 :: j'), w).
Proof using.
  intros Ha Hl. rewrite lookup_app_l by lia. unfold drop_slash.
  assert (last a = a !! (length a - 1)%nat) as E.
  { rewrite last_lookup. f_equal. lia. }
  destruct (lookup_lt_is_Some_2 a (length a - 1)) as [c Hc]; [lia|].
  rewrite E, Hc. cbn [deref]. rewrite bind_lift.
  rewrite (proj2 (Nat.ltb_lt _ _)) by done. cbn [andb].
  destruct (Z.eqb_spec c SLASH) as [->|Hne].
  - rewrite bool_decide_eq_true_2 by done.
    assert (a = take (length a - 1) a ++ [SLASH]) as Ea.
    { rewrite <- (take_drop (length a - 1) a) at 1. f_equal.
      rewrite (drop_S a SLASH) by done. by rewrite drop_ge by lia. }
    exists (0 :: j). assert (length (take (length a - 1) a) = (length a - 1)%nat) as Ht
      by (rewrite length_take; lia).
    pose proof (write_at_mid (take (length a - 1) a) [SLASH] (0 :: j) [0] eq_refl) as W.
    rewrite Ht, app_assoc, <- Ea in W. by rewrite W, bind_lift.
  - rewrite bool_decide_eq_false_2 by congruence. by exists j.
Qed.

Lemma first_char f t :
  ∃ c0, (f ++ 0 :: t) !! 0%nat = Some c0 ∧
    bool_decide (head f = Some SLASH) = (c0 =? SLASH).
Proof using.
  destruct f as [|b f]; [by exists 0|]. exists b. split; [done|]. simpl.
  destruct (Z.eqb_spec b SLASH); [by rewrite bool_decide_eq_true_2; subst|].
  rewrite bool_decide_eq_false_2; naive_solver.
Qed.

(** Giving up after the buffer was allocated. *)
Lemma free_fresh w (b : list Z) :
  heap_ok w →
  ∃ w', (_ ← free (Some (w_next w, b)); (mret None : M (option (list Z)))) (bump 1 w)
        = Val (None, w') ∧ mute w w'.
Proof using.
  intros Hok. destruct (free_ok (w_next w) b (bump 1 w)) as (w' & E' & Hfr & _ & Hst & _).
  - cbn. intros Hin. apply (proj1 (Forall_forall _ _) Hok) in Hin. lia.
  - cbn. lia.
  - rewrite (bind_run _ _ _ _ _ E'). exists w'. split; [done|].
    split; [by etrans; [apply (bump_quiet 1)|]|done].
Qed.

Lemma memset_all buf n : length buf = n → memset buf 0 0 n = Val (replicate n 0).
Proof using.
  intros Hl. unfold memset, write_at. rewrite length_replicate.
  rewrite (proj2 (Nat.leb_le _ _)) by lia. rewrite drop_ge by lia. by rewrite app_nil_r.
Qed.

(** Skipping a leading [./]. *)
Lemma skip_dot_run f t :
  nul_free f →
  ∃ d u, strncmp (f ++ 0 :: t) (lit "./") 2 = Val d ∧
    (if d =? 0 then drop 2 (f ++ 0 :: t) else f ++ 0 :: t) = skip_dot f ++ 0 :: u ∧
    nul_free (skip_dot f).
Proof using.
  intros Hf. rewrite strncmp_unrolled.
  destruct (strncmp_prefix $"./" f t [0] ltac:(by repeat constructor) Hf) as (d & Ed & Hd).
  change (strncmp_ref 2 (f ++ 0 :: t) (lit "./"))
    with (strncmp_ref (length $"./") (f ++ 0 :: t) ($"./" ++ [0])).
  exists d, t. split; [done|]. unfold skip_dot.
  destruct (Z.eqb_spec d 0) as [->|Hne].
  - destruct (proj1 Hd eq_refl) as [j ->]. rewrite bool_decide_eq_true_2 by by eexists.
    split; [done|]. by apply nul_free_app in Hf as [_ ?].
  - by rewrite bool_decide_eq_false_2 by naive_solver.
Qed.

(** The four stores that join the directory and the path. *)
Lemma join_run {A} c g u (k : list Z → M A) w :
  (length c + length g + 2 <= PATH_MAX)%nat →
  ∃ junk, (abs_path ← lift (write_at (replicate PATH_MAX 0) 0 c);
    abs_path ← lift (write_at abs_path (length c) [SLASH]);
    bs ← lift (read_n (g ++ 0 :: u) (length g));
    abs_path ← lift (write_at abs_path (length c + 1) bs);
    abs_path ← lift (write_at abs_path (length c + length g + 1) [0]);
    k abs_path) w = k ((c ++ [SLASH] ++ g) ++ 0 :: junk) w.
Proof using.
  intros Hfit. pose proof (write_at_grow [] PATH_MAX 0 c ltac:(simpl; lia)) as W1.
  rewrite Nat.sub_0_r in W1. cbn [app length] in W1. rewrite W1, bind_lift.
  rewrite write_at_grow, bind_lift by (simpl; lia).
  assert (read_n (g ++ 0 :: u) (length g) = Val g) as ->.
  { unfold read_n. rewrite length_app, (proj2 (Nat.leb_le _ _)) by lia.
    by rewrite take_app_length. }
  rewrite bind_lift.
  replace (length c + 1)%nat with (length (c ++ [SLASH])) by (rewrite length_app; done).
  rewrite write_at_grow, bind_lift by (rewrite length_app; simpl; lia).
  replace (length c + length g + 1)%nat with (length ((c ++ [SLASH]) ++ g))
    by (rewrite !length_app; simpl; lia).
  rewrite write_at_grow, bind_lift by (rewrite !length_app; simpl; lia).
  rewrite <- (app_assoc c [SLASH] g), <- app_assoc. by eexists.
Qed.

Lemma absolute_spec f t w :
  nul_free f → heap_ok w → (∀ c, w_cwd w = Some c → nul_free c ∧ (1 <= length c)%nat) →
  ∃ p w', absolute alloc (f ++ 0 :: t) w = Val (p, w') ∧ mute w w' ∧
    match abs_of (w_cwd w) f with
    | Some a => ∃ j, p = Some (a ++ 0 :: j)
    | None => p = None
    end.
Proof using HA.
  intros Hf Hok Hcwd. unfold absolute, abs_of.
  destruct (first_char f t) as (c0 & E0 & ->).
  rewrite E0. cbn [deref]. rewrite bind_lift. destruct (c0 =? SLASH) eqn:Ec0.
  { eexists _, w. split; [done|]. split; [done|]. by exists t. }
  unfold get_absolute_path. destruct (malloc_ok alloc PATH_MAX w) as (buf & E & Hl).
  rewrite (bind_run _ _ _ _ _ E), (memset_all _ _ Hl), bind_lift, E0.
  cbn [deref]. rewrite bind_lift, Ec0. change (w_cwd (bump 1 w)) with (w_cwd w).
  destruct (free_fresh w (replicate PATH_MAX 0) Hok) as (wf & Ef & Hmf).
  destruct (w_cwd w) as [c|]; cbn [mbind option_bind]; [|by rewrite Ef; eauto].
  destruct (Hcwd c eq_refl) as [Hc Hc1].
  destruct (skip_dot_run f t Hf) as (d & u & Ed & Eu & Hg).
  rewrite Ed, bind_lift. cbv zeta. rewrite Eu; clear Eu Ed.
  rewrite strlen_spec, bind_lift by done. set (g := skip_dot f) in *.
  destruct (Nat.ltb_spec PATH_MAX (length c + length g + 2)) as [Hbig|Hfit];
    [by rewrite Ef; eauto|].
  edestruct (join_run (A := option (list Z)) c g u) as (junk & Ej); [exact Hfit|]. rewrite Ej; clear Ej. cbv beta.
  set (a := c ++ [SLASH] ++ g). assert (nul_free a) as Ha.
  { unfold a. rewrite !nul_free_app. split_and!; [done|by apply Forall_singleton|done]. }
  rewrite strlen_spec, bind_lift by done.
  assert (1 < length a)%nat as Hla by (unfold a; rewrite !length_app; simpl; lia).
  destruct (drop_slash_write a junk (bump 1 w) Ha Hla) as [j' Ej].
  rewrite (proj2 (Nat.ltb_lt _ _) Hla) in *. rewrite Ej.
  eexists _, _. split; [done|]. split; [apply quiet_mute, bump_quiet|]. by exists j'.
Qed.
End correct.

(** ** Dropping the last component *)

(** Without the trailing slashes. *)
Fixpoint rstrip (a : list Z) : list Z :=
  match a with
  | [] => []
  | c :: a' =>
      match rstrip a' with
      | [] => if c =? SLASH then [] else [c]
      | r => c :: r
      end
  end.

(** What precedes the last slash. *)
Fixpoint before_slash (b : list Z) : option (list Z) :=
  match b with
  | [] => None
  | c :: b' =>
      match before_slash b' with
      | Some d => Some (c :: d)
      | None => if c =? SLASH then Some [] else None
      end
  end.

(** The string [remove_last_component] leaves for an absolute path. *)
Definition dirname (a : list Z) : list Z := default [] (before_slash (rstrip a)).

Lemma rstrip_snoc a c : rstrip (a ++ [c]) = if c =? SLASH then rstrip a else a ++ [c].
Proof.
  induction a as [|b a IH]; [done|].
  change (rstrip ((b :: a) ++ [c])) with
    (match rstrip (a ++ [c]) with [] => if b =? SLASH then [] else [b] | r => b :: r end).
  rewrite IH. destruct (c =? SLASH); [done|]. by destruct a.
Qed.

Lemma rstrip_prefix a : rstrip a `prefix_of` a.
Proof.
  induction a as [|c a IH]; [done|]. cbn [rstrip].
  destruct (rstrip a) as [|x r] eqn:E.
  - destruct (c =? SLASH); [apply prefix_nil|]. by eexists.
  - by apply prefix_cons.
Qed.

Lemma strip_slashes_spec a j :
  strip_slashes (length a) (a ++ 0 :: j)
  = Val (rstrip a ++ 0 :: replicate (length a - length (rstrip a)) 0 ++ j).
Proof.
  revert j; induction a as [|c a IH] using rev_ind; intros j; [done|].
  rewrite rstrip_snoc, length_app, Nat.add_comm. cbn [length Nat.add strip_slashes].
  rewrite <- app_assoc. cbn [app]. rewrite list_lookup_middle by done.
  cbn [deref mbind outcome_bind]. destruct (c =? SLASH).
  - pose proof (write_at_mid a [c] (0 :: j) [0] eq_refl) as W. cbn [app] in W.
    rewrite W. cbn [mbind outcome_bind]. rewrite IH. do 3 f_equal.
    rewrite Nat.sub_succ_l by (apply prefix_length, rstrip_prefix). cbn [replicate app].
    by rewrite app_comm_cons, replicate_cons_app, <- app_assoc.
  - rewrite length_app. cbn [length]. rewrite Nat.add_1_r, Nat.sub_diag. cbn.
    by rewrite <- app_assoc.
Qed.

Lemma before_slash_spec b :
  match before_slash b with
  | None => SLASH ∉ b
  | Some d => ∃ e, b = d ++ SLASH :: e ∧ (SLASH ∉ e)
  end.
Proof.
  induction b as [|c b IH]; cbn [before_slash]; [set_solver|].
  destruct (before_slash b) as [d|].
  - destruct IH as (e & -> & He). by exists e.
  - destruct (Z.eqb_spec c SLASH) as [->|]; [by exists b|set_solver].
Qed.

Lemma nul_free_prefix a b : a `prefix_of` b → nul_free b → nul_free a.
Proof. by intros [k ->] [? _]%nul_free_app. Qed.

Section correct_preopen.
Context (alloc : nat → option (nat → Z)) {HA : Alloc alloc}.

(** For an absolute path the result has the contents [dirname a], and what
    the matching sees of it is what follows the first character of
    [dirname a], nothing when that is empty. *)
Lemma remove_last_component_spec a j w :
  nul_free a → head a = Some SLASH →
  ∃ x s r, remove_last_component alloc (Some (a ++ 0 :: j)) w
           = Val (Some (x :: s ++ 0 :: r), bump 1 w) ∧
    nul_free s ∧ s = tail (dirname a) ∧ cstr (x :: s ++ 0 :: r) = Val (dirname a).
Proof using HA.
  intros Ha Hh. unfold remove_last_component, dirname.
  rewrite (bind_run _ _ _ _ _ (strdup_ok alloc a j w Ha)).
  rewrite strlen_spec, bind_lift by done.
  rewrite strip_slashes_spec, bind_lift.
  pose proof (nul_free_prefix _ _ (rstrip_prefix a) Ha) as Hr.
  pose proof (before_slash_spec (rstrip a)) as Hb.
  destruct (before_slash (rstrip a)) as [d|] eqn:Ed; cbn [default].
  - set (j1 := replicate (length a - length (rstrip a)) 0 ++ []).
    clearbody j1. destruct Hb as (e & Er & He). rewrite Er in *.
    apply nul_free_app in Hr as [Hd [_ Hne]%nul_free_cons].
    rewrite <- app_assoc, <- app_comm_cons.
    rewrite strrchr_last, bind_lift by done.
    replace (length (d ++ SLASH :: e ++ 0%Z :: j1) - length (SLASH :: e ++ 0%Z :: j1))%nat
      with (length d) by (rewrite length_app; lia).
    pose proof (write_at_mid d [SLASH] (e ++ 0 :: j1) [0] eq_refl) as W. cbn [app] in W.
    rewrite W, bind_lift. destruct d as [|x d]; cbn [length Nat.eqb app].
    + assert (∃ y r, e ++ 0 :: j1 = y :: r) as (y & r & ->)
        by (destruct e; by eexists _, _).
      pose proof (write_at_mid [0] [y] r [0] eq_refl) as W2. cbn [app length] in W2.
      rewrite W2, bind_lift. by exists 0, [], r.
    + apply nul_free_cons in Hd as [Hx Hd].
      exists x, d, (e ++ 0 :: j1). split_and!; [done..|].
      apply (cstr_spec (x :: d)). by constructor.
  - destruct a as [|c a]; [done|]. injection Hh as ->.
    assert (rstrip (SLASH :: a) = []) as ->.
    { cbn [rstrip] in *. destruct (rstrip a) as [|y r]; [done|]. exfalso. apply Hb. set_solver. }
    cbn [app length]. rewrite Nat.sub_0_r. cbn [replicate app].
    pose proof (strrchr_absent [] SLASH (0 :: replicate (length a) 0 ++ []) ltac:(by constructor)) as R.
    cbn [app] in R. rewrite R by (done || set_solver). rewrite bind_lift.
    set (r := replicate (length a) 0 ++ []).
    assert (write_at (0 :: 0 :: r) 0 [0] = Val (0 :: 0 :: r)) as ->
      by exact (write_at_mid [] [0] (0 :: r) [0] eq_refl).
    rewrite bind_lift. exists 0, [], r. split_and!; [done|by constructor|done|done].
Qed.
(** ** The environment of the call *)

(** A world [open64] can be called in: usable environment entries, an
    absolute working directory if any, and a consistent heap. *)
Record world_ok (w : world) : Prop := {
  wo_env : ∀ es, w_environ w = Some es → Forall Environ.entry_ok es;
  wo_cwd : ∀ c, w_cwd w = Some c → nul_free c ∧ head c = Some SLASH;
  wo_heap : heap_ok w
}.

Lemma world_ok_frame w w' : world_ok w → frame w w' → world_ok w'.
Proof using.
  intros [He Hc Hh] Hf. split.
  - by rewrite (fr_environ _ _ Hf).
  - by rewrite (fr_cwd _ _ Hf).
  - by apply (fr_ok _ _ Hf).
Qed.

(** The value of an environment variable. *)
Definition env_val (w : world) (name : string) : option (list Z) :=
  w_environ w ≫= Environ.env_lookup $name.

Lemma env_val_frame w w' name : frame w w' → env_val w' name = env_val w name.
Proof using. intros Hf. unfold env_val. by rewrite (fr_environ _ _ Hf). Qed.

Lemma getenv_run w name :
  world_ok w → Environ.name_ok $name →
  getenv (lit name) w = Val (env_val w name, w).
Proof using.
  intros [He _ _] Hn. unfold getenv, lit, env_val.
  destruct (w_environ w) as [es|]; [|done].
  by rewrite Environ.getenv_spec by auto.
Qed.

Lemma env_val_cstr w name p :
  world_ok w → Environ.name_ok $name → env_val w name = Some p →
  ∃ v t, p = v ++ 0 :: t ∧ nul_free v.
Proof using.
  intros [He _ _] Hn. unfold env_val. destruct (w_environ w) as [es|]; [|done].
  apply Environ.env_lookup_cstr; [auto|apply Hn].
Qed.

(** ** What a pair of lists says of a path *)

Definition keys (T : list (list Z)) : list (list (list Z)) := (λ t, visible (tail t)) <$> T.

Definition path_key (a : option (list Z)) : list (list Z) :=
  match a with Some s => visible (tail s) | None => [] end.

(** The index of the first listed path with the visible components of [a],
    among the first [n]. *)
Definition match_index (paths : list (list Z)) (n : nat) (a : option (list Z)) : Z :=
  first_match (path_key a) (take n (keys paths)) 0.

Lemma first_match_range V Vs i :
  first_match V Vs i = -1 ∨ Z.of_nat i <= first_match V Vs i < Z.of_nat (i + length Vs).
Proof using.
  revert i; induction Vs as [|V' Vs IH]; intros i; cbn [first_match length]; [by left|].
  destruct (bool_decide (V = V')); [right; lia|].
  destruct (IH (S i)) as [?|?]; [by left|right; lia].
Qed.

Lemma tokens_from_ok cur s :
  nul_free cur → nul_free s →
  Forall (λ t, t ≠ [] ∧ nul_free t) (tokens_from is_colon cur s).
Proof using.
  assert (∀ c, nul_free c → Forall (λ t, t ≠ [] ∧ nul_free t) (flush c)) as Hfl.
  { intros [|c l] Hc; [constructor|]. by apply Forall_singleton. }
  revert cur; induction s as [|b s IH]; intros cur Hc Hs; cbn [tokens_from]; [by apply Hfl|].
  apply nul_free_cons in Hs as [Hb Hs]. destruct (is_colon b).
  - apply Forall_app. split; [by apply Hfl|]. by apply IH; [constructor|].
  - apply IH; [|done]. apply nul_free_app. split; [done|]. by apply Forall_singleton.
Qed.

Lemma colon_tokens_ok s : nul_free s → Forall (λ t, t ≠ [] ∧ nul_free t) (colon_tokens s).
Proof using. intros. apply tokens_from_ok; [constructor|done]. Qed.

Lemma hold_paths l T :
  hold (sl_strings l) T → Forall (λ t, t ≠ [] ∧ nul_free t) T → list_paths l (keys T).
Proof using.
  unfold hold, list_paths, keys. generalize (sl_strings l). intros bs.
  revert T; induction bs as [|b bs IH]; intros [|t T] Hh HT; try done.
  injection Hh as Hb Hh. apply Forall_cons in HT as [[Hne Ht] HT].
  constructor; [|by apply IH]. rewrite Hb. destruct t as [|x t]; [done|].
  apply nul_free_cons in Ht as [_ Ht]. by apply (cp_string x t []).
Qed.

Lemma cpath_abs a j :
  nul_free a → a ≠ [] → cpath (Some (a ++ 0 :: j)) (path_key (Some a)).
Proof using.
  intros Ha Hne. destruct a as [|x s]; [done|]. apply nul_free_cons in Ha as [_ Ha].
  by apply cp_string.
Qed.

(** The common part of [preopen_file] and [preopen_from_dir] from the two
    environment values on: both lists are built and the descriptors
    parsed. *)
Lemma two_lists F D tF tD w (k : option string_list → list Z → M Z) nF nD :
  world_ok w → nul_free F → nul_free D → Environ.name_ok $nF → Environ.name_ok $nD →
  env_val w nF = Some (F ++ 0 :: tF) → env_val w nD = Some (D ++ 0 :: tD) →
  (length (colon_tokens F) < MAX_LIST_LEN)%nat →
  (length (colon_tokens D) < MAX_LIST_LEN)%nat →
  ∃ l w', (buff ← getenv (lit nF);
     match buff with
     | None => mret (-1)
     | Some b =>
         files ← env_list alloc b;
         buff ← getenv (lit nD);
         match buff with
         | None => mret (-1)
         | Some b =>
             fds_list ← env_list alloc b;
             fl ← lift (deref fds_list);
             fds ← parse_fds (sl_strings fl) [];
             k files fds
         end
     end) w = k (Some l) (fd_of <$> colon_tokens D) w' ∧
    list_paths l (keys (colon_tokens F)) ∧ frame w w' ∧ strtok_dangling w'.
Proof using HA.
  intros Hw HF HD HnF HnD EF ED HlF HlD.
  rewrite (bind_run _ _ _ _ _ (getenv_run w nF Hw HnF)), EF.
  pose proof (env_list_spec alloc F tF w HF (wo_heap _ Hw)) as H1. cbv zeta in H1.
  rewrite (proj2 (Nat.ltb_lt _ _) HlF) in H1.
  destruct H1 as (l & w1 & E1 & Hh1 & Hf1 & _). rewrite (bind_run _ _ _ _ _ E1).
  pose proof (world_ok_frame _ _ Hw Hf1) as Hw1.
  rewrite (bind_run _ _ _ _ _ (getenv_run w1 nD Hw1 HnD)).
  rewrite (env_val_frame _ _ _ Hf1), ED.
  pose proof (env_list_spec alloc D tD w1 HD (wo_heap _ Hw1)) as H2. cbv zeta in H2.
  rewrite (proj2 (Nat.ltb_lt _ _) HlD) in H2.
  destruct H2 as (l2 & w2 & E2 & Hh2 & Hf2 & Hd). rewrite (bind_run _ _ _ _ _ E2).
  cbn [deref]. rewrite bind_lift.
  destruct (parse_fds_spec (sl_strings l2) (colon_tokens D) [] w2 Hh2) as (w3 & E3 & Hm3).
  - eapply Forall_impl; [by apply colon_tokens_ok|]. simpl. naive_solver.
  - simpl. lia.
  - rewrite (bind_run _ _ _ _ _ E3). exists l, w3. split; [done|].
    split; [by apply hold_paths, colon_tokens_ok|].
    split; [|by eapply mute_dangling]. etrans; [exact Hf1|]. etrans; [exact Hf2|].
    apply Hm3.
Qed.
Lemma drop_slash_head a : head a = Some SLASH → head (drop_slash a) = Some SLASH.
Proof using.
  intros Ha. unfold drop_slash. destruct (_ && _) eqn:E; [|done].
  apply andb_true_iff in E as [E%Nat.ltb_lt _]. destruct a as [|x [|y a]]; simpl in E; [lia..|exact Ha].
Qed.

Lemma drop_slash_nul_free a : nul_free a → nul_free (drop_slash a).
Proof using.
  intros Ha. unfold drop_slash. destruct (_ && _); [|done]. by apply Forall_take.
Qed.

Lemma abs_of_ok w f a :
  world_ok w → nul_free f → abs_of (w_cwd w) f = Some a → nul_free a ∧ head a = Some SLASH.
Proof using.
  intros [_ Hc _] Hf. unfold abs_of.
  destruct (bool_decide_reflect (head f = Some SLASH)) as [Hh|_]; [by intros [= <-]|].
  destruct (w_cwd w) as [c|]; [|done]. cbn [mbind option_bind].
  destruct (Hc c eq_refl) as [Hnc Hhc].
  destruct (_ <? _)%nat; [done|]. intros [= <-]. split.
  - apply drop_slash_nul_free, nul_free_app. split; [done|]. apply nul_free_cons. split; [done|].
    unfold skip_dot. destruct (bool_decide _); [by apply Forall_drop|done].
  - apply drop_slash_head. by destruct c.
Qed.

Lemma absolute_cpath w f t :
  world_ok w → nul_free f →
  ∃ p w', absolute alloc (f ++ 0 :: t) w = Val (p, w') ∧ mute w w' ∧
    cpath p (path_key (abs_of (w_cwd w) f)) ∧
    match abs_of (w_cwd w) f with
    | Some a => nul_free a ∧ head a = Some SLASH ∧ ∃ j, p = Some (a ++ 0 :: j)
    | None => p = None
    end.
Proof using HA.
  intros Hw Hf.
  destruct (absolute_spec alloc f t w Hf (wo_heap _ Hw)) as (p & w' & E & Hm & Hp).
  { intros c Hc. destruct (wo_cwd _ Hw c Hc) as [? Hh]. split; [done|].
    destruct c; [done|]. simpl. lia. }
  exists p, w'. split; [done|]. split; [done|].
  destruct (abs_of (w_cwd w) f) as [a|] eqn:Ea.
  - destruct (abs_of_ok w f a Hw Hf Ea) as [Ha Hh]. destruct Hp as [j ->].
    split; [|by eauto]. apply cpath_abs; [done|]. by destruct a.
  - subst p. split; [constructor|done].
Qed.

(** The descriptor at an index of the list [D]. *)
Definition fd_at (D : list Z) (i : Z) : Z :=
  if 0 <=? i then default (-1) ((fd_of <$> colon_tokens D) !! Z.to_nat i) else -1.

Lemma find_matching_spec p V l Vs n w :
  cpath p V → list_paths l Vs → (n <= length Vs)%nat →
  ∃ j, find_matching_preopen_path alloc p (Some l) n w
       = Val (first_match V (take n Vs) 0, bump j w).
Proof using HA.
  intros Hp Hl Hn. unfold find_matching_preopen_path.
  destruct (find_from_spec alloc p V l Vs 0 n w Hp Hl) as [j E]; [lia|]. by exists j.
Qed.

Lemma fd_lookup D P a :
  0 <= match_index P (length (colon_tokens D)) a →
  (fd_of <$> colon_tokens D) !! Z.to_nat (match_index P (length (colon_tokens D)) a)
  = Some (fd_at D (match_index P (length (colon_tokens D)) a)).
Proof using.
  intros H. unfold fd_at. rewrite (proj2 (Z.leb_le _ _) H).
  destruct (lookup_lt_is_Some_2 (fd_of <$> colon_tokens D)
    (Z.to_nat (match_index P (length (colon_tokens D)) a))) as [x ->]; [|done].
  rewrite length_fmap. unfold match_index in *.
  destruct (first_match_range (path_key a) (take (length (colon_tokens D)) (keys P)) 0);
    [lia|]. rewrite length_take in *. lia.
Qed.

(** ** The two lookups *)

(** The string value of an environment variable. *)
Definition env_str (w : world) (name : string) : option (list Z) :=
  p ← env_val w name; match cstr p with Val v => Some v | _ => None end.

(** The descriptor that the list [nD] holds for the path [a] in the list
    [nF]. *)
Definition preopened (w : world) (nF nD : string) (a : option (list Z)) : option Z :=
  F ← env_str w nF; D ← env_str w nD;
  let i := match_index (colon_tokens F) (length (colon_tokens D)) a in
  if 0 <=? i then Some (fd_at D i) else None.

(** The lists are short enough for the code, and no descriptor lacks a
    path. *)
Definition listed_ok (w : world) (nF nD : string) : bool :=
  match env_str w nF, env_str w nD with
  | None, _ => true
  | Some F, None => (length (colon_tokens F) <? MAX_LIST_LEN)%nat
  | Some F, Some D => (length (colon_tokens F) <? MAX_LIST_LEN)%nat
                      && (length (colon_tokens D) <=? length (colon_tokens F))%nat
  end.

Lemma env_str_frame w w' name : frame w w' → env_str w' name = env_str w name.
Proof using. intros Hf. unfold env_str. by rewrite (env_val_frame _ _ _ Hf). Qed.

Lemma env_str_val w name v :
  world_ok w → Environ.name_ok $name → env_str w name = Some v →
  nul_free v ∧ ∃ t, env_val w name = Some (v ++ 0 :: t).
Proof using.
  intros Hw Hn. unfold env_str. destruct (env_val w name) as [p|] eqn:E; [|done].
  destruct (env_val_cstr w name p Hw Hn E) as (u & t & -> & Hu).
  cbn [mbind option_bind]. rewrite cstr_spec by done. intros [= <-]. eauto.
Qed.

Lemma env_str_none w name :
  world_ok w → Environ.name_ok $name → env_str w name = None → env_val w name = None.
Proof using.
  intros Hw Hn. unfold env_str. destruct (env_val w name) as [p|] eqn:E; [|done].
  destruct (env_val_cstr w name p Hw Hn E) as (u & t & -> & Hu).
  cbn [mbind option_bind]. by rewrite cstr_spec.
Qed.

(** The part [preopen_file] and [preopen_from_dir] share, whatever is set:
    a variable that is missing gives -1. *)
Lemma lookup_lists w (k : option string_list → list Z → M Z) nF nD :
  world_ok w → Environ.name_ok $nF → Environ.name_ok $nD → listed_ok w nF nD = true →
  ∃ w', frame w w' ∧ (is_Some (env_str w nF) → strtok_dangling w') ∧
    ∃ m, m = (buff ← getenv (lit nF);
     match buff with
     | None => mret (-1)
     | Some b =>
         files ← env_list alloc b;
         buff ← getenv (lit nD);
         match buff with
         | None => mret (-1)
         | Some b =>
             fds_list ← env_list alloc b;
             fl ← lift (deref fds_list);
             fds ← parse_fds (sl_strings fl) [];
             k files fds
         end
     end) w ∧
    match env_str w nF, env_str w nD with
    | Some F, Some D =>
        ∃ l, list_paths l (keys (colon_tokens F)) ∧
          (length (colon_tokens D) <= length (keys (colon_tokens F)))%nat ∧
          m = k (Some l) (fd_of <$> colon_tokens D) w'
    | _, _ => m = Val (-1, w')
    end.
Proof using HA.
  intros Hw HnF HnD. unfold listed_ok.
  destruct (env_str w nF) as [F|] eqn:EF.
  2: { intros _. exists w. split; [done|]. split; [by intros []|]. eexists. split; [done|].
       rewrite (bind_run _ _ _ _ _ (getenv_run w nF Hw HnF)).
       by rewrite (env_str_none _ _ Hw HnF EF). }
  destruct (env_str_val _ _ _ Hw HnF EF) as (HF & tF & EvF).
  destruct (env_str w nD) as [D|] eqn:ED.
  - rewrite andb_true_iff, Nat.ltb_lt, Nat.leb_le. intros [HlF Hle].
    destruct (env_str_val _ _ _ Hw HnD ED) as (HD & tD & EvD).
    destruct (two_lists F D tF tD w k nF nD Hw HF HD HnF HnD EvF EvD)
      as (l & w' & E & Hl & Hf & Hd); [done|lia|].
    exists w'. split; [done|]. split; [done|]. eexists. split; [done|]. exists l.
    split; [done|]. split; [unfold keys; by rewrite length_fmap|done].
  - rewrite Nat.ltb_lt. intros HlF.
    pose proof (env_list_spec alloc F tF w HF (wo_heap _ Hw)) as H1. cbv zeta in H1.
    rewrite (proj2 (Nat.ltb_lt _ _) HlF) in H1. destruct H1 as (l & w1 & E1 & _ & Hf1 & Hd).
    pose proof (world_ok_frame _ _ Hw Hf1) as Hw1.
    exists w1. split; [done|]. split; [done|]. eexists. split; [done|].
    rewrite (bind_run _ _ _ _ _ (getenv_run w nF Hw HnF)), EvF, (bind_run _ _ _ _ _ E1).
    rewrite (bind_run _ _ _ _ _ (getenv_run w1 nD Hw1 HnD)), (env_val_frame _ _ _ Hf1).
    by rewrite (env_str_none _ _ Hw HnD ED).
Qed.

Lemma preopened_some w nF nD a F D :
  env_str w nF = Some F → env_str w nD = Some D →
  preopened w nF nD a
  = let i := match_index (colon_tokens F) (length (colon_tokens D)) a in
    if 0 <=? i then Some (fd_at D i) else None.
Proof using. intros EF ED. unfold preopened. by rewrite EF, ED. Qed.

Lemma preopened_missing w nF nD a :
  match env_str w nF, env_str w nD with Some _, Some _ => False | _, _ => True end →
  preopened w nF nD a = None.
Proof using. unfold preopened. by destruct (env_str w nF), (env_str w nD). Qed.

Ltac solve_name := split_and!; [apply (bool_decide_unpack _); by vm_compute..|done].

Lemma preopen_file_spec f t oflag mode w :
  world_ok w → nul_free f → listed_ok w "PREOPEN_FILES" "PREOPEN_FILE_FDS" = true →
  ∃ w', preopen_file alloc (f ++ 0 :: t) oflag mode w
    = Val (default (-1) (preopened w "PREOPEN_FILES" "PREOPEN_FILE_FDS"
                           (abs_of (w_cwd w) f)), w') ∧
    frame w w' ∧ (is_Some (env_str w "PREOPEN_FILES") → strtok_dangling w').
Proof using HA.
  intros Hw Hf Hok. unfold preopen_file.
  edestruct (lookup_lists w) as (w1 & Hf1 & Hd1 & m & Em & H);
    [done|..|exact Hok|rewrite <- Em; clear Em]; [solve_name..|].
  destruct (env_str w "PREOPEN_FILES") as [F|] eqn:EF;
    [destruct (env_str w "PREOPEN_FILE_FDS") as [D|] eqn:ED|].
  2-3: rewrite preopened_missing, H by (by rewrite EF, ?ED); by exists w1.
  destruct H as (l & Hl & Hle & ->). rewrite (preopened_some _ _ _ _ F D EF ED).
  destruct (absolute_cpath w1 f t (world_ok_frame _ _ Hw Hf1) Hf) as (p & w2 & E2 & Hm2 & Hp & _).
  rewrite (bind_run _ _ _ _ _ E2), length_fmap. rewrite (fr_cwd _ _ Hf1) in Hp.
  destruct (find_matching_spec p _ l _ (length (colon_tokens D)) w2 Hp Hl Hle) as [j E3].
  rewrite (bind_run _ _ _ _ _ E3).
  fold (match_index (colon_tokens F) (length (colon_tokens D)) (abs_of (w_cwd w) f)).
  exists (bump j w2). cbv zeta.
  split; [destruct (Z.leb_spec 0
    (match_index (colon_tokens F) (length (colon_tokens D)) (abs_of (w_cwd w) f)))|].
  - by rewrite fd_lookup.
  - done.
  - pose proof (bump_quiet j w2) as Hq. split.
    + etrans; [exact Hf1|]. etrans; [apply Hm2|]. apply Hq.
    + intros Hs. eapply mute_dangling; [by apply quiet_mute|]. eapply mute_dangling; eauto.
Qed.

(** The path [preopen_from_dir] looks up and passes to [openat]. *)
Definition dir_target (oflag : Z) (a : option (list Z)) : option (list Z) :=
  if Z.land oflag O_DIRECTORY =? 0 then dirname <$> a else a.

Lemma dir_target_run w f t oflag :
  world_ok w → nul_free f →
  ∃ p w', (abs_path ← absolute alloc (f ++ 0 :: t);
           if Z.land oflag O_DIRECTORY =? 0
           then remove_last_component alloc abs_path else mret abs_path) w = Val (p, w') ∧
    mute w w' ∧ cpath p (path_key (dir_target oflag (abs_of (w_cwd w) f))) ∧
    match p with
    | None => (mret None : M (option (list Z)))
    | Some q => lift (Some <$> cstr q)
    end w' = Val (dir_target oflag (abs_of (w_cwd w) f), w').
Proof using HA.
  intros Hw Hf. destruct (absolute_cpath w f t Hw Hf) as (p & w1 & E1 & Hm & Hp & Ha).
  rewrite (bind_run _ _ _ _ _ E1). unfold dir_target.
  destruct (Z.land oflag O_DIRECTORY =? 0).
  - destruct (abs_of (w_cwd w) f) as [a|].
    + destruct Ha as (Hna & Hh & j & ->).
      destruct (remove_last_component_spec a j w1 Hna Hh) as (x & s & r & E & Hs & -> & Ec).
      rewrite E. eexists _, _. split; [done|].
      split; [etrans; [exact Hm|apply quiet_mute, bump_quiet]|].
      split; [by apply cp_string|]. cbn [fmap option_fmap option_map]. by rewrite Ec.
    + subst p. eexists _, _. split; [done|]. split; [done|]. split; [constructor|done].
  - exists p, w1. split; [done|]. split; [done|]. split; [done|].
    destruct (abs_of (w_cwd w) f) as [a|]; [|by subst p].
    destruct Ha as (Hna & _ & j & ->). by rewrite cstr_spec.
Qed.

Section kernel.
Context (kernel : list syscall → syscall → Z).

(** The call [preopen_from_dir] makes for a directory descriptor. *)
Definition dir_call (w : world) (f : list Z) (oflag mode dirfd : Z) : syscall :=
  SysOpenat dirfd (dir_target oflag (abs_of (w_cwd w) f)) oflag
    (if Z.land oflag O_CREAT =? 0 then None else Some mode).

Lemma preopen_from_dir_spec f t oflag mode w :
  world_ok w → nul_free f → listed_ok w "PREOPEN_PATHS" "PREOPEN_PATH_FDS" = true →
  ∃ w', frame w w' ∧ (is_Some (env_str w "PREOPEN_PATHS") → strtok_dangling w') ∧
    preopen_from_dir alloc kernel (f ++ 0 :: t) oflag mode w
    = match preopened w "PREOPEN_PATHS" "PREOPEN_PATH_FDS"
              (dir_target oflag (abs_of (w_cwd w) f)) with
      | Some dirfd =>
          let c := dir_call w f oflag mode dirfd in
          let r := kernel (w_trace w) c in Val (wraps 32 (sys_ret r), called c r w')
      | None => Val (-1, w')
      end.
Proof using HA.
  intros Hw Hf Hok. unfold preopen_from_dir.
  edestruct (lookup_lists w) as (w1 & Hf1 & Hd1 & m & Em & H);
    [done|..|exact Hok|rewrite <- Em; clear Em]; [solve_name..|].
  destruct (env_str w "PREOPEN_PATHS") as [F|] eqn:EF;
    [destruct (env_str w "PREOPEN_PATH_FDS") as [D|] eqn:ED|].
  2-3: rewrite preopened_missing, H by (by rewrite EF, ?ED); by exists w1.
  destruct H as (l & Hl & Hle & ->). rewrite (preopened_some _ _ _ _ F D EF ED).
  destruct (dir_target_run w1 f t oflag (world_ok_frame _ _ Hw Hf1) Hf)
    as (p & w2 & E2 & Hm2 & Hp & Ec). rewrite (fr_cwd _ _ Hf1) in *.
  rewrite bind_assoc, (bind_run _ _ _ _ _ E2), length_fmap.
  destruct (find_matching_spec p _ l _ (length (colon_tokens D)) w2 Hp Hl Hle) as [j E3].
  rewrite (bind_run _ _ _ _ _ E3).
  fold (match_index (colon_tokens F) (length (colon_tokens D))
          (dir_target oflag (abs_of (w_cwd w) f))).
  assert (frame w (bump j w2) ∧ (is_Some (Some F) → strtok_dangling (bump j w2))) as [Hfr Hd].
  { pose proof (bump_quiet j w2) as Hq. split.
    - etrans; [exact Hf1|]. etrans; [apply Hm2|]. apply Hq.
    - intros Hs. eapply mute_dangling; [by apply quiet_mute|]. eapply mute_dangling; eauto. }
  exists (bump j w2). split; [done|]. split; [done|]. cbv zeta.
  destruct (Z.leb_spec 0 (match_index (colon_tokens F) (length (colon_tokens D))
    (dir_target oflag (abs_of (w_cwd w) f)))) as [Hi|Hi]; [|done].
  rewrite fd_lookup by done. cbn [deref]. rewrite bind_lift.
  assert (∀ q, match p with
    | None => (mret None : M (option (list Z)))
    | Some q => lift (Some <$> cstr q) end w2 = Val (q, w2) →
    match p with
    | None => (mret None : M (option (list Z)))
    | Some q => lift (Some <$> cstr q) end (bump j w2) = Val (q, bump j w2)) as Hb.
  { intros q. destruct p as [p|]; [|by intros [= <-]]. unfold lift.
    destruct (Some <$> cstr p); by intros [= <-]. }
  rewrite (bind_run _ _ _ _ _ (Hb _ Ec)).
  rewrite (bind_run _ _ _ _ _ (inline_syscall_run kernel _ _)).
  change (w_trace (bump j w2)) with (w_trace w2).
  rewrite <- (fr_trace _ _ Hfr). change (w_trace (bump j w2)) with (w_trace w2).
  unfold dir_call. set (c := SysOpenat _ _ _ _). cbv zeta.
  destruct (Z.eqb_spec (wraps 32 (sys_ret (kernel (w_trace w2) c))) (-1)) as [Er|];
    [by rewrite Er|done].
Qed.

(** ** The contract of [open64] *)

(** The direct call, made when no descriptor was found. *)
Definition direct_call (f : list Z) (oflag mode : Z) : syscall :=
  SysOpenat AT_FDCWD (Some f) (Z.lor oflag O_LARGEFILE) (Some mode).

(** What [open64] does, as a function of the environment, the working
    directory and the answers of the kernel: the result and the system
    calls.  [mode] is the mode argument if the flags need one, else 0. *)
Definition open_spec (w : world) (f : list Z) (oflag mode : Z) : Z * list syscall :=
  let a := abs_of (w_cwd w) f in
  let tr := w_trace w in
  let direct cs :=
    let c := direct_call f oflag mode in
    (wraps 32 (sys_ret (kernel (tr ++ cs) c)), cs ++ [c; SysClose (-1)]) in
  let fd := default (-1) (preopened w "PREOPEN_FILES" "PREOPEN_FILE_FDS" a) in
  if fd >? 0 then (fd, [])
  else
    match preopened w "PREOPEN_PATHS" "PREOPEN_PATH_FDS" (dir_target oflag a) with
    | Some dirfd =>
        let c := dir_call w f oflag mode dirfd in
        let r := wraps 32 (sys_ret (kernel tr c)) in
        if r >? 0 then (r, [c]) else direct [c]
    | None => direct []
    end.

(** Neither variable that turns on the log is set. *)
Definition log_off (w : world) : Prop :=
  env_val w "PREOPEN_DEBUG_FD" = None ∧ env_val w "PREOPEN_DEBUG_FILE" = None.

Lemma get_debug_fd_off w : world_ok w → log_off w → get_debug_fd kernel w = Val (-1, w).
Proof using.
  intros Hw [E1 E2]. unfold get_debug_fd.
  rewrite (bind_run _ _ _ _ _ (getenv_run w "PREOPEN_DEBUG_FD" Hw ltac:(solve_name))), E1.
  rewrite bind_ret.
  by rewrite (bind_run _ _ _ _ _ (getenv_run w "PREOPEN_DEBUG_FILE" Hw ltac:(solve_name))), E2.
Qed.

(** [preopen] is the lookup of the file, then of its directory. *)
Lemma preopen_spec f t oflag mode w :
  world_ok w → nul_free f →
  listed_ok w "PREOPEN_FILES" "PREOPEN_FILE_FDS" = true →
  listed_ok w "PREOPEN_PATHS" "PREOPEN_PATH_FDS" = true →
  let a := abs_of (w_cwd w) f in
  let fd := default (-1) (preopened w "PREOPEN_FILES" "PREOPEN_FILE_FDS" a) in
  ∃ w', frame w w' ∧
    preopen alloc kernel (f ++ 0 :: t) oflag mode w
    = if fd >? 0 then Val (fd, w')
      else match preopened w "PREOPEN_PATHS" "PREOPEN_PATH_FDS" (dir_target oflag a) with
           | Some dirfd =>
               let c := dir_call w f oflag mode dirfd in
               let r := kernel (w_trace w) c in
               Val (if wraps 32 (sys_ret r) >? 0 then wraps 32 (sys_ret r) else -1,
                    called c r w')
           | None => Val (-1, w')
           end.
Proof using HA.
  intros Hw Hf H1 H2. cbv zeta. unfold preopen.
  destruct (preopen_file_spec f t oflag mode w Hw Hf H1) as (w1 & E1 & Hf1 & _).
  rewrite (bind_run _ _ _ _ _ E1). destruct (_ >? 0); [by exists w1|].
  pose proof (world_ok_frame _ _ Hw Hf1) as Hw1.
  assert (listed_ok w1 "PREOPEN_PATHS" "PREOPEN_PATH_FDS" = true) as H2'
    by (unfold listed_ok in *; by rewrite !(env_str_frame _ _ _ Hf1)).
  destruct (preopen_from_dir_spec f t oflag mode w1 Hw1 Hf H2') as (w2 & Hf2 & _ & E2).
  exists w2. split; [by etrans|]. unfold dir_call in *. unfold preopened in E2.
  rewrite !(env_str_frame _ _ _ Hf1), (fr_cwd _ _ Hf1), (fr_trace _ _ Hf1) in E2.
  fold (preopened w "PREOPEN_PATHS" "PREOPEN_PATH_FDS"
          (dir_target oflag (abs_of (w_cwd w) f))) in E2.
  destruct (preopened w "PREOPEN_PATHS" _ _) as [dirfd|];
    rewrite (bind_run _ _ _ _ _ E2); [|done].
  cbv zeta. by destruct (_ >? 0).
Qed.

(** With the log off, [open64] ends with the direct call and the close of
    the missing log descriptor, or before. *)
Lemma direct_run f t oflag mode w :
  nul_free f →
  ((_ ← debug_log kernel (-1) (lit "preopen") (f ++ 0 :: t) (-1);
    path ← lift (cstr (f ++ 0 :: t));
    r ← inline_syscall kernel
          (SysOpenat AT_FDCWD (Some path) (Z.lor oflag O_LARGEFILE) (Some mode));
    let fd := wraps 32 r in
    _ ← debug_log kernel (-1) (lit "open") (f ++ 0 :: t) fd;
    _ ← inline_syscall kernel (SysClose (-1));
    mret fd) : M Z) w
  = let c := direct_call f oflag mode in
    let r := kernel (w_trace w) c in
    let w' := called c r w in
    Val (wraps 32 (sys_ret r),
         called (SysClose (-1)) (kernel (w_trace w') (SysClose (-1))) w').
Proof using.
  intros Hf. unfold debug_log. cbn [Z.leb Z.compare]. rewrite bind_ret, cstr_spec, bind_lift by done.
  rewrite (bind_run _ _ _ _ _ (inline_syscall_run kernel _ _)). cbv zeta.
  rewrite bind_ret. by rewrite (bind_run _ _ _ _ _ (inline_syscall_run kernel _ _)).
Qed.
End kernel.
End correct_preopen.

End Open64.
