(* ===== verification/Preopen.v ===== *)
(** * What [open64] promises: theorems about the pre-open mechanism

    The theorems about [sysdeps/unix/sysv/linux/open64.c]: the refinement of
    the whole call by [open_spec], which reads the environment lists as
    tables of paths and descriptors; the meaning of the matching; the
    parsing of the lists; and the places where the code does something its
    comments do not say (the directory that is opened instead of the file,
    the [errno] that is lost, the reads past the list).  The code does not
    check [malloc], so the theorems assume [World.Alloc], that every
    allocation is granted.  The worlds of the witnesses come first. *)

From S2P Require Import Prelude CString Strtol Environ World Open64.
Local Open Scope Z_scope.

Module Preopen.
Import CString World Open64.

(** ** Concrete worlds *)

Definition demo_alloc (n : nat) : option (nat → Z) := Some (λ _, 170).

#[export] Instance demo_alloc_total : Alloc demo_alloc.
Proof. intros n. by eexists. Qed.

(** A kernel in which [/nope] does not exist and descriptor -1 is bad. *)
Definition demo_kernel (tr : list syscall) (c : syscall) : Z :=
  match c with
  | SysOpenat _ (Some p) _ _ => if decide (p = $"/nope") then -2 else 42
  | SysClose fd => if fd <? 0 then -9 else 0
  | SysWrite _ b => Z.of_nat (length b)
  | _ => -14
  end.

Definition demo_world (env : list string) : world :=
  MkWorld (Some (Environ.cs <$> env)) (Some $"/home/u") 0 [] None 0 [].

Lemma demo_world_ok env :
  forallb (λ s, bool_decide (nul_free $s ∧ bytes_ok $s ∧ $s ≠ [])) env = true →
  world_ok (demo_world env).
Proof.
  intros H. split; cbn.
  - intros es [= <-]. by apply Environ.entries_ok_cs.
  - intros c [= <-]. split; [|done]. apply (bool_decide_unpack _). by vm_compute.
  - constructor.
Qed.

Ltac concrete := apply (bool_decide_unpack _); vm_compute; exact I.

(** ** Matching *)

Lemma first_match_cases V Vs i :
  first_match V Vs i = -1 ∧ V ∉ Vs ∨
  ∃ m, first_match V Vs i = Z.of_nat (i + m) ∧ Vs !! m = Some V ∧ V ∉ take m Vs.
Proof.
  revert i; induction Vs as [|V' Vs IH]; intros i; cbn [first_match]; [left; set_solver|].
  case_bool_decide as E.
  - right. exists 0%nat. rewrite Nat.add_0_r, E. split_and!; [done..|set_solver].
  - destruct (IH (S i)) as [[-> Hn]|(m & -> & Hm & Hn)].
    + left. set_solver.
    + right. exists (S m). split; [f_equal; lia|]. cbn. split; [done|]. set_solver.
Qed.

(** Joining the components gives the path back. *)
Fixpoint join (l : list (list Z)) : list Z :=
  match l with
  | [] => []
  | [c] => c
  | c :: l' => c ++ SLASH :: join l'
  end.

Lemma split_join s : join (split s) = s.
Proof.
  induction s as [|c s IH]; [done|]. cbn [split].
  destruct (Z.eqb_spec c SLASH) as [->|_].
  - cbn [join app]. destruct (split s) eqn:E; [|by rewrite IH].
    destruct s as [|b s]; [done|]. cbn [split] in E. destruct (b =? SLASH); [done|].
    by destruct (split s).
  - destruct (split s) as [|h [|h' l]]; cbn [join app] in *; by rewrite <- IH.
Qed.

Lemma visible_all l : forallb short l = true → visible_of l = l.
Proof.
  induction l as [|c l IH]; cbn [forallb visible_of]; [done|].
  rewrite andb_true_iff. intros [-> H]. by rewrite IH.
Qed.

(** Every component of the path fits a buffer. *)
Definition short_path (a : list Z) : bool := forallb short (split (tail a)).

Lemma visible_inj a b :
  short_path a = true → short_path b = true →
  visible (tail a) = visible (tail b) → tail a = tail b.
Proof.
  intros Ha Hb. unfold visible. rewrite !visible_all by done.
  intros E. rewrite <- (split_join (tail a)), <- (split_join (tail b)). by f_equal.
Qed.

Definition entries (T : list (list Z)) : Prop :=
  Forall (λ t, t ≠ [] ∧ nul_free t ∧ short_path t = true) T.

Lemma tail_keys a T :
  short_path a = true → entries T → visible (tail a) ∈ keys T → ∃ t, t ∈ T ∧ tail t = tail a.
Proof.
  intros Ha HT (t & E & Ht)%list_elem_of_fmap. exists t. split; [done|].
  apply visible_inj; [|done|done]. by apply (proj1 (Forall_forall _ _) HT t Ht).
Qed.

(** ** Lists in environment values *)

(** The value that lists the strings [T]. *)
Fixpoint colon_join (T : list (list Z)) : list Z :=
  match T with
  | [] => []
  | [t] => t
  | t :: T' => t ++ COLON :: colon_join T'
  end.

Definition listable (T : list (list Z)) : Prop :=
  Forall (λ t, t ≠ [] ∧ nul_free t ∧ COLON ∉ t) T.

#[export] Instance listable_dec T : Decision (listable T).
Proof. unfold listable. apply _. Defined.

Lemma not_colon t : COLON ∉ t → Forall (λ b, is_colon b = false) t.
Proof.
  intros H. apply Forall_forall. intros b Hb. unfold is_colon, elemb.
  apply bool_decide_eq_false_2. set_solver.
Qed.

Lemma colon_tokens_join T : listable T → colon_tokens (colon_join T) = T.
Proof.
  induction 1 as [|t T (Hne & Hn & Hc) HT IH]; [done|]. unfold colon_tokens, tokens in *.
  destruct T as [|t' T'].
  - by apply tokens_last, not_colon.
  - change (colon_join (t :: t' :: T')) with (t ++ COLON :: colon_join (t' :: T')).
    rewrite tokens_from_run by by apply not_colon. cbn [tokens_from app].
    change (is_colon COLON) with true. cbv iota. rewrite IH. by destruct t.
Qed.

Lemma colon_join_nul_free T : listable T → nul_free (colon_join T).
Proof.
  induction 1 as [|t T (_ & Hn & _) HT IH]; [constructor|].
  destruct T as [|t' T']; [done|]. apply nul_free_app. split; [done|]. by constructor.
Qed.

(** ** Parents of paths *)

Lemma rstrip_slashes a k : rstrip (a ++ replicate k SLASH) = rstrip a.
Proof.
  induction k as [|k IH] in a |- *; [by rewrite app_nil_r|].
  cbn [replicate]. rewrite replicate_cons_app, app_assoc, rstrip_snoc. apply IH.
Qed.

Lemma rstrip_id a c : c ≠ SLASH → rstrip (a ++ [c]) = a ++ [c].
Proof. intros H. rewrite rstrip_snoc. by destruct (Z.eqb_spec c SLASH). Qed.

Lemma before_slash_last d b : SLASH ∉ b → before_slash (d ++ SLASH :: b) = Some d.
Proof.
  intros Hb. assert (before_slash b = None) as E.
  { induction b as [|c b IH]; [done|]. cbn. rewrite IH by set_solver.
    destruct (Z.eqb_spec c SLASH); [set_solver|done]. }
  induction d as [|c d IH]; cbn; [by rewrite E|by rewrite IH].
Qed.

Lemma dirname_parent d b k :
  b ≠ [] → SLASH ∉ b → dirname (d ++ SLASH :: b ++ replicate k SLASH) = d.
Proof.
  intros Hne Hb. unfold dirname. rewrite app_comm_cons, app_assoc, rstrip_slashes.
  destruct b as [|c b _] using rev_ind; [done|].
  rewrite app_comm_cons, app_assoc, rstrip_id by set_solver.
  rewrite <- app_assoc, <- app_comm_cons. by rewrite before_slash_last.
Qed.

(** ** The log line *)

Lemma append_grow a bs w :
  (length (a ++ bs) <= DEBUG_BUF)%nat →
  append (a ++ replicate (DEBUG_BUF - length a) 0) (length a) bs w
  = Val ((a ++ bs) ++ replicate (DEBUG_BUF - length (a ++ bs)) 0, length (a ++ bs), w).
Proof.
  intros H. unfold append. rewrite length_app in *. rewrite write_at_grow, bind_lift by done.
  by rewrite length_app.
Qed.

Lemma append_overflow a bs w :
  (length a <= DEBUG_BUF < length (a ++ bs))%nat →
  append (a ++ replicate (DEBUG_BUF - length a) 0) (length a) bs w = Fault.
Proof.
  intros H. unfold append, write_at. rewrite !length_app, length_replicate in *.
  by rewrite (proj2 (Nat.leb_gt _ _)) by lia.
Qed.

(** The line [debug_log] writes. *)
Definition log_line (prefix path : list Z) (fd : Z) : list Z :=
  (((prefix ++ $": ") ++ path) ++ (if fd >? 0 then $" success" else $" failed")) ++ [10].

(** One more piece of the line: it fits, or the copy leaves the buffer. *)
Lemma append_step {A} a bs rest (k : list Z * nat → M A) w (m : outcome (A * world)) :
  (length a <= DEBUG_BUF)%nat →
  ((length (a ++ bs) <= DEBUG_BUF)%nat →
   k ((a ++ bs) ++ replicate (DEBUG_BUF - length (a ++ bs)) 0, length (a ++ bs)) w
   = if (length ((a ++ bs) ++ rest) <=? DEBUG_BUF)%nat then m else Fault) →
  (append (a ++ replicate (DEBUG_BUF - length a) 0) (length a) bs ≫= k) w
  = if (length ((a ++ bs) ++ rest) <=? DEBUG_BUF)%nat then m else Fault.
Proof.
  intros Ha Hk. destruct (decide (length (a ++ bs) <= DEBUG_BUF)%nat) as [Hf|Hf].
  - rewrite (bind_run _ _ _ _ _ (append_grow a bs w Hf)). by apply Hk.
  - rewrite (proj2 (Nat.leb_gt _ _)) by (rewrite length_app; lia).
    apply bind_fault, append_overflow. lia.
Qed.

Section claims.
Context (alloc : nat → option (nat → Z)) {HA : Alloc alloc}.
Context (kernel : list syscall → syscall → Z).

(** The call after the log descriptor was looked for. *)
Lemma open64_unlogged f t oflag arg w :
  world_ok w → log_off w →
  libc_open64 alloc kernel (f ++ 0 :: t) oflag arg w
  = (fd ← preopen alloc kernel (f ++ 0 :: t) oflag (if open_needs_mode oflag then arg else 0);
     _ ← debug_log kernel (-1) (lit "preopen") (f ++ 0 :: t) fd;
     if fd >? 0 then mret fd
     else
       path ← lift (cstr (f ++ 0 :: t));
       r ← inline_syscall kernel (SysOpenat AT_FDCWD (Some path) (Z.lor oflag O_LARGEFILE)
             (Some (if open_needs_mode oflag then arg else 0)));
       let fd := wraps 32 r in
       _ ← debug_log kernel (-1) (lit "open") (f ++ 0 :: t) fd;
       _ ← inline_syscall kernel (SysClose (-1));
       mret fd) w.
Proof using.
  intros Hw Hlog. unfold libc_open64. cbv zeta.
  by rewrite (bind_run _ _ _ _ _ (get_debug_fd_off kernel w Hw Hlog)).
Qed.

(** C1. With the log switched off, both tables within their limits (fewer than
    128 paths, and no more descriptors than paths) and every allocation
    granted, for any path, flags and mode, in a well-formed environment with an
    absolute working directory, the whole call [open64] refines [open_spec]: it
    returns, without a fault, the descriptor that the file table holds for the
    absolute path when that is positive, with no system call; else it issues
    the one [openat] through the matching directory descriptor; and when that
    gives no positive descriptor, the plain [openat] followed by the [close] of
    the log descriptor -1. The environment and working directory are not
    changed. A path is listed when its components, up to the first one too long
    for the 256-byte buffer, are those of an entry; the first character of
    either is not compared. *)
Theorem open64_refines f t oflag arg w :
  world_ok w → nul_free f → log_off w →
  listed_ok w "PREOPEN_FILES" "PREOPEN_FILE_FDS" = true →
  listed_ok w "PREOPEN_PATHS" "PREOPEN_PATH_FDS" = true →
  let mode := if open_needs_mode oflag then arg else 0 in
  ∃ w', libc_open64 alloc kernel (f ++ 0 :: t) oflag arg w
        = Val ((open_spec kernel w f oflag mode).1, w') ∧
    w_trace w' = w_trace w ++ (open_spec kernel w f oflag mode).2 ∧
    w_environ w' = w_environ w ∧ w_cwd w' = w_cwd w.
Proof using HA.
  intros Hw Hf Hlog H1 H2 mode. rewrite open64_unlogged by done. fold mode.
  destruct (preopen_spec alloc kernel f t oflag mode w Hw Hf H1 H2) as (w1 & Hf1 & E).
  unfold open_spec. cbv zeta in *.
  destruct (default (-1) _ >? 0) eqn:Efd.
  - rewrite (bind_run _ _ _ _ _ E). unfold debug_log. cbn [Z.leb Z.compare].
    rewrite bind_ret, Efd. exists w1. rewrite app_nil_r. split; [done|].
    split_and!; apply Hf1.
  - destruct (preopened w "PREOPEN_PATHS" _ _) as [dirfd|]; rewrite (bind_run _ _ _ _ _ E).
    + set (c := dir_call w f oflag mode dirfd).
      destruct (wraps 32 (sys_ret (kernel (w_trace w) c)) >? 0) eqn:Er.
      * unfold debug_log. cbn [Z.leb Z.compare]. rewrite bind_ret, Er.
        eexists. split; [done|]. cbn. by rewrite (fr_trace _ _ Hf1), (fr_environ _ _ Hf1), (fr_cwd _ _ Hf1).
      * cbn [Z.gtb Z.compare]. rewrite direct_run by done. cbv zeta. cbn [w_trace called].
        rewrite (fr_trace _ _ Hf1). eexists. split; [done|].
        cbn. rewrite (fr_trace _ _ Hf1), (fr_environ _ _ Hf1), (fr_cwd _ _ Hf1).
        by rewrite <- !app_assoc.
    + cbn [Z.gtb Z.compare]. rewrite direct_run by done. cbv zeta. rewrite app_nil_r.
      cbn [w_trace called]. rewrite (fr_trace _ _ Hf1). eexists. split; [done|].
      cbn. rewrite (fr_trace _ _ Hf1), (fr_environ _ _ Hf1), (fr_cwd _ _ Hf1).
      by rewrite <- !app_assoc.
Qed.

(** C2. As long as every allocation is granted (the code does not check
    malloc), the component-by-component search returns the index of the first
    of the [n] listed paths that is the given path (the first character of
    either is not compared), and -1 when none is, where n is at most the number
    of paths, no path is empty, and all components of all paths fit the
    256-byte buffer; it terminates and stays in bounds. *)
Theorem find_matching_first a j l T n w :
  nul_free a → a ≠ [] → short_path a = true →
  hold (sl_strings l) T → entries T → (n <= length T)%nat →
  ∃ i k, find_matching_preopen_path alloc (Some (a ++ 0 :: j)) (Some l) n w
         = Val (i, bump k w) ∧
    (i = -1 ∧ (∀ t, t ∈ take n T → tail t ≠ tail a) ∨
     ∃ m t, i = Z.of_nat m ∧ (m < n)%nat ∧ T !! m = Some t ∧ tail t = tail a ∧
            ∀ t', t' ∈ take m T → tail t' ≠ tail a).
Proof using HA.
  intros Ha Hne Hs Hh HT Hn.
  assert (list_paths l (keys T)) as Hl.
  { apply hold_paths; [done|]. eapply Forall_impl; [exact HT|]. simpl. naive_solver. }
  destruct (find_matching_spec alloc (Some (a ++ 0 :: j)) (path_key (Some a)) l (keys T) n w)
    as [k E]; [by apply cpath_abs|done|unfold keys; by rewrite length_fmap|].
  eexists _, k. split; [exact E|]. cbn [path_key].
  assert (∀ m t, t ∈ take m T → tail t = tail a → visible (tail a) ∈ take m (keys T)) as Hin.
  { intros m t Ht E'. unfold keys. rewrite <- fmap_take. apply list_elem_of_fmap.
    exists t. by rewrite E'. }
  destruct (first_match_cases (visible (tail a)) (take n (keys T)) 0) as [[-> Hno]|(m & -> & Hm & Hno)].
  - left. split; [done|]. intros t Ht E'. by eapply Hno, Hin.
  - right. cbn [Nat.add]. apply lookup_take_Some in Hm as [Hm Hlt].
    unfold keys in Hm. rewrite list_lookup_fmap in Hm.
    destruct (T !! m) as [t|] eqn:Et; [|done]. injection Hm as Hm.
    exists m, t. split_and!; [done..| |].
    + apply visible_inj; [|done|done].
      by apply (proj1 (Forall_forall _ _) HT t), list_elem_of_lookup_2 with m.
    + intros t' Ht' E'. rewrite take_take in Hno. eapply Hno, Hin; [|exact E'].
      by rewrite Nat.min_l by lia.
Qed.

(** C3. As long as every allocation is granted, parsing the colon-joined value
    of a list of non-empty, colon-free strings gives the list back when it has
    fewer than 128 entries; with 128 entries or more the store of the
    terminating null pointer is out of bounds. *)
Theorem get_string_list_roundtrip id T w :
  listable T →
  if (length T <? MAX_LIST_LEN)%nat then
    ∃ l w', get_string_list alloc (Some (id, colon_join T ++ [0])) w = Val (Some l, w') ∧
      hold (sl_strings l) T ∧ frame w w'
  else get_string_list alloc (Some (id, colon_join T ++ [0])) w = Fault.
Proof using HA.
  intros HT.
  pose proof (get_string_list_spec alloc id (colon_join T) w (colon_join_nul_free T HT)) as H.
  cbv zeta in H. rewrite colon_tokens_join in H by done.
  destruct (_ <? _)%nat; [naive_solver|done].
Qed.

(** C4. When every allocation is granted and the table of files is within its
    limits (fewer than 128 paths, and no more descriptors than paths),
    [preopen_file] returns the descriptor listed at the position of the
    absolute path, or -1, without any system call and whatever flags and mode
    were asked for; when [PREOPEN_FILES] is set it leaves the static pointer of
    [strtok] pointing into a freed block. A path is listed when its components,
    up to the first one too long for the 256-byte buffer, are those of an
    entry; the first character of either is not compared. *)
Theorem preopen_file_correct f t oflag mode w :
  world_ok w → nul_free f → listed_ok w "PREOPEN_FILES" "PREOPEN_FILE_FDS" = true →
  ∃ w', preopen_file alloc (f ++ 0 :: t) oflag mode w
        = Val (default (-1) (preopened w "PREOPEN_FILES" "PREOPEN_FILE_FDS"
                               (abs_of (w_cwd w) f)), w') ∧
    w_trace w' = w_trace w ∧
    (is_Some (env_str w "PREOPEN_FILES") → strtok_dangling w').
Proof using HA.
  intros Hw Hf Hok. destruct (preopen_file_spec alloc f t oflag mode w Hw Hf Hok)
    as (w' & E & Hfr & Hd). exists w'. split_and!; [done|apply Hfr|done].
Qed.

(** C5. When the directory of an absolute path is listed, O_DIRECTORY is not
    asked for, the table of directories is within its limits (fewer than 128
    paths, and no more descriptors than paths) and every allocation is granted,
    [preopen_from_dir] makes one system call, an [openat] through the listed
    descriptor to which it passes the directory and not the path, and returns
    the value of that call: what it gives is a descriptor of the parent
    directory and not of the file asked for. *)
Theorem preopen_dir_opens_parent d b t oflag mode w dirfd :
  world_ok w → nul_free d → nul_free b → head (d ++ [SLASH]) = Some SLASH →
  b ≠ [] → SLASH ∉ b → Z.land oflag O_DIRECTORY = 0 →
  listed_ok w "PREOPEN_PATHS" "PREOPEN_PATH_FDS" = true →
  preopened w "PREOPEN_PATHS" "PREOPEN_PATH_FDS" (Some d) = Some dirfd →
  let call := SysOpenat dirfd (Some d) oflag (if Z.land oflag O_CREAT =? 0 then None else Some mode) in
  ∃ w', preopen_from_dir alloc kernel ((d ++ SLASH :: b) ++ 0 :: t) oflag mode w
        = Val (wraps 32 (sys_ret (kernel (w_trace w) call)), w') ∧
    w_trace w' = w_trace w ++ [call].
Proof using HA.
  intros Hw Hd Hb Hh Hne Hs Ho Hok Hp call.
  assert (nul_free (d ++ SLASH :: b)) as Hf.
  { apply nul_free_app. split; [done|]. by constructor. }
  destruct (preopen_from_dir_spec alloc kernel (d ++ SLASH :: b) t oflag mode w Hw Hf Hok)
    as (w1 & Hf1 & _ & E).
  assert (dir_target oflag (abs_of (w_cwd w) (d ++ SLASH :: b)) = Some d) as Et.
  { unfold dir_target, abs_of. rewrite Ho, bool_decide_eq_true_2 by by destruct d.
    cbn [Z.eqb fmap option_fmap option_map]. f_equal.
    rewrite <- (app_nil_r b). by apply (dirname_parent d b 0). }
  unfold dir_call in E. rewrite Et, Hp in E. eexists. split; [exact E|].
  cbn. by rewrite (fr_trace _ _ Hf1).
Qed.

(** C6. With no table and no log configured, the value of [open64] is that of
    the plain [openat], but [errno] is the [EBADF] of the final [close (-1)],
    also when the [openat] failed with another error or succeeded. *)
Theorem open64_errno_lost f t oflag arg w :
  world_ok w → nul_free f → log_off w →
  env_str w "PREOPEN_FILES" = None → env_str w "PREOPEN_PATHS" = None →
  (∀ tr, kernel tr (SysClose (-1)) = -9) →
  ∃ r w', libc_open64 alloc kernel (f ++ 0 :: t) oflag arg w = Val (r, w') ∧
    r = wraps 32 (sys_ret (kernel (w_trace w)
          (direct_call f oflag (if open_needs_mode oflag then arg else 0)))) ∧
    w_errno w' = 9.
Proof using HA.
  intros Hw Hf Hlog H1 H2 Hk. rewrite open64_unlogged by done.
  set (mode := if open_needs_mode oflag then arg else 0).
  destruct (preopen_spec alloc kernel f t oflag mode w Hw Hf) as (w1 & Hf1 & E);
    [unfold listed_ok; by rewrite ?H1, ?H2..|].
  unfold preopened in E. rewrite H1, H2 in E. cbn [mbind option_bind default] in E.
  rewrite (bind_run _ _ _ _ _ E). cbn [Z.gtb Z.compare]. rewrite direct_run by done.
  cbv zeta. rewrite (fr_trace _ _ Hf1). eexists _, _. split; [done|]. split; [done|].
  cbn. by rewrite Hk.
Qed.

(** C7. With at least two more descriptors than paths and no match, the search
    reads a slot of the list that was never written, which is undefined. The
    path and the listed paths are not empty, all their components fit the
    256-byte buffer, and every allocation is granted. *)
Theorem find_matching_uninitialised a j l T n w :
  nul_free a → a ≠ [] → short_path a = true → hold (sl_strings l) T → entries T →
  (S (length T) < n)%nat → (∀ t, t ∈ T → tail t ≠ tail a) →
  find_matching_preopen_path alloc (Some (a ++ 0 :: j)) (Some l) n w = Fault.
Proof using HA.
  intros Ha Hne Hs Hh HT Hn Hno.
  assert (list_paths l (keys T)) as Hl.
  { apply hold_paths; [done|]. eapply Forall_impl; [exact HT|]. simpl. naive_solver. }
  apply (find_from_past_end alloc _ (path_key (Some a)) l (keys T)).
  - by apply cpath_abs.
  - done.
  - cbn. unfold visible. rewrite visible_all by done. destruct (tail a) as [|c s]; [done|].
    cbn [split]. destruct (c =? SLASH); [done|]. by destruct (split s).
  - lia.
  - unfold keys. rewrite length_fmap. lia.
  - destruct (first_match_cases (visible (tail a)) (keys T) 0) as [[E _]|(m & _ & Hm & _)]; [done|].
    exfalso. destruct (tail_keys a T Hs HT) as (t & Ht & E); [by eapply list_elem_of_lookup_2|].
    by apply (Hno t).
Qed.

(** [remove_last_component] of an absolute path, with any number of
    trailing slashes, is what precedes the last slash; for a file in the root
    directory that is the empty string. *)
Theorem remove_last_component_parent d b k j w :
  nul_free d → nul_free b → head (d ++ [SLASH]) = Some SLASH → b ≠ [] → SLASH ∉ b →
  ∃ r, remove_last_component alloc (Some ((d ++ SLASH :: b ++ replicate k SLASH) ++ 0 :: j)) w
       = Val (Some r, bump 1 w) ∧ cstr r = Val d.
Proof using HA.
  intros Hd Hb Hh Hne Hs.
  destruct (remove_last_component_spec alloc (d ++ SLASH :: b ++ replicate k SLASH) j w)
    as (x & s & r & E & _ & _ & Ec).
  - apply nul_free_app. split; [done|]. apply nul_free_cons. split; [done|].
    apply nul_free_app. split; [done|]. by apply Forall_replicate.
  - by destruct d.
  - eexists. split; [exact E|]. rewrite Ec. by rewrite dirname_parent.
Qed.

(** [debug_log] writes its line in one [write] when it fits the buffer of
    4096 bytes, and copies past the end of the buffer otherwise. *)
Theorem debug_log_line log_fd p t1 f t2 fd w :
  nul_free p → nul_free f → 0 < log_fd →
  let line := log_line p f fd in
  let c := SysWrite log_fd line in
  debug_log kernel log_fd (p ++ 0 :: t1) (f ++ 0 :: t2) fd w
  = if (length line <=? DEBUG_BUF)%nat
    then Val ((), called c (kernel (w_trace w) c) w) else Fault.
Proof using.
  intros Hp Hf Hfd line c. unfold debug_log.
  rewrite (proj2 (Z.leb_gt _ _)) by done. cbv zeta. rewrite (cstr_spec p), bind_lift by done.
  set (status := if fd >? 0 then $" success" else $" failed").
  assert (line = (([] ++ p) ++ $": " ++ f ++ status ++ [10])) as El
    by (unfold line, log_line; by rewrite <- !app_assoc).
  unfold c. rewrite El. clear c El line. apply (append_step []); [apply Nat.le_0_l|]. intros H1.
  cbn [fst snd]. rewrite app_assoc. apply append_step; [done|]. intros H2. cbn [fst snd].
  rewrite cstr_spec, bind_lift by done.
  rewrite app_assoc. apply append_step; [done|]. intros H3. cbn [fst snd].
  rewrite app_assoc. apply append_step; [done|]. intros H4. cbn [fst snd].
  match goal with |- context [ ?x ++ [10] ] => rewrite <- (app_nil_r (x ++ [10])) end.
  apply append_step; [done|]. intros H5. cbn [fst snd].
  rewrite app_nil_r, (proj2 (Nat.leb_le _ _) H5).
  unfold read_n. rewrite (proj2 (Nat.leb_le _ _)) by (rewrite (length_app _ (replicate _ _)); lia).
  rewrite take_app_length, bind_lift.
  by rewrite (bind_run _ _ _ _ _ (inline_syscall_run kernel _ _)).
Qed.

End claims.

(** ** Witnesses *)

Definition files_env : list string :=
  ["PREOPEN_FILES=/etc/passwd:/etc/hosts"; "PREOPEN_FILE_FDS=3:4"]%string.
Definition paths_env : list string :=
  ["PREOPEN_PATHS=/tmp:/var/log"; "PREOPEN_PATH_FDS=5:6"]%string.

Lemma open64_refines_witness :
  ∃ w', libc_open64 demo_alloc demo_kernel (lit "/etc/hosts") 0 0 (demo_world files_env)
        = Val (4, w') ∧ w_trace w' = [].
Proof.
  destruct (open64_refines demo_alloc demo_kernel $"/etc/hosts" [] 0 0 (demo_world files_env))
    as (w' & E & Et & _).
  - apply demo_world_ok. by vm_compute.
  - concrete.
  - split; by vm_compute.
  - by vm_compute.
  - by vm_compute.
  - assert (open_spec demo_kernel (demo_world files_env) $"/etc/hosts" 0 0 = (4, [])) as Es
      by by vm_compute.
    cbv zeta in *. change (if open_needs_mode 0 then 0 else 0) with 0 in *.
    rewrite Es in E, Et. cbn [fst snd] in E, Et. exists w'. unfold lit.
    split; [exact E|exact Et].
Defined.

Definition demo_list : string_list :=
  StringList 0 [(1%nat, lit "/etc/passwd"); (2%nat, lit "/etc/hosts"); (3%nat, lit "/etc/hosts")].
Definition demo_entries : list (list Z) := [$"/etc/passwd"; $"/etc/hosts"; $"/etc/hosts"].

Lemma find_matching_first_witness :
  ∃ k, find_matching_preopen_path demo_alloc (Some (lit "/etc/hosts")) (Some demo_list) 3
         (demo_world []) = Val (1, bump k (demo_world [])).
Proof.
  destruct (find_matching_first demo_alloc $"/etc/hosts" [] demo_list demo_entries 3 (demo_world []))
    as (i & k & E & Hi).
  - concrete.
  - done.
  - by vm_compute.
  - by vm_compute.
  - unfold entries, demo_entries. repeat (constructor; [concrete|]). constructor.
  - simpl. lia.
  - exists k. destruct Hi as [[-> Hno]|(m & t & -> & Hm & Ht & Htl & Hno)].
    + exfalso. apply (Hno $"/etc/hosts"); [concrete|done].
    + destruct m as [|[|[|m]]]; [by injection Ht as <-|exact E| |lia].
      exfalso. apply (Hno $"/etc/hosts"); [concrete|done].
Defined.

Lemma get_string_list_roundtrip_witness :
  ∃ l w', get_string_list demo_alloc (Some (7%nat, lit "3:4")) (demo_world []) = Val (Some l, w') ∧
    hold (sl_strings l) [$"3"; $"4"] ∧ frame (demo_world []) w'.
Proof.
  apply (get_string_list_roundtrip demo_alloc 7 [$"3"; $"4"] (demo_world [])). concrete.
Defined.

Lemma preopen_file_correct_witness :
  ∃ w', preopen_file demo_alloc (lit "/etc/passwd") 1 0 (demo_world files_env) = Val (3, w') ∧
    w_trace w' = [] ∧ strtok_dangling w'.
Proof.
  destruct (preopen_file_correct demo_alloc $"/etc/passwd" [] 1 0 (demo_world files_env))
    as (w' & E & Et & Hd).
  - apply demo_world_ok. by vm_compute.
  - concrete.
  - by vm_compute.
  - assert (preopened (demo_world files_env) "PREOPEN_FILES" "PREOPEN_FILE_FDS"
      (abs_of (w_cwd (demo_world files_env)) $"/etc/passwd") = Some 3) as Ep by by vm_compute.
    rewrite Ep in E. exists w'. unfold lit. split; [exact E|]. split; [exact Et|]. apply Hd.
    by apply (bool_decide_unpack _); vm_compute.
Defined.

Lemma preopen_dir_opens_parent_witness :
  ∃ w', preopen_from_dir demo_alloc demo_kernel (lit "/var/log/x") 0 0 (demo_world paths_env)
        = Val (42, w') ∧ w_trace w' = [SysOpenat 6 (Some $"/var/log") 0 None].
Proof.
  apply (preopen_dir_opens_parent demo_alloc demo_kernel $"/var/log" $"x" [] 0 0
           (demo_world paths_env) 6).
  - apply demo_world_ok. by vm_compute.
  - concrete.
  - concrete.
  - done.
  - done.
  - concrete.
  - done.
  - by vm_compute.
  - by vm_compute.
Defined.

Lemma open64_errno_lost_witness :
  ∃ r w', libc_open64 demo_alloc demo_kernel (lit "/nope") 0 0 (demo_world []) = Val (r, w') ∧
    r = -1 ∧ w_errno w' = 9.
Proof.
  apply (open64_errno_lost demo_alloc demo_kernel $"/nope" [] 0 0 (demo_world [])).
  - apply demo_world_ok. by vm_compute.
  - concrete.
  - split; by vm_compute.
  - by vm_compute.
  - by vm_compute.
  - done.
Defined.

Lemma find_matching_uninitialised_witness :
  find_matching_preopen_path demo_alloc (Some (lit "/etc/motd")) (Some demo_list) 5 (demo_world [])
  = Fault.
Proof.
  apply (find_matching_uninitialised demo_alloc $"/etc/motd" [] demo_list demo_entries 5
           (demo_world [])).
  - concrete.
  - done.
  - by vm_compute.
  - by vm_compute.
  - unfold entries, demo_entries. repeat (constructor; [concrete|]). constructor.
  - simpl. lia.
  - intros t Ht. unfold demo_entries in Ht. repeat (apply elem_of_cons in Ht as [->|Ht]; [done|]).
    by apply elem_of_nil in Ht.
Defined.

(** The theorems above assume that every request for memory is granted:
    [get_path_component] does not look at what [malloc] returns. *)
Example find_matching_malloc_refused :
  find_matching_preopen_path (λ _, None) (Some (lit "/etc/hosts")) (Some demo_list) 2 (demo_world []) = Fault.
Proof. by vm_compute. Qed.

Lemma remove_last_component_parent_witness :
  ∃ r, remove_last_component demo_alloc (Some (lit "/a//")) (demo_world [])
       = Val (Some r, bump 1 (demo_world [])) ∧ cstr r = Val [].
Proof.
  apply (remove_last_component_parent demo_alloc [] $"a" 2 [] (demo_world [])).
  - constructor.
  - concrete.
  - done.
  - done.
  - concrete.
Defined.

Lemma debug_log_line_witness :
  debug_log demo_kernel 9 (lit "open") (lit "/etc/hosts") (-1) (demo_world [])
  = Val ((), called (SysWrite 9 ($"open: /etc/hosts failed" ++ [10])) 24 (demo_world [])).
Proof.
  apply (debug_log_line demo_kernel 9 $"open" [] $"/etc/hosts" [] (-1) (demo_world [])).
  - concrete.
  - concrete.
  - lia.
Defined.

End Preopen.
