(* ===== verification/Random.v ===== *)
(** * The additive feedback generator: [stdlib/random_r.c]

    [srandom_r], [initstate_r], [setstate_r] and [random_r] on [int32_t]
    arrays supplied by the caller.  An array is a list of words in a store,
    so that two generators may live in two arrays and one [random_data] may
    be moved between them; word 0 of an array is [state[-1]], where the type
    and the rear pointer are saved.  The theorems: seeding computes the
    minimal standard generator modulo 2^31 - 1, every operation keeps the
    pointers in the table and the same distance apart, [random_r] is the step
    of a linear recurrence whose history is the table read from the front
    pointer, and switching arrays resumes a sequence where it stopped. *)

From S2P Require Import Prelude.
From stdpp Require Import gmap.
Local Open Scope Z_scope.

Module Random.

Definition EINVAL : Z := 22.

(** A generator type: the break value on the size of its array, the degree
    of its trinomial and the separation of its two lower terms. *)
Definition MAX_TYPES : Z := 5.
Definition BREAK_0 : Z := 8.
Definition BREAK_1 : Z := 32.
Definition BREAK_2 : Z := 64.
Definition BREAK_3 : Z := 128.
Definition BREAK_4 : Z := 256.
Definition seps : list Z := [0; 3; 1; 3; 1].
Definition degrees : list Z := [0; 7; 15; 31; 63].

(** A pointer into an array: the array and the index of the word. *)
Definition ptr : Type := nat * Z.
Definition shift (p : ptr) (i : Z) : ptr := (p.1, p.2 + i).

(** [struct random_data]; a pointer that was never set is [None]. *)
Record random_data := RandomData {
  fptr : option ptr;
  rptr : option ptr;
  state : option ptr;
  rand_type : Z;
  rand_deg : Z;
  rand_sep : Z;
  end_ptr : option ptr
}.

Abbreviation store := (gmap nat (list Z)).

(** Memory, the object [buf] points to ([None] for a null [buf]) and
    [errno]. *)
Record rnd := Rnd { mem : store; data : option random_data; errno : Z }.

Definition load (m : store) (p : ptr) : outcome Z :=
  ws ← deref (m !! p.1);
  if p.2 <? 0 then Fault else deref (ws !! Z.to_nat p.2).

Definition put (m : store) (p : ptr) (v : Z) : outcome store :=
  ws ← deref (m !! p.1);
  if (0 <=? p.2) && (p.2 <? Z.of_nat (length ws))
  then Val (<[p.1 := <[Z.to_nat p.2 := v]> ws]> m) else Fault.

(** A pointer comparison or difference is defined within one array. *)
Definition ptr_ge (p q : ptr) : outcome bool :=
  if (p.1 =? q.1)%nat then Val (q.2 <=? p.2) else Fault.
Definition ptr_diff (p q : ptr) : outcome Z :=
  if (p.1 =? q.1)%nat then Val (p.2 - q.2) else Fault.

Definition fail (r : rnd) : rnd := Rnd (mem r) (data r) EINVAL.

(** [__random_r (buf, result)]; [result] says whether the result pointer is
    not null, and the value stored through it is returned. *)
Definition random_r (r : rnd) (result : bool) : outcome (Z * option Z * rnd) :=
  match data r, result with
  | Some b, true =>
      state ← deref (state b);
      if rand_type b =? 0 then
        s0 ← load (mem r) state;
        let val := Z.land (wrapu 32 (s0 * 1103515245 + 12345)) 0x7fffffff in
        m ← put (mem r) state val;
        Val (0, Some val, Rnd m (Some b) (errno r))
      else
        fp ← deref (fptr b);
        rp ← deref (rptr b);
        ep ← deref (end_ptr b);
        f ← load (mem r) fp;
        x ← load (mem r) rp;
        let val := wrapu 32 (f + x) in
        m ← put (mem r) fp (wraps 32 val);
        let fp := shift fp 1 in
        wrapped ← ptr_ge fp ep;
        (if wrapped : bool then Val (state, shift rp 1)
         else
           let rp := shift rp 1 in
           rear ← ptr_ge rp ep;
           Val (fp, if rear : bool then state else rp)) ≫= λ fr : ptr * ptr,
        Val (0, Some (Z.shiftr val 1),
             Rnd m (Some (RandomData (Some fr.1) (Some fr.2) (Some state) (rand_type b)
                            (rand_deg b) (rand_sep b) (Some ep))) (errno r))
  | _, _ => Val (-1, None, fail r)
  end.

(** One step of the seeding generator. *)
Definition lcg (word : Z) : Z :=
  let hi := Z.quot word 127773 in
  let lo := Z.rem word 127773 in
  let word := wraps 32 (16807 * lo - 2836 * hi) in
  if word <? 0 then word + 2147483647 else word.

(** The loop that fills [n] words from [dst + 1] on. *)
Fixpoint fill (n : nat) (m : store) (dst : ptr) (word : Z) : outcome store :=
  match n with
  | O => Val m
  | S n' =>
      let word := lcg word in
      m ← put m (shift dst 1) word; fill n' m (shift dst 1) word
  end.

(** [while (--kc >= 0) (void) __random_r (buf, &discard);] *)
Fixpoint discard (n : nat) (r : rnd) : outcome rnd :=
  match n with
  | O => Val r
  | S n' => random_r r true ≫= λ x : Z * option Z * rnd, discard n' x.2
  end.

Definition srandom_r (seed : Z) (r : rnd) : outcome (Z * rnd) :=
  match data r with
  | None => Val (-1, r)
  | Some b =>
      if (rand_type b <? 0) || (MAX_TYPES <=? rand_type b) then Val (-1, r)
      else
        state ← deref (state b);
        let seed := if seed =? 0 then 1 else seed in
        m ← put (mem r) state (wraps 32 seed);
        if rand_type b =? 0 then Val (0, Rnd m (Some b) (errno r))
        else
          let kc := rand_deg b in
          m ← fill (Z.to_nat (kc - 1)) m state (wraps 32 seed);
          let b := RandomData (Some (shift state (rand_sep b))) (Some state) (Some state)
                     (rand_type b) (rand_deg b) (rand_sep b) (end_ptr b) in
          r ← discard (Z.to_nat (kc * 10)) (Rnd m (Some b) (errno r));
          Val (0, r)
  end.

(** [state[-1] = ...]: the type and the rear pointer saved in the array. *)
Definition save (m : store) (b : random_data) (st : ptr) : outcome store :=
  if rand_type b =? 0 then put m (shift st (-1)) 0
  else
    rp ← deref (rptr b);
    d ← ptr_diff rp st;
    put m (shift st (-1)) (wraps 32 (MAX_TYPES * d + rand_type b)).

(** The largest type an array of [n] bytes can hold. *)
Definition type_of_size (n : Z) : option Z :=
  if BREAK_3 <=? n then Some (if n <? BREAK_4 then 3 else 4)
  else if n <? BREAK_1 then if n <? BREAK_0 then None else Some 0
  else Some (if n <? BREAK_2 then 1 else 2).

Definition initstate_r (seed : Z) (arg_state : nat) (n : Z) (r : rnd) : outcome (Z * rnd) :=
  match data r with
  | None => Val (-1, fail r)
  | Some b =>
      m ← (match state b with None => Val (mem r) | Some old => save (mem r) b old end);
      match type_of_size n with
      | None => Val (-1, Rnd m (Some b) EINVAL)
      | Some type =>
          degree ← deref (degrees !! Z.to_nat type);
          separation ← deref (seps !! Z.to_nat type);
          let st : ptr := (arg_state, 1) in
          let b := RandomData (fptr b) (rptr b) (Some st) type degree separation
                     (Some (shift st degree)) in
          srandom_r seed (Rnd m (Some b) (errno r)) ≫= λ x : Z * rnd,
          b ← deref (data x.2);
          m ← save (mem x.2) b st;
          Val (0, Rnd m (Some b) (errno x.2))
      end
  end.

Definition setstate_r (arg_state : option nat) (r : rnd) : outcome (Z * rnd) :=
  match arg_state, data r with
  | Some a, Some b =>
      let new_state : ptr := (a, 1) in
      old ← deref (state b);
      m ← save (mem r) b old;
      w ← load m (shift new_state (-1));
      let type := Z.rem w MAX_TYPES in
      if (type <? 0) || (4 <? type) then Val (-1, Rnd m (Some b) EINVAL)
      else
        degree ← deref (degrees !! Z.to_nat type);
        separation ← deref (seps !! Z.to_nat type);
        let rear := Z.quot w MAX_TYPES in
        let fr := if type =? 0 then (fptr b, rptr b)
                  else (Some (shift new_state (Z.rem (rear + separation) degree)),
                        Some (shift new_state rear)) in
        Val (0, Rnd m (Some (RandomData fr.1 fr.2 (Some new_state) type degree separation
                               (Some (shift new_state degree)))) (errno r))
  | _, _ => Val (-1, fail r)
  end.

(** ** Arithmetic *)

Definition int32 (x : Z) : Prop := -2147483648 <= x < 2147483648.

#[export] Instance int32_dec x : Decision (int32 x).
Proof. unfold int32. apply _. Defined.

Definition M31 : Z := 2147483647.

(** The step that avoids overflowing 31 bits is multiplication modulo
    2^31 - 1, for every [int32_t], negative ones included. *)
Lemma lcg_spec word : int32 word → lcg word = (16807 * word) mod M31.
Proof.
  unfold int32, lcg, M31. intros Hw. cbv zeta.
  pose proof (Z.quot_rem' word 127773) as E.
  assert (-127773 < Z.rem word 127773 < 127773) as Hr.
  { pose proof (Z.rem_bound_abs word 127773 ltac:(lia)). lia. }
  assert (0 <= word → 0 <= Z.rem word 127773) as H1 by (intros; by apply Z.rem_nonneg).
  assert (word <= 0 → Z.rem word 127773 <= 0) as H2 by (intros; by apply Z.rem_nonpos).
  set (hi := Z.quot word 127773) in *. set (lo := Z.rem word 127773) in *. clearbody hi lo.
  assert (-16808 < hi < 16808) by lia.
  assert (-2147483648 <= 16807 * lo - 2836 * hi < 2147483648) by lia.
  rewrite wraps_small by (change (2 ^ (32 - 1)) with 2147483648; lia).
  assert (16807 * word = 16807 * lo - 2836 * hi + hi * 2147483647) as E' by lia.
  destruct (Z.ltb_spec (16807 * lo - 2836 * hi) 0).
  - apply Z.mod_unique with (hi - 1); lia.
  - apply Z.mod_unique with hi; lia.
Qed.

Lemma lcg_range word : int32 word → 0 <= lcg word < M31.
Proof. intros H. rewrite lcg_spec by done. apply Z.mod_pos_bound. by vm_compute. Qed.

Lemma wraps_int32 x : int32 (wraps 32 x).
Proof. pose proof (wraps_bound 32 x ltac:(lia)). unfold int32. lia. Qed.

(** ** Generators at rest in an array *)

(** A generator of type 1 to 4: its array, the rear index, the saved word,
    the table and what follows it in the array. *)
Record gen := Gen {
  g_array : nat; g_type : Z; g_rear : Z; g_saved : Z; g_table : list Z; g_rest : list Z
}.

Definition deg (g : gen) : Z := default 0 (degrees !! Z.to_nat (g_type g)).
Definition sep (g : gen) : Z := default 0 (seps !! Z.to_nat (g_type g)).
Definition front (g : gen) : Z := (g_rear g + sep g) mod deg g.
Definition words (g : gen) : list Z := g_saved g :: g_table g ++ g_rest g.

(** The fields of [buf] for a generator. *)
Definition data_of (g : gen) : random_data :=
  let st : ptr := (g_array g, 1) in
  RandomData (Some (shift st (front g))) (Some (shift st (g_rear g))) (Some st)
    (g_type g) (deg g) (sep g) (Some (shift st (deg g))).

(** A generator with its pointers in the table. *)
Record gen_ok (g : gen) : Prop := {
  go_type : 1 <= g_type g <= 4;
  go_rear : 0 <= g_rear g < deg g;
  go_table : Z.of_nat (length (g_table g)) = deg g;
  go_words : Forall int32 (g_table g)
}.

(** [buf] is set to the generator and its array holds it. *)
Definition runs (g : gen) (r : rnd) : Prop :=
  gen_ok g ∧ data r = Some (data_of g) ∧ mem r !! g_array g = Some (words g).

Lemma gen_cases g : 1 <= g_type g <= 4 →
  deg g = 7 ∧ sep g = 3 ∨ deg g = 15 ∧ sep g = 1 ∨ deg g = 31 ∧ sep g = 3 ∨ deg g = 63 ∧ sep g = 1.
Proof.
  intros H. unfold deg, sep.
  assert (g_type g = 1 ∨ g_type g = 2 ∨ g_type g = 3 ∨ g_type g = 4)
    as [->|[->|[->| ->]]] by lia; vm_compute; auto 10.
Qed.

(** The linear recurrence: the history of the last [deg] words, oldest
    first. *)
Definition history (g : gen) : list Z :=
  drop (Z.to_nat (front g)) (g_table g) ++ take (Z.to_nat (front g)) (g_table g).

Definition recurrence (sep : nat) (h : list Z) : Z :=
  wrapu 32 (nth 0 h 0 + nth (length h - sep) h 0).
Definition advance (sep : nat) (h : list Z) : list Z :=
  tail h ++ [wraps 32 (recurrence sep h)].

(** The generator after one call. *)
Definition next (g : gen) : gen :=
  Gen (g_array g) (g_type g) ((g_rear g + 1) mod deg g) (g_saved g)
    (<[Z.to_nat (front g) := wraps 32 (recurrence (Z.to_nat (sep g)) (history g))]> (g_table g))
    (g_rest g).

Lemma load_word m a ws i :
  m !! a = Some ws → 0 <= i < Z.of_nat (length ws) → load m (a, i) = Val (nth (Z.to_nat i) ws 0).
Proof.
  intros Hm Hi. unfold load. cbn [fst snd]. rewrite Hm. cbn [deref mbind outcome_bind].
  destruct (Z.ltb_spec i 0); [lia|].
  destruct (lookup_lt_is_Some_2 ws (Z.to_nat i)) as [x Hx]; [lia|].
  rewrite Hx. cbn. by rewrite (nth_lookup_Some _ _ 0 _ Hx).
Qed.

Lemma put_word m a ws i v :
  m !! a = Some ws → 0 <= i < Z.of_nat (length ws) →
  put m (a, i) v = Val (<[a := <[Z.to_nat i := v]> ws]> m).
Proof.
  intros Hm Hi. unfold put. cbn [fst snd]. rewrite Hm. cbn [deref mbind outcome_bind].
  by rewrite (proj2 (Z.leb_le _ _)), (proj2 (Z.ltb_lt _ _)) by lia.
Qed.

Lemma front_range g : gen_ok g → 0 <= front g < deg g.
Proof.
  intros [Ht Hr _ _]. unfold front. apply Z.mod_pos_bound.
  destruct (gen_cases g Ht) as [[-> _]|[[-> _]|[[-> _]|[-> _]]]]; lia.
Qed.

(** The oldest word is at the front pointer, the other term at the rear. *)
Lemma history_front g :
  gen_ok g → nth 0 (history g) 0 = nth (Z.to_nat (front g)) (g_table g) 0.
Proof.
  intros Hg. pose proof (front_range g Hg) as Hf. pose proof (go_table _ Hg) as Hl.
  unfold history. rewrite app_nth1 by (rewrite length_drop; lia).
  by rewrite nth_skipn, Nat.add_0_r.
Qed.

Lemma history_length g : gen_ok g → Z.of_nat (length (history g)) = deg g.
Proof.
  intros Hg. pose proof (front_range g Hg). pose proof (go_table _ Hg).
  unfold history. rewrite length_app, length_drop, length_take. lia.
Qed.

(** What the front index is, without the modulus. *)
Lemma front_cases g :
  gen_ok g → 0 < sep g < deg g ∧
  (g_rear g + sep g < deg g ∧ front g = g_rear g + sep g ∨
   deg g <= g_rear g + sep g ∧ front g = g_rear g + sep g - deg g).
Proof.
  intros [Ht Hr _ _]. unfold front.
  assert (0 < sep g < deg g) as Hs.
  { destruct (gen_cases g Ht) as [[-> ->]|[[-> ->]|[[-> ->]|[-> ->]]]]; lia. }
  split; [done|]. destruct (decide (g_rear g + sep g < deg g)).
  - left. split; [done|]. apply Z.mod_small. lia.
  - right. split; [lia|]. symmetry. apply Z.mod_unique with 1; lia.
Qed.

Lemma history_rear g :
  gen_ok g → nth (length (history g) - Z.to_nat (sep g)) (history g) 0
             = nth (Z.to_nat (g_rear g)) (g_table g) 0.
Proof.
  intros Hg. pose proof (go_table _ Hg) as Hl. pose proof (go_rear _ Hg) as Hr.
  pose proof (history_length g Hg) as Hh. destruct (front_cases g Hg) as [Hs Hf].
  assert (length (history g) = Z.to_nat (deg g)) as -> by lia. unfold history.
  destruct Hf as [[Hlt Ef]|[Hge Ef]].
  - rewrite app_nth2 by (rewrite length_drop; lia). rewrite length_drop, nth_firstn.
    rewrite (proj2 (Nat.ltb_lt _ _)) by lia. f_equal. lia.
  - rewrite app_nth1 by (rewrite length_drop; lia). rewrite nth_skipn. f_equal. lia.
Qed.

Lemma recurrence_spec g :
  gen_ok g → recurrence (Z.to_nat (sep g)) (history g)
  = wrapu 32 (nth (Z.to_nat (front g)) (g_table g) 0 + nth (Z.to_nat (g_rear g)) (g_table g) 0).
Proof. intros Hg. unfold recurrence. by rewrite history_front, history_rear. Qed.

Lemma next_ok g : gen_ok g → gen_ok (next g).
Proof.
  intros Hg. destruct Hg as [Ht Hr Hl Hw] eqn:E. clear E. split; [done|..].
  - apply Z.mod_pos_bound. change (0 < deg g). lia.
  - cbn. by rewrite length_insert.
  - cbn. apply Forall_insert; [done|apply wraps_int32].
Qed.

(** The pointers after a call: both advance cyclically. *)
Lemma front_next g : gen_ok g → front (next g) = (front g + 1) mod deg g.
Proof.
  intros Hg. unfold front at 1. change (deg (next g)) with (deg g). change (sep (next g)) with (sep g).
  cbn [next g_rear]. pose proof (go_rear _ Hg). unfold front.
  rewrite !Z.add_mod_idemp_l by lia. f_equal. lia.
Qed.

Lemma history_next g :
  gen_ok g → history (next g) = advance (Z.to_nat (sep g)) (history g).
Proof.
  intros Hg. pose proof (front_range g Hg) as Hf. pose proof (go_table _ Hg) as Hl.
  unfold history at 1. rewrite front_next by done. cbn [next g_table]. unfold advance.
  set (v := wraps 32 (recurrence (Z.to_nat (sep g)) (history g))). unfold history.
  set (f := front g) in *. set (tbl := g_table g) in *.
  destruct (lookup_lt_is_Some_2 tbl (Z.to_nat f)) as [x Hx]; [lia|].
  rewrite (drop_S tbl x (Z.to_nat f)) by done. cbn [app tail].
  destruct (decide (f + 1 < deg g)) as [Hlt|Hge].
  - rewrite Z.mod_small by lia. replace (Z.to_nat (f + 1)) with (S (Z.to_nat f)) by lia.
    rewrite drop_insert_lt by lia. rewrite <- app_assoc. f_equal.
    rewrite (take_S_r (<[Z.to_nat f := v]> tbl) (Z.to_nat f) v)
      by (apply list_lookup_insert_eq; lia).
    by rewrite take_insert_ge by lia.
  - replace (f + 1) with (deg g) by lia. rewrite Z.mod_same by lia. cbn [Z.to_nat drop take].
    rewrite app_nil_r, insert_take_drop by lia. by rewrite (drop_ge tbl) by lia.
Qed.

Lemma words_lookup g i :
  (i < length (g_table g))%nat → nth (S i) (words g) 0 = nth i (g_table g) 0.
Proof. intros Hi. unfold words. cbn [nth]. by rewrite app_nth1. Qed.

Lemma words_insert g i v :
  (i < length (g_table g))%nat →
  <[S i := v]> (words g) = g_saved g :: <[i := v]> (g_table g) ++ g_rest g.
Proof.
  intros Hi. change (g_saved g :: <[i := v]> (g_table g ++ g_rest g)
    = g_saved g :: <[i := v]> (g_table g) ++ g_rest g). by rewrite insert_app_l.
Qed.

(** One call of [random_r] on a running generator. *)
Lemma random_r_spec g r :
  runs g r →
  random_r r true
  = Val (0, Some (Z.shiftr (recurrence (Z.to_nat (sep g)) (history g)) 1),
         Rnd (<[g_array g := words (next g)]> (mem r)) (Some (data_of (next g))) (errno r)).
Proof.
  intros (Hg & Hd & Hm). pose proof (front_range g Hg) as Hf. pose proof (go_rear _ Hg) as Hr.
  pose proof (go_table _ Hg) as Hl. pose proof (go_type _ Hg) as Ht.
  unfold random_r. rewrite Hd. cbn [state data_of deref mbind outcome_bind rand_type fptr rptr end_ptr].
  destruct (Z.eqb_spec (g_type g) 0); [lia|].
  assert (length (words g) = S (length (g_table g) + length (g_rest g))) as Hw
    by (unfold words; cbn; by rewrite length_app).
  unfold shift. cbn [fst snd].
  rewrite !(load_word _ _ _ _ Hm) by lia. cbn [mbind outcome_bind].
  rewrite !(Z2Nat.inj_add 1) by lia. change (Z.to_nat 1) with 1%nat. cbn [Nat.add].
  rewrite !words_lookup by lia. rewrite <- recurrence_spec by done.
  set (v := recurrence (Z.to_nat (sep g)) (history g)).
  rewrite (put_word _ _ _ _ _ Hm) by lia.
  rewrite (Z2Nat.inj_add 1) by lia. cbn [Nat.add mbind outcome_bind].
  change (Z.to_nat 1) with 1%nat. cbn [Nat.add]. rewrite words_insert by lia.
  change (g_saved g :: <[Z.to_nat (front g) := wraps 32 v]> (g_table g) ++ g_rest g)
    with (words (next g)).
  unfold ptr_ge. cbn [fst snd]. rewrite !Nat.eqb_refl. cbn [mbind outcome_bind].
  assert (data_of (next g) = RandomData (Some (g_array g, 1 + front (next g)))
    (Some (g_array g, 1 + (g_rear g + 1) mod deg g)) (Some (g_array g, 1)) (g_type g)
    (deg g) (sep g) (Some (g_array g, 1 + deg g))) as -> by done.
  rewrite front_next by done. destruct (front_cases g Hg) as [Hs Hc].
  rewrite <- !(Z.add_assoc 1 _ 1).
  destruct (Z.leb_spec (1 + deg g) (1 + (front g + 1))) as [Hw1|Hw1]; cbn [mbind outcome_bind fst snd].
  - assert ((front g + 1) mod deg g = 0) as -> by
      (replace (front g + 1) with (deg g) by lia; apply Z.mod_same; lia).
    by rewrite (Z.mod_small (g_rear g + 1)) by lia.
  - rewrite (Z.mod_small (front g + 1)) by lia.
    destruct (Z.leb_spec (1 + deg g) (1 + (g_rear g + 1))) as [Hw2|Hw2].
    + assert ((g_rear g + 1) mod deg g = 0) as -> by
        (replace (g_rear g + 1) with (deg g) by lia; apply Z.mod_same; lia).
      done.
    + by rewrite (Z.mod_small (g_rear g + 1)) by lia.
Qed.

Lemma runs_next g r :
  runs g r →
  runs (next g) (Rnd (<[g_array g := words (next g)]> (mem r)) (Some (data_of (next g))) (errno r)).
Proof.
  intros (Hg & _ & _). split; [by apply next_ok|]. split; [done|]. apply lookup_insert_eq.
Qed.

(** [n] calls in a row. *)
Lemma discard_spec n g r :
  runs g r →
  ∃ r', discard n r = Val r' ∧ runs (Nat.iter n next g) r' ∧ errno r' = errno r ∧
        ∀ b, b ≠ g_array g → mem r' !! b = mem r !! b.
Proof.
  revert g r; induction n as [|n IH]; intros g r Hr; [by exists r|].
  cbn [discard]. rewrite (random_r_spec g r Hr). cbn [mbind outcome_bind snd].
  destruct (IH (next g) _ (runs_next g r Hr)) as (r' & -> & Hr' & He & Hm).
  exists r'. split; [done|]. rewrite Nat.iter_succ_r. split; [done|]. split; [done|].
  intros b Hb. rewrite Hm by done. by apply lookup_insert_ne.
Qed.

Lemma history_iter n g :
  gen_ok g →
  gen_ok (Nat.iter n next g) ∧ sep (Nat.iter n next g) = sep g ∧
  history (Nat.iter n next g) = Nat.iter n (advance (Z.to_nat (sep g))) (history g).
Proof.
  intros Hg. induction n as [|n (H1 & H2 & H3)]; [done|]. rewrite !Nat.iter_succ.
  split; [by apply next_ok|]. split; [done|]. rewrite history_next, H2, H3 by done. done.
Qed.

Lemma iter_array n g :
  g_type (Nat.iter n next g) = g_type g ∧ g_array (Nat.iter n next g) = g_array g.
Proof. by induction n. Qed.

(** ** Seeding *)

(** The words the loop stores after [word]. *)
Fixpoint seeds (n : nat) (word : Z) : list Z :=
  match n with
  | O => []
  | S n' => lcg word :: seeds n' (lcg word)
  end.

Lemma seeds_length n w : length (seeds n w) = n.
Proof. revert w; induction n as [|n IH]; intros w; cbn; [done|]. by rewrite IH. Qed.

Lemma lcg_int32 w : int32 w → int32 (lcg w).
Proof. intros H%lcg_range. unfold int32, M31 in *. lia. Qed.

Lemma seeds_int32 n w : int32 w → Forall int32 (seeds n w).
Proof.
  revert w; induction n as [|n IH]; intros w Hw; constructor.
  - by apply lcg_int32.
  - by apply IH, lcg_int32.
Qed.

(** The closed form: powers of 16807 modulo 2^31 - 1. *)
Lemma seeds_power n w :
  int32 w →
  seeds n w = (λ i, (16807 ^ (Z.of_nat i + 1) * w) mod M31) <$> seq 0 n.
Proof.
  revert w; induction n as [|n IH]; intros w Hw; [done|].
  cbn [seeds seq fmap list_fmap]. f_equal.
  - rewrite lcg_spec by done. by rewrite Z.pow_1_r.
  - rewrite IH by by apply lcg_int32. rewrite <- fmap_S_seq, <- list_fmap_compose.
    apply list_fmap_ext. intros k i _. unfold compose. rewrite lcg_spec by done.
    rewrite Z.mul_mod_idemp_r by by vm_compute. f_equal.
    replace (Z.of_nat (S i) + 1) with (Z.succ (Z.of_nat i + 1)) by lia.
    rewrite Z.pow_succ_r by lia. ring.
Qed.

Lemma fill_spec n m a pre old post w :
  m !! a = Some (pre ++ old ++ post) → length old = n → pre ≠ [] →
  fill n m (a, Z.of_nat (length pre) - 1) w
  = Val (<[a := pre ++ seeds n w ++ post]> m).
Proof.
  revert m pre old w; induction n as [|n IH]; intros m pre old w Hm Hl Hne; cbn [fill seeds].
  - destruct old; [|done]. f_equal. symmetry. by apply insert_id.
  - destruct old as [|x old]; [done|]. injection Hl as Hl. unfold shift. cbn [fst snd].
    rewrite Z.sub_add.
    rewrite (put_word _ _ _ _ _ Hm) by (rewrite !length_app; cbn; lia).
    rewrite Nat2Z.id. cbn [mbind outcome_bind].
    replace (Z.of_nat (length pre)) with (Z.of_nat (length (pre ++ [lcg w])) - 1)
      by (rewrite length_app; cbn; lia).
    rewrite (IH _ (pre ++ [lcg w]) old).
    + rewrite insert_insert_eq. by rewrite <- app_assoc.
    + rewrite lookup_insert_eq. f_equal. rewrite <- (Nat.add_0_r (length pre)), insert_app_r.
      by rewrite <- app_assoc.
    + done.
    + by destruct pre.
Qed.

(** The word [srandom_r] starts from. *)
Definition first_word (seed : Z) : Z := wraps 32 (if seed =? 0 then 1 else seed).

(** The generator [srandom_r] sets up before it discards values. *)
Definition seeded (a : nat) (t seed saved : Z) (rest : list Z) : gen :=
  let d := default 0 (degrees !! Z.to_nat t) in
  Gen a t 0 saved (first_word seed :: seeds (Z.to_nat (d - 1)) (first_word seed)) rest.

Lemma seeded_ok a t seed saved rest : 1 <= t <= 4 → gen_ok (seeded a t seed saved rest).
Proof.
  intros Ht. pose proof (gen_cases (seeded a t seed saved rest) Ht) as Hd.
  split; [done|..].
  - cbn [seeded g_rear]. lia.
  - cbn [seeded g_table length]. rewrite seeds_length.
    change (default 0 (degrees !! Z.to_nat t)) with (deg (seeded a t seed saved rest)). lia.
  - cbn [seeded g_table]. constructor; [apply wraps_int32|apply seeds_int32, wraps_int32].
Qed.

(** [buf] is set for a generator of type [t] in array [a], whose words are
    [ws]; the table need not be initialised. *)
Definition ready (a : nat) (t : Z) (r : rnd) : Prop :=
  ∃ b, data r = Some b ∧ rand_type b = t ∧ state b = Some (a, 1) ∧
    rand_deg b = default 0 (degrees !! Z.to_nat t) ∧
    rand_sep b = default 0 (seps !! Z.to_nat t) ∧
    end_ptr b = Some (a, 1 + default 0 (degrees !! Z.to_nat t)).

Lemma srandom_r_spec a t seed saved tbl rest r :
  1 <= t <= 4 → ready a t r → mem r !! a = Some (saved :: tbl ++ rest) →
  Z.of_nat (length tbl) = default 0 (degrees !! Z.to_nat t) →
  ∃ r', srandom_r seed r = Val (0, r') ∧
    runs (Nat.iter (Z.to_nat (default 0 (degrees !! Z.to_nat t) * 10)) next
            (seeded a t seed saved rest)) r' ∧
    errno r' = errno r ∧ ∀ b, b ≠ a → mem r' !! b = mem r !! b.
Proof.
  intros Ht (b & Hb & Hty & Hst & Hdeg & Hsep & Hend) Hm Hl. unfold srandom_r. rewrite Hb, Hty, Hst, Hdeg, Hsep, Hend.
  set (g := seeded a t seed saved rest).
  pose proof (gen_cases g Ht) as Hd.
  change (default 0 (degrees !! Z.to_nat t)) with (deg g) in *.
  change (default 0 (seps !! Z.to_nat t)) with (sep g) in *.
  assert (((t <? 0) || (MAX_TYPES <=? t)) = false) as -> by (unfold MAX_TYPES; lia).
  cbn [deref mbind outcome_bind]. fold (first_word seed).
  destruct tbl as [|x tbl]; [cbn in Hl; lia|]. cbn [length] in Hl.
  rewrite (put_word _ _ _ _ _ Hm) by (cbn; lia). cbn [mbind outcome_bind].
  change (<[Z.to_nat 1:=first_word seed]> (saved :: (x :: tbl) ++ rest))
    with ([saved; first_word seed] ++ tbl ++ rest).
  destruct (Z.eqb_spec t 0); [lia|].
  pose proof (fill_spec (Z.to_nat (deg g - 1)) (<[a := [saved; first_word seed] ++ tbl ++ rest]> (mem r))
    a [saved; first_word seed] tbl rest (first_word seed)) as Hfill.
  change (Z.of_nat (length [saved; first_word seed]) - 1) with 1 in Hfill.
  rewrite Hfill; [|apply lookup_insert_eq|lia|done]. clear Hfill.
  cbn [mbind outcome_bind]. rewrite insert_insert_eq.
  edestruct (discard_spec (Z.to_nat (deg g * 10)) g) as (r' & -> & Hr' & He & Hmem).
  2: { exists r'. split; [done|]. split; [exact Hr'|]. split; [done|].
       intros b' Hb'. rewrite Hmem by done. by apply lookup_insert_ne. }
  split; [by apply seeded_ok|]. cbn [data mem]. split.
  - unfold data_of, front. cbn [g g_rear g_array seeded g_type].
    rewrite Z.add_0_l, (Z.mod_small (sep g)) by lia. done.
  - apply lookup_insert_eq.
Qed.

(** ** Saving and restoring *)

(** The generator with its type and rear index saved in word 0. *)
Definition park (g : gen) : gen :=
  Gen (g_array g) (g_type g) (g_rear g) (MAX_TYPES * g_rear g + g_type g) (g_table g) (g_rest g).

(** A generator at rest in its array. *)
Definition parked (g : gen) (m : store) : Prop :=
  gen_ok g ∧ m !! g_array g = Some (words (park g)).

Lemma park_ok g : gen_ok g → gen_ok (park g).
Proof. intros []. by split. Qed.

Lemma save_spec g r :
  runs g r →
  save (mem r) (data_of g) (g_array g, 1) = Val (<[g_array g := words (park g)]> (mem r)).
Proof.
  intros (Hg & _ & Hm). pose proof (go_type _ Hg). pose proof (go_rear _ Hg).
  pose proof (gen_cases g) as Hd. unfold save. cbn [data_of rand_type rptr deref mbind outcome_bind].
  destruct (Z.eqb_spec (g_type g) 0); [lia|]. unfold ptr_diff, shift. cbn [fst snd].
  rewrite Nat.eqb_refl. cbn [mbind outcome_bind].
  rewrite (put_word _ _ _ _ _ Hm) by (cbn; lia). cbn [words].
  replace (1 + g_rear g - 1) with (g_rear g) by lia.
  by rewrite wraps_small by (change (2 ^ (32 - 1)) with 2147483648; unfold MAX_TYPES; lia).
Qed.

Lemma setstate_r_spec g g' r :
  runs g r → parked g' (mem r) → g_array g ≠ g_array g' →
  ∃ r', setstate_r (Some (g_array g')) r = Val (0, r') ∧ runs (park g') r' ∧ parked g (mem r').
Proof.
  intros Hr [Hg' Hm'] Hne. destruct Hr as (Hg & Hd & Hm) eqn:E. clear E.
  unfold setstate_r. rewrite Hd. change (state (data_of g)) with (Some (g_array g, 1)).
  cbn [deref mbind outcome_bind]. rewrite (save_spec g r) by done. cbn [mbind outcome_bind].
  set (m := <[g_array g := words (park g)]> (mem r)).
  assert (m !! g_array g' = Some (words (park g'))) as Hw by (unfold m; by rewrite lookup_insert_ne).
  change (shift (g_array g', 1) (-1)) with (g_array g', 0).
  rewrite (load_word _ _ _ _ Hw) by (cbn; lia).
  cbn [mbind outcome_bind]. change (nth (Z.to_nat 0) (words (park g')) 0)
    with (MAX_TYPES * g_rear g' + g_type g').
  pose proof (go_type _ Hg') as Ht. pose proof (go_rear _ Hg') as Hre.
  assert (Z.rem (MAX_TYPES * g_rear g' + g_type g') MAX_TYPES = g_type g') as ->.
  { symmetry. apply Z.rem_unique with (g_rear g'); unfold MAX_TYPES; lia. }
  assert (Z.quot (MAX_TYPES * g_rear g' + g_type g') MAX_TYPES = g_rear g') as ->.
  { symmetry. apply Z.quot_unique with (g_type g'); unfold MAX_TYPES; lia. }
  assert (((g_type g' <? 0) || (4 <? g_type g')) = false) as -> by lia.
  assert (degrees !! Z.to_nat (g_type g') = Some (deg g')) as ->.
  { unfold deg. destruct (lookup_lt_is_Some_2 degrees (Z.to_nat (g_type g'))) as [? ->]; [cbn; lia|done]. }
  assert (seps !! Z.to_nat (g_type g') = Some (sep g')) as ->.
  { unfold sep. destruct (lookup_lt_is_Some_2 seps (Z.to_nat (g_type g'))) as [? ->]; [cbn; lia|done]. }
  cbn [deref mbind outcome_bind]. destruct (Z.eqb_spec (g_type g') 0); [lia|]. cbn [fst snd].
  destruct (front_cases g' Hg') as [Hs _].
  rewrite Z.rem_mod_nonneg by lia.
  eexists. split; [done|]. split.
  - split; [by apply park_ok|]. split; [done|]. done.
  - split; [done|]. cbn. apply lookup_insert_eq.
Qed.

(** ** Main theorems *)

(** One call of [random_r] on a state of type 1 to 4 is one step of the
    additive feedback recurrence: with [h] the last [deg] words in order, the
    new word is the sum modulo 2^32 of the oldest word and the one [sep] places
    after it, the result is its upper 31 bits, the circular table with its two
    pointers stays well formed and no other array changes. *)
Theorem random_r_recurrence g r :
  runs g r →
  let h := history g in
  ∃ g' r', random_r r true = Val (0, Some (Z.shiftr (recurrence (Z.to_nat (sep g)) h) 1), r') ∧
    runs g' r' ∧ history g' = advance (Z.to_nat (sep g)) h ∧
    g_array g' = g_array g ∧ g_type g' = g_type g ∧
    (∀ b, b ≠ g_array g → mem r' !! b = mem r !! b) ∧
    0 <= Z.shiftr (recurrence (Z.to_nat (sep g)) h) 1 < 2 ^ 31.
Proof.
  intros Hr h. exists (next g). eexists. split; [by apply random_r_spec|].
  split; [by apply runs_next|]. split; [by apply history_next, Hr|]. split; [done|].
  split; [done|]. split.
  - intros b Hb. cbn. by apply lookup_insert_ne.
  - unfold recurrence. pose proof (wrapu_bound 32 (nth 0 h 0 + nth (length h - Z.to_nat (sep g)) h 0)
      ltac:(lia)) as Hb. rewrite Z.shiftr_div_pow2 by lia. change (2 ^ 32) with (2 ^ 31 * 2 ^ 1) in Hb.
    split; [apply Z.div_pos; lia|]. apply Z.div_lt_upper_bound; lia.
Qed.

(** A generator for the witnesses: type 1, seed 1, before any value was
    discarded. *)
Definition demo_gen : gen := seeded 0 1 1 0 [].
Definition demo_rnd : rnd := Rnd {[ 0%nat := words demo_gen ]} (Some (data_of demo_gen)) 0.

Lemma demo_runs : runs demo_gen demo_rnd.
Proof. split; [by apply seeded_ok|]. split; [done|]. apply lookup_insert_eq. Qed.

Lemma random_r_recurrence_witness :
  ∃ r', random_r demo_rnd true = Val (0, Some 811325037, r').
Proof.
  destruct (random_r_recurrence demo_gen demo_rnd demo_runs) as (g' & r' & E & _).
  exists r'. rewrite E. vm_compute. reflexivity.
Defined.

(** The table right after seeding, oldest word first. *)
Definition seed_history (t : Z) (s : Z) : list Z :=
  let d := Z.to_nat (default 0 (degrees !! Z.to_nat t)) in
  let k := Z.to_nat (default 0 (seps !! Z.to_nat t)) in
  let tbl := s :: ((λ i, (16807 ^ (Z.of_nat i + 1) * s) mod M31) <$> seq 0 (d - 1)) in
  drop k tbl ++ take k tbl.

Lemma seeded_history a t seed saved rest :
  1 <= t <= 4 → history (seeded a t seed saved rest) = seed_history t (first_word seed).
Proof.
  intros Ht. set (g := seeded a t seed saved rest).
  destruct (front_cases g (seeded_ok a t seed saved rest Ht)) as [Hs [[_ Ef]|[Hge _]]];
    [|cbn [g g_rear seeded] in Hge; lia].
  unfold history. rewrite Ef. cbn [g g_rear g_table seeded]. rewrite Z.add_0_l.
  rewrite seeds_power by apply wraps_int32. unfold seed_history.
  change (default 0 (degrees !! Z.to_nat t)) with (deg g).
  change (default 0 (seps !! Z.to_nat t)) with (sep g).
  by replace (Z.to_nat (deg g - 1)) with (Z.to_nat (deg g) - 1)%nat by lia.
Qed.

Lemma type_of_size_spec n :
  32 <= n →
  ∃ t, type_of_size n = Some t ∧ 1 <= t <= 4 ∧
    default 0 (degrees !! Z.to_nat t) < n / 4 ∧
    degrees !! Z.to_nat t = Some (default 0 (degrees !! Z.to_nat t)) ∧
    seps !! Z.to_nat t = Some (default 0 (seps !! Z.to_nat t)).
Proof.
  intros Hn. unfold type_of_size, BREAK_0, BREAK_1, BREAK_2, BREAK_3, BREAK_4.
  assert (∀ d, 4 * (d + 1) <= n → d < n / 4) as Hd.
  { intros d H. apply Z.lt_le_trans with (d + 1); [lia|]. apply Z.div_le_lower_bound; lia. }
  destruct (Z.leb_spec 128 n), (Z.ltb_spec n 256), (Z.ltb_spec n 32), (Z.ltb_spec n 64); try lia;
    eexists; (split; [done|]); (split; [lia|]); 
    (split; [apply Hd;
       match goal with |- context [ default ?x ?o ] =>
         let v := eval vm_compute in (default x o) in change (default x o) with v end; lia|done]).
Qed.

(** [initstate_r] on an array of at least 32 bytes chooses the largest
    generator that fits, fills its table with the powers of 16807 times the
    seed modulo 2^31-1 (the seed 0 counting as 1), although no product larger
    than 32 bits is formed, discards [10 * deg] outputs, and records type and
    rear index in word 0. *)
Theorem initstate_r_seeds seed a n ws r b :
  32 <= n → n <= 4 * Z.of_nat (length ws) →
  data r = Some b → state b = None → mem r !! a = Some ws →
  ∃ g r', initstate_r seed a n r = Val (0, r') ∧ runs g r' ∧
    type_of_size n = Some (g_type g) ∧ g_array g = a ∧
    g_saved g = MAX_TYPES * g_rear g + g_type g ∧
    history g = Nat.iter (Z.to_nat (deg g * 10)) (advance (Z.to_nat (sep g)))
                  (seed_history (g_type g) (first_word seed)).
Proof.
  intros Hn Hlen Hb Hst Hm. unfold initstate_r. rewrite Hb, Hst. cbn [mbind outcome_bind].
  destruct (type_of_size_spec n Hn) as (t & -> & Ht & Hdeg & -> & ->). cbn [deref mbind outcome_bind].
  set (d := default 0 (degrees !! Z.to_nat t)) in *.
  assert (0 < d) as Hpos.
  { pose proof (gen_cases (seeded a t seed 0 []) Ht) as Hc. change (deg (seeded a t seed 0 [])) with d in Hc. lia. }
  assert (d < Z.of_nat (length ws)) as Hd.
  { eapply Z.lt_le_trans; [exact Hdeg|]. apply Z.div_le_upper_bound; lia. }
  destruct ws as [|saved ws]; [cbn in Hd; lia|]. cbn [length] in Hd.
  rewrite <- (take_drop (Z.to_nat d) ws) in Hm.
  set (b0 := RandomData _ _ _ _ _ _ _).
  destruct (srandom_r_spec a t seed saved (take (Z.to_nat d) ws) (drop (Z.to_nat d) ws)
    (Rnd (mem r) (Some b0) (errno r)) Ht) as (r1 & E & Hr1 & He & _).
  { exists b0. by split_and!. }
  { exact Hm. }
  { fold d. rewrite length_take. lia. }
  rewrite E. cbn [mbind outcome_bind]. fold d in Hr1.
  set (g := Nat.iter (Z.to_nat (d * 10)) next (seeded a t seed saved (drop (Z.to_nat d) ws))) in *.
  destruct (history_iter (Z.to_nat (d * 10)) (seeded a t seed saved (drop (Z.to_nat d) ws)))
    as (Hg & Hs & Hh); [by apply seeded_ok|]. fold g in Hg, Hs, Hh.
  assert (g_type g = t ∧ g_array g = a) as [Et Ea].
  { apply iter_array. }
  pose proof Hr1 as (_ & Hd1 & Hm1). cbn [snd]. rewrite Hd1. cbn [deref mbind outcome_bind].
  rewrite <- Ea, save_spec by done. cbn [mbind outcome_bind].
  exists (park g). eexists. split; [done|]. split.
  { split; [by apply park_ok|]. split; [done|]. apply lookup_insert_eq. }
  split; [by rewrite <- Et|]. split; [done|]. split; [done|].
  change (history (park g)) with (history g). rewrite Hh, seeded_history by done.
  change (deg (park g)) with (default 0 (degrees !! Z.to_nat (g_type g))).
  change (sep (park g)) with (sep g). change (g_type (park g)) with (g_type g).
  by rewrite Hs, Et.
Qed.

Lemma initstate_r_seeds_witness :
  ∃ g r', initstate_r 1 0 128 (Rnd {[ 0%nat := replicate 32 0 ]}
                                  (Some (RandomData None None None 0 0 0 None)) 0) = Val (0, r') ∧
    runs g r' ∧ g_type g = 3.
Proof.
  destruct (initstate_r_seeds 1 0 128 (replicate 32 0)
    (Rnd {[ 0%nat := replicate 32 0 ]} (Some (RandomData None None None 0 0 0 None)) 0)
    (RandomData None None None 0 0 0 None)) as (g & r' & E & Hr & Ht & _).
  - lia.
  - done.
  - reflexivity.
  - reflexivity.
  - apply lookup_insert_eq.
  - exists g, r'. split; [exact E|]. split; [exact Hr|]. by injection Ht as <-.
Defined.

(** Switching to another saved state array with [setstate_r], drawing any
    number of values from it and switching back resumes each generator exactly
    where it was left. *)
Theorem setstate_r_resumes g g' n r :
  runs g r → parked g' (mem r) → g_array g ≠ g_array g' →
  ∃ r1 r2 r3, setstate_r (Some (g_array g')) r = Val (0, r1) ∧ runs (park g') r1 ∧
    discard n r1 = Val r2 ∧
    setstate_r (Some (g_array g)) r2 = Val (0, r3) ∧ runs (park g) r3 ∧
    history (park g') = history g' ∧ history (park g) = history g.
Proof.
  intros Hr Hp Hne.
  destruct (setstate_r_spec g g' r Hr Hp Hne) as (r1 & E1 & Hr1 & Hg & Hm1).
  destruct (discard_spec n (park g') r1 Hr1) as (r2 & E2 & Hr2 & _ & Hmem).
  assert (g_array (Nat.iter n next (park g')) = g_array g') as Ea
    by apply (iter_array n (park g')).
  destruct (setstate_r_spec (Nat.iter n next (park g')) g r2 Hr2) as (r3 & E3 & Hr3 & _).
  - split; [done|]. by rewrite Hmem.
  - congruence.
  - by exists r1, r2, r3.
Qed.

Definition demo_gen2 : gen := seeded 1 2 7 0 [].
Definition demo_rnd2 : rnd :=
  Rnd (<[ 1%nat := words (park demo_gen2) ]> {[ 0%nat := words demo_gen ]}) (Some (data_of demo_gen)) 0.

Lemma setstate_r_resumes_witness :
  ∃ r1 r2 r3, setstate_r (Some 1%nat) demo_rnd2 = Val (0, r1) ∧ discard 5 r1 = Val r2 ∧
    setstate_r (Some 0%nat) r2 = Val (0, r3) ∧ runs (park demo_gen) r3.
Proof.
  destruct (setstate_r_resumes demo_gen demo_gen2 5 demo_rnd2) as (r1 & r2 & r3 & H1 & _ & H2 & H3 & H4 & _).
  - split; [by apply seeded_ok|]. split; [done|].
    etrans; [by apply lookup_insert_ne|]. apply lookup_insert_eq.
  - split; [by apply seeded_ok|]. apply lookup_insert_eq.
  - done.
  - by exists r1, r2, r3.
Defined.
End Random.
