(* ===== verification/Digest.v ===== *)
(** * Streaming digests: what [crypt/sha256.c], [sha512.c] and [md5.c] share

    The three files keep a context of the chaining value, a byte count and a
    buffer of two blocks, and have the same [process_bytes] and [finish_ctx]
    up to the block size and the count.  This file holds the shared code,
    over the interface [Md] of what a digest supplies (block size, compression
    of one block, the byte count and how it is written), and the proof, from
    the laws [MdLaws], that feeding a message in any pieces gives the
    Merkle-Damgard digest of the whole.  It is the build for a target that
    allows unaligned access ([_STRING_ARCH_unaligned], as on x86-64). *)

From S2P Require Import Prelude CString.
Local Open Scope Z_scope.

Module Digest.
Import CString.

(** ** Words in memory *)

(** Little-endian bytes of a word and back. *)
Fixpoint le_bytes (n : nat) (x : Z) : list Z :=
  match n with
  | O => []
  | S n' => x mod 256 :: le_bytes n' (x / 256)
  end.

Definition le_word (bs : list Z) : Z := foldr (λ b v, b + 256 * v) 0 bs.

(** [bswap_32], [bswap_64]: the bytes in the opposite order. *)
Definition bswap (n : nat) (x : Z) : Z := le_word (reverse (le_bytes n x)).

Definition be_bytes (n : nat) (x : Z) : list Z := reverse (le_bytes n x).

(** The first [k] words of [n] bytes each. *)
Fixpoint load_words (k n : nat) (bs : list Z) : list Z :=
  match k with
  | O => []
  | S k' => le_word (take n bs) :: load_words k' n (drop n bs)
  end.

Lemma le_bytes_length n x : length (le_bytes n x) = n.
Proof. revert x; induction n as [|n IH]; intros x; cbn; [done|]. by rewrite IH. Qed.

Lemma le_bytes_range n x : Forall (λ b, 0 <= b < 256) (le_bytes n x).
Proof.
  revert x; induction n as [|n IH]; intros x; constructor; [|by apply IH].
  apply Z.mod_pos_bound. lia.
Qed.

Lemma le_bytes_word bs : Forall (λ b, 0 <= b < 256) bs → le_bytes (length bs) (le_word bs) = bs.
Proof.
  induction 1 as [|b bs Hb _ IH]; [done|]. cbn [length le_bytes].
  change (le_word (b :: bs)) with (b + 256 * le_word bs). f_equal.
  - rewrite Z.mul_comm, Z_mod_plus_full. by apply Z.mod_small.
  - rewrite Z.mul_comm, Z_div_plus_full, Z.div_small by lia. by rewrite Z.add_0_l.
Qed.

(** Storing a swapped word writes its bytes in big-endian order. *)
Lemma le_bytes_bswap n x : le_bytes n (bswap n x) = be_bytes n x.
Proof.
  unfold bswap, be_bytes. rewrite <- (le_bytes_word (reverse (le_bytes n x))) at 2.
  - by rewrite length_reverse, le_bytes_length.
  - apply Forall_reverse, le_bytes_range.
Qed.

Lemma le_bytes_app a b x :
  le_bytes (a + b) x = le_bytes a x ++ le_bytes b (x / 256 ^ Z.of_nat a).
Proof.
  revert x; induction a as [|a IH]; intros x; cbn [Nat.add le_bytes app].
  - by rewrite Z.div_1_r.
  - f_equal. rewrite IH. do 2 f_equal.
    rewrite Nat2Z.inj_succ, Z.pow_succ_r, Z.div_div by lia. done.
Qed.

Lemma be_bytes_app a b x :
  be_bytes (a + b) x = be_bytes b (x / 256 ^ Z.of_nat a) ++ be_bytes a x.
Proof. unfold be_bytes. by rewrite le_bytes_app, reverse_app. Qed.

Lemma le_bytes_mod n x : le_bytes n (x mod 256 ^ Z.of_nat n) = le_bytes n x.
Proof.
  revert x; induction n as [|n IH]; intros x; [done|]. cbn [le_bytes].
  rewrite Nat2Z.inj_succ, Z.pow_succ_r by lia. set (P := 256 ^ Z.of_nat n).
  assert (0 < P) by (unfold P; lia). f_equal.
  - rewrite (Z.rem_mul_r x 256 P), Z.mul_comm, Z_mod_plus_full, Z.mod_mod by lia. done.
  - rewrite <- (IH (x / 256)). fold P. f_equal.
    rewrite (Z.rem_mul_r x 256 P), Z.mul_comm, Z_div_plus_full, Z.div_small by
      (try apply Z.mod_pos_bound; lia). lia.
Qed.

Lemma be_bytes_mod n x : be_bytes n (x mod 256 ^ Z.of_nat n) = be_bytes n x.
Proof. unfold be_bytes. by rewrite le_bytes_mod. Qed.

(** A byte count in two words of [w] bits, times eight: the two words of the
    bit count as the code computes them. *)
Lemma bits_low w n : 3 <= w → wrapu w (Z.shiftl (n mod 2 ^ w) 3) = (8 * n) mod 2 ^ w.
Proof.
  intros Hw. unfold wrapu. rewrite Z.shiftl_mul_pow2 by lia. change (2 ^ 3) with 8.
  rewrite Z.mul_mod_idemp_l by lia. f_equal. lia.
Qed.

Lemma bits_high w n :
  3 <= w → 0 <= n →
  Z.lor (wrapu w (Z.shiftl ((n / 2 ^ w) mod 2 ^ w) 3)) (Z.shiftr (n mod 2 ^ w) (w - 3))
  = (8 * n / 2 ^ w) mod 2 ^ w.
Proof.
  intros Hw Hn. rewrite bits_low, Z.shiftr_div_pow2 by lia.
  assert (2 ^ w = 8 * 2 ^ (w - 3)) as E.
  { replace 8 with (2 ^ 3) by done. rewrite <- Z.pow_add_r by lia. f_equal. lia. }
  set (P := 2 ^ (w - 3)) in *. assert (0 < P) by (unfold P; lia).
  set (q := n / 2 ^ w). set (lo := n mod 2 ^ w).
  assert (0 <= lo < 8 * P) as Hlo by (unfold lo; rewrite E; apply Z.mod_pos_bound; lia).
  assert (0 <= lo / P < 8) as Hd.
  { split; [apply Z.div_pos; lia|]. apply Z.div_lt_upper_bound; lia. }
  assert (8 * n / 2 ^ w = 8 * q + lo / P) as ->.
  { rewrite E, Z.div_mul_cancel_l by lia.
    rewrite (Z.div_mod n (2 ^ w)) at 1 by lia. fold q lo. rewrite E.
    replace (8 * P * q + lo) with (lo + 8 * q * P) by lia. rewrite Z.div_add by lia. lia. }
  rewrite E, (Z.mul_mod_distr_l q P 8) by lia.
  replace (8 * (q mod P)) with (q mod P * 2 ^ 3) by lia. rewrite lor_low by lia.
  pose proof (Z.mod_pos_bound q P ltac:(lia)) as Hq. pose proof (Z.div_mod q P ltac:(lia)) as Eq.
  apply Z.mod_unique with (q / P); [left; change (2 ^ 3) with 8; nia|]. change (2 ^ 3) with 8. nia.
Qed.

(** ** The interface of a digest *)

Class Md (T : Type) := {
  block : nat;                                   (** bytes in a block *)
  field : nat;                                   (** bytes of the length field *)
  iv : list Z;                                   (** the initial chaining value *)
  compress : list Z → list Z → list Z;           (** one round of the block loop *)
  count_0 : T;
  count_block : T → Z → T;                       (** the increment in [process_block] *)
  count_last : T → Z → T;                        (** the increment in [finish_ctx] *)
  length_field : T → list Z;                     (** the bytes of the stored length *)
  output : list Z → list Z                       (** the result written to [resbuf] *)
}.

Section digest.
Context {T : Type} `{Md T}.

(** [struct sha256_ctx] and the like; the array [buffer] has two blocks. *)
Record ctx := Ctx { chain : list Z; total : T; buflen : nat; buffer : list Z }.

(** [x & (block - 1)] and [x & ~(block - 1)]. *)
Definition low (x : nat) : nat := Z.to_nat (Z.land (Z.of_nat x) (Z.of_nat block - 1)).
Definition high (x : nat) : nat :=
  Z.to_nat (Z.land (Z.of_nat x) (Z.lnot (Z.of_nat block - 1))).

(** The loop over blocks. *)
Fixpoint compress_blocks (n : nat) (h bs : list Z) : list Z :=
  match n with
  | O => h
  | S n' => compress_blocks n' (compress h (take block bs)) (drop block bs)
  end.

(** [process_block (buffer, len, ctx)]; the loop only ends when [len] is a
    multiple of the block size. *)
Definition process_block (bs : list Z) (len : nat) (c : ctx) : outcome ctx :=
  data ← read_n bs len;
  if (len mod block =? 0)%nat
  then Val (Ctx (compress_blocks (len / block) (chain c) data)
                (count_block (total c) (Z.of_nat len)) (buflen c) (buffer c))
  else Fault.

Definition set_buffer (c : ctx) (b : list Z) : ctx := Ctx (chain c) (total c) (buflen c) b.
Definition set_buflen (c : ctx) (n : nat) : ctx := Ctx (chain c) (total c) n (buffer c).

Definition init_ctx (buf : list Z) : ctx := Ctx iv count_0 0 buf.

(** The first part of [process_bytes]: top up a buffer that is not empty.
    Returns the context and how many bytes were taken. *)
Definition top_up (src : list Z) (len : nat) (c : ctx) : outcome (ctx * nat) :=
  if (buflen c =? 0)%nat then Val (c, 0%nat)
  else
    let left_over := buflen c in
    let add := if (len <? 2 * block - left_over)%nat then len else (2 * block - left_over)%nat in
    bs ← read_n src add;
    b ← write_at (buffer c) left_over bs;
    let c := Ctx (chain c) (total c) (left_over + add) b in
    if (block <? buflen c)%nat then
      c ← process_block (buffer c) (high (buflen c)) c;
      let c := set_buflen c (low (buflen c)) in
      rest ← read_n (drop (high (left_over + add)) (buffer c)) (buflen c);
      b ← write_at (buffer c) 0 rest;
      Val (set_buffer c b, add)
    else Val (c, add).

(** The last part: what is left goes to the buffer. *)
Definition keep_rest (src : list Z) (len : nat) (c : ctx) : outcome ctx :=
  if (len =? 0)%nat then Val c
  else
    let left_over := buflen c in
    bs ← read_n src len;
    b ← write_at (buffer c) left_over bs;
    let c := set_buffer c b in
    let left_over := (left_over + len)%nat in
    if (block <=? left_over)%nat then
      c ← process_block (buffer c) block c;
      let left_over := (left_over - block)%nat in
      rest ← read_n (drop block (buffer c)) left_over;
      b ← write_at (buffer c) 0 rest;
      Val (set_buflen (set_buffer c b) left_over)
    else Val (set_buflen c left_over).

Definition process_bytes (src : list Z) (len : nat) (c : ctx) : outcome ctx :=
  top_up src len c ≫= λ r : ctx * nat,
  let src := drop r.2 src in
  let len := (len - r.2)%nat in
  if (block <=? len)%nat then
    c ← process_block src (high len) r.1;
    keep_rest (drop (high len) src) (low len) c
  else keep_rest src len r.1.

Definition fillbuf : list Z := 0x80 :: replicate (block - 1) 0.

Definition finish_ctx (c : ctx) : outcome (ctx * list Z) :=
  let bytes := buflen c in
  let t := count_last (total c) (Z.of_nat bytes) in
  let pad := if (block - field <=? bytes)%nat
             then (block + (block - field) - bytes)%nat else (block - field - bytes)%nat in
  fill ← read_n fillbuf pad;
  b ← write_at (buffer c) bytes fill;
  b ← write_at b (bytes + pad) (length_field t);
  let c := Ctx (chain c) t bytes b in
  c ← process_block (buffer c) (bytes + pad + field) c;
  Val (c, output (chain c)).

(** A whole message fed in pieces. *)
Fixpoint feed (pieces : list (list Z)) (c : ctx) : outcome ctx :=
  match pieces with
  | [] => Val c
  | p :: ps => c ← process_bytes p (length p) c; feed ps c
  end.

(** ** The reference: pad, then compress block by block *)

Definition md_pad (count : Z → T) (m : list Z) : list Z :=
  let n := length m in
  let z := ((2 * block - field - 1 - n mod block) mod block)%nat in
  m ++ 0x80 :: replicate z 0 ++ length_field (count (Z.of_nat n)).

Definition md_digest (count : Z → T) (m : list Z) : list Z :=
  let p := md_pad count m in output (compress_blocks (length p / block) iv p).
End digest.
Arguments ctx T : clear implicits.
Arguments Ctx {T} _ _ _ _.

(** Padding as the standards describe it: a one bit, zeros, and the length
    in bits in a field of [f] bytes, big or little endian. *)
Definition std_pad (b f : nat) (encode : nat → Z → list Z) (m : list Z) : list Z :=
  let n := length m in
  m ++ 0x80 :: replicate ((2 * b - f - 1 - n mod b) mod b) 0 ++ encode f (8 * Z.of_nat n).

(** ** Laws, and the theorem about pieces *)

(** [count n] is the byte count after [n] bytes. *)
Class MdLaws {T : Type} `(Md T) (count : Z → T) : Prop := {
  block_pow : ∃ k, 0 <= k ∧ Z.of_nat block = 2 ^ k;
  field_small : (0 < field < block)%nat;
  count_start : count_0 = count 0;
  count_block_add n k : 0 <= n → 0 <= k → count_block (count n) k = count (n + k);
  count_last_add n k : 0 <= n → 0 <= k <= Z.of_nat block → count_last (count n) k = count (n + k);
  field_length n : 0 <= n → length (length_field (count n)) = field
}.

Section laws.
Context {T : Type} `{HM : Md T} {count : Z → T} `{HL : !MdLaws HM count}.

Lemma block_pos : (0 < block)%nat.
Proof using HL. pose proof field_small. lia. Qed.

Lemma low_mod x : low x = (x mod block)%nat.
Proof using HL.
  unfold low. destruct block_pow as (k & Hk & E). rewrite E.
  replace (2 ^ k - 1) with (Z.ones k) by (rewrite Z.ones_equiv; lia).
  rewrite Z.land_ones, <- E by done. rewrite <- Nat2Z.inj_mod. apply Nat2Z.id.
Qed.

Lemma high_div x : high x = (block * (x / block))%nat.
Proof using HL.
  unfold high. destruct block_pow as (k & Hk & E). rewrite E.
  replace (2 ^ k - 1) with (Z.ones k) by (rewrite Z.ones_equiv; lia).
  rewrite <- Z.ldiff_land, Z.ldiff_ones_r by done.
  rewrite Z.shiftl_mul_pow2, Z.shiftr_div_pow2, <- E by done.
  rewrite <- Nat2Z.inj_div, <- Nat2Z.inj_mul, Nat2Z.id. lia.
Qed.

Lemma compress_blocks_app a b h p q :
  length p = (a * block)%nat →
  compress_blocks (a + b) h (p ++ q) = compress_blocks b (compress_blocks a h p) q.
Proof using.
  revert h p; induction a as [|a IH]; intros h p Hp; cbn [Nat.add compress_blocks].
  - by destruct p.
  - rewrite take_app_le, drop_app_le by lia. apply IH. rewrite length_drop. lia.
Qed.

Lemma compress_blocks_prefix a h p q :
  length p = (a * block)%nat → compress_blocks a h (p ++ q) = compress_blocks a h p.
Proof using.
  intros Hp. rewrite <- (Nat.add_0_r a) at 1. by rewrite compress_blocks_app.
Qed.

Lemma read_prefix (p q : list Z) n : length p = n → read_n (p ++ q) n = Val p.
Proof using.
  intros <-. unfold read_n. rewrite length_app, (proj2 (Nat.leb_le _ _)) by lia.
  by rewrite take_app_length.
Qed.

Lemma process_block_spec k d t c :
  length d = (k * block)%nat →
  process_block (d ++ t) (k * block) c
  = Val (Ctx (compress_blocks k (chain c) d) (count_block (total c) (Z.of_nat (k * block)))
             (buflen c) (buffer c)).
Proof using HL.
  intros Hd. pose proof block_pos. unfold process_block. rewrite (read_prefix d t) by done.
  cbn [mbind outcome_bind]. rewrite Nat.Div0.mod_mul, Nat.div_mul by lia. done.
Qed.

(** The context holds the message [m]: the blocks [p] are compressed, the
    rest [q] is in the buffer. *)
Record holds_msg (m : list Z) (c : ctx T) (k : nat) (p q j : list Z) : Prop := {
  hm_split : m = p ++ q;
  hm_blocks : length p = (k * block)%nat;
  hm_chain : chain c = compress_blocks k iv p;
  hm_total : total c = count (Z.of_nat (length p));
  hm_buffer : buffer c = q ++ j;
  hm_size : length (buffer c) = (2 * block)%nat;
  hm_buflen : buflen c = length q;
  hm_rest : (length q <= block)%nat
}.

Definition represents (m : list Z) (c : ctx T) : Prop := ∃ k p q j, holds_msg m c k p q j.

Lemma init_represents buf :
  length buf = (2 * block)%nat → represents [] (init_ctx buf).
Proof using HL.
  intros Hl. exists 0%nat, [], [], buf. split; [done..| |done|done|done|cbn; lia].
  cbn. apply count_start.
Qed.

Lemma split_blocks (s : list Z) :
  ∃ d r, s = d ++ r ∧ length d = (length s / block * block)%nat ∧
    length r = (length s mod block)%nat.
Proof using HL.
  pose proof block_pos. pose proof (Nat.div_mod_eq (length s) block) as E.
  exists (take (length s / block * block) s), (drop (length s / block * block) s).
  split; [by rewrite take_drop|]. rewrite length_take, length_drop. lia.
Qed.

(** An empty buffer may be written over from the start. *)
Lemma write_start (b bs : list Z) :
  (length bs <= length b)%nat → write_at b 0 bs = Val (bs ++ drop (length bs) b).
Proof using.
  intros Hl. unfold write_at. cbn [Nat.add]. by rewrite (proj2 (Nat.leb_le _ _)) by lia.
Qed.

Lemma write_after (q j bs : list Z) n :
  length q = n → (length bs <= length j)%nat →
  write_at (q ++ j) n bs = Val ((q ++ bs) ++ drop (length bs) j).
Proof using.
  intros <- Hl. rewrite <- (take_drop (length bs) j) at 1.
  rewrite write_at_mid by (rewrite length_take; lia). by rewrite app_assoc.
Qed.

(** The buffer holds [d ++ r], of which the blocks [d] are compressed and [r]
    is moved to the front. *)
Lemma compress_buffer m c k p q j n d r j' x (add : nat) :
  holds_msg m c k p q j → length d = (n * block)%nat → length r = (x mod block)%nat →
  length ((d ++ r) ++ j') = (2 * block)%nat →
  ∃ c', (c ← process_block ((d ++ r) ++ j') (n * block)
               (Ctx (chain c) (total c) x ((d ++ r) ++ j'));
         let c := set_buflen c (low (buflen c)) in
         rest ← read_n (drop (n * block) (buffer c)) (buflen c);
         b ← write_at (buffer c) 0 rest;
         Val (set_buffer c b, add)) = Val (c', add) ∧
    buflen c' = (x mod block)%nat ∧ represents (p ++ d ++ r) c'.
Proof using HL.
  intros [-> Hp Hc Ht _ _ _ _] Hd Hr Hsz. pose proof block_pos as Hbp.
  assert (x mod block < block)%nat as Hlt by (apply Nat.mod_upper_bound; lia).
  rewrite <- app_assoc, process_block_spec by done. cbn [mbind outcome_bind chain total buflen buffer set_buflen].
  rewrite low_mod. rewrite drop_app_length' by done. rewrite read_prefix by done. cbn [mbind outcome_bind].
  rewrite write_start by (rewrite !length_app; lia). cbn [mbind outcome_bind].
  eexists. split; [done|]. split; [done|].
  exists (k + n)%nat, (p ++ d), r. eexists. split; cbn [set_buffer chain total buflen buffer].
  - by rewrite <- app_assoc.
  - rewrite length_app. lia.
  - by rewrite compress_blocks_app, Hc.
  - rewrite Ht, count_block_add by lia. f_equal. by rewrite length_app, Hd, Nat2Z.inj_add.
  - done.
  - rewrite length_app, length_drop. rewrite !length_app in *. lia.
  - done.
  - lia.
Qed.

Lemma top_up_spec m s t c :
  represents m c →
  ∃ c' add, top_up (s ++ t) (length s) c = Val (c', add) ∧ (add <= length s)%nat ∧
    represents (m ++ take add s) c' ∧ (add = length s ∨ buflen c' = 0%nat).
Proof using HL.
  intros (k & p & q & j & Hm). pose proof Hm as [-> Hp Hc Ht Hb Hsz Hbl Hq]. unfold top_up.
  rewrite Hbl. destruct (Nat.eqb_spec (length q) 0) as [Hq0|Hq0].
  { exists c, 0%nat. split; [done|]. split; [lia|]. rewrite app_nil_r. split; [by exists k, p, q, j|].
    right. lia. }
  set (add := if (length s <? 2 * block - length q)%nat then length s
              else (2 * block - length q)%nat). cbv zeta.
  assert ((add <= length s)%nat ∧ (add <= 2 * block - length q)%nat ∧
    (add = length s ∨ add = 2 * block - length q)%nat) as (Ha1 & Ha2 & Ha3).
  { unfold add. destruct (Nat.ltb_spec (length s) (2 * block - length q)); lia. }
  clearbody add.
  assert (s ++ t = take add s ++ (drop add s ++ t)) as -> by (by rewrite app_assoc, take_drop).
  rewrite read_prefix by (rewrite length_take; lia). cbn [mbind outcome_bind].
  assert (length (take add s) = add) as Hla by (rewrite length_take; lia).
  rewrite Hb in *. rewrite length_app in Hsz.
  rewrite write_after by lia. cbn [mbind outcome_bind buflen chain total buffer].
  set (j' := drop (length (take add s)) j).
  assert (length ((q ++ take add s) ++ j') = (2 * block)%nat) as Hsz'.
  { unfold j'. rewrite !length_app, length_drop. lia. }
  destruct (Nat.ltb_spec block (length q + add)) as [Hbig|Hsmall].
  - destruct (split_blocks (q ++ take add s)) as (d & r & E & Hd & Hr).
    rewrite length_app, Hla in Hd, Hr. rewrite !high_div, !(Nat.mul_comm block), E in *.
    destruct (compress_buffer _ c k p q j ((length q + add) / block) d r j' _ add Hm Hd Hr Hsz')
      as (c' & Ec & Hlen & Hrep).
    exists c', add. split; [exact Ec|]. split; [done|]. split.
    + by rewrite <- app_assoc, E.
    + destruct Ha3 as [Ha3|Ha3]; [by left|]. right. rewrite Hlen.
      replace (length q + add)%nat with (2 * block)%nat by lia. apply Nat.Div0.mod_mul.
  - eexists _, add. split; [done|]. split; [done|]. split; [|lia].
    exists k, p, (q ++ take add s), j'. split; cbn [chain total buflen buffer].
    + by rewrite <- app_assoc.
    + done.
    + done.
    + done.
    + done.
    + done.
    + rewrite length_app. lia.
    + rewrite length_app. lia.
Qed.

Lemma keep_rest_spec m s t c :
  represents m c → (length s < block)%nat → (s = [] ∨ buflen c = 0%nat) →
  ∃ c', keep_rest (s ++ t) (length s) c = Val c' ∧ represents (m ++ s) c'.
Proof using HL.
  intros Hm Hs Hor. unfold keep_rest. destruct s as [|x s]; [exists c; by rewrite app_nil_r|].
  destruct Hor as [|Hb0]; [done|]. destruct Hm as (k & p & q & j & [-> Hp Hc Ht Hb Hsz Hbl Hq]).
  rewrite Hbl in Hb0. destruct q; [|done]. rewrite Hbl. cbn [length Nat.eqb Nat.add].
  set (s' := x :: s) in *. change (S (length s)) with (length s').
  rewrite read_prefix by done. cbn [mbind outcome_bind].
  rewrite write_start by lia. cbn [mbind outcome_bind set_buffer buflen].
  rewrite (proj2 (Nat.leb_gt _ _)) by lia. eexists. split; [done|].
  exists k, p, s'. eexists. split; cbn [set_buflen set_buffer chain total buflen buffer]; try done.
  - by rewrite app_nil_r.
  - rewrite length_app, length_drop. lia.
  - lia.
Qed.

(** Whole blocks that are compressed straight from the input. *)
Lemma process_block_represents m c n d t :
  represents m c → buflen c = 0%nat → length d = (n * block)%nat →
  ∃ c', process_block (d ++ t) (n * block) c = Val c' ∧ buflen c' = 0%nat ∧ represents (m ++ d) c'.
Proof using HL.
  intros (k & p & q & j & [-> Hp Hc Ht Hb Hsz Hbl Hq]) Hb0 Hd.
  rewrite Hbl in Hb0. destruct q; [|done]. rewrite process_block_spec by done.
  eexists. split; [done|]. split; [done|]. rewrite app_nil_r.
  exists (k + n)%nat, (p ++ d), [], j. split; cbn [chain total buflen buffer]; try done.
  - by rewrite app_nil_r.
  - rewrite length_app. lia.
  - by rewrite compress_blocks_app, Hc.
  - rewrite Ht, count_block_add by lia. by rewrite (length_app p d), Hd, Nat2Z.inj_add.
Qed.

Lemma process_bytes_spec m s t c :
  represents m c →
  ∃ c', process_bytes (s ++ t) (length s) c = Val c' ∧ represents (m ++ s) c'.
Proof using HL.
  intros Hm. unfold process_bytes.
  destruct (top_up_spec m s t c Hm) as (c1 & add & -> & Hadd & Hm1 & Hor).
  cbn [mbind outcome_bind fst snd]. rewrite drop_app_le by done.
  replace (length s - add)%nat with (length (drop add s)) by apply length_drop.
  assert (m ++ s = (m ++ take add s) ++ drop add s) as -> by (by rewrite <- app_assoc, take_drop).
  assert (drop add s = [] ∨ buflen c1 = 0%nat) as Hor'.
  { destruct Hor as [->|]; [left; by rewrite drop_all|by right]. }
  clear Hor Hadd. revert Hm1 Hor'. generalize (m ++ take add s) (drop add s). clear Hm m s c add.
  intros m s Hm Hor. destruct (Nat.leb_spec block (length s)) as [Hbig|Hsmall].
  2: { by apply keep_rest_spec. }
  destruct Hor as [->|Hb0]; [pose proof block_pos; cbn in Hbig; lia|].
  destruct (split_blocks s) as (d & r & E & Hd & Hr).
  rewrite high_div, low_mod, (Nat.mul_comm block), <- Hr. subst s. rewrite <- (app_assoc d r t).
  destruct (process_block_represents m c1 (length (d ++ r) / block) d (r ++ t) Hm Hb0 Hd)
    as (c2 & -> & Hb2 & Hm2).
  cbn [mbind outcome_bind]. rewrite drop_app_length' by done.
  rewrite (app_assoc m). apply keep_rest_spec; [done| |by right].
  rewrite Hr. apply Nat.mod_upper_bound. pose proof block_pos. lia.
Qed.

(** The padding [finish_ctx] computes from the length of the buffer is the
    padding of the whole message. *)
Lemma pad_spec (b k : nat) :
  (b <= block)%nat →
  let pad := if (block - field <=? b)%nat
             then (block + (block - field) - b)%nat else (block - field - b)%nat in
  (1 <= pad <= block)%nat ∧
  (∃ nb, (b + pad + field = nb * block)%nat) ∧
  ((2 * block - field - 1 - (k * block + b) mod block) mod block = pad - 1)%nat.
Proof using HL.
  intros Hb pad. pose proof field_small as Hf.
  assert ((k * block + b) mod block = if decide (b = block) then 0 else b)%nat as ->.
  { rewrite Nat.add_comm, Nat.Div0.mod_add.
    case_decide as Hd; [subst; apply Nat.Div0.mod_same|apply Nat.mod_small; lia]. }
  unfold pad. destruct (Nat.leb_spec (block - field) b); case_decide; (split; [lia|]).
  - split; [exists 2%nat; lia|]. subst b.
    replace (2 * block - field - 1 - 0)%nat with (block - field - 1 + 1 * block)%nat by lia.
    rewrite Nat.Div0.mod_add, Nat.mod_small by lia. lia.
  - split; [exists 2%nat; lia|]. rewrite Nat.mod_small by lia. lia.
  - lia.
  - split; [exists 1%nat; lia|].
    replace (2 * block - field - 1 - b)%nat with (block - field - 1 - b + 1 * block)%nat by lia.
    rewrite Nat.Div0.mod_add, Nat.mod_small by lia. lia.
Qed.

Lemma finish_ctx_spec m c :
  represents m c → ∃ c', finish_ctx c = Val (c', md_digest count m).
Proof using HL.
  intros (k & p & q & j & [-> Hp Hc Ht Hb Hsz Hbl Hq]). unfold finish_ctx. rewrite Hbl.
  pose proof (pad_spec (length q) k Hq) as Hpad. cbv zeta in Hpad.
  set (pad := if (block - field <=? length q)%nat then _ else _) in *. clearbody pad. cbv zeta.
  destruct Hpad as (Hpad & (nb & Hnb) & Hz).
  rewrite Ht, count_last_add by lia. rewrite <- Nat2Z.inj_add, <- length_app.
  set (lf := length_field (count (Z.of_nat (length (p ++ q))))).
  assert (length lf = field) as Hlf by (apply field_length; lia).
  set (fill := 0x80 :: replicate (pad - 1) 0).
  assert (length fill = pad) as Hfl by (cbn; rewrite length_replicate; lia).
  assert (read_n fillbuf pad = Val fill) as ->.
  { unfold fillbuf. replace (block - 1)%nat with (pad - 1 + (block - pad))%nat by lia.
    rewrite replicate_add, app_comm_cons. by apply read_prefix. }
  rewrite Hb in *. rewrite length_app in Hsz. assert (nb <= 2)%nat as Hnb2.
  { pose proof field_small. destruct (decide (nb <= 2)%nat); [done|]. nia. }
  cbn [mbind outcome_bind]. rewrite write_after by nia. cbn [mbind outcome_bind].
  rewrite write_after by (rewrite ?length_app, ?length_drop; nia). cbn [mbind outcome_bind buffer].
  rewrite Hnb, process_block_spec by (rewrite !length_app; lia). cbn [mbind outcome_bind chain].
  eexists. do 3 f_equal. unfold md_digest, md_pad. cbv zeta. fold lf.
  assert (length (p ++ q) = k * block + length q)%nat as -> by (rewrite length_app; lia).
  rewrite Hz. f_equal.
  replace ((p ++ q) ++ 0x80 :: replicate (pad - 1) 0 ++ lf) with (p ++ ((q ++ fill) ++ lf))
    by (by rewrite <- !app_assoc).
  assert (length (p ++ (q ++ fill) ++ lf) = (k + nb) * block)%nat as ->.
  { rewrite !length_app. lia. }
  rewrite Nat.div_mul by (pose proof block_pos; lia). by rewrite compress_blocks_app, Hc.
Qed.

Lemma feed_spec pieces m c :
  represents m c → ∃ c', feed pieces c = Val c' ∧ represents (m ++ concat pieces) c'.
Proof using HL.
  revert m c; induction pieces as [|p ps IH]; intros m c Hm; cbn [feed concat].
  - exists c. by rewrite app_nil_r.
  - destruct (process_bytes_spec m p [] c Hm) as (c1 & E & Hm1).
    rewrite app_nil_r in E. rewrite E. cbn [mbind outcome_bind].
    destruct (IH _ _ Hm1) as (c' & -> & Hm'). exists c'. by rewrite app_assoc.
Qed.

(** Any message, in any pieces. *)
Lemma digest_pieces pieces buf :
  length buf = (2 * block)%nat →
  ∃ c c', feed pieces (init_ctx buf) = Val c ∧
    finish_ctx c = Val (c', md_digest count (concat pieces)).
Proof using HL.
  intros Hl. destruct (feed_spec pieces [] _ (init_represents buf Hl)) as (c & E & Hc).
  destruct (finish_ctx_spec _ _ Hc) as (c' & E'). eauto.
Qed.
End laws.
End Digest.
