(* ===== verification/Sha2.v ===== *)
(** * SHA-256 and SHA-512: [crypt/sha256.c], [crypt/sha512.c] and their blocks

    The compression functions of [sha256-block.c] and [sha512-block.c], which
    are one algorithm at two word sizes, the constants and the byte counts
    of the two contexts, as instances of the streaming interface of
    [Digest]. *)

From S2P Require Import Prelude CString Digest.
Local Open Scope Z_scope.

Module Sha2.
Import CString Digest.

(** ** The block function at word size [w] *)

Section block.
Variable w : Z.
Variables S0 S1 R0 R1 : Z → Z.
Variable K : list Z.

(** The macros [CYCLIC], [Ch] and [Maj] of the block files. *)
Definition CYCLIC (x s : Z) : Z := Z.lor (Z.shiftr x s) (wrapu w (Z.shiftl x (w - s))).
Definition NOT (x : Z) : Z := Z.lxor x (2 ^ w - 1).
Definition Ch (x y z : Z) : Z := Z.lxor (Z.land x y) (Z.land (NOT x) z).
Definition Maj (x y z : Z) : Z :=
  Z.lxor (Z.lxor (Z.land x y) (Z.land x z)) (Z.land y z).

(** The message schedule: [n] more words after those of [W]. *)
Fixpoint schedule (n : nat) (W : list Z) : list Z :=
  match n with
  | O => W
  | S n' =>
      let t := length W in
      schedule n' (W ++ [wrapu w (R1 (nth (t - 2) W 0) + nth (t - 7) W 0
                                  + R0 (nth (t - 15) W 0) + nth (t - 16) W 0)])
  end.

Record regs := Regs { ra : Z; rb : Z; rc : Z; rd : Z; re : Z; rf : Z; rg : Z; rh : Z }.

(** One pass of the loop over [t]. *)
Definition round (r : regs) (kw : Z * Z) : regs :=
  let T1 := wrapu w (rh r + S1 (re r) + Ch (re r) (rf r) (rg r) + kw.1 + kw.2) in
  let T2 := wrapu w (S0 (ra r) + Maj (ra r) (rb r) (rc r)) in
  Regs (wrapu w (T1 + T2)) (ra r) (rb r) (rc r) (wrapu w (rd r + T1)) (re r) (rf r) (rg r).

Definition regs_of (H : list Z) : regs :=
  Regs (nth 0 H 0) (nth 1 H 0) (nth 2 H 0) (nth 3 H 0)
       (nth 4 H 0) (nth 5 H 0) (nth 6 H 0) (nth 7 H 0).

(** One round of the loop over blocks: sixteen words, in big-endian order,
    are read, and the saved values are added at the end. *)
Definition sha_compress (H bs : list Z) : list Z :=
  let wb := Z.to_nat (w / 8) in
  let W := schedule (length K - 16) (bswap wb <$> load_words 16 wb bs) in
  let s := regs_of H in
  let r := foldl round s (combine K W) in
  [wrapu w (ra r + ra s); wrapu w (rb r + rb s); wrapu w (rc r + rc s); wrapu w (rd r + rd s);
   wrapu w (re r + re s); wrapu w (rf r + rf s); wrapu w (rg r + rg s); wrapu w (rh r + rh s)].

(** [for (i = 0; i < 8; ++i) resbuf[i] = SWAP (ctx->H[i]);] *)
Definition sha_output (H : list Z) : list Z :=
  mjoin ((λ x, le_bytes (Z.to_nat (w / 8)) (bswap (Z.to_nat (w / 8)) x)) <$> H).
End block.

(** ** SHA-256 *)

(** A row per line of the source. *)
Definition K256 : list Z := mjoin
  [[0x428a2f98; 0x71374491; 0xb5c0fbcf; 0xe9b5dba5];
   [0x3956c25b; 0x59f111f1; 0x923f82a4; 0xab1c5ed5];
   [0xd807aa98; 0x12835b01; 0x243185be; 0x550c7dc3];
   [0x72be5d74; 0x80deb1fe; 0x9bdc06a7; 0xc19bf174];
   [0xe49b69c1; 0xefbe4786; 0x0fc19dc6; 0x240ca1cc];
   [0x2de92c6f; 0x4a7484aa; 0x5cb0a9dc; 0x76f988da];
   [0x983e5152; 0xa831c66d; 0xb00327c8; 0xbf597fc7];
   [0xc6e00bf3; 0xd5a79147; 0x06ca6351; 0x14292967];
   [0x27b70a85; 0x2e1b2138; 0x4d2c6dfc; 0x53380d13];
   [0x650a7354; 0x766a0abb; 0x81c2c92e; 0x92722c85];
   [0xa2bfe8a1; 0xa81a664b; 0xc24b8b70; 0xc76c51a3];
   [0xd192e819; 0xd6990624; 0xf40e3585; 0x106aa070];
   [0x19a4c116; 0x1e376c08; 0x2748774c; 0x34b0bcb5];
   [0x391c0cb3; 0x4ed8aa4a; 0x5b9cca4f; 0x682e6ff3];
   [0x748f82ee; 0x78a5636f; 0x84c87814; 0x8cc70208];
   [0x90befffa; 0xa4506ceb; 0xbef9a3f7; 0xc67178f2]].

Definition sha256_S0 (x : Z) : Z := Z.lxor (Z.lxor (CYCLIC 32 x 2) (CYCLIC 32 x 13)) (CYCLIC 32 x 22).
Definition sha256_S1 (x : Z) : Z := Z.lxor (Z.lxor (CYCLIC 32 x 6) (CYCLIC 32 x 11)) (CYCLIC 32 x 25).
Definition sha256_R0 (x : Z) : Z := Z.lxor (Z.lxor (CYCLIC 32 x 7) (CYCLIC 32 x 18)) (Z.shiftr x 3).
Definition sha256_R1 (x : Z) : Z := Z.lxor (Z.lxor (CYCLIC 32 x 17) (CYCLIC 32 x 19)) (Z.shiftr x 10).

Definition sha256_H0 : list Z :=
  [0x6a09e667; 0xbb67ae85; 0x3c6ef372; 0xa54ff53a; 0x510e527f; 0x9b05688c; 0x1f83d9ab; 0x5be0cd19].

(** The count is [total64]; the length in bits is stored as one swapped
    64-bit word. *)
#[export] Instance sha256 : Md Z := {|
  block := 64;
  field := 8;
  iv := sha256_H0;
  compress := sha_compress 32 sha256_S0 sha256_S1 sha256_R0 sha256_R1 K256;
  count_0 := 0;
  count_block t n := wrapu 64 (t + n);
  count_last t n := wrapu 64 (t + n);
  length_field t := le_bytes 8 (bswap 8 (wrapu 64 (Z.shiftl t 3)));
  output := sha_output 32
|}.

Definition sha256_init_ctx : list Z → ctx Z := init_ctx (H := sha256).
Definition sha256_process_block : list Z → nat → ctx Z → outcome (ctx Z) := process_block (H := sha256).
Definition sha256_process_bytes : list Z → nat → ctx Z → outcome (ctx Z) := process_bytes (H := sha256).
Definition sha256_finish_ctx : ctx Z → outcome (ctx Z * list Z) := finish_ctx (H := sha256).

(** ** SHA-512 *)

(** A row per line of the source. *)
Definition K512 : list Z := mjoin
  [[0x428a2f98d728ae22; 0x7137449123ef65cd];
   [0xb5c0fbcfec4d3b2f; 0xe9b5dba58189dbbc];
   [0x3956c25bf348b538; 0x59f111f1b605d019];
   [0x923f82a4af194f9b; 0xab1c5ed5da6d8118];
   [0xd807aa98a3030242; 0x12835b0145706fbe];
   [0x243185be4ee4b28c; 0x550c7dc3d5ffb4e2];
   [0x72be5d74f27b896f; 0x80deb1fe3b1696b1];
   [0x9bdc06a725c71235; 0xc19bf174cf692694];
   [0xe49b69c19ef14ad2; 0xefbe4786384f25e3];
   [0x0fc19dc68b8cd5b5; 0x240ca1cc77ac9c65];
   [0x2de92c6f592b0275; 0x4a7484aa6ea6e483];
   [0x5cb0a9dcbd41fbd4; 0x76f988da831153b5];
   [0x983e5152ee66dfab; 0xa831c66d2db43210];
   [0xb00327c898fb213f; 0xbf597fc7beef0ee4];
   [0xc6e00bf33da88fc2; 0xd5a79147930aa725];
   [0x06ca6351e003826f; 0x142929670a0e6e70];
   [0x27b70a8546d22ffc; 0x2e1b21385c26c926];
   [0x4d2c6dfc5ac42aed; 0x53380d139d95b3df];
   [0x650a73548baf63de; 0x766a0abb3c77b2a8];
   [0x81c2c92e47edaee6; 0x92722c851482353b];
   [0xa2bfe8a14cf10364; 0xa81a664bbc423001];
   [0xc24b8b70d0f89791; 0xc76c51a30654be30];
   [0xd192e819d6ef5218; 0xd69906245565a910];
   [0xf40e35855771202a; 0x106aa07032bbd1b8];
   [0x19a4c116b8d2d0c8; 0x1e376c085141ab53];
   [0x2748774cdf8eeb99; 0x34b0bcb5e19b48a8];
   [0x391c0cb3c5c95a63; 0x4ed8aa4ae3418acb];
   [0x5b9cca4f7763e373; 0x682e6ff3d6b2b8a3];
   [0x748f82ee5defb2fc; 0x78a5636f43172f60];
   [0x84c87814a1f0ab72; 0x8cc702081a6439ec];
   [0x90befffa23631e28; 0xa4506cebde82bde9];
   [0xbef9a3f7b2c67915; 0xc67178f2e372532b];
   [0xca273eceea26619c; 0xd186b8c721c0c207];
   [0xeada7dd6cde0eb1e; 0xf57d4f7fee6ed178];
   [0x06f067aa72176fba; 0x0a637dc5a2c898a6];
   [0x113f9804bef90dae; 0x1b710b35131c471b];
   [0x28db77f523047d84; 0x32caab7b40c72493];
   [0x3c9ebe0a15c9bebc; 0x431d67c49c100d4c];
   [0x4cc5d4becb3e42b6; 0x597f299cfc657e2a];
   [0x5fcb6fab3ad6faec; 0x6c44198c4a475817]].

Definition sha512_S0 (x : Z) : Z := Z.lxor (Z.lxor (CYCLIC 64 x 28) (CYCLIC 64 x 34)) (CYCLIC 64 x 39).
Definition sha512_S1 (x : Z) : Z := Z.lxor (Z.lxor (CYCLIC 64 x 14) (CYCLIC 64 x 18)) (CYCLIC 64 x 41).
Definition sha512_R0 (x : Z) : Z := Z.lxor (Z.lxor (CYCLIC 64 x 1) (CYCLIC 64 x 8)) (Z.shiftr x 7).
Definition sha512_R1 (x : Z) : Z := Z.lxor (Z.lxor (CYCLIC 64 x 19) (CYCLIC 64 x 61)) (Z.shiftr x 6).

Definition sha512_H0 : list Z :=
  [0x6a09e667f3bcc908; 0xbb67ae8584caa73b; 0x3c6ef372fe94f82b; 0xa54ff53a5f1d36f1;
   0x510e527fade682d1; 0x9b05688c2b3e6c1f; 0x1f83d9abfb41bd6b; 0x5be0cd19137e2179].

(** The count is the 128-bit [total128], read as its two halves when the
    length in bits is stored. *)
#[export] Instance sha512 : Md Z := {|
  block := 128;
  field := 16;
  iv := sha512_H0;
  compress := sha_compress 64 sha512_S0 sha512_S1 sha512_R0 sha512_R1 K512;
  count_0 := 0;
  count_block t n := wrapu 128 (t + n);
  count_last t n := wrapu 128 (t + n);
  length_field t :=
    let lo := wrapu 64 t in
    let hi := Z.shiftr t 64 in
    le_bytes 8 (bswap 8 (Z.lor (wrapu 64 (Z.shiftl hi 3)) (Z.shiftr lo 61)))
    ++ le_bytes 8 (bswap 8 (wrapu 64 (Z.shiftl lo 3)));
  output := sha_output 64
|}.

Definition sha512_init_ctx : list Z → ctx Z := init_ctx (H := sha512).
Definition sha512_process_block : list Z → nat → ctx Z → outcome (ctx Z) := process_block (H := sha512).
Definition sha512_process_bytes : list Z → nat → ctx Z → outcome (ctx Z) := process_bytes (H := sha512).
Definition sha512_finish_ctx : ctx Z → outcome (ctx Z * list Z) := finish_ctx (H := sha512).

(** ** Correctness *)

#[export] Instance sha256_laws : MdLaws sha256 (λ n, n mod 2 ^ 64).
Proof.
  split; cbn [block field count_0 count_block count_last length_field sha256].
  - by exists 6.
  - lia.
  - done.
  - intros n k _ _. unfold wrapu. by rewrite Z.add_mod_idemp_l.
  - intros n k _ _. unfold wrapu. by rewrite Z.add_mod_idemp_l.
  - intros n _. apply le_bytes_length.
Qed.

#[export] Instance sha512_laws : MdLaws sha512 (λ n, n mod 2 ^ 128).
Proof.
  split; cbn [block field count_0 count_block count_last length_field sha512].
  - by exists 7.
  - lia.
  - done.
  - intros n k _ _. unfold wrapu. by rewrite Z.add_mod_idemp_l.
  - intros n k _ _. unfold wrapu. by rewrite Z.add_mod_idemp_l.
  - intros n _. by rewrite length_app, !le_bytes_length.
Qed.

(** The digests of the standard: the padded message is compressed block by
    block from the initial value. *)
Definition sha256_digest (m : list Z) : list Z :=
  let p := std_pad 64 8 be_bytes m in
  sha_output 32 (compress_blocks (H := sha256) (length p / 64) sha256_H0 p).
Definition sha512_digest (m : list Z) : list Z :=
  let p := std_pad 128 16 be_bytes m in
  sha_output 64 (compress_blocks (H := sha512) (length p / 128) sha512_H0 p).

Lemma sha256_field n :
  length_field (Md := sha256) (n mod 2 ^ 64) = be_bytes 8 (8 * n).
Proof.
  cbn [length_field sha256]. rewrite le_bytes_bswap, bits_low by lia.
  exact (be_bytes_mod 8 (8 * n)).
Qed.

Lemma sha512_field n :
  0 <= n → length_field (Md := sha512) (n mod 2 ^ 128) = be_bytes 16 (8 * n).
Proof.
  intros Hn. cbn [length_field sha512]. rewrite !le_bytes_bswap.
  assert (wrapu 64 (n mod 2 ^ 128) = n mod 2 ^ 64) as ->.
  { unfold wrapu. change (2 ^ 128) with (2 ^ 64 * 2 ^ 64).
    rewrite Z.rem_mul_r, Z.mul_comm, Z_mod_plus_full, Z.mod_mod by done. done. }
  assert (Z.shiftr (n mod 2 ^ 128) 64 = (n / 2 ^ 64) mod 2 ^ 64) as ->.
  { rewrite Z.shiftr_div_pow2 by lia. change (2 ^ 128) with (2 ^ 64 * 2 ^ 64).
    rewrite Z.rem_mul_r, Z.mul_comm, Z_div_plus_full, Z.div_small
      by (try apply Z.mod_pos_bound; done). lia. }
  rewrite (bits_high 64), (bits_low 64) by lia.
  change 16%nat with (8 + 8)%nat. rewrite be_bytes_app.
  change (256 ^ Z.of_nat 8) with (2 ^ 64). f_equal.
  - exact (be_bytes_mod 8 (8 * n / 2 ^ 64)).
  - exact (be_bytes_mod 8 (8 * n)).
Qed.

(** C33. However a message is cut into pieces, feeding them one by one to
    [__sha256_process_bytes] and finishing never leaves the two-block buffer
    and gives the digest of the concatenation: the padded message compressed
    block by block. *)
Theorem sha256_pieces pieces buf :
  length buf = 128%nat →
  ∃ c c', feed (H := sha256) pieces (sha256_init_ctx buf) = Val c ∧
    sha256_finish_ctx c = Val (c', sha256_digest (concat pieces)).
Proof.
  intros Hl. destruct (digest_pieces (HM := sha256) pieces buf Hl) as (c & c' & E1 & E2).
  exists c, c'. split; [exact E1|]. unfold sha256_finish_ctx. rewrite E2.
  unfold md_digest, md_pad, sha256_digest, std_pad. by rewrite sha256_field.
Qed.

(** "abcdbcdecdef..." of the standard's second example, in three pieces. *)
Definition example_pieces : list (list Z) :=
  [$"abcdbcdecdefdefgefgh"; $"fghighijhijkijkljklmklmn"; $"lmnomnopnopq"].

Lemma sha256_pieces_witness :
  ∃ c c', feed (H := sha256) example_pieces (sha256_init_ctx (replicate 128 0)) = Val c ∧
    sha256_finish_ctx c = Val (c',
      [0x24; 0x8d; 0x6a; 0x61; 0xd2; 0x06; 0x38; 0xb8; 0xe5; 0xc0; 0x26; 0x93; 0x0c; 0x3e; 0x60; 0x39;
       0xa3; 0x3c; 0xe4; 0x59; 0x64; 0xff; 0x21; 0x67; 0xf6; 0xec; 0xed; 0xd4; 0x19; 0xdb; 0x06; 0xc1]).
Proof.
  destruct (sha256_pieces example_pieces (replicate 128 0)) as (c & c' & E1 & E2).
  - reflexivity.
  - exists c, c'. split; [exact E1|]. rewrite E2. do 2 f_equal; vm_compute; reflexivity.
Defined.

(** The same for SHA-512, with its blocks of 128 bytes and its 128-bit
    length field, which the code assembles from two 64-bit words. *)
Theorem sha512_pieces pieces buf :
  length buf = 256%nat →
  ∃ c c', feed (H := sha512) pieces (sha512_init_ctx buf) = Val c ∧
    sha512_finish_ctx c = Val (c', sha512_digest (concat pieces)).
Proof.
  intros Hl. destruct (digest_pieces (HM := sha512) pieces buf Hl) as (c & c' & E1 & E2).
  exists c, c'. split; [exact E1|]. unfold sha512_finish_ctx. rewrite E2.
  unfold md_digest, md_pad, sha512_digest, std_pad. by rewrite sha512_field by lia.
Qed.

Lemma sha512_pieces_witness :
  ∃ c c', feed (H := sha512) [$"a"; []; $"bc"] (sha512_init_ctx (replicate 256 0)) = Val c ∧
    sha512_finish_ctx c = Val (c',
      [0xdd; 0xaf; 0x35; 0xa1; 0x93; 0x61; 0x7a; 0xba; 0xcc; 0x41; 0x73; 0x49; 0xae; 0x20; 0x41; 0x31;
       0x12; 0xe6; 0xfa; 0x4e; 0x89; 0xa9; 0x7e; 0xa2; 0x0a; 0x9e; 0xee; 0xe6; 0x4b; 0x55; 0xd3; 0x9a;
       0x21; 0x92; 0x99; 0x2a; 0x27; 0x4f; 0xc1; 0xa8; 0x36; 0xba; 0x3c; 0x23; 0xa3; 0xfe; 0xeb; 0xbd;
       0x45; 0x4d; 0x44; 0x23; 0x64; 0x3c; 0xe8; 0x0e; 0x2a; 0x9a; 0xc9; 0x4f; 0xa5; 0x4c; 0xa4; 0x9f]).
Proof.
  destruct (sha512_pieces [$"a"; []; $"bc"] (replicate 256 0)) as (c & c' & E1 & E2).
  - reflexivity.
  - exists c, c'. split; [exact E1|]. rewrite E2. do 2 f_equal; vm_compute; reflexivity.
Defined.
End Sha2.
