(* ===== verification/Md5.v ===== *)
(** * MD5: [crypt/md5.c] and [crypt/md5-block.c]

    The block function as the list of its 64 operations, the context with
    its two-word byte count, the one-shot [md5_buffer] and the reader
    [md5_stream], on the shared streaming code of [Digest]. *)

From S2P Require Import Prelude CString Digest.
Local Open Scope Z_scope.

Module Md5.
Import CString Digest.

(** The functions of the four rounds. *)
Definition NOT (x : Z) : Z := Z.lxor x (2 ^ 32 - 1).
Definition FF (b c d : Z) : Z := Z.lxor d (Z.land b (Z.lxor c d)).
Definition FG (b c d : Z) : Z := FF d b c.
Definition FH (b c d : Z) : Z := Z.lxor (Z.lxor b c) d.
Definition FI (b c d : Z) : Z := Z.lxor c (Z.lor b (NOT d)).

(** [OP (f, a, b, c, d, k, s, T)]; the registers rotate by one place from one
    operation to the next, so they are not written. *)
Record op := Op { op_f : Z → Z → Z → Z; op_k : nat; op_s : Z; op_T : Z }.

Definition round1 : list op := [
   Op FF 0 7 0xd76aa478; Op FF 1 12 0xe8c7b756; Op FF 2 17 0x242070db; Op FF 3 22 0xc1bdceee;
   Op FF 4 7 0xf57c0faf; Op FF 5 12 0x4787c62a; Op FF 6 17 0xa8304613; Op FF 7 22 0xfd469501;
   Op FF 8 7 0x698098d8; Op FF 9 12 0x8b44f7af; Op FF 10 17 0xffff5bb1; Op FF 11 22 0x895cd7be;
   Op FF 12 7 0x6b901122; Op FF 13 12 0xfd987193; Op FF 14 17 0xa679438e; Op FF 15 22 0x49b40821].
Definition round2 : list op := [
   Op FG 1 5 0xf61e2562; Op FG 6 9 0xc040b340; Op FG 11 14 0x265e5a51; Op FG 0 20 0xe9b6c7aa;
   Op FG 5 5 0xd62f105d; Op FG 10 9 0x02441453; Op FG 15 14 0xd8a1e681; Op FG 4 20 0xe7d3fbc8;
   Op FG 9 5 0x21e1cde6; Op FG 14 9 0xc33707d6; Op FG 3 14 0xf4d50d87; Op FG 8 20 0x455a14ed;
   Op FG 13 5 0xa9e3e905; Op FG 2 9 0xfcefa3f8; Op FG 7 14 0x676f02d9; Op FG 12 20 0x8d2a4c8a].
Definition round3 : list op := [
   Op FH 5 4 0xfffa3942; Op FH 8 11 0x8771f681; Op FH 11 16 0x6d9d6122; Op FH 14 23 0xfde5380c;
   Op FH 1 4 0xa4beea44; Op FH 4 11 0x4bdecfa9; Op FH 7 16 0xf6bb4b60; Op FH 10 23 0xbebfbc70;
   Op FH 13 4 0x289b7ec6; Op FH 0 11 0xeaa127fa; Op FH 3 16 0xd4ef3085; Op FH 6 23 0x04881d05;
   Op FH 9 4 0xd9d4d039; Op FH 12 11 0xe6db99e5; Op FH 15 16 0x1fa27cf8; Op FH 2 23 0xc4ac5665].
Definition round4 : list op := [
   Op FI 0 6 0xf4292244; Op FI 7 10 0x432aff97; Op FI 14 15 0xab9423a7; Op FI 5 21 0xfc93a039;
   Op FI 12 6 0x655b59c3; Op FI 3 10 0x8f0ccc92; Op FI 10 15 0xffeff47d; Op FI 1 21 0x85845dd1;
   Op FI 8 6 0x6fa87e4f; Op FI 15 10 0xfe2ce6e0; Op FI 6 15 0xa3014314; Op FI 13 21 0x4e0811a1;
   Op FI 4 6 0xf7537e82; Op FI 11 10 0xbd3af235; Op FI 2 15 0x2ad7d2bb; Op FI 9 21 0xeb86d391].

(** [w = (w << s) | (w >> (32 - s))]. *)
Definition CYCLIC (w s : Z) : Z := Z.lor (wrapu 32 (Z.shiftl w s)) (Z.shiftr w (32 - s)).

(** One operation on [(a, b, c, d)]; the result is listed as the next
    operation names it. *)
Definition step (W : list Z) (r : Z * Z * Z * Z) (o : op) : Z * Z * Z * Z :=
  let '(a, b, c, d) := r in
  let a := wrapu 32 (a + op_f o b c d + nth (op_k o) W 0 + op_T o) in
  let a := CYCLIC a (op_s o) in
  let a := wrapu 32 (a + b) in
  (d, a, b, c).

Definition md5_compress (H bs : list Z) : list Z :=
  let W := load_words 16 4 bs in
  let A := nth 0 H 0 in
  let B := nth 1 H 0 in
  let C := nth 2 H 0 in
  let D := nth 3 H 0 in
  let '(a, b, c, d) := foldl (step W) (A, B, C, D) (round1 ++ round2 ++ round3 ++ round4) in
  [wrapu 32 (a + A); wrapu 32 (b + B); wrapu 32 (c + C); wrapu 32 (d + D)].

Definition md5_H0 : list Z := [0x67452301; 0xefcdab89; 0x98badcfe; 0x10325476].

(** [md5_read_ctx]. *)
Definition md5_read_ctx (H : list Z) : list Z := mjoin (le_bytes 4 <$> H).

(** The two-word increments of [process_block] and of [finish_ctx]. *)
Definition add_block (t : Z * Z) (len : Z) : Z * Z :=
  let lolen := wrapu 32 len in
  let t0 := wrapu 32 (t.1 + lolen) in
  (t0, wrapu 32 (t.2 + Z.shiftr (Z.shiftr len 31) 1 + (if t0 <? lolen then 1 else 0))).
Definition add_last (t : Z * Z) (bytes : Z) : Z * Z :=
  let t0 := wrapu 32 (t.1 + bytes) in
  (t0, if t0 <? bytes then wrapu 32 (t.2 + 1) else t.2).

#[export] Instance md5 : Md (Z * Z) := {|
  block := 64;
  field := 8;
  iv := md5_H0;
  compress := md5_compress;
  count_0 := (0, 0);
  count_block := add_block;
  count_last := add_last;
  length_field t :=
    le_bytes 4 (wrapu 32 (Z.shiftl t.1 3))
    ++ le_bytes 4 (Z.lor (wrapu 32 (Z.shiftl t.2 3)) (Z.shiftr t.1 29));
  output := md5_read_ctx
|}.

Definition md5_init_ctx : list Z → ctx (Z * Z) := init_ctx (H := md5).
Definition md5_process_block : list Z → nat → ctx (Z * Z) → outcome (ctx (Z * Z)) :=
  process_block (H := md5).
Definition md5_process_bytes : list Z → nat → ctx (Z * Z) → outcome (ctx (Z * Z)) :=
  process_bytes (H := md5).
Definition md5_finish_ctx : ctx (Z * Z) → outcome (ctx (Z * Z) * list Z) := finish_ctx (H := md5).

(** [md5_buffer]; [buf] is what the context's buffer contains on entry. *)
Definition md5_buffer (buf s : list Z) (len : nat) : outcome (list Z) :=
  c ← md5_process_bytes s len (md5_init_ctx buf);
  md5_finish_ctx c ≫= λ r : ctx (Z * Z) * list Z, Val r.2.

(** ** [md5_stream] *)

Definition BLOCKSIZE : nat := 4096.

Section stream.
(** [fread] may return less than was asked for: the [i]-th call returns at
    most [S (short i)] bytes, and none only at the end of the data.  [err] is
    what [ferror] says there. *)
Variable short : nat → nat.
Variable err : bool.

Definition fread (i req : nat) (data : list Z) : list Z := take (Nat.min req (S (short i))) data.

(** The inner loop: the last [n], the bytes read, the rest of the data and
    the number of calls. *)
Fixpoint read_block (fuel i : nat) (acc data : list Z) : outcome (nat * list Z * list Z * nat) :=
  match fuel with
  | O => NoFuel
  | S fuel' =>
      let chunk := fread i (BLOCKSIZE - length acc) data in
      let n := length chunk in
      let acc := acc ++ chunk in
      let data := drop n data in
      if (length acc <? BLOCKSIZE)%nat && negb (n =? 0)%nat
      then read_block fuel' (S i) acc data
      else Val (n, acc, data, S i)
  end.

(** The outer loop: [None] for the early return 1, else the context and the
    bytes left in the buffer. *)
Fixpoint stream_loop (fuel i : nat) (data : list Z) (c : ctx (Z * Z))
    : outcome (option (ctx (Z * Z) * list Z)) :=
  match fuel with
  | O => NoFuel
  | S fuel' =>
      read_block (S (S (length data))) i [] data ≫= λ r : nat * list Z * list Z * nat,
      let '(n, acc, data, i) := r in
      if (n =? 0)%nat && err then Val None
      else if (n =? 0)%nat then Val (Some (c, acc))
      else c ← md5_process_block acc BLOCKSIZE c; stream_loop fuel' i data c
  end.

(** [md5_stream]: the return code and the digest. *)
Definition md5_stream (buf data : list Z) : outcome (Z * option (list Z)) :=
  r ← stream_loop (S (length data)) 0 data (md5_init_ctx buf);
  match r with
  | None => Val (1, None)
  | Some (c, acc) =>
      c ← (if (0 <? length acc)%nat then md5_process_bytes acc (length acc) c else Val c);
      md5_finish_ctx c ≫= λ r : ctx (Z * Z) * list Z, Val (0, Some r.2)
  end.
End stream.

(** ** Correctness *)

(** The two words of a byte count. *)
Definition count32 (n : Z) : Z * Z := (n mod 2 ^ 32, (n / 2 ^ 32) mod 2 ^ 32).

Lemma add_words P n k :
  0 < P →
  (n mod P + k mod P) mod P = (n + k) mod P ∧
  (n + k) / P = n / P + k / P + (if (n + k) mod P <? k mod P then 1 else 0).
Proof.
  intros HP. rewrite <- Z.add_mod by lia. split; [done|].
  pose proof (Z.mod_pos_bound n P HP). pose proof (Z.mod_pos_bound k P HP).
  pose proof (Z.div_mod n P ltac:(lia)). pose proof (Z.div_mod k P ltac:(lia)).
  assert ((n + k) mod P = if n mod P + k mod P <? P then n mod P + k mod P
                          else n mod P + k mod P - P) as E.
  { rewrite Z.add_mod by lia. destruct (Z.ltb_spec (n mod P + k mod P) P).
    - apply Z.mod_small. lia.
    - symmetry. apply Z.mod_unique with 1; lia. }
  pose proof (Z.div_mod (n + k) P ltac:(lia)).
  destruct (Z.ltb_spec (n mod P + k mod P) P); rewrite E in *; zcase; nia.
Qed.

#[export] Instance md5_laws : MdLaws md5 count32.
Proof.
  split; cbn [block field count_0 count_block count_last length_field md5].
  - by exists 6.
  - lia.
  - done.
  - intros n k Hn Hk. unfold add_block, count32, wrapu. cbn [fst snd].
    destruct (add_words (2 ^ 32) n k) as [-> ->]; [lia|]. f_equal.
    rewrite Z.shiftr_shiftr, Z.shiftr_div_pow2 by lia. change (31 + 1) with 32.
    rewrite <- !Z.add_assoc, Z.add_mod_idemp_l by lia. done.
  - intros n k Hn Hk. unfold add_last, count32, wrapu. cbn [fst snd].
    pose proof (add_words (2 ^ 32) n k ltac:(lia)) as [E ->].
    rewrite (Z.mod_small k) in * by (change (2 ^ 32) with 4294967296; lia). rewrite E. f_equal.
    rewrite (Z.div_small k) by (change (2 ^ 32) with 4294967296; lia). rewrite Z.add_0_r.
    destruct (_ <? _); [by rewrite Z.add_mod_idemp_l by lia|by rewrite Z.add_0_r].
  - intros n _. by rewrite length_app, !le_bytes_length.
Qed.

Definition md5_digest (m : list Z) : list Z :=
  let p := std_pad 64 8 le_bytes m in
  md5_read_ctx (compress_blocks (H := md5) (length p / 64) md5_H0 p).

Lemma md5_field n : 0 <= n → length_field (Md := md5) (count32 n) = le_bytes 8 (8 * n).
Proof.
  intros Hn. cbn [length_field md5 count32 fst snd].
  rewrite (bits_low 32) by lia. change 29 with (32 - 3). rewrite (bits_high 32) by lia.
  change 8%nat with (4 + 4)%nat. rewrite le_bytes_app. change (256 ^ Z.of_nat 4) with (2 ^ 32).
  f_equal; [exact (le_bytes_mod 4 (8 * n))|exact (le_bytes_mod 4 (8 * n / 2 ^ 32))].
Qed.

Lemma md5_reference m : md_digest (H := md5) count32 m = md5_digest m.
Proof.
  unfold md_digest, md_pad, md5_digest, std_pad. by rewrite md5_field by lia.
Qed.

Section stream_correct.
Variable short : nat → nat.

Lemma read_block_spec fuel i acc data :
  (length acc < BLOCKSIZE)%nat → (length data < fuel)%nat →
  let need := (BLOCKSIZE - length acc)%nat in
  if (need <=? length data)%nat then
    ∃ n i', read_block short fuel i acc data
            = Val (n, acc ++ take need data, drop need data, i') ∧ n ≠ 0%nat
  else ∃ i', read_block short fuel i acc data = Val (0%nat, acc ++ data, [], i').
Proof using.
  revert i acc data; induction fuel as [|fuel IH]; intros i acc data Hacc Hf need; [lia|].
  cbn [read_block]. unfold fread. fold need.
  set (k := Nat.min need (S (short i))). set (chunk := take k data).
  assert (1 <= k <= need)%nat as Hk by (unfold k, need; lia).
  assert (length chunk = Nat.min k (length data)) as Hc by apply length_take.
  destruct (decide (data = [])) as [->|Hne].
  { unfold chunk. rewrite take_nil, drop_nil, app_nil_r. cbn [length Nat.eqb negb].
    rewrite andb_false_r. destruct (Nat.leb_spec need 0); [lia|]. by exists (S i). }
  assert (1 <= length data)%nat as Hd by (destruct data; [done|cbn; lia]).
  rewrite Hc. rewrite length_app, Hc.
  destruct (Nat.eqb_spec (Nat.min k (length data)) 0) as [?|Hn]; [lia|]. cbn [negb].
  rewrite andb_true_r.
  destruct (Nat.ltb_spec (length acc + Nat.min k (length data)) BLOCKSIZE) as [Hlt|Hge].
  - specialize (IH (S i) (acc ++ chunk) (drop (Nat.min k (length data)) data)).
    rewrite length_app, Hc, length_drop in IH. specialize (IH ltac:(lia) ltac:(lia)). cbv zeta in IH.
    assert (chunk ++ drop (Nat.min k (length data)) data = data) as Ed.
    { unfold chunk. destruct (Nat.min_spec k (length data)) as [[? ->]|[? ->]];
        [apply take_drop|]. by rewrite take_ge, drop_ge, app_nil_r by lia. }
    replace (BLOCKSIZE - (length acc + Nat.min k (length data)))%nat
      with (need - Nat.min k (length data))%nat in IH by (unfold need; lia).
    destruct (Nat.leb_spec need (length data)) as [Hle|Hgt].
    + rewrite (proj2 (Nat.leb_le _ _)) in IH by lia. destruct IH as (n & i' & -> & Hn').
      exists n, i'. split; [|done]. rewrite drop_drop.
      replace (Nat.min k (length data) + (need - Nat.min k (length data)))%nat with need by lia.
      rewrite <- app_assoc. do 5 f_equal. unfold chunk.
      rewrite Nat.min_l by lia. rewrite take_take_drop. f_equal. lia.
    + rewrite (proj2 (Nat.leb_gt _ _)) in IH by lia. destruct IH as (i' & ->).
      exists i'. by rewrite <- app_assoc, Ed.
  - rewrite (proj2 (Nat.leb_le _ _)) by (unfold need; lia).
    exists (Nat.min k (length data)), (S i). split; [|done].
    assert (Nat.min k (length data) = need) as -> by (unfold need; lia).
    do 5 f_equal. unfold chunk. f_equal. lia.
Qed.

Lemma stream_loop_spec (err : bool) fuel i data m c :
  represents (HM := md5) (count := count32) m c → buflen c = 0%nat → (length data < fuel)%nat →
  if err then stream_loop short true fuel i data c = Val None
  else ∃ c' acc m', stream_loop short false fuel i data c = Val (Some (c', acc)) ∧
         represents (HM := md5) (count := count32) m' c' ∧ m' ++ acc = m ++ data.
Proof using.
  revert i data m c; induction fuel as [|fuel IH]; intros i data m c Hm Hb Hf; [lia|].
  pose proof (read_block_spec (S (S (length data))) i [] data) as Hr.
  cbn [stream_loop]. specialize (Hr ltac:(cbn; unfold BLOCKSIZE; lia) ltac:(lia)). cbv zeta in Hr.
  cbn [length] in Hr. rewrite Nat.sub_0_r in Hr.
  destruct (Nat.leb_spec BLOCKSIZE (length data)) as [Hle|Hgt].
  - destruct Hr as (n & i' & -> & Hn). cbn [mbind outcome_bind app].
    rewrite (proj2 (Nat.eqb_neq _ _) Hn). cbn [andb].
    destruct (process_block_represents (HM := md5) m c 64 (take BLOCKSIZE data) [])
      as (c1 & E & Hb1 & Hm1); [done|done|rewrite length_take, Nat.min_l by done; done|].
    rewrite app_nil_r in E. unfold md5_process_block.
    change (64 * 64)%nat with BLOCKSIZE in E.
    change (64 * block)%nat with BLOCKSIZE in E. rewrite E. cbn [mbind outcome_bind].
    specialize (IH i' (drop BLOCKSIZE data) _ c1 Hm1 Hb1).
    rewrite length_drop in IH. specialize (IH ltac:(unfold BLOCKSIZE in *; lia)).
    destruct err; [done|]. destruct IH as (c' & acc & m' & E' & Hm' & Ea).
    exists c', acc, m'. split; [done|]. split; [done|]. by rewrite Ea, <- app_assoc, take_drop.
  - destruct Hr as (i' & ->). cbn [mbind outcome_bind app Nat.eqb andb].
    destruct err; [done|]. by exists c, data, m.
Qed.
End stream_correct.

(** The same for MD5, whose length is kept in two 32-bit words with a
    carry. *)
Theorem md5_pieces pieces buf :
  length buf = 128%nat →
  ∃ c c', feed (H := md5) pieces (md5_init_ctx buf) = Val c ∧
    md5_finish_ctx c = Val (c', md5_digest (concat pieces)).
Proof.
  intros Hl. destruct (digest_pieces (HM := md5) pieces buf Hl) as (c & c' & E1 & E2).
  exists c, c'. split; [exact E1|]. unfold md5_finish_ctx. by rewrite E2, md5_reference.
Qed.

Lemma md5_pieces_witness :
  ∃ c c', feed (H := md5) [$"mess"; $"age digest"] (md5_init_ctx (replicate 128 7)) = Val c ∧
    md5_finish_ctx c = Val (c',
      [0xf9; 0x6b; 0x69; 0x7d; 0x7c; 0xb7; 0x93; 0x8d; 0x52; 0x5a; 0x2f; 0x31; 0xaa; 0xf1; 0x61; 0xd0]).
Proof.
  destruct (md5_pieces [$"mess"; $"age digest"] (replicate 128 7)) as (c & c' & E1 & E2).
  - reflexivity.
  - exists c, c'. split; [exact E1|]. rewrite E2. do 2 f_equal; vm_compute; reflexivity.
Defined.

(** [__md5_stream] returns the digest of the whole stream for every
    pattern of short reads, and 1 with no digest when the stream has an error;
    the loops end. *)
Theorem md5_stream_correct short (err : bool) buf data :
  length buf = 128%nat →
  md5_stream short err buf data
  = Val (if err then (1, None) else (0, Some (md5_digest data))).
Proof.
  intros Hl. unfold md5_stream.
  pose proof (stream_loop_spec short err (S (length data)) 0 data [] (md5_init_ctx buf)
    (init_represents (HM := md5) buf Hl) eq_refl ltac:(lia)) as H.
  destruct err; [by rewrite H|]. destruct H as (c & acc & m & -> & Hm & Ea).
  cbn [mbind outcome_bind]. cbn [app] in Ea.
  assert (∃ c', (if (0 <? length acc)%nat then md5_process_bytes acc (length acc) c else Val c)
    = Val c' ∧ represents (HM := md5) (count := count32) data c') as (c' & -> & Hc').
  { destruct (Nat.ltb_spec 0 (length acc)).
    - destruct (process_bytes_spec (HM := md5) m acc [] c Hm) as (c' & E & Hc').
      rewrite app_nil_r in E. exists c'. split; [exact E|]. by rewrite <- Ea.
    - exists c. split; [done|]. destruct acc; [|cbn in *; lia]. by rewrite app_nil_r in Ea; subst. }
  cbn [mbind outcome_bind].
  destruct (finish_ctx_spec (HM := md5) data c' Hc') as (c'' & E).
  unfold md5_finish_ctx. rewrite E. cbn [mbind outcome_bind snd]. by rewrite md5_reference.
Qed.

Lemma md5_stream_correct_witness :
  md5_stream (λ i, (3 * i)%nat) false (replicate 128 0) $"abc"
  = Val (0, Some [0x90; 0x01; 0x50; 0x98; 0x3c; 0xd2; 0x4f; 0xb0; 0xd6; 0x96; 0x3f; 0x7d; 0x28; 0xe1;
                  0x7f; 0x72]).
Proof.
  rewrite (md5_stream_correct (λ i, (3 * i)%nat) false (replicate 128 0) $"abc").
  - vm_compute. reflexivity.
  - reflexivity.
Defined.
End Md5.
