(* ===== verification/Base64.v ===== *)
(** * Base 64: [resolv/base64.c]

    [b64_ntop] and [b64_pton] with their target buffers.  The encoder is
    shown to produce the standard encoding or to refuse a short buffer, the
    decoder, a four-state machine, to read back every encoding, with blanks
    anywhere, and the two to be inverse. *)

From S2P Require Import Prelude CString Strtol.
Local Open Scope Z_scope.

Module Base64.
Import CString.

Definition Base64 : list Z := $"ABCDEFGHIJKLMNOPQRSTUVWXYZabcdefghijklmnopqrstuvwxyz0123456789+/".
Definition Pad64 : Z := 61.

(** ** [b64_ntop] *)

(** [Base64[output[i]]]; the index is asserted to be less than 64. *)
Definition alpha (x : Z) : outcome Z := deref (Base64 !! Z.to_nat x).

(** The four outputs of three inputs. *)
Definition out0 (i0 : Z) : Z := Z.shiftr i0 2.
Definition out1 (i0 i1 : Z) : Z := wrapu 8 (Z.shiftl (Z.land i0 0x03) 4 + Z.shiftr i1 4).
Definition out2 (i1 i2 : Z) : Z := wrapu 8 (Z.shiftl (Z.land i1 0x0f) 2 + Z.shiftr i2 6).
Definition out3 (i2 : Z) : Z := Z.land i2 0x3f.

(** [target[datalength++] = ...] four times. *)
Definition put4 (target : list Z) (datalength : nat) (cs : list Z) : outcome (list Z) :=
  write_at target datalength cs.

(** The loop over groups of three; [None] when the target is too small, else
    the rest of the source, the target and the length so far. *)
Fixpoint ntop_loop (src target : list Z) (targsize datalength : nat)
    : outcome (option (list Z * list Z * nat)) :=
  match src with
  | i0 :: i1 :: i2 :: src' =>
      c0 ← alpha (out0 i0);
      c1 ← alpha (out1 i0 i1);
      c2 ← alpha (out2 i1 i2);
      c3 ← alpha (out3 i2);
      if (targsize <? datalength + 4)%nat then Val None
      else
        target ← put4 target datalength [c0; c1; c2; c3];
        ntop_loop src' target targsize (datalength + 4)
  | _ => Val (Some (src, target, datalength))
  end.

(** The last one or two bytes. *)
Definition ntop_tail (src target : list Z) (targsize datalength : nat)
    : outcome (option (list Z * nat)) :=
  match src with
  | [] => Val (Some (target, datalength))
  | i0 :: rest =>
      let i1 := nth 0 rest 0 in
      c0 ← alpha (out0 i0);
      c1 ← alpha (out1 i0 i1);
      c2 ← alpha (out2 i1 0);
      if (targsize <? datalength + 4)%nat then Val None
      else
        target ← put4 target datalength
                   [c0; c1; if (length src =? 1)%nat then Pad64 else c2; Pad64];
        Val (Some (target, (datalength + 4)%nat))
  end.

(** The return value and the target. *)
Definition b64_ntop (src target : list Z) (targsize : nat) : outcome (Z * option (list Z)) :=
  r ← ntop_loop src target targsize 0;
  match r with
  | None => Val (-1, None)
  | Some (src, target, datalength) =>
      r ← ntop_tail src target targsize datalength;
      match r with
      | None => Val (-1, None)
      | Some (target, datalength) =>
          if (targsize <=? datalength)%nat then Val (-1, None)
          else
            target ← write_at target datalength [0];
            Val (Z.of_nat datalength, Some target)
      end
  end.

(** ** [b64_pton] *)

(** The state of the decoder; [target] is [None] for a null pointer. *)
Record dec := Dec { state : nat; tarindex : nat; target : option (list Z) }.

(** [strchr (Base64, ch)] and its offset. *)
Definition digit64 (ch : Z) : option Z :=
  (λ r, Z.of_nat r.1) <$> list_find (λ b, b = ch) Base64.

(** [target[tarindex + k] = v] and [target[tarindex] |= v]. *)
Definition set_at (t : list Z) (i : nat) (v : Z) : outcome (list Z) := write_at t i [wrapu 8 v].
Definition or_at (t : list Z) (i : nat) (v : Z) : outcome (list Z) :=
  x ← deref (t !! i); write_at t i [wrapu 8 (Z.lor x v)].

(** One digit in the [switch]; [None] is the return of -1. *)
Definition pton_digit (d : dec) (targsize : nat) (v : Z) : outcome (option dec) :=
  let i := tarindex d in
  match state d with
  | 0%nat =>
      match target d with
      | None => Val (Some (Dec 1 i None))
      | Some t =>
          if (targsize <=? i)%nat then Val None
          else t ← set_at t i (Z.shiftl v 2); Val (Some (Dec 1 i (Some t)))
      end
  | 1%nat =>
      match target d with
      | None => Val (Some (Dec 2 (S i) None))
      | Some t =>
          if (targsize <=? i + 1)%nat then Val None
          else
            t ← or_at t i (Z.shiftr v 4);
            t ← set_at t (i + 1) (Z.shiftl (Z.land v 0x0f) 4);
            Val (Some (Dec 2 (S i) (Some t)))
      end
  | 2%nat =>
      match target d with
      | None => Val (Some (Dec 3 (S i) None))
      | Some t =>
          if (targsize <=? i + 1)%nat then Val None
          else
            t ← or_at t i (Z.shiftr v 2);
            t ← set_at t (i + 1) (Z.shiftl (Z.land v 0x03) 6);
            Val (Some (Dec 3 (S i) (Some t)))
      end
  | 3%nat =>
      match target d with
      | None => Val (Some (Dec 0 (S i) None))
      | Some t =>
          if (targsize <=? i)%nat then Val None
          else t ← or_at t i v; Val (Some (Dec 0 (S i) (Some t)))
      end
  | _ => Fault
  end.

(** The loop over characters; it stops at the end of the string or at a pad,
    with the rest of the source after that character. *)
Fixpoint pton_loop (src : list Z) (d : dec) (targsize : nat) : outcome (option (Z * list Z * dec)) :=
  match src with
  | [] => Fault
  | ch :: src' =>
      if ch =? 0 then Val (Some (ch, src', d))
      else if Strtol.isspace ch then pton_loop src' d targsize
      else if ch =? Pad64 then Val (Some (ch, src', d))
      else match digit64 ch with
           | None => Val None
           | Some v =>
               r ← pton_digit d targsize v;
               match r with
               | None => Val None
               | Some d => pton_loop src' d targsize
               end
           end
  end.

(** [for (; ch != 0; ch = *src++) if (!isspace (ch)) break;]: [ch] and what
    follows it, at the end or at the first character that is no blank. *)
Fixpoint skip_blanks (src : list Z) : outcome (Z * list Z) :=
  match src with
  | [] => Fault
  | ch :: src' =>
      if ch =? 0 then Val (ch, src')
      else if Strtol.isspace ch then skip_blanks src' else Val (ch, src')
  end.

(** The part shared by one and two pads: only blanks may follow, and the
    bits past the last byte must be zero. *)
Definition pton_end (src : list Z) (d : dec) : outcome Z :=
  skip_blanks src ≫= λ r : Z * list Z,
  if r.1 =? 0 then
    match target d with
    | None => Val (Z.of_nat (tarindex d))
    | Some t => x ← deref (t !! tarindex d);
                Val (if x =? 0 then Z.of_nat (tarindex d) else -1)
    end
  else Val (-1).

(** The return value and the target. *)
Definition b64_pton (src : list Z) (tgt : option (list Z)) (targsize : nat)
    : outcome (Z * option (list Z)) :=
  r ← pton_loop src (Dec 0 0 tgt) targsize;
  match r with
  | None => Val (-1, None)
  | Some (ch, src, d) =>
      n ← (if ch =? Pad64 then
             match state d with
             | 0%nat | 1%nat => Val (-1)
             | 2%nat =>
                 skip_blanks src ≫= λ r : Z * list Z,
                 if r.1 =? Pad64 then pton_end r.2 d else Val (-1)
             | 3%nat => pton_end src d
             | _ => Val (Z.of_nat (tarindex d))
             end
           else Val (if (state d =? 0)%nat then Z.of_nat (tarindex d) else -1));
      Val (n, target d)
  end.

(** ** The standard encoding *)

(** The six-bit values of a byte string, zero bits added on the right. *)
Fixpoint sextets (s : list Z) : list Z :=
  match s with
  | a :: b :: c :: s' =>
      a / 4 :: a mod 4 * 16 + b / 16 :: b mod 16 * 4 + c / 64 :: c mod 64 :: sextets s'
  | [a; b] => [a / 4; a mod 4 * 16 + b / 16; b mod 16 * 4]
  | [a] => [a / 4; a mod 4 * 16]
  | [] => []
  end.

Definition al (v : Z) : Z := nth (Z.to_nat v) Base64 0.

Definition pads (s : list Z) : list Z := replicate ((3 - length s mod 3) mod 3) Pad64.

Definition b64 (s : list Z) : list Z := (al <$> sextets s) ++ pads s.

(** Induction in groups of three. *)
Lemma triple_ind (P : list Z → Prop) :
  P [] → (∀ a, P [a]) → (∀ a b, P [a; b]) →
  (∀ a b c s, P s → P (a :: b :: c :: s)) → ∀ s, P s.
Proof.
  intros H0 H1 H2 H3. assert (∀ n s, (length s <= n)%nat → P s) as H.
  { induction n as [|n IH]; intros s Hs; [by destruct s; [|cbn in Hs; lia]|].
    destruct s as [|a [|b [|c s]]]; [done..|]. apply H3, IH. cbn in Hs. lia. }
  intros s. by apply (H (length s)).
Qed.

Lemma pads_triple a b c s : pads (a :: b :: c :: s) = pads s.
Proof.
  unfold pads. cbn [length]. replace (S (S (S (length s)))) with (length s + 1 * 3)%nat by lia.
  by rewrite Nat.Div0.mod_add.
Qed.

Lemma b64_triple a b c s :
  b64 (a :: b :: c :: s)
  = [al (a / 4); al (a mod 4 * 16 + b / 16); al (b mod 16 * 4 + c / 64); al (c mod 64)] ++ b64 s.
Proof. unfold b64. by rewrite pads_triple. Qed.

(** What the shifts and masks compute. *)
Lemma out0_spec a : out0 a = a / 4.
Proof. unfold out0. by rewrite Z.shiftr_div_pow2. Qed.

Lemma out1_spec a b : 0 <= a < 256 → 0 <= b < 256 → out1 a b = a mod 4 * 16 + b / 16.
Proof.
  intros Ha Hb. unfold out1, wrapu. change 3 with (Z.ones 2).
  rewrite Z.land_ones, Z.shiftl_mul_pow2, Z.shiftr_div_pow2 by lia.
  change (2 ^ 2) with 4. change (2 ^ 4) with 16. change (2 ^ 8) with 256.
  apply Z.mod_small. Z.to_euclidean_division_equations. lia.
Qed.

Lemma out2_spec b c : 0 <= b < 256 → 0 <= c < 256 → out2 b c = b mod 16 * 4 + c / 64.
Proof.
  intros Hb Hc. unfold out2, wrapu. change 15 with (Z.ones 4).
  rewrite Z.land_ones, Z.shiftl_mul_pow2, Z.shiftr_div_pow2 by lia.
  change (2 ^ 2) with 4. change (2 ^ 4) with 16. change (2 ^ 6) with 64. change (2 ^ 8) with 256.
  apply Z.mod_small. Z.to_euclidean_division_equations. lia.
Qed.

Lemma out3_spec c : out3 c = c mod 64.
Proof. unfold out3. change 63 with (Z.ones 6). by rewrite Z.land_ones. Qed.

Lemma sextet_bounds a b c :
  0 <= a < 256 → 0 <= b < 256 → 0 <= c < 256 →
  0 <= a / 4 < 64 ∧ 0 <= a mod 4 * 16 + b / 16 < 64 ∧
  0 <= b mod 16 * 4 + c / 64 < 64 ∧ 0 <= c mod 64 < 64.
Proof. intros. Z.to_euclidean_division_equations. lia. Qed.

Lemma alpha_al v : 0 <= v < 64 → alpha v = Val (al v).
Proof.
  intros Hv. unfold alpha, al.
  destruct (lookup_lt_is_Some_2 Base64 (Z.to_nat v)) as [x Hx]; [cbn; lia|].
  by rewrite Hx, (nth_lookup_Some _ _ 0 x Hx).
Qed.

(** A sextet's character is a digit of that value, no blank and no pad. *)
Lemma al_digit v :
  0 <= v < 64 →
  digit64 (al v) = Some v ∧ Strtol.isspace (al v) = false ∧ al v ≠ Pad64 ∧ al v ≠ 0.
Proof.
  intros Hv.
  assert (forallb (λ v, bool_decide (digit64 (al v) = Some v ∧ Strtol.isspace (al v) = false ∧
    al v ≠ Pad64 ∧ al v ≠ 0)) (seqZ 0 64) = true) as H by by vm_compute.
  rewrite forallb_forall in H. apply (bool_decide_eq_true_1 _).
  apply H, list_elem_of_In, elem_of_seqZ. lia.
Qed.

(** ** The encoder *)

Lemma put4_mid pre (rest cs : list Z) n :
  length pre = n → (length cs <= length rest)%nat →
  put4 (pre ++ rest) n cs = Val ((pre ++ cs) ++ drop (length cs) rest).
Proof.
  intros <- Hl. unfold put4. rewrite <- (take_drop (length cs) rest) at 1.
  rewrite write_at_mid by (rewrite length_take; lia). by rewrite app_assoc.
Qed.

(** What [b64_ntop] does after the part [pre] was written. *)
Definition ntop_from (src target : list Z) (targsize datalength : nat)
    : outcome (Z * option (list Z)) :=
  r ← ntop_loop src target targsize datalength;
  match r with
  | None => Val (-1, None)
  | Some (src, target, datalength) =>
      r ← ntop_tail src target targsize datalength;
      match r with
      | None => Val (-1, None)
      | Some (target, datalength) =>
          if (targsize <=? datalength)%nat then Val (-1, None)
          else
            target ← write_at target datalength [0];
            Val (Z.of_nat datalength, Some target)
      end
  end.

(** The terminator, when there is room for it. *)
Lemma ntop_close pre rest n targsize :
  length pre = n → (targsize <= length (pre ++ rest))%nat →
  (if (targsize <=? n)%nat then Val (-1, None)
   else target ← write_at (pre ++ rest) n [0]; Val (Z.of_nat n, Some target))
  = if (n <? targsize)%nat then Val (Z.of_nat n, Some (pre ++ 0 :: drop 1 rest))
    else Val (-1, None).
Proof.
  intros Hn Hts. destruct (Nat.leb_spec targsize n), (Nat.ltb_spec n targsize); try lia; [done|].
  rewrite length_app in Hts. pose proof (put4_mid pre rest [0] n Hn) as E. unfold put4 in E.
  rewrite E by (cbn; lia). cbn [mbind outcome_bind length]. by rewrite <- app_assoc.
Qed.

(** Four characters, when there is room for them. *)
Lemma put_group {A} pre rest cs targsize (k : list Z → outcome (option A)) :
  length cs = 4%nat → (targsize <= length (pre ++ rest))%nat →
  (if (targsize <? length pre + 4)%nat then Val None
   else target ← put4 (pre ++ rest) (length pre) cs; k target)
  = if (targsize <? length (pre ++ cs))%nat then Val None else k ((pre ++ cs) ++ drop 4 rest).
Proof.
  intros Hc Hts. rewrite !length_app, Hc in *.
  destruct (Nat.ltb_spec targsize (length pre + 4)) as [|Hle]; [done|].
  rewrite put4_mid by lia. by rewrite Hc.
Qed.

(** The last group and the terminator. *)
Lemma ntop_last pre rest cs targsize :
  length cs = 4%nat → (targsize <= length (pre ++ rest))%nat →
  (r ← (if (targsize <? length pre + 4)%nat then Val None
        else target ← put4 (pre ++ rest) (length pre) cs;
             Val (Some (target, (length pre + 4)%nat)));
   match r with
   | None => Val (-1, None)
   | Some (target, datalength) =>
       if (targsize <=? datalength)%nat then Val (-1, None)
       else target ← write_at target datalength [0]; Val (Z.of_nat datalength, Some target)
   end)
  = if (length pre + length cs <? targsize)%nat
    then Val (Z.of_nat (length pre + length cs),
              Some ((pre ++ cs) ++ 0 :: drop (length cs + 1) rest))
    else Val (-1, None).
Proof.
  intros Hc Hts. rewrite (put_group (A := list Z * nat)) by done. rewrite Hc.
  rewrite length_app in Hts.
  destruct (Nat.ltb_spec targsize (length (pre ++ cs))) as [Hlt|Hge]; rewrite length_app, Hc in *;
    cbn [mbind outcome_bind].
  - by rewrite (proj2 (Nat.ltb_ge _ _)) by lia.
  - rewrite ntop_close by (rewrite ?length_app, ?length_drop; lia).
    by rewrite drop_drop, Nat.add_comm.
Qed.

Lemma ntop_from_spec src pre rest targsize :
  bytes_ok src → (targsize <= length (pre ++ rest))%nat →
  ntop_from src (pre ++ rest) targsize (length pre)
  = if (length pre + length (b64 src) <? targsize)%nat
    then Val (Z.of_nat (length pre + length (b64 src)),
              Some ((pre ++ b64 src) ++ 0 :: drop (length (b64 src) + 1) rest))
    else Val (-1, None).
Proof.
  revert pre rest. induction src as [|a|a b|a b c src IH] using triple_ind;
    intros pre rest Hs Hts; unfold ntop_from; cbn [ntop_loop mbind outcome_bind ntop_tail nth].
  - rewrite ntop_close by done. cbn. by rewrite Nat.add_0_r, app_nil_r.
  - apply bytes_ok_cons in Hs as [Ha _].
    destruct (sextet_bounds a 0 0) as (B0 & B1 & B2 & _); [lia..|].
    rewrite out0_spec, out1_spec, out2_spec, !alpha_al by lia. cbn [mbind outcome_bind length Nat.eqb].
    rewrite Z.add_0_r. by apply (ntop_last pre rest (b64 [a])).
  - apply bytes_ok_cons in Hs as [Ha [Hb _]%bytes_ok_cons].
    destruct (sextet_bounds a b 0) as (B0 & B1 & B2 & _); [lia..|].
    rewrite out0_spec, out1_spec, out2_spec, !alpha_al by lia. cbn [mbind outcome_bind length Nat.eqb].
    rewrite Z.add_0_r. by apply (ntop_last pre rest (b64 [a; b])).
  - apply bytes_ok_cons in Hs as [Ha [Hb [Hc Hs]%bytes_ok_cons]%bytes_ok_cons].
    destruct (sextet_bounds a b c) as (B0 & B1 & B2 & B3); [lia..|].
    rewrite out0_spec, out1_spec, out2_spec, out3_spec, !alpha_al by lia. cbn [mbind outcome_bind].
    rewrite b64_triple. set (cs := [al (a / 4); _; _; _]).
    rewrite put_group by done. rewrite (length_app cs), !(app_assoc pre), Nat.add_assoc.
    rewrite length_app in *. cbn [length] in *.
    destruct (Nat.ltb_spec targsize (length pre + length cs)) as [Hlt|Hge].
    + cbn [mbind outcome_bind]. by rewrite (proj2 (Nat.ltb_ge _ _)) by lia.
    + specialize (IH (pre ++ cs) (drop 4 rest) Hs). unfold ntop_from in IH.
      rewrite !length_app, length_drop in IH. change (length cs) with 4%nat in *.
      rewrite IH by lia. destruct (_ <? _)%nat; [|done]. rewrite drop_drop.
      by replace (4 + (length (b64 src) + 1))%nat with (4 + length (b64 src) + 1)%nat by lia.
Qed.

(** ** The decoder *)

(** The digits one after the other. *)
Fixpoint run (vs : list Z) (d : dec) (targsize : nat) : outcome (option dec) :=
  match vs with
  | [] => Val (Some d)
  | v :: vs' =>
      r ← pton_digit d targsize v;
      match r with
      | None => Val None
      | Some d => run vs' d targsize
      end
  end.

(** Without the blanks. *)
Definition strip (w : list Z) : list Z := filter (λ c, Strtol.isspace c = false) w.

Lemma strip_cons c w :
  strip (c :: w) = if Strtol.isspace c then strip w else c :: strip w.
Proof.
  unfold strip. destruct (Strtol.isspace c) eqn:E.
  - by rewrite filter_cons_False by congruence.
  - by rewrite filter_cons_True.
Qed.

Definition sextets_ok (vs : list Z) : Prop := Forall (λ v, 0 <= v < 64) vs.

(** The loop on digits with blanks anywhere, up to the end or the first
    pad. *)
Lemma pton_loop_spec w t vs x d targsize :
  nul_free w → sextets_ok vs → strip w = (al <$> vs) ++ x →
  (x = [] ∨ head x = Some Pad64) →
  ∃ r, run vs d targsize = r ∧
    match r with
    | Val (Some d') =>
        if decide (x = []) then pton_loop (w ++ 0 :: t) d targsize = Val (Some (0, t, d'))
        else ∃ w', pton_loop (w ++ 0 :: t) d targsize = Val (Some (Pad64, w' ++ 0 :: t, d')) ∧
                   nul_free w' ∧ strip w' = tail x
    | Val None => pton_loop (w ++ 0 :: t) d targsize = Val None
    | _ => True
    end.
Proof.
  intros Hw. revert vs d. induction Hw as [|c w Hc Hw IH]; intros vs d Hvs Es Hx; eexists; (split; [done|]).
  - destruct vs as [|v vs]; [|done]. cbn in Es. subst x. cbn [run]. by rewrite decide_True.
  - rewrite strip_cons in Es. cbn [app pton_loop].
    destruct (Z.eqb_spec c 0); [done|]. destruct (Strtol.isspace c) eqn:Esp.
    { destruct (IH vs d Hvs Es Hx) as (r & -> & Hr). exact Hr. }
    destruct vs as [|v vs].
    + cbn [fmap list_fmap app] in Es. destruct x as [|x0 x]; [done|].
      injection Es as -> Es. destruct Hx as [|[= ->]]; [done|]. cbn [run].
      rewrite decide_False by done. rewrite Z.eqb_refl. by exists w.
    + injection Es as -> Es. apply Forall_cons in Hvs as [Hv Hvs].
      destruct (al_digit v Hv) as (Ed & _ & Hp & _).
      destruct (Z.eqb_spec (al v) Pad64); [done|]. rewrite Ed. cbn [run].
      destruct (pton_digit d targsize v) as [[d1|]| |]; cbn [mbind outcome_bind]; [|done..].
      destruct (IH vs d1 Hvs Es Hx) as (r & -> & Hr). exact Hr.
Qed.

(** A digit step at the end of what is written. *)
Lemma set_at_spec pre x rest i v :
  length pre = i → 0 <= v < 256 → set_at (pre ++ x :: rest) i v = Val (pre ++ v :: rest).
Proof.
  intros <- Hv. unfold set_at. rewrite wrapu_small by done.
  exact (write_at_mid pre [x] rest [v] eq_refl).
Qed.

Lemma or_at_spec pre x rest i v y :
  length pre = i → Z.lor x v = y → 0 <= y < 256 →
  or_at (pre ++ x :: rest) i v = Val (pre ++ y :: rest).
Proof.
  intros <- Hy Hb. unfold or_at. rewrite list_lookup_middle by done. cbn [deref mbind outcome_bind].
  rewrite Hy, wrapu_small by done. exact (write_at_mid pre [x] rest [y] eq_refl).
Qed.

(** The bit arithmetic of a byte split at bit [k]. *)
Lemma join_bits k a : 0 <= k → Z.lor (Z.shiftl (a / 2 ^ k) k) (a mod 2 ^ k) = a.
Proof.
  intros Hk. rewrite Z.shiftl_mul_pow2 by done.
  rewrite lor_low by (try apply Z.mod_pos_bound; lia).
  pose proof (Z.div_mod a (2 ^ k) ltac:(lia)). lia.
Qed.

Lemma step0 pre x rest targsize v :
  (length pre < targsize)%nat → 0 <= v < 64 →
  pton_digit (Dec 0 (length pre) (Some (pre ++ x :: rest))) targsize v
  = Val (Some (Dec 1 (length pre) (Some (pre ++ Z.shiftl v 2 :: rest)))).
Proof.
  intros Hts Hv. cbn [pton_digit state tarindex target].
  rewrite (proj2 (Nat.leb_gt _ _)) by done. rewrite set_at_spec; [done|done|].
  rewrite Z.shiftl_mul_pow2 by lia. change (2 ^ 2) with 4. lia.
Qed.

Lemma step1 pre a x rest targsize u b :
  (length pre + 1 < targsize)%nat → 0 <= a < 256 → 0 <= b < 16 → u = a mod 4 * 16 + b →
  pton_digit (Dec 1 (length pre) (Some (pre ++ Z.shiftl (a / 4) 2 :: x :: rest))) targsize u
  = Val (Some (Dec 2 (S (length pre)) (Some ((pre ++ [a]) ++ Z.shiftl b 4 :: rest)))).
Proof.
  intros Hts Ha Hb ->. cbn [pton_digit state tarindex target].
  rewrite (proj2 (Nat.leb_gt _ _)) by done.
  assert (Z.shiftr (a mod 4 * 16 + b) 4 = a mod 2 ^ 2) as ->.
  { rewrite Z.shiftr_div_pow2 by lia. change (2 ^ 4) with 16. change (2 ^ 2) with 4.
    Z.to_euclidean_division_equations. lia. }
  rewrite (or_at_spec _ _ _ _ _ a); [|done|apply (join_bits 2); lia|done]. cbn [mbind outcome_bind].
  assert (Z.land (a mod 4 * 16 + b) 15 = b) as ->.
  { change 15 with (Z.ones 4). rewrite Z.land_ones by lia. change (2 ^ 4) with 16.
    Z.to_euclidean_division_equations. lia. }
  change (pre ++ a :: x :: rest) with (pre ++ [a] ++ x :: rest).
  rewrite app_assoc. rewrite set_at_spec; [done|rewrite length_app; done|].
  rewrite Z.shiftl_mul_pow2 by lia. change (2 ^ 4) with 16. lia.
Qed.

Lemma step2 pre b x rest targsize u c :
  (length pre + 1 < targsize)%nat → 0 <= b < 256 → 0 <= c < 4 → u = b mod 16 * 4 + c →
  pton_digit (Dec 2 (length pre) (Some (pre ++ Z.shiftl (b / 16) 4 :: x :: rest))) targsize u
  = Val (Some (Dec 3 (S (length pre)) (Some ((pre ++ [b]) ++ Z.shiftl c 6 :: rest)))).
Proof.
  intros Hts Hb Hc ->. cbn [pton_digit state tarindex target].
  rewrite (proj2 (Nat.leb_gt _ _)) by done.
  assert (Z.shiftr (b mod 16 * 4 + c) 2 = b mod 2 ^ 4) as ->.
  { rewrite Z.shiftr_div_pow2 by lia. change (2 ^ 4) with 16. change (2 ^ 2) with 4.
    Z.to_euclidean_division_equations. lia. }
  rewrite (or_at_spec _ _ _ _ _ b); [|done|apply (join_bits 4); lia|done]. cbn [mbind outcome_bind].
  assert (Z.land (b mod 16 * 4 + c) 3 = c) as ->.
  { change 3 with (Z.ones 2). rewrite Z.land_ones by lia. change (2 ^ 2) with 4.
    Z.to_euclidean_division_equations. lia. }
  change (pre ++ b :: x :: rest) with (pre ++ [b] ++ x :: rest).
  rewrite app_assoc. rewrite set_at_spec; [done|rewrite length_app; done|].
  rewrite Z.shiftl_mul_pow2 by lia. change (2 ^ 6) with 64. lia.
Qed.

Lemma step3 pre c rest targsize :
  (length pre < targsize)%nat → 0 <= c < 256 →
  pton_digit (Dec 3 (length pre) (Some (pre ++ Z.shiftl (c / 64) 6 :: rest))) targsize (c mod 64)
  = Val (Some (Dec 0 (S (length pre)) (Some (pre ++ c :: rest)))).
Proof.
  intros Hts Hc. cbn [pton_digit state tarindex target].
  rewrite (proj2 (Nat.leb_gt _ _)) by done.
  by rewrite (or_at_spec _ _ _ _ _ c); [|done|apply (join_bits 6); lia|].
Qed.

(** The state after [n] bytes, the bytes the target must have, and the
    target afterwards: a partial group leaves a byte of zero bits. *)
Definition final_state (n : nat) : nat :=
  match (n mod 3)%nat with 0%nat => 0 | 1%nat => 2 | _ => 3 end.
Definition need (n : nat) : nat := if (n mod 3 =? 0)%nat then n else S n.
Definition decoded (s rest : list Z) : list Z :=
  s ++ if (length s mod 3 =? 0)%nat then drop (length s) rest else 0 :: drop (S (length s)) rest.

Lemma mod3_triple n : (S (S (S n)) mod 3 = n mod 3)%nat.
Proof. replace (S (S (S n))) with (n + 1 * 3)%nat by lia. apply Nat.Div0.mod_add. Qed.

Lemma need_triple n : need (S (S (S n))) = S (S (S (need n))).
Proof. unfold need. rewrite mod3_triple. by destruct (_ =? _)%nat. Qed.

Lemma need_ge n : (n <= need n)%nat.
Proof. unfold need. destruct (_ =? _)%nat; lia. Qed.

(** The first [k] elements of a list that is long enough. *)
Lemma list_take3 (l : list Z) :
  (3 <= length l)%nat → ∃ x y z r, l = x :: y :: z :: r.
Proof. destruct l as [|x [|y [|z r]]]; cbn; [lia..|]. intros _. by exists x, y, z, r. Qed.

Lemma run_sextets s pre rest targsize :
  bytes_ok s → (length pre + need (length s) <= targsize)%nat →
  (targsize <= length (pre ++ rest))%nat →
  run (sextets s) (Dec 0 (length pre) (Some (pre ++ rest))) targsize
  = Val (Some (Dec (final_state (length s)) (length pre + length s)
                   (Some (pre ++ decoded s rest)))).
Proof.
  revert pre rest. induction s as [|a|a b|a b c s IH] using triple_ind; intros pre rest Hs Hn Ht;
    rewrite length_app in Ht.
  - cbn. by rewrite Nat.add_0_r.
  - apply bytes_ok_cons in Hs as [Ha _]. change (need (length [a])) with 2%nat in Hn.
    destruct rest as [|x [|y rest]]; [cbn in Ht; lia..|]. cbn [sextets run].
    rewrite step0 by (lia || (Z.to_euclidean_division_equations; lia)). cbn [mbind outcome_bind].
    rewrite (step1 pre a y rest targsize _ 0) by lia. cbn [mbind outcome_bind].
    rewrite <- app_assoc. by rewrite Nat.add_1_r.
  - apply bytes_ok_cons in Hs as [Ha [Hb _]%bytes_ok_cons].
    change (need (length [a; b])) with 3%nat in Hn.
    destruct (list_take3 rest) as (x & y & z & r & ->); [lia|]. cbn [sextets run].
    rewrite step0 by (lia || (Z.to_euclidean_division_equations; lia)). cbn [mbind outcome_bind].
    rewrite (step1 pre a y (z :: r) targsize _ (b / 16)) by (lia || (Z.to_euclidean_division_equations; lia)).
    cbn [mbind outcome_bind]. replace (S (length pre)) with (length (pre ++ [a])) by (rewrite length_app; cbn; lia).
    rewrite (step2 (pre ++ [a]) b z r targsize _ 0) by (rewrite ?length_app; cbn; lia).
    cbn [mbind outcome_bind length]. rewrite length_app, <- !app_assoc. cbn [length].
    by replace (S (length pre + 1)) with (length pre + 2)%nat by lia.
  - apply bytes_ok_cons in Hs as [Ha [Hb [Hc Hs]%bytes_ok_cons]%bytes_ok_cons].
    cbn [length] in Hn. rewrite need_triple in Hn.
    destruct (list_take3 rest) as (x & y & z & r & ->); [lia|]. cbn [sextets run].
    rewrite step0 by (lia || (Z.to_euclidean_division_equations; lia)). cbn [mbind outcome_bind].
    rewrite (step1 pre a y (z :: r) targsize _ (b / 16)) by (lia || (Z.to_euclidean_division_equations; lia)).
    cbn [mbind outcome_bind]. replace (S (length pre)) with (length (pre ++ [a])) by (rewrite length_app; cbn; lia).
    rewrite (step2 (pre ++ [a]) b z r targsize _ (c / 64))
      by (rewrite ?length_app; cbn; lia || (Z.to_euclidean_division_equations; lia)).
    cbn [mbind outcome_bind].
    replace (S (length (pre ++ [a]))) with (length ((pre ++ [a]) ++ [b])) by (rewrite !length_app; cbn; lia).
    rewrite step3 by (rewrite ?length_app; cbn; lia). cbn [mbind outcome_bind].
    replace (S (length ((pre ++ [a]) ++ [b]))) with (length (pre ++ [a; b; c])) by (rewrite !length_app; cbn; lia).
    replace (((pre ++ [a]) ++ [b]) ++ c :: r) with ((pre ++ [a; b; c]) ++ r) by (by rewrite <- !app_assoc).
    rewrite IH; [|done|rewrite length_app; cbn; lia|rewrite !length_app; cbn in *; lia].
    cbn [length]. unfold final_state, decoded. cbn [length]. rewrite mod3_triple, length_app. cbn [length].
    rewrite <- (Nat.add_assoc (length pre) 3), <- app_assoc. done.
Qed.

Lemma skip_blanks_spec w t :
  nul_free w →
  match strip w with
  | [] => skip_blanks (w ++ 0 :: t) = Val (0, t)
  | c :: cs => ∃ w', skip_blanks (w ++ 0 :: t) = Val (c, w' ++ 0 :: t) ∧ nul_free w' ∧ strip w' = cs
  end.
Proof.
  induction 1 as [|c w Hc Hw IH]; [done|]. rewrite strip_cons. cbn [app skip_blanks].
  destruct (Z.eqb_spec c 0); [done|]. destruct (Strtol.isspace c); [exact IH|]. by exists w.
Qed.

Lemma sextets_range s : bytes_ok s → sextets_ok (sextets s).
Proof.
  induction s as [|a|a b|a b c s IH] using triple_ind; intros Hs.
  - constructor.
  - apply bytes_ok_cons in Hs as [Ha _]. destruct (sextet_bounds a 0 0) as (B0 & B1 & _); [lia..|].
    rewrite Z.add_0_r in B1. unfold sextets_ok. cbn [sextets]. rewrite !Forall_cons.
    split_and!; [lia..|constructor].
  - apply bytes_ok_cons in Hs as [Ha [Hb _]%bytes_ok_cons].
    destruct (sextet_bounds a b 0) as (B0 & B1 & B2 & _); [lia..|].
    rewrite Z.add_0_r in B2. unfold sextets_ok. cbn [sextets]. rewrite !Forall_cons.
    split_and!; [lia..|constructor].
  - apply bytes_ok_cons in Hs as [Ha [Hb [Hc Hs]%bytes_ok_cons]%bytes_ok_cons].
    destruct (sextet_bounds a b c) as (B0 & B1 & B2 & B3); [lia..|]. cbn [sextets].
    unfold sextets_ok. rewrite !Forall_cons. split_and!; [lia..|]. by apply IH.
Qed.

(** Three cases for the end of the encoding. *)
Lemma end_cases s :
  (length s mod 3 = 0 ∧ pads s = [] ∨ length s mod 3 = 1 ∧ pads s = [Pad64; Pad64] ∨
   length s mod 3 = 2 ∧ pads s = [Pad64])%nat.
Proof.
  unfold pads. pose proof (Nat.mod_upper_bound (length s) 3 ltac:(lia)) as H.
  destruct (length s mod 3)%nat as [|[|[|k]]]; [auto..|lia].
Qed.

Lemma decoded_zero s rest :
  (length s mod 3 ≠ 0)%nat → decoded s rest !! length s = Some 0.
Proof.
  intros H. unfold decoded. rewrite (proj2 (Nat.eqb_neq _ _) H).
  by rewrite list_lookup_middle.
Qed.

(** Any string that is the encoding up to blanks decodes to the bytes. *)
Lemma b64_pton_spec s w t rest targsize :
  bytes_ok s → nul_free w → strip w = b64 s →
  (need (length s) <= targsize <= length rest)%nat →
  b64_pton (w ++ 0 :: t) (Some rest) targsize
  = Val (Z.of_nat (length s), Some (decoded s rest)).
Proof.
  intros Hs Hw Es Hts. unfold b64_pton.
  destruct (pton_loop_spec w t (sextets s) (pads s) (Dec 0 0 (Some rest)) targsize Hw
    (sextets_range s Hs) Es) as (r & Er & Hr).
  { unfold pads. destruct ((3 - length s mod 3) mod 3)%nat; [by left|by right]. }
  pose proof (run_sextets s [] rest targsize Hs) as Hrun. cbn [length app Nat.add] in Hrun.
  rewrite Hrun in Er by lia. subst r.
  destruct (end_cases s) as [[Em Ep]|[[Em Ep]|[Em Ep]]]; rewrite Ep in Hr.
  - rewrite decide_True in Hr by done. rewrite Hr. cbn [mbind outcome_bind state].
    unfold final_state. by rewrite Em.
  - rewrite decide_False in Hr by done. destruct Hr as (w' & -> & Hw' & Es').
    cbn [mbind outcome_bind state]. unfold final_state. rewrite Em, Z.eqb_refl.
    pose proof (skip_blanks_spec w' t Hw') as Hb. rewrite Es' in Hb.
    destruct Hb as (w'' & -> & Hw'' & Es''). cbn [mbind outcome_bind fst snd tail]. rewrite Z.eqb_refl.
    unfold pton_end. pose proof (skip_blanks_spec w'' t Hw'') as Hb. rewrite Es'' in Hb. rewrite Hb.
    cbn [mbind outcome_bind fst Z.eqb target tarindex]. by rewrite decoded_zero by lia.
  - rewrite decide_False in Hr by done. destruct Hr as (w' & -> & Hw' & Es').
    cbn [mbind outcome_bind state]. unfold final_state. rewrite Em, Z.eqb_refl.
    unfold pton_end. pose proof (skip_blanks_spec w' t Hw') as Hb. rewrite Es' in Hb. rewrite Hb.
    cbn [mbind outcome_bind fst Z.eqb target tarindex]. by rewrite decoded_zero by lia.
Qed.

(** ** Main theorems *)

(** [b64_ntop] writes the padded base64 text of the bytes with its
    terminator and returns its length exactly when the text and the terminator
    fit the target, and returns -1 otherwise, never writing outside it. *)
Theorem b64_ntop_correct src target targsize :
  bytes_ok src → (targsize <= length target)%nat →
  let e := b64 src in
  b64_ntop src target targsize
  = if (length e <? targsize)%nat
    then Val (Z.of_nat (length e), Some (e ++ 0 :: drop (length e + 1) target))
    else Val (-1, None).
Proof. intros Hs Hts. exact (ntop_from_spec src [] target targsize Hs Hts). Qed.

Lemma b64_ntop_correct_witness :
  b64_ntop $"Hello" (replicate 10 0) 9 = Val (8, Some ($"SGVsbG8=" ++ [0; 0])).
Proof.
  rewrite (b64_ntop_correct $"Hello" (replicate 10 0) 9).
  - vm_compute. reflexivity.
  - apply (bool_decide_unpack _). by vm_compute.
  - cbn. lia.
Defined.

(** [b64_pton] decodes the base64 text of any bytes, with white space
    anywhere in it, back to the bytes and returns their number, in a target
    that has room for them and, for a partial group, one more byte. *)
Theorem b64_roundtrip s w t target targsize :
  bytes_ok s → nul_free w → strip w = b64 s →
  (need (length s) <= targsize <= length target)%nat →
  ∃ target', b64_pton (w ++ 0 :: t) (Some target) targsize = Val (Z.of_nat (length s), Some target') ∧
    take (length s) target' = s.
Proof.
  intros Hs Hw Es Hts. exists (decoded s target). split; [by apply b64_pton_spec|].
  unfold decoded. apply take_app_length.
Qed.

Lemma b64_roundtrip_witness :
  ∃ target', b64_pton ($" SGVs bG8 = " ++ [0]) (Some (replicate 6 9)) 6 = Val (5, Some target') ∧
    take 5 target' = $"Hello".
Proof.
  apply (b64_roundtrip $"Hello" $" SGVs bG8 = " [] (replicate 6 9) 6).
  - apply (bool_decide_unpack _). by vm_compute.
  - apply (bool_decide_unpack _). by vm_compute.
  - vm_compute. reflexivity.
  - vm_compute. lia.
Defined.
End Base64.
