(* ===== verification/Calendar.v ===== *)
(** * Calendar time: [time/offtime.c], [time/mktime.c], [time/timegm.c]

    [__offtime] breaks a count of seconds down to a [struct tm],
    [__mktime_internal] inverts a conversion function by probing, and
    [timegm] applies it to the conversion to UTC.  The theorems: the year
    loop of [__offtime] ends after at most 64 rounds, its result is the
    proleptic Gregorian date, and [timegm] returns the exact number of
    seconds of any combination of [int] fields, with the fields
    normalised. *)

From S2P Require Import Prelude.
Local Open Scope Z_scope.

Module Calendar.

Definition EOVERFLOW : Z := 75.
Definition SECS_PER_HOUR : Z := 60 * 60.
Definition SECS_PER_DAY : Z := SECS_PER_HOUR * 24.

Record tm := Tm {
  tm_sec : Z; tm_min : Z; tm_hour : Z; tm_mday : Z; tm_mon : Z;
  tm_year : Z; tm_wday : Z; tm_yday : Z; tm_isdst : Z
}.

(** [__isleap (year)]. *)
Definition isleap (y : Z) : bool :=
  (Z.rem y 4 =? 0) && (negb (Z.rem y 100 =? 0) || (Z.rem y 400 =? 0)).

Definition mon_yday (leap : bool) : list Z :=
  if leap then [0; 31; 60; 91; 121; 152; 182; 213; 244; 274; 305; 335; 366]
  else [0; 31; 59; 90; 120; 151; 181; 212; 243; 273; 304; 334; 365].

(** ** [__offtime] *)

(** The two loops that bring [rem] into a day. *)
Fixpoint rem_up (fuel : nat) (days rem : Z) : outcome (Z * Z) :=
  if rem <? 0 then
    match fuel with
    | O => NoFuel
    | S fuel' => rem_up fuel' (days - 1) (rem + SECS_PER_DAY)
    end
  else Val (days, rem).
Fixpoint rem_down (fuel : nat) (days rem : Z) : outcome (Z * Z) :=
  if SECS_PER_DAY <=? rem then
    match fuel with
    | O => NoFuel
    | S fuel' => rem_down fuel' (days + 1) (rem - SECS_PER_DAY)
    end
  else Val (days, rem).

(** The macros [DIV] and [LEAPS_THRU_END_OF]. *)
Definition DIV (a b : Z) : Z := Z.quot a b - (if Z.rem a b <? 0 then 1 else 0).
Definition LEAPS_THRU_END_OF (y : Z) : Z := DIV y 4 - DIV y 100 + DIV y 400.

(** The loop that finds the year. *)
Fixpoint year_loop (fuel : nat) (y days : Z) : outcome (Z * Z) :=
  if (days <? 0) || ((if isleap y then 366 else 365) <=? days) then
    match fuel with
    | O => NoFuel
    | S fuel' =>
        let yg := y + Z.quot days 365 - (if Z.rem days 365 <? 0 then 1 else 0) in
        let days := days - ((yg - y) * 365 + LEAPS_THRU_END_OF (yg - 1)
                            - LEAPS_THRU_END_OF (y - 1)) in
        year_loop fuel' yg days
    end
  else Val (y, days).

(** [for (y = 11; days < (long int) ip[y]; --y) continue;] *)
Fixpoint month_loop (y : nat) (ip : list Z) (days : Z) : outcome nat :=
  x ← deref (ip !! y);
  if days <? x then match y with O => Fault | S y' => month_loop y' ip days end
  else Val y.

Definition YEAR_FUEL : nat := 64.

(** [__offtime (t, offset, tp)]: the broken down time, or [errno].  The field
    [tm_isdst] is not set here and is passed through. *)
Definition offtime (t offset isdst : Z) : outcome (tm + Z) :=
  let days := Z.quot t SECS_PER_DAY in
  let rem := Z.rem t SECS_PER_DAY in
  let rem := rem + offset in
  if (rem <? LONG_MIN) || (LONG_MAX <? rem) then Fault
  else
    let fuel := S (S (Z.to_nat (Z.abs offset / SECS_PER_DAY))) in
    rem_up fuel days rem ≫= λ r : Z * Z,
    rem_down fuel r.1 r.2 ≫= λ r : Z * Z,
    let days := r.1 in
    let rem := r.2 in
    let hour := Z.quot rem SECS_PER_HOUR in
    let rem := Z.rem rem SECS_PER_HOUR in
    let min := Z.quot rem 60 in
    let sec := Z.rem rem 60 in
    let wday := Z.rem (4 + days) 7 in
    let wday := if wday <? 0 then wday + 7 else wday in
    year_loop YEAR_FUEL 1970 days ≫= λ r : Z * Z,
    let y := r.1 in
    let days := r.2 in
    let year := wraps 32 (y - 1900) in
    if negb (year =? y - 1900) then Val (inr EOVERFLOW)
    else
      let yday := days in
      let ip := mon_yday (isleap y) in
      mon ← month_loop 11 ip days;
      m ← deref (ip !! mon);
      Val (inl (Tm sec min hour (days - m + 1) (Z.of_nat mon) year wday yday isdst)).

(** [__tz_convert (timer, 0, tp)] when no time zone file is in use: the first
    call of [__offtime] gives the year for [__tz_compute], which for UTC only
    updates the rules of the local zone, and the second one is the result. *)
Definition tz_convert_utc (timer isdst0 : Z) : outcome (tm + Z) :=
  r ← offtime timer 0 isdst0;
  match r with
  | inr e => Val (inr e)
  | inl tp =>
      let leap_correction := 0 in
      let gmtoff := 0 in
      offtime timer (gmtoff - leap_correction) 0
  end.

(** [__gmtime64_r]; the old [tm_isdst] of the result object is irrelevant. *)
Definition gmtime_r (t : Z) : outcome (tm + Z) := tz_convert_utc t 0.

(** ** [mktime.c] *)

(** [a >> b] on [long_int]. *)
Definition shr (a b : Z) : Z := Z.shiftr a b.

Definition mktime_min : Z := LONG_MIN.
Definition mktime_max : Z := LONG_MAX.
Definition EPOCH_YEAR : Z := 1970.
Definition TM_YEAR_BASE : Z := 1900.

(** Is [year + TM_YEAR_BASE] a leap year? *)
Definition leapyear (year : Z) : bool :=
  (Z.land year 3 =? 0)
  && (negb (Z.rem year 100 =? 0)
      || (Z.land (Z.quot year 100) 3 =? Z.land (- Z.quot TM_YEAR_BASE 100) 3)).

Definition isdst_differ (a b : Z) : bool :=
  negb (Bool.eqb (a =? 0) (b =? 0)) && (0 <=? a) && (0 <=? b).

(** [(a + (a < 0)) / 25 - (a < 0)]. *)
Definition div25 (a : Z) : Z :=
  let neg := if a <? 0 then 1 else 0 in Z.quot (a + neg) 25 - neg.

(** The leap days before the year, up to a constant: [a4], [a100] and
    [a400], which are of type [int]. *)
Definition leap4 (year : Z) : Z :=
  wraps 32 (shr year 2 + shr TM_YEAR_BASE 2 - (if Z.land year 3 =? 0 then 1 else 0)).

Definition ydhms_diff (year1 yday1 hour1 min1 sec1 year0 yday0 hour0 min0 sec0 : Z) : Z :=
  let a4 := leap4 year1 in
  let b4 := leap4 year0 in
  let a100 := div25 a4 in
  let b100 := div25 b4 in
  let a400 := shr a100 2 in
  let b400 := shr b100 2 in
  let intervening_leap_days := (a4 - b4) - (a100 - b100) + (a400 - b400) in
  let years := year1 - year0 in
  let days := 365 * years + yday1 - yday0 + intervening_leap_days in
  let hours := 24 * days + hour1 - hour0 in
  let minutes := 60 * hours + min1 - min0 in
  60 * minutes + sec1 - sec0.

Definition tm_diff (year yday hour min sec : Z) (tp : tm) : Z :=
  ydhms_diff year yday hour min sec (tm_year tp) (tm_yday tp) (tm_hour tp) (tm_min tp) (tm_sec tp).

Definition long_int_avg (a b : Z) : Z := shr a 1 + shr b 1 + Z.land (Z.lor a b) 1.

Section mktime.
(** The conversion to invert: a broken down time, or [errno]. *)
Variable convert : Z → outcome (tm + Z).

(** The binary search of [ranged_convert]: [inr] is a return of [NULL]. *)
Fixpoint narrow (fuel : nat) (ok bad : Z) (oktm : option tm) : outcome (Z * option tm + Z) :=
  let mid := long_int_avg ok bad in
  if (mid =? ok) || (mid =? bad) then Val (inl (ok, oktm))
  else
    match fuel with
    | O => NoFuel
    | S fuel' =>
        r ← convert mid;
        match r with
        | inl tp => narrow fuel' mid bad (Some tp)
        | inr e => if negb (e =? EOVERFLOW) then Val (inr e) else narrow fuel' ok mid oktm
        end
    end.

(** [ranged_convert (convert, &t, tp)]: the adjusted time and its breakdown,
    or [errno]. *)
Definition ranged_convert (t : Z) : outcome (Z * tm + Z) :=
  let t1 := if t <? mktime_min then mktime_min else if t <=? mktime_max then t else mktime_max in
  r ← convert t1;
  match r with
  | inl tp => Val (inl (t1, tp))
  | inr e =>
      if negb (e =? EOVERFLOW) then Val (inr e)
      else
        r ← narrow 70 0 t1 None;
        match r with
        | inr e => Val (inr e)
        | inl (ok, Some tp) => if tm_sec tp <? 0 then Val (inr EOVERFLOW) else Val (inl (ok, tp))
        | inl (_, None) => Val (inr EOVERFLOW)
        end
  end.

(** What the probing loop ends with: a match, oscillation around a gap
    ([goto offset_found]), or a return of -1 with [errno]. *)
Inductive probe := Matched (t : Z) (tp : tm) | Gap (t : Z) (tp : tm) | Failed (e : Z).

Section fields.
Variables year yday hour min sec isdst : Z.

Fixpoint probe_loop (remaining_probes : nat) (t t1 t2 : Z) (dst2 : bool) : outcome probe :=
  ranged_convert t ≫= λ r : Z * tm + Z,
  match r with
  | inr e => Val (Failed e)
  | inl (t, tp) =>
      let dt := tm_diff year yday hour min sec tp in
      if dt =? 0 then Val (Matched t tp)
      else if (t =? t1) && negb (t =? t2)
           && ((tm_isdst tp <? 0)
               || (if isdst <? 0
                   then implb dst2 (negb (tm_isdst tp =? 0))
                   else negb (Bool.eqb (isdst =? 0) (tm_isdst tp =? 0))))
      then Val (Gap t tp)
      else
        match remaining_probes with
        | O | S O => Val (Failed EOVERFLOW)
        | S n => probe_loop n (t + dt) t2 t (negb (tm_isdst tp =? 0))
        end
  end.

Definition stride : Z := 601200.
Definition duration_max : Z := 536454000.
Definition delta_bound : Z := Z.quot duration_max 2 + stride.

(** [delta * direction] in the order of the two [for] loops. *)
Definition deltas : list Z :=
  mjoin ((λ k, [- (k * stride); k * stride]) <$> seqZ 1 ((delta_bound - 1) / stride)).

(** The search for a neighbouring time with the requested [tm_isdst]. *)
Fixpoint dst_search (ds : list Z) (t : Z) : outcome probe :=
  match ds with
  | [] => Val (Failed EOVERFLOW)
  | d :: ds' =>
      let ot := t + d in
      if (ot <? LONG_MIN) || (LONG_MAX <? ot) then dst_search ds' t
      else
        ranged_convert ot ≫= λ r : Z * tm + Z,
        match r with
        | inr e => Val (Failed e)
        | inl (ot, otm) =>
            if isdst_differ isdst (tm_isdst otm) then dst_search ds' t
            else
              let gt := ot + tm_diff year yday hour min sec otm in
              if (mktime_min <=? gt) && (gt <=? mktime_max) then
                r ← convert gt;
                match r with
                | inl tp => Val (Gap gt tp)
                | inr e => if negb (e =? EOVERFLOW) then Val (Failed e) else dst_search ds' t
                end
              else dst_search ds' t
        end
  end.
End fields.

(** What a call leaves: the value, [*tp], [*offset] and [errno] if set. *)
Record mk := Mk { mk_ret : Z; mk_tm : tm; mk_offset : Z; mk_errno : option Z }.

Definition mktime_internal (tp : tm) (offset : Z) : outcome mk :=
  let isdst := tm_isdst tp in
  let mon_remainder := Z.rem (tm_mon tp) 12 in
  let negative_mon_remainder := if mon_remainder <? 0 then 1 else 0 in
  let mon_years := Z.quot (tm_mon tp) 12 - negative_mon_remainder in
  let year := tm_year tp + mon_years in
  m ← deref (mon_yday (leapyear year) !! Z.to_nat (mon_remainder + 12 * negative_mon_remainder));
  let yday := m - 1 + tm_mday tp in
  let sec_requested := tm_sec tp in
  let sec := if sec_requested <? 0 then 0 else sec_requested in
  let sec := if 59 <? sec then 59 else sec in
  let negative_offset_guess := wraps 32 (0 - offset) in
  let t0 := ydhms_diff year yday (tm_hour tp) (tm_min tp) sec
              (EPOCH_YEAR - TM_YEAR_BASE) 0 0 0 negative_offset_guess in
  p ← probe_loop year yday (tm_hour tp) (tm_min tp) sec isdst 6 t0 t0 t0 false;
  p ← (match p with
       | Matched t tp' =>
           if isdst_differ isdst (tm_isdst tp')
           then dst_search year yday (tm_hour tp) (tm_min tp) sec isdst deltas t
           else Val (Gap t tp')
       | _ => Val p
       end);
  match p with
  | Failed e => Val (Mk (-1) tp offset (Some e))
  | Matched t tm | Gap t tm =>
      let offset' := wraps 64 (wraps 64 (t - t0) - negative_offset_guess) in
      if negb (sec_requested =? tm_sec tm) then
        let sec_adjustment :=
          (if (sec =? 0) && (tm_sec tm =? 60) then 1 else 0) - sec + sec_requested in
        let t := t + sec_adjustment in
        if negb ((mktime_min <=? t) && (t <=? mktime_max))
        then Val (Mk (-1) tp offset' (Some EOVERFLOW))
        else
          r ← convert t;
          match r with
          | inl tm => Val (Mk t tm offset' None)
          | inr e => Val (Mk (-1) tp offset' (Some e))
          end
      else Val (Mk t tm offset' None)
  end.
End mktime.

(** [timegm (tmp)], with [gmtime_offset] as the state. *)
Definition timegm (tp : tm) (gmtime_offset : Z) : outcome mk :=
  mktime_internal gmtime_r
    (Tm (tm_sec tp) (tm_min tp) (tm_hour tp) (tm_mday tp) (tm_mon tp)
        (tm_year tp) (tm_wday tp) (tm_yday tp) 0) gmtime_offset.

(** ** The Gregorian calendar *)

Ltac euclid := Z.to_euclidean_division_equations; lia.

(** Leap years up to the end of [y]. *)
Definition leaps (y : Z) : Z := y / 4 - y / 100 + y / 400.

(** Days from 1970-01-01 to the first day of the year [y]. *)
Definition days_before (y : Z) : Z := 365 * (y - 1970) + leaps (y - 1) - leaps 1969.

Definition year_len (y : Z) : Z := if isleap y then 366 else 365.

Lemma LEAPS_spec y : LEAPS_THRU_END_OF y = leaps y.
Proof.
  assert (∀ b, b = 4 ∨ b = 100 ∨ b = 400 → DIV y b = y / b) as H.
  { intros b Hb. unfold DIV. destruct Hb as [->|[->| ->]]; zcase; euclid. }
  unfold LEAPS_THRU_END_OF, leaps. rewrite !H by auto. done.
Qed.

Lemma isleap_mod y :
  isleap y = (y mod 4 =? 0) && (negb (y mod 100 =? 0) || (y mod 400 =? 0)).
Proof.
  assert (∀ b, b = 4 ∨ b = 100 ∨ b = 400 → (Z.rem y b =? 0) = (y mod b =? 0)) as H.
  { intros b Hb. destruct Hb as [->|[->| ->]]; zcase; euclid. }
  unfold isleap. by rewrite !H by auto.
Qed.

Lemma leaps_succ y : leaps y = leaps (y - 1) + (if isleap y then 1 else 0).
Proof.
  rewrite isleap_mod. unfold leaps.
  destruct (Z.eqb_spec (y mod 4) 0), (Z.eqb_spec (y mod 100) 0), (Z.eqb_spec (y mod 400) 0);
    cbn [andb orb negb]; euclid.
Qed.

Lemma leaps_diff a n : 0 <= n → -12 <= 4 * (leaps (a + n) - leaps a) <= n + 12.
Proof. intros Hn. unfold leaps. euclid. Qed.

(** ** The year loop *)

Definition in_year (y days : Z) : bool := (0 <=? days) && (days <? year_len y).

Lemma loop_test y days :
  ((days <? 0) || ((if isleap y then 366 else 365) <=? days)) = negb (in_year y days).
Proof. unfold in_year, year_len. zcase; done || lia. Qed.

(** One round: the day stays the same and the distance in years at least
    halves. *)
Lemma year_step y days :
  in_year y days = false →
  let q := days / 365 in
  let yg := y + Z.quot days 365 - (if Z.rem days 365 <? 0 then 1 else 0) in
  let days' := days - ((yg - y) * 365 + LEAPS_THRU_END_OF (yg - 1) - LEAPS_THRU_END_OF (y - 1)) in
  q ≠ 0 ∧ days_before yg + days' = days_before y + days ∧
  (in_year yg days' = true ∨ 2 * Z.abs (days' / 365) <= Z.abs q).
Proof.
  intros Hin q yg days'.
  assert (yg = y + q) as Ey by (unfold yg, q; zcase; euclid).
  assert (days' = days mod 365 - (leaps (y + q - 1) - leaps (y - 1))) as Ed.
  { unfold days'. rewrite !LEAPS_spec, Ey. unfold q. euclid. }
  assert (365 <= year_len y <= 366) as Hlen by (unfold year_len; destruct (isleap y); lia).
  assert (q ≠ 0) as Hq.
  { intros E. assert (in_year y days = true); [|congruence]. unfold in_year.
    assert (0 <= days < 365) by (unfold q in E; euclid). zcase; done || lia. }
  split; [done|]. split.
  { unfold days_before. rewrite Ey, Ed. unfold q. euclid. }
  rewrite Ey. replace (y + q - 1) with (y - 1 + q) in Ed by lia.
  assert (0 <= days mod 365 < 365) as Hm by (apply Z.mod_pos_bound; lia).
  destruct (decide (q = -1)) as [E1|N1]; [|destruct (decide (q = 1)) as [E2|N2]].
  - left. rewrite E1 in *. pose proof (leaps_succ (y - 1)) as Hl. unfold in_year, year_len.
    replace (y - 1 + -1) with (y - 1 - 1) in Ed by lia. replace (y + -1) with (y - 1) by lia.
    destruct (isleap (y - 1)); zcase; done || lia.
  - left. rewrite E2 in *. pose proof (leaps_succ y) as Hl. unfold in_year, year_len in *.
    replace (y - 1 + 1) with y in Ed by lia. assert (days = 365 + days mod 365) by (unfold q in E2; euclid).
    destruct (isleap y), (isleap (y + 1)); revert Hin; zcase; cbn; try done; lia.
  - right. destruct (decide (0 <= q)).
    + pose proof (leaps_diff (y - 1) q ltac:(lia)). euclid.
    + pose proof (leaps_diff (y - 1 + q) (- q) ltac:(lia)) as Hd.
      replace (y - 1 + q + - q) with (y - 1) in Hd by lia. euclid.
Qed.

Lemma year_loop_spec fuel y days :
  in_year y days = true ∨ Z.abs (days / 365) < 2 ^ Z.of_nat fuel →
  ∃ y' d', year_loop fuel y days = Val (y', d') ∧
    days_before y' + d' = days_before y + days ∧ in_year y' d' = true.
Proof.
  revert y days; induction fuel as [|fuel IH]; intros y days H; cbn [year_loop]; rewrite loop_test.
  - destruct (in_year y days) eqn:E; cbn [negb]; [by exists y, days|].
    destruct H as [|H]; [done|]. destruct (year_step y days E) as [Hq _]. cbn in H. lia.
  - destruct (in_year y days) eqn:E; cbn [negb]; [by exists y, days|].
    destruct H as [|H]; [done|]. destruct (year_step y days E) as (Hq & Eb & Hor). cbv zeta.
    edestruct IH as (y' & d' & E' & Eb' & Hin); [|exists y', d'; split; [exact E'|]; split; [congruence|done]].
    destruct Hor as [Hor|Hor]; [by left|]. right.
    rewrite Nat2Z.inj_succ, Z.pow_succ_r in H by lia. lia.
Qed.

(** ** The month loop *)

(** The month of a day of the year, by running over all of them. *)
Definition month_ok (leap : bool) (d : Z) : bool :=
  match month_loop 11 (mon_yday leap) d with
  | Val m => (m <? 12)%nat
             && match mon_yday leap !! m, mon_yday leap !! S m with
                | Some a, Some b => (a <=? d) && (d <? b)
                | _, _ => false
                end
  | _ => false
  end.

Lemma month_loop_spec (leap : bool) d :
  0 <= d < (if leap then 366 else 365) →
  ∃ m a b, month_loop 11 (mon_yday leap) d = Val m ∧ (m < 12)%nat ∧
    mon_yday leap !! m = Some a ∧ mon_yday leap !! S m = Some b ∧ a <= d < b.
Proof.
  intros Hd. assert (month_ok leap d = true) as H.
  { assert (forallb (month_ok leap) (seqZ 0 (if leap then 366 else 365)) = true) as H
      by (destruct leap; by vm_compute).
    rewrite forallb_forall in H. apply H, list_elem_of_In, elem_of_seqZ. lia. }
  unfold month_ok in H. destruct (month_loop 11 (mon_yday leap) d) as [m| |]; [|done..].
  destruct (mon_yday leap !! m) as [a|] eqn:Ea, (mon_yday leap !! S m) as [b|] eqn:Eb;
    rewrite ?andb_false_r in H; [|done..].
  exists m, a, b. rewrite !andb_true_iff, Nat.ltb_lt in H. split_and!; [done|lia|done|done|lia|lia].
Qed.

(** ** [__offtime] *)

Lemma rem_up_spec fuel days rem :
  - (86400 * Z.of_nat fuel) <= rem →
  ∃ d r, rem_up fuel days rem = Val (d, r) ∧ d * 86400 + r = days * 86400 + rem ∧
    0 <= r ∧ r < Z.max 86400 (rem + 1).
Proof.
  revert days rem; induction fuel as [|fuel IH]; intros days rem H; cbn [rem_up];
    (destruct (Z.ltb_spec rem 0); [|exists days, rem; split; [done|]; lia]); [lia|].
  change SECS_PER_DAY with 86400.
  destruct (IH (days - 1) (rem + 86400)) as (d & r & -> & E & Hr); [lia|].
  exists d, r. split; [done|]. lia.
Qed.

Lemma rem_down_spec fuel days rem :
  0 <= rem < 86400 * (Z.of_nat fuel + 1) →
  ∃ d r, rem_down fuel days rem = Val (d, r) ∧ d * 86400 + r = days * 86400 + rem ∧ 0 <= r < 86400.
Proof.
  revert days rem; induction fuel as [|fuel IH]; intros days rem H; cbn [rem_down];
    change SECS_PER_DAY with 86400;
    (destruct (Z.leb_spec 86400 rem); [|exists days, rem; split; [done|]; lia]); [lia|].
  destruct (IH (days + 1) (rem - 86400)) as (d & r & -> & E & Hr); [lia|].
  exists d, r. split; [done|]. lia.
Qed.

(** [tp] is the broken down time of second [n] after the epoch. *)
Record broken_down (n : Z) (tp : tm) : Prop := {
  bd_sec : 0 <= tm_sec tp < 60;
  bd_min : 0 <= tm_min tp < 60;
  bd_hour : 0 <= tm_hour tp < 24;
  bd_yday : 0 <= tm_yday tp < year_len (tm_year tp + 1900);
  bd_mon : 0 <= tm_mon tp < 12;
  bd_mday : ∃ a b, mon_yday (isleap (tm_year tp + 1900)) !! Z.to_nat (tm_mon tp) = Some a ∧
              mon_yday (isleap (tm_year tp + 1900)) !! S (Z.to_nat (tm_mon tp)) = Some b ∧
              tm_yday tp = a + tm_mday tp - 1 ∧ 1 <= tm_mday tp <= b - a;
  bd_wday : tm_wday tp = (4 + n / 86400) mod 7;
  bd_total : (((days_before (tm_year tp + 1900) + tm_yday tp) * 24 + tm_hour tp) * 60
              + tm_min tp) * 60 + tm_sec tp = n
}.

Definition int_ok (x : Z) : Prop := INT_MIN <= x <= INT_MAX.
#[export] Instance int_ok_dec x : Decision (int_ok x).
Proof. unfold int_ok. apply _. Defined.

Lemma wraps32_test x : (wraps 32 x =? x) = bool_decide (int_ok x).
Proof.
  unfold int_ok, INT_MIN, INT_MAX. pose proof (wraps_bound 32 x ltac:(lia)) as Hb.
  change (2 ^ (32 - 1)) with 2147483648 in Hb.
  case_bool_decide as H.
  - rewrite wraps_small by (change (2 ^ (32 - 1)) with 2147483648; lia). apply Z.eqb_refl.
  - apply Z.eqb_neq. lia.
Qed.

Lemma offtime_spec t offset isdst :
  LONG_MIN <= t <= LONG_MAX → - 2 ^ 62 <= offset <= 2 ^ 62 →
  ∃ y d, days_before y + d = (t + offset) / 86400 ∧ in_year y d = true ∧
    if bool_decide (int_ok (y - 1900)) then
      ∃ tp, offtime t offset isdst = Val (inl tp) ∧ broken_down (t + offset) tp ∧
            tm_isdst tp = isdst ∧ tm_year tp = y - 1900
    else offtime t offset isdst = Val (inr EOVERFLOW).
Proof.
  intros Ht Ho. unfold LONG_MIN, LONG_MAX in Ht. change (2 ^ 62) with 4611686018427387904 in Ho.
  unfold offtime. change SECS_PER_DAY with 86400. change SECS_PER_HOUR with 3600. cbv zeta.
  set (rem := Z.rem t 86400 + offset). set (days := Z.quot t 86400).
  assert (days * 86400 + rem = t + offset ∧ -86400 < Z.rem t 86400 < 86400) as [Et Hr].
  { unfold days, rem. euclid. }
  set (fuel := S (S (Z.to_nat (Z.abs offset / 86400)))).
  assert (Z.abs offset + 86400 < 86400 * Z.of_nat fuel) as Hf by (unfold fuel; euclid).
  clearbody fuel.
  assert (∃ yf, YEAR_FUEL = yf ∧ 2 ^ Z.of_nat yf = 18446744073709551616) as (yf & -> & Hyf)
    by by exists YEAR_FUEL.
  assert (((rem <? LONG_MIN) || (LONG_MAX <? rem)) = false) as ->
    by (unfold LONG_MIN, LONG_MAX; lia).
  destruct (rem_up_spec fuel days rem) as (d1 & r1 & -> & E1 & B1); [lia|]. cbn [mbind outcome_bind fst snd].
  destruct (rem_down_spec fuel d1 r1) as (d2 & r2 & -> & E2 & B2); [lia|]. cbn [mbind outcome_bind fst snd].
  assert (d2 = (t + offset) / 86400 ∧ r2 = (t + offset) mod 86400) as [Ed Er] by euclid.
  destruct (year_loop_spec yf 1970 d2) as (y & d & -> & Eb & Hin).
  { right. rewrite Hyf. euclid. }
  cbn [mbind outcome_bind fst snd]. exists y, d. change (days_before 1970) with 0 in Eb.
  split; [lia|]. split; [done|]. rewrite wraps32_test.
  destruct (bool_decide (int_ok (y - 1900))) eqn:Ey; cbn [negb]; [|done].
  assert (wraps 32 (y - 1900) = y - 1900) as -> by (apply Z.eqb_eq; by rewrite wraps32_test).
  assert (0 <= d < year_len y) as Hd.
  { unfold in_year in Hin. lia. }
  destruct (month_loop_spec (isleap y) d Hd) as (m & a & b & -> & Hm & Ea & Eb' & Hab).
  cbn [mbind outcome_bind]. rewrite Ea. cbn [deref mbind outcome_bind].
  eexists. split; [done|]. split; [|done].
  split; cbn [tm_sec tm_min tm_hour tm_yday tm_mon tm_mday tm_wday tm_year];
    replace (y - 1900 + 1900) with y by lia.
  - euclid.
  - euclid.
  - euclid.
  - done.
  - lia.
  - exists a, b. rewrite Nat2Z.id. split_and!; [done|done|lia|lia|lia].
  - rewrite <- Ed. zcase; euclid.
  - euclid.
Qed.

(** ** [ydhms_diff] *)

Lemma div25_spec a : div25 a = a / 25.
Proof. unfold div25. zcase; euclid. Qed.

(** The leap days that [ydhms_diff] counts. *)
Lemma leap4_spec year :
  - 2 ^ 32 < year < 2 ^ 32 →
  let a4 := leap4 year in a4 - div25 a4 + shr (div25 a4) 2 = leaps (year + 1899).
Proof.
  intros Hy. change (2 ^ 32) with 4294967296 in Hy. cbv zeta. rewrite div25_spec.
  assert (leap4 year = (year + 1899) / 4) as ->.
  { unfold leap4, shr. rewrite !Z.shiftr_div_pow2 by lia. change (2 ^ 2) with 4.
    change 3 with (Z.ones 2). rewrite Z.land_ones by lia. change (2 ^ 2) with 4.
    change (TM_YEAR_BASE / 4) with 475.
    rewrite wraps_small; [zcase; euclid|lia|change (2 ^ (32 - 1)) with 2147483648; zcase; euclid]. }
  unfold shr, leaps. rewrite Z.shiftr_div_pow2 by lia. change (2 ^ 2) with 4.
  rewrite !Z.div_div by lia. change (4 * 25) with 100. change (100 * 4) with 400. lia.
Qed.

(** Seconds from the epoch to the given day of the given year (counted from
    1900) and time of day, fields in any range. *)
Definition epoch_seconds (year yday hour min sec : Z) : Z :=
  (((days_before (year + 1900) + yday) * 24 + hour) * 60 + min) * 60 + sec.

Lemma ydhms_diff_spec y1 d1 h1 m1 s1 y0 d0 h0 m0 s0 :
  - 2 ^ 32 < y1 < 2 ^ 32 → - 2 ^ 32 < y0 < 2 ^ 32 →
  ydhms_diff y1 d1 h1 m1 s1 y0 d0 h0 m0 s0
  = epoch_seconds y1 d1 h1 m1 s1 - epoch_seconds y0 d0 h0 m0 s0.
Proof.
  intros H1 H0. unfold ydhms_diff, epoch_seconds, days_before. cbv zeta.
  pose proof (leap4_spec y1 H1) as E1. pose proof (leap4_spec y0 H0) as E0. cbv zeta in *.
  replace (y1 + 1900 - 1) with (y1 + 1899) by lia. replace (y0 + 1900 - 1) with (y0 + 1899) by lia.
  lia.
Qed.

Lemma broken_down_seconds n tp :
  broken_down n tp →
  epoch_seconds (tm_year tp) (tm_yday tp) (tm_hour tp) (tm_min tp) (tm_sec tp) = n.
Proof. intros H. apply (bd_total _ _ H). Qed.

(** ** [timegm] *)

Lemma leapyear_spec year : leapyear year = isleap (year + 1900).
Proof.
  rewrite isleap_mod. unfold leapyear. change (Z.land (- Z.quot TM_YEAR_BASE 100) 3) with 1.
  change 3 with (Z.ones 2). rewrite !Z.land_ones by lia. change (2 ^ 2) with 4.
  destruct (Z.eqb_spec (year mod 4) 0), (Z.eqb_spec (Z.rem year 100) 0),
    (Z.eqb_spec (Z.quot year 100 mod 4) 1), (Z.eqb_spec ((year + 1900) mod 4) 0),
    (Z.eqb_spec ((year + 1900) mod 100) 0), (Z.eqb_spec ((year + 1900) mod 400) 0);
    cbn [andb orb negb]; try done; exfalso; euclid.
Qed.

Lemma leaps_bound y : - Z.abs y - 3 <= leaps y <= Z.abs y + 3.
Proof. unfold leaps. euclid. Qed.

(** With [int] fields the seconds are far from the ends of [long]. *)
Lemma epoch_seconds_range year yday hour min sec :
  - 2 ^ 32 < year < 2 ^ 32 → - 2 ^ 32 < yday < 2 ^ 32 →
  int_ok hour → int_ok min → int_ok sec →
  - 2 ^ 58 < epoch_seconds year yday hour min sec < 2 ^ 58.
Proof.
  unfold int_ok, INT_MIN, INT_MAX, epoch_seconds, days_before.
  change (2 ^ 32) with 4294967296. change (2 ^ 58) with 288230376151711744.
  pose proof (leaps_bound (year + 1900 - 1)). change (leaps 1969) with 477. lia.
Qed.

Lemma gmtime_r_offtime t : gmtime_r t = offtime t 0 0.
Proof.
  unfold gmtime_r, tz_convert_utc. change (0 - 0) with 0.
  by destruct (offtime t 0 0) as [[]| |].
Qed.

Lemma gmtime_r_spec t tp :
  LONG_MIN <= t <= LONG_MAX → gmtime_r t = Val (inl tp) →
  broken_down t tp ∧ tm_isdst tp = 0 ∧ int_ok (tm_year tp).
Proof.
  intros Ht E. destruct (offtime_spec t 0 0 Ht) as (y & d & _ & _ & H); [lia|].
  rewrite gmtime_r_offtime in E. rewrite E, Z.add_0_r in H.
  case_bool_decide as Hy; [|done]. destruct H as (tp' & [= <-] & Hb & Hi & Ey). by rewrite Ey.
Qed.

(** The requested fields with the month brought into its year. *)
Definition req_year (tp : tm) : Z := tm_year tp + tm_mon tp / 12.
Definition req_yday (tp : tm) : Z :=
  nth (Z.to_nat (tm_mon tp mod 12)) (mon_yday (isleap (req_year tp + 1900))) 0 + tm_mday tp - 1.
Definition req_seconds (tp : tm) (sec : Z) : Z :=
  epoch_seconds (req_year tp) (req_yday tp) (tm_hour tp) (tm_min tp) sec.

Record int_fields (tp : tm) : Prop := {
  if_sec : int_ok (tm_sec tp); if_min : int_ok (tm_min tp); if_hour : int_ok (tm_hour tp);
  if_mday : int_ok (tm_mday tp); if_mon : int_ok (tm_mon tp); if_year : int_ok (tm_year tp)
}.

Lemma req_range tp sec :
  int_fields tp → int_ok sec →
  - 2 ^ 32 < req_year tp < 2 ^ 32 ∧ - 2 ^ 58 < req_seconds tp sec < 2 ^ 58.
Proof.
  intros [Hs Hmi Hh Hd Hm Hy] Hsec.
  assert (- 2 ^ 32 < req_year tp < 2 ^ 32) as Hry.
  { unfold req_year, int_ok, INT_MIN, INT_MAX in *. change (2 ^ 32) with 4294967296. euclid. }
  split; [done|]. apply epoch_seconds_range; try done. unfold req_yday.
  set (i := Z.to_nat (tm_mon tp mod 12)). set (l := mon_yday _).
  assert (0 <= nth i l 0 <= 366) as Hn.
  { assert (Forall (λ x, 0 <= x <= 366) l) as Hl
      by (unfold l, mon_yday; destruct (isleap _); apply (bool_decide_unpack _); by vm_compute).
    destruct (nth_in_or_default i l 0) as [Hin| ->]; [|lia].
    exact (proj1 (Forall_forall _ _) Hl _ (proj2 (list_elem_of_In _ _) Hin)). }
  unfold int_ok, INT_MIN, INT_MAX in *. change (2 ^ 32) with 4294967296. lia.
Qed.

(** The month, year and day the code computes. *)
Lemma month_fields tp :
  Z.quot (tm_mon tp) 12 - (if Z.rem (tm_mon tp) 12 <? 0 then 1 else 0) = tm_mon tp / 12 ∧
  Z.rem (tm_mon tp) 12 + 12 * (if Z.rem (tm_mon tp) 12 <? 0 then 1 else 0) = tm_mon tp mod 12.
Proof. zcase; euclid. Qed.

Lemma month_lookup leap k :
  0 <= k < 12 → mon_yday leap !! Z.to_nat k = Some (nth (Z.to_nat k) (mon_yday leap) 0).
Proof.
  intros Hk. destruct (lookup_lt_is_Some_2 (mon_yday leap) (Z.to_nat k)) as [x Hx].
  - assert (length (mon_yday leap) = 13%nat) as -> by by destruct leap. lia.
  - by rewrite (nth_lookup_Some _ _ 0 x Hx).
Qed.

(** The first probe matches when its time can be broken down. *)
Lemma probe_exact n year yday hour min sec t tp :
  - 2 ^ 32 < year < 2 ^ 32 → LONG_MIN <= t <= LONG_MAX →
  t = epoch_seconds year yday hour min sec → gmtime_r t = Val (inl tp) →
  probe_loop gmtime_r year yday hour min sec 0 n t t t false = Val (Matched t tp).
Proof.
  intros Hy Ht Et E. destruct (gmtime_r_spec t tp Ht E) as (Hb & _ & Hty).
  assert (ranged_convert gmtime_r t = Val (inl (t, tp))) as Er.
  { unfold ranged_convert, mktime_min, mktime_max.
    destruct (Z.ltb_spec t LONG_MIN); [lia|]. destruct (Z.leb_spec t LONG_MAX); [|lia]. by rewrite E. }
  assert (tm_diff year yday hour min sec tp = 0) as Ed.
  { unfold tm_diff. rewrite ydhms_diff_spec, (broken_down_seconds t tp Hb), <- Et; [lia|done|].
    unfold int_ok, INT_MIN, INT_MAX in Hty. change (2 ^ 32) with 4294967296. lia. }
  destruct n; cbn [probe_loop]; rewrite Er; cbn [mbind outcome_bind]; by rewrite Ed.
Qed.

(** Seconds brought into a minute. *)
Definition clamp_sec (s : Z) : Z := Z.max 0 (Z.min 59 s).

Lemma clamp_spec s :
  (if 59 <? (if s <? 0 then 0 else s) then 59 else if s <? 0 then 0 else s) = clamp_sec s.
Proof.
  unfold clamp_sec. destruct (Z.ltb_spec s 0); [change (59 <? 0) with false; cbv iota; lia|].
  destruct (Z.ltb_spec 59 s); lia.
Qed.

(** ** Times that cannot be converted *)

Lemma long_int_avg_spec a b : a + b <= 2 * long_int_avg a b <= a + b + 1.
Proof.
  unfold long_int_avg, shr. rewrite !Z.shiftr_div_pow2 by lia. change (2 ^ 1) with 2.
  replace (Z.land (Z.lor a b) 1) with (Z.lor (a mod 2) (b mod 2)).
  - destruct (Z.mod_pos_bound a 2), (Z.mod_pos_bound b 2); try lia.
    assert (a mod 2 = 0 ∨ a mod 2 = 1) as [Ea|Ea] by lia;
    assert (b mod 2 = 0 ∨ b mod 2 = 1) as [Eb|Eb] by lia; rewrite Ea, Eb;
      pose proof (Z_div_mod_eq_full a 2); pose proof (Z_div_mod_eq_full b 2); 
      rewrite ?Z.lor_0_l, ?Z.lor_0_r, ?Z.lor_diag; lia.
  - change 1 with (Z.ones 1). rewrite Z.land_lor_distr_l, !Z.land_ones by lia. done.
Qed.

Section ranged.
Context (convert : Z → outcome (tm + Z)).
Hypothesis convert_total : ∀ t, LONG_MIN <= t <= LONG_MAX →
  (∃ tp, convert t = Val (inl tp)) ∨ convert t = Val (inr EOVERFLOW).

(** The binary search ends, at its start or at a time that converts. *)
Lemma narrow_spec n ok bad oktm :
  LONG_MIN <= ok <= LONG_MAX → LONG_MIN <= bad <= LONG_MAX → Z.abs (bad - ok) <= 2 ^ Z.of_nat n →
  ∃ ok' oktm', narrow convert n ok bad oktm = Val (inl (ok', oktm')) ∧
    LONG_MIN <= ok' <= LONG_MAX ∧
    ((ok', oktm') = (ok, oktm) ∨ ∃ tp, oktm' = Some tp ∧ convert ok' = Val (inl tp)).
Proof.
  revert ok bad oktm. induction n as [|n IH]; intros ok bad oktm Hok Hbad Hd;
    cbn [narrow]; cbv zeta; pose proof (long_int_avg_spec ok bad) as Ha;
    set (mid := long_int_avg ok bad) in *.
  - change (2 ^ Z.of_nat 0) with 1 in Hd.
    assert (((mid =? ok) || (mid =? bad)) = true) as -> by lia. by eauto 7.
  - destruct ((mid =? ok) || (mid =? bad)) eqn:E; [by eauto 7|].
    replace (2 ^ Z.of_nat (S n)) with (2 * 2 ^ Z.of_nat n) in Hd
      by (rewrite Nat2Z.inj_succ, Z.pow_succ_r by lia; lia).
    assert (LONG_MIN <= mid <= LONG_MAX) as Hm by lia.
    destruct (convert_total mid Hm) as [[tp Ec]|Ec]; rewrite Ec; cbn [mbind outcome_bind].
    + destruct (IH mid bad (Some tp)) as (ok' & oktm' & -> & Hr & H); [lia..|].
      exists ok', oktm'. split; [done|]. split; [done|]. right. destruct H as [[= -> ->]|]; eauto.
    + destruct (IH ok mid oktm) as (ok' & oktm' & -> & Hr & H); [lia..|]. by eauto 7.
Qed.

Lemma ranged_convert_out t :
  LONG_MIN <= t <= LONG_MAX → convert t = Val (inr EOVERFLOW) →
  ranged_convert convert t = Val (inr EOVERFLOW) ∨
  ∃ ok tp, ranged_convert convert t = Val (inl (ok, tp)) ∧ convert ok = Val (inl tp) ∧
           LONG_MIN <= ok <= LONG_MAX.
Proof.
  intros Ht E. unfold ranged_convert, mktime_min, mktime_max. cbv zeta.
  destruct (Z.ltb_spec t LONG_MIN); [lia|]. destruct (Z.leb_spec t LONG_MAX); [|lia].
  rewrite E. cbn [mbind outcome_bind]. rewrite Z.eqb_refl. cbn [negb].
  destruct (narrow_spec 70 0 t None) as (ok & oktm & -> & Hr & Hn);
    [unfold LONG_MIN, LONG_MAX in *; change (2 ^ Z.of_nat 70) with 1180591620717411303424; lia..|].
  cbn [mbind outcome_bind]. destruct oktm as [tp|]; [|by left].
  destruct Hn as [?|(tp' & [= <-] & Ec)]; [done|]. destruct (_ <? 0); eauto 7.
Qed.
End ranged.

Lemma gmtime_r_total t :
  LONG_MIN <= t <= LONG_MAX →
  (∃ tp, gmtime_r t = Val (inl tp)) ∨ gmtime_r t = Val (inr EOVERFLOW).
Proof.
  intros Ht. rewrite gmtime_r_offtime.
  destruct (offtime_spec t 0 0 Ht) as (y & d & _ & _ & H); [lia|].
  case_bool_decide; [destruct H as (tp & H & _); eauto|by right].
Qed.

(** All the probes of a time that cannot be converted land on one other time. *)
Lemma probe_out year yday hour min sec t :
  - 2 ^ 32 < year < 2 ^ 32 → LONG_MIN <= t <= LONG_MAX →
  t = epoch_seconds year yday hour min sec → gmtime_r t = Val (inr EOVERFLOW) →
  probe_loop gmtime_r year yday hour min sec 0 6 t t t false = Val (Failed EOVERFLOW).
Proof.
  intros Hy Ht Et E.
  destruct (ranged_convert_out gmtime_r gmtime_r_total t Ht E) as [Er|(ok & tp & Er & Ec & Hok)].
  { cbn [probe_loop]. by rewrite Er. }
  destruct (gmtime_r_spec ok tp Hok Ec) as (Hb & _ & Hty).
  assert (tm_diff year yday hour min sec tp = t - ok) as Ed.
  { unfold tm_diff. rewrite ydhms_diff_spec, (broken_down_seconds ok tp Hb), <- Et; [done..|].
    unfold int_ok, INT_MIN, INT_MAX in Hty. change (2 ^ 32) with 4294967296. lia. }
  assert (ok ≠ t) as Hne by (intros ->; by rewrite E in Ec).
  assert (∀ n a b dst, (a = t ∨ b = ok) →
    probe_loop gmtime_r year yday hour min sec 0 n t a b dst = Val (Failed EOVERFLOW)) as Hp;
    [|by apply Hp; left].
  intros n. induction n as [|n IH]; intros a b dst Hab; cbn [probe_loop]; rewrite Er;
    cbn [mbind outcome_bind]; rewrite Ed; replace (t - ok =? 0) with false by lia;
    replace ((ok =? a) && negb (ok =? b)) with false by (destruct Hab as [-> | ->]; lia);
    cbn [andb]; [done|].
  destruct n; [done|]. replace (ok + (t - ok)) with t by lia. apply IH. by right.
Qed.

(** ** [timegm] on every request *)

Lemma clamp_int s : int_ok (clamp_sec s).
Proof. unfold int_ok, INT_MIN, INT_MAX, clamp_sec. lia. Qed.

Lemma req_long tp sec :
  int_fields tp → int_ok sec → LONG_MIN <= req_seconds tp sec <= LONG_MAX.
Proof.
  intros Hf Hs. destruct (req_range tp sec Hf Hs) as [_ H].
  change (2 ^ 58) with 288230376151711744 in H. unfold LONG_MIN, LONG_MAX. lia.
Qed.

(** The object passed to [__mktime_internal]. *)
Definition std_tm (tp : tm) : tm :=
  Tm (tm_sec tp) (tm_min tp) (tm_hour tp) (tm_mday tp) (tm_mon tp)
     (tm_year tp) (tm_wday tp) (tm_yday tp) 0.

(** [__mktime_internal] after its probes, in terms of the requested fields,
    with no offset known. *)
Definition after_probe (convert : Z → outcome (tm + Z)) (tp : tm) (p : outcome probe) : outcome mk :=
  let sec := clamp_sec (tm_sec tp) in
  let t0 := req_seconds tp sec in
  p ← p;
  p ← (match p with
       | Matched t tp' =>
           if isdst_differ (tm_isdst tp) (tm_isdst tp')
           then dst_search convert (req_year tp) (req_yday tp) (tm_hour tp) (tm_min tp) sec
                  (tm_isdst tp) deltas t
           else Val (Gap t tp')
       | _ => Val p
       end);
  match p with
  | Failed e => Val (Mk (-1) tp 0 (Some e))
  | Matched t tm | Gap t tm =>
      let offset' := wraps 64 (wraps 64 (t - t0) - 0) in
      if negb (tm_sec tp =? tm_sec tm) then
        let t := t + ((if (sec =? 0) && (tm_sec tm =? 60) then 1 else 0) - sec + tm_sec tp) in
        if negb ((mktime_min <=? t) && (t <=? mktime_max))
        then Val (Mk (-1) tp offset' (Some EOVERFLOW))
        else
          r ← convert t;
          match r with
          | inl tm => Val (Mk t tm offset' None)
          | inr e => Val (Mk (-1) tp offset' (Some e))
          end
      else Val (Mk t tm offset' None)
  end.

Lemma mktime_probes convert tp :
  int_fields tp →
  let sec := clamp_sec (tm_sec tp) in let t0 := req_seconds tp sec in
  mktime_internal convert tp 0 = after_probe convert tp
    (probe_loop convert (req_year tp) (req_yday tp) (tm_hour tp) (tm_min tp) sec (tm_isdst tp)
       6 t0 t0 t0 false).
Proof.
  intros Hf sc t0. destruct (req_range tp sc Hf (clamp_int _)) as [Hy _].
  assert (ydhms_diff (req_year tp) (req_yday tp) (tm_hour tp) (tm_min tp) sc
    (EPOCH_YEAR - TM_YEAR_BASE) 0 0 0 0 = t0) as Et0.
  { rewrite ydhms_diff_spec by done.
    change (epoch_seconds (EPOCH_YEAR - TM_YEAR_BASE) 0 0 0 0) with 0. unfold t0, req_seconds. lia. }
  unfold mktime_internal, after_probe. generalize deltas. intros ds. cbv zeta. fold sc. fold t0.
  clearbody t0.
  destruct (month_fields tp) as [E1 E2]. rewrite E1, E2. fold (req_year tp).
  rewrite leapyear_spec, month_lookup by (apply Z.mod_pos_bound; lia).
  cbn [deref mbind outcome_bind]. rewrite clamp_spec. fold sc.
  replace (wraps 32 (0 - 0)) with 0 by done.
  set (a := nth (Z.to_nat (tm_mon tp mod 12)) (mon_yday (isleap (req_year tp + 1900))) 0).
  replace (a - 1 + tm_mday tp) with (req_yday tp) by (unfold req_yday; fold a; lia).
  rewrite Et0. reflexivity.
Qed.

Lemma timegm_probes tp :
  int_fields tp →
  let sec := clamp_sec (tm_sec tp) in let t0 := req_seconds tp sec in
  timegm tp 0 = after_probe gmtime_r (std_tm tp)
    (probe_loop gmtime_r (req_year tp) (req_yday tp) (tm_hour tp) (tm_min tp) sec 0 6 t0 t0 t0 false).
Proof. intros Hf. apply (mktime_probes gmtime_r (std_tm tp)). by destruct Hf. Qed.

Lemma timegm_out tp :
  int_fields tp → gmtime_r (req_seconds tp (clamp_sec (tm_sec tp))) = Val (inr EOVERFLOW) →
  timegm tp 0 = Val (Mk (-1) (std_tm tp) 0 (Some EOVERFLOW)).
Proof.
  intros Hf E. rewrite timegm_probes by done. cbv zeta.
  rewrite probe_out; [done| |apply req_long; [done|apply clamp_int]|done..].
  apply (req_range tp (clamp_sec (tm_sec tp)) Hf (clamp_int _)).
Qed.

Lemma timegm_converts tp tp0 :
  int_fields tp →
  gmtime_r (req_seconds tp (clamp_sec (tm_sec tp))) = Val (inl tp0) →
  timegm tp 0 =
    match gmtime_r (req_seconds tp (tm_sec tp)) with
    | Val (inl tpT) => Val (Mk (req_seconds tp (tm_sec tp)) tpT 0 None)
    | _ => Val (Mk (-1) (std_tm tp) 0 (Some EOVERFLOW))
    end.
Proof.
  intros Hf E0. rewrite timegm_probes by done. cbv zeta.
  pose proof (req_long tp _ Hf (clamp_int (tm_sec tp))) as H0.
  pose proof (req_long tp _ Hf (if_sec _ Hf)) as HT.
  rewrite (probe_exact 6 _ _ _ _ _ (req_seconds tp (clamp_sec (tm_sec tp))) tp0);
    [|apply (req_range tp _ Hf (clamp_int (tm_sec tp)))|done..].
  destruct (gmtime_r_spec _ tp0 H0 E0) as (Hb & Hdst & _). pose proof (bd_sec _ _ Hb) as Hs0.
  assert (0 <= clamp_sec (tm_sec tp) <= 59 ∧ (0 <= tm_sec tp <= 59 → clamp_sec (tm_sec tp) = tm_sec tp))
    as [Hsc Hin] by (unfold clamp_sec; lia).
  assert (req_seconds tp (tm_sec tp) =
    req_seconds tp (clamp_sec (tm_sec tp)) + (0 - clamp_sec (tm_sec tp) + tm_sec tp)) as ER
    by (unfold req_seconds, epoch_seconds; lia).
  unfold after_probe. cbn [mbind outcome_bind std_tm tm_isdst tm_sec]. cbv zeta. rewrite Hdst. change (isdst_differ 0 0) with false.
  cbv iota. cbn [mbind outcome_bind]. rewrite Z.sub_diag. change (wraps 64 (wraps 64 0 - 0)) with 0.
  destruct (Z.eqb_spec (tm_sec tp) (tm_sec tp0)) as [Es|Es]; cbn [negb].
  - replace (req_seconds tp (tm_sec tp)) with (req_seconds tp (clamp_sec (tm_sec tp)))
      by (by rewrite Hin by lia). by rewrite E0.
  - replace ((clamp_sec (tm_sec tp) =? 0) && (tm_sec tp0 =? 60)) with false by lia.
    rewrite <- ER. replace ((mktime_min <=? _) && _) with true by (unfold mktime_min, mktime_max; lia).
    cbn [negb]. destruct (gmtime_r_total _ HT) as [[tpT ET]|ET]; by rewrite ET.
Qed.

(** ** Uniqueness of the date *)

Lemma days_before_lt y y' : y < y' → days_before y + year_len y <= days_before y'.
Proof.
  intros H. unfold days_before, year_len.
  destruct (decide (y' = y + 1)) as [->|Hne].
  - pose proof (leaps_succ y) as E. replace (y + 1 - 1) with y by lia. destruct (isleap y); lia.
  - pose proof (leaps_diff (y - 1) (y' - y) ltac:(lia)) as E.
    replace (y - 1 + (y' - y)) with (y' - 1) in E by lia. destruct (isleap y); lia.
Qed.

Lemma year_unique y d y' d' :
  0 <= d < year_len y → 0 <= d' < year_len y' → days_before y + d = days_before y' + d' → y = y'.
Proof.
  intros H H' E. destruct (Z.lt_trichotomy y y') as [Hlt|[?|Hlt]]; [|done|].
  - pose proof (days_before_lt y y' Hlt). lia.
  - pose proof (days_before_lt y' y Hlt). lia.
Qed.

Lemma broken_down_day n tp :
  broken_down n tp → days_before (tm_year tp + 1900) + tm_yday tp = n / 86400.
Proof. intros []. euclid. Qed.

(** ** Main theorems *)

(** C34. [__offtime] ends for every [time_t] and either gives the one
    broken-down time of the proleptic Gregorian calendar for it, with every
    field in range, or fails with [EOVERFLOW] exactly when no broken-down time
    has a year that fits an [int]. *)
Theorem offtime_correct t offset isdst :
  LONG_MIN <= t <= LONG_MAX → - 2 ^ 62 <= offset <= 2 ^ 62 →
  (∃ tp, offtime t offset isdst = Val (inl tp) ∧ broken_down (t + offset) tp ∧
         int_ok (tm_year tp) ∧ tm_isdst tp = isdst) ∨
  (offtime t offset isdst = Val (inr EOVERFLOW) ∧
   ∀ tp, broken_down (t + offset) tp → ~ int_ok (tm_year tp)).
Proof.
  intros Ht Ho. destruct (offtime_spec t offset isdst Ht Ho) as (y & d & E & Hin & H).
  case_bool_decide as Hy.
  - left. destruct H as (tp & E' & Hb & Hi & Ey). exists tp. by rewrite Ey.
  - right. split; [done|]. intros tp Hb Hty. apply Hy.
    assert (y = tm_year tp + 1900) as ->; [|by replace (tm_year tp + 1900 - 1900) with (tm_year tp) by lia].
    apply (year_unique y d _ (tm_yday tp)).
    + unfold in_year in Hin. lia.
    + apply (bd_yday _ _ Hb).
    + rewrite (broken_down_day _ _ Hb). done.
Qed.

Lemma offtime_correct_witness :
  (∃ tp, offtime 1700000000 3600 0 = Val (inl tp) ∧ broken_down 1700003600 tp ∧
         int_ok (tm_year tp) ∧ tm_isdst tp = 0) ∨
  (offtime 1700000000 3600 0 = Val (inr EOVERFLOW) ∧
   ∀ tp, broken_down 1700003600 tp → ~ int_ok (tm_year tp)).
Proof.
  apply (offtime_correct 1700000000 3600 0).
  - unfold LONG_MIN, LONG_MAX. lia.
  - lia.
Defined.

(** C35. [timegm] on any [int] fields, in range or not, returns the exact
    number of seconds they denote and the normalised fields when the time, and
    the time with its seconds brought into the minute, can be broken down;
    otherwise the binary search and all six probes end and it returns -1 with
    [EOVERFLOW] and the fields as they were, but for tm_isdst, which timegm
    sets to 0. The remembered offset stays 0. *)
Theorem timegm_correct tp :
  int_fields tp →
  timegm tp 0 =
    match gmtime_r (req_seconds tp (clamp_sec (tm_sec tp))), gmtime_r (req_seconds tp (tm_sec tp)) with
    | Val (inl _), Val (inl tpT) => Val (Mk (req_seconds tp (tm_sec tp)) tpT 0 None)
    | _, _ => Val (Mk (-1) (std_tm tp) 0 (Some EOVERFLOW))
    end ∧
  ∀ tpT, gmtime_r (req_seconds tp (tm_sec tp)) = Val (inl tpT) →
    broken_down (req_seconds tp (tm_sec tp)) tpT.
Proof.
  intros Hf. split; [|intros tpT ET; by apply gmtime_r_spec; [apply req_long, if_sec|]].
  destruct (gmtime_r_total (req_seconds tp (clamp_sec (tm_sec tp)))) as [[tp0 E0]|E0];
    [by apply req_long, clamp_int|..]; rewrite E0; [|by apply timegm_out].
  destruct (gmtime_r_total (req_seconds tp (tm_sec tp))) as [[tpT ET]|ET];
    [by apply req_long, if_sec|..]; rewrite (timegm_converts tp tp0) by done; by rewrite ET.
Qed.

(** The 32nd of March, hour 25, minute -1, 61 seconds past: 2 April. *)
Lemma timegm_correct_witness :
  timegm (Tm 61 (-1) 25 32 2 124 0 0 7) 0
  = Val (Mk 1712019601 (Tm 1 0 1 2 3 124 2 92 0) 0 None).
Proof.
  etransitivity.
  - apply (timegm_correct (Tm 61 (-1) 25 32 2 124 0 0 7)).
    split; unfold int_ok, INT_MIN, INT_MAX; cbn; lia.
  - vm_compute. reflexivity.
Defined.

(** [timegm] inverts [gmtime_r]: it gives back the time and leaves the
    fields as they are. *)
Theorem timegm_gmtime t tp :
  LONG_MIN <= t <= LONG_MAX → gmtime_r t = Val (inl tp) → timegm tp 0 = Val (Mk t tp 0 None).
Proof.
  intros Ht E. destruct (gmtime_r_spec t tp Ht E) as (Hb & Hi & Hy).
  pose proof Hb as [Hs Hm Hh Hyd Hmo (a & b & Ea & _ & Eyd & Hmd) _ Htot].
  assert (req_year tp = tm_year tp) as Ery by (unfold req_year; rewrite Z.div_small by lia; lia).
  assert (req_seconds tp (tm_sec tp) = t) as Er.
  { unfold req_seconds, req_yday. rewrite Ery, Z.mod_small, (nth_lookup_Some _ _ 0 a Ea), <- Eyd by lia.
    exact Htot. }
  assert (clamp_sec (tm_sec tp) = tm_sec tp) as Ec by (unfold clamp_sec; lia).
  rewrite (timegm_converts tp tp).
  - by rewrite Er, E.
  - assert (year_len (tm_year tp + 1900) <= 366) by (unfold year_len; destruct (isleap _); lia).
    assert (0 <= a) as Ha.
    { destruct (month_loop_spec (isleap (tm_year tp + 1900)) (tm_yday tp) Hyd) as (_ & _ & _ & _).
      apply list_elem_of_lookup_2 in Ea. revert Ea. unfold mon_yday. destruct (isleap _);
        intros Ea; repeat (apply elem_of_cons in Ea as [->|Ea]; [lia|]); by apply elem_of_nil in Ea. }
    split; unfold int_ok, INT_MIN, INT_MAX in *; lia.
  - by rewrite Ec, Er.
Qed.

Lemma timegm_gmtime_witness :
  timegm (Tm 20 13 22 14 10 123 2 317 0) 0
  = Val (Mk 1700000000 (Tm 20 13 22 14 10 123 2 317 0) 0 None).
Proof.
  apply (timegm_gmtime 1700000000 (Tm 20 13 22 14 10 123 2 317 0)).
  - unfold LONG_MIN, LONG_MAX. lia.
  - vm_compute. reflexivity.
Defined.
End Calendar.
