(* ===== verification/Qsort.v ===== *)
(** * In-place sorting: [stdlib/qsort.c]

    [_quicksort], the routine [qsort] falls back to without memory: a
    quicksort with an explicit stack of 64 entries that leaves segments of at
    most five elements, and an insertion sort without a bounds test.  An
    array is a list of objects, a pointer into it the index of an object
    (all pointers of the code are multiples of the object size apart), so
    that the byte loops of [SWAP] and of the insertion move whole objects.
    Every access outside the array and every push on a full stack is a
    [Fault].  The theorem: for every comparison function that is a total
    preorder the array ends up sorted, without any of these. *)

From stdpp Require Import sorting.
From S2P Require Import Prelude.
Local Open Scope Z_scope.

Module Qsort.
Section sort.
Context {A : Type}.
Variable cmp : A → A → Z.

Definition get (a : list A) (i : Z) : outcome A :=
  if i <? 0 then Fault else deref (a !! Z.to_nat i).

Definition set (a : list A) (i : Z) (x : A) : outcome (list A) :=
  if (0 <=? i) && (i <? Z.of_nat (length a)) then Val (<[Z.to_nat i:=x]> a) else Fault.

Definition SWAP (a : list A) (i j : Z) : outcome (list A) :=
  x ← get a i; y ← get a j; a ← set a i y; set a j x.

Definition MAX_THRESH : Z := 4.
Definition STACK_SIZE : nat := 64.

(** [if (cmp (i, j, arg) < 0) SWAP (i, j, size);] *)
Definition swap_if (a : list A) (i j : Z) : outcome (list A) :=
  x ← get a i; y ← get a j;
  if cmp x y <? 0 then SWAP a i j else Val a.

(** The median of three, up to the label [jump_over]. *)
Definition median (a : list A) (lo mid hi : Z) : outcome (list A) :=
  a ← swap_if a mid lo;
  x ← get a hi; y ← get a mid;
  if cmp x y <? 0 then a ← SWAP a mid hi; swap_if a mid lo
  else Val a.

Fixpoint scan_left (fuel : nat) (a : list A) (left mid : Z) : outcome Z :=
  x ← get a left; y ← get a mid;
  if cmp x y <? 0 then
    match fuel with
    | O => NoFuel
    | S fuel' => scan_left fuel' a (left + 1) mid
    end
  else Val left.

Fixpoint scan_right (fuel : nat) (a : list A) (right mid : Z) : outcome Z :=
  x ← get a mid; y ← get a right;
  if cmp x y <? 0 then
    match fuel with
    | O => NoFuel
    | S fuel' => scan_right fuel' a (right - 1) mid
    end
  else Val right.

(** The [do]-[while] loop that collapses the walls: the array and the final
    [left_ptr] and [right_ptr]. *)
Fixpoint collapse (fuel : nat) (a : list A) (mid left right : Z) : outcome (list A * Z * Z) :=
  match fuel with
  | O => NoFuel
  | S fuel' =>
      left ← scan_left (length a) a left mid;
      right ← scan_right (length a) a right mid;
      if left <? right then
        a ← SWAP a left right;
        let mid := if mid =? left then right else if mid =? right then left else mid in
        let left := left + 1 in
        let right := right - 1 in
        if left <=? right then collapse fuel' a mid left right else Val (a, left, right)
      else if left =? right then Val (a, left + 1, right - 1)
      else Val (a, left, right)
  end.

(** [(size_t) d <= max_thresh]: a negative difference is a large [size_t]. *)
Definition small (d : Z) : bool := (0 <=? d) && (d <=? MAX_THRESH).

(** A pair of pointers; [None] is [(NULL, NULL)]. *)
Definition node : Type := option (Z * Z).

Definition PUSH (stack : list node) (lo hi : Z) : outcome (list node) :=
  if (length stack <? STACK_SIZE)%nat then Val (Some (lo, hi) :: stack) else Fault.

(** The main loop; the top of the stack comes first. *)
Fixpoint quick_loop (fuel : nat) (a : list A) (cur : node) (stack : list node) : outcome (list A) :=
  match stack with
  | [] => Val a
  | top :: stack' =>
      match fuel with
      | O => NoFuel
      | S fuel' =>
          match cur with
          | None => Fault
          | Some (lo, hi) =>
              let mid := lo + Z.shiftr (hi - lo) 1 in
              a ← median a lo mid hi;
              collapse (length a) a mid (lo + 1) (hi - 1) ≫= λ r : list A * Z * Z,
              let a := r.1.1 in let left := r.1.2 in let right := r.2 in
              if small (right - lo) then
                if small (hi - left) then quick_loop fuel' a top stack'
                else quick_loop fuel' a (Some (left, hi)) stack
              else if small (hi - left) then quick_loop fuel' a (Some (lo, right)) stack
              else if right - lo >? hi - left then
                st ← PUSH stack lo right; quick_loop fuel' a (Some (left, hi)) st
              else
                st ← PUSH stack left hi; quick_loop fuel' a (Some (lo, right)) st
          end
      end
  end.

(** The smallest of the first elements. *)
Fixpoint find_min (fuel : nat) (a : list A) (run tmp thresh : Z) : outcome Z :=
  if run <=? thresh then
    x ← get a run; y ← get a tmp;
    match fuel with
    | O => NoFuel
    | S fuel' => find_min fuel' a (run + 1) (if cmp x y <? 0 then run else tmp) thresh
    end
  else Val tmp.

(** The search for the place of [run], without a bounds test. *)
Fixpoint insert_pos (fuel : nat) (a : list A) (run tmp : Z) : outcome Z :=
  x ← get a run; y ← get a tmp;
  if cmp x y <? 0 then
    match fuel with
    | O => NoFuel
    | S fuel' => insert_pos fuel' a run (tmp - 1)
    end
  else Val tmp.

(** [for (hi = lo = trav; (lo -= size) >= tmp_ptr; hi = lo) *hi = *lo; *hi = c;] *)
Fixpoint shift (fuel : nat) (a : list A) (c : A) (hi lo tmp : Z) : outcome (list A) :=
  let lo := lo - 1 in
  if tmp <=? lo then
    x ← get a lo;
    a ← set a hi x;
    match fuel with
    | O => NoFuel
    | S fuel' => shift fuel' a c lo lo tmp
    end
  else set a hi c.

Fixpoint insertion_loop (fuel : nat) (a : list A) (run end_ptr : Z) : outcome (list A) :=
  let run := run + 1 in
  if run <=? end_ptr then
    match fuel with
    | O => NoFuel
    | S fuel' =>
        tmp ← insert_pos (length a) a run (run - 1);
        let tmp := tmp + 1 in
        a ← (if negb (tmp =? run) then c ← get a run; shift (length a) a c run run tmp else Val a);
        insertion_loop fuel' a run end_ptr
    end
  else Val a.

Definition quicksort (a : list A) : outcome (list A) :=
  let total_elems := Z.of_nat (length a) in
  if total_elems =? 0 then Val a
  else
    a ← (if MAX_THRESH <? total_elems
         then quick_loop (length a) a (Some (0, total_elems - 1)) [None]
         else Val a);
    let end_ptr := total_elems - 1 in
    let thresh := Z.min end_ptr MAX_THRESH in
    tmp ← find_min (length a) a 1 0 thresh;
    a ← (if negb (tmp =? 0) then SWAP a tmp 0 else Val a);
    insertion_loop (length a) a 1 end_ptr.
End sort.

(** ** Comparison functions

    What the C standard asks of [compar]: a total preorder. *)
Class TotalPreorder {A : Type} (cmp : A → A → Z) : Prop := {
  cmp_sym x y : cmp x y < 0 ↔ 0 < cmp y x;
  cmp_trans x y z : cmp x y <= 0 → cmp y z <= 0 → cmp x z <= 0
}.

Section laws.
Context {A : Type} {cmp : A → A → Z} `{!TotalPreorder cmp}.

Lemma cmp_refl x : cmp x x = 0.
Proof. pose proof (cmp_sym x x). lia. Qed.

Lemma cmp_flip x y : ~ cmp x y < 0 → cmp y x <= 0.
Proof. pose proof (cmp_sym x y). lia. Qed.

Lemma cmp_le x y : cmp x y < 0 → cmp x y <= 0.
Proof. lia. Qed.
End laws.

(** ** Arrays by index *)

Section proofs.
Context {A : Type} `{!Inhabited A} {cmp : A → A → Z} `{!TotalPreorder cmp}.
Implicit Types a b : list A.
Local Notation "a .[ i ]" := (a !!! Z.to_nat i) (at level 1, left associativity, format "a .[ i ]").
Local Notation "x ≼ y" := (cmp x y <= 0) (at level 70).
Local Abbreviation len a := (Z.of_nat (length a)).

Lemma get_val a i : 0 <= i < len a → get a i = Val a.[i].
Proof.
  intros Hi. unfold get. destruct (Z.ltb_spec i 0); [lia|].
  rewrite list_lookup_lookup_total_lt by lia. done.
Qed.

Lemma set_val a i x : 0 <= i < len a → set a i x = Val (<[Z.to_nat i:=x]> a).
Proof. intros Hi. unfold set. by replace ((0 <=? i) && (i <? len a)) with true by lia. Qed.

Lemma at_insert a i j x :
  0 <= i < len a → 0 <= j → (<[Z.to_nat i:=x]> a).[j] = if j =? i then x else a.[j].
Proof.
  intros Hi Hj. destruct (Z.eqb_spec j i) as [->|Hne].
  - apply list_lookup_total_insert_eq. lia.
  - apply list_lookup_total_insert_ne. lia.
Qed.

Definition swp (a : list A) (i j : Z) : list A :=
  <[Z.to_nat j:=a.[i]]> (<[Z.to_nat i:=a.[j]]> a).

Lemma SWAP_val a i j : 0 <= i < len a → 0 <= j < len a → SWAP a i j = Val (swp a i j).
Proof.
  intros Hi Hj. unfold SWAP. rewrite (get_val a i), (get_val a j) by done.
  cbn [mbind outcome_bind]. rewrite set_val by done. cbn [mbind outcome_bind].
  by rewrite set_val by (by rewrite length_insert).
Qed.

Lemma swp_length a i j : length (swp a i j) = length a.
Proof. unfold swp. by rewrite !length_insert. Qed.

Lemma swp_at a i j k :
  0 <= i < len a → 0 <= j < len a → 0 <= k →
  (swp a i j).[k] = if k =? j then a.[i] else if k =? i then a.[j] else a.[k].
Proof.
  intros Hi Hj Hk. unfold swp. rewrite at_insert by (rewrite ?length_insert; lia).
  by rewrite at_insert by lia.
Qed.

(** Two arrays that are a permutation of each other by a map of indices. *)
Lemma perm_by a b (f g : Z → Z) :
  length a = length b →
  (∀ k, 0 <= k < len a → 0 <= f k < len a ∧ g (f k) = k ∧ b.[k] = a.[f k]) → b ≡ₚ a.
Proof.
  intros Hl Hf. apply Permutation_inj. split; [done|].
  exists (λ i, if decide (i < length a)%nat then Z.to_nat (f (Z.of_nat i)) else i). split.
  - intros i j. assert (∀ i, (i < length a)%nat → (Z.to_nat (f (Z.of_nat i)) < length a)%nat) as H.
    { intros i' Hi'. destruct (Hf (Z.of_nat i')); lia. }
    destruct (decide (i < length a)%nat) as [Hi|Hi], (decide (j < length a)%nat) as [Hj|Hj];
      intros E; try done; [|specialize (H i Hi); lia|specialize (H j Hj); lia].
    destruct (Hf (Z.of_nat i) ltac:(lia)) as (Hri & Egi & _).
    destruct (Hf (Z.of_nat j) ltac:(lia)) as (Hrj & Egj & _).
    assert (f (Z.of_nat i) = f (Z.of_nat j)) as Ef by lia. rewrite Ef in Egi. lia.
  - intros i. destruct (decide (i < length a)%nat) as [Hi|Hi].
    + destruct (Hf (Z.of_nat i) ltac:(lia)) as (Hr & _ & E).
      rewrite !list_lookup_lookup_total_lt by lia. rewrite Nat2Z.id in E. by rewrite E.
    + rewrite !lookup_ge_None_2 by lia. done.
Qed.

(** [b] is [a] with the elements from [lo] to [hi] rearranged. *)
Record within (lo hi : Z) (a b : list A) : Prop := {
  wi_length : length b = length a;
  wi_perm : b ≡ₚ a;
  wi_out k : 0 <= k → (k < lo ∨ hi < k) → b.[k] = a.[k];
  wi_in k : lo <= k <= hi → ∃ k', lo <= k' <= hi ∧ b.[k] = a.[k']
}.

Lemma within_refl lo hi a : within lo hi a a.
Proof. split; eauto. Qed.

Lemma within_trans lo hi a b c : within lo hi a b → within lo hi b c → within lo hi a c.
Proof.
  intros [L1 P1 O1 I1] [L2 P2 O2 I2]. split.
  - congruence.
  - by rewrite P2.
  - intros k Hk Ho. by rewrite O2, O1.
  - intros k Hk. destruct (I2 k Hk) as (k' & Hk' & ->). by apply I1.
Qed.

Lemma swp_perm a i j : 0 <= i < len a → 0 <= j < len a → swp a i j ≡ₚ a.
Proof.
  intros Hi Hj. pose (f k := if k =? j then i else if k =? i then j else k).
  apply (perm_by a (swp a i j) f f); [by rewrite swp_length|]. intros k Hk.
  rewrite swp_at by lia. unfold f. zcase; subst; repeat split; lia || done.
Qed.

Lemma swp_within lo hi a i j :
  0 <= lo → hi < len a → lo <= i <= hi → lo <= j <= hi → within lo hi a (swp a i j).
Proof.
  intros Hlo Hhi Hi Hj. split.
  - apply swp_length.
  - apply swp_perm; lia.
  - intros k Hk Ho. rewrite swp_at by lia. zcase; lia || done.
  - intros k Hk. rewrite swp_at by lia. zcase; eauto.
Qed.

(** A property of all the elements of the segment is kept. *)
Lemma within_all lo hi a b (P : A → Prop) :
  within lo hi a b → (∀ k, lo <= k <= hi → P a.[k]) → ∀ k, lo <= k <= hi → P b.[k].
Proof. intros H HP k Hk. destruct (wi_in _ _ _ _ H k Hk) as (k' & Hk' & ->). by apply HP. Qed.

(** ** The partition *)

Lemma swap_if_spec a i j lo hi :
  0 <= lo → hi < len a → lo <= i <= hi → lo <= j <= hi → i ≠ j →
  ∃ b, swap_if cmp a i j = Val b ∧ within lo hi a b ∧ b.[j] ≼ b.[i] ∧
    ((b.[i] = a.[i] ∧ b.[j] = a.[j]) ∨ (b.[i] = a.[j] ∧ b.[j] = a.[i])) ∧
    ∀ k, 0 <= k → k ≠ i → k ≠ j → b.[k] = a.[k].
Proof.
  intros Hlo Hhi Hi Hj Hne. unfold swap_if. rewrite !get_val by lia. cbn [mbind outcome_bind].
  destruct (Z.ltb_spec (cmp a.[i] a.[j]) 0) as [Hc|Hc].
  - exists (swp a i j). rewrite SWAP_val by lia. split; [done|]. split; [by apply swp_within|].
    rewrite !swp_at by lia. rewrite Z.eqb_refl. replace (i =? j) with false by lia. rewrite Z.eqb_refl.
    split; [by apply cmp_le|]. split; [auto|].
    intros k Hk ? ?. rewrite swp_at by lia. zcase; lia || done.
  - exists a. split; [done|]. split; [apply within_refl|]. split; [apply cmp_flip; lia|]. auto.
Qed.

Lemma median_spec a lo mid hi :
  0 <= lo → lo < mid → mid < hi → hi < len a →
  ∃ b, median cmp a lo mid hi = Val b ∧ within lo hi a b ∧ b.[lo] ≼ b.[mid] ∧ b.[mid] ≼ b.[hi].
Proof.
  intros Hlo Hm Hh Hl. unfold median.
  destruct (swap_if_spec a mid lo lo hi) as (b & -> & Wb & L1 & _ & Ob); [lia..|].
  cbn [mbind outcome_bind]. pose proof (wi_length _ _ _ _ Wb) as Lb.
  rewrite !get_val by lia. cbn [mbind outcome_bind].
  destruct (Z.ltb_spec (cmp b.[hi] b.[mid]) 0) as [Hc|Hc].
  - rewrite SWAP_val by lia. cbn [mbind outcome_bind].
    assert (within lo hi b (swp b mid hi)) as Ws by (apply swp_within; lia).
    assert (∀ k, 0 <= k → (swp b mid hi).[k]
      = if k =? hi then b.[mid] else if k =? mid then b.[hi] else b.[k]) as Es
      by (intros; apply swp_at; lia).
    destruct (swap_if_spec (swp b mid hi) mid lo lo hi) as (c & -> & Wc & L2 & Hcs & Oc);
      [rewrite ?swp_length; lia..|].
    exists c. split; [done|]. split; [by eapply within_trans; [|eapply within_trans]|].
    split; [done|]. rewrite (Oc hi) by lia. rewrite (Es hi), Z.eqb_refl by lia.
    rewrite (Es lo), (Es mid), Z.eqb_refl in Hcs by lia.
    replace (lo =? hi) with false in Hcs by lia. replace (mid =? hi) with false in Hcs by lia.
    replace (lo =? mid) with false in Hcs by lia.
    destruct Hcs as [[-> _]|[-> _]]; [by apply cmp_le|done].
  - exists b. split; [done|]. split; [done|]. split; [done|]. apply cmp_flip. lia.
Qed.

Lemma scan_left_spec fuel a left mid s p :
  0 <= left <= s → s < len a → 0 <= mid < len a → a.[mid] = p → p ≼ a.[s] → s - left <= Z.of_nat fuel →
  ∃ i, scan_left cmp fuel a left mid = Val i ∧ left <= i <= s ∧ p ≼ a.[i] ∧
       ∀ k, left <= k < i → a.[k] ≼ p.
Proof.
  intros Hl Hs Hm Hp Hsen. revert left Hl. induction fuel as [|fuel IH]; intros left Hl Hf;
    cbn [scan_left]; rewrite !get_val by lia; cbn [mbind outcome_bind]; rewrite Hp;
    destruct (Z.ltb_spec (cmp a.[left] p) 0) as [Hc|Hc].
  - assert (left = s) as -> by lia. pose proof (cmp_sym a.[s] p). lia.
  - exists left. split; [done|]. split; [lia|]. split; [apply cmp_flip; lia|lia].
  - destruct (decide (left = s)) as [->|Hne]; [pose proof (cmp_sym a.[s] p); lia|].
    destruct (IH (left + 1)) as (i & -> & Hi & Hpi & Hk); [lia..|].
    exists i. split; [done|]. split; [lia|]. split; [done|]. intros k Hk'.
    destruct (decide (k = left)) as [->|]; [by apply cmp_le|apply Hk; lia].
  - exists left. split; [done|]. split; [lia|]. split; [apply cmp_flip; lia|lia].
Qed.

Lemma scan_right_spec fuel a right mid s p :
  0 <= s <= right → right < len a → 0 <= mid < len a → a.[mid] = p → a.[s] ≼ p →
  right - s <= Z.of_nat fuel →
  ∃ j, scan_right cmp fuel a right mid = Val j ∧ s <= j <= right ∧ a.[j] ≼ p ∧
       ∀ k, j < k <= right → p ≼ a.[k].
Proof.
  intros Hs Hr Hm Hp Hsen. revert right Hs Hr. induction fuel as [|fuel IH]; intros right Hs Hr Hf;
    cbn [scan_right]; rewrite !get_val by lia; cbn [mbind outcome_bind]; rewrite Hp;
    destruct (Z.ltb_spec (cmp p a.[right]) 0) as [Hc|Hc].
  - assert (right = s) as -> by lia. pose proof (cmp_sym p a.[s]). lia.
  - exists right. split; [done|]. split; [lia|]. split; [apply cmp_flip; lia|lia].
  - destruct (decide (right = s)) as [->|Hne]; [pose proof (cmp_sym p a.[s]); lia|].
    destruct (IH (right - 1)) as (j & -> & Hj & Hpj & Hk); [lia..|].
    exists j. split; [done|]. split; [lia|]. split; [done|]. intros k Hk'.
    destruct (decide (k = right)) as [->|]; [by apply cmp_le|apply Hk; lia].
  - exists right. split; [done|]. split; [lia|]. split; [apply cmp_flip; lia|lia].
Qed.

(** The walls: everything left of [left] is at most the pivot, everything
    right of [right] at least. *)
Record walls (lo hi : Z) (p : A) (a : list A) (left right : Z) : Prop := {
  wa_lo : 0 <= lo < left;
  wa_hi : right < hi < len a;
  wa_left k : lo <= k < left → a.[k] ≼ p;
  wa_right k : right < k <= hi → p ≼ a.[k]
}.

(** What the partition leaves: two segments within the old one. *)
Record split (lo hi : Z) (p : A) (a : list A) (left right : Z) : Prop := {
  sp_bounds : lo <= right < left ∧ left <= hi;
  sp_left k : lo <= k < left → a.[k] ≼ p;
  sp_right k : right < k <= hi → p ≼ a.[k]
}.

Lemma walls_swap lo hi p a left right i j :
  walls lo hi p a left right → left <= i → i < j → j <= right →
  (∀ k, left <= k < i → a.[k] ≼ p) → (∀ k, j < k <= right → p ≼ a.[k]) →
  a.[j] ≼ p → p ≼ a.[i] → walls lo hi p (swp a i j) (i + 1) (j - 1).
Proof.
  intros [Hlo Hhi HL HR] Hi Hij Hj Hl Hr Pj Pi. split; [lia|rewrite swp_length; lia|..].
  - intros k Hk. rewrite swp_at by lia. zcase; subst; [lia|done|].
    destruct (decide (k < left)); [apply HL; lia|apply Hl; lia].
  - intros k Hk. rewrite swp_at by lia. zcase; subst; [done|lia|].
    destruct (decide (right < k)); [apply HR; lia|apply Hr; lia].
Qed.

Lemma collapse_spec fuel a mid left right lo hi p :
  walls lo hi p a left right → left <= right → lo <= mid <= hi → a.[mid] = p →
  right - left < Z.of_nat fuel →
  ∃ b l r, collapse cmp fuel a mid left right = Val (b, l, r) ∧ within lo hi a b ∧ split lo hi p b l r.
Proof.
  revert a mid left right. induction fuel as [|fuel IH]; intros a mid left right W Hlr Hmid Hp Hf; [lia|].
  cbn [collapse]. pose proof W as [Hlo Hhi HL HR].
  destruct (scan_left_spec (length a) a left mid (right + 1) p) as (i & -> & Hi & Pi & Li);
    [lia|lia|lia|done|apply HR; lia|lia|].
  cbn [mbind outcome_bind].
  destruct (scan_right_spec (length a) a right mid (left - 1) p) as (j & -> & Hj & Pj & Rj);
    [lia|lia|lia|done|apply HL; lia|lia|].
  cbn [mbind outcome_bind].
  assert (∀ k, lo <= k < i → a.[k] ≼ p) as HL'.
  { intros k Hk. destruct (decide (k < left)); [apply HL; lia|apply Li; lia]. }
  assert (∀ k, j < k <= hi → p ≼ a.[k]) as HR'.
  { intros k Hk. destruct (decide (right < k)); [apply HR; lia|apply Rj; lia]. }
  destruct (Z.ltb_spec i j) as [Hij|Hij].
  - rewrite SWAP_val by lia. cbn [mbind outcome_bind]. cbv zeta.
    assert (walls lo hi p (swp a i j) (i + 1) (j - 1)) as W'
      by (apply (walls_swap lo hi p a left right); auto; lia).
    assert (within lo hi a (swp a i j)) as Wi by (apply swp_within; lia).
    destruct (Z.leb_spec (i + 1) (j - 1)).
    + set (mid' := if mid =? i then j else _).
      assert (lo <= mid' <= hi ∧ (swp a i j).[mid'] = p) as [Hm' Ep].
      { unfold mid'. rewrite swp_at by (zcase; lia). zcase; subst; split; lia || done. }
      destruct (IH (swp a i j) mid' (i + 1) (j - 1)) as (b & l & r & -> & Wb & Sp); [done|lia|done|done|lia|].
      exists b, l, r. split; [done|]. split; [by eapply within_trans|done].
    + exists (swp a i j), (i + 1), (j - 1). split; [done|]. split; [done|].
      destruct W'. split; [lia|done|done].
  - destruct (Z.eqb_spec i j) as [->|Hne].
    + exists a, (j + 1), (j - 1). split; [done|]. split; [apply within_refl|]. split; [lia|..].
      * intros k Hk. destruct (decide (k = j)) as [->|]; [done|apply HL'; lia].
      * intros k Hk. destruct (decide (k = j)) as [->|]; [done|apply HR'; lia].
    + exists a, i, j. split; [done|]. split; [apply within_refl|]. split; [lia|done|done].
Qed.

(** One round of the main loop on a segment of more than four elements. *)
Lemma partition_spec a lo hi :
  0 <= lo → hi < len a → MAX_THRESH <= hi - lo →
  ∃ b c l r p, median cmp a lo (lo + Z.shiftr (hi - lo) 1) hi = Val b ∧
    collapse cmp (length b) b (lo + Z.shiftr (hi - lo) 1) (lo + 1) (hi - 1) = Val (c, l, r) ∧
    within lo hi a c ∧ split lo hi p c l r.
Proof.
  unfold MAX_THRESH. intros Hlo Hhi Hd.
  assert (Z.shiftr (hi - lo) 1 = (hi - lo) / 2) as -> by (rewrite Z.shiftr_div_pow2 by lia; done).
  assert (0 < (hi - lo) / 2 < hi - lo) as Hm by (Z.to_euclidean_division_equations; lia).
  destruct (median_spec a lo (lo + (hi - lo) / 2) hi) as (b & -> & Wb & L1 & L2); [lia..|].
  pose proof (wi_length _ _ _ _ Wb) as Lb.
  destruct (collapse_spec (length b) b (lo + (hi - lo) / 2) (lo + 1) (hi - 1) lo hi
    b.[lo + (hi - lo) / 2]) as (c & l & r & E & Wc & Sp); [|lia|lia|done|lia|].
  - split; [lia|lia|..].
    + intros k Hk. by replace k with lo by lia.
    + intros k Hk. by replace k with hi by lia.
  - exists b, c, l, r, b.[lo + (hi - lo) / 2]. split; [done|]. split; [done|].
    split; [by eapply within_trans|done].
Qed.

(** ** The stack *)

Definition width (s : Z * Z) : Z := s.2 - s.1.
Definition total_width (l : list (Z * Z)) : Z := foldr (λ s n, width s + n) 0 l.

(** An entry with [k] entries below it has at most [n / 2^k] elements. *)
Fixpoint depth_ok (n : Z) (l : list (Z * Z)) : Prop :=
  match l with
  | [] => True
  | s :: l' => (width s + 1) * 2 ^ Z.of_nat (length l') <= n ∧ depth_ok n l'
  end.

Definition seg_ok (n : Z) (s : Z * Z) : Prop := 0 <= s.1 ∧ s.2 < n ∧ MAX_THRESH <= width s.

(** The elements up to [e] are at most those after [e]. *)
Definition prefix_ok (a : list A) (e : Z) : Prop :=
  ∀ k j, 0 <= k <= e → e < j < len a → a.[k] ≼ a.[j].

(** Apart from the segment [0, e] at the start of the array, which is pending
    or small, the pending ones lie after [e]. *)
Definition firsts (e : Z) (segs : list (Z * Z)) : Prop :=
  ∃ l, Forall (λ s, e < s.1) l ∧ (segs ≡ₚ (0, e) :: l ∨ (segs ≡ₚ l ∧ e <= MAX_THRESH)).

Record pending (a : list A) (segs : list (Z * Z)) (e : Z) : Prop := {
  pe_segs : Forall (seg_ok (len a)) segs;
  pe_depth : depth_ok (len a) segs;
  pe_range : 0 <= e < len a;
  pe_prefix : prefix_ok a e;
  pe_first : firsts e segs
}.

Lemma prefix_within a b lo hi e :
  within lo hi a b → 0 <= lo → hi < len a → e < lo → prefix_ok a e → prefix_ok b e.
Proof.
  intros W Hlo Hhi He Hp k j Hk Hj. rewrite (wi_length _ _ _ _ W) in Hj.
  rewrite (wi_out _ _ _ _ W k) by lia. destruct (decide (lo <= j <= hi)) as [Hin|Hout].
  - destruct (wi_in _ _ _ _ W j Hin) as (j' & Hj' & ->). apply Hp; lia.
  - rewrite (wi_out _ _ _ _ W j) by lia. by apply Hp.
Qed.

Lemma prefix_split a b hi l r p :
  within 0 hi a b → split 0 hi p b l r → prefix_ok a hi → prefix_ok b r.
Proof.
  intros W [Hb HL HR] Hp k j Hk Hj. rewrite (wi_length _ _ _ _ W) in Hj.
  destruct (decide (j <= hi)).
  - apply cmp_trans with p; [apply HL; lia|apply HR; lia].
  - rewrite (wi_out _ _ _ _ W j) by lia.
    destruct (wi_in _ _ _ _ W k) as (k' & Hk' & ->); [lia|]. apply Hp; lia.
Qed.

Lemma firsts_cons e s segs :
  0 <= e → firsts e (s :: segs) →
  (s = (0, e) ∧ Forall (λ s, e < s.1) segs) ∨ (e < s.1 ∧ firsts e segs).
Proof.
  intros He (l & Hl & [Hp|[Hp Hsm]]).
  - assert (s ∈ (0, e) :: l) as Hin by (rewrite <- Hp; left).
    apply elem_of_cons in Hin as [->|Hin].
    + left. split; [done|]. apply Permutation_cons_inv in Hp. by rewrite Hp.
    + right. split; [by apply (proj1 (Forall_forall _ _) Hl)|].
      apply elem_of_Permutation in Hin as [l' Hl']. rewrite Hl' in Hl, Hp.
      apply Forall_cons_1 in Hl as [_ Hl]. exists l'. split; [done|]. left.
      apply (Permutation_cons_inv (a := s)). rewrite Hp. apply Permutation_swap.
  - rewrite <- Hp in Hl. apply Forall_cons_1 in Hl as [H1 Hl]. right. split; [done|].
    exists segs. split; [done|]. by right.
Qed.

(** The segments that remain of [lo, hi]. *)
Definition kid (lo hi : Z) : list (Z * Z) := if small (hi - lo) then [] else [(lo, hi)].

Lemma kid_small lo hi : 0 <= hi - lo → small (hi - lo) = (hi - lo <=? MAX_THRESH).
Proof. intros H. unfold small. destruct (Z.leb_spec 0 (hi - lo)); [done|lia]. Qed.

Lemma pending_step a b lo hi segs e p l r kids :
  pending a ((lo, hi) :: segs) e → within lo hi a b → split lo hi p b l r →
  kids ≡ₚ kid lo r ++ kid l hi → depth_ok (len a) (kids ++ segs) →
  ∃ e', pending b (kids ++ segs) e'.
Proof.
  intros [Hsegs Hdep He Hpre Hfst] W Sp Hkids Hdep'.
  apply Forall_cons_1 in Hsegs as [(Hlo & Hhi & Hw) Hsegs]. unfold width in Hw. cbn [fst snd] in *.
  pose proof (wi_length _ _ _ _ W) as Lb. pose proof (sp_bounds _ _ _ _ _ _ Sp) as Hlr.
  assert (Forall (λ s, seg_ok (len a) s ∧ lo <= s.1) (kid lo r ++ kid l hi)) as Hk.
  { apply Forall_app. unfold kid. rewrite !kid_small by lia.
    split; zcase; constructor; try done; unfold seg_ok, width in *; cbn [fst snd]; lia. }
  assert (Forall (seg_ok (len b)) (kids ++ segs)) as Hs.
  { rewrite Lb. apply Forall_app. split; [|done]. rewrite Hkids.
    eapply Forall_impl; [exact Hk|naive_solver]. }
  destruct (firsts_cons _ _ _ (proj1 He) Hfst) as [[[= -> <-] Hall]|[Helo Hf]]; cbn [fst] in *.
  - exists r. split; [done|by rewrite Lb|rewrite Lb; lia|by eapply prefix_split|].
    assert (Forall (λ s, r < s.1) (kid l hi ++ segs)) as Hr.
    { apply Forall_app. split.
      - unfold kid. destruct (small _); repeat constructor. cbn. lia.
      - eapply Forall_impl; [exact Hall|]. cbn. lia. }
    exists (kid l hi ++ segs). split; [done|]. rewrite Hkids, <- (assoc_L (++)).
    generalize (kid l hi ++ segs). intros rest. unfold kid.
    rewrite kid_small by lia. destruct (Z.leb_spec (r - 0) MAX_THRESH); [right|by left].
    split; [done|lia].
  - exists e. split; [done|by rewrite Lb|lia|by eapply prefix_within|].
    destruct Hf as (ls & Hls & Hor). exists (kids ++ ls). split.
    + apply Forall_app. split; [|done]. rewrite Hkids. eapply Forall_impl; [exact Hk|]. cbn. lia.
    + destruct Hor as [-> | [-> ?]]; [left|right; done]. symmetry. apply Permutation_middle.
Qed.

(** Any subsegment may replace its parent, and below the smaller half of it
    the larger one. *)
Lemma depth_sub n s s' segs :
  depth_ok n (s :: segs) → width s' <= width s → depth_ok n (s' :: segs).
Proof. cbn. intros [H1 H2] Hw. split; [|done]. nia. Qed.

Lemma depth_push n s s1 s2 segs :
  depth_ok n (s :: segs) → width s2 <= width s → 0 <= width s1 <= width s2 →
  width s1 + width s2 < width s → depth_ok n (s1 :: s2 :: segs).
Proof.
  cbn. intros [H1 H2] Hw Hw1 Hsum. rewrite Nat2Z.inj_succ, Z.pow_succ_r by lia.
  pose proof (Z.pow_pos_nonneg 2 (Z.of_nat (length segs)) ltac:(lia) ltac:(lia)). split_and!; try done; nia.
Qed.

Lemma depth_room n s segs :
  n < 2 ^ 64 → depth_ok n (s :: segs) → MAX_THRESH <= width s → (S (length segs) < STACK_SIZE)%nat.
Proof.
  cbn. unfold MAX_THRESH, STACK_SIZE. intros Hn [H1 _] Hw.
  destruct (decide (62 <= Z.of_nat (length segs))); [|lia].
  assert (2 ^ 62 <= 2 ^ Z.of_nat (length segs)) by (apply Z.pow_le_mono_r; lia).
  change (2 ^ 62) with 4611686018427387904 in *. change (2 ^ 64) with 18446744073709551616 in *. nia.
Qed.

Definition stack_of (segs : list (Z * Z)) : list node := (Some <$> segs) ++ [None].

Lemma PUSH_val n s segs lo hi :
  n < 2 ^ 64 → depth_ok n (s :: segs) → MAX_THRESH <= width s →
  PUSH (stack_of segs) lo hi = Val (stack_of ((lo, hi) :: segs)).
Proof.
  intros Hn Hd Hw. pose proof (depth_room n s segs Hn Hd Hw) as H. unfold PUSH, stack_of.
  rewrite length_app, length_fmap. cbn [length].
  destruct (Nat.ltb_spec (length segs + 1) STACK_SIZE); [done|lia].
Qed.

(** What the main loop establishes for the insertion sort. *)
Definition head_min (a : list A) : Prop := ∃ e, 0 <= e <= MAX_THRESH ∧ e < len a ∧ prefix_ok a e.

Lemma total_width_cons s segs : total_width (s :: segs) = s.2 - s.1 + total_width segs.
Proof. done. Qed.

Lemma total_width_nonneg n segs : Forall (seg_ok n) segs → 0 <= total_width segs.
Proof.
  induction 1 as [|s segs (_ & _ & Hw) _ IH]; [done|]. unfold MAX_THRESH in *.
  change (0 <= width s + total_width segs). lia.
Qed.

Lemma pending_done a e : pending a [] e → head_min a.
Proof.
  intros [_ _ He Hp (l & _ & [H|[H Hsm]])].
  - by apply Permutation_nil_cons in H.
  - exists e. split; [lia|]. split; [lia|done].
Qed.

Lemma quick_loop_spec fuel a segs e :
  len a < 2 ^ 64 → pending a segs e → total_width segs <= Z.of_nat fuel →
  ∃ b, match segs with
       | [] => Val a
       | s :: segs' => quick_loop cmp fuel a (Some s) (stack_of segs')
       end = Val b ∧ b ≡ₚ a ∧ head_min b.
Proof.
  intros Hn. revert a segs e Hn. induction fuel as [|fuel IH]; intros a segs e Hn Hpe Hf;
    (destruct segs as [|[lo hi] segs]; [exists a; split; [done|]; split; [done|by eapply pending_done]|]);
    pose proof (pe_segs _ _ _ Hpe) as Hs; apply Forall_cons_1 in Hs as [(Hlo & Hhi & Hw) Hs];
    pose proof (total_width_nonneg _ _ Hs) as Htw; cbn [total_width foldr] in Hf;
    fold (total_width segs) in Hf; unfold width in Hf, Hw; cbn [fst snd] in *.
  { unfold MAX_THRESH in *. lia. }
  assert (∃ top st, stack_of segs = top :: st) as (top & st & Est) by (destruct segs; eexists _, _; done).
  cbn [quick_loop]. rewrite Est. cbv zeta.
  destruct (partition_spec a lo hi Hlo Hhi Hw) as (b & c & l & r & p & -> & E & W & Sp).
  cbn [mbind outcome_bind]. rewrite E. cbn [mbind outcome_bind fst snd].
  pose proof (wi_length _ _ _ _ W) as Lc. pose proof (wi_perm _ _ _ _ W) as Pc.
  pose proof (sp_bounds _ _ _ _ _ _ Sp) as Hlr. pose proof (pe_depth _ _ _ Hpe) as Hd.
  assert (∀ kids, kids ≡ₚ kid lo r ++ kid l hi → depth_ok (len a) (kids ++ segs) →
    total_width (kids ++ segs) <= Z.of_nat fuel →
    ∃ b, match kids ++ segs with
         | [] => Val c
         | s :: segs' => quick_loop cmp fuel c (Some s) (stack_of segs')
         end = Val b ∧ b ≡ₚ a ∧ head_min b) as Hnext.
  { intros kids Hk Hdk Hwk. destruct (pending_step _ _ _ _ _ _ _ _ _ kids Hpe W Sp Hk Hdk) as [e' Hpe'].
    destruct (IH c (kids ++ segs) e') as (b' & E' & P' & H'); [by rewrite Lc|done|done|].
    exists b'. split; [done|]. split; [by etransitivity|done]. }
  unfold kid in Hnext. destruct (small (r - lo)) eqn:E1, (small (hi - l)) eqn:E2;
    rewrite !kid_small in * by lia.
  - specialize (Hnext [] ltac:(done) (proj2 Hd) ltac:(cbn [app]; lia)). cbn [app] in Hnext.
    unfold stack_of in Est. destruct segs as [|s segs]; injection Est as <- <-; [|exact Hnext].
    destruct fuel; exact Hnext.
  - rewrite <- Est. apply (Hnext [(l, hi)]); [done|..].
    + eapply depth_sub; [exact Hd|unfold width; cbn; lia].
    + cbn [app]. rewrite !total_width_cons. cbn [fst snd]. lia.
  - rewrite <- Est. apply (Hnext [(lo, r)]); [done|..].
    + eapply depth_sub; [exact Hd|unfold width; cbn; lia].
    + cbn [app]. rewrite !total_width_cons. cbn [fst snd]. lia.
  - rewrite <- Est, Z.gtb_ltb, !(PUSH_val (len a) (lo, hi)) by (done || (unfold width; cbn; lia)).
    cbn [mbind outcome_bind]. unfold MAX_THRESH in *.
    destruct (Z.ltb_spec (hi - l) (r - lo)).
    + apply (Hnext [(l, hi); (lo, r)]); [apply Permutation_swap|..].
      * eapply depth_push; [exact Hd|unfold width; cbn; lia..].
      * cbn [app]. rewrite !total_width_cons. cbn [fst snd]. lia.
    + apply (Hnext [(lo, r); (l, hi)]); [done|..].
      * eapply depth_push; [exact Hd|unfold width; cbn; lia..].
      * cbn [app]. rewrite !total_width_cons. cbn [fst snd]. lia.
Qed.

(** ** The insertion sort *)

Lemma find_min_spec fuel a run tmp thresh :
  0 <= tmp < run → run <= thresh + 1 → thresh < len a →
  (∀ k, 0 <= k < run → a.[tmp] ≼ a.[k]) → thresh - run < Z.of_nat fuel →
  ∃ m, find_min cmp fuel a run tmp thresh = Val m ∧ 0 <= m <= thresh ∧
       ∀ k, 0 <= k <= thresh → a.[m] ≼ a.[k].
Proof.
  revert run tmp. induction fuel as [|fuel IH]; intros run tmp Htmp Hrun Hth Hmin Hf;
    cbn [find_min]; destruct (Z.leb_spec run thresh).
  - lia.
  - exists tmp. split; [done|]. split; [lia|]. intros k Hk. apply Hmin. lia.
  - rewrite !get_val by lia. cbn [mbind outcome_bind].
    apply IH; [zcase; lia|lia|lia| |lia]. intros k Hk.
    destruct (Z.ltb_spec (cmp a.[run] a.[tmp]) 0) as [Hc|Hc]; destruct (decide (k = run)) as [->|Hne].
    + rewrite cmp_refl. lia.
    + apply cmp_trans with a.[tmp]; [by apply cmp_le|apply Hmin; lia].
    + by apply cmp_flip; lia.
    + apply Hmin. lia.
  - exists tmp. split; [done|]. split; [lia|]. intros k Hk. apply Hmin. lia.
Qed.

Lemma insert_pos_spec fuel a run tmp :
  0 <= tmp < run → run < len a → a.[0] ≼ a.[run] → tmp <= Z.of_nat fuel →
  ∃ t, insert_pos cmp fuel a run tmp = Val t ∧ 0 <= t <= tmp ∧ a.[t] ≼ a.[run] ∧
       ∀ k, t < k <= tmp → a.[run] ≼ a.[k].
Proof.
  intros Htmp Hrun H0. revert tmp Htmp. induction fuel as [|fuel IH]; intros tmp Htmp Hf;
    cbn [insert_pos]; rewrite !get_val by lia; cbn [mbind outcome_bind];
    destruct (Z.ltb_spec (cmp a.[run] a.[tmp]) 0) as [Hc|Hc].
  - replace tmp with 0 in Hc by lia. pose proof (cmp_sym a.[run] a.[0]). lia.
  - exists tmp. split; [done|]. split; [lia|]. split; [apply cmp_flip; lia|lia].
  - destruct (decide (tmp = 0)) as [->|]; [pose proof (cmp_sym a.[run] a.[0]); lia|].
    destruct (IH (tmp - 1)) as (t & -> & Ht & Hle & Hk); [lia..|].
    exists t. split; [done|]. split; [lia|]. split; [done|]. intros k Hk'.
    destruct (decide (k = tmp)) as [->|]; [by apply cmp_le|apply Hk; lia].
  - exists tmp. split; [done|]. split; [lia|]. split; [apply cmp_flip; lia|lia].
Qed.

(** The elements from [tmp] on move up by one and [c] takes the place. *)
Lemma shift_spec fuel a c hi tmp :
  0 <= tmp <= hi → hi < len a → hi - tmp <= Z.of_nat fuel →
  ∃ b, shift fuel a c hi hi tmp = Val b ∧ length b = length a ∧
    ∀ k, 0 <= k → b.[k] = if k =? tmp then c
                          else if (tmp <? k) && (k <=? hi) then a.[k - 1] else a.[k].
Proof.
  revert a hi. induction fuel as [|fuel IH]; intros a hi Ht Hhi Hf; cbn [shift]; cbv zeta;
    destruct (Z.leb_spec tmp (hi - 1)); try lia.
  1,3: rewrite set_val by lia; eexists; split; [done|]; split; [by rewrite length_insert|];
    intros k Hk; rewrite at_insert by lia; replace hi with tmp by lia;
    zcase; subst; cbn [andb]; lia || done.
  rewrite get_val by lia. cbn [mbind outcome_bind]. rewrite set_val by lia. cbn [mbind outcome_bind].
  destruct (IH (<[Z.to_nat hi:=a.[hi - 1]]> a) (hi - 1)) as (b & -> & Lb & Hb);
    [lia|rewrite length_insert; lia|lia|].
  exists b. split; [done|]. split; [by rewrite Lb, length_insert|]. intros k Hk. rewrite Hb by done.
  rewrite (at_insert a hi k) by lia.
  destruct (Z.eqb_spec k tmp) as [->|]; [done|].
  destruct (Z.ltb_spec tmp k), (Z.leb_spec k (hi - 1)), (Z.leb_spec k hi); cbn [andb]; try lia;
    rewrite ?at_insert by lia; zcase; subst; lia || done.
Qed.

(** The first [n] elements are in order. *)
Definition sorted_to (a : list A) (n : Z) : Prop := ∀ i j, 0 <= i < j → j < n → a.[i] ≼ a.[j].

Lemma insert_spec a run t b :
  0 <= t < run → run < len a → length b = length a → sorted_to a run →
  a.[t] ≼ a.[run] → (∀ k, t < k < run → a.[run] ≼ a.[k]) →
  (∀ k, 0 <= k → b.[k] = if k =? t + 1 then a.[run]
                         else if (t + 1 <? k) && (k <=? run) then a.[k - 1] else a.[k]) →
  b ≡ₚ a ∧ sorted_to b (run + 1) ∧ b.[0] = a.[0].
Proof.
  intros Ht Hrun Hl Hs Hle Hgt Hb. split_and!.
  - pose (f k := if k =? t + 1 then run else if (t + 1 <? k) && (k <=? run) then k - 1 else k).
    pose (g k := if k =? run then t + 1 else if (t <? k) && (k <? run) then k + 1 else k).
    apply (perm_by a b f g); [done|]. intros k Hk. unfold f. rewrite Hb by lia.
    destruct (Z.eqb_spec k (t + 1)); [|destruct (Z.ltb_spec (t + 1) k), (Z.leb_spec k run)];
      cbn [andb]; (split; [lia|]); (split; [|done]); unfold g; zcase; cbn [andb]; lia.
  - intros i j Hij Hj. rewrite !Hb by lia.
    destruct (Z.eqb_spec i (t + 1)), (Z.eqb_spec j (t + 1)), (Z.ltb_spec (t + 1) i),
      (Z.ltb_spec (t + 1) j), (Z.leb_spec i run), (Z.leb_spec j run); cbn [andb]; try lia.
    + apply Hgt. lia.
    + destruct (decide (i = t)) as [->|]; [done|]. apply cmp_trans with a.[t]; [apply Hs; lia|done].
    + apply Hs; lia.
    + apply Hs; lia.
    + apply Hs; lia.
  - rewrite Hb by lia. zcase; cbn [andb]; lia || done.
Qed.

Lemma insertion_loop_spec fuel a run :
  0 < run < len a → sorted_to a (run + 1) → (∀ k, 0 <= k < len a → a.[0] ≼ a.[k]) →
  len a - run <= Z.of_nat fuel →
  ∃ b, insertion_loop cmp fuel a run (len a - 1) = Val b ∧ b ≡ₚ a ∧ sorted_to b (len a).
Proof.
  revert a run. induction fuel as [|fuel IH]; intros a run Hrun Hs Hmin Hf; [lia|].
  cbn [insertion_loop]. cbv zeta. destruct (Z.leb_spec (run + 1) (len a - 1)).
  - destruct (insert_pos_spec (length a) a (run + 1) (run + 1 - 1)) as (t & -> & Ht & Hle & Hgt);
      [lia|lia|apply Hmin; lia|lia|].
    cbn [mbind outcome_bind].
    assert (∃ b, (if negb (t + 1 =? run + 1)
                  then c ← get a (run + 1); shift (length a) a c (run + 1) (run + 1) (t + 1)
                  else Val a) = Val b ∧ length b = length a ∧
      ∀ k, 0 <= k → b.[k] = if k =? t + 1 then a.[run + 1]
                            else if (t + 1 <? k) && (k <=? run + 1) then a.[k - 1] else a.[k])
      as (b & -> & Lb & Hb).
    { destruct (Z.eqb_spec (t + 1) (run + 1)) as [E|]; cbn [negb].
      - exists a. split; [done|]. split; [done|]. intros k Hk. rewrite E.
        zcase; subst; cbn [andb]; lia || done.
      - rewrite get_val by lia. cbn [mbind outcome_bind]. apply shift_spec; lia. }
    cbn [mbind outcome_bind].
    destruct (insert_spec a (run + 1) t b) as (Pb & Sb & E0); [lia|lia|done|done|done|..|done|].
    { intros k Hk. apply Hgt. lia. }
    destruct (IH b (run + 1)) as (c & E & Pc & Sc); [lia|done| |lia|].
    { intros k Hk. rewrite E0. rewrite Lb in Hk.
      assert (b.[k] ∈ a) as Hin.
      { rewrite <- Pb. apply list_elem_of_lookup_2 with (Z.to_nat k).
        apply list_lookup_lookup_total_lt. lia. }
      apply list_elem_of_lookup in Hin as [i Hi]. pose proof (lookup_lt_Some _ _ _ Hi).
      replace (b.[k]) with (a.[Z.of_nat i]); [apply Hmin; lia|].
      rewrite Nat2Z.id. by apply list_lookup_total_correct. }
    rewrite Lb in E, Sc. exists c. split; [done|]. split; [by etransitivity|done].
  - exists a. split; [done|]. split; [done|]. by replace (len a) with (run + 1) by lia.
Qed.

Lemma sorted_to_StronglySorted a : sorted_to a (len a) → StronglySorted (λ x y, cmp x y <= 0) a.
Proof.
  induction a as [|x a IH]; intros H; constructor.
  - apply IH. intros i j Hij Hj. specialize (H (i + 1) (j + 1)).
    rewrite !Z2Nat.inj_add in H by lia. rewrite !Nat.add_1_r in H. apply H; [lia|]. cbn. lia.
  - apply Forall_forall. intros y [i Hi]%list_elem_of_lookup. pose proof (lookup_lt_Some _ _ _ Hi).
    specialize (H 0 (Z.of_nat i + 1) ltac:(lia) ltac:(cbn; lia)).
    rewrite Z2Nat.inj_add, Nat2Z.id, Nat.add_1_r in H by lia. change (cmp x (a !!! i) <= 0) in H.
    by rewrite (list_lookup_total_correct _ _ _ Hi) in H.
Qed.

Lemma pending_start a :
  MAX_THRESH < len a → pending a [(0, len a - 1)] (len a - 1).
Proof.
  unfold MAX_THRESH. intros H. split.
  - repeat constructor; unfold width, MAX_THRESH; cbn; lia.
  - cbn. unfold width. cbn. lia.
  - lia.
  - intros k j Hk Hj. lia.
  - exists []. split; [done|]. by left.
Qed.

(** The first element once the minimum of the first five is in front. *)
Lemma first_min a m :
  0 <= m <= Z.min (len a - 1) MAX_THRESH → MAX_THRESH < len a → head_min a →
  (∀ k, 0 <= k <= Z.min (len a - 1) MAX_THRESH → a.[m] ≼ a.[k]) → ∀ k, 0 <= k < len a → a.[m] ≼ a.[k].
Proof.
  intros Hm Hl (e & He & Hel & Hp) Hmin k Hk. unfold MAX_THRESH in *.
  destruct (decide (k <= 4)); [apply Hmin; lia|].
  apply cmp_trans with a.[0]; [apply Hmin; lia|apply Hp; lia].
Qed.

Lemma insertion_phase a m :
  0 < len a → 0 <= m < len a → (∀ k, 0 <= k < len a → a.[m] ≼ a.[k]) →
  ∃ b, (a ← (if negb (m =? 0) then SWAP a m 0 else Val a);
        insertion_loop cmp (length a) a 1 (len a - 1)) = Val b ∧ b ≡ₚ a ∧ sorted_to b (len a).
Proof.
  intros Hl Hm Hmin.
  assert (∃ b, (if negb (m =? 0) then SWAP a m 0 else Val a) = Val b ∧ b ≡ₚ a ∧ length b = length a ∧
    ∀ k, 0 <= k < len a → b.[0] ≼ b.[k]) as (b & -> & Pb & Lb & Hb).
  { destruct (Z.eqb_spec m 0) as [->|]; cbn [negb]; [by eauto|].
    exists (swp a m 0). rewrite SWAP_val by lia. split; [done|]. split; [apply swp_perm; lia|].
    split; [apply swp_length|]. intros k Hk. rewrite !swp_at, Z.eqb_refl by lia.
    zcase; subst; apply Hmin; lia. }
  cbn [mbind outcome_bind]. rewrite <- Lb in *.
  destruct (decide (len b = 1)) as [E1|].
  - exists b. split; [|split; [done|intros i j ? ?; lia]].
    destruct (length b) as [|[]] eqn:E; [lia|done|lia].
  - destruct (insertion_loop_spec (length b) b 1) as (c & E & Pc & Sc); [lia| |done|lia|].
    { intros i j Hij Hj. replace i with 0 by lia. apply Hb. lia. }
    exists c. split; [done|]. split; [by etransitivity|done].
Qed.
End proofs.

Lemma quicksort_sorts {A : Type} (cmp : A → A → Z) (a : list A) :
  TotalPreorder cmp → Z.of_nat (length a) < 2 ^ 64 →
  ∃ b, quicksort cmp a = Val b ∧ b ≡ₚ a ∧ StronglySorted (λ x y, cmp x y <= 0) b.
Proof.
  intros Hc Hn. destruct a as [|x0 a0]; [exists []; repeat split; constructor|].
  set (a := x0 :: a0) in *. pose (Inh := populate x0 : Inhabited A).
  assert (0 < Z.of_nat (length a)) as Hl by (unfold a; cbn; lia). clearbody a.
  unfold quicksort. cbv zeta. destruct (Z.eqb_spec (Z.of_nat (length a)) 0); [lia|].
  assert (∃ b, (if MAX_THRESH <? Z.of_nat (length a)
      then quick_loop cmp (length a) a (Some (0, Z.of_nat (length a) - 1)) [None] else Val a) = Val b ∧
    b ≡ₚ a ∧ (MAX_THRESH < Z.of_nat (length a) → head_min (cmp := cmp) b)) as (b & -> & Pb & Hh).
  { destruct (Z.ltb_spec MAX_THRESH (Z.of_nat (length a))) as [Hgt|]; [|exists a; by split_and!; [..|lia]].
    destruct (quick_loop_spec (cmp := cmp) (length a) a _ _ Hn (pending_start a Hgt)) as (b & E & Pb & Hh).
    - rewrite total_width_cons. cbn. lia.
    - exists b. split_and!; done. }
  pose proof (Permutation_length Pb) as Lb. cbn [mbind outcome_bind]. rewrite <- Lb in *.
  destruct (find_min_spec (cmp := cmp) (length b) b 1 0 (Z.min (Z.of_nat (length b) - 1) MAX_THRESH))
    as (m & -> & Hm & Hmin); [unfold MAX_THRESH; lia..| |unfold MAX_THRESH; lia|].
  { intros k Hk. replace k with 0 by lia. rewrite cmp_refl. lia. }
  cbn [mbind outcome_bind].
  destruct (insertion_phase (cmp := cmp) b m) as (c & E & Pc & Sc); [lia|lia| |].
  { destruct (decide (MAX_THRESH < Z.of_nat (length b))) as [Hgt|Hle].
    - by apply first_min; [| |apply Hh|].
    - intros k Hk. apply Hmin. unfold MAX_THRESH in *. lia. }
  exists c. split.
  - revert E. destruct (if negb (m =? 0) then _ else _) as [b'| |] eqn:Eb; [|done|done].
    cbn [mbind outcome_bind].
    assert (length b' = length b) as ->; [|done].
    destruct (negb (m =? 0)); [|by injection Eb as ->].
    rewrite SWAP_val in Eb by (unfold MAX_THRESH in *; lia). injection Eb as <-. apply swp_length.
  - split; [by etransitivity|]. apply sorted_to_StronglySorted.
    by rewrite (Permutation_length Pc).
Qed.

(** ** Main theorem *)

(** C36. [_quicksort] ends for every array of fewer than 2^64 elements and
    every comparison function that is a total preorder, with the array sorted
    and a permutation of what it was; it never reads or writes outside the
    array, although its scans have no bounds test, and never pushes on a full
    stack of 64 entries. *)
Theorem quicksort_correct {A : Type} (cmp : A → A → Z) (a : list A) :
  TotalPreorder cmp → Z.of_nat (length a) < 2 ^ 64 →
  ∃ b, quicksort cmp a = Val b ∧ b ≡ₚ a ∧ StronglySorted (λ x y, cmp x y <= 0) b.
Proof. apply quicksort_sorts. Qed.

#[export] Instance Zsub_preorder : TotalPreorder Z.sub.
Proof. split; lia. Qed.

Lemma quicksort_correct_witness :
  ∃ b, quicksort Z.sub [5; 3; 9; 1; 7; 7; 2; 8; 0; 4] = Val b ∧
    b ≡ₚ [5; 3; 9; 1; 7; 7; 2; 8; 0; 4] ∧ StronglySorted (λ x y, x - y <= 0) b.
Proof.
  apply (quicksort_correct Z.sub [5; 3; 9; 1; 7; 7; 2; 8; 0; 4]).
  - exact Zsub_preorder.
  - reflexivity.
Defined.
End Qsort.
