(* ===== verification/Msort.v ===== *)
(** * Sorting with a temporary array: [stdlib/msort.c]

    [qsort] and [qsort_r]: a merge sort that uses a temporary array on the
    stack or from [malloc], sorts pointers instead of objects of more than 32
    bytes and then permutes the objects along the cycles of the permutation,
    and falls back to [_quicksort] when the array would be too large or
    [malloc] fails.  An object is one element of a list; the four ways of
    copying an object ([p.var] 0, 1, 2 and 4) are the same at this level.  The
    temporary array is uninitialised memory: a list of options.  The size of
    the physical memory and of a page, and the success of [malloc], are
    parameters. *)

From stdpp Require Import sorting.
From S2P Require Import Prelude Qsort.
Import Qsort.
Local Open Scope Z_scope.

Module Msort.

(** [memcpy (dst + d, src + s, n)] by objects. *)
Definition copy {A B : Type} (f : A → option B) (dst : list B) (d : nat) (src : list A) (s n : nat)
    : outcome (list B) :=
  let xs := take n (drop s src) in
  if (length xs =? n)%nat && (d + n <=? length dst)%nat then
    ys ← deref (mapM f xs);
    Val (take d dst ++ ys ++ drop (d + n) dst)
  else Fault.

Definition store {B : Type} (l : list B) (i : nat) (x : B) : outcome (list B) :=
  if (i <? length l)%nat then Val (<[i:=x]> l) else Fault.

Section msort.
Context {A : Type}.
(** [cmp (b1, b2, arg)] on what is sorted; it may fail on a bad pointer. *)
Variable cmp : A → A → outcome Z.

(** What the merging loop leaves: the temporary array, [b1], [tmp], [n1] and
    [n2]. *)
Record merged := Merged { m_t : list (option A); m_b1 : nat; m_tmp : nat; m_n1 : nat; m_n2 : nat }.

Fixpoint merge_loop (fuel : nat) (b : list A) (t : list (option A)) (b1 b2 tmp n1 n2 : nat)
    : outcome merged :=
  if (0 <? n1)%nat && (0 <? n2)%nat then
    x ← deref (b !! b1);
    y ← deref (b !! b2);
    c ← cmp x y;
    match fuel with
    | O => NoFuel
    | S fuel' =>
        if c <=? 0
        then t ← store t tmp (Some x); merge_loop fuel' b t (S b1) b2 (S tmp) (n1 - 1) n2
        else t ← store t tmp (Some y); merge_loop fuel' b t b1 (S b2) (S tmp) n1 (n2 - 1)
    end
  else Val (Merged t b1 tmp n1 n2).

(** [msort_with_tmp (p, b + off, n)]. *)
Fixpoint msort_with_tmp (fuel : nat) (b : list A) (t : list (option A)) (off n : nat)
    : outcome (list A * list (option A)) :=
  if (n <=? 1)%nat then Val (b, t)
  else
    match fuel with
    | O => NoFuel
    | S fuel' =>
        let n1 := (n / 2)%nat in
        let n2 := (n - n1)%nat in
        msort_with_tmp fuel' b t off n1 ≫= λ r : list A * list (option A),
        msort_with_tmp fuel' r.1 r.2 (off + n1) n2 ≫= λ r : list A * list (option A),
        let b := r.1 in
        m ← merge_loop n b r.2 off (off + n1) 0 n1 n2;
        t ← (if (0 <? m_n1 m)%nat then copy (λ x, Some (Some x)) (m_t m) (m_tmp m) b (m_b1 m) (m_n1 m)
             else Val (m_t m));
        b ← copy id b off t 0 (n - m_n2 m);
        Val (b, t)
    end.
End msort.

(** The [do]-[while] loop that moves the objects of one cycle; [jp] and [kp]
    are the pointers, [j] the index of [jp]. *)
Fixpoint cycle {A : Type} (fuel : nat) (b : list A) (tp : list nat) (ip j jp kp : nat)
    : outcome (list A * list nat * nat * nat) :=
  match fuel with
  | O => NoFuel
  | S fuel' =>
      let k := kp in
      tp ← store tp j jp;
      x ← deref (b !! kp);
      b ← store b jp x;
      let j := k in
      let jp := kp in
      kp ← deref (tp !! k);
      if negb (kp =? ip)%nat then cycle fuel' b tp ip j jp kp else Val (b, tp, j, jp)
  end.

(** The loop over [i] that copies the entries around. *)
Fixpoint permute {A : Type} (fuel : nat) (b : list A) (tp : list nat) (i n : nat) : outcome (list A) :=
  if (i <? n)%nat then
    match fuel with
    | O => NoFuel
    | S fuel' =>
        kp ← deref (tp !! i);
        if negb (kp =? i)%nat then
          tmp_storage ← deref (b !! i);
          cycle n b tp i i i kp ≫= λ r : list A * list nat * nat * nat,
          tp ← store r.1.1.2 r.1.2 r.2;
          b ← store r.1.1.1 r.2 tmp_storage;
          permute fuel' b tp (S i) n
        else permute fuel' b tp (S i) n
    end
  else Val b.

(** The static variables of [__qsort_r]. *)
Record sort_state := SortState { phys_pages : Z; pagesize : Z }.

Section qsort.
Context {A : Type}.
Variable cmp : A → A → Z.
(** [sysconf (_SC_PHYS_PAGES)], [sysconf (_SC_PAGESIZE)] and whether
    [malloc (size)] succeeds. *)
Variables sc_phys_pages sc_pagesize : Z.
Variable malloc : Z → bool.

(** Sorting with the temporary array [p.t] of [size] bytes: it holds [n]
    pointers to merge with, the [n] pointers to sort and an object, or the
    objects to merge with. *)
Definition with_tmp (b : list A) (s size : Z) : outcome (list A) :=
  let n := length b in
  if 32 <? s then
    if size <? 2 * Z.of_nat n * 8 + s then Fault else
    let cmp_at i j := x ← deref (b !! i); y ← deref (b !! j); Val (cmp x y) in
    msort_with_tmp cmp_at n (seq 0 n) (replicate n None) 0 n ≫= λ r : list nat * list (option nat),
    permute n b r.1 0 n
  else fst <$> msort_with_tmp (λ x y, Val (cmp x y)) n b (replicate (Z.to_nat (size / s)) None) 0 n.

Definition init_pages (st : sort_state) : sort_state :=
  if pagesize st =? 0 then
    let phys := if sc_phys_pages =? -1 then LONG_MAX else sc_phys_pages in
    SortState (Z.quot phys 4) (wraps 32 sc_pagesize)
  else st.

Definition qsort_r (st : sort_state) (b : list A) (s : Z) : outcome (list A * sort_state) :=
  let n := Z.of_nat (length b) in
  let size := wrapu 64 (n * s) in
  let size := if 32 <? s then wrapu 64 (2 * n * 8 + s) else size in
  if size <? 1024 then b ← with_tmp b s size; Val (b, st)
  else
    let st := init_pages st in
    let page := wrapu 64 (pagesize st) in
    if page =? 0 then Fault
    else if wrapu 64 (phys_pages st) <? size / page then b ← quicksort cmp b; Val (b, st)
    else if malloc size then b ← with_tmp b s size; Val (b, st)
    else b ← quicksort cmp b; Val (b, st).
End qsort.

(** ** Slices *)

(** [l] lies in [b] from index [i]. *)
Definition at_ {A : Type} (b : list A) (i : nat) (l : list A) : Prop := take (length l) (drop i b) = l.

Section slices.
Context {A : Type}.
Implicit Types (b l : list A).

Lemma at_cons b i x l : at_ b i (x :: l) ↔ b !! i = Some x ∧ at_ b (S i) l.
Proof.
  unfold at_. cbn [length]. split.
  - intros E. destruct (drop i b) as [|y r] eqn:Ed; [done|]. cbn in E. injection E as -> E.
    assert (b !! i = Some x) as Hx by (rewrite <- (Nat.add_0_r i), <- lookup_drop, Ed; done).
    split; [done|]. rewrite (drop_S _ _ _ Hx) in Ed. injection Ed as Ed. by rewrite Ed.
  - intros [Hx E]. rewrite (drop_S _ _ _ Hx). cbn. by rewrite E.
Qed.

Lemma at_app b i l l' : at_ b i (l ++ l') ↔ at_ b i l ∧ at_ b (i + length l) l'.
Proof.
  revert i. induction l as [|x l IH]; intros i; cbn [app length].
  - rewrite Nat.add_0_r. unfold at_ at 2. cbn. rewrite take_0. naive_solver.
  - rewrite !at_cons, IH. replace (i + S (length l))%nat with (S i + length l)%nat by lia. naive_solver.
Qed.

Lemma at_self pre l post : at_ (pre ++ l ++ post) (length pre) l.
Proof. unfold at_. by rewrite drop_app_length, take_app_length. Qed.

Lemma at_whole l : at_ l 0 l.
Proof. unfold at_. by rewrite drop_0, take_ge. Qed.

Lemma copy_at {B : Type} (f : A → option B) (dst : list B) d src i l ys :
  at_ src i l → mapM f l = Some ys → (d + length l <= length dst)%nat →
  copy f dst d src i (length l) = Val (take d dst ++ ys ++ drop (d + length l) dst).
Proof.
  unfold at_. intros Hat Hm Hd. unfold copy. cbv zeta. rewrite !Hat, Nat.eqb_refl.
  destruct (Nat.leb_spec (d + length l) (length dst)); [|lia]. cbn [andb]. by rewrite Hm.
Qed.
End slices.

(** ** Merging *)

Section merge.
Context {A : Type} (cmp : A → A → outcome Z) (c : A → A → Z) (P : A → Prop).
Hypothesis cmp_val : ∀ x y, P x → P y → cmp x y = Val (c x y).

Definition le (x y : A) : Prop := c x y <= 0.
#[export] Instance le_dec : RelDecision le.
Proof. intros x y. unfold le. apply _. Defined.

Lemma store_done {B : Type} (dn rest : list B) n x :
  n = length dn → (0 < length rest)%nat → store (dn ++ rest) n x = Val ((dn ++ [x]) ++ drop 1 rest).
Proof.
  intros -> H. unfold store. destruct rest as [|y rest]; [cbn in H; lia|].
  rewrite length_app. cbn [length]. destruct (Nat.ltb_spec (length dn) (length dn + S (length rest))); [|lia].
  rewrite insert_app_r_alt, Nat.sub_diag by lia. cbn [drop]. by rewrite drop_0, <- (assoc_L (++)).
Qed.

(** The loop moves a prefix of the merge to the temporary array and stops
    with one run empty. *)
Lemma merge_loop_spec fuel b (dn : list A) (rest : list (option A)) b1 b2 l1 l2 :
  at_ b b1 l1 → at_ b b2 l2 → Forall P l1 → Forall P l2 →
  (length l1 + length l2 <= fuel)%nat → (length l1 + length l2 <= length rest)%nat →
  ∃ dn' k1 k2 l1' l2', (l1' = [] ∨ l2' = []) ∧
    list_merge le l1 l2 = dn' ++ l1' ++ l2' ∧
    length l1 = (k1 + length l1')%nat ∧ length l2 = (k2 + length l2')%nat ∧
    length dn' = (k1 + k2)%nat ∧ drop k1 l1 = l1' ∧ drop k2 l2 = l2' ∧
    merge_loop cmp fuel b ((Some <$> dn) ++ rest) b1 b2 (length dn) (length l1) (length l2)
    = Val (Merged ((Some <$> (dn ++ dn')) ++ drop (length dn') rest) (b1 + k1)
             (length dn + length dn') (length l1') (length l2')).
Proof.
  revert dn rest b1 b2 l1 l2. induction fuel as [|fuel IH]; intros dn rest b1 b2 l1 l2 H1 H2 P1 P2 Hf Hr.
  { destruct l1, l2; cbn in Hf; try lia. exists [], 0%nat, 0%nat, [], []. cbn. rewrite drop_0, app_nil_r, !Nat.add_0_r.
    split_and!; auto. }
  destruct l1 as [|x l1].
  { exists [], 0%nat, 0%nat, [], l2. cbn [merge_loop length]. cbn. rewrite !drop_0, app_nil_r, !Nat.add_0_r.
    split_and!; auto. by destruct l2. }
  destruct l2 as [|y l2].
  { exists [], 0%nat, 0%nat, (x :: l1), []. cbn [merge_loop length]. cbn. rewrite !drop_0, !app_nil_r, !Nat.add_0_r.
    split_and!; auto. }
  pose proof H1 as [Ex H1']%at_cons. pose proof H2 as [Ey H2']%at_cons.
  apply Forall_cons_1 in P1 as [Px P1]. apply Forall_cons_1 in P2 as [Py P2].
  cbn [merge_loop length Nat.ltb Nat.leb andb]. rewrite Ex, Ey. cbn [deref mbind outcome_bind].
  rewrite cmp_val by done. cbn [mbind outcome_bind]. cbn [length] in Hf, Hr.
  rewrite !store_done by (rewrite ?length_fmap; lia). cbn [mbind outcome_bind].
  replace (S (length l1) - 1)%nat with (length l1) by lia.
  replace (S (length l2) - 1)%nat with (length l2) by lia.
  destruct (decide (le x y)) as [Hle|Hle]; unfold le in Hle.
  - destruct (Z.leb_spec (c x y) 0); [|lia].
    destruct (IH (dn ++ [x]) (drop 1 rest) (S b1) b2 l1 (y :: l2))
      as (dn' & k1 & k2 & l1' & l2' & Hor & Em & L1 & L2 & Ld & D1 & D2 & E);
      [done|done|done|by constructor|cbn; lia|rewrite length_drop; cbn; lia|].
    rewrite fmap_app in E. cbn [fmap list_fmap] in E. rewrite length_app in E. cbn [length] in E.
    rewrite Nat.add_1_r in E.
    exists (x :: dn'), (S k1), k2, l1', l2'. rewrite E. cbn [list_merge]. rewrite decide_True by done.
    split_and!; try done; cbn [length]; try lia; [by rewrite Em|].
    f_equal. f_equal; [|lia..]. rewrite <- (assoc_L (++)), drop_drop. done.
  - destruct (Z.leb_spec (c x y) 0); [lia|].
    destruct (IH (dn ++ [y]) (drop 1 rest) b1 (S b2) (x :: l1) l2)
      as (dn' & k1 & k2 & l1' & l2' & Hor & Em & L1 & L2 & Ld & D1 & D2 & E);
      [done|done|by constructor|done|cbn; lia|rewrite length_drop; cbn; lia|].
    rewrite fmap_app in E. cbn [fmap list_fmap] in E. rewrite length_app in E. cbn [length] in E.
    rewrite Nat.add_1_r in E.
    exists (y :: dn'), k1, (S k2), l1', l2'. rewrite E. cbn [list_merge]. rewrite decide_False by done.
    split_and!; try done; cbn [length]; try lia; [cbn; f_equal; exact Em|].
    f_equal. f_equal; [|lia..]. rewrite <- (assoc_L (++)), drop_drop. done.
Qed.

(** The merge sort of lists with the same splits. *)
Fixpoint msort_ref (fuel : nat) (l : list A) : list A :=
  if (length l <=? 1)%nat then l
  else
    match fuel with
    | O => l
    | S fuel' =>
        list_merge le (msort_ref fuel' (take (length l / 2) l)) (msort_ref fuel' (drop (length l / 2) l))
    end.

Lemma msort_ref_perm fuel l : msort_ref fuel l ≡ₚ l.
Proof.
  revert l. induction fuel as [|fuel IH]; intros l; cbn [msort_ref];
    destruct (Nat.leb_spec (length l) 1); try done.
  rewrite merge_Permutation, !IH. by rewrite take_drop.
Qed.

Lemma mapM_Some (l : list A) : mapM id (Some <$> l) = Some l.
Proof. induction l as [|x l IH]; [done|]. cbn. by rewrite IH. Qed.

Lemma mapM_Some_Some (l : list A) : mapM (λ x, Some (Some x)) l = Some (Some <$> l).
Proof. induction l as [|x l IH]; [done|]. cbn. by rewrite IH. Qed.

(** The copies after the loop: the rest of the first run to the temporary
    array, and the temporary array to its place. *)
Lemma copy_rest b (t : list (option A)) (dn l1' : list A) i :
  at_ b i l1' → (length dn + length l1' <= length t)%nat →
  ∃ rest, (if (0 <? length l1')%nat
           then copy (λ x, Some (Some x)) ((Some <$> dn) ++ drop (length dn) t) (length dn) b i (length l1')
           else Val ((Some <$> dn) ++ drop (length dn) t))
    = Val ((Some <$> (dn ++ l1')) ++ rest) ∧
    length ((Some <$> (dn ++ l1')) ++ rest) = length t.
Proof.
  intros Hat Hl. destruct (Nat.ltb_spec 0 (length l1')) as [H|H].
  - rewrite (copy_at _ _ _ _ _ l1' (Some <$> l1'));
      [|done|apply mapM_Some_Some|rewrite length_app, length_fmap, length_drop; lia].
    exists (drop (length dn + length l1') t). split.
    + f_equal. replace (length dn) with (length (Some <$> dn)) at 1 by apply length_fmap.
      rewrite take_app_length, fmap_app, <- (assoc_L (++)). do 2 f_equal.
      rewrite drop_app_ge by (rewrite length_fmap; lia). rewrite length_fmap, drop_drop. f_equal. lia.
    + rewrite length_app, length_fmap, length_app, length_drop. lia.
  - destruct l1'; [|cbn in H; lia]. rewrite app_nil_r. eexists. split; [done|].
    rewrite length_app, length_fmap, length_drop. cbn in Hl. lia.
Qed.

Lemma copy_back pre (l1 l2 post dn l1' l2' : list A) rest k2 n :
  n = (length dn + length l1')%nat → (length dn + length l1' = length l1 + k2)%nat →
  drop k2 l2 = l2' → (k2 <= length l2)%nat →
  copy id (pre ++ l1 ++ l2 ++ post) (length pre) ((Some <$> (dn ++ l1')) ++ rest) 0 n
  = Val (pre ++ (dn ++ l1') ++ l2' ++ post).
Proof.
  intros -> El <- Hk.
  replace (length dn + length l1')%nat with (length (Some <$> (dn ++ l1')))
    by (by rewrite length_fmap, length_app).
  rewrite (copy_at _ _ _ _ _ _ (dn ++ l1')).
  - rewrite take_app_length, length_fmap, length_app. do 3 f_equal.
    rewrite drop_app_add'; [|done]. rewrite El.
    rewrite drop_app_add'; [|done]. by rewrite drop_app_le by lia.
  - apply (at_self []).
  - apply mapM_Some.
  - rewrite length_fmap, !length_app. lia.
Qed.

Lemma msort_with_tmp_spec fuel pre l post (t : list (option A)) :
  (length l <= S fuel)%nat → (length l <= length t)%nat → Forall P l →
  ∃ t', msort_with_tmp cmp fuel (pre ++ l ++ post) t (length pre) (length l)
        = Val (pre ++ msort_ref fuel l ++ post, t') ∧ length t' = length t.
Proof.
  revert pre l post t. induction fuel as [|fuel IH]; intros pre l post t Hf Ht HP;
    cbn [msort_with_tmp msort_ref]; destruct (Nat.leb_spec (length l) 1); try (by eauto); [lia|].
  cbv zeta. set (n1 := (length l / 2)%nat).
  assert (n1 < length l ∧ 0 < n1)%nat as [Hn1 Hpos]
    by (unfold n1; split; [apply Nat.div_lt; lia|apply Nat.div_str_pos; lia]).
  set (l1 := take n1 l). set (l2 := drop n1 l).
  assert (length l1 = n1) as L1 by (unfold l1; rewrite length_take; lia).
  assert (length l2 = length l - n1)%nat as L2 by (unfold l2; by rewrite length_drop).
  assert (Forall P l1 ∧ Forall P l2) as [P1 P2] by (apply Forall_app; unfold l1, l2; by rewrite take_drop).
  assert (l = l1 ++ l2) as El by (unfold l1, l2; by rewrite take_drop).
  assert (pre ++ l ++ post = pre ++ l1 ++ l2 ++ post) as ->
    by (rewrite (assoc_L (++) l1), <- El; done).
  clearbody l1 l2. clearbody n1. subst n1.
  destruct (IH pre l1 (l2 ++ post) t) as (t1 & -> & Lt1); [lia..|done|]. cbn [mbind outcome_bind fst snd].
  set (s1 := msort_ref fuel l1). assert (length s1 = length l1) as Ls1 by apply Permutation_length, msort_ref_perm.
  replace (length l - length l1)%nat with (length l2) by lia.
  rewrite (assoc_L (++) pre s1).
  replace (length pre + length l1)%nat with (length (pre ++ s1)) by (rewrite length_app; lia).
  destruct (IH (pre ++ s1) l2 post t1) as (t2 & -> & Lt2); [lia..|done|]. cbn [mbind outcome_bind fst snd].
  set (s2 := msort_ref fuel l2). assert (length s2 = length l2) as Ls2 by apply Permutation_length, msort_ref_perm.
  set (b := (pre ++ s1) ++ s2 ++ post).
  assert (at_ b (length pre) (s1 ++ s2)) as Hat.
  { unfold b. rewrite <- (assoc_L (++)), (assoc_L (++) s1). apply at_self. }
  apply at_app in Hat as [A1 A2].
  destruct (merge_loop_spec (length l) b [] t2 (length pre) (length (pre ++ s1)) s1 s2)
    as (dn & k1 & k2 & l1' & l2' & Hor & Em & E1 & E2 & Ed & D1 & D2 & E);
    [done|by rewrite length_app|unfold s1; by rewrite msort_ref_perm|unfold s2; by rewrite msort_ref_perm|
     rewrite El, length_app; lia|lia|].
  cbn [fmap list_fmap app length] in E. rewrite Ls1, Ls2 in E. rewrite E. cbn [mbind outcome_bind m_t m_b1 m_tmp m_n1 m_n2].
  destruct (copy_rest b t2 dn l1' (length pre + k1)) as (rest & Ec & Lr).
  { rewrite <- (take_drop k1 s1), D1 in A1. apply at_app in A1 as [_ A1].
    rewrite length_take in A1. by replace (k1 `min` length s1)%nat with k1 in A1 by lia. }
  { lia. }
  rewrite Nat.add_0_l, Ec. cbn [mbind outcome_bind].
  unfold b. rewrite <- (assoc_L (++)), (copy_back pre s1 s2 post dn l1' l2' rest k2) by (done || lia).
  cbn [mbind outcome_bind]. eexists. split; [|rewrite Lr; lia].
  fold s1 s2. rewrite Em. by rewrite <- !(assoc_L (++)).
Qed.
End merge.

(** ** The cycles of a permutation *)

Section cycles.
Context {A : Type}.
Implicit Types (b : list A) (tp T : list nat).

(** The transposition of two indices. *)
Definition flip (j k p : nat) : nat := if decide (p = j) then k else if decide (p = k) then j else p.

#[local] Instance flip_inj j k : Inj (=) (=) (flip j k).
Proof. intros p q. unfold flip. repeat case_decide; congruence. Qed.

(** [T] is a permutation of the indices of [b]. *)
Record perm_on (n : nat) (T : list nat) : Prop := {
  po_length : length T = n;
  po_nodup : NoDup T;
  po_lt : Forall (λ p, p < n)%nat T
}.

Lemma perm_on_inj n T u v p : perm_on n T → T !! u = Some p → T !! v = Some p → u = v.
Proof. intros [_ Hn _]. by apply NoDup_lookup. Qed.

Lemma perm_on_lt n T u p : perm_on n T → T !! u = Some p → (u < n)%nat ∧ (p < n)%nat.
Proof.
  intros [Hl _ Hlt] Hu. split; [rewrite <- Hl; by eapply lookup_lt_Some|].
  by apply (Forall_lookup_1 _ _ _ _ Hlt Hu).
Qed.

Lemma perm_on_flip n T j k : perm_on n T → (j < n)%nat → (k < n)%nat → perm_on n (flip j k <$> T).
Proof.
  intros [Hl Hn Hlt] Hj Hk. split.
  - by rewrite length_fmap.
  - by apply NoDup_fmap_2; [apply _|].
  - apply Forall_fmap. eapply Forall_impl; [exact Hlt|]. intros p Hp. unfold flip, compose. by repeat case_decide.
Qed.

(** The indices that are not fixed points. *)
Definition moved (n : nat) (T : list nat) : nat :=
  length (filter (λ u, T !! u ≠ Some u) (seq 0 n)).

Lemma moved_le n T : (moved n T <= n)%nat.
Proof. unfold moved. etransitivity; [apply length_filter|]. by rewrite length_seq. Qed.

Lemma moved_lt n T T' j :
  (j < n)%nat → T !! j ≠ Some j → T' !! j = Some j → (∀ u, T !! u = Some u → T' !! u = Some u) →
  (moved n T' < moved n T)%nat.
Proof.
  intros Hj H1 H2 H3. unfold moved.
  assert (j ∈ seq 0 n) as [l1 [l2 El]]%list_elem_of_split by (apply elem_of_seq; lia).
  rewrite El, !filter_app, !length_app, (filter_cons_True _ j l2 H1), filter_cons_False by naive_solver.
  assert (∀ l, length (filter (λ u, T' !! u ≠ Some u) l) <= length (filter (λ u, T !! u ≠ Some u) l))%nat as Hle.
  { induction l as [|u l IH]; [done|]. rewrite !filter_cons.
    destruct (decide (T' !! u ≠ Some u)), (decide (T !! u ≠ Some u)); cbn; lia || naive_solver. }
  pose proof (Hle l1). pose proof (Hle l2). cbn. lia.
Qed.

(** The real arrays of the loop against the ones it stands for: the object
    held in [tmp_storage] belongs to the hole [j], and a pointer to [ip] of
    another entry stands for a pointer to the hole. *)
Definition stands (tp T : list nat) (ip j : nat) : Prop :=
  ∀ u, u ≠ j → tp !! u = (λ p, if decide (p = j) then ip else p) <$> T !! u.

Lemma store_val {B : Type} (l : list B) i x : (i < length l)%nat → store l i x = Val (<[i:=x]> l).
Proof. intros H. unfold store. by destruct (Nat.ltb_spec i (length l)); [|lia]. Qed.

(** One round moves an object to the hole [j], and the hole to [kp]. *)
Lemma flip_lookup b T j kp tmp x u p :
  T !! u = Some p → b !! kp = Some x → (j < length b)%nat → (kp < length b)%nat → kp ≠ j →
  (<[kp:=tmp]> (<[j:=x]> b)) !! flip j kp p = <[j:=tmp]> b !! p.
Proof.
  intros Hu Hx Hj Hk Hne. unfold flip. destruct (decide (p = j)) as [->|Hpj].
  - rewrite list_lookup_insert_eq by (by rewrite length_insert). by rewrite list_lookup_insert_eq.
  - rewrite (list_lookup_insert_ne b j p) by done. destruct (decide (p = kp)) as [->|Hpk].
    + rewrite list_lookup_insert_ne by done. by rewrite list_lookup_insert_eq.
    + by rewrite !list_lookup_insert_ne by done.
Qed.

Lemma flip_fixed n T j kp u :
  perm_on n T → T !! j = Some kp → kp ≠ j → T !! u = Some u → (flip j kp <$> T) !! u = Some u.
Proof.
  intros HT Hj Hne Hu. rewrite list_lookup_fmap, Hu. cbn. unfold flip.
  destruct (decide (u = j)) as [->|]; [congruence|].
  destruct (decide (u = kp)) as [->|]; [|done]. by pose proof (perm_on_inj _ _ _ _ _ HT Hj Hu).
Qed.

Lemma stands_step n tp T ip j kp :
  perm_on n T → length tp = n → T !! j = Some kp → kp ≠ j → stands tp T ip j →
  stands (<[j:=j]> tp) (flip j kp <$> T) ip kp.
Proof.
  intros HT Hl Hj Hne Hst u Hu. destruct (perm_on_lt _ _ _ _ HT Hj) as [Hjn Hkn].
  rewrite list_lookup_fmap. destruct (decide (u = j)) as [->|Huj].
  - rewrite list_lookup_insert_eq, Hj by lia. cbn. unfold flip.
    repeat (case_decide; try done).
  - rewrite list_lookup_insert_ne, (Hst u Huj) by done. destruct (T !! u) as [p|] eqn:Hp; [|done].
    assert (p ≠ kp) by (intros ->; by pose proof (perm_on_inj _ _ _ _ _ HT Hj Hp)).
    cbn. unfold flip. repeat (case_decide; try done).
Qed.

Lemma cycle_spec n fuel b tp T ip j kp tmp :
  perm_on n T → length tp = n → length b = n → T !! j = Some kp → kp ≠ j → stands tp T ip j →
  (ip = j ∨ T !! ip = Some ip) → (moved n T <= fuel)%nat →
  ∃ b' tp' jl, cycle fuel b tp ip j j kp = Val (b', tp', jl, jl) ∧ (jl < n)%nat ∧
    length b' = n ∧ length tp' = n ∧
    let bf := <[jl:=tmp]> b' in let tpf := <[jl:=jl]> tp' in
    perm_on n tpf ∧ tpf !! j = Some j ∧ (∀ u, T !! u = Some u → tpf !! u = Some u) ∧
    ∀ u p q, T !! u = Some p → tpf !! u = Some q → bf !! q = <[j:=tmp]> b !! p.
Proof.
  revert b tp T j kp. induction fuel as [|fuel IH]; intros b tp T j kp HT Ltp Lb Hj Hne Hst Hip Hf.
  all: destruct (perm_on_lt _ _ _ _ HT Hj) as [Hjn Hkn].
  all: set (T1 := flip j kp <$> T).
  all: assert (T1 !! j = Some j) as Hj1
    by (unfold T1; rewrite list_lookup_fmap, Hj; cbn; unfold flip; repeat (case_decide; try done)).
  all: assert (∀ u, T !! u = Some u → T1 !! u = Some u) as Hfix by (intros u; by eapply flip_fixed).
  all: assert (moved n T1 < moved n T)%nat as Hm by (eapply moved_lt; [exact Hjn|congruence|done|done]).
  { lia. }
  assert (perm_on n T1) as HT1 by (by apply perm_on_flip).
  pose proof (stands_step n tp T ip j kp HT Ltp Hj Hne Hst) as Hst1. fold T1 in Hst1.
  cbn [cycle]. rewrite store_val by lia. cbn [mbind outcome_bind].
  destruct (lookup_lt_is_Some_2 b kp) as [x Hx]; [lia|]. rewrite Hx. cbn [deref mbind outcome_bind].
  rewrite store_val by lia. cbn [mbind outcome_bind].
  destruct (lookup_lt_is_Some_2 T kp) as [q Hq]; [by rewrite (po_length _ _ HT)|].
  rewrite list_lookup_insert_ne, (Hst kp), Hq by done. cbn [fmap option_fmap option_map deref mbind outcome_bind].
  set (b1 := <[j:=x]> b). set (tp1 := <[j:=j]> tp) in *.
  assert (length b1 = n ∧ length tp1 = n) as [Lb1 Ltp1] by (unfold b1, tp1; by rewrite !length_insert).
  assert (∀ u p, T !! u = Some p → <[kp:=tmp]> b1 !! flip j kp p = <[j:=tmp]> b !! p) as Hval.
  { intros u p Hu. eapply flip_lookup; [exact Hu|done|lia|lia|done]. }
  destruct (decide (q = j)) as [->|Hqj].
  - rewrite Nat.eqb_refl. cbn [negb]. exists b1, tp1, kp. cbv zeta.
    assert (∀ u, <[kp:=kp]> tp1 !! u = T1 !! u) as Eu.
    { intros u. destruct (decide (u = kp)) as [->|Hu].
      - rewrite list_lookup_insert_eq by lia. unfold T1. rewrite list_lookup_fmap, Hq. cbn. unfold flip.
        by rewrite decide_True.
      - rewrite list_lookup_insert_ne, (Hst1 u Hu) by done. destruct (T1 !! u) as [p|] eqn:Ep; [|done]. cbn.
        rewrite decide_False; [done|]. intros ->. apply Hu.
        apply (perm_on_inj _ _ _ _ _ HT1 Ep). unfold T1. rewrite list_lookup_fmap, Hq. cbn. unfold flip.
        by rewrite decide_True. }
    assert (<[kp:=kp]> tp1 = T1) as -> by (by apply list_eq).
    split_and!; try done. intros u p q Hu Hq'. rewrite <- (Hval u p Hu). f_equal.
    unfold T1 in Hq'. rewrite list_lookup_fmap, Hu in Hq'. by injection Hq' as <-.
  - assert (q ≠ kp) as Hqk by (intros ->; by pose proof (perm_on_inj _ _ _ _ _ HT Hj Hq)).
    assert (T1 !! kp = Some q) as Hq1.
    { unfold T1. rewrite list_lookup_fmap, Hq. cbn. unfold flip. by rewrite !decide_False. }
    assert (T1 !! ip = Some ip) as Hip1 by (destruct Hip as [->|Hip]; [done|by apply Hfix]).
    assert (q ≠ ip) as Hqi.
    { intros ->. pose proof (perm_on_inj _ _ _ _ _ HT1 Hq1 Hip1) as ->. congruence. }
    destruct (Nat.eqb_spec q ip) as [|_]; [done|]. cbn [negb].
    destruct (IH b1 tp1 T1 kp q) as (b' & tp' & jl & E & Hjl & L1 & L2 & Hp & Hfk & Hff & Hv);
      [done|done|done|done|done|done|by right|lia|].
    exists b', tp', jl. split; [exact E|]. split_and!; [done..| | |]; [by apply Hff|by intros u Hu; apply Hff, Hfix|].
    intros u p r Hu Hr. rewrite <- (Hval u p Hu). apply (Hv u); [|done].
    unfold T1. by rewrite list_lookup_fmap, Hu.
Qed.

Lemma permute_spec n fuel b tp i :
  perm_on n tp → length b = n → (∀ u, (u < i)%nat → (u < n)%nat → tp !! u = Some u) →
  (n <= fuel + i)%nat →
  ∃ b', permute fuel b tp i n = Val b' ∧ length b' = n ∧ ∀ u p, tp !! u = Some p → b' !! u = b !! p.
Proof.
  revert b tp i. induction fuel as [|fuel IH]; intros b tp i HT Lb Hfix Hf; cbn [permute];
    destruct (Nat.ltb_spec i n) as [Hi|Hi]; try lia.
  1,3: exists b; split; [done|]; split; [done|]; intros u p Hu;
    destruct (perm_on_lt _ _ _ _ HT Hu); rewrite (Hfix u) in Hu by lia; by injection Hu as ->.
  destruct (lookup_lt_is_Some_2 tp i) as [kp Hkp]; [by rewrite (po_length _ _ HT)|].
  rewrite Hkp. cbn [deref mbind outcome_bind]. destruct (Nat.eqb_spec kp i) as [->|Hne]; cbn [negb].
  - apply IH; [done|done| |lia]. intros u Hu Hn. destruct (decide (u = i)) as [->|]; [done|]. apply Hfix; lia.
  - destruct (lookup_lt_is_Some_2 b i) as [tmp Htmp]; [lia|]. rewrite Htmp. cbn [deref mbind outcome_bind].
    destruct (cycle_spec n n b tp tp i i kp tmp) as (b1 & tp1 & jl & -> & Hjl & L1 & L2 & Hp & Hii & Hff & Hv);
      [done|apply HT|done|done|done| |by left|apply moved_le|].
    { intros u Hu. destruct (tp !! u) as [p|] eqn:Ep; [|done]. cbn. by case_decide; subst. }
    cbn [mbind outcome_bind fst snd]. rewrite !store_val by lia. cbn [mbind outcome_bind].
    destruct (IH (<[jl:=tmp]> b1) (<[jl:=jl]> tp1) (S i)) as (b' & -> & Lb' & Hb');
      [done|by rewrite length_insert| |lia|].
    { intros u Hu Hn. destruct (decide (u = i)) as [->|]; [done|]. apply Hff, Hfix; lia. }
    exists b'. split; [done|]. split; [done|]. intros u p Hu.
    destruct (lookup_lt_is_Some_2 (<[jl:=jl]> tp1) u) as [q Hq].
    { rewrite (po_length _ _ Hp). by destruct (perm_on_lt _ _ _ _ HT Hu). }
    rewrite (Hb' u q Hq), (Hv u p q Hu Hq). by rewrite list_insert_id.
Qed.
End cycles.

(** ** Both ways of sorting give the same array *)

Lemma list_merge_fmap {A B : Type} (f : A → B) (c : A → A → Z) (c' : B → B → Z) l1 l2 :
  (∀ x y, c x y = c' (f x) (f y)) →
  f <$> list_merge (le c) l1 l2 = list_merge (le c') (f <$> l1) (f <$> l2).
Proof.
  intros Hc. revert l2. induction l1 as [|x l1 IH1]; intros l2; [by destruct l2|].
  induction l2 as [|y l2 IH2]; [done|]. cbn [list_merge fmap list_fmap].
  destruct (decide (le c x y)) as [Hle|Hle]; unfold le in Hle; rewrite Hc in Hle.
  - rewrite (decide_True (P := le c' (f x) (f y))) by done. cbn [fmap list_fmap]. f_equal. apply IH1.
  - rewrite (decide_False (P := le c' (f x) (f y))) by done. cbn [fmap list_fmap]. f_equal. exact IH2.
Qed.

Lemma msort_ref_fmap {A B : Type} (f : A → B) (c : A → A → Z) (c' : B → B → Z) fuel l :
  (∀ x y, c x y = c' (f x) (f y)) → f <$> msort_ref c fuel l = msort_ref c' fuel (f <$> l).
Proof.
  intros Hc. revert l. induction fuel as [|fuel IH]; intros l; cbn [msort_ref]; rewrite length_fmap;
    destruct (Nat.leb_spec (length l) 1); try done.
  rewrite (list_merge_fmap f c c') by done. by rewrite !IH, fmap_take, fmap_drop.
Qed.

Lemma seq_perm_on n l : l ≡ₚ seq 0 n → perm_on n l.
Proof.
  intros Hl. split.
  - by rewrite Hl, length_seq.
  - rewrite Hl. apply NoDup_seq.
  - rewrite Hl. apply Forall_forall. intros u Hu. apply elem_of_seq in Hu. lia.
Qed.

Lemma fmap_seq_total {A : Type} `{!Inhabited A} (b : list A) : (λ i, b !!! i) <$> seq 0 (length b) = b.
Proof.
  apply list_eq. intros i. rewrite list_lookup_fmap. destruct (decide (i < length b)%nat) as [Hi|Hi].
  - rewrite lookup_seq_lt by done. cbn. by rewrite list_lookup_lookup_total_lt.
  - rewrite lookup_seq_ge, lookup_ge_None_2 by lia. done.
Qed.

(** Without any law of the comparison function. *)
Lemma with_tmp_spec {A : Type} (cmp : A → A → Z) (b : list A) s size :
  0 < s → (if 32 <? s then 2 * Z.of_nat (length b) * 8 + s else Z.of_nat (length b) * s) <= size →
  with_tmp cmp b s size = Val (msort_ref cmp (length b) b).
Proof.
  intros Hs Hsize. unfold with_tmp. cbv zeta. destruct (32 <? s); [rewrite (proj2 (Z.ltb_ge _ _) Hsize)|].
  - destruct b as [|x0 b0]; [done|]. set (b := x0 :: b0). pose (Inh := populate x0 : Inhabited A).
    assert (0 < length b)%nat as Hpos by (cbn; lia). clearbody b.
    pose (c i j := cmp (b !!! i) (b !!! j)).
    destruct (msort_with_tmp_spec (λ i j : nat, x ← deref (b !! i); y ← deref (b !! j); Val (cmp x y)) c
      (λ i, i < length b)%nat) with (fuel := length b) (pre := @nil nat) (l := seq 0 (length b))
      (post := @nil nat) (t := replicate (length b) (@None nat)) as (t' & E & _).
    + intros i j Hi Hj. by rewrite !list_lookup_lookup_total_lt.
    + rewrite length_seq. lia.
    + by rewrite length_seq, length_replicate.
    + apply Forall_forall. intros i Hi. apply elem_of_seq in Hi. lia.
    + rewrite !app_nil_r, length_seq in E. cbn [app length] in E. rewrite E. cbn [mbind outcome_bind fst snd].
      set (T := msort_ref c (length b) (seq 0 (length b))).
      assert (perm_on (length b) T) as HT by apply seq_perm_on, msort_ref_perm.
      destruct (permute_spec (length b) (length b) b T 0 HT eq_refl) as (b' & -> & Lb' & Hb'); [lia|lia|].
      f_equal. transitivity ((λ i, b !!! i) <$> T).
      * apply list_eq. intros u. rewrite list_lookup_fmap. destruct (T !! u) as [p|] eqn:Hu.
        -- rewrite (Hb' u p Hu). cbn. apply list_lookup_lookup_total_lt. by eapply perm_on_lt.
        -- apply lookup_ge_None_1 in Hu. rewrite (po_length _ _ HT) in Hu.
           by rewrite lookup_ge_None_2 by lia.
      * unfold T. rewrite (msort_ref_fmap (λ i, b !!! i) c cmp) by done. by rewrite fmap_seq_total.
  - destruct (msort_with_tmp_spec (λ x y, Val (cmp x y)) cmp (λ _, True)) with (fuel := length b)
      (pre := @nil A) (l := b) (post := @nil A) (t := replicate (Z.to_nat (size / s)) (@None A)) as (t' & E & _).
    + done.
    + lia.
    + rewrite length_replicate. apply Nat2Z.inj_le. rewrite Z2Nat.id by (apply Z.div_pos; lia). apply Z.div_le_lower_bound; lia.
    + by apply Forall_true.
    + rewrite !app_nil_r in E. cbn [app length] in E. by rewrite E.
Qed.

(** ** Order and stability *)

Section order.
Context {A : Type} (c : A → A → Z) `{!TotalPreorder c}.

#[local] Instance le_total : Total (le c).
Proof. intros x y. unfold le. pose proof (cmp_sym x y). lia. Qed.
#[local] Instance le_trans : Transitive (le c).
Proof. intros x y z. apply cmp_trans. Qed.

Lemma msort_ref_sorted fuel l : (length l <= S fuel)%nat → Sorted (le c) (msort_ref c fuel l).
Proof.
  revert l. induction fuel as [|fuel IH]; intros l Hl; cbn [msort_ref];
    destruct (Nat.leb_spec (length l) 1) as [H1|H1]; try lia.
  1,2: destruct l as [|x [|y l]]; cbn in H1; [constructor|by repeat constructor|lia].
  assert (length l / 2 < length l ∧ 0 < length l / 2)%nat as [H2 H3]
    by (split; [apply Nat.div_lt; lia|apply Nat.div_str_pos; lia]).
  apply Sorted_list_merge; [apply _| |]; apply IH; rewrite ?length_take, ?length_drop; lia.
Qed.

(** The elements equivalent to [k], in their order. *)
Definition class (k : A) (l : list A) : list A := filter (λ x, c k x = 0) l.

Lemma class_app k l1 l2 : class k (l1 ++ l2) = class k l1 ++ class k l2.
Proof. apply filter_app. Qed.

Lemma class_cons k x l : class k (x :: l) = class k [x] ++ class k l.
Proof. exact (class_app k [x] l). Qed.

Lemma class_above k y l : c k y = 0 → Forall (λ x, ~ le c x y) l → class k l = [].
Proof.
  intros Hk. induction 1 as [|x l Hx _ IH]; [done|]. unfold class. rewrite filter_cons_False; [exact IH|].
  intros Hkx. apply Hx. unfold le. apply cmp_trans with k; [|lia].
  pose proof (cmp_sym k x). pose proof (cmp_sym x k). lia.
Qed.

Lemma class_merge k l1 l2 :
  StronglySorted (le c) l1 → class k (list_merge (le c) l1 l2) = class k l1 ++ class k l2.
Proof.
  revert l2. induction l1 as [|x l1 IH1]; intros l2 Hs; [by destruct l2|].
  apply StronglySorted_inv in Hs as [Hs Hx].
  induction l2 as [|y l2 IH2]; [by rewrite app_nil_r|]. cbn [list_merge]. case_decide as Hle.
  - rewrite class_cons, IH1 by done. by rewrite (class_cons k x l1), <- (assoc_L (++)).
  - rewrite class_cons, (class_cons k y l2). rewrite (assoc_L (++)).
    transitivity (class k [y] ++ class k (x :: l1) ++ class k l2); [f_equal; exact IH2|].
    rewrite (assoc_L (++)). f_equal. destruct (decide (c k y = 0)) as [Hky|Hky].
    + assert (class k (x :: l1) = []) as ->; [|by rewrite app_nil_r]. apply (class_above k y); [done|].
      constructor; [done|]. eapply Forall_impl; [exact Hx|]. intros z Hxz Hzy. apply Hle.
      by apply cmp_trans with z.
    + assert (class k [y] = []) as ->; [|by rewrite app_nil_r]. unfold class. by rewrite filter_cons_False.
Qed.

Lemma class_msort k fuel l : (length l <= S fuel)%nat → class k (msort_ref c fuel l) = class k l.
Proof.
  revert l. induction fuel as [|fuel IH]; intros l Hl; cbn [msort_ref];
    destruct (Nat.leb_spec (length l) 1) as [H1|H1]; try done.
  assert (length l / 2 < length l ∧ 0 < length l / 2)%nat as [H2 H3]
    by (split; [apply Nat.div_lt; lia|apply Nat.div_str_pos; lia]).
  rewrite class_merge.
  - rewrite !IH by (rewrite ?length_take, ?length_drop; lia). by rewrite <- class_app, take_drop.
  - apply Sorted_StronglySorted; [exact le_trans|]. apply msort_ref_sorted. rewrite length_take. lia.
Qed.
End order.

(** ** Main theorems *)

(** The calls that reach the quicksort. *)
Definition falls_back (phys page : Z) (malloc : Z → bool) (st : sort_state) (n s : Z) : bool :=
  let size := if 32 <? s then 2 * n * 8 + s else n * s in
  let st := init_pages phys page st in
  negb (size <? 1024) && ((phys_pages st <? size / pagesize st) || negb (malloc size)).

(** The static variables are unset, or set to sensible values. *)
Definition pages_ok (st : sort_state) : Prop :=
  0 <= phys_pages st < 2 ^ 63 ∧ 0 <= pagesize st < 2 ^ 31.

Lemma init_pages_ok phys page st :
  -1 <= phys < 2 ^ 63 → 0 < page < 2 ^ 31 → pages_ok st →
  pages_ok (init_pages phys page st) ∧ 0 < pagesize (init_pages phys page st).
Proof.
  intros Hphys Hpage [H1 H2]. unfold init_pages, pages_ok. change (2 ^ 63) with 9223372036854775808 in *.
  change (2 ^ 31) with 2147483648 in *. destruct (Z.eqb_spec (pagesize st) 0); cbn [pagesize phys_pages]; [|lia].
  rewrite wraps_small by (cbn; lia).
  assert (0 <= (if phys =? -1 then LONG_MAX else phys) < 9223372036854775808)
    by (unfold LONG_MAX; zcase; lia).
  rewrite Z.quot_div_nonneg by lia. split; [|lia]. split; [|lia]. Z.to_euclidean_division_equations. lia.
Qed.

Lemma qsort_r_paths {A : Type} (cmp : A → A → Z) phys page malloc st (b : list A) s :
  -1 <= phys < 2 ^ 63 → 0 < page < 2 ^ 31 → pages_ok st → 0 < s →
  Z.of_nat (length b) * s < 2 ^ 63 → s < 2 ^ 62 →
  ∃ st', pages_ok st' ∧
    qsort_r cmp phys page malloc st b s =
      (λ b', (b', st')) <$>
        (if falls_back phys page malloc st (Z.of_nat (length b)) s
         then quicksort cmp b
         else with_tmp cmp b s (if 32 <? s then 2 * Z.of_nat (length b) * 8 + s else Z.of_nat (length b) * s)).
Proof.
  intros Hphys Hpage Hst Hs Hn Hs2. destruct (init_pages_ok phys page st Hphys Hpage Hst) as [Hst' Hpos].
  unfold qsort_r, falls_back. cbv zeta. change (2 ^ 63) with 9223372036854775808 in *.
  change (2 ^ 62) with 4611686018427387904 in *. change (2 ^ 31) with 2147483648 in *.
  assert (∀ x, 0 <= x < 18446744073709551616 → wrapu 64 x = x) as Hw by (intros x Hx; by apply wrapu_small).
  pose proof (Nat2Z.is_nonneg (length b)) as Hb.
  assert ((if 32 <? s then wrapu 64 (2 * Z.of_nat (length b) * 8 + s) else wrapu 64 (Z.of_nat (length b) * s))
    = (if 32 <? s then 2 * Z.of_nat (length b) * 8 + s else Z.of_nat (length b) * s)) as ->.
  { destruct (Z.ltb_spec 32 s); apply Hw; nia. }
  set (size := if 32 <? s then _ else _). destruct Hst' as [Hp1 Hp2].
  destruct (Z.ltb_spec size 1024); cbn [negb andb].
  - exists st. split; [done|]. by destruct (with_tmp cmp b s size).
  - exists (init_pages phys page st). split; [done|].
    rewrite (Hw (pagesize _)), (Hw (phys_pages _)) by lia.
    destruct (Z.eqb_spec (pagesize (init_pages phys page st)) 0); [lia|].
    destruct (phys_pages (init_pages phys page st) <? size / pagesize (init_pages phys page st)); cbn [orb];
      [by destruct (quicksort cmp b)|].
    destruct (malloc size); cbn [negb]; [by destruct (with_tmp cmp b s size)|by destruct (quicksort cmp b)].
Qed.

(** C37. [qsort_r] sorts on every path: merging in place of objects, merging of
    pointers followed by the permutation of the objects along its cycles, and
    quicksort when the temporary array is too large or [malloc] fails; the
    result is a sorted permutation, and on the merging paths equivalent
    elements keep their order. *)
Theorem qsort_r_correct {A : Type} (cmp : A → A → Z) phys page malloc st (b : list A) s :
  TotalPreorder cmp → -1 <= phys < 2 ^ 63 → 0 < page < 2 ^ 31 → pages_ok st → 0 < s →
  Z.of_nat (length b) * s < 2 ^ 63 → s < 2 ^ 62 →
  ∃ b' st', qsort_r cmp phys page malloc st b s = Val (b', st') ∧ pages_ok st' ∧
    b' ≡ₚ b ∧ StronglySorted (λ x y, cmp x y <= 0) b' ∧
    (falls_back phys page malloc st (Z.of_nat (length b)) s = false →
     ∀ k, filter (λ x, cmp k x = 0) b' = filter (λ x, cmp k x = 0) b).
Proof.
  intros Hc Hphys Hpage Hst Hs Hn Hs2.
  destruct (qsort_r_paths cmp phys page malloc st b s) as (st' & Hst' & ->); [done..|].
  destruct (falls_back _ _ _ _ _ _).
  - destruct (quicksort_sorts cmp b) as (b' & -> & Hp & Hsort);
      [done|change (2 ^ 63) with 9223372036854775808 in *; change (2 ^ 64) with 18446744073709551616; nia|].
    exists b', st'. by split_and!.
  - rewrite with_tmp_spec by done. exists (msort_ref cmp (length b) b), st'. split; [done|]. split; [done|].
    split; [apply msort_ref_perm|]. split.
    + apply Sorted_StronglySorted; [apply (le_trans cmp)|]. apply (msort_ref_sorted cmp). lia.
    + intros _ k. apply (class_msort cmp k). lia.
Qed.

(** Pairs compared by their first component, as objects of 40 bytes. *)
Definition by_fst (x y : Z * Z) : Z := x.1 - y.1.
#[export] Instance by_fst_preorder : TotalPreorder by_fst.
Proof. split; unfold by_fst; lia. Qed.

Lemma qsort_r_correct_witness :
  ∃ b' st', qsort_r by_fst 1000000 4096 (λ _, true) (SortState 0 0) [(2, 1); (1, 1); (2, 0); (1, 0)] 40
    = Val (b', st') ∧ b' ≡ₚ [(2, 1); (1, 1); (2, 0); (1, 0)] ∧
    filter (λ x, by_fst (1, 5) x = 0) b' = [(1, 1); (1, 0)].
Proof.
  destruct (qsort_r_correct by_fst 1000000 4096 (λ _, true) (SortState 0 0)
    [(2, 1); (1, 1); (2, 0); (1, 0)] 40) as (b' & st' & E & _ & Hp & _ & Hst).
  - exact by_fst_preorder.
  - lia.
  - lia.
  - split; cbn; lia.
  - lia.
  - reflexivity.
  - reflexivity.
  - exists b', st'. split; [exact E|]. split; [exact Hp|]. rewrite (Hst eq_refl). reflexivity.
Defined.
End Msort.
