(* ===== verification/Hsearch.v ===== *)
(** * Hash tables: [misc/hsearch_r.c], [misc/hsearch.c]

    [hcreate_r], [hdestroy_r] and [hsearch_r]: open addressing with double
    hashing in a table whose size is a prime, index 0 unused and the hash
    value kept in each slot.  The theorems: the prime search returns the
    least odd prime that is large enough, the probing loop ends because the
    step is prime to the size, and the table refines a finite map: a search
    finds what was entered and nothing else, and a full table is reported. *)

From stdpp Require Import gmap.
From Stdlib Require Import Znumtheory.
From S2P Require Import Prelude CString.
Import CString.
Local Open Scope Z_scope.

(** ** Loops of up to [2^k] rounds

    The body returns the next state or leaves the loop with a result. *)
Module Loop.
Section loop.
Context {S R : Type} (body : S → outcome (S + R)).

Fixpoint rounds (k : nat) (s : S) : outcome (S + R) :=
  match k with
  | O => body s
  | Datatypes.S k' =>
      r ← rounds k' s;
      match r with
      | inl s' => rounds k' s'
      | inr r => Val (inr r)
      end
  end.

Definition run (k : nat) (s : S) : outcome R :=
  r ← rounds k s;
  match r with
  | inl _ => NoFuel
  | inr r => Val r
  end.

(** The invariant carries a variant. *)
Variables (I : Z → S → Prop) (Q : R → Prop).
Hypothesis step : ∀ n s, I n s → 0 <= n ∧
  ((∃ n' s', body s = Val (inl s') ∧ I n' s' ∧ n' < n) ∨ ∃ r, body s = Val (inr r) ∧ Q r).

Lemma rounds_inv k n s :
  I n s → (∃ r, rounds k s = Val (inr r) ∧ Q r) ∨
          (∃ n' s', rounds k s = Val (inl s') ∧ I n' s' ∧ n' + 2 ^ Z.of_nat k <= n).
Proof.
  revert n s. induction k as [|k IH]; intros n s Hs; cbn [rounds].
  - destruct (step n s Hs) as (Hm & [(n' & s' & E & Hi & Hlt)|(r & E & Hq)]); [right|left; eauto].
    exists n', s'. change (2 ^ Z.of_nat 0) with 1. split_and!; done || lia.
  - rewrite Nat2Z.inj_succ, Z.pow_succ_r by lia.
    destruct (IH n s Hs) as [(r & -> & Hq)|(n1 & s1 & -> & H1 & Hlt)]; cbn [mbind outcome_bind]; [left; eauto|].
    destruct (IH n1 s1 H1) as [(r & -> & Hq)|(n2 & s2 & -> & H2 & Hlt2)]; [left; eauto|].
    right. exists n2, s2. split_and!; done || lia.
Qed.

(** A variant below [2^k] makes the loop end with its postcondition. *)
Lemma run_inv k n s : I n s → n < 2 ^ Z.of_nat k → ∃ r, run k s = Val r ∧ Q r.
Proof.
  intros Hs Hk. unfold run. destruct (rounds_inv k n s Hs) as [(r & -> & Hq)|(n' & s' & -> & Hi & Hlt)].
  - exists r. done.
  - destruct (step n' s' Hi). lia.
Qed.
End loop.
End Loop.

Module Hsearch.
Import Loop.

Definition ENOMEM : Z := 12.
Definition EINVAL : Z := 22.
Definition ESRCH : Z := 3.
Definition UINT_MAX : Z := 4294967295.

(** [ENTRY] and [_ENTRY]; [None] is a null key. *)
Record ENTRY := Entry { key : option (list Z); data : Z }.
Record slot := Slot { used : Z; entry : ENTRY }.
Definition zero_slot : slot := Slot 0 (Entry None 0).

(** [struct hsearch_data]. *)
Record hsearch_data := Htab { table : option (list slot); size : Z; filled : Z }.

Inductive ACTION := FIND | ENTER.

Definition isprime (number : Z) : outcome Z :=
  run (λ div : Z,
    if div <=? number / div then
      if number mod div =? 0 then Val (inr 0) else Val (inl (wrapu 32 (div + 2)))
    else Val (inr 1)) 32 3.

(** The search for a prime; [None] is the return with [ENOMEM]. *)
Definition next_prime (nel : Z) : outcome (option Z) :=
  run (λ nel : Z,
    if UINT_MAX - 2 <? nel then Val (inr None)
    else
      p ← isprime (wrapu 32 nel);
      if negb (p =? 0) then Val (inr (Some nel)) else Val (inl (wrapu 64 (nel + 2))))
    32 nel.

Section create.
(** Whether [calloc (n, sizeof (_ENTRY))] succeeds. *)
Variable calloc : Z → bool.

(** The value, the table and [errno] if set. *)
Definition hcreate_r (nel : Z) (htab : option hsearch_data)
    : outcome (Z * option hsearch_data * option Z) :=
  match htab with
  | None => Val (0, None, Some EINVAL)
  | Some h =>
      match table h with
      | Some _ => Val (0, htab, None)
      | None =>
          let nel := if nel <? 3 then 3 else nel in
          p ← next_prime (Z.lor nel 1);
          match p with
          | None => Val (0, htab, Some ENOMEM)
          | Some nel =>
              let size := wrapu 32 nel in
              if calloc (size + 1)
              then Val (1, Some (Htab (Some (replicate (Z.to_nat (size + 1)) zero_slot)) size 0), None)
              else Val (0, Some (Htab None size 0), Some ENOMEM)
          end
      end
  end.
End create.

Definition hdestroy_r (htab : option hsearch_data) : option hsearch_data * option Z :=
  match htab with
  | None => (None, Some EINVAL)
  | Some h => (Some (Htab None (size h) (filled h)), None)
  end.

(** [while (count-- > 0) { hval <<= 4; hval += item.key[count]; }], [char]
    being signed. *)
Fixpoint hash_loop (k : list Z) (count : nat) (hval : Z) : outcome Z :=
  match count with
  | O => Val hval
  | S count' =>
      c ← deref (k !! count');
      hash_loop k count' (wrapu 32 (wrapu 32 (Z.shiftl hval 4) + wraps 8 c))
  end.

Definition hash (k : list Z) : outcome Z :=
  len ← strlen k;
  let len := wrapu 32 (Z.of_nat len) in
  hval ← hash_loop k (Z.to_nat len) len;
  Val (if hval =? 0 then 1 else hval).

(** [htab->table[idx].used == hval && strcmp (item.key, ...) == 0]. *)
Definition slot_matches (s : slot) (hval : Z) (k : list Z) : outcome bool :=
  if used s =? hval then
    k' ← deref (key (entry s));
    c ← strcmp k k';
    Val (c =? 0)
  else Val false.

(** How the search ends: at an entry, or at [idx] without one. *)
Inductive found := Found (idx : Z) | Absent (idx : Z).

Definition next_idx (sz idx hval2 : Z) : Z :=
  if idx <=? hval2 then wrapu 32 (sz + idx - hval2) else idx - hval2.

(** The [do]-[while] loop. *)
Definition probe (t : list slot) (sz hval hval2 first_idx : Z) (k : list Z) (idx : Z) : outcome found :=
  run (λ idx : Z,
    let idx := next_idx sz idx hval2 in
    if idx =? first_idx then Val (inr (Absent idx))
    else
      s ← deref (t !! Z.to_nat idx);
      b ← slot_matches s hval k;
      if b : bool then Val (inr (Found idx))
      else if used s =? 0 then Val (inr (Absent idx)) else Val (inl idx))
    32 idx.

(** The value, [*retval] (the index of the entry), the table and [errno]. *)
Definition hsearch_r (item : ENTRY) (action : ACTION) (htab : hsearch_data)
    : outcome (Z * option Z * hsearch_data * option Z) :=
  k ← deref (key item);
  hval ← hash k;
  t ← deref (table htab);
  if size htab =? 0 then Fault
  else
    let idx := hval mod size htab + 1 in
    s ← deref (t !! Z.to_nat idx);
    f ← (if used s =? 0 then Val (Absent idx)
         else
           b ← slot_matches s hval k;
           if b : bool then Val (Found idx)
           else if size htab - 2 =? 0 then Fault
           else probe t (size htab) hval (1 + hval mod (size htab - 2)) idx k idx);
    match f with
    | Found idx => Val (1, Some idx, htab, None)
    | Absent idx =>
        match action with
        | ENTER =>
            if filled htab =? size htab then Val (0, None, htab, Some ENOMEM)
            else
              _ ← deref (t !! Z.to_nat idx);
              Val (1, Some idx,
                   Htab (Some (<[Z.to_nat idx := Slot hval item]> t)) (size htab)
                        (wrapu 32 (filled htab + 1)), None)
        | FIND => Val (0, None, htab, Some ESRCH)
        end
    end.

(** ** The prime search *)

Lemma odd_not_even_divisor n d : Z.odd n = true → (d | n) → Z.odd d = true.
Proof.
  intros Hn [q ->]. rewrite Z.odd_mul in Hn. by apply andb_true_iff in Hn as [_ ?].
Qed.

Lemma no_small_divisor n div :
  1 < n → 1 < div → n / div < div → (∀ d, 1 < d < div → ~ (d | n)) → Z.prime n.
Proof.
  intros Hn Hdiv Hlt Hno. split; [done|]. intros d Hd Hdn.
  destruct (decide (d < div)); [apply (Hno d); [lia|done]|]. destruct Hdn as [q Hq].
  apply (Hno q); [|exists d; lia]. split; [nia|].
  apply Z.le_lt_trans with (n / div); [|done]. apply Z.div_le_lower_bound; nia.
Qed.

Lemma isprime_spec n :
  3 <= n < 2 ^ 32 → Z.odd n = true →
  ∃ r, isprime n = Val r ∧ ((r = 1 ∧ Z.prime n) ∨ (r = 0 ∧ ~ Z.prime n)).
Proof.
  intros Hn Hodd. unfold isprime. change (2 ^ 32) with 4294967296 in Hn.
  apply (run_inv _ (λ v div, v = n + 2 - div ∧ 3 <= div <= n + 2 ∧ Z.odd div = true ∧
    ∀ d, 1 < d < div → ~ (d | n)) _) with (n := n - 1); [|split_and!; [lia|lia|lia|done|]|cbn; lia].
  - intros v div (-> & Hdiv & Hod & Hno). split; [lia|].
    destruct (Z.leb_spec div (n / div)) as [Hle|Hgt].
    + assert (div * div <= n).
      { transitivity (div * (n / div)); [nia|]. apply Z.mul_div_le. lia. }
      destruct (Z.eqb_spec (n mod div) 0) as [E|E].
      * right. exists 0. split; [done|]. right. split; [done|]. intros [_ Hp]. apply (Hp div); [nia|]. by apply Z.mod_divide; [lia|].
      * left. rewrite wrapu_small by (change (2 ^ 32) with 4294967296; nia).
        eexists _, (div + 2). split; [done|]. split; [split_and!; [done|lia|nia| |]|lia].
        -- by rewrite Z.odd_add, Hod.
        -- intros d Hd Hdn. destruct (decide (d < div)); [apply (Hno d); [lia|done]|].
           pose proof (odd_not_even_divisor n d Hodd Hdn) as Hd'.
           destruct (decide (d = div)) as [->|]; [by apply E, Z.mod_divide; [lia|]|].
           replace d with (div + 1) in Hd' by lia. by rewrite Z.odd_add, Hod in Hd'.
    + right. exists 1. split; [done|]. left. split; [done|]. apply (no_small_divisor n div); [lia|lia|lia|done].
  - intros d Hd Hdn. replace d with 2 in Hdn by lia. by pose proof (odd_not_even_divisor n 2 Hodd Hdn).
Qed.

Lemma next_prime_spec n :
  3 <= n < 2 ^ 64 → Z.odd n = true →
  ∃ r, next_prime n = Val r ∧
    match r with
    | Some p => Z.prime p ∧ n <= p <= UINT_MAX - 2 ∧ ∀ d, n <= d < p → ~ Z.prime d
    | None => ∀ d, n <= d <= UINT_MAX - 2 → ~ Z.prime d
    end.
Proof.
  intros Hn Hodd. unfold next_prime, UINT_MAX. change (2 ^ 64) with 18446744073709551616 in Hn.
  apply (run_inv _ (λ v nel, v = Z.max 0 (4294967295 - nel) ∧ n <= nel < 18446744073709551616 ∧
    Z.odd nel = true ∧ ∀ d, n <= d < nel → ~ Z.prime d) _) with (n := Z.max 0 (4294967295 - n));
    [|split_and!; [done|lia|lia|done|lia]|cbn; lia].
  intros v nel (-> & Hnel & Hod & Hno). split; [lia|].
  destruct (Z.ltb_spec (4294967295 - 2) nel) as [Hgt|Hle].
  - right. exists None. split; [done|]. intros d Hd. apply Hno. lia.
  - rewrite (wrapu_small 32 nel) by (change (2 ^ 32) with 4294967296; lia).
    destruct (isprime_spec nel) as (r & -> & Hr); [change (2 ^ 32) with 4294967296; lia|done|].
    cbn [mbind outcome_bind]. destruct Hr as [[-> Hp]|[-> Hp]]; cbn [negb Z.eqb].
    + right. exists (Some nel). split; [done|]. split_and!; [done|lia|lia|done].
    + left. rewrite wrapu_small by (change (2 ^ 64) with 18446744073709551616; lia).
      eexists _, (nel + 2). split; [done|]. split; [split_and!; [done|lia|lia| |]|lia].
      * by rewrite Z.odd_add, Hod.
      * intros d Hd Hpd. destruct (decide (d < nel)); [apply (Hno d); [lia|done]|].
        destruct (decide (d = nel)) as [->|]; [done|]. replace d with (nel + 1) in Hpd by lia.
        destruct Hpd as [_ Hpd]. apply (Hpd 2); [lia|].
        apply Z.mod_divide; [lia|]. rewrite Zmod_odd, Z.odd_add, Hod. done.
Qed.

(** ** The probe sequence *)

Section probing.
Variables p h a : Z.
Hypothesis Hp : Z.prime p.
Hypothesis Hh : 0 < h < p.
Hypothesis Ha : 1 <= a <= p.

Definition pos (k : Z) : Z := (a - 1 - k * h) mod p + 1.

Lemma p_pos : 1 < p.
Proof. destruct Hp. lia. Qed.

Lemma pos_range k : 1 <= pos k <= p.
Proof. unfold pos. pose proof p_pos. pose proof (Z.mod_pos_bound (a - 1 - k * h) p). lia. Qed.

Lemma pos_0 : pos 0 = a.
Proof. unfold pos. rewrite Z.mod_small; lia. Qed.

Lemma pos_next k : p < 2 ^ 32 → next_idx p (pos k) h = pos (k + 1).
Proof.
  intros Hp32. pose proof p_pos. pose proof (pos_range k) as Hr. pose proof (pos_range (k + 1)) as Hr1.
  unfold pos in *. set (x := a - 1 - k * h) in *. replace (a - 1 - (k + 1) * h) with (x - h) in * by lia.
  assert ((x - h) mod p = (x mod p - h) mod p) as E by (by rewrite Zminus_mod_idemp_l).
  unfold next_idx. destruct (Z.leb_spec (x mod p + 1) h).
  - rewrite wrapu_small by lia. rewrite E.
    rewrite <- (Z.mod_unique (x mod p - h) p (-1) (x mod p - h + p)) by lia. lia.
  - rewrite E, (Z.mod_small (x mod p - h)) by lia. lia.
Qed.

Lemma pos_inj k k' : 0 <= k < p → 0 <= k' < p → pos k = pos k' → k = k'.
Proof.
  intros Hk Hk' E. pose proof p_pos. unfold pos in E.
  assert ((p | (k - k') * h)) as Hd.
  { apply Z.mod_divide; [lia|]. replace ((k - k') * h) with ((a - 1 - k' * h) - (a - 1 - k * h)) by lia.
    rewrite Zminus_mod. replace ((a - 1 - k' * h) mod p) with ((a - 1 - k * h) mod p) by lia.
    by rewrite Z.sub_diag, Z.mod_0_l by lia. }
  apply Z.divide_prime_mul in Hd as [Hd|Hd]; [| |done].
  - apply Z.mod_divide in Hd; [|lia].
    destruct (decide (k' <= k)); [rewrite Z.mod_small in Hd; lia|].
    rewrite <- (Z.mod_add _ 1), Z.mod_small in Hd by lia. lia.
  - apply Z.divide_pos_le in Hd; lia.
Qed.

Lemma pos_surj i : 1 <= i <= p → ∃ k, 0 <= k < p ∧ pos k = i.
Proof.
  intros Hi. pose proof p_pos.
  destruct (Z.Bezout_coprime p h) as (v & u & Huv); [apply Z.coprime_prime_small; [done|lia]|].
  exists (((a - i) * u) mod p). split; [apply Z.mod_pos_bound; lia|].
  unfold pos. rewrite Zminus_mod, Zmult_mod_idemp_l, <- Zminus_mod.
  replace (a - 1 - (a - i) * u * h) with (i - 1 + ((a - i) * v) * p).
  - rewrite Z.mod_add, Z.mod_small by lia. lia.
  - transitivity (a - 1 - (a - i) * (u * h)); [|lia]. replace (u * h) with (1 - v * p) by lia. lia.
Qed.
End probing.

(** ** Hash values *)

Lemma hash_loop_spec s n v :
  (n <= length s)%nat → 0 <= v < 2 ^ 32 →
  ∃ w, (∀ r, hash_loop (s ++ r) n v = Val w) ∧ 0 <= w < 2 ^ 32.
Proof.
  revert v. induction n as [|n IH]; intros v Hn Hv; [by exists v|].
  destruct (lookup_lt_is_Some_2 s n) as [c Hc]; [lia|].
  destruct (IH (wrapu 32 (wrapu 32 (Z.shiftl v 4) + wraps 8 c))) as (w & Hw & Hr);
    [lia|apply wrapu_bound; lia|].
  exists w. split; [|done]. intros r'. cbn [hash_loop]. rewrite lookup_app_l, Hc by lia. cbn. apply Hw.
Qed.

(** The hash value of a string. *)
Definition hashv (s : list Z) : Z := match hash (s ++ [0]) with Val v => v | _ => 0 end.

Lemma hash_val s r : nul_free s → hash (s ++ 0 :: r) = Val (hashv s) ∧ 0 < hashv s < 2 ^ 32.
Proof.
  intros Hs. set (len := wrapu 32 (Z.of_nat (length s))).
  assert (0 <= len < 2 ^ 32) as Hl by (apply wrapu_bound; lia).
  assert (Z.to_nat len <= length s)%nat as Hle.
  { unfold len, wrapu. pose proof (Z.mod_le (Z.of_nat (length s)) (2 ^ 32)). lia. }
  destruct (hash_loop_spec s (Z.to_nat len) len Hle Hl) as (w & Hw & Hr).
  assert (∀ r, hash (s ++ 0 :: r) = Val (if w =? 0 then 1 else w)) as E.
  { intros r'. unfold hash. rewrite strlen_spec by done. cbn [mbind outcome_bind]. fold len. by rewrite Hw. }
  unfold hashv. rewrite !E. split; [done|]. zcase; lia.
Qed.

(** ** The table as a finite map *)

Definition is_used (t : list slot) (i : Z) : Prop := ∃ s, t !! Z.to_nat i = Some s ∧ used s ≠ 0.

(** The slot at [i] holds the string [q] with its value [d]. *)
Definition holds (t : list slot) (i : Z) (q : list Z) (d : Z) : Prop :=
  ∃ u r, t !! Z.to_nat i = Some (Slot u (Entry (Some (q ++ 0 :: r)) d)) ∧ u ≠ 0 ∧ nul_free q.

Definition home (sz : Z) (q : list Z) : Z := hashv q mod sz + 1.
Definition stride (sz : Z) (q : list Z) : Z := 1 + hashv q mod (sz - 2).
Definition place (sz : Z) (q : list Z) (k : Z) : Z := pos sz (stride sz q) (home sz q) k.

(** All the places before the [k]-th of [q] are taken. *)
Definition taken (sz : Z) (t : list slot) (q : list Z) (k : Z) : Prop :=
  ∀ j, 0 <= j < k → is_used t (place sz q j).

Definition count (t : list slot) : nat := length (filter (λ s, used s ≠ 0) t).

Lemma count_all t : Forall (λ s, used s ≠ 0) t → count t = length t.
Proof.
  unfold count. induction 1 as [|s t Hs _ IH]; [done|]. rewrite filter_cons_True by done. cbn. by rewrite IH.
Qed.

Lemma count_insert t i s s' :
  t !! i = Some s → used s = 0 → used s' ≠ 0 → count (<[i:=s']> t) = S (count t).
Proof.
  intros Hs Hu Hu'. pose proof (lookup_lt_Some _ _ _ Hs) as Hi. unfold count.
  rewrite <- (take_drop_middle t i s Hs) at 2. rewrite insert_take_drop by done.
  rewrite !filter_app, !length_app, (filter_cons_True _ s'), (filter_cons_False _ s) by (done || lia).
  cbn. lia.
Qed.

Record table_ok (sz : Z) (t : list slot) : Prop := {
  to_prime : Z.prime sz;
  to_size : 3 <= sz < 2 ^ 32;
  to_length : Z.of_nat (length t) = sz + 1;
  to_zero : ~ is_used t 0;
  to_slot i s : t !! i = Some s → used s ≠ 0 →
    ∃ q d k, holds t (Z.of_nat i) q d ∧ used s = hashv q ∧ 0 <= k < sz ∧
      place sz q k = Z.of_nat i ∧ taken sz t q k;
  to_unique i j q d d' : 0 <= i → 0 <= j → holds t i q d → holds t j q d' → i = j
}.

(** The table [h] implements the map [m]. *)
Record represents (h : hsearch_data) (t : list slot) (m : gmap (list Z) Z) : Prop := {
  re_table : table h = Some t;
  re_ok : table_ok (size h) t;
  re_filled : filled h = Z.of_nat (count t);
  re_card : count t = base.size m;
  re_map q d : nul_free q → m !! q = Some d ↔ ∃ i, 0 <= i ∧ holds t i q d
}.

Section table.
Context (sz : Z) (t : list slot) (Ht : table_ok sz t).

Lemma stride_range q : nul_free q → 0 < stride sz q < sz.
Proof.
  intros Hq. destruct Ht. unfold stride. pose proof (Z.mod_pos_bound (hashv q) (sz - 2)). lia.
Qed.

Lemma home_range q : nul_free q → 1 <= home sz q <= sz.
Proof. intros Hq. destruct Ht. unfold home. pose proof (Z.mod_pos_bound (hashv q) sz). lia. Qed.

Lemma place_range q k : 1 <= place sz q k <= sz.
Proof. apply pos_range, (to_prime _ _ Ht). Qed.

Lemma place_lookup q k : ∃ s, t !! Z.to_nat (place sz q k) = Some s.
Proof.
  pose proof (place_range q k). pose proof (to_length _ _ Ht).
  apply lookup_lt_is_Some_2. lia.
Qed.

Lemma place_0 q : nul_free q → place sz q 0 = home sz q.
Proof. intros Hq. apply pos_0. by apply home_range. Qed.

Lemma place_next q k : nul_free q → next_idx sz (place sz q k) (stride sz q) = place sz q (k + 1).
Proof.
  intros Hq. destruct Ht. apply pos_next; [done|by apply stride_range|lia].
Qed.

Lemma place_inj q j k : nul_free q → 0 <= j < sz → 0 <= k < sz → place sz q j = place sz q k → j = k.
Proof. intros Hq. destruct Ht. apply pos_inj; [done|by apply stride_range]. Qed.

Lemma place_wrap q : nul_free q → place sz q sz = home sz q.
Proof.
  intros Hq. rewrite <- (place_0 q Hq). unfold place, pos. f_equal.
  replace (home sz q - 1 - sz * stride sz q) with (home sz q - 1 - 0 * stride sz q + (- stride sz q) * sz) by lia.
  apply Z.mod_add. destruct Ht. lia.
Qed.

(** A slot matches exactly when it holds the string. *)
Lemma slot_matches_spec q r i s :
  nul_free q → t !! i = Some s →
  ∃ b, slot_matches s (hashv q) (q ++ 0 :: r) = Val b ∧
    if b : bool then ∃ d, holds t (Z.of_nat i) q d else ∀ d, ~ holds t (Z.of_nat i) q d.
Proof.
  intros Hq Hs. destruct (hash_val q r Hq) as [_ Hv]. unfold slot_matches.
  destruct (Z.eqb_spec (used s) (hashv q)) as [Eu|Eu].
  - destruct (to_slot _ _ Ht i s Hs) as (q' & d & k & Hh & Eh & _); [lia|].
    pose proof Hh as (u & r' & Hl & Hu & Hq'). rewrite Nat2Z.id, Hs in Hl. injection Hl as ->.
    cbn [key entry deref mbind outcome_bind]. rewrite strcmp_lexcmp by done. cbn [mbind outcome_bind].
    eexists. split; [done|]. destruct (Z.eqb_spec (lexcmp q q') 0) as [E|E].
    + apply lexcmp_0 in E; [|done|done]. subst q'. by exists d.
    + intros d' (u' & r'' & Hl' & _ & _). rewrite Nat2Z.id, Hs in Hl'. injection Hl' as _ Hk _.
      apply E, lexcmp_0; [done|done|].
      apply (f_equal cstr) in Hk. rewrite !cstr_spec in Hk by done. by injection Hk.
  - exists false. split; [done|]. intros d (u & r' & Hl & Hu & _). rewrite Nat2Z.id, Hs in Hl. injection Hl as ->.
    destruct (to_slot _ _ Ht i _ Hs Hu) as (q' & d' & k & (u' & r'' & Hl' & _ & Hq') & Eh & _).
    rewrite Nat2Z.id, Hs in Hl'. injection Hl' as _ Hk _. apply (f_equal cstr) in Hk.
    rewrite !cstr_spec in Hk by done. injection Hk as ->. done.
Qed.

(** What the search returns. *)
Definition search_post (q : list Z) (f : found) : Prop :=
  match f with
  | Found i => 0 <= i ∧ ∃ d, holds t i q d
  | Absent i =>
      (∀ j d, 0 <= j → ~ holds t j q d) ∧
      ((∃ k, 0 <= k < sz ∧ place sz q k = i ∧ ~ is_used t i ∧ taken sz t q k) ∨
       (i = home sz q ∧ ∀ j, 1 <= j <= sz → is_used t j))
  end.

(** The first [k] places of [q] are taken by others. *)
Definition passed (q : list Z) (k : Z) : Prop :=
  taken sz t q k ∧ ∀ j d, 0 <= j < k → ~ holds t (place sz q j) q d.

Lemma passed_absent q k :
  nul_free q → 0 <= k → passed q k → ~ is_used t (place sz q k) → ∀ j d, 0 <= j → ~ holds t j q d.
Proof.
  intros Hq Hk [Htk Hno] Hun j d Hj Hh. pose proof Hh as (u & r & Hl & Hu & _).
  destruct (to_slot _ _ Ht _ _ Hl Hu) as (q' & d' & k' & Hh' & _ & Hk' & Ep & Htk').
  rewrite Z2Nat.id in Hh', Ep by done.
  assert (q' = q) as ->.
  { destruct Hh' as (u' & r' & Hl' & _ & Hq'). rewrite Hl in Hl'. injection Hl' as _ Hs _ .
    apply (f_equal cstr) in Hs. rewrite !cstr_spec in Hs by done. by injection Hs. }
  destruct (Z.lt_trichotomy k' k) as [Hlt|[->|Hgt]].
  - apply (Hno k' d); [lia|]. by rewrite Ep.
  - apply Hun. rewrite Ep. by exists (Slot u (Entry (Some (q ++ 0 :: r)) d)).
  - apply Hun, Htk'. lia.
Qed.

Lemma holds_used i q d : holds t i q d → is_used t i.
Proof. intros (u & r & Hl & Hu & _). by eexists. Qed.

Lemma used_range i : 0 <= i → is_used t i → 1 <= i <= sz.
Proof.
  intros Hi Hu. pose proof (to_zero _ _ Ht). pose proof (to_length _ _ Ht).
  destruct (decide (i = 0)) as [->|]; [done|]. destruct Hu as (s & Hs & _).
  apply lookup_lt_Some in Hs. lia.
Qed.

Lemma passed_all q :
  nul_free q → passed q sz → (∀ j d, 0 <= j → ~ holds t j q d) ∧ ∀ j, 1 <= j <= sz → is_used t j.
Proof.
  intros Hq [Htk Hno].
  assert (∀ j, 1 <= j <= sz → ∃ k, 0 <= k < sz ∧ place sz q k = j) as Hs.
  { intros j Hj. apply pos_surj; [apply (to_prime _ _ Ht)|by apply stride_range|done]. }
  split.
  - intros j d Hj Hh. destruct (Hs j) as (k & Hk & E); [by apply used_range, (holds_used _ q d)|].
    apply (Hno k d Hk). by rewrite E.
  - intros j Hj. destruct (Hs j Hj) as (k & Hk & <-). by apply Htk.
Qed.

Lemma passed_S q k s :
  passed q k → t !! Z.to_nat (place sz q k) = Some s → used s ≠ 0 →
  (∀ d, ~ holds t (place sz q k) q d) → passed q (k + 1).
Proof.
  intros [Htk Hno] Hs Hu Hn. split.
  - intros j Hj. destruct (decide (j = k)) as [->|]; [by exists s|]. apply Htk. lia.
  - intros j d Hj. destruct (decide (j = k)) as [->|]; [apply Hn|]. apply Hno. lia.
Qed.

(** The slot at the [k]-th place, and whether it matches. *)
Lemma place_matches q r k :
  nul_free q →
  ∃ s b, t !! Z.to_nat (place sz q k) = Some s ∧ slot_matches s (hashv q) (q ++ 0 :: r) = Val b ∧
    if b : bool then ∃ d, holds t (place sz q k) q d else ∀ d, ~ holds t (place sz q k) q d.
Proof.
  intros Hq. destruct (place_lookup q k) as [s Hs]. pose proof (place_range q k).
  destruct (slot_matches_spec q r _ s Hq Hs) as (b & E & Hb).
  rewrite Z2Nat.id in Hb by lia. by exists s, b.
Qed.

Lemma not_used i s : t !! Z.to_nat i = Some s → used s = 0 → ~ is_used t i.
Proof. intros Hs Hu (s' & Hs' & Hu'). congruence. Qed.

Lemma probe_spec q r :
  nul_free q → passed q 1 →
  ∃ f, probe t sz (hashv q) (stride sz q) (home sz q) (q ++ 0 :: r) (home sz q) = Val f ∧ search_post q f.
Proof.
  intros Hq Hp1. pose proof (to_size _ _ Ht) as Hsz. unfold probe.
  apply (run_inv _ (λ n idx, ∃ k, n = sz - k ∧ 0 <= k < sz ∧ idx = place sz q k ∧ passed q (k + 1)) _)
    with (n := sz); [| |cbn; lia].
  - intros n idx (k & -> & Hk & -> & Hpk). split; [lia|]. rewrite place_next by done. cbv zeta.
    destruct (Z.eqb_spec (place sz q (k + 1)) (home sz q)) as [E|E].
    + right. exists (Absent (place sz q (k + 1))). split; [done|].
      assert (k + 1 = sz) as Ek.
      { destruct (decide (k + 1 = sz)); [done|]. rewrite <- (place_0 q Hq) in E.
        apply place_inj in E; [lia|done|lia|lia]. }
      rewrite Ek in *. destruct (passed_all q Hq Hpk) as [H1 H2]. split; [done|]. right. done.
    + assert (k + 1 < sz) as Hk1.
      { destruct (decide (k + 1 = sz)) as [Ek|]; [|lia]. rewrite Ek, place_wrap in E by done. done. }
      destruct (place_matches q r (k + 1) Hq) as (s & b & Hs & Hm & Hb).
      rewrite Hs. cbn [deref mbind outcome_bind]. rewrite Hm. cbn [mbind outcome_bind]. destruct b.
      * right. eexists. split; [done|]. split; [pose proof (place_range q (k + 1)); lia|done].
      * destruct (Z.eqb_spec (used s) 0) as [Eu|Eu].
        -- right. eexists. split; [done|]. split.
           ++ apply (passed_absent q (k + 1)); [done|lia|done|by apply (not_used _ s)].
           ++ left. exists (k + 1). split_and!; [lia|lia|done|by apply (not_used _ s)|apply Hpk].
        -- left. eexists _, _. split; [done|]. split; [|instantiate (1 := sz - (k + 1)); lia].
           exists (k + 1). split_and!; [lia|lia|lia|done|]. by apply (passed_S q (k + 1) s).
  - exists 0. split_and!; [lia|lia|lia|symmetry; by apply place_0|done].
Qed.

(** The whole search. *)
Lemma search_spec q r :
  nul_free q →
  ∃ s f, t !! Z.to_nat (home sz q) = Some s ∧
    (if used s =? 0 then Val (Absent (home sz q))
     else
       b ← slot_matches s (hashv q) (q ++ 0 :: r);
       if b : bool then Val (Found (home sz q))
       else if sz - 2 =? 0 then Fault
       else probe t sz (hashv q) (1 + hashv q mod (sz - 2)) (home sz q) (q ++ 0 :: r) (home sz q))
    = Val f ∧ search_post q f.
Proof.
  intros Hq. destruct (place_matches q r 0 Hq) as (s & b & Hs & Hm & Hb).
  pose proof (to_size _ _ Ht) as Hsz. pose proof (place_range q 0) as Hr.
  assert (passed q 0) as Hp0 by (split; intros ?; lia).
  rewrite place_0 in * by done. exists s. destruct (Z.eqb_spec (used s) 0) as [Eu|Eu].
  - eexists. split; [done|]. split; [done|]. split.
    + apply (passed_absent q 0); [done|lia|done|]. rewrite place_0 by done. by apply (not_used _ s).
    + left. exists 0. split_and!; [lia|lia|by apply place_0|by apply (not_used _ s)|apply Hp0].
  - rewrite Hm. cbn [mbind outcome_bind]. destruct b.
    + eexists. split; [done|]. split; [done|]. split; [lia|done].
    + destruct (Z.eqb_spec (sz - 2) 0); [lia|]. destruct (probe_spec q r Hq) as (f & E & Hf); [|by exists f].
      apply (passed_S q 0 s); rewrite ?place_0 by done; done.
Qed.

(** ** Entering an element *)

Lemma count_full : (∀ j, 1 <= j <= sz → is_used t j) → Z.of_nat (count t) = sz.
Proof.
  intros Hall. pose proof (to_length _ _ Ht) as Hl. unfold count.
  destruct t as [|s0 rest] eqn:Et; [cbn in Hl; destruct Ht; lia|]. rewrite filter_cons_False.
  - fold (count rest). rewrite count_all; [cbn in Hl; lia|]. apply Forall_forall. intros s [i Hi]%list_elem_of_lookup.
    pose proof (lookup_lt_Some _ _ _ Hi). destruct (Hall (Z.of_nat i + 1)) as (s' & Hs' & Hu); [cbn in Hl; lia|].
    rewrite Z2Nat.inj_add, Nat2Z.id, Nat.add_1_r in Hs' by lia. change (rest !! i = Some s') in Hs'.
    rewrite Hi in Hs'. by injection Hs' as <-.
  - intros Hu. apply (to_zero _ _ Ht). by exists s0.
Qed.

Lemma count_room i : 1 <= i <= sz → ~ is_used t i → Z.of_nat (count t) < sz.
Proof.
  intros Hi Hun. pose proof (to_length _ _ Ht) as Hl.
  destruct (lookup_lt_is_Some_2 t (Z.to_nat i)) as [s Hs]; [lia|].
  assert (used s = 0) as Hu by (destruct (decide (used s = 0)); [done|destruct Hun; by exists s]).
  assert (length t = S (length (tail t))) as Et by (destruct t; [cbn in Hl; lia|done]).
  destruct t as [|s0 rest] eqn:E; [done|]. cbn in Et.
  pose proof (count_insert _ _ s (Slot 1 (Entry None 0)) Hs Hu ltac:(done)) as Hc.
  assert (count (<[Z.to_nat i:=Slot 1 (Entry None 0)]> (s0 :: rest)) <= length rest)%nat; [|cbn in Hl; lia].
  replace (Z.to_nat i) with (S (Z.to_nat (i - 1))) by lia. unfold count.
  change (<[S (Z.to_nat (i - 1)):=Slot 1 (Entry None 0)]> (s0 :: rest))
    with (s0 :: <[Z.to_nat (i - 1):=Slot 1 (Entry None 0)]> rest).
  rewrite filter_cons_False.
  - etransitivity; [apply length_filter|]. by rewrite length_insert.
  - intros Hu0. apply (to_zero _ _ Ht). by exists s0.
Qed.
End table.

Section enter.
Context (sz : Z) (t : list slot) (Ht : table_ok sz t) (q r : list Z) (d i k : Z).
Hypothesis Hq : nul_free q.
Hypothesis Habs : ∀ j d, 0 <= j → ~ holds t j q d.
Hypothesis Hi : place sz q k = i.
Hypothesis Hk : 0 <= k < sz.
Hypothesis Hun : ~ is_used t i.
Hypothesis Htk : taken sz t q k.

Let new : slot := Slot (hashv q) (Entry (Some (q ++ 0 :: r)) d).
Let t' : list slot := <[Z.to_nat i := new]> t.

Lemma enter_range : 1 <= i <= sz ∧ (Z.to_nat i < length t)%nat.
Proof. pose proof (place_range sz t Ht q k). pose proof (to_length _ _ Ht). subst i. lia. Qed.

Lemma enter_lookup j : 0 <= j → t' !! Z.to_nat j = if j =? i then Some new else t !! Z.to_nat j.
Proof.
  intros Hj. destruct enter_range as [H1 H2]. unfold t'. destruct (Z.eqb_spec j i) as [->|Hne].
  - by apply list_lookup_insert_eq.
  - apply list_lookup_insert_ne. lia.
Qed.

Lemma enter_used j : 0 <= j → is_used t' j ↔ j = i ∨ is_used t j.
Proof.
  intros Hj. unfold is_used. rewrite enter_lookup by done. destruct (Z.eqb_spec j i) as [->|Hne]; [|naive_solver].
  split; [by left|]. intros _. exists new. split; [done|]. cbn. destruct (hash_val q [] Hq). lia.
Qed.

Lemma enter_holds j q' d' : 0 <= j → holds t' j q' d' ↔ (j = i ∧ q' = q ∧ d' = d) ∨ holds t j q' d'.
Proof.
  intros Hj. unfold holds at 1. rewrite enter_lookup by done. destruct (Z.eqb_spec j i) as [->|Hne].
  - split.
    + intros (u & r' & [= _ Hs ->] & _ & Hq'). left. apply (f_equal cstr) in Hs.
      rewrite !cstr_spec in Hs by done. by injection Hs as ->.
    + intros [(_ & -> & ->)|Hh]; [|by apply holds_used in Hh].
      exists (hashv q), r. destruct (hash_val q [] Hq). split_and!; done || lia.
  - split; [by right|]. by intros [[-> _]|Hh].
Qed.

Lemma enter_taken q' k' : taken sz t q' k' → taken sz t' q' k'.
Proof.
  intros H j Hj. apply enter_used; [pose proof (place_range sz t Ht q' j); lia|]. right. by apply H.
Qed.

Lemma enter_ok : table_ok sz t'.
Proof.
  pose proof Ht as [Hprime Hsize Hlen Hzero Hslot Huniq]. destruct enter_range as [Hir _]. split; [done|done|..].
  - unfold t'. by rewrite length_insert.
  - rewrite enter_used by done. intros [?|?]; [lia|done].
  - intros j s Hs Hu. pose proof (enter_lookup (Z.of_nat j) ltac:(lia)) as El. rewrite Nat2Z.id, Hs in El.
    destruct (Z.eqb_spec (Z.of_nat j) i) as [Ej|Ej].
    + injection El as ->. exists q, d, k. split; [apply enter_holds; [lia|by left]|].
      split_and!; [done|lia|lia|by rewrite Hi|by apply enter_taken].
    + destruct (Hslot j s (eq_sym El) Hu) as (q' & d' & k' & Hh & E & Hk' & Ep & Htk').
      exists q', d', k'. split; [apply enter_holds; [lia|by right]|].
      split_and!; [done|lia|lia|done|by apply enter_taken].
  - intros i1 i2 q' d1 d2 H1 H2. rewrite !enter_holds by done.
    intros [(E1 & Eq1 & _)|Hh1] [(E2 & Eq2 & _)|Hh2]; [congruence| | |by eapply Huniq].
    + subst q'. by apply (Habs i2 d2) in Hh2.
    + subst q'. by apply (Habs i1 d1) in Hh1.
Qed.
End enter.

(** ** Main theorems *)

Lemma lor_1 n : Z.lor n 1 = if Z.odd n then n else n + 1.
Proof.
  pose proof (Z.div2_odd n) as E. destruct (Z.odd n); cbn [Z.b2z] in E.
  - assert (n = Z.lor (Z.div2 n * 2 ^ 1) 1) as En by (rewrite lor_low by lia; lia).
    rewrite En at 1. by rewrite <- Z.lor_assoc, Z.lor_diag.
  - replace n with (Z.div2 n * 2 ^ 1) at 1 by lia. rewrite lor_low by lia. lia.
Qed.

(** C38. A hash table implements a finite map from strings to values:
    [hsearch_r] returns the entry of a key that is present whatever the action;
    for an absent key it fails with [ESRCH] on [FIND], and on [ENTER] fails
    with [ENOMEM] exactly when the map has as many keys as the table has slots,
    and otherwise adds the key and keeps the invariant of the table. The
    probing loop always ends. *)
Theorem hsearch_r_map h t m q r d action :
  represents h t m → nul_free q →
  let call := hsearch_r (Entry (Some (q ++ 0 :: r)) d) action h in
  match m !! q, action with
  | Some d', _ => ∃ i, call = Val (1, Some i, h, None) ∧ holds t i q d'
  | None, FIND => call = Val (0, None, h, Some ESRCH)
  | None, ENTER =>
      if Z.of_nat (base.size m) =? size h then call = Val (0, None, h, Some ENOMEM)
      else ∃ i h' t', call = Val (1, Some i, h', None) ∧ holds t' i q d ∧
             size h' = size h ∧ represents h' t' (<[q:=d]> m)
  end.
Proof.
  intros [Htab Hok Hfill Hcard Hmap] Hq call. unfold call, hsearch_r. cbn [key deref mbind outcome_bind].
  destruct (hash_val q r Hq) as [-> Hv]. cbn [mbind outcome_bind]. rewrite Htab. cbn [deref mbind outcome_bind].
  pose proof (to_size _ _ Hok) as Hsz. destruct (Z.eqb_spec (size h) 0); [lia|]. fold (home (size h) q).
  destruct (search_spec (size h) t Hok q r Hq) as (s & f & -> & E & Hf). cbn [deref mbind outcome_bind].
  rewrite E. cbn [mbind outcome_bind]. destruct f as [i|i].
  - destruct Hf as (Hi & d' & Hh). assert (m !! q = Some d') as -> by (apply Hmap; eauto). eauto.
  - destruct Hf as [Habs Hor]. assert (m !! q = None) as Hnone.
    { destruct (m !! q) as [d'|] eqn:Em; [|done]. apply Hmap in Em as (j & Hj & Hh); [|done]. by destruct (Habs j d'). }
    rewrite Hnone. destruct action; [done|]. rewrite Hfill, Hcard, <- Hcard.
    destruct Hor as [(k & Hk & Hp & Hun & Htk)|[-> Hall]].
    + destruct (enter_range (size h) t Hok q r d i k Hp Hun) as [Hir Hil].
      pose proof (count_room (size h) t Hok i Hir Hun) as Hroom.
      destruct (Z.eqb_spec (Z.of_nat (count t)) (size h)); [lia|].
      destruct (lookup_lt_is_Some_2 t (Z.to_nat i) Hil) as [s' Hs']. rewrite Hs'. cbn [deref mbind outcome_bind].
      assert (used s' = 0) as Hu by (destruct (decide (used s' = 0)); [done|destruct Hun; by exists s']).
      pose proof (enter_holds (size h) t Hok q r d i k Hq Habs Hp Hun Htk) as Hholds.
      eexists i, _, _. split; [done|]. split; [apply Hholds; [lia|by left]|]. split; [done|].
      pose proof (count_insert t (Z.to_nat i) s' (Slot (hashv q) (Entry (Some (q ++ 0 :: r)) d)) Hs' Hu
        ltac:(cbn; lia)) as Hc.
      split; cbn [table size filled]; [done|by apply (enter_ok (size h) t Hok q r d i k)| | |].
      * rewrite wrapu_small by lia. rewrite Hc. lia.
      * rewrite Hc, Hcard. by rewrite map_size_insert_None.
      * intros q' d' Hq'. destruct (decide (q' = q)) as [->|Hne].
        -- rewrite lookup_insert_eq. split.
           ++ intros [= <-]. exists i. split; [lia|]. apply Hholds; [lia|by left].
           ++ intros (j & Hj & Hh). apply Hholds in Hh; [|done].
              destruct Hh as [(_ & _ & ->)|Hh]; [done|]. by destruct (Habs j d').
        -- rewrite lookup_insert_ne, Hmap by done. split.
           ++ intros (j & Hj & Hh). exists j. split; [done|]. apply Hholds; auto.
           ++ intros (j & Hj & Hh). exists j. split; [done|].
              apply Hholds in Hh as [(_ & -> & _)|Hh]; done.
    + rewrite (count_full (size h) t Hok Hall), Z.eqb_refl. done.
Qed.

Lemma count_zero n : count (replicate n zero_slot) = 0%nat.
Proof. unfold count. induction n as [|n IH]; [done|]. cbn [replicate]. by rewrite filter_cons_False by (cbn; lia). Qed.

(** [hcreate_r] gives an empty map. *)
Lemma empty_represents sz :
  Z.prime sz → 3 <= sz < 2 ^ 32 →
  represents (Htab (Some (replicate (Z.to_nat (sz + 1)) zero_slot)) sz 0)
    (replicate (Z.to_nat (sz + 1)) zero_slot) ∅.
Proof.
  intros Hp Hs. set (t := replicate _ _).
  assert (∀ i s, t !! i = Some s → used s = 0) as Hz by (intros i s [-> _]%lookup_replicate; done).
  assert (∀ i q d, ~ holds t i q d) as Hno by (intros i q d (u & r & Hl & Hu & _); by apply Hz in Hl).
  split; cbn [table size filled]; [done| | | |].
  - split; [done|done|..].
    + unfold t. rewrite length_replicate. lia.
    + intros (s & Hl & Hu). by apply Hz in Hl.
    + intros i s Hl Hu. by apply Hz in Hl.
    + intros i j q d d' _ _ Hh. by apply Hno in Hh.
  - unfold t. by rewrite count_zero.
  - unfold t. by rewrite count_zero, map_size_empty.
  - intros q d Hq. rewrite lookup_empty. split; [done|]. intros (i & _ & Hh). by apply Hno in Hh.
Qed.

(** The odd number the search starts at loses no prime. *)
Lemma start_odd n : 3 <= n → n <= Z.lor n 1 <= n + 1 ∧ Z.odd (Z.lor n 1) = true ∧
  ∀ d, n <= d < Z.lor n 1 → ~ Z.prime d.
Proof.
  intros Hn. rewrite lor_1. destruct (Z.odd n) eqn:E; [split_and!; [lia|lia|done|lia]|].
  split_and!; [lia|lia|by rewrite Z.odd_add, E|]. intros d Hd [_ Hp]. replace d with n in Hp by lia.
  apply (Hp 2); [lia|]. apply Z.mod_divide; [lia|]. by rewrite Zmod_odd, E.
Qed.

(** [hcreate_r] makes an empty table whose size is the least prime that is
    at least 3 and the number asked for, or fails with [ENOMEM] when [calloc]
    fails or no such prime is below [UINT_MAX - 2]. *)
Theorem hcreate_r_prime (calloc : Z → bool) nel h :
  table h = None → 0 <= nel < 2 ^ 64 - 1 →
  let n := Z.max 3 nel in
  (∃ p : Z, Z.prime p ∧ n <= p <= UINT_MAX - 2 ∧ (∀ d, n <= d < p → ~ Z.prime d) ∧
     if calloc (p + 1)
     then ∃ h' t, hcreate_r calloc nel (Some h) = Val (1, Some h', None) ∧ size h' = p ∧ represents h' t ∅
     else hcreate_r calloc nel (Some h) = Val (0, Some (Htab None p 0), Some ENOMEM)) ∨
  ((∀ d, n <= d <= UINT_MAX - 2 → ~ Z.prime d) ∧
   hcreate_r calloc nel (Some h) = Val (0, Some h, Some ENOMEM)).
Proof.
  intros Ht Hnel n. change (2 ^ 64) with 18446744073709551616 in Hnel. unfold hcreate_r. rewrite Ht. cbv zeta.
  assert ((if nel <? 3 then 3 else nel) = n) as -> by (unfold n; zcase; lia).
  destruct (start_odd n) as (Hr & Hodd & Hskip); [lia|].
  destruct (next_prime_spec (Z.lor n 1)) as (r & -> & Hres);
    [change (2 ^ 64) with 18446744073709551616; lia|done|]. cbn [mbind outcome_bind].
  destruct r as [p|]; [left|right].
  - destruct Hres as (Hp & Hrange & Hleast). exists p. unfold UINT_MAX in *. split; [done|]. split; [lia|]. split.
    + intros d Hd. destruct (decide (d < Z.lor n 1)); [apply Hskip; lia|apply Hleast; lia].
    + rewrite wrapu_small by (change (2 ^ 32) with 4294967296; lia).
      destruct (calloc (p + 1)); [|done]. eexists _, _. split; [done|]. split; [done|].
      apply empty_represents; [done|]. change (2 ^ 32) with 4294967296. lia.
  - split; [|done]. intros d Hd. destruct (decide (d < Z.lor n 1)); [apply Hskip; lia|apply Hres; lia].
Qed.

Lemma hcreate_r_prime_witness :
  ∃ h' t, hcreate_r (λ _, true) 4 (Some (Htab None 0 0)) = Val (1, Some h', None) ∧
    size h' = 5 ∧ represents h' t ∅.
Proof.
  destruct (hcreate_r_prime (λ _, true) 4 (Htab None 0 0)) as [(p & Hp & Hr & Hl & h' & t & E & Es & R)|[_ E]].
  - reflexivity.
  - lia.
  - exists h', t. split; [exact E|]. split; [|exact R].
    assert (hcreate_r (λ _, true) 4 (Some (Htab None 0 0))
      = Val (1, Some (Htab (Some (replicate 6 zero_slot)) 5 0), None)) as E' by (vm_compute; reflexivity).
    rewrite E' in E. injection E as <-. reflexivity.
  - vm_compute in E. discriminate E.
Defined.

(** Entering "ab" in an empty table of size 3. *)
Lemma hsearch_r_map_witness :
  ∃ i h' t', hsearch_r (Entry (Some ($"ab" ++ [0])) 7) ENTER (Htab (Some (replicate 4 zero_slot)) 3 0)
    = Val (1, Some i, h', None) ∧ holds t' i $"ab" 7 ∧ size h' = 3 ∧
    represents h' t' (<[$"ab" := 7]> ∅).
Proof.
  assert (represents (Htab (Some (replicate 4 zero_slot)) 3 0) (replicate 4 zero_slot) ∅) as R.
  { apply (empty_represents 3); [|lia]. split; [lia|]. intros n Hn. replace n with 2 by lia.
    intros [k Hk]. lia. }
  pose proof (hsearch_r_map _ _ _ $"ab" [] 7 ENTER R) as H.
  rewrite lookup_empty, map_size_empty in H. apply H. apply (bool_decide_unpack _). reflexivity.
Defined.
End Hsearch.
