(* ===== verification/Tsearch.v ===== *)
(** * Search trees: [misc/tsearch.c]

    Red-black trees in a heap of nodes, with insertion that splits nodes with
    two red children on the way down.  A pointer to a node is an address; a
    pointer to a pointer ([node *]) is the root variable or a child field of a
    node.  The colour is a field, as in the variant of the file without
    [USE_MALLOC_LOW_BIT]; that the macros of the other variant, which hide it
    in the low bit of the left pointer, do the same is shown at the end.  The
    theorems are about the trees the heap holds: order, colours and black
    height are invariants of [tsearch], the list of nodes changes by the key
    entered, and no pointer that a rotation has made stale is ever followed;
    [tfind], [twalk] and [tdestroy] do what they should on such trees. *)

From stdpp Require Import gmap sorting.
From S2P Require Import Prelude Qsort.
Import Qsort.
Local Open Scope Z_scope.

Module Tsearch.

(** ** The heap *)

Definition addr : Type := nat.
Inductive side := L | R.
Definition other (d : side) : side := match d with L => R | R => L end.

#[export] Instance side_eq_dec : EqDecision side.
Proof. solve_decision. Defined.

Section code.
Context {K : Type}.
Variable compar : K → K → Z.

Record node := Node { key : K; left_node : option addr; right_node : option addr; is_red : bool }.

(** A [node *]: where a link is stored. *)
Inductive nodep := RootP | ChildP (d : side) (a : addr).

Record state := State { heap : gmap addr node; rootv : option addr }.

Definition M (A : Type) : Type := state → outcome (A * state).
#[export] Instance M_ret : MRet M := λ A x s, Val (x, s).
#[export] Instance M_bind : MBind M := λ A B f m s, m s ≫= λ r : A * state, f r.1 r.2.

Definition fault {A : Type} : M A := λ _, Fault.
(** Use of a pointer that may be null. *)
Definition nonnull {A : Type} (o : option A) : M A := match o with Some a => mret a | None => fault end.

Definition get (a : addr) : M node := λ s, n ← deref (heap s !! a); Val (n, s).
Definition put (a : addr) (n : node) : M () := λ s,
  _ ← deref (heap s !! a); Val ((), State (<[a:=n]> (heap s)) (rootv s)).

Definition RED (a : addr) : M bool := n ← get a; mret (is_red n).
Definition SETRED (a : addr) : M () := n ← get a; put a (Node (key n) (left_node n) (right_node n) true).
Definition SETBLACK (a : addr) : M () := n ← get a; put a (Node (key n) (left_node n) (right_node n) false).

Definition child (d : side) (n : node) : option addr := match d with L => left_node n | R => right_node n end.
Definition with_child (d : side) (n : node) (o : option addr) : node :=
  match d with
  | L => Node (key n) o (right_node n) (is_red n)
  | R => Node (key n) (left_node n) o (is_red n)
  end.

(** [LEFT], [RIGHT] and [SETLEFT], [SETRIGHT]. *)
Definition CHILD (d : side) (a : addr) : M (option addr) := n ← get a; mret (child d n).
Definition SETCHILD (d : side) (a : addr) (o : option addr) : M () := n ← get a; put a (with_child d n o).

Definition DEREFNODEPTR (p : nodep) : M (option addr) :=
  match p with
  | RootP => λ s, Val (rootv s, s)
  | ChildP d a => CHILD d a
  end.
Definition SETNODEPTR (p : nodep) (o : option addr) : M () :=
  match p with
  | RootP => λ s, Val ((), State (heap s) o)
  | ChildP d a => SETCHILD d a o
  end.

(** [if (x) SETBLACK (x);] *)
Definition blacken (o : option addr) : M () := match o with Some a => SETBLACK a | None => mret () end.
(** [x != NULL && RED (x)]. *)
Definition red_child (o : option addr) : M bool := match o with Some a => RED a | None => mret false end.

(** The rotations of [maybe_split_for_insert] for two red edges in a row. *)
Definition fix_red_edges (root : addr) (rpn lpn : option addr) (parentp gparentp : option nodep)
    (p_r gp_r : Z) : M () :=
  match parentp with
  | None => mret ()
  | Some parentp =>
      o ← DEREFNODEPTR parentp;
      p ← nonnull o;
      pred ← RED p;
      if pred : bool then
        gparentp ← nonnull gparentp;
        o ← DEREFNODEPTR gparentp;
        gp ← nonnull o;
        if negb (Bool.eqb (0 <? p_r) (0 <? gp_r)) then
          _ ← SETRED p;
          _ ← SETRED gp;
          _ ← SETBLACK root;
          _ ← (if p_r <? 0 then
                 _ ← SETCHILD L p rpn;
                 _ ← SETNODEPTR (ChildP R root) (Some p);
                 _ ← SETCHILD R gp lpn;
                 SETNODEPTR (ChildP L root) (Some gp)
               else
                 _ ← SETCHILD R p lpn;
                 _ ← SETNODEPTR (ChildP L root) (Some p);
                 _ ← SETCHILD L gp rpn;
                 SETNODEPTR (ChildP R root) (Some gp));
          SETNODEPTR gparentp (Some root)
        else
          _ ← SETNODEPTR gparentp (Some p);
          _ ← SETBLACK p;
          _ ← SETRED gp;
          if p_r <? 0 then
            c ← CHILD R p;
            _ ← SETCHILD L gp c;
            SETCHILD R p (Some gp)
          else
            c ← CHILD L p;
            _ ← SETCHILD R gp c;
            SETCHILD L p (Some gp)
      else mret ()
  end.

Definition maybe_split_for_insert (rootp : nodep) (parentp gparentp : option nodep) (p_r gp_r : Z)
    (mode : bool) : M () :=
  o ← DEREFNODEPTR rootp;
  root ← nonnull o;
  rpn ← CHILD R root;
  lpn ← CHILD L root;
  rred ← red_child rpn;
  lred ← red_child lpn;
  if mode || (rred && lred) then
    _ ← SETRED root;
    _ ← blacken rpn;
    _ ← blacken lpn;
    fix_red_edges root rpn lpn parentp gparentp p_r gp_r
  else mret ().

(** How the loop of [tsearch] ends: at a node with the key, or at a null link
    [nextp] with the values of the local variables. *)
Inductive stop :=
  | Present (a : addr)
  | Vacant (nextp rootp : nodep) (parentp : option nodep) (r p_r : Z).

Fixpoint descend (fuel : nat) (k : K) (rootp : nodep) (parentp gparentp : option nodep)
    (r p_r gp_r : Z) : M stop :=
  match fuel with
  | O => λ _, NoFuel
  | S fuel' =>
      o ← DEREFNODEPTR rootp;
      match o with
      | None => mret (Vacant rootp rootp parentp r p_r)
      | Some root =>
          n ← get root;
          let r := compar k (key n) in
          if r =? 0 then mret (Present root)
          else
            _ ← maybe_split_for_insert rootp parentp gparentp p_r gp_r false;
            let nextp := ChildP (if r <? 0 then L else R) root in
            o ← DEREFNODEPTR nextp;
            match o with
            | None => mret (Vacant nextp rootp parentp r p_r)
            | Some _ => descend fuel' k nextp (Some rootp) parentp r r p_r
            end
      end
  end.

#[export] Instance nodep_eq_dec : EqDecision nodep.
Proof. solve_decision. Defined.

(** [tsearch (key, vrootp, compar)], [alloc] being what [malloc] returns. *)
Definition tsearch (fuel : nat) (k : K) (alloc : option addr) : M (option addr) :=
  o ← DEREFNODEPTR RootP;
  _ ← blacken o;
  e ← descend fuel k RootP None None 0 0 0;
  match e with
  | Present a => mret (Some a)
  | Vacant nextp rootp parentp r p_r =>
      match alloc with
      | None => mret None
      | Some q =>
          _ ← SETNODEPTR nextp (Some q);
          _ ← (λ s : state, Val ((), State (<[q:=Node k None None true]> (heap s)) (rootv s)));
          _ ← (if bool_decide (nextp = rootp) then mret ()
               else maybe_split_for_insert nextp (Some rootp) parentp r p_r true);
          mret (Some q)
      end
  end.

Fixpoint tfind (fuel : nat) (k : K) (rootp : nodep) : M (option addr) :=
  match fuel with
  | O => λ _, NoFuel
  | S fuel' =>
      o ← DEREFNODEPTR rootp;
      match o with
      | None => mret None
      | Some root =>
          n ← get root;
          let r := compar k (key n) in
          if r =? 0 then mret (Some root)
          else tfind fuel' k (ChildP (if r <? 0 then L else R) root)
      end
  end.

(** The calls of [action] that [trecurse] makes. *)
Inductive VISIT := preorder | postorder | endorder | leaf.

Fixpoint trecurse (fuel : nat) (root : addr) (level : Z) : M (list (addr * VISIT * Z)) :=
  match fuel with
  | O => λ _, NoFuel
  | S fuel' =>
      l ← CHILD L root;
      r ← CHILD R root;
      match l, r with
      | None, None => mret [(root, leaf, level)]
      | _, _ =>
          ls ← (match l with Some a => trecurse fuel' a (level + 1) | None => mret [] end);
          rs ← (match r with Some a => trecurse fuel' a (level + 1) | None => mret [] end);
          mret ([(root, preorder, level)] ++ ls ++ [(root, postorder, level)] ++ rs
                ++ [(root, endorder, level)])
      end
  end.

Definition twalk (fuel : nat) (root : option addr) : M (list (addr * VISIT * Z)) :=
  match root with Some a => trecurse fuel a 0 | None => mret [] end.

(** The same with a closure for the level, which every call receives. *)
Fixpoint trecurse_r (fuel : nat) (root : addr) : M (list (addr * VISIT)) :=
  match fuel with
  | O => λ _, NoFuel
  | S fuel' =>
      l ← CHILD L root;
      r ← CHILD R root;
      match l, r with
      | None, None => mret [(root, leaf)]
      | _, _ =>
          ls ← (match l with Some a => trecurse_r fuel' a | None => mret [] end);
          rs ← (match r with Some a => trecurse_r fuel' a | None => mret [] end);
          mret ([(root, preorder)] ++ ls ++ [(root, postorder)] ++ rs ++ [(root, endorder)])
      end
  end.

Definition twalk_r (fuel : nat) (root : option addr) : M (list (addr * VISIT)) :=
  match root with Some a => trecurse_r fuel a | None => mret [] end.

(** [free (a)]: a second one, or a later use of the node, is a fault. *)
Definition free (a : addr) : M () := λ s,
  _ ← deref (heap s !! a); Val ((), State (delete a (heap s)) (rootv s)).

(** The keys handed to [freefct], in order. *)
Fixpoint tdestroy_recurse (fuel : nat) (root : addr) : M (list K) :=
  match fuel with
  | O => λ _, NoFuel
  | S fuel' =>
      l ← CHILD L root;
      ls ← (match l with Some a => tdestroy_recurse fuel' a | None => mret [] end);
      r ← CHILD R root;
      rs ← (match r with Some a => tdestroy_recurse fuel' a | None => mret [] end);
      n ← get root;
      _ ← free root;
      mret (ls ++ rs ++ [key n])
  end.

Definition tdestroy (fuel : nat) (root : option addr) : M (list K) :=
  match root with Some a => tdestroy_recurse fuel a | None => mret [] end.
End code.

(** ** Trees in the heap *)

Section trees.
Context {K : Type}.

(** A tree with the addresses of its nodes; [true] is red. *)
Inductive tree :=
  | E
  | T (a : addr) (c : bool) (k : K) (l r : tree).

(** A link on the path to a subtree: the side it hangs on, the node, and the
    other subtree. *)
Record frame := F { f_side : side; f_addr : addr; f_red : bool; f_key : K; f_sib : tree }.
Definition ctx : Type := list frame.

Definition ad (t : tree) : option addr := match t with E => None | T a _ _ _ _ => Some a end.
Definition red (t : tree) : bool := match t with E => false | T _ c _ _ _ => c end.
Definition black (t : tree) : tree := match t with E => E | T a _ k l r => T a false k l r end.

Definition join (d : side) (a : addr) (c : bool) (k : K) (t s : tree) : tree :=
  match d with L => T a c k t s | R => T a c k s t end.
Fixpoint plug (C : ctx) (t : tree) : tree :=
  match C with
  | [] => t
  | F d a c k s :: C' => plug C' (join d a c k t s)
  end.

(** Where the link to the subtree is stored. *)
Definition here (C : ctx) : nodep := match C with [] => RootP | F d a _ _ _ :: _ => ChildP d a end.

Fixpoint addrs (t : tree) : list addr :=
  match t with E => [] | T a _ _ l r => a :: addrs l ++ addrs r end.
Fixpoint addrs_ctx (C : ctx) : list addr :=
  match C with [] => [] | f :: C' => f_addr f :: addrs (f_sib f) ++ addrs_ctx C' end.

Definition mknode (d : side) (k : K) (o os : option addr) (c : bool) : node :=
  match d with L => Node k o os c | R => Node k os o c end.

Fixpoint rep (h : gmap addr node) (t : tree) : Prop :=
  match t with
  | E => True
  | T a c k l r => h !! a = Some (Node k (ad l) (ad r) c) ∧ rep h l ∧ rep h r
  end.

(** The context with a link to [o] in its hole. *)
Fixpoint rep_ctx (h : gmap addr node) (v : option addr) (C : ctx) (o : option addr) : Prop :=
  match C with
  | [] => v = o
  | F d a c k s :: C' => h !! a = Some (mknode d k o (ad s) c) ∧ rep h s ∧ rep_ctx h v C' (Some a)
  end.

(** The state holds the tree [plug C t]. *)
Record holds (st : state) (C : ctx) (t : tree) : Prop := {
  ho_ctx : rep_ctx (heap st) (rootv st) C (ad t);
  ho_rep : rep (heap st) t;
  ho_nodup : NoDup (addrs_ctx C ++ addrs t)
}.

Lemma rep_agree h h' t : rep h t → (∀ b, b ∈ addrs t → h' !! b = h !! b) → rep h' t.
Proof.
  induction t as [|a c k l IHl r IHr]; cbn; [done|]. intros (H1 & H2 & H3) Hag. split_and!.
  - rewrite Hag; [done|set_solver].
  - apply IHl; [done|]. intros b Hb. apply Hag. set_solver.
  - apply IHr; [done|]. intros b Hb. apply Hag. set_solver.
Qed.

Lemma rep_ctx_agree h h' v C o :
  rep_ctx h v C o → (∀ b, b ∈ addrs_ctx C → h' !! b = h !! b) → rep_ctx h' v C o.
Proof.
  revert o. induction C as [|[d a c k s] C IH]; intros o; cbn; [done|]. intros (H1 & H2 & H3) Hag. split_and!.
  - rewrite Hag; [done|set_solver].
  - apply (rep_agree h); [done|]. intros b Hb. apply Hag. set_solver.
  - apply IH; [done|]. intros b Hb. apply Hag. set_solver.
Qed.

Lemma nodup_perm (l l' : list addr) : l ≡ₚ l' → NoDup l ↔ NoDup l'.
Proof. by intros ->. Qed.

Lemma addrs_push d a c k t s C :
  addrs_ctx C ++ addrs (join d a c k t s) ≡ₚ addrs_ctx (F d a c k s :: C) ++ addrs t.
Proof.
  destruct d; cbn; rewrite <- Permutation_middle; f_equiv; rewrite (comm (++) (addrs_ctx C));
    [rewrite (comm (++) (addrs t))|]; rewrite <- !(assoc (++)); f_equiv; apply (comm (++)).
Qed.

Lemma holds_push st d a c k t s C :
  holds st C (join d a c k t s) ↔ holds st (F d a c k s :: C) t.
Proof.
  split; intros [H1 H2 H3]; split; try (by apply (nodup_perm _ _ (addrs_push d a c k t s C)));
    destruct d; cbn in *; naive_solver.
Qed.

(** ** The operations on a heap that holds a tree *)

Implicit Types (h : gmap addr (node (K := K))) (v : option addr).

Lemma bind_step {A B : Type} (m : M A) (f : A → M B) (s s' : state (K := K)) x :
  m s = Val (x, s') → (m ≫= f) s = f x s'.
Proof. intros E. unfold mbind, M_bind. by rewrite E. Qed.

Lemma node_val h v a n : h !! a = Some n → get a (State h v) = Val (n, State h v).
Proof. intros E. unfold get. cbn. by rewrite E. Qed.

Lemma put_val h v a n n' : h !! a = Some n → put a n' (State h v) = Val ((), State (<[a:=n']> h) v).
Proof. intros E. unfold put. cbn. by rewrite E. Qed.

Lemma RED_val h v a n : h !! a = Some n → RED a (State h v) = Val (is_red n, State h v).
Proof. intros E. unfold RED. by rewrite (bind_step _ _ _ _ _ (node_val _ _ _ _ E)). Qed.

Lemma CHILD_val h v d a n : h !! a = Some n → CHILD d a (State h v) = Val (child d n, State h v).
Proof. intros E. unfold CHILD. by rewrite (bind_step _ _ _ _ _ (node_val _ _ _ _ E)). Qed.

Lemma SETRED_val h v a n :
  h !! a = Some n →
  SETRED a (State h v) = Val ((), State (<[a:=Node (key n) (left_node n) (right_node n) true]> h) v).
Proof. intros E. unfold SETRED. rewrite (bind_step _ _ _ _ _ (node_val _ _ _ _ E)). by apply put_val with n. Qed.

Lemma SETBLACK_val h v a n :
  h !! a = Some n →
  SETBLACK a (State h v) = Val ((), State (<[a:=Node (key n) (left_node n) (right_node n) false]> h) v).
Proof. intros E. unfold SETBLACK. rewrite (bind_step _ _ _ _ _ (node_val _ _ _ _ E)). by apply put_val with n. Qed.

Lemma SETCHILD_val h v d a n o :
  h !! a = Some n → SETCHILD d a o (State h v) = Val ((), State (<[a:=with_child d n o]> h) v).
Proof. intros E. unfold SETCHILD. rewrite (bind_step _ _ _ _ _ (node_val _ _ _ _ E)). by apply put_val with n. Qed.

Lemma DEREF_here h v C o : rep_ctx h v C o → DEREFNODEPTR (here C) (State h v) = Val (o, State h v).
Proof.
  destruct C as [|[d a c k s] C]; cbn; [by intros ->|]. intros (H & _).
  rewrite (CHILD_val _ _ _ _ _ H). by destruct d.
Qed.

Lemma SETNODE_here h v C o o' :
  rep_ctx h v C o → NoDup (addrs_ctx C) →
  ∃ h' v', SETNODEPTR (here C) o' (State h v) = Val ((), State h' v') ∧ rep_ctx h' v' C o' ∧
    ∀ b, b ∉ addrs_ctx C → h' !! b = h !! b.
Proof.
  destruct C as [|[d a c k s] C]; cbn; [by intros -> _; exists h, o'|]. intros (H1 & H2 & H3) [Ha Hn]%NoDup_cons.
  exists (<[a:=mknode d k o' (ad s) c]> h), v.
  rewrite (SETCHILD_val _ _ _ _ _ _ H1). split; [by destruct d|]. split.
  - rewrite lookup_insert_eq. split_and!; [done| |].
    + apply (rep_agree h); [done|]. intros b Hb. apply lookup_insert_ne. set_solver.
    + apply (rep_ctx_agree h); [done|]. intros b Hb. apply lookup_insert_ne. set_solver.
  - intros b Hb. apply lookup_insert_ne. set_solver.
Qed.

Lemma red_child_val h v t : rep h t → red_child (ad t) (State h v) = Val (red t, State h v).
Proof. destruct t as [|a c k l r]; cbn; [done|]. intros (H & _). by rewrite (RED_val _ _ _ _ H). Qed.

Lemma blacken_val h v t :
  rep h t → NoDup (addrs t) →
  ∃ h', blacken (ad t) (State h v) = Val ((), State h' v) ∧ rep h' (black t) ∧
    ∀ b, b ∉ addrs t → h' !! b = h !! b.
Proof.
  destruct t as [|a c k l r]; cbn; [by intros; exists h|]. intros (H1 & H2 & H3) [Ha Hn]%NoDup_cons.
  rewrite (SETBLACK_val _ _ _ _ H1). eexists. split; [done|]. split.
  - rewrite lookup_insert_eq. split_and!; [done| |];
      (apply (rep_agree h); [done|]; intros b Hb; apply lookup_insert_ne; set_solver).
  - intros b Hb. apply lookup_insert_ne. set_solver.
Qed.

Lemma ad_black (t : tree) : ad (black t) = ad t.
Proof. by destruct t. Qed.
Lemma addrs_black (t : tree) : addrs (black t) = addrs t.
Proof. by destruct t. Qed.

(** The colours of a split: the node red, its children black. *)
Lemma recolour h v a c k (l r : tree) :
  rep h (T a c k l r) → NoDup (addrs (T a c k l r)) →
  ∃ h', (∀ B (f : M B), (_ ← SETRED a; _ ← blacken (ad r); _ ← blacken (ad l); f) (State h v) = f (State h' v)) ∧
    rep h' (T a true k (black l) (black r)) ∧ ∀ b, b ∉ addrs (T a c k l r) → h' !! b = h !! b.
Proof.
  cbn [rep addrs]. intros (H1 & H2 & H3) [Ha Hn]%NoDup_cons. apply NoDup_app in Hn as (Hl & Hlr & Hr).
  set (h1 := <[a:=Node k (ad l) (ad r) true]> h).
  assert (∀ b, b ≠ a → h1 !! b = h !! b) as A1 by (intros b Hb; by apply lookup_insert_ne).
  assert (rep h1 r) as R1 by (apply (rep_agree h); [done|]; intros b Hb; apply A1; set_solver).
  destruct (blacken_val h1 v r R1 Hr) as (h2 & E2 & R2 & A2).
  assert (rep h2 l) as R3.
  { apply (rep_agree h); [done|]. intros b Hb. rewrite A2, A1; [done|set_solver|set_solver]. }
  destruct (blacken_val h2 v l R3 Hl) as (h3 & E3 & R4 & A3).
  exists h3. split; [|split].
  - intros B f. rewrite (bind_step _ _ _ _ _ (SETRED_val _ _ _ _ H1)). cbn [key left_node right_node].
    by rewrite (bind_step _ _ _ _ _ E2), (bind_step _ _ _ _ _ E3).
  - split_and!; [|done|].
    + rewrite !ad_black, A3, A2 by set_solver. apply lookup_insert_eq.
    + apply (rep_agree h2); [done|]. intros b Hb. rewrite addrs_black in Hb. apply A3. set_solver.
  - intros b Hb. rewrite A3, A2, A1 by set_solver. done.
Qed.

(** ** Splitting *)

(** The sign of a comparison that led to a side. *)
Definition dir (d : side) (r : Z) : Prop := match d with L => r < 0 | R => 0 < r end.

Lemma split_reads h v C a c k (l r : tree) pp gpp p_r gp_r mode :
  holds (State h v) C (T a c k l r) →
  maybe_split_for_insert (here C) pp gpp p_r gp_r mode (State h v)
  = (if mode || (red r && red l)
     then _ ← SETRED a; _ ← blacken (ad r); _ ← blacken (ad l);
          fix_red_edges a (ad r) (ad l) pp gpp p_r gp_r
     else mret ()) (State h v).
Proof.
  intros [H1 (H2 & H3 & H4) _]. unfold maybe_split_for_insert.
  rewrite (bind_step _ _ _ _ _ (DEREF_here _ _ _ _ H1)). cbn [ad nonnull].
  rewrite (bind_step _ _ _ _ a) by done. rewrite (bind_step _ _ _ _ _ (CHILD_val _ _ R _ _ H2)).
  rewrite (bind_step _ _ _ _ _ (CHILD_val _ _ L _ _ H2)). cbn [child left_node right_node].
  rewrite (bind_step _ _ _ _ _ (red_child_val _ _ _ H4)).
  by rewrite (bind_step _ _ _ _ _ (red_child_val _ _ _ H3)).
Qed.

Lemma split_start h v C a c k (l r : tree) pp gpp p_r gp_r mode :
  holds (State h v) C (T a c k l r) → mode || (red r && red l) = true →
  ∃ h', maybe_split_for_insert (here C) pp gpp p_r gp_r mode (State h v)
        = fix_red_edges a (ad r) (ad l) pp gpp p_r gp_r (State h' v) ∧
    holds (State h' v) C (T a true k (black l) (black r)).
Proof.
  intros Hh Hm. rewrite (split_reads _ _ _ _ _ _ _ _ _ _ _ _ _ Hh), Hm. destruct Hh as [H1 H2 H3].
  pose proof H3 as (HC & Hd & Ht)%NoDup_app. destruct (recolour h v a c k l r H2 Ht) as (h' & E & R' & A).
  exists h'. split; [apply E|]. split; cbn [heap rootv].
  - apply (rep_ctx_agree h); [exact H1|]. intros b Hb. apply A. by apply Hd.
  - done.
  - cbn [addrs] in *. by rewrite !addrs_black.
Qed.

(** With no parent, or a black one, that is all. *)
Lemma fix_root h v a o1 o2 gpp p_r gp_r :
  fix_red_edges (K := K) a o1 o2 None gpp p_r gp_r (State h v) = Val ((), State h v).
Proof. done. Qed.

Lemma fix_black h v d p kp sp C t a o1 o2 gpp p_r gp_r :
  holds (State h v) (F d p false kp sp :: C) t →
  fix_red_edges a o1 o2 (Some (here C)) gpp p_r gp_r (State h v) = Val ((), State h v).
Proof.
  intros [(H1 & H2 & H3) _ _]. unfold fix_red_edges.
  rewrite (bind_step _ _ _ _ _ (DEREF_here _ _ _ _ H3)), (bind_step _ _ _ _ p) by done.
  rewrite (bind_step _ _ _ _ _ (RED_val _ _ _ _ H1)). by destruct d.
Qed.

(** The result of the rotations. *)
Definition rotated (d1 d2 : side) (p : addr) (kp : K) (sp : tree) (gp : addr) (kg : K) (sg : tree)
    (a : addr) (k : K) (l r : tree) : tree :=
  match d1, d2 with
  | L, L => T p false kp (T a true k l r) (T gp true kg sp sg)
  | R, R => T p false kp (T gp true kg sg sp) (T a true k l r)
  | L, R => T a false k (T gp true kg sg l) (T p true kp r sp)
  | R, L => T a false k (T p true kp sp l) (T gp true kg r sg)
  end.

Lemma perm_count (l l' : list addr) :
  (∀ x, count_occ Nat.eq_dec l x = count_occ Nat.eq_dec l' x) → l ≡ₚ l'.
Proof. apply Permutation_count_occ. Qed.

Lemma rotated_addrs C d1 d2 p kp sp gp kg sg a k l r :
  addrs_ctx (F d1 p true kp sp :: F d2 gp false kg sg :: C) ++ addrs (T a true k l r)
  ≡ₚ addrs_ctx C ++ addrs (rotated d1 d2 p kp sp gp kg sg a k l r).
Proof.
  apply perm_count. intros x. destruct d1, d2; cbn [rotated addrs addrs_ctx f_addr f_sib];
    repeat (rewrite ?count_occ_app; cbn [count_occ app]); repeat case_match; lia.
Qed.

Lemma rep_insert h b n t : rep h t → b ∉ addrs t → rep (<[b:=n]> h) t.
Proof. intros H Hb. apply (rep_agree h); [done|]. intros c Hc. apply lookup_insert_ne. set_solver. Qed.
Lemma rep_ctx_insert h v b n C o : rep_ctx h v C o → b ∉ addrs_ctx C → rep_ctx (<[b:=n]> h) v C o.
Proof. intros H Hb. apply (rep_ctx_agree h); [done|]. intros c Hc. apply lookup_insert_ne. set_solver. Qed.

Lemma step_assoc {A B D : Type} (m : M A) (f : A → M B) (g : B → M D) (s : state (K := K)) :
  ((m ≫= f) ≫= g) s = (m ≫= λ x, f x ≫= g) s.
Proof. unfold mbind, M_bind. by destruct (m s). Qed.

Lemma relink h v C o o' :
  rep_ctx h v C o → NoDup (addrs_ctx C) →
  ∃ h' v', SETNODEPTR (here C) o' (State h v) = Val ((), State h' v') ∧ rep_ctx h' v' C o' ∧
    (∀ b n, h !! b = Some n → b ∉ addrs_ctx C → h' !! b = Some n) ∧
    (∀ t, rep h t → (∀ b, b ∈ addrs t → b ∉ addrs_ctx C) → rep h' t).
Proof.
  intros Hc Hn. destruct (SETNODE_here h v C o o' Hc Hn) as (h' & v' & E & Hc' & A). exists h', v'.
  split_and!; [done..| |].
  - intros b n Hb Hf. by rewrite A.
  - intros t Ht Hf. apply (rep_agree h); [done|]. auto.
Qed.

End trees.

Ltac look := cbn [heap]; repeat (rewrite lookup_insert_eq || rewrite lookup_insert_ne by congruence);
  first [eassumption | reflexivity].
Ltac exec lem := erewrite bind_step; [|eapply lem; look];
  cbn [key left_node right_node is_red child with_child mknode].
Ltac settle :=
  cbn [heap rootv ad rotated];
  lazymatch goal with
  | |- rep_ctx _ _ _ _ => repeat (apply rep_ctx_insert; [|tauto]); assumption
  | |- rep _ _ => repeat (apply rep_insert; [|tauto]); assumption
  | |- _ !! _ = _ => look
  end.

(** *** Rotations on the heap *)

Section rotations.
Context {K : Type}.
Implicit Types (h : gmap addr (node (K := K))) (v : option addr).

Lemma dir_ltb d r : dir d r → (r <? 0) = match d with L => true | R => false end
  ∧ (0 <? r) = match d with L => false | R => true end.
Proof. destruct d; cbn; intros; split; lia. Qed.

Definition clear_of (b : addr) (sp sg l r : tree (K := K)) (C : ctx (K := K)) : Prop :=
  (b ∉ addrs sp) ∧ (b ∉ addrs sg) ∧ (b ∉ addrs l) ∧ (b ∉ addrs r) ∧ (b ∉ addrs_ctx C).

Lemma three_fresh d1 p c1 kp sp d2 gp c2 kg sg C a k l r :
  NoDup (addrs_ctx (F d1 p c1 kp sp :: F d2 gp c2 kg sg :: C) ++ addrs (T a true k l r)) →
  a ≠ p ∧ a ≠ gp ∧ p ≠ gp ∧ clear_of a sp sg l r C ∧ clear_of p sp sg l r C ∧ clear_of gp sp sg l r C ∧
  ∀ b, b ∈ addrs sp ++ addrs sg ++ addrs l ++ addrs r → b ∉ addrs_ctx C.
Proof.
  intros Hn. assert (NoDup (a :: p :: gp :: (addrs sp ++ addrs sg ++ addrs l ++ addrs r) ++ addrs_ctx C)) as Hp.
  { eapply nodup_perm, Hn. apply perm_count. intros x. cbn [addrs addrs_ctx f_addr f_sib].
    repeat (rewrite ?count_occ_app; cbn [count_occ app]). repeat case_match; lia. }
  rewrite !NoDup_cons, !not_elem_of_cons, !not_elem_of_app in Hp. unfold clear_of.
  destruct Hp as (? & ? & ? & Hp). split_and!; try tauto.
  by apply NoDup_app in Hp as (_ & Hp & _).
Qed.

Lemma fix_rot h v d1 p kp sp d2 gp kg sg C a k l r p_r gp_r :
  holds (State h v) (F d1 p true kp sp :: F d2 gp false kg sg :: C) (T a true k l r) →
  dir d1 p_r → dir d2 gp_r →
  ∃ st', fix_red_edges a (ad r) (ad l) (Some (here (F d2 gp false kg sg :: C))) (Some (here C)) p_r gp_r (State h v)
         = Val ((), st') ∧ holds st' C (rotated d1 d2 p kp sp gp kg sg a k l r).
Proof.
  intros [Hc Ht Hn] [P1 P2]%dir_ltb [G1 G2]%dir_ltb.
  destruct Hc as (Hp & Hsp & Hgp & Hsg & HC). destruct Ht as (Ha & Hl & Hr). cbn in Ha, Hp, Hgp, HC.
  pose proof Hn as Hn'. rewrite (rotated_addrs C d1 d2 p kp sp gp kg sg a k l r) in Hn'.
  pose proof (three_fresh _ _ _ _ _ _ _ _ _ _ _ _ _ _ _ Hn) as (N1 & N2 & N3 & Fa & Fp & Fg & Fs); unfold clear_of in Fa, Fp, Fg.
  assert (NoDup (addrs_ctx C)) as NC by (apply NoDup_app in Hn'; tauto).
  unfold fix_red_edges.
  rewrite P1, P2, G2.
  assert (DEREFNODEPTR (here (F d2 gp false kg sg :: C)) (State h v) = Val (Some p, State h v)) as E1.
  { apply DEREF_here. cbn. done. }
  rewrite (bind_step _ _ _ _ _ E1). rewrite (bind_step _ _ _ _ p) by done.
  rewrite (bind_step _ _ _ _ _ (RED_val _ _ _ _ Hp)).
  replace (is_red (mknode d1 kp (Some a) (ad sp) true)) with true by (by destruct d1). cbv iota.
  rewrite (bind_step _ _ _ _ (here C)) by done.
  rewrite (bind_step _ _ _ _ _ (DEREF_here _ _ _ _ HC)), (bind_step _ _ _ _ gp) by done.
  destruct d1, d2; cbn [negb Bool.eqb mknode SETNODEPTR] in *.
  1,4: destruct (relink h v C (Some gp) (Some p) HC NC) as (h1 & v1 & E & HC1 & K1 & R1);
    rewrite (bind_step _ _ _ _ _ E); apply K1 in Ha, Hp, Hgp; [|tauto..];
    apply R1 in Hsp, Hsg, Hl, Hr; [|intros b Hb; apply Fs; rewrite !elem_of_app; tauto..];
    exec @SETBLACK_val; exec @SETRED_val; exec @CHILD_val; exec @SETCHILD_val; erewrite SETCHILD_val by look;
    eexists; (split; [reflexivity|]); (split; [settle|cbn [rep rotated heap]; split_and!; settle|exact Hn']).
  all: exec @SETRED_val; exec @SETRED_val; exec @SETBLACK_val.
  all: rewrite !step_assoc; exec @SETCHILD_val; rewrite step_assoc; exec @SETCHILD_val; rewrite step_assoc;
    exec @SETCHILD_val; exec @SETCHILD_val.
  all: match goal with |- context [SETNODEPTR _ _ {| heap := ?h1; rootv := ?v1 |}] =>
    destruct (relink h1 v1 C (Some gp) (Some a)) as (h2 & v2 & E & HC1 & K1 & R1); [settle|done|] end;
    rewrite E; eexists; (split; [reflexivity|]); 
    (split; [assumption|cbn [rep rotated heap]; split_and!|exact Hn']).
  all: first [apply K1; [look|tauto] | apply R1; [settle|intros b Hb; apply Fs; rewrite !elem_of_app; tauto]].
Qed.
End rotations.

(** ** The invariants *)

Section invariants.
Context {K : Type}.
Implicit Types (t s l r : tree (K := K)) (C : ctx (K := K)).

(** [n] black nodes on every path and no two red nodes in a row. *)
Fixpoint bal t (n : nat) : Prop :=
  match t with
  | E => n = 0%nat
  | T _ true _ l r => red l = false ∧ red r = false ∧ bal l n ∧ bal r n
  | T _ false _ l r => match n with O => False | S m => bal l m ∧ bal r m end
  end.

(** A context that is balanced once a tree with [n] black nodes on every
    path, red when [c], is in its hole. *)
Fixpoint balc C (n : nat) (c : bool) : Prop :=
  match C with
  | [] => True
  | F _ _ true _ s :: C' => c = false ∧ red s = false ∧ bal s n ∧ balc C' n true
  | F _ _ false _ s :: C' => bal s n ∧ balc C' (S n) false
  end.

Lemma balc_black C n c : balc C n c → balc C n false.
Proof. destruct C as [|[d a [] k s] C]; cbn; naive_solver. Qed.

Lemma bal_plug C t n : bal t n → balc C n (red t) → ∃ m, bal (plug C t) m.
Proof.
  revert t n. induction C as [|[d a c k s] C IH]; intros t n Ht Hc; cbn in *; [by exists n|].
  destruct c, d; cbn; [apply (IH _ n)|apply (IH _ n)|apply (IH _ (S n))|apply (IH _ (S n))]; naive_solver.
Qed.

Fixpoint inorder t : list (addr * K) :=
  match t with E => [] | T a _ k l r => inorder l ++ (a, k) :: inorder r end.

Lemma inorder_plug C t t' : inorder t = inorder t' → inorder (plug C t) = inorder (plug C t').
Proof. revert t t'. induction C as [|[d a c k s] C IH]; intros t t' H; cbn; [done|]. apply IH. destruct d; cbn; by rewrite H. Qed.

Fixpoint height t : nat := match t with E => 0 | T _ _ _ l r => S (height l `max` height r) end.

Lemma bal_height t n : bal t n → (height t ≤ 2 * n + if red t then 1 else 0)%nat.
Proof.
  revert n. induction t as [|a c k l IHl r IHr]; intros n H; [cbn; lia|]. cbn [height red]. destruct c; cbn in H.
  - destruct H as (E1 & E2 & [H1%IHl H2%IHr]). rewrite E1 in H1. rewrite E2 in H2. lia.
  - destruct n as [|m]; [done|]. destruct H as [H1%IHl H2%IHr]. destruct (red l), (red r); lia.
Qed.

Lemma bal_size t n : bal t n → (2 ^ n ≤ S (length (inorder t)))%nat.
Proof.
  revert n. induction t as [|a c k l IHl r IHr]; intros n H; cbn in H; [by subst|].
  cbn [inorder]. rewrite length_app. cbn [length]. destruct c.
  - destruct H as (_ & _ & H1%IHl & H2%IHr). lia.
  - destruct n as [|m]; [done|]. destruct H as [H1%IHl H2%IHr]. rewrite Nat.pow_succ_r'. lia.
Qed.

Lemma bal_log t n : bal t n → red t = false → (height t ≤ 2 * Nat.log2 (S (length (inorder t))))%nat.
Proof.
  intros H Hr. pose proof (bal_height t n H) as Hh. rewrite Hr in Hh. pose proof (bal_size t n H) as Hs.
  pose proof (Nat.log2_le_mono _ _ Hs) as Hl. rewrite Nat.log2_pow2 in Hl by lia. lia.
Qed.

Lemma rb_height t n : bal t n → (height t ≤ 2 * Nat.log2 (S (length (inorder t))) + 1)%nat.
Proof.
  intros H. pose proof (bal_height t n H) as Hh. pose proof (Nat.log2_le_mono _ _ (bal_size t n H)) as Hl.
  rewrite Nat.log2_pow2 in Hl by lia. destruct (red t); lia.
Qed.

Lemma bal_black t n : bal t n → ∃ m, bal (black t) m.
Proof. destruct t as [|a [] k l r]; cbn; [by exists 0%nat| |by exists n]. intros (_ & _ & ?). by exists (S n). Qed.

(** ** Rotations keep them *)
Lemma rotated_inorder d1 d2 p kp sp gp kg sg a k l r c1 c2 :
  inorder (rotated d1 d2 p kp sp gp kg sg a k l r)
  = inorder (join d2 gp c2 kg (join d1 p c1 kp (T a true k l r) sp) sg).
Proof. destruct d1, d2; cbn; rewrite <- ?(assoc (++)); cbn; by rewrite <- ?(assoc (++)). Qed.

Lemma rotated_bal d1 d2 p kp sp gp kg sg a k l r n :
  bal l n → bal r n → bal sp n → bal sg n →
  red l = false → red r = false → red sp = false → red sg = false →
  bal (rotated d1 d2 p kp sp gp kg sg a k l r) (S n) ∧ red (rotated d1 d2 p kp sp gp kg sg a k l r) = false.
Proof. intros. destruct d1, d2; cbn; tauto. Qed.
End invariants.

(** ** The descent of [tsearch] *)

Section descent.
Context {K : Type} (compar : K → K → Z) (k : K).
Implicit Types (t s l r u : tree (K := K)) (C : ctx (K := K)) (pp gpp : option nodep) (st : state (K := K)).

(** The side the key belongs on, given its comparison with a node's key. *)
Definition sd (z : Z) : side := if z <? 0 then L else R.

Lemma dir_sd z : z ≠ 0 → dir (sd z) z.
Proof. unfold sd. destruct (Z.ltb_spec z 0); cbn; lia. Qed.
Lemma sd_dir d z : dir d z → sd z = d ∧ z ≠ 0.
Proof. unfold sd. destruct d; cbn; intros; destruct (Z.ltb_spec z 0); split; (done || lia). Qed.

(** The path followed is the one the comparisons with [k] prescribe. *)
Definition fits C : Prop := Forall (λ f, dir (f_side f) (compar k (f_key f))) C.

(** [pp] is the link to the innermost node of [C], which is black, and the
    node's other child is black too. *)
Definition upper C pp (p_r : Z) : Prop :=
  ∃ d p kp sp C', C = F d p false kp sp :: C' ∧ pp = Some (here C') ∧ dir d p_r ∧ red sp = false.

(** What the local variables must be for the node [t] the loop is at: a red
    node needs its parent, a node with two red children its parent and, when
    that is red, its grandparent. *)
Definition ready C t pp gpp (p_r gp_r : Z) : Prop :=
  match t with
  | E => False
  | T _ c _ l r =>
      (c = true → upper C pp p_r) ∧
      (red r && red l = true →
       match C with
       | [] => pp = None
       | F d p c _ _ :: C' => pp = Some (here C') ∧ dir d p_r ∧ (c = true → upper C' gpp gp_r)
       end)
  end.

Record at_node st C t (n : nat) : Prop := {
  an_holds : holds st C t;
  an_bal : bal t n;
  an_balc : balc C n (red t);
  an_fits : fits C
}.

Lemma an_push st d a c x u s C n :
  at_node st C (join d a c x u s) n → dir d (compar k x) →
  at_node st (F d a c x s :: C) u (if c then n else pred n).
Proof.
  intros [H1 H2 H3 H4] Hd. split; [by apply holds_push| | |by constructor];
    destruct d, c; cbn in *; try destruct n; naive_solver.
Qed.

Lemma an_pop st d a c x u s C n :
  at_node st (F d a c x s :: C) u n → at_node st C (join d a c x u s) (if c then n else S n).
Proof.
  intros [H1 H2 H3 H4]. apply Forall_cons in H4 as [_ H4].
  split; [by apply holds_push| | |done]; destruct d, c; cbn in *; naive_solver.
Qed.

Lemma inorder_black t : inorder (black t) = inorder t.
Proof. by destruct t. Qed.

Lemma recoloured C a c x l r n :
  bal (T a c x l r) n → balc C n c → red r && red l = true →
  c = false ∧ bal (T a true x (black l) (black r)) n ∧
  inorder (plug C (T a true x (black l) (black r))) = inorder (plug C (T a c x l r)).
Proof.
  intros Hb Hc [Hr Hl]%andb_true_iff. split_and!.
  - destruct c; [|done]. cbn in Hb. destruct Hb as (? & _). congruence.
  - destruct l as [|? [] ? ? ?], r as [|? [] ? ? ?]; try done. destruct c, n; cbn in *; naive_solver.
  - apply inorder_plug. cbn. by rewrite !inorder_black.
Qed.

(** Two red edges in a row, in a tree that is balanced otherwise. *)
Lemma rotate_node h v d1 p kp sp d2 gp kg sg C a x l r n p_r gp_r :
  holds (State h v) (F d1 p true kp sp :: F d2 gp false kg sg :: C) (T a true x l r) →
  bal (T a true x l r) n → balc (F d1 p true kp sp :: F d2 gp false kg sg :: C) n false →
  dir d1 p_r → dir d2 gp_r → red sg = false → fits C →
  ∃ st', fix_red_edges a (ad r) (ad l) (Some (here (F d2 gp false kg sg :: C))) (Some (here C)) p_r gp_r (State h v)
         = Val ((), st') ∧
    at_node st' C (rotated d1 d2 p kp sp gp kg sg a x l r) (S n) ∧
    inorder (plug C (rotated d1 d2 p kp sp gp kg sg a x l r))
    = inorder (plug (F d1 p true kp sp :: F d2 gp false kg sg :: C) (T a true x l r)).
Proof.
  intros Hh (B1 & B2 & B3 & B4) (_ & S1 & S2 & S3 & S4) D1 D2 Hg Hf.
  destruct (fix_rot h v d1 p kp sp d2 gp kg sg C a x l r p_r gp_r Hh D1 D2) as (st' & E & H').
  destruct (rotated_bal d1 d2 p kp sp gp kg sg a x l r n) as [Hb' Hr']; try done.
  exists st'. split_and!; [exact E| |cbn [plug]; by apply inorder_plug, rotated_inorder].
  split; [done..| |done]. by rewrite Hr'.
Qed.

Definition split_done st' C a x l r L : Prop :=
  (∃ C1 m, here C1 = here C ∧ at_node st' C1 (T a true x l r) m ∧ inorder (plug C1 (T a true x l r)) = L)
  ∨ ∃ d p kp sp gp kg sg C1 m,
      at_node st' C1 (rotated d (other d) p kp sp gp kg sg a x l r) m ∧
      dir d (compar k kp) ∧ dir (other d) (compar k kg) ∧ red sp = false ∧ red sg = false ∧
      inorder (plug C1 (rotated d (other d) p kp sp gp kg sg a x l r)) = L.

Lemma split_node st C a c x l r n pp gpp p_r gp_r :
  at_node st C (T a c x l r) n → ready C (T a c x l r) pp gpp p_r gp_r → red r && red l = true →
  ∃ st', maybe_split_for_insert (here C) pp gpp p_r gp_r false st = Val ((), st') ∧
    split_done st' C a x (black l) (black r) (inorder (plug C (T a c x l r))).
Proof.
  destruct st as [h v]. intros [Hh Hb Hc Hf] [_ Hr] Hrr. specialize (Hr Hrr). cbn [red] in Hc.
  destruct (split_start h v C a c x l r pp gpp p_r gp_r false Hh Hrr) as (h1 & -> & Hh1).
  destruct (recoloured C a c x l r n Hb Hc Hrr) as (-> & Hb1 & <-).
  destruct C as [|[d p [] kp sp] C']; [subst pp|..].
  - eexists. split; [apply fix_root|]. left. exists [], n. split_and!; [done|by split|done].
  - destruct Hr as (-> & D & (d2 & gp & kg & sg & C2 & -> & -> & D2 & Hg)%(λ H, H eq_refl)).
    apply Forall_cons in Hf as [F1 [F2 Hf]%Forall_cons]. cbn in F1, F2.
    destruct (rotate_node h1 v d p kp sp d2 gp kg sg C2 a x (black l) (black r) n p_r gp_r) as (st' & E & H' & Hi); try done.
    rewrite !ad_black in E. exists st'. split; [exact E|]. destruct (decide (d = d2)) as [->|Hne].
    + left. replace (rotated d2 d2 p kp sp gp kg sg a x (black l) (black r)) with
        (join d2 p false kp (T a true x (black l) (black r)) (join d2 gp true kg sp sg)) in * by (by destruct d2).
      exists (F d2 p false kp (join d2 gp true kg sp sg) :: C2). eexists. split_and!; [done|by apply an_push|exact Hi].
    + right. replace d2 with (other d) in * by (by destruct d, d2).
      destruct Hc as (_ & Hsp & _). naive_solver.
  - destruct Hr as (-> & _). eexists. split; [eapply fix_black; exact Hh1|].
    left. eexists (F d p false kp sp :: C'), n. split_and!; [done|by split|done].
Qed.

Lemma no_split st C a c x l r pp gpp p_r gp_r :
  holds st C (T a c x l r) → red r && red l = false →
  maybe_split_for_insert (here C) pp gpp p_r gp_r false st = Val ((), st).
Proof. destruct st as [h v]. intros Hh Hr. rewrite (split_reads _ _ _ _ _ _ _ _ _ _ _ _ _ Hh). by rewrite Hr. Qed.

Lemma descend_step f st st1 C a c x l r C1 d c1 u s pp gpp z0 p_r gp_r :
  holds st C (T a c x l r) → dir d (compar k x) →
  maybe_split_for_insert (here C) pp gpp p_r gp_r false st = Val ((), st1) →
  holds st1 C1 (join d a c1 x u s) →
  descend compar (S f) k (here C) pp gpp z0 p_r gp_r st
  = match u with
    | E => Val (Vacant (ChildP d a) (here C) pp (compar k x) p_r, st1)
    | T _ _ _ _ _ => descend compar f k (ChildP d a) (Some (here C)) pp (compar k x) (compar k x) p_r st1
    end.
Proof.
  destruct st as [h v], st1 as [h1 v1]. intros [H1 (H2 & _) _] [Hd Hz]%sd_dir Hs [_ H3 _]. cbn [descend].
  rewrite (bind_step _ _ _ _ _ (DEREF_here _ _ _ _ H1)). cbn [ad].
  rewrite (bind_step _ _ _ _ _ (node_val _ _ _ _ H2)). cbn [key].
  rewrite (proj2 (Z.eqb_neq _ _) Hz), (bind_step _ _ _ _ _ Hs). fold (sd (compar k x)). rewrite Hd.
  assert (CHILD d a (State h1 v1) = Val (ad u, State h1 v1)) as E.
  { destruct d; destruct H3 as (H3 & _); by rewrite (CHILD_val _ _ _ _ _ H3). }
  rewrite (bind_step _ _ _ _ _ E). by destruct u.
Qed.

Lemma descend_found f st C a c x l r pp gpp z0 p_r gp_r :
  holds st C (T a c x l r) → compar k x = 0 →
  descend compar (S f) k (here C) pp gpp z0 p_r gp_r st = Val (Present a, st).
Proof.
  destruct st as [h v]. intros [H1 (H2 & _) _] Hz. cbn [descend].
  rewrite (bind_step _ _ _ _ _ (DEREF_here _ _ _ _ H1)). cbn [ad].
  rewrite (bind_step _ _ _ _ _ (node_val _ _ _ _ H2)). cbn [key]. by rewrite Hz.
Qed.

(** Where the loop ends: at the key, or at a link where it can be added. *)
Definition landed (e : stop) st L : Prop :=
  ∃ C t n, at_node st C t n ∧ inorder (plug C t) = L ∧
    match e with
    | Present a => ∃ c x l r, t = T a c x l r ∧ compar k x = 0
    | Vacant nextp rootp pp z p_r => 
        t = E ∧ ∃ d a c x s C', C = F d a c x s :: C' ∧ nextp = here C ∧ rootp = here C' ∧ dir d z ∧
          (c = true → upper C' pp p_r)
    end.

Lemma calm_ready C t pp gpp p_r gp_r n : bal t n → red t = true → ready C (black t) pp gpp p_r gp_r.
Proof. destruct t as [|a [] x l r]; try done. intros (E1 & E2 & _) _. cbn. by rewrite E1, E2. Qed.

Lemma child_of d l r : ∃ u s, ∀ a c x, T a c x l r = join d a c (x : K) u s.
Proof. destruct d; [by exists l, r|by exists r, l]. Qed.

(** The descent goes on at the child [u] of the node just visited. *)
Definition goes_on fuel C u :=
  ∀ st n pp gpp z0 p_r gp_r, at_node st C u n → ready C u pp gpp p_r gp_r →
    ∃ e st', descend compar fuel k (here C) pp gpp z0 p_r gp_r st = Val (e, st') ∧
      landed e st' (inorder (plug C u)).

Definition sub d l r := match d with L => l | R => r end.

Lemma sub_join d l r a c (x : K) : T a c x l r = join d a c x (sub d l r) (sub (other d) l r).
Proof. by destruct d. Qed.

(** After a double rotation the key's side of the node is a red node that
    keeps the child the descent is to reach on its inner side. *)
Lemma rotated_inner d d' p kp sp gp kg sg a x l r :
  dir d' (compar k kp) → dir (other d') (compar k kg) → red sp = false → red sg = false →
  ∃ b y s s', dir (other d) (compar k y) ∧ red s = false ∧
    rotated d' (other d') p kp sp gp kg sg a x l r
    = join d a false x (join (other d) b true y (sub d l r) s) s'.
Proof.
  intros. destruct d, d'; cbn; [exists gp, kg, sg|exists p, kp, sp|exists p, kp, sp|exists gp, kg, sg];
    eexists; (split_and!; [done..|reflexivity]).
Qed.

Lemma red_black t : red (black t) = false.
Proof. by destruct t. Qed.

Lemma descend_split fuel st st1 C a c x l r n pp gpp z0 p_r gp_r d :
  at_node st C (T a c x l r) n → dir d (compar k x) → red r && red l = true →
  split_done st1 C a x (black l) (black r) (inorder (plug C (T a c x l r))) →
  maybe_split_for_insert (here C) pp gpp p_r gp_r false st = Val ((), st1) →
  (∀ C', goes_on (S fuel) C' (black (sub d l r))) → (∀ C', goes_on fuel C' (black (sub d l r))) →
  ∃ e st', descend compar (S (S fuel)) k (here C) pp gpp z0 p_r gp_r st = Val (e, st') ∧
    landed e st' (inorder (plug C (T a c x l r))).
Proof.
  intros Ha Hd Hrr Hs E1 Hg1 Hg2. pose proof (an_holds _ _ _ _ Ha) as Hh.
  assert (∃ m, bal (sub d l r) m) as [m Hbu].
  { apply an_bal in Ha. destruct c, n, d; cbn in *; naive_solver. }
  assert (red (sub d l r) = true) as Hru by (apply andb_true_iff in Hrr as []; by destruct d).
  assert (sub d (black l) (black r) = black (sub d l r)) as Hsb by (by destruct d).
  destruct Hs as [(C1 & m1 & _ & Ha1 & <-)|(d' & p & kp & sp & gp & kg & sg & C1 & m1 & Ha1 & D1 & D2 & R1 & R2 & <-)].
  - rewrite (sub_join d (black l)), Hsb in Ha1 |- *.
    rewrite (descend_step (S fuel) st st1 C a c x l r C1 d true _ _ pp gpp z0 p_r gp_r Hh Hd E1 (an_holds _ _ _ _ Ha1)).
    apply an_push in Ha1; [|done]. pose proof (calm_ready) as Hc.
    destruct (Hg1 _ st1 _ (Some (here C)) pp (compar k x) (compar k x) p_r Ha1) as (e & st' & E & Hl); [by eapply calm_ready|].
    exists e, st'. split; [|exact Hl]. rewrite <- E. by destruct (sub d l r).
  - destruct (rotated_inner d d' p kp sp gp kg sg a x (black l) (black r)) as (b & y & s & s' & D & Hs & Hj); [done..|].
    rewrite Hj, Hsb in *. apply an_push in Ha1 as Ha2; [|done]. apply an_push in Ha2 as Ha3; [|done].
    rewrite (descend_step (S fuel) st st1 C a c x l r C1 d false _ _ pp gpp z0 p_r gp_r Hh Hd E1 (an_holds _ _ _ _ Ha1)).
    destruct (Hg2 _ st1 _ (Some (ChildP d a)) (Some (here C)) (compar k y) (compar k y) (compar k x) Ha3)
      as (e & st' & E & Hl); [by eapply calm_ready|]. exists e, st'. split; [|exact Hl]. rewrite <- E.
    assert (∃ l2 r2, join (other d) b true y (black (sub d l r)) s = T b true y l2 r2 ∧ red r2 && red l2 = false) as (l2 & r2 & Hj2 & Hrr2).
    { pose proof (red_black (sub d l r)) as Hb. destruct d; do 2 eexists; (split; [reflexivity|]); by rewrite Hs, Hb. }
    rewrite Hj2 in *.
    change (ChildP d a) with (here (F d a false x s' :: C1)).
    rewrite (descend_step fuel st1 st1 (F d a false x s' :: C1) b true y l2 r2 (F d a false x s' :: C1) (other d) true (black (sub d l r)) s); try done.
    + by destruct (sub d l r).
    + by apply an_holds in Ha2.
    + apply an_holds in Ha2. by eapply no_split.
    + rewrite Hj2. by apply an_holds in Ha2.
Qed.

(** At the child of a node that was not split. *)
Lemma next_ready d C a c x u s pp gpp p_r :
  (c = true → upper C pp p_r) → (c = true → red u = false) → red u && red s = false → u ≠ E → dir d (compar k x) →
  ready (F d a c x s :: C) u (Some (here C)) pp (compar k x) p_r.
Proof.
  intros Hc Hcu Hus Hu Hd. destruct u as [|b c' y l r]; [done|]. split.
  - intros ->. exists d, a, x, s, C. cbn in Hus, Hcu. destruct c; [by specialize (Hcu eq_refl)|done].
  - intros _. done.
Qed.

Lemma descend_spec fuel st C t n pp gpp z0 p_r gp_r :
  at_node st C t n → ready C t pp gpp p_r gp_r → (2 * height t ≤ fuel)%nat →
  ∃ e st', descend compar fuel k (here C) pp gpp z0 p_r gp_r st = Val (e, st') ∧
    landed e st' (inorder (plug C t)).
Proof.
  revert st C t n pp gpp z0 p_r gp_r. induction fuel as [fuel IH] using lt_wf_ind.
  intros st C [|a c x l r] n pp gpp z0 p_r gp_r Ha Hr Hfuel; [done|]. cbn [height] in Hfuel.
  destruct fuel as [|fuel]; [lia|]. pose proof (an_holds _ _ _ _ Ha) as Hh.
  destruct (decide (compar k x = 0)) as [Hz|Hz].
  { exists (Present a), st. split; [by eapply descend_found|]. exists C, (T a c x l r), n. split_and!; [done..|by exists c, x, l, r]. }
  apply dir_sd in Hz. set (d := sd (compar k x)) in *.
  destruct (red r && red l) eqn:Hrr.
  - destruct (split_node st C a c x l r n pp gpp p_r gp_r Ha Hr Hrr) as (st1 & E1 & Hs).
    destruct fuel as [|fuel]; [lia|].
    assert (∀ f, (f < S (S fuel))%nat → (fuel ≤ f)%nat → ∀ C', goes_on f C' (black (sub d l r))) as Hg.
    { intros f Hf1 Hf2 C' st2 n2 pp2 gpp2 z2 p_r2 gp_r2 Ha2 Hr2. eapply IH; try done.
      replace (height (black (sub d l r))) with (height (sub d l r)) by (by destruct (sub d l r)).
      destruct d; cbn; lia. }
    by apply (descend_split fuel st st1 C a c x l r n pp gpp z0 p_r gp_r d); try (apply Hg; lia).
  - destruct Hr as [Hr1 _]. destruct (child_of d l r) as (u & s & Hj).
    rewrite (descend_step fuel st st C a c x l r C d c u s); [|done|done|by eapply no_split|by rewrite <- Hj].
    rewrite Hj in Ha |- *. pose proof (an_push _ _ _ _ _ _ _ _ _ Ha Hz) as Hp. destruct u as [|b c' y l' r'].
    + eexists _, _. split; [done|]. eexists _, E, _. split; [exact Hp|]. split; [done|]. split; [done|].
      by exists d, a, c, x, s, C.
    + edestruct (IH fuel) as (e & st' & E & Hl); [lia|exact Hp| | |exists e, st'; split; [exact E|exact Hl]].
      * apply next_ready; try done.
        -- apply an_bal in Ha. intros ->. destruct d; cbn in Ha; tauto.
        -- specialize (Hj a c x). destruct d; cbn in Hj; simplify_eq; cbn in *; [by rewrite andb_comm|done].
      * destruct d; cbn in Hj; specialize (Hj a c x); simplify_eq; cbn [height] in *; lia.
Qed.
End descent.

(** ** What the operations promise: a sorted list of nodes *)

Section specification.
Context {K : Type} (compar : K → K → Z).
Implicit Types (l : list (addr * K)).

Definition ordered l : Prop := StronglySorted (λ x y, compar x.2 y.2 < 0) l.

(** The node with a key equal to [k]. *)
Fixpoint seek (k : K) l : option addr :=
  match l with
  | [] => None
  | (a, x) :: l' => if compar k x =? 0 then Some a else seek k l'
  end.

(** The node [q] with key [k] in its place. *)
Fixpoint enter (q : addr) (k : K) l : list (addr * K) :=
  match l with
  | [] => [(q, k)]
  | (a, x) :: l' => if compar k x <? 0 then (q, k) :: l else (a, x) :: enter q k l'
  end.

Definition tsearch_spec (k : K) (alloc : option addr) l : option addr * list (addr * K) :=
  match seek k l, alloc with
  | Some a, _ => (Some a, l)
  | None, None => (None, l)
  | None, Some q => (Some q, enter q k l)
  end.

(** The state holds a red-black tree of these nodes. *)
Definition rbtree (st : state) l : Prop :=
  ∃ t n, holds st [] t ∧ bal t n ∧ inorder t = l ∧ ordered l.
End specification.

Section cut.
Context {K : Type} (compar : K → K → Z) (k : K).
Implicit Types (t s : tree (K := K)) (C : ctx (K := K)) (l : list (addr * K)).

(** The nodes before and after the hole of a context. *)
Fixpoint before C : list (addr * K) :=
  match C with
  | [] => []
  | F L _ _ _ _ :: C' => before C'
  | F R a _ x s :: C' => before C' ++ inorder s ++ [(a, x)]
  end.
Fixpoint after C : list (addr * K) :=
  match C with
  | [] => []
  | F L a _ x s :: C' => (a, x) :: inorder s ++ after C'
  | F R _ _ _ _ :: C' => after C'
  end.

Lemma plug_inorder C t : inorder (plug C t) = before C ++ inorder t ++ after C.
Proof.
  revert t. induction C as [|[[] a c x s] C IH]; intros t; cbn; [by rewrite app_nil_r|..]; rewrite IH; cbn;
    rewrite <- ?(assoc (++)); cbn; by rewrite <- ?(assoc (++)).
Qed.

Definition above l : Prop := Forall (λ y, 0 < compar k y.2) l.
Definition below l : Prop := Forall (λ y, compar k y.2 < 0) l.

Context `{!TotalPreorder compar}.

Lemma lt_trans_l x y : compar k x < 0 → compar x y < 0 → compar k y < 0.
Proof.
  intros H1 H2. pose proof (cmp_sym k x). pose proof (cmp_trans x y k). pose proof (cmp_sym y k).
  pose proof (cmp_sym k y). lia.
Qed.
Lemma lt_trans_r x y : 0 <= compar k x → compar y x < 0 → 0 < compar k y.
Proof.
  intros H1 H2. pose proof (cmp_sym k x). pose proof (cmp_sym y x). pose proof (cmp_trans x k y). lia.
Qed.

Lemma fits_cut C t :
  fits compar k C → ordered compar (inorder (plug C t)) → above (before C) ∧ below (after C).
Proof.
  intros Hf. revert t. induction Hf as [|[d a c x s] C Hd Hf IH]; intros t Ho; cbn in *; [by split; constructor|].
  destruct (IH _ Ho) as [I1 I2]. rewrite plug_inorder in Ho.
  apply StronglySorted_app in Ho as (_ & _ & Ho). apply StronglySorted_app in Ho as (_ & Ho & _).
  unfold above, below in *. destruct d; cbn in *; (split; [|]); try done.
  - apply StronglySorted_app in Ho as (_ & _ & Ho). apply StronglySorted_inv in Ho as [_ Ho].
    constructor; [done|]. apply Forall_app. split; [|done].
    eapply Forall_impl; [exact Ho|]. intros y. cbn. by apply lt_trans_l.
  - rewrite !Forall_app. split_and!; [done| |by constructor].
    apply StronglySorted_app in Ho as (Ho & _ & _).
    apply Forall_forall. intros y Hy. eapply lt_trans_r; [apply Z.lt_le_incl, Hd|]. apply (Ho y (a, x)); [done|set_solver].
Qed.

Lemma seek_miss l1 l2 : above l1 → below l2 → seek compar k (l1 ++ l2) = None.
Proof.
  induction 1 as [|[a x] l1 H _ IH]; cbn.
  - induction 1 as [|[a x] l2 H _ IH]; cbn in *; [done|]. by rewrite (proj2 (Z.eqb_neq _ _)) by lia.
  - cbn in H. rewrite (proj2 (Z.eqb_neq _ _)) by lia. done.
Qed.
Lemma seek_hit l1 a x l2 : above l1 → compar k x = 0 → seek compar k (l1 ++ (a, x) :: l2) = Some a.
Proof.
  induction 1 as [|[b y] l1 H _ IH]; cbn; intros Hx; [by rewrite Hx|].
  cbn in H. rewrite (proj2 (Z.eqb_neq _ _)) by lia. auto.
Qed.
Lemma enter_cut q l1 l2 : above l1 → below l2 → enter compar q k (l1 ++ l2) = l1 ++ (q, k) :: l2.
Proof.
  intros H1 H2. induction H1 as [|[a x] l1 H _ IH]; cbn in *.
  - destruct H2 as [|[a x] l2 H _]; cbn in *; [done|]. by rewrite (proj2 (Z.ltb_lt _ _)) by lia.
  - rewrite (proj2 (Z.ltb_ge _ _)) by lia. by rewrite IH.
Qed.
Lemma ordered_cut q l1 l2 : above l1 → below l2 → ordered compar (l1 ++ l2) → ordered compar (l1 ++ (q, k) :: l2).
Proof.
  unfold ordered. rewrite !StronglySorted_app. intros H1 H2 (Ho & S1 & S2). split_and!; [|done|].
  - intros y z Hy [->|Hz]%elem_of_cons; [|by apply Ho]. cbn. apply cmp_sym.
    by apply (Forall_forall (λ y, 0 < compar k y.2) l1).
  - by constructor.
Qed.
End cut.

(** ** [tsearch] and [tfind] *)

Section searching.
Context {K : Type} (compar : K → K → Z) (k : K).
Implicit Types (t s : tree (K := K)) (C : ctx (K := K)) (st : state (K := K)).
#[local] Abbreviation at_node := (at_node compar k).

Lemma addrs_inorder t : addrs t ≡ₚ (inorder t).*1.
Proof.
  induction t as [|a c x l IHl r IHr]; cbn; [done|]. rewrite fmap_app. cbn. rewrite IHl, IHr.
  apply Permutation_middle.
Qed.

Lemma plug_addrs C t : addrs_ctx C ++ addrs t ≡ₚ (inorder (plug C t)).*1.
Proof.
  revert t. induction C as [|[d a c x s] C IH]; intros t; [apply addrs_inorder|]. cbn [plug].
  rewrite <- IH. symmetry. apply addrs_push.
Qed.

Lemma holds_plug st C t : holds st C t → holds st [] (plug C t).
Proof. revert t. induction C as [|[d a c x s] C IH]; intros t H; [done|]. apply IH. by apply holds_push. Qed.

Lemma at_node_rb st C t n L :
  at_node st C t n → inorder (plug C t) = L → ordered compar L → rbtree compar st L.
Proof.
  intros [H1 H2 H3 _] Hi Ho. destruct (bal_plug C t n H2 H3) as [m Hm].
  exists (plug C t), m. split_and!; [by apply holds_plug|done..].
Qed.

(** The new node in a link, and the rotation it may need. *)
Lemma insert_node st d a c x s C pp p_r z q n :
  at_node st (F d a c x s :: C) E n → dir d z → (c = true → upper C pp p_r) →
  q ∉ addrs_ctx (F d a c x s :: C) →
  ∃ h1 v1 st' C1 t1 m,
    SETNODEPTR (here (F d a c x s :: C)) (Some q) st = Val ((), State h1 v1) ∧
    maybe_split_for_insert (here (F d a c x s :: C)) (Some (here C)) pp z p_r true
      (State (<[q:=Node k None None true]> h1) v1) = Val ((), st') ∧
    at_node st' C1 t1 m ∧
    inorder (plug C1 t1) = inorder (plug (F d a c x s :: C) (T q true k E E)).
Proof.
  destruct st as [h v]. intros [Hh Hb Hc Hf] Hd Hu Hq. cbn in Hb. subst n.
  assert (NoDup (addrs_ctx (F d a c x s :: C))) as HN by (apply ho_nodup in Hh; by rewrite app_nil_r in Hh).
  destruct (relink h v _ None (Some q) (ho_ctx _ _ _ Hh) HN) as (h1 & v1 & E1 & Hc1 & _).
  set (h2 := <[q:=Node k None None true]> h1).
  assert (holds (State h2 v1) (F d a c x s :: C) (T q true k E E)) as H2.
  { split; cbn [heap rootv ad].
    - by apply rep_ctx_insert.
    - cbn. split_and!; [apply lookup_insert_eq|done..].
    - change (addrs (T q true k E E)) with [q]. rewrite <- Permutation_cons_append. by constructor. }
  destruct (split_start h2 v1 _ q true k E E (Some (here C)) pp z p_r true H2 eq_refl) as (h3 & E3 & H3).
  exists h1, v1. destruct c.
  - destruct (Hu eq_refl) as (d2 & gp & kg & sg & C2 & -> & -> & D2 & Hg).
    apply Forall_cons in Hf as [_ [_ Hf]%Forall_cons].
    destruct (rotate_node compar k h3 v1 d a x s d2 gp kg sg C2 q k E E 0 z p_r) as (st' & E4 & H4 & Hi); try done.
    exists st', C2. do 2 eexists. split_and!; [exact E1|exact (eq_trans E3 E4)|exact H4|exact Hi].
  - exists (State h3 v1), (F d a false x s :: C), (T q true k E E), 0%nat.
    split_and!; [exact E1| |by split|done]. refine (eq_trans E3 _). by eapply fix_black.
Qed.

Lemma blacken_root st t n :
  holds st [] t → bal t n → ∃ st' m, blacken (rootv st) st = Val ((), st') ∧ at_node st' [] (black t) m ∧ rootv st' = ad t.
Proof.
  destruct st as [h v]. intros [H1 H2 H3] Hb. cbn in H1. subst v. destruct (bal_black t n Hb) as [m Hm].
  destruct (blacken_val h (ad t) t H2 H3) as (h' & E & Hr & _). exists (State h' (ad t)), m. split_and!; [exact E| |done].
  split; [split|done|by destruct t|constructor]; cbn.
  - by rewrite ad_black.
  - done.
  - by rewrite addrs_black.
Qed.


(** How the descent starts, and what it finds. *)
Lemma tsearch_descends fuel st L :
  rbtree compar st L → (0 < fuel)%nat → (4 * Nat.log2 (S (length L)) ≤ fuel)%nat →
  (L = [] ∧ rootv st = None) ∨
  ∃ e st2, landed compar k e st2 L ∧
    (o ← DEREFNODEPTR RootP; _ ← blacken o; descend compar fuel k RootP None None 0 0 0) st = Val (e, st2).
Proof.
  intros (t & n & Hh & Hb & <- & Ho) Hf Hfuel. destruct (blacken_root st t n Hh Hb) as (st1 & m & E1 & Ha & Hr).
  assert (rootv st = ad t) as Hv by apply Hh.
  destruct t as [|a c x l r]; [by left|]. right.
  destruct (descend_spec compar k fuel st1 [] (black (T a c x l r)) m None None 0 0 0) as (e & st2 & E2 & Hl).
  - done.
  - done.
  - pose proof (bal_log _ _ (an_bal _ _ _ _ _ _ Ha) eq_refl) as Hlog. rewrite inorder_black in Hlog. lia.
  - exists e, st2. split; [exact Hl|]. rewrite (bind_step _ _ st st (rootv st)) by done.
    by rewrite (bind_step _ _ _ _ _ E1).
Qed.

Context `{!TotalPreorder compar}.

Lemma tsearch_empty fuel alloc st :
  rbtree compar st [] → rootv st = None → (0 < fuel)%nat →
  ∃ st', tsearch compar fuel k alloc st = Val ((tsearch_spec compar k alloc []).1, st') ∧
    rbtree compar st' (tsearch_spec compar k alloc []).2.
Proof.
  destruct st as [h v]. cbn [rootv]. intros Hrb -> Hf. destruct fuel as [|fuel]; [lia|]. cbn. destruct alloc as [q|]; [|by exists (State h None)].
  cbn. eexists. split; [done|]. exists (T q true k E E), 0%nat. split_and!; [split|done..|by repeat constructor]; cbn.
  - done.
  - split_and!; [apply lookup_insert_eq|done..].
  - by repeat constructor; set_solver.
Qed.

Lemma seek_here C a c x l r :
  fits compar k C → ordered compar (inorder (plug C (T a c x l r))) → compar k x = 0 →
  seek compar k (inorder (plug C (T a c x l r))) = Some a.
Proof.
  intros Hf Ho Hx. destruct (fits_cut compar k C _ Hf Ho) as [H1 _].
  rewrite plug_inorder in Ho |- *. cbn [inorder] in Ho |- *.
  rewrite <- (assoc (++)), (assoc (++)) in Ho |- *. cbn [app] in Ho |- *. apply seek_hit; [|done].
  apply Forall_app. split; [done|]. apply StronglySorted_app in Ho as (Ho & _). apply Forall_forall. intros y Hy.
  apply (lt_trans_r compar k x); [lia|]. apply (Ho y (a, x)); set_solver.
Qed.

Lemma landed_present st L a :
  landed compar k (Present a) st L → ordered compar L → seek compar k L = Some a ∧ rbtree compar st L.
Proof.
  intros (C & t & n & Ha & <- & (c & x & l & r & -> & Hx)) Ho. split; [|by eapply at_node_rb].
  apply seek_here; [apply Ha|done..].
Qed.

Lemma landed_vacant st L alloc nextp rootp pp z p_r :
  landed compar k (Vacant nextp rootp pp z p_r) st L → ordered compar L →
  (∀ q, alloc = Some q → q ∉ L.*1) →
  seek compar k L = None ∧ rbtree compar st L ∧
  ∀ q, alloc = Some q → nextp ≠ rootp ∧ ∃ h1 v1 st',
    SETNODEPTR nextp (Some q) st = Val ((), State h1 v1) ∧
    maybe_split_for_insert nextp (Some rootp) pp z p_r true
      (State (<[q:=Node k None None true]> h1) v1) = Val ((), st') ∧
    rbtree compar st' (enter compar q k L).
Proof.
  intros (C & t & n & Ha & <- & -> & (d & a & c & x & s & C' & -> & -> & -> & Hd & Hu)) Ho Hq.
  destruct (fits_cut compar k _ _ (an_fits _ _ _ _ _ _ Ha) Ho) as [H1 H2]. 
  split_and!; [rewrite plug_inorder; by apply seek_miss|by eapply at_node_rb|].
  intros q Eq. specialize (Hq q Eq). rewrite <- plug_addrs, app_nil_r in Hq.
  split.
  - pose proof (ho_nodup _ _ _ (an_holds _ _ _ _ _ _ Ha)) as HN. destruct C' as [|[d' a' c' x' s'] C']; [done|].
    intros [=-> ->]. cbn in HN. apply NoDup_cons in HN as [HN _]. apply HN.
    rewrite !elem_of_app, elem_of_cons. tauto.
  - destruct (insert_node st d a c x s C' pp p_r z q n Ha Hd Hu Hq) as (h1 & v1 & st' & C1 & t1 & m & E1 & E2 & Ha1 & Hi).
    exists h1, v1, st'. split_and!; [done..|]. rewrite (plug_inorder _ (T q true k E E)) in Hi.
    rewrite plug_inorder in Ho |- *.
    change (inorder E ++ ?x) with x. change (inorder E ++ ?x) with x in Ho.
    rewrite enter_cut by done. eapply at_node_rb; [exact Ha1| |].
    + exact Hi.
    + by apply ordered_cut.
Qed.

(** C39. [tsearch] keeps the tree a red-black tree (sorted, no two red nodes in
    a row, the same number of black nodes on every path) and implements a
    sorted list of nodes: a key that is present gives its node and leaves the
    list; an absent one is entered in its place in a new node, or gives NULL
    when [malloc] fails. For n nodes, 4 * log2 (n + 1) rounds of its loop, and
    at least one, are enough, and it follows no null or stale pointer although
    the rotations leave its pointers to the parents stale. *)
Theorem tsearch_refines fuel alloc st L :
  rbtree compar st L → (∀ q, alloc = Some q → q ∉ L.*1) →
  (0 < fuel)%nat → (4 * Nat.log2 (S (length L)) ≤ fuel)%nat →
  ∃ st', tsearch compar fuel k alloc st = Val ((tsearch_spec compar k alloc L).1, st') ∧
    rbtree compar st' (tsearch_spec compar k alloc L).2.
Proof.
  intros Hrb Hq Hf Hfuel. pose proof Hrb as (_ & _ & _ & _ & _ & Ho).
  destruct (tsearch_descends fuel st L Hrb Hf Hfuel) as [[-> Hv]|(e & st2 & Hl & E)].
  - by apply tsearch_empty.
  - assert (∀ B (g : stop → M B), (o ← DEREFNODEPTR RootP; _ ← blacken o;
      e ← descend compar fuel k RootP None None 0 0 0; g e) st = g e st2) as Hrun.
    { intros B g. rewrite <- (bind_step _ g _ _ _ E). unfold mbind, M_bind. cbn.
      by destruct (blacken (rootv st) st). }
    unfold tsearch. rewrite Hrun. destruct e as [a|nextp rootp pp z p_r].
    + destruct (landed_present _ _ _ Hl Ho) as [Hs Hb]. unfold tsearch_spec. rewrite Hs. by exists st2.
    + destruct (landed_vacant _ _ alloc _ _ _ _ _ Hl Ho Hq) as (Hs & Hb & Hi). unfold tsearch_spec. rewrite Hs.
      destruct alloc as [q|]; [|by exists st2]. destruct (Hi q eq_refl) as (Hne & h1 & v1 & st' & E1 & E2 & Hb').
      exists st'. split; [|done]. rewrite (bind_step _ _ _ _ _ E1).
      rewrite (bind_step _ _ _ (State (<[q:=Node k None None true]> h1) v1) ()) by done.
      rewrite bool_decide_false by done. by rewrite (bind_step _ _ _ _ _ E2).
Qed.

Lemma tfind_spec t C st fuel :
  holds st C t → fits compar k C → ordered compar (inorder (plug C t)) → (height t < fuel)%nat →
  tfind compar fuel k (here C) st = Val (seek compar k (inorder (plug C t)), st).
Proof.
  destruct st as [h v]. revert C fuel. induction t as [|a c x l IHl r IHr]; intros C fuel [H1 H2 H3] Hf Ho Hfuel;
    (destruct fuel as [|fuel]; [lia|]); cbn [tfind]; rewrite (bind_step _ _ _ _ _ (DEREF_here _ _ _ _ H1)); cbn [ad].
  - destruct (fits_cut compar k _ _ Hf Ho) as [Ha Hb]. rewrite plug_inorder. by rewrite seek_miss.
  - rewrite (bind_step _ _ _ _ _ (node_val _ _ _ _ (proj1 H2))). cbn [key].
    destruct (Z.eqb_spec (compar k x) 0) as [Hz|Hz]; [by rewrite seek_here|].
    cbn [height] in Hfuel. apply dir_sd in Hz. fold (sd (compar k x)). destruct (sd (compar k x)) eqn:Es.
    + apply (IHl (F L a c x r :: C)); [by apply (holds_push _ L)|by constructor|done|lia].
    + apply (IHr (F R a c x l :: C)); [by apply (holds_push _ R)|by constructor|done|lia].
Qed.

(** [tfind] gives the node of the sorted list whose key equals the one
    looked for, or NULL when there is none, and changes nothing; it makes at
    most twice the logarithm of the number of nodes plus two comparisons. *)
Theorem tfind_refines fuel st L :
  rbtree compar st L → (2 * Nat.log2 (S (length L)) + 1 < fuel)%nat →
  tfind compar fuel k RootP st = Val (seek compar k L, st).
Proof.
  intros (t & n & Hh & Hb & <- & Ho) Hfuel. apply (tfind_spec t []); [done|constructor|done|].
  pose proof (rb_height t n Hb). lia.
Qed.
End searching.

(** ** Walking and destroying *)

Section walking.
Context {K : Type}.
Implicit Types (t : tree (K := K)) (st : state (K := K)).

(** The calls for a tree: a leaf is visited once, another node before,
    between and after its subtrees. *)
Fixpoint visits t (level : Z) : list (addr * VISIT * Z) :=
  match t with
  | E => []
  | T a _ _ l r =>
      match ad l, ad r with
      | None, None => [(a, leaf, level)]
      | _, _ =>
          [(a, preorder, level)] ++ visits l (level + 1) ++ [(a, postorder, level)] ++ visits r (level + 1)
          ++ [(a, endorder, level)]
      end
  end.

(** The visits at which a node is reached in key order. *)
Definition in_order (v : VISIT) : bool := match v with postorder | leaf => true | _ => false end.

Lemma visits_in_order t level :
  (filter (λ c, in_order c.1.2 = true) (visits t level)).*1.*1 = (inorder t).*1.
Proof.
  revert level. induction t as [|a c x l IHl r IHr]; intros level; [done|].
  cbn [visits inorder]. rewrite fmap_app, <- (IHl (level + 1)). cbn. rewrite <- (IHr (level + 1)).
  destruct (ad l) eqn:El; [|destruct (ad r) eqn:Er]; [..|by destruct l, r];
    rewrite filter_cons_False by done; rewrite filter_app, filter_cons_True, filter_app by done; rewrite !fmap_app; cbn; by rewrite fmap_app, fmap_app, app_nil_r.
Qed.

Lemma trecurse_spec t st fuel level a :
  rep (heap st) t → ad t = Some a → (height t ≤ fuel)%nat → trecurse fuel a level st = Val (visits t level, st).
Proof.
  destruct st as [h v]. cbn [heap]. revert fuel level a.
  induction t as [|a c x l IHl r IHr]; intros fuel level b; [done|]. intros (H1 & H2 & H3) [=<-] Hf. cbn [height] in Hf.
  destruct fuel as [|fuel]; [lia|]. cbn [trecurse].
  rewrite (bind_step _ _ _ _ _ (CHILD_val _ _ L _ _ H1)), (bind_step _ _ _ _ _ (CHILD_val _ _ R _ _ H1)).
  cbn [child left_node right_node].
  assert (∀ t' lev, rep h t' → (∀ fuel lev a, rep h t' → ad t' = Some a → (height t' ≤ fuel)%nat →
    trecurse fuel a lev (State h v) = Val (visits t' lev, State h v)) → (height t' ≤ fuel)%nat →
    match ad t' with Some a => trecurse fuel a lev | None => mret [] end (State h v) = Val (visits t' lev, State h v)) as Hsub.
  { intros t' lev Ht IH Hle. destruct (ad t') eqn:E; [by apply IH|by destruct t']. }
  cbn [visits].
  pose proof (Hsub l (level + 1) H2 IHl ltac:(lia)) as El. pose proof (Hsub r (level + 1) H3 IHr ltac:(lia)) as Er.
  destruct (ad l); [|destruct (ad r); [|done]]; by rewrite (bind_step _ _ _ _ _ El), (bind_step _ _ _ _ _ Er).
Qed.

Lemma trecurse_r_calls fuel a level st calls st' :
  trecurse fuel a level st = Val (calls, st') → trecurse_r fuel a st = Val (calls.*1, st').
Proof.
  revert a level st calls st'. induction fuel as [|fuel IH]; [done|]. intros a level st calls st'. cbn [trecurse trecurse_r].
  unfold mbind, M_bind. cbn. destruct (CHILD L a st) as [[l s1]| |]; try done. cbn.
  destruct (CHILD R a s1) as [[r s2]| |]; try done. cbn.
  destruct l as [l|], r as [r|]; cbn.
  - destruct (trecurse fuel l (level + 1) s2) as [[ls s3]| |] eqn:E1; try done. rewrite (IH _ _ _ _ _ E1). cbn.
    destruct (trecurse fuel r (level + 1) s3) as [[rs s4]| |] eqn:E2; try done. rewrite (IH _ _ _ _ _ E2). cbn.
    intros [= <- <-]. cbn. by rewrite fmap_app; cbn; rewrite fmap_app.
  - destruct (trecurse fuel l (level + 1) s2) as [[ls s3]| |] eqn:E1; try done. rewrite (IH _ _ _ _ _ E1). cbn.
    intros [= <- <-]. cbn. by rewrite fmap_app.
  - destruct (trecurse fuel r (level + 1) s2) as [[rs s4]| |] eqn:E2; try done. rewrite (IH _ _ _ _ _ E2). cbn.
    intros [= <- <-]. cbn. by rewrite fmap_app.
  - by intros [= <- <-].
Qed.

(** What destroying a tree does to the heap. *)
Definition destroyed t (h h' : gmap addr (node (K := K))) (ks : list K) : Prop :=
  ks ≡ₚ (inorder t).*2 ∧ (∀ b, b ∈ addrs t → h' !! b = None) ∧ (∀ b, b ∉ addrs t → h' !! b = h !! b).

Definition destroys t : Prop := ∀ h v fuel,
  rep h t → NoDup (addrs t) → (height t ≤ fuel)%nat →
  ∃ h' ks, match ad t with Some a => tdestroy_recurse fuel a | None => mret [] end (State h v) = Val (ks, State h' v) ∧
    destroyed t h h' ks.

Lemma tdestroy_spec t : destroys t.
Proof.
  induction t as [|a c x l IHl r IHr]; intros h v fuel.
  { intros _ _ _. exists h, []. split; [done|]. split_and!; [done|set_solver|done]. }
  intros (H1 & H2 & H3) Hn Hf. cbn [height] in Hf. destruct fuel as [|fuel]; [lia|]. cbn [ad tdestroy_recurse].
  cbn in Hn. apply NoDup_cons in Hn as [Ha Hn]. apply NoDup_app in Hn as (Hl & Hd & Hr).
  rewrite not_elem_of_app in Ha. destruct Ha as [Ha1 Ha2].
  rewrite (bind_step _ _ _ _ _ (CHILD_val _ _ L _ _ H1)). cbn [child left_node].
  destruct (IHl h v fuel H2 Hl ltac:(lia)) as (h1 & ks1 & E1 & P1 & N1 & A1). rewrite (bind_step _ _ _ _ _ E1).
  assert (h1 !! a = Some (Node x (ad l) (ad r) c)) as H1' by (by rewrite A1).
  rewrite (bind_step _ _ _ _ _ (CHILD_val _ _ R _ _ H1')). cbn [child right_node].
  assert (rep h1 r) as H3' by (apply (rep_agree h); [done|]; intros b Hb; apply A1; naive_solver).
  destruct (IHr h1 v fuel H3' Hr ltac:(lia)) as (h2 & ks2 & E2 & P2 & N2 & A2). rewrite (bind_step _ _ _ _ _ E2).
  assert (h2 !! a = Some (Node x (ad l) (ad r) c)) as H1'' by (by rewrite A2).
  rewrite (bind_step _ _ _ _ _ (node_val _ _ _ _ H1'')).
  exists (delete a h2), (ks1 ++ ks2 ++ [x]). split; [|split_and!].
  - rewrite (bind_step _ _ _ (State (delete a h2) v) ()); [done|]. unfold free. cbn. by rewrite H1''.
  - cbn. rewrite fmap_app, P1, P2. cbn. by rewrite <- Permutation_cons_append.
  - cbn. intros b [->|[Hb|Hb]%elem_of_app]%elem_of_cons; [apply lookup_delete_eq|..];
      (rewrite lookup_delete_ne by set_solver); [rewrite A2; [auto|naive_solver]|auto].
  - cbn. intros b [Hb [Hb1 Hb2]%not_elem_of_app]%not_elem_of_cons. rewrite lookup_delete_ne by done.
    by rewrite A2, A1.
Qed.

Variable compar : K → K → Z.

(** [twalk] changes nothing, and its calls with [postorder] or [leaf] are
    one for every node, in the order of the keys; [twalk_r] makes the same
    calls. *)
Theorem twalk_in_order st L fuel :
  rbtree compar st L → (2 * Nat.log2 (S (length L)) + 1 ≤ fuel)%nat →
  ∃ calls, twalk fuel (rootv st) st = Val (calls, st) ∧ twalk_r fuel (rootv st) st = Val (calls.*1, st) ∧
    (filter (λ c, in_order c.1.2 = true) calls).*1.*1 = L.*1.
Proof.
  intros (t & n & Hh & Hb & <- & _) Hf. exists (visits t 0). rewrite visits_in_order.
  destruct Hh as [Hv Hr _]. cbn in Hv. rewrite Hv. pose proof (rb_height t n Hb). unfold twalk, twalk_r.
  destruct (ad t) as [a|] eqn:E; [|by destruct t].
  assert (trecurse fuel a 0 st = Val (visits t 0, st)) as Ew by (apply trecurse_spec; [done..|lia]).
  split_and!; [done|by eapply trecurse_r_calls|done].
Qed.

(** [tdestroy] hands each key of the tree to [freefct] once, frees each
    node once and after its last use, and leaves the rest of the heap as it
    was. *)
Theorem tdestroy_frees st L fuel :
  rbtree compar st L → (2 * Nat.log2 (S (length L)) + 1 ≤ fuel)%nat →
  ∃ st' ks, tdestroy fuel (rootv st) st = Val (ks, st') ∧ ks ≡ₚ L.*2 ∧
    (∀ a, a ∈ L.*1 → heap st' !! a = None) ∧ (∀ a, a ∉ L.*1 → heap st' !! a = heap st !! a).
Proof.
  destruct st as [h v]. intros (t & n & [Hv Hr Hn] & Hb & <- & _) Hf. cbn in Hv, Hr, Hn |- *. subst v.
  pose proof (rb_height t n Hb) as Hh. destruct (tdestroy_spec t h (ad t) fuel Hr Hn ltac:(lia)) as (h' & ks & E & P & N & A).
  exists (State h' (ad t)), ks. split_and!; [exact E|done|..]; intros a; rewrite <- addrs_inorder; auto.
Qed.
End walking.

(** ** A concrete tree *)

(** Seven insertions, in an order that takes rotations of both kinds. *)
Definition icmp (x y : Z) : Z := x - y.

#[export] Instance icmp_order : TotalPreorder icmp.
Proof. unfold icmp. split; intros; lia. Qed.

Fixpoint insert_all (ks : list (addr * Z)) (st : state) : outcome (state (K := Z)) :=
  match ks with
  | [] => Val st
  | (q, k) :: ks' => r ← tsearch icmp 64 k (Some q) st; insert_all ks' r.2
  end.

Definition sample : state (K := Z) :=
  match insert_all [(1%nat, 50); (2%nat, 20); (3%nat, 30); (4%nat, 70); (5%nat, 60); (6%nat, 10); (7%nat, 40)]
    (State ∅ None) with Val st => st | _ => State ∅ None end.

Definition sample_nodes : list (addr * Z) :=
  [(6%nat, 10); (2%nat, 20); (3%nat, 30); (7%nat, 40); (1%nat, 50); (5%nat, 60); (4%nat, 70)].

Definition sample_tree : tree (K := Z) :=
  T 3%nat false 30 (T 2%nat false 20 (T 6%nat true 10 E E) E)
    (T 5%nat true 60 (T 1%nat false 50 (T 7%nat true 40 E E) E) (T 4%nat false 70 E E)).

Lemma sample_rb : rbtree icmp sample sample_nodes.
Proof.
  exists sample_tree, 2%nat. split_and!; [split|..].
  - vm_compute. reflexivity.
  - cbn. split_and!; (done || vm_compute; reflexivity).
  - cbn. repeat constructor; set_solver.
  - cbn. tauto.
  - done.
  - repeat constructor.
Qed.

(** Entering 45 into the tree above splits its right subtree. *)
Lemma tsearch_refines_witness :
  ∃ st', tsearch icmp 64 45 (Some 8%nat) sample = Val (Some 8%nat, st') ∧
    rbtree icmp st' [(6%nat, 10); (2%nat, 20); (3%nat, 30); (7%nat, 40); (8%nat, 45); (1%nat, 50); (5%nat, 60); (4%nat, 70)].
Proof.
  apply (tsearch_refines icmp 45 64 (Some 8%nat) sample sample_nodes sample_rb);
    [intros q [= <-]; cbn; set_solver|lia|vm_compute; lia].
Defined.

Lemma tfind_refines_witness : tfind icmp 64 40 RootP sample = Val (Some 7%nat, sample).
Proof. apply (tfind_refines icmp 40 64 sample sample_nodes sample_rb). vm_compute. lia. Defined.

Lemma twalk_in_order_witness :
  ∃ calls, twalk 8 (rootv sample) sample = Val (calls, sample) ∧ twalk_r 8 (rootv sample) sample = Val (calls.*1, sample) ∧
    (filter (λ c, in_order c.1.2 = true) calls).*1.*1 = [6; 2; 3; 7; 1; 5; 4]%nat.
Proof. apply (twalk_in_order icmp sample sample_nodes 8 sample_rb). vm_compute. lia. Defined.

Lemma tdestroy_frees_witness :
  ∃ st' ks, tdestroy 8 (rootv sample) sample = Val (ks, st') ∧ ks ≡ₚ [10; 20; 30; 40; 50; 60; 70] ∧
    (∀ a, a ∈ [6; 2; 3; 7; 1; 5; 4]%nat → heap st' !! a = None) ∧
    (∀ a, a ∉ [6; 2; 3; 7; 1; 5; 4]%nat → heap st' !! a = heap sample !! a).
Proof. apply (tdestroy_frees icmp sample sample_nodes 8 sample_rb). vm_compute. lia. Defined.

(** ** The colour in the low bit of the left pointer

    The macros under [USE_MALLOC_LOW_BIT], on nodes whose pointers are
    words.  [place] is where [malloc] put a node: even, and not 0. *)

Section low_bit.
Context {K : Type}.
Variable place : addr → Z.
Hypothesis place_even : ∀ a, Z.land (place a) 1 = 0.

Record wnode := WNode { wkey : K; left_word : Z; right_word : Z }.

Definition ptr (o : option addr) : Z := match o with None => 0 | Some a => place a end.

Definition W_RED (n : wnode) : Z := Z.land (left_word n) 1.
Definition W_SETRED (n : wnode) : wnode := WNode (wkey n) (Z.lor (left_word n) 1) (right_word n).
Definition W_SETBLACK (n : wnode) : wnode := WNode (wkey n) (Z.land (left_word n) (Z.lnot 1)) (right_word n).
Definition W_SETNODEPTR (w p : Z) : Z := Z.lor (Z.land w 1) p.
Definition W_DEREFNODEPTR (w : Z) : Z := Z.land w (Z.lnot 1).
Definition W_LEFT (n : wnode) : Z := Z.land (left_word n) (Z.lnot 1).
Definition W_SETLEFT (n : wnode) (l : Z) : wnode := WNode (wkey n) (Z.lor (Z.land (left_word n) 1) l) (right_word n).
Definition W_RIGHT (n : wnode) : Z := right_word n.
Definition W_SETRIGHT (n : wnode) (r : Z) : wnode := WNode (wkey n) (left_word n) r.

(** A node with its colour as a field, in this form. *)
Definition pack (n : node (K := K)) : wnode :=
  WNode (key n) (Z.lor (ptr (left_node n)) (Z.b2z (is_red n))) (ptr (right_node n)).

Lemma ptr_even o : Z.land (ptr o) 1 = 0.
Proof. destruct o; [apply place_even|done]. Qed.

Lemma ptr_clear o : Z.land (ptr o) (Z.lnot 1) = ptr o.
Proof.
  rewrite <- Z.ldiff_land. apply Z.bits_inj'. intros i Hi. rewrite Z.ldiff_spec.
  pose proof (f_equal (λ z, Z.testbit z i) (ptr_even o)) as H. cbn in H. rewrite Z.land_spec, Z.bits_0 in H.
  destruct (Z.testbit (ptr o) i), (Z.testbit 1 i); done.
Qed.

Lemma low_bit o c : Z.land (Z.lor (ptr o) (Z.b2z c)) 1 = Z.b2z c.
Proof. rewrite Z.land_lor_distr_l, ptr_even. by destruct c. Qed.

Lemma high_bits o c : Z.land (Z.lor (ptr o) (Z.b2z c)) (Z.lnot 1) = ptr o.
Proof. rewrite Z.land_lor_distr_l, ptr_clear. destruct c; cbn; apply Z.lor_0_r. Qed.

(** With nodes at even addresses, the macros that keep the colour in the
    low bit of the left pointer read and write the same colours and children as
    those on a node with a field for the colour. *)
Theorem low_bit_macros n o :
  W_RED (pack n) = Z.b2z (is_red n) ∧
  W_SETRED (pack n) = pack (Node (key n) (left_node n) (right_node n) true) ∧
  W_SETBLACK (pack n) = pack (Node (key n) (left_node n) (right_node n) false) ∧
  W_LEFT (pack n) = ptr (child L n) ∧ W_RIGHT (pack n) = ptr (child R n) ∧
  W_SETLEFT (pack n) (ptr o) = pack (with_child L n o) ∧
  W_SETRIGHT (pack n) (ptr o) = pack (with_child R n o) ∧
  (∀ d, let w := match d with L => left_word | R => right_word end in
    W_DEREFNODEPTR (w (pack n)) = ptr (child d n) ∧
    W_SETNODEPTR (w (pack n)) (ptr o) = w (pack (with_child d n o))).
Proof.
  destruct n as [x l r c]. unfold W_RED, W_SETRED, W_SETBLACK, W_LEFT, W_RIGHT, W_SETLEFT, W_SETRIGHT,
    W_DEREFNODEPTR, W_SETNODEPTR, pack. cbn [key left_node right_node is_red child with_child wkey left_word right_word].
  rewrite low_bit, high_bits. split_and!; try done.
  - f_equal. rewrite <- Z.lor_assoc. by destruct c.
  - by rewrite Z.lor_0_r.
  - f_equal. apply Z.lor_comm.
  - intros []; cbn [left_word right_word key left_node right_node is_red].
    + rewrite low_bit, high_bits. split; [done|apply Z.lor_comm].
    + by rewrite ptr_clear, ptr_even.
Qed.
End low_bit.

(** Nodes at multiples of 16. *)
Lemma low_bit_macros_witness :
  let place a := 16 * (Z.of_nat a + 1) in
  W_SETLEFT (pack place (Node 5 None (Some 2%nat) true)) (ptr place (Some 1%nat))
  = pack place (Node 5 (Some 1%nat) (Some 2%nat) true).
Proof.
  cbv zeta. eapply (low_bit_macros (λ a, 16 * (Z.of_nat a + 1)) _ (Node 5 None (Some 2%nat) true) (Some 1%nat)).
  Unshelve. intros a. change 1 with (Z.ones 1) at 2. rewrite Z.land_ones by lia.
  replace (16 * (Z.of_nat a + 1)) with (8 * (Z.of_nat a + 1) * 2 ^ 1) by lia. by apply Z_mod_mult.
Defined.

End Tsearch.
