(* ===== verification/Tdelete.v ===== *)
(** * Deletion from search trees: [tdelete] of [misc/tsearch.c]

    The links to the ancestors are pushed on [nodestack], an array that
    grows by twenty entries when the descent fills it; the push made while
    rebalancing does not check, and is a fault when the array is full.  The
    two symmetric halves of the rebalancing loop are one definition with the
    side of the short subtree as an argument.  The theorem is that [tdelete]
    removes the key and keeps the tree a red-black tree. *)

From stdpp Require Import gmap sorting.
From S2P Require Import Prelude Qsort Tsearch.
Import Qsort Tsearch.
Local Open Scope Z_scope.

Module Tdelete.

Section code.
Context {K : Type}.
Variable compar : K → K → Z.

(** [nodestack], its top first, and [stacksize]. *)
Record nodestack := Stack { links_of : list nodep; stacksize : nat }.

(** [if (sp == stacksize) { ... }  nodestack[sp++] = x;] *)
Definition push (x : nodep) (s : nodestack) : nodestack :=
  Stack (x :: links_of s)
    (if (length (links_of s) =? stacksize s)%nat then (stacksize s + 20)%nat else stacksize s).

(** [nodestack[sp++] = x;] alone. *)
Definition push_unchecked (x : nodep) (s : nodestack) : M (K := K) nodestack :=
  if (length (links_of s) <? stacksize s)%nat then mret (Stack (x :: links_of s) (stacksize s)) else fault.

(** The loop that looks for the key: [rootp], the stack and [p]. *)
Fixpoint tdelete_find (fuel : nat) (k : K) (rootp : nodep) (root p : addr) (s : nodestack)
    : M (option (nodep * nodestack * addr)) :=
  match fuel with
  | O => λ _, NoFuel
  | S fuel' =>
      n ← get root;
      let cmp := compar k (key n) in
      if cmp =? 0 then mret (Some (rootp, s, p))
      else
        let s := push rootp s in
        o ← DEREFNODEPTR rootp;
        p ← nonnull o;
        let d := if cmp <? 0 then L else R in
        o ← CHILD d p;
        match o with
        | None => mret None
        | Some root => tdelete_find fuel' k (ChildP d p) root p s
        end
  end.

(** The loop that looks for the successor: [up] and the stack. *)
Fixpoint tdelete_succ (fuel : nat) (parentp up : nodep) (s : nodestack) : M (K := K) (nodep * nodestack) :=
  match fuel with
  | O => λ _, NoFuel
  | S fuel' =>
      let s := push parentp s in
      o ← DEREFNODEPTR up;
      upn ← nonnull o;
      l ← CHILD L upn;
      match l with
      | None => mret (up, s)
      | Some _ => tdelete_succ fuel' up (ChildP L upn) s
      end
  end.

(** [CHILD == NULL || !RED (CHILD)]. *)
Definition black_child (d : side) (a : addr) : M (K := K) bool :=
  c ← CHILD d a; r ← red_child c; mret (negb r).

Definition SETCOLOUR (c : bool) (a : addr) : M (K := K) () := if c then SETRED a else SETBLACK a.

(** The red brother: it becomes the top node, [P] red below it. *)
Definition red_brother (d : side) (pp : nodep) (p q : addr) (s : nodestack)
    : M (K := K) (nodep * addr * nodestack) :=
  _ ← SETBLACK q;
  _ ← SETRED p;
  c ← CHILD d q;
  _ ← SETCHILD (other d) p c;
  _ ← SETCHILD d q (Some p);
  _ ← SETNODEPTR pp (Some q);
  s ← push_unchecked (ChildP d q) s;
  o ← CHILD (other d) p;
  q' ← nonnull o;
  mret (ChildP d q, q', s).

(** One of the black brother's children is red. *)
Definition repair (d : side) (pp : nodep) (p q : addr) : M (K := K) () :=
  b ← black_child (other d) q;
  if b : bool then
    o ← CHILD d q;
    q2 ← nonnull o;
    c ← RED p;
    _ ← SETCOLOUR c q2;
    o ← CHILD d q2;
    _ ← SETCHILD (other d) p o;
    o ← CHILD (other d) q2;
    _ ← SETCHILD d q o;
    _ ← SETCHILD (other d) q2 (Some q);
    _ ← SETCHILD d q2 (Some p);
    _ ← SETNODEPTR pp (Some q2);
    SETBLACK p
  else
    c ← RED p;
    _ ← SETCOLOUR c q;
    _ ← SETBLACK p;
    o ← CHILD (other d) q;
    far ← nonnull o;
    _ ← SETBLACK far;
    o ← CHILD d q;
    _ ← SETCHILD (other d) p o;
    _ ← SETCHILD d q (Some p);
    SETNODEPTR pp (Some q).

(** The black brother: [r] and the stack for the next iteration, [--sp]
    included. *)
Definition black_brother (d : side) (pp : nodep) (p q : addr) (s : nodestack)
    : M (K := K) (option addr * nodestack) :=
  b1 ← black_child d q;
  b2 ← (if b1 : bool then black_child (other d) q else mret false);
  if b2 : bool then
    _ ← SETRED q;
    mret (Some p, Stack (tail (links_of s)) (stacksize s))
  else
    _ ← repair d pp p q;
    mret (None, Stack [] (stacksize s)).

(** The loop over the parents of [r], a subtree that lost a black edge. *)
Fixpoint rebalance (fuel : nat) (r : option addr) (s : nodestack) : M (K := K) (option addr) :=
  match fuel with
  | O => λ _, NoFuel
  | S fuel' =>
      match links_of s with
      | [] => mret r
      | pp :: _ =>
          rr ← red_child r;
          if rr : bool then mret r
          else
            o ← DEREFNODEPTR pp;
            p ← nonnull o;
            lp ← CHILD L p;
            let d := if bool_decide (r = lp) then L else R in
            o ← CHILD (other d) p;
            q ← nonnull o;
            qr ← RED q;
            x ← (if qr : bool then red_brother d pp p q s else mret (pp, q, s));
            let '(pp, q, s) := x in
            y ← black_brother d pp p q s;
            rebalance fuel' y.1 y.2
      end
  end.

(** The node to unchain, and the stack of its parents. *)
Definition unchain_which (fuel : nat) (rootp : nodep) (root : addr) (s : nodestack)
    : M (K := K) (addr * nodestack) :=
  r ← CHILD R root;
  q ← CHILD L root;
  match q, r with
  | Some _, Some _ =>
      x ← tdelete_succ fuel rootp (ChildP R root) s;
      o ← DEREFNODEPTR x.1;
      u ← nonnull o;
      mret (u, x.2)
  | _, _ => mret (root, s)
  end.

(** [R], the child of the node to unchain, goes to its parent. *)
Definition unchain (rootp : nodep) (unchained : addr) (r : option addr) (s : nodestack) : M (K := K) () :=
  match links_of s with
  | [] => SETNODEPTR rootp r
  | top :: _ =>
      o ← DEREFNODEPTR top;
      q ← nonnull o;
      o ← CHILD R q;
      if bool_decide (Some unchained = o) then SETCHILD R q r else SETCHILD L q r
  end.

(** [R] is chained into the parent of [UNCHAINED], whose key moves to
    [ROOT]; a lost black edge is made up for, and the node is freed. *)
Definition remove (fuel : nat) (rootp : nodep) (root unchained : addr) (s : nodestack) : M (K := K) () :=
  l ← CHILD L unchained;
  r ← (match l with Some _ => mret l | None => CHILD R unchained end);
  _ ← unchain rootp unchained r s;
  _ ← (if bool_decide (unchained = root) then mret ()
       else
         u ← get unchained;
         n ← get root;
         put root (Node (key u) (left_node n) (right_node n) (is_red n)));
  c ← RED unchained;
  _ ← (if c : bool then mret ()
       else r ← rebalance fuel r s; blacken r);
  free unchained.

Definition tdelete (fuel : nat) (k : K) : M (option addr) :=
  o ← DEREFNODEPTR RootP;
  match o with
  | None => mret None
  | Some p =>
      e ← tdelete_find fuel k RootP p p (Stack [] 40);
      match e with
      | None => mret None
      | Some (rootp, s, retval) =>
          o ← DEREFNODEPTR rootp;
          root ← nonnull o;
          x ← unchain_which fuel rootp root s;
          _ ← remove fuel rootp root x.1 x.2;
          mret (Some retval)
      end
  end.
End code.
(** ** The rotations on the heap *)

Section rotations.
Context {K : Type}.
Implicit Types (t s near far : tree (K := K)) (C : ctx (K := K)) (h : gmap addr (node (K := K))) (v : option addr).

Lemma rep_join h d a c k t s :
  rep h (join d a c k t s) ↔ h !! a = Some (mknode d k (ad t) (ad s) c) ∧ rep h t ∧ rep h s.
Proof. destruct d; cbn; tauto. Qed.

Lemma ad_join d a c k t s : ad (join d a c k t s) = Some a.
Proof. by destruct d. Qed.

Lemma addrs_join d a c k t s : addrs (join d a c k t s) ≡ₚ a :: addrs t ++ addrs s.
Proof. destruct d; cbn; [done|]. by rewrite (comm (++) (addrs s)). Qed.

(** The nodes that are not of the tree stay as they are. *)
Definition kept (h : gmap addr (node (K := K))) (st' : state) (A : list addr) : Prop :=
  ∀ b n, h !! b = Some n → b ∉ A → heap st' !! b = Some n.

Lemma black_child_near h v d a c k t s :
  rep h (join d a c k t s) → black_child d a (State h v) = Val (negb (red t), State h v).
Proof.
  intros (H & Ht & _)%rep_join. unfold black_child. rewrite (bind_step _ _ _ _ _ (CHILD_val _ _ _ _ _ H)).
  replace (child d (mknode d k (ad t) (ad s) c)) with (ad t) by (by destruct d).
  by rewrite (bind_step _ _ _ _ _ (red_child_val _ _ _ Ht)).
Qed.
Lemma black_child_far h v d a c k t s :
  rep h (join d a c k t s) → black_child (other d) a (State h v) = Val (negb (red s), State h v).
Proof.
  intros (H & _ & Hs)%rep_join. unfold black_child. rewrite (bind_step _ _ _ _ _ (CHILD_val _ _ _ _ _ H)).
  replace (child (other d) (mknode d k (ad t) (ad s) c)) with (ad s) by (by destruct d).
  by rewrite (bind_step _ _ _ _ _ (red_child_val _ _ _ Hs)).
Qed.

Lemma SETCOLOUR_val h v c a n :
  h !! a = Some n →
  SETCOLOUR c a (State h v) = Val ((), State (<[a:=Node (key n) (left_node n) (right_node n) c]> h) v).
Proof. destruct c; [apply SETRED_val|apply SETBLACK_val]. Qed.

(** Three nodes, four subtrees and a context without a shared node. *)
Record apart (a b g : addr) s1 s2 s3 s4 C : Prop := {
  ap_ab : a ≠ b;
  ap_ag : a ≠ g;
  ap_bg : b ≠ g;
  ap_a : clear_of a s1 s2 s3 s4 C;
  ap_b : clear_of b s1 s2 s3 s4 C;
  ap_g : clear_of g s1 s2 s3 s4 C;
  ap_ctx : NoDup (addrs_ctx C);
  ap_sub : ∀ x, x ∈ addrs s1 ++ addrs s2 ++ addrs s3 ++ addrs s4 → x ∉ addrs_ctx C
}.

Lemma apart_intro a b g s1 s2 s3 s4 C :
  NoDup (a :: b :: g :: (addrs s1 ++ addrs s2 ++ addrs s3 ++ addrs s4) ++ addrs_ctx C) →
  apart a b g s1 s2 s3 s4 C.
Proof.
  rewrite !NoDup_cons, !not_elem_of_cons, !not_elem_of_app. intros (Ha & Hb & Hg & Hp).
  apply NoDup_app in Hp as (_ & Hp & HC). split; unfold clear_of; tauto.
Qed.

Ltac by_count := apply perm_count; let x := fresh in intros x; cbn [join addrs addrs_ctx f_addr f_sib];
  repeat (rewrite ?count_occ_app; cbn [count_occ app]); repeat case_match; lia.

Lemma near_addrs d p c kp t qa kq q2 c2 k2 n2 f2 far C :
  NoDup (addrs_ctx (F d p c kp (join d qa false kq (join d q2 c2 k2 n2 f2) far) :: C) ++ addrs t) →
  apart p qa q2 t n2 f2 far C ∧
  NoDup (addrs_ctx C ++ addrs (join d q2 c k2 (join d p false kp t n2) (join d qa false kq f2 far))).
Proof.
  intros H. split; [apply apart_intro|]; (eapply nodup_perm, H); destruct d; by_count.
Qed.

Ltac relinked C o o' :=
  match goal with |- context [{| heap := ?h1; rootv := ?v1 |}] =>
    let h2 := fresh "h2" in let v2 := fresh "v2" in
    destruct (relink h1 v1 C o o') as (h2 & v2 & E & HC1 & K1 & R1); [settle|assumption|] end.
Ltac settled :=
  lazymatch goal with
  | K1 : (∀ b n, _ → b ∉ _ → ?h2 !! b = Some n), R1 : (∀ t, _ → _ → rep ?h2 t), Fs : ∀ x, _ → x ∉ _ |- _ =>
      first [ done
            | rewrite ?lookup_insert_ne by congruence; apply K1; [look|tauto]
            | repeat (apply rep_insert; [|tauto]); apply R1; [settle|intros ? ?; apply Fs; rewrite !elem_of_app; tauto] ]
  end.
Ltac keeping :=
  let b := fresh "b" in let n := fresh "n" in let Hb := fresh "Hb" in let Hf := fresh "Hf" in
  intros b n Hb Hf; rewrite !not_elem_of_cons in Hf; cbn [heap];
  rewrite ?lookup_insert_ne by (intros ->; tauto);
  match goal with K1 : (∀ b n, _ → b ∉ _ → ?h2 !! b = Some n) |- _ => apply K1; [|tauto] end;
  rewrite ?lookup_insert_ne by (intros ->; tauto); exact Hb.

Lemma repair_near_val d h v p c kp t qa kq q2 k2 n2 f2 far C :
  holds (State h v) (F d p c kp (join d qa false kq (join d q2 true k2 n2 f2) far) :: C) t → red far = false →
  ∃ st', repair d (here C) p qa (State h v) = Val ((), st') ∧
    holds st' C (join d q2 c k2 (join d p false kp t n2) (join d qa false kq f2 far)) ∧
    kept h st' (p :: qa :: q2 :: addrs_ctx C).
Proof.
  intros [(Hp & (Hq & (H2 & Hn2 & Hf2)%rep_join & Hfar)%rep_join & HC) Ht Hn] Hb.
  destruct (near_addrs _ _ _ _ _ _ _ _ _ _ _ _ _ _ Hn) as [[N1 N2 N3 Fp Fq F2 NC Fs] Hn'].
  rewrite !ad_join in *. unfold clear_of in *. cbn [heap rootv] in *.
  unfold repair. erewrite bind_step; [|eapply (black_child_far h v d qa false kq (join d q2 true k2 n2 f2) far); rewrite !rep_join, ad_join; tauto].
  rewrite Hb. cbn [negb].
  destruct d; cbn [mknode other] in *.
  all: exec @CHILD_val; rewrite (bind_step _ _ _ _ q2) by done; exec @RED_val; exec @SETCOLOUR_val; exec @CHILD_val;
    exec @SETCHILD_val; exec @CHILD_val; exec @SETCHILD_val; exec @SETCHILD_val; exec @SETCHILD_val.
  all: relinked C (Some p) (Some q2).
  all: rewrite (bind_step _ _ _ _ _ E); erewrite SETBLACK_val by (apply K1; [look|tauto]).
  all: eexists; (split; [reflexivity|]); (split; [split; [settle| |exact Hn']|keeping]).
  all: cbn [heap rep join]; rewrite ?lookup_insert_eq; split_and!.
  all: settled.
Qed.

Lemma far_addrs d p c kp t qa cq kq near fa cf kf fl fr C :
  NoDup (addrs_ctx (F d p c kp (join d qa cq kq near (T fa cf kf fl fr)) :: C) ++ addrs t) →
  apart p qa fa t near fl fr C ∧
  NoDup (addrs_ctx C ++ addrs (join d qa c kq (join d p false kp t near) (T fa false kf fl fr))).
Proof.
  intros H. split; [apply apart_intro|]; (eapply nodup_perm, H); destruct d; by_count.
Qed.

Lemma repair_far_val d h v p c kp t qa kq near fa kf fl fr C :
  holds (State h v) (F d p c kp (join d qa false kq near (T fa true kf fl fr)) :: C) t →
  ∃ st', repair d (here C) p qa (State h v) = Val ((), st') ∧
    holds st' C (join d qa c kq (join d p false kp t near) (T fa false kf fl fr)) ∧
    kept h st' (p :: qa :: fa :: addrs_ctx C).
Proof.
  intros [(Hp & (Hq & Hnear & (Hfa & Hfl & Hfr))%rep_join & HC) Ht Hn].
  destruct (far_addrs _ _ _ _ _ _ _ _ _ _ _ _ _ _ _ Hn) as [[N1 N2 N3 Fp Fq F2 NC Fs] Hn'].
  rewrite !ad_join in *. unfold clear_of in *. cbn [heap rootv] in *.
  unfold repair. erewrite bind_step;
    [|eapply (black_child_far h v d qa false kq near (T fa true kf fl fr)); rewrite !rep_join; cbn; tauto].
  cbn [negb red]. destruct d; cbn [mknode other ad] in *.
  all: exec @RED_val; exec @SETCOLOUR_val; exec @SETBLACK_val; exec @CHILD_val;
    rewrite (bind_step _ _ _ _ fa) by done; exec @SETBLACK_val; exec @CHILD_val; exec @SETCHILD_val; exec @SETCHILD_val.
  all: relinked C (Some p) (Some qa); rewrite E.
  all: eexists; (split; [reflexivity|]); (split; [split; [assumption| |exact Hn']|keeping]).
  all: cbn [heap rep join]; rewrite ?lookup_insert_eq; split_and!.
  all: settled.
Qed.

Lemma brother_addrs d p c kp t qa cq kq na cn kn nl nr far C :
  NoDup (addrs_ctx (F d p c kp (join d qa cq kq (T na cn kn nl nr) far) :: C) ++ addrs t) →
  apart p qa na t nl nr far C ∧
  NoDup (addrs_ctx (F d p true kp (T na cn kn nl nr) :: F d qa false kq far :: C) ++ addrs t).
Proof.
  intros H. split; [apply apart_intro|]; (eapply nodup_perm, H); destruct d; by_count.
Qed.

Lemma red_brother_val d h v p kp t qa kq na cn kn nl nr far C l n :
  holds (State h v) (F d p false kp (join d qa true kq (T na cn kn nl nr) far) :: C) t → (length l < n)%nat →
  ∃ st', red_brother d (here C) p qa (Stack l n) (State h v)
      = Val ((ChildP d qa, na, Stack (ChildP d qa :: l) n), st') ∧
    holds st' (F d p true kp (T na cn kn nl nr) :: F d qa false kq far :: C) t ∧
    kept h st' (p :: qa :: na :: addrs_ctx C).
Proof.
  intros [(Hp & (Hq & (Hna & Hnl & Hnr) & Hfar)%rep_join & HC) Ht Hn] Hl.
  destruct (brother_addrs _ _ _ _ _ _ _ _ _ _ _ _ _ _ _ Hn) as [[N1 N2 N3 Fp Fq F2 NC Fs] Hn'].
  rewrite !ad_join in *. unfold clear_of in *. cbn [heap rootv] in *.
  unfold red_brother. destruct d; cbn [mknode other ad] in *.
  all: exec @SETBLACK_val; exec @SETRED_val; exec @CHILD_val; exec @SETCHILD_val; exec @SETCHILD_val.
  all: relinked C (Some p) (Some qa); rewrite (bind_step _ _ _ _ _ E).
  all: unfold push_unchecked; cbn [links_of stacksize]; rewrite (proj2 (Nat.ltb_lt _ _) Hl).
  all: erewrite (bind_step (mret _)) by done.
  all: erewrite bind_step; [|apply CHILD_val; apply K1; [look|tauto]].
  all: cbn [child right_node left_node].
  all: eexists; (split; [reflexivity|]); (split; [split; [| |exact Hn']|keeping]).
  all: cbn [heap rootv rep_ctx rep mknode]; split_and?.
  all: settled.
Qed.

(** With the stack full, the push that is not preceded by a check writes
    past its end. *)
Lemma red_brother_overflow d h v p kp t qa kq na cn kn nl nr far C l n :
  holds (State h v) (F d p false kp (join d qa true kq (T na cn kn nl nr) far) :: C) t → length l = n →
  red_brother d (here C) p qa (Stack l n) (State h v) = Fault.
Proof.
  intros [(Hp & (Hq & (Hna & Hnl & Hnr) & Hfar)%rep_join & HC) Ht Hn] Hl.
  destruct (brother_addrs _ _ _ _ _ _ _ _ _ _ _ _ _ _ _ Hn) as [[N1 N2 N3 Fp Fq F2 NC Fs] Hn'].
  rewrite !ad_join in *. unfold clear_of in *. cbn [heap rootv] in *.
  unfold red_brother. destruct d; cbn [mknode other ad] in *.
  all: exec @SETBLACK_val; exec @SETRED_val; exec @CHILD_val; exec @SETCHILD_val; exec @SETCHILD_val.
  all: relinked C (Some p) (Some qa); rewrite (bind_step _ _ _ _ _ E).
  all: unfold push_unchecked; cbn [links_of stacksize]; by rewrite (proj2 (Nat.ltb_ge _ _)) by lia.
Qed.

Lemma redden_brother_val d h v p c kp t qa cq kq near far C :
  holds (State h v) (F d p c kp (join d qa cq kq near far) :: C) t →
  ∃ st', SETRED qa (State h v) = Val ((), st') ∧
    holds st' C (join d p c kp t (join d qa true kq near far)) ∧ kept h st' [qa].
Proof.
  intros Hh. apply holds_push in Hh.
  assert (∀ q, join d p c kp t q = join (other d) p c kp q t) as Hj by (by destruct d).
  rewrite Hj, holds_push in Hh. destruct Hh as [H1 (Hq & Hn & Hf)%rep_join H3].
  rewrite (SETRED_val _ _ _ _ Hq). eexists. split; [done|].
  pose proof H3 as (HC & Hd & Ht)%NoDup_app. rewrite addrs_join in Ht. apply NoDup_cons in Ht as [Ha _].
  rewrite not_elem_of_app in Ha. destruct Ha.
  assert (qa ∉ addrs_ctx (F (other d) p c kp t :: C)) as Hc by (intros Hin; apply (Hd qa Hin); rewrite addrs_join; set_solver).
  split.
  - rewrite Hj. apply holds_push. rewrite ad_join in H1. split; cbn [heap rootv].
    + rewrite ad_join. by apply rep_ctx_insert.
    + apply rep_join. split_and!; [rewrite lookup_insert_eq; by destruct d|by apply rep_insert..].
    + destruct d; exact H3.
  - intros b n Hb Hf'. cbn. rewrite lookup_insert_ne by set_solver. done.
Qed.
End rotations.

(** ** Rebalancing *)

Section rebalancing.
Context {K : Type}.
Implicit Types (t s near far : tree (K := K)) (C : ctx (K := K)) (st : state (K := K)).

(** The links to the nodes of a context, the innermost first. *)
Fixpoint links C : list nodep := match C with [] => [] | _ :: C' => here C' :: links C' end.

Lemma length_links C : length (links C) = length C.
Proof. induction C; cbn; auto. Qed.

(** The state holds a balanced tree with these nodes. *)
Definition balanced st L : Prop :=
  ∃ C t n, holds st C t ∧ bal t n ∧ balc C n (red t) ∧ inorder (plug C t) = L.

(** The tree in the hole has one black node too few on its paths; a red one
    may have red children. *)
Record short st C t (m : nat) : Prop := {
  sh_holds : holds st C t;
  sh_ctx : balc C (S m) false;
  sh_bal : if red t then bal (black t) (S m) else bal t m
}.

Lemma kept_weaken (h : gmap addr (node (K := K))) st A B : kept h st A → A ⊆ B → kept h st B.
Proof. intros H Hs b n Hb Hn. apply H; [done|]. set_solver. Qed.

Lemma blacken_here st C t :
  holds st C t → ∃ st', blacken (ad t) st = Val ((), st') ∧ holds st' C (black t) ∧ kept (heap st) st' (addrs t).
Proof.
  destruct st as [h v]. intros [H1 H2 H3]. pose proof H3 as (_ & Hd & Ht)%NoDup_app.
  destruct (blacken_val h v t H2 Ht) as (h' & E & Hr & A). exists (State h' v). split_and!; [exact E|split|].
  - cbn. rewrite ad_black. apply (rep_ctx_agree h); [exact H1|]. intros b Hb. apply A. by apply Hd.
  - done.
  - by rewrite addrs_black.
  - intros b n Hb Hn. cbn. by rewrite A.
Qed.

Lemma red_join d t : red t = true → ∃ a k n f, t = join d a true k n f.
Proof. destruct t as [|a [] k l r]; try done. intros _. destruct d; [by exists a, k, l, r|by exists a, k, r, l]. Qed.

Lemma bal_join d a c k t s n :
  bal (join d a c k t s) n ↔
  if c then red t = false ∧ red s = false ∧ bal t n ∧ bal s n
  else match n with O => False | S m => bal t m ∧ bal s m end.
Proof. destruct d, c; cbn; [tauto|destruct n; tauto|tauto|destruct n; tauto]. Qed.

Lemma red_of_join d a c k t s : red (join d a c k t s) = c.
Proof. by destruct d. Qed.

(** One of the black brother's children is red: the tree is repaired. *)
Lemma repair_spec d h v p c kp t qa kq near far C m :
  let C0 := F d p c kp (join d qa false kq near far) :: C in
  holds (State h v) C0 t → red t = false → bal t m → bal near m → bal far m →
  balc C (if c then S m else S (S m)) c → red near || red far = true →
  ∃ st', repair d (here C) p qa (State h v) = Val ((), st') ∧
    balanced st' (inorder (plug C0 t)) ∧ kept h st' (addrs_ctx C0 ++ addrs t).
Proof.
  intros C0 Hh Ht Hbt Hbn Hbf HC Hr. destruct (red far) eqn:Ef.
  - destruct far as [|fa [] kf fl fr]; try done. destruct Hbf as (R1 & R2 & B1 & B2).
    destruct (repair_far_val d h v p c kp t qa kq near fa kf fl fr C Hh) as (st' & E & Hh' & Hk).
    exists st'. split_and!; [exact E| |eapply kept_weaken; [exact Hk|]].
    + do 2 eexists. exists (if c then S m else S (S m)). split_and!; [exact Hh'| |by rewrite red_of_join|].
      * apply bal_join. destruct c; rewrite ?red_of_join, !bal_join; done.
      * unfold C0. cbn [plug]. apply inorder_plug. destruct d; cbn; rewrite <- ?(assoc (++)); done.
    + unfold C0. cbn. destruct d; cbn; set_solver.
  - rewrite orb_false_r in Hr. destruct (red_join d near Hr) as (q2 & k2 & n2 & f2 & ->).
    apply bal_join in Hbn as (R1 & R2 & B1 & B2).
    destruct (repair_near_val d h v p c kp t qa kq q2 k2 n2 f2 far C Hh Ef) as (st' & E & Hh' & Hk).
    exists st'. split_and!; [exact E| |eapply kept_weaken; [exact Hk|]].
    + do 2 eexists. exists (if c then S m else S (S m)). split_and!; [exact Hh'| |by rewrite red_of_join|].
      * apply bal_join. destruct c; rewrite ?red_of_join, !bal_join; done.
      * unfold C0. cbn [plug]. apply inorder_plug. destruct d; cbn; rewrite <- ?(assoc (++)); cbn; by rewrite <- ?(assoc (++)).
    + unfold C0. cbn. destruct d; cbn; set_solver.
Qed.

Definition after_step st' C (L : list (addr * K)) (p : addr) (c : bool) (m : nat) (l : list nodep) (r : option addr) (l' : list nodep) : Prop :=
  (r = Some p ∧ l' = l ∧ ∃ t', ad t' = Some p ∧ red t' = c ∧ short st' C t' (if c then m else S m) ∧ inorder (plug C t') = L)
  ∨ (r = None ∧ l' = [] ∧ balanced st' L).

Lemma black_brother_spec d h v p c kp t qa kq near far C m pp l n :
  let C0 := F d p c kp (join d qa false kq near far) :: C in
  holds (State h v) C0 t → red t = false → bal t m → bal near m → bal far m →
  balc C (if c then S m else S (S m)) c →
  ∃ r' l' st', black_brother d (here C) p qa (Stack (pp :: l) n) (State h v) = Val ((r', Stack l' n), st') ∧
    after_step st' C (inorder (plug C0 t)) p c m l r' l' ∧ kept h st' (addrs_ctx C0 ++ addrs t).
Proof.
  intros C0 Hh Ht Hbt Hbn Hbf HC. unfold black_brother.
  assert (rep h (join d qa false kq near far)) as Hq by (destruct Hh as [(_ & H & _) _ _]; exact H).
  rewrite (bind_step _ _ _ _ _ (black_child_near h v _ _ _ _ _ _ Hq)).
  assert (∀ B (g : bool → M B), (b2 ← (if negb (red near) then black_child (other d) qa else mret false); g b2) (State h v)
    = g (negb (red near || red far)) (State h v)) as ->.
  { intros B g. destruct (red near); cbn [negb orb]; [done|].
    by rewrite (bind_step _ _ _ _ _ (black_child_far h v _ _ _ _ _ _ Hq)). }
  destruct (red near || red far) eqn:Er; cbn [negb].
  - destruct (repair_spec d h v p c kp t qa kq near far C m Hh Ht Hbt Hbn Hbf HC Er) as (st' & E & Hb & Hk).
    exists None, [], st'. split_and!; [by rewrite (bind_step _ _ _ _ _ E)|by right|done].
  - destruct (redden_brother_val d h v p c kp t qa false kq near far C Hh) as (st' & E & Hh' & Hk).
    apply orb_false_iff in Er as [R1 R2].
    exists (Some p), l, st'. split_and!; [by rewrite (bind_step _ _ _ _ _ E)|left|].
    + split_and!; [done..|]. eexists. split_and!; [apply ad_join|apply red_of_join| |].
      * split; [exact Hh'|by destruct c; [eapply balc_black|]|]. rewrite red_of_join. destruct c.
        -- replace (black (join d p true kp t (join d qa true kq near far))) with
             (join d p false kp t (join d qa true kq near far)) by (by destruct d). apply bal_join. by rewrite bal_join.
        -- apply bal_join. by rewrite bal_join.
      * unfold C0. cbn [plug]. apply inorder_plug. by destruct d.
    + eapply kept_weaken; [exact Hk|]. unfold C0. destruct d; cbn; set_solver.
Qed.

(** The head of the loop finds the side, the parent and the brother. *)
Lemma rebalance_head fuel d h v p c kp t qa cq kq near far C l n :
  holds (State h v) (F d p c kp (join d qa cq kq near far) :: C) t → red t = false →
  rebalance (S fuel) (ad t) (Stack (here C :: l) n) (State h v)
  = (x ← (if cq then red_brother d (here C) p qa (Stack (here C :: l) n) else mret (here C, qa, Stack (here C :: l) n));
     let '(pp, q, s) := x in
     y ← black_brother d pp p q s;
     rebalance fuel y.1 y.2) (State h v).
Proof.
  intros [(Hp & (Hq & Hn & Hf)%rep_join & HC) Ht Hnd] Hr. cbn [heap rootv rebalance links_of] in *.
  rewrite (bind_step _ _ _ _ _ (red_child_val _ _ _ Ht)), Hr.
  rewrite (bind_step _ _ _ _ _ (DEREF_here _ _ _ _ HC)), (bind_step _ _ _ _ p) by done.
  rewrite (bind_step _ _ _ _ _ (CHILD_val _ _ L _ _ Hp)). rewrite ad_join.
  assert ((if bool_decide (ad t = child L (mknode d kp (ad t) (Some qa) c)) then L else R) = d) as ->.
  { destruct d; cbn; [by rewrite bool_decide_true|]. rewrite bool_decide_false; [done|]. intros Et.
    apply NoDup_app in Hnd as (_ & Hd & _). apply (Hd qa); [cbn; set_solver|]. destruct t; [done|]. cbn in *. set_solver. }
  rewrite ad_join in Hp. rewrite (bind_step _ _ _ _ _ (CHILD_val _ _ (other d) _ _ Hp)).
  replace (child (other d) (mknode d kp (ad t) (Some qa) c)) with (Some qa) by (by destruct d).
  rewrite (bind_step _ _ _ _ qa) by done.
  rewrite (bind_step _ _ _ _ _ (RED_val _ _ _ _ Hq)). by replace (is_red (mknode d kq (ad near) (ad far) cq)) with cq by (by destruct d).
Qed.

Lemma kept_trans (h : gmap addr (node (K := K))) st1 st2 A B :
  kept h st1 A → kept (heap st1) st2 B → B ⊆ A → kept h st2 A.
Proof. intros H1 H2 Hs b n Hb Hn. apply H2; [by apply H1|]. set_solver. Qed.

Definition rebalances fuel C t st n : Prop :=
  ∃ r st1 st2, rebalance fuel (ad t) (Stack (links C) n) st = Val (r, st1) ∧ blacken r st1 = Val ((), st2) ∧
    balanced st2 (inorder (plug C t)) ∧ kept (heap st) st2 (addrs_ctx C ++ addrs t).

(** At a red subtree, or at the top, the loop ends and [r] becomes black. *)
Lemma rebalance_stop fuel C t st n m :
  short st C t m → red t = true ∨ C = [] → rebalances (S fuel) C t st n.
Proof.
  intros [Hh Hc Hb] Hs. destruct (blacken_here st C t Hh) as (st2 & E & Hh2 & Hk).
  exists (ad t), st, st2. split_and!; [|exact E| |eapply kept_weaken; [exact Hk|set_solver]].
  - destruct C as [|f C]; [done|]. destruct Hs as [Hr|]; [|done]. destruct st as [h v].
    cbn [rebalance links links_of]. rewrite (bind_step _ _ _ _ _ (red_child_val h v t (ho_rep _ _ _ Hh))). by rewrite Hr.
  - exists C, (black t), (if red t then S m else m). split_and!; [done| | |apply inorder_plug, inorder_black].
    + destruct (red t) eqn:Er; [done|]. destruct t as [|a [] k l r]; done.
    + rewrite red_black. destruct Hs as [Hr|Hr]; rewrite Hr; done.
Qed.

Lemma kept_perm (h : gmap addr (node (K := K))) st A B : kept h st A → A ≡ₚ B → kept h st B.
Proof. intros H HP. eapply kept_weaken; [exact H|]. intros x Hx. by rewrite <- HP. Qed.

Lemma rebalance_resume fuel C st' (h : gmap addr (node (K := K))) L p c m n r l' :
  after_step st' C L p c m (links C) r l' → kept h st' L.*1 → (0 < fuel)%nat →
  (c = false → ∀ t m', short st' C t m' → rebalances fuel C t st' n) →
  ∃ r2 st1 st2, rebalance fuel r (Stack l' n) st' = Val (r2, st1) ∧ blacken r2 st1 = Val ((), st2) ∧
    balanced st2 L ∧ kept h st2 L.*1.
Proof.
  intros [(-> & -> & t' & Ha & Hr & Hs & <-)|(-> & -> & Hb)] Hk Hf IH.
  - assert (rebalances fuel C t' st' n) as (r2 & st1 & st2 & E1 & E2 & Hb & Hk2).
    { destruct c; [|by eapply IH]. destruct fuel; [lia|]. by eapply rebalance_stop; [|left]. }
    rewrite Ha in E1. exists r2, st1, st2. split_and!; [done..|].
    eapply kept_trans; [exact Hk|exact Hk2|]. intros x. by rewrite plug_addrs.
  - exists None, st', st'. destruct fuel; [lia|]. done.
Qed.

(** Two lists of the same nodes. *)
Lemma kept_nodes (h : gmap addr (node (K := K))) st C t C' t' :
  kept h st (addrs_ctx C ++ addrs t) → inorder (plug C t) = inorder (plug C' t') →
  kept h st (inorder (plug C' t')).*1.
Proof. intros H E. eapply kept_perm; [exact H|]. by rewrite plug_addrs, E. Qed.

Lemma resumed fuel C t st n (L : list (addr * K)) (y : outcome (option addr * state)) :
  inorder (plug C t) = L → y = rebalance fuel (ad t) (Stack (links C) n) st →
  (∃ r2 st1 st2, y = Val (r2, st1) ∧ blacken r2 st1 = Val ((), st2) ∧ balanced st2 L ∧ kept (heap st) st2 L.*1) →
  rebalances fuel C t st n.
Proof.
  intros HL -> (r2 & st1 & st2 & E1 & E2 & Hb & Hk). subst L. exists r2, st1, st2. split_and!; [done..|].
  eapply kept_perm; [exact Hk|]. by rewrite plug_addrs.
Qed.

Lemma step_black fuel d p c kp t qa kq near far C st n m :
  let C0 := F d p c kp (join d qa false kq near far) :: C in
  holds st C0 t → red t = false → bal t m → bal near m → bal far m →
  balc C (if c then S m else S (S m)) c → (0 < fuel)%nat →
  (∀ st t m, short st C t m → rebalances fuel C t st n) →
  rebalances (S fuel) C0 t st n.
Proof.
  intros C0 Hh Hr Bt Bn Bf BC Hf IH. destruct st as [h v].
  destruct (black_brother_spec d h v p c kp t qa kq near far C m (here C) (links C) n)
    as (r' & l' & st' & E & Hs & Hk); [done..|].
  eapply resumed; [reflexivity|symmetry; apply (rebalance_head fuel d h v p c kp t qa false kq near far C (links C) n Hh Hr)|].
  rewrite (bind_step (mret _) _ _ _ _ eq_refl), (bind_step _ _ _ _ _ E).
  eapply rebalance_resume; [exact Hs|by eapply kept_nodes|done|eauto].
Qed.

Lemma step_red fuel d p kp t qa kq near far C st n m :
  let C0 := F d p false kp (join d qa true kq near far) :: C in
  holds st C0 t → red t = false → bal t m → bal (join d qa true kq near far) (S m) →
  balc C (S (S m)) false → (0 < fuel)%nat → (length C0 < n)%nat →
  rebalances (S fuel) C0 t st n.
Proof.
  intros C0 Hh Hr Bt (R1 & R2 & B1 & B2)%bal_join BC Hf Hn. destruct st as [h v].
  destruct near as [|na cn kn nl nr]; [done|]. cbn in R1. subst cn.
  destruct (red_brother_val d h v p kp t qa kq na false kn nl nr far C (links C0) n Hh) as ([h1 v1] & E1 & Hh1 & Hk1);
    [by rewrite length_links|].
  destruct (child_of d nl nr) as (n2 & f2 & Hj). specialize (Hj na false kn). 
  set (C1 := F d p true kp (T na false kn nl nr) :: F d qa false kq far :: C) in *.
  assert (inorder (plug C0 t) = inorder (plug C1 t)) as Hi.
  { unfold C0, C1. cbn [plug]. apply inorder_plug. destruct d; cbn; rewrite <- ?(assoc (++)); cbn; by rewrite <- ?(assoc (++)). }
  rewrite Hj in B1. apply bal_join in B1 as [B3 B4].
  destruct (black_brother_spec d h1 v1 p true kp t na kn n2 f2 (F d qa false kq far :: C) m (ChildP d qa) (links C0) n)
    as (r' & l' & st' & E2 & Hs & Hk2); [by rewrite <- Hj|done..|].
  rewrite <- Hj in Hs, Hk2. fold C1 in Hs, Hk2.
  eapply resumed; [reflexivity|symmetry; apply (rebalance_head fuel d h v p false kp t qa true kq (T na false kn nl nr) far C (links C) n Hh Hr)|].
  rewrite (bind_step _ _ _ _ _ E1), (bind_step _ _ _ _ _ E2). cbn [fst snd].
  rewrite Hi. apply (rebalance_resume fuel (F d qa false kq far :: C) st' h _ p true m n r' l'); [exact Hs| |done|done].
  assert (addrs_ctx C1 ++ addrs t ≡ₚ (inorder (plug C1 t)).*1) as HP by apply plug_addrs.
  eapply (kept_trans h (State h1 v1)); [|exact Hk2|by intros x; rewrite HP].
  eapply kept_weaken; [exact Hk1|]. intros x Hx. rewrite <- HP. unfold C1. cbn. set_solver.
Qed.

Lemma rebalance_spec fuel C t st n m :
  short st C t m → (length C < fuel)%nat → (length C < n)%nat → rebalances fuel C t st n.
Proof.
  revert C t st m. induction fuel as [|fuel IH]; intros C t st m Hs Hf Hn; [lia|].
  destruct (red t) eqn:Hr; [by eapply rebalance_stop; [|left]|].
  destruct C as [|[d p c kp q] C]; [by eapply rebalance_stop; [|right]|].
  destruct Hs as [Hh Hc Hb]. rewrite Hr in Hb.
  assert (bal q (S m) ∧ (c = true → red q = false) ∧ balc C (if c then S m else S (S m)) c) as (Bq & Rq & BC)
    by (destruct c; cbn in Hc; [tauto|]; split_and!; [tauto|done|tauto]).
  destruct q as [|qa cq kq ql qr]; [done|]. destruct (child_of d ql qr) as (near & far & Hj).
  rewrite Hj in Hh, Bq, Rq |- *. rewrite red_of_join in Rq. cbn [length] in Hf, Hn. destruct cq.
  - destruct c; [by specialize (Rq eq_refl)|]. apply (step_red _ _ _ _ _ _ _ _ _ _ _ _ m); [done..|lia|done].
  - apply bal_join in Bq as [Bn Bf]. apply (step_black _ _ _ _ _ _ _ _ _ _ _ _ _ m); [done..|lia|].
    intros. eapply IH; [done|lia|lia].
Qed.
End rebalancing.

(** ** Finding and unchaining *)

Section unchaining.
Context {K : Type}.
Implicit Types (t s l r u : tree (K := K)) (C : ctx (K := K)) (st : state (K := K)).

Lemma push_links f C n : (length C < n)%nat → push (here C) (Stack (links C) n) = Stack (links (f :: C)) n.
Proof. intros H. unfold push. cbn [links_of stacksize]. rewrite length_links, (proj2 (Nat.eqb_neq _ _)) by lia. done. Qed.

Lemma plug_app C C' t : plug (C ++ C') t = plug C' (plug C t).
Proof. revert t. induction C as [|[d a c x s] C IH]; intros t; cbn; auto. Qed.

Lemma holds_app st C C' t : holds st (C ++ C') t ↔ holds st C' (plug C t).
Proof. revert t. induction C as [|[d a c x s] C IH]; intros t; cbn; [done|]. by rewrite <- IH, holds_push. Qed.

Lemma tdelete_succ_spec fuel f C b cb y l r st n :
  holds st (f :: C) (T b cb y l r) → (height (T b cb y l r) ≤ fuel)%nat →
  (length (f :: C) + height (T b cb y l r) ≤ n)%nat →
  ∃ Ls b' cb' y' r',
    tdelete_succ fuel (here C) (here (f :: C)) (Stack (links C) n) st
      = Val ((here (Ls ++ f :: C), Stack (links (Ls ++ f :: C)) n), st) ∧
    holds st (Ls ++ f :: C) (T b' cb' y' E r') ∧ Forall (λ g, f_side g = L) Ls ∧
    plug Ls (T b' cb' y' E r') = T b cb y l r ∧
    (length (Ls ++ f :: C) + height (T b' cb' y' E r') ≤ n)%nat.
Proof.
  destruct st as [h v]. revert f C b cb y l r. induction fuel as [|fuel IH]; intros f C b cb y l r Hh Hfuel Hn; [cbn in Hfuel; lia|].
  pose proof Hh as [H1 (H2 & _) _]. cbn [tdelete_succ heap rootv] in *.
  rewrite (push_links f) by (cbn in Hn; lia).
  rewrite (bind_step _ _ _ _ _ (DEREF_here _ _ _ _ H1)), (bind_step _ _ _ _ b) by done.
  rewrite (bind_step _ _ _ _ _ (CHILD_val _ _ _ _ _ H2)). cbn [child left_node].
  destruct l as [|b1 c1 y1 l1 r1]; cbn [ad].
  - exists [], b, cb, y, r. split_and!; [done..|constructor|done|done].
  - apply (holds_push _ L b cb y (T b1 c1 y1 l1 r1) r) in Hh.
    destruct (IH (F L b cb y r) (f :: C) b1 c1 y1 l1 r1 Hh) as (Ls & b' & cb' & y' & r' & E & Hh' & HL & Hp & Hn').
    { cbn [height] in *; lia. } { cbn [height length] in *; lia. }
    exists (Ls ++ [F L b cb y r]), b', cb', y', r'. rewrite <- (assoc (++)). split_and!; [exact E|exact Hh'| | |exact Hn'].
    + apply Forall_app. split; [done|]. by repeat constructor.
    + rewrite plug_app, Hp. done.
Qed.

(** The child that takes the place of a node without two children. *)
Definition rest l r : tree (K := K) := match l with E => r | _ => l end.

Lemma rest_incl l r : addrs (rest l r) ⊆ addrs l ++ addrs r.
Proof. destruct l; cbn [rest]; set_solver. Qed.

Lemma unchain_val st C b cb y l r rootp n :
  holds st C (T b cb y l r) → (C = [] → rootp = RootP) →
  ∃ st', unchain rootp b (ad (rest l r)) (Stack (links C) n) st = Val ((), st') ∧ holds st' C (rest l r) ∧
    kept (heap st) st' (addrs_ctx C) ∧ b ∉ addrs_ctx C ++ addrs (rest l r).
Proof.
  destruct st as [h v]. intros [H1 (H2 & H3 & H4) Hn] Hr. cbn [heap rootv] in *.
  pose proof Hn as (HC & Hd & [Hb Hlr]%NoDup_cons)%NoDup_app. fold (addrs (K := K)) in *.
  pose proof (rest_incl l r) as Hi. cbn [ad] in H1.
  destruct (relink h v C (Some b) (ad (rest l r)) H1 HC) as (h' & v' & E & HC' & K1 & R1).
  exists (State h' v'). split_and!.
  - destruct C as [|[d a c x s] C]; [rewrite (Hr eq_refl); exact E|]. unfold unchain. cbn [links links_of].
    destruct H1 as (Ha & Hs & H1). rewrite (bind_step _ _ _ _ _ (DEREF_here _ _ _ _ H1)), (bind_step _ _ _ _ a) by done.
    rewrite (bind_step _ _ _ _ _ (CHILD_val _ _ _ _ _ Ha)). rewrite <- E. destruct d; cbn.
    + rewrite bool_decide_false; [done|]. intros Es. apply (Hd b); [|cbn; set_solver].
      cbn. destruct s; [done|]. cbn in *. simplify_eq. set_solver.
    + by rewrite bool_decide_true.
  - split; [done| |].
    + cbn. assert (rep h (rest l r)) as Hr' by (by destruct l). apply R1; [done|].
      intros x Hx Hin. apply (Hd x Hin). cbn. set_solver.
    + apply NoDup_app. split_and!; [done| |].
      * intros x Hx Hin. apply (Hd x Hx). cbn. set_solver.
      * apply NoDup_app in Hlr as (? & _ & ?). by destruct l.
  - exact K1.
  - intros [Hin|Hin]%elem_of_app; [apply (Hd b Hin); cbn; set_solver|]. apply Hb, Hi, Hin.
Qed.

Lemma rekey_val st Ls d a c x s C t y :
  holds st (Ls ++ F d a c x s :: C) t →
  ∃ n st', get a st = Val (n, st) ∧ put a (Node y (left_node n) (right_node n) (is_red n)) st = Val ((), st') ∧
    holds st' (Ls ++ F d a c y s :: C) t ∧ kept (heap st) st' [a].
Proof.
  destruct st as [h v]. intros [(H1 & H2 & H3) H4 H5]%holds_app. cbn [heap rootv] in *.
  pose proof H5 as (HC & Hd & _)%NoDup_app. cbn in HC. apply NoDup_cons in HC as [Ha _].
  rewrite not_elem_of_app in Ha. destruct Ha as [Ha1 Ha2].
  eexists _, (State (<[a:=mknode d y (ad (plug Ls t)) (ad s) c]> h) v). split_and!; [by apply node_val| | |].
  - rewrite (put_val _ _ _ _ _ H1). by destruct d.
  - apply holds_app. split; [|apply rep_insert; [done|]|exact H5].
    + cbn. rewrite lookup_insert_eq. split_and!; [done|by apply rep_insert|by apply rep_ctx_insert].
    + apply (Hd a). cbn. set_solver.
  - intros b n Hb Hf. cbn. rewrite lookup_insert_ne by set_solver. done.
Qed.

Lemma balc_rekey Ls d a c x y s C n c0 :
  balc (Ls ++ F d a c x s :: C) n c0 → balc (Ls ++ F d a c (y : K) s :: C) n c0.
Proof.
  revert n c0. induction Ls as [|[d' a' [] x' s'] Ls IH]; intros n c0; cbn; [done|..];
    intros H; split_and?; try apply IH; tauto.
Qed.

(** Taking a red node out keeps the balance; a black one leaves the rest
    short. *)
Lemma rest_bal b cb y l r n :
  bal (T b cb y l r) n → l = E ∨ r = E →
  if cb then bal (rest l r) n ∧ red (rest l r) = false
  else ∃ m, n = S m ∧ if red (rest l r) then bal (black (rest l r)) (S m) else bal (rest l r) m.
Proof.
  intros Hb Hlr. destruct cb; cbn in Hb; [by destruct l; cbn; tauto|]. destruct n as [|m]; [done|].
  exists m. split; [done|]. assert (bal (rest l r) m) as Hr by (destruct l; cbn [rest]; tauto).
  destruct (rest l r) as [|? [] ? ? ?]; cbn in *; tauto.
Qed.
End unchaining.

Section finding.
Context {K : Type} (compar : K → K → Z) (k : K).
Implicit Types (t s l r u : tree (K := K)) (C : ctx (K := K)) (st : state (K := K)).

(** The node the local variable [p] is at: the parent, or the root. *)
Definition owner C (a : addr) : addr := match C with [] => a | f :: _ => f_addr f end.

Lemma tdelete_find_spec fuel C a c x l r st n :
  holds st C (T a c x l r) → fits compar k C →
  (height (T a c x l r) ≤ fuel)%nat → (length C + height (T a c x l r) ≤ n)%nat →
  (∃ C' a' c' x' l' r', 
     tdelete_find compar fuel k (here C) a (owner C a) (Stack (links C) n) st
       = Val (Some (here C', Stack (links C') n, owner C' a'), st) ∧
     plug C' (T a' c' x' l' r') = plug C (T a c x l r) ∧ fits compar k C' ∧ compar k x' = 0 ∧
     (length C' + height (T a' c' x' l' r') ≤ n)%nat ∧
     holds st C' (T a' c' x' l' r'))
  ∨ (tdelete_find compar fuel k (here C) a (owner C a) (Stack (links C) n) st = Val (None, st) ∧
     ∃ C', plug C' E = plug C (T a c x l r) ∧ fits compar k C').
Proof.
  destruct st as [h v]. revert C a c x l r. induction fuel as [|fuel IH]; intros C a c x l r Hh Hf Hfuel Hn; [cbn in Hfuel; lia|].
  pose proof Hh as [H1 (H2 & _) _]. cbn [tdelete_find heap rootv] in *.
  rewrite (bind_step _ _ _ _ _ (node_val _ _ _ _ H2)). cbn [key].
  destruct (Z.eqb_spec (compar k x) 0) as [Hz|Hz].
  { left. exists C, a, c, x, l, r. done. }
  apply dir_sd in Hz. fold (sd (compar k x)). set (d := sd (compar k x)) in *.
  rewrite (bind_step _ _ _ _ _ (DEREF_here _ _ _ _ H1)), (bind_step _ _ _ _ a) by done.
  rewrite (bind_step _ _ _ _ _ (CHILD_val _ _ _ _ _ H2)).
  replace (child d (Node x (ad l) (ad r) c)) with (ad (sub d l r)) by (by destruct d).
  rewrite (sub_join d) in Hh |- *. cbn [height] in *.
  assert (height (sub d l r) ≤ height l `max` height r)%nat as Hs by (destruct d; cbn; lia).
  rewrite (push_links (F d a c x (sub (other d) l r))) by lia.
  apply holds_push in Hh. assert (fits compar k (F d a c x (sub (other d) l r) :: C)) as Hf' by (by constructor).
  destruct (sub d l r) as [|b cb y l' r']; cbn [ad].
  - right. split; [done|]. eexists. split; [|exact Hf']. done.
  - cbn [height length] in *.
    destruct (IH (F d a c x (sub (other d) l r) :: C) b cb y l' r' Hh Hf') as [IHl|IHr]; [cbn; lia|cbn; lia|left|right].
    + destruct IHl as (C' & a' & c' & x' & l1 & r1 & E & Hp & Hf1 & Hx & Hh1 & Hho).
      exists C', a', c', x', l1, r1. done.
    + exact IHr.
Qed.

End finding.

(** ** [tdelete] *)

Section deleting.
Context {K : Type} (compar : K → K → Z) (k : K).
Implicit Types (t s l r : tree (K := K)) (C : ctx (K := K)) (st : state (K := K)) (L : list (addr * K)).

Lemma links_rekey Ls d a c (x y : K) s C : links (Ls ++ F d a c x s :: C) = links (Ls ++ F d a c y s :: C).
Proof.
  induction Ls as [|g Ls IH]; [done|]. cbn. f_equal; [|done]. by destruct Ls as [|[] ?].
Qed.

Lemma rest_node st a c x l r :
  rep (heap st) (T a c x l r) →
  ∀ B (g : option addr → M B),
    (o ← CHILD L a; r ← (match o with Some _ => mret o | None => CHILD R a end); g r) st = g (ad (rest l r)) st.
Proof.
  destruct st as [h v]. intros (H & _) B g. cbn [heap] in H.
  rewrite (bind_step _ _ _ _ _ (CHILD_val _ _ _ _ _ H)). cbn [child left_node].
  destruct l; cbn [ad rest]; [|done]. by rewrite (bind_step _ _ _ _ _ (CHILD_val _ _ _ _ _ H)).
Qed.

Lemma rest_rebalanced fuel st C b cb y l r n N :
  holds st C (rest l r) → bal (T b cb y l r) n → balc C n cb → l = E ∨ r = E →
  (length C < fuel)%nat → (length C < N)%nat →
  ∃ st', (if cb then mret () else r ← rebalance fuel (ad (rest l r)) (Stack (links C) N); blacken r) st = Val ((), st') ∧
    balanced st' (inorder (plug C (rest l r))) ∧ kept (heap st) st' (inorder (plug C (rest l r))).*1.
Proof.
  intros Hh Hb Hc Hlr Hf HN. pose proof (rest_bal b cb y l r n Hb Hlr) as Hr. destruct cb.
  - exists st. split_and!; [done| |by intros ? ? ? _]. destruct Hr as [Hr1 Hr2].
    exists C, (rest l r), n. rewrite Hr2. split_and!; [done..|by eapply balc_black|done].
  - destruct Hr as (m & -> & Hr).
    destruct (rebalance_spec fuel C (rest l r) st N m) as (r2 & st1 & st2 & E1 & E2 & Hb2 & Hk); [by split|done..|].
    exists st2. split_and!; [by rewrite (bind_step _ _ _ _ _ E1)|done|].
    eapply kept_perm; [exact Hk|]. by rewrite plug_addrs.
Qed.

Lemma balanced_free st L b nb :
  balanced st L → b ∉ L.*1 → heap st !! b = Some nb →
  ∃ st', free b st = Val ((), st') ∧ balanced st' L ∧ heap st' !! b = None.
Proof.
  destruct st as [h v]. intros (C & t & n & [H1 H2 H3] & Hb & Hc & <-) Hn Hl.
  exists (State (delete b h) v). split_and!; [|exists C, t, n; split_and!; [split|done..]|apply lookup_delete_eq].
  - unfold free. cbn in *. by rewrite Hl.
  - apply (rep_ctx_agree h); [exact H1|]. intros x Hx. apply lookup_delete_ne. intros ->.
    apply Hn. rewrite <- plug_addrs. set_solver.
  - apply (rep_agree h); [exact H2|]. intros x Hx. apply lookup_delete_ne. intros ->.
    apply Hn. rewrite <- plug_addrs. set_solver.
  - done.
Qed.

(** The node itself goes when it has not two children. *)
Lemma remove_self fuel st C a c x l r n N rootp :
  holds st C (T a c x l r) → bal (T a c x l r) n → balc C n c → l = E ∨ r = E → (C = [] → rootp = RootP) →
  (length C < fuel)%nat → (length C < N)%nat →
  ∃ st', remove fuel rootp a a (Stack (links C) N) st = Val ((), st') ∧
    balanced st' (inorder (plug C (rest l r))) ∧ heap st' !! a = None.
Proof.
  intros Hh Hb Hc Hlr Hr Hf HN. unfold remove. rewrite (rest_node st a c x l r (ho_rep _ _ _ Hh)).
  pose proof (ho_rep _ _ _ Hh) as (Ha & _).
  destruct (unchain_val st C a c x l r rootp N Hh Hr) as ([h1 v1] & E1 & Hh1 & Hk1 & Hn1).
  rewrite (bind_step _ _ _ _ _ E1), bool_decide_true, (bind_step (mret ()) _ _ _ _ eq_refl) by done.
  assert (h1 !! a = Some (Node x (ad l) (ad r) c)) as Ha1 by (apply Hk1; [done|set_solver]).
  rewrite (bind_step _ _ _ _ _ (RED_val _ _ _ _ Ha1)). cbn [is_red].
  destruct (rest_rebalanced fuel _ C a c x l r n N Hh1 Hb Hc Hlr Hf HN) as (st2 & E2 & Hb2 & Hk2).
  rewrite (bind_step _ _ _ _ _ E2). rewrite plug_addrs in Hn1.
  eapply balanced_free; [done..|]. by apply Hk2.
Qed.

(** Else its successor goes, after giving it its key. *)
Lemma remove_succ fuel st Ls C a c x s b cb y r n N rootp :
  let Cu z := Ls ++ F R a c z s :: C in
  holds st (Cu x) (T b cb y E r) → bal (T b cb y E r) n → balc (Cu x) n cb →
  (length (Cu x) < fuel)%nat → (length (Cu x) < N)%nat →
  ∃ st', remove fuel rootp a b (Stack (links (Cu x)) N) st = Val ((), st') ∧
    balanced st' (inorder (plug (Cu y) r)) ∧ heap st' !! b = None.
Proof.
  intros Cu Hh Hb Hc Hf HN. unfold remove. rewrite (rest_node st b cb y E r (ho_rep _ _ _ Hh)).
  pose proof (ho_rep _ _ _ Hh) as (Ha & _).
  destruct (unchain_val st (Cu x) b cb y E r rootp N Hh) as (st1 & E1 & Hh1 & Hk1 & Hn1); [by destruct Ls|].
  rewrite (bind_step _ _ _ _ _ E1).
  assert (heap st1 !! b = Some (Node y None (ad r) cb)) as Ha1 by (apply Hk1; [done|set_solver]).
  assert (a ∈ addrs_ctx (Cu x)) as Hin.
  { unfold Cu. clear. induction Ls as [|g Ls IH]; cbn; set_solver. }
  rewrite bool_decide_false by (intros ->; set_solver).
  destruct (rekey_val st1 Ls R a c x s C r y Hh1) as (na & st2 & E2 & E3 & Hh2 & Hk2).
  assert (b ∉ (inorder (plug (Cu y) r)).*1) as Hnb.
  { rewrite <- plug_addrs. intros Hb'. apply Hn1. revert Hb'. unfold Cu. cbn [rest]. rewrite !elem_of_app.
    intros [Hb'|Hb']; [left|by right]. revert Hb'. clear. induction Ls as [|g Ls IH]; cbn; set_solver. }
  assert (heap st2 !! b = Some (Node y None (ad r) cb)) as Ha2 by (apply Hk2; [done|set_solver]).
  rewrite step_assoc. destruct st1 as [h1 v1], st2 as [h2 v2].
  rewrite (bind_step _ _ _ _ _ (node_val _ _ _ _ Ha1)), step_assoc, (bind_step _ _ _ _ _ E2).
  rewrite (bind_step _ _ _ _ _ E3), (bind_step _ _ _ _ _ (RED_val _ _ _ _ Ha2)). cbn [is_red].
  unfold Cu. rewrite (links_rekey Ls R a c x y s C). fold (Cu y).
  destruct (rest_rebalanced fuel _ (Cu y) b cb y E r n N Hh2 Hb) as (st3 & E4 & Hb3 & Hk3).
  { by eapply balc_rekey. } { by left. } { unfold Cu in *. rewrite length_app in *. done. }
  { unfold Cu in *. rewrite length_app in *. done. }
  rewrite (bind_step _ _ _ _ _ E4). eapply balanced_free; [done..|]. by apply Hk3.
Qed.

Lemma bal_unplug Ls C t n :
  bal (plug Ls t) n → balc C n (red (plug Ls t)) → ∃ m, bal t m ∧ balc (Ls ++ C) m (red t).
Proof.
  revert t. induction Ls as [|[d a c x s] Ls IH]; intros t Hb Hc; [by exists n|].
  destruct (IH (join d a c x t s) Hb Hc) as (m & Hm & Hc'). rewrite red_of_join in Hc'. apply bal_join in Hm.
  destruct c; cbn; [exists m; tauto|]. destruct m as [|m]; [done|]. exists m. tauto.
Qed.

Lemma left_path Ls t : Forall (λ g, f_side g = L) Ls → inorder (plug Ls t) = inorder t ++ after Ls.
Proof.
  intros H. rewrite plug_inorder. replace (before Ls) with (@nil (addr * K)); [done|].
  induction H as [|[d a c x s] Ls Hd _ IH]; cbn in *; [done|]. by subst d.
Qed.

(** The list without the node of a key equal to [k]: its own node, or the
    next node after giving it its key. *)
Definition removed L L' (u : addr) : Prop :=
  ∃ A a x B, L = A ++ (a, x) :: B ∧ compar k x = 0 ∧
    ((u = a ∧ L' = A ++ B) ∨ (∃ b y B', B = (b, y) :: B' ∧ u = b ∧ L' = A ++ (a, y) :: B')).

Lemma delete_node fuel st C a c x l r n N :
  holds st C (T a c x l r) → bal (T a c x l r) n → balc C n c → compar k x = 0 →
  (length C + height (T a c x l r) ≤ N)%nat → (N ≤ fuel)%nat →
  ∃ st' L' u,
    (y ← unchain_which fuel (here C) a (Stack (links C) N); remove fuel (here C) a y.1 y.2) st = Val ((), st') ∧
    balanced st' L' ∧ removed (inorder (plug C (T a c x l r))) L' u ∧ heap st' !! u = None.
Proof.
  intros Hh Hb Hc Hx HN Hf. pose proof (ho_rep _ _ _ Hh) as (Ha & _). destruct st as [h v]. cbn [heap] in Ha.
  unfold unchain_which. rewrite step_assoc, (bind_step _ _ _ _ _ (CHILD_val _ _ R _ _ Ha)).
  rewrite step_assoc, (bind_step _ _ _ _ _ (CHILD_val _ _ L _ _ Ha)). cbn [child left_node right_node].
  assert ((l = E ∨ r = E) ∨ (l ≠ E ∧ r ≠ E)) as [Hlr|[Hl Hr]] by (destruct l, r; auto).
  - destruct (remove_self fuel (State h v) C a c x l r n N (here C)) as (st' & E & Hb' & Hu); [done..|by intros ->| | |].
    { cbn in HN; lia. } { cbn in HN; lia. }
    exists st'. do 2 eexists. split_and!; [|exact Hb'| |exact Hu].
    + destruct l, r; try (destruct Hlr; done); by rewrite (bind_step (mret _) _ _ _ _ eq_refl).
    + exists (before C ++ inorder l), a, x, (inorder r ++ after C). rewrite !plug_inorder. cbn [inorder].
      split_and!; [by rewrite <- !(assoc (++))|done|]. left. split; [done|].
      destruct l; cbn [rest inorder]; [by rewrite app_nil_r|]. destruct Hlr as [|Hr]; [done|]. subst r. by rewrite <- !(assoc (++)).
  - destruct r as [|b cb y lr rr]; [done|]. set (f := F R a c x l).
    assert (bal (T b cb y lr rr) (if c then n else pred n) ∧ balc (f :: C) (if c then n else pred n) cb) as [Hb1 Hc1].
    { cbn [bal] in Hb. destruct c; [|destruct n; [done|]]; cbn; tauto. }
    apply (holds_push _ R a c x (T b cb y lr rr) l) in Hh.
    destruct (tdelete_succ_spec fuel f C b cb y lr rr (State h v) N Hh) as (Ls & b' & cb' & y' & r' & Es & Hh' & HL & Hp & HN').
    { cbn [height] in *. lia. } { cbn [height length] in *. lia. }
    rewrite <- Hp in Hb1. destruct (bal_unplug Ls (f :: C) (T b' cb' y' E r') _ Hb1) as (m & Hb2 & Hc2); [by rewrite Hp|].
    destruct (remove_succ fuel (State h v) Ls C a c x l b' cb' y' r' m N (here C) Hh' Hb2 Hc2) as (st' & E' & Hb' & Hu).
    { cbn [height] in HN'. fold f. lia. } { cbn [height] in HN'. fold f. lia. }
    exists st'. do 2 eexists. split_and!; [|exact Hb'| |exact Hu].
    + destruct l; [done|]. cbn [ad]. rewrite step_assoc, (bind_step _ _ _ _ _ Es). cbn [fst snd].
      rewrite step_assoc, (bind_step _ _ _ _ _ (DEREF_here _ _ _ _ (ho_ctx _ _ _ Hh'))).
      rewrite step_assoc, (bind_step _ _ _ _ b') by done. by rewrite (bind_step (mret _) _ _ _ _ eq_refl).
    + exists (before C ++ inorder l), a, x, (inorder (T b cb y lr rr) ++ after C). rewrite plug_inorder.
      change (inorder (T a c x l (T b cb y lr rr))) with (inorder l ++ (a, x) :: inorder (T b cb y lr rr)).
      split_and!; [by rewrite <- !(assoc (++))|done|]. right. rewrite <- Hp, left_path by done. cbn [inorder app].
      do 3 eexists. split_and!; [done..|]. rewrite plug_app. cbn [plug join]. rewrite plug_inorder. cbn [inorder].
      rewrite left_path by done. rewrite <- !(assoc (++)). cbn. by rewrite <- !(assoc (++)).
Qed.

Lemma ordered_drop A a x B : ordered compar (A ++ (a, x) :: B) → ordered compar (A ++ B).
Proof.
  unfold ordered. rewrite !StronglySorted_app. intros (H1 & H2 & H3). apply StronglySorted_inv in H3 as [H3 _].
  split_and!; [|done..]. intros y z Hy Hz. apply H1; [done|]. set_solver.
Qed.

Lemma ordered_move A b y B a : ordered compar (A ++ (b, y) :: B) → ordered compar (A ++ (a, y) :: B).
Proof.
  unfold ordered. rewrite !StronglySorted_app. intros (H1 & H2 & H3). apply StronglySorted_inv in H3 as [H3 H4].
  split_and!; [|done|by constructor]. intros z w Hz [->|Hw]%elem_of_cons; [|by apply H1; set_solver].
  apply (H1 z (b, y)); set_solver.
Qed.

Lemma removed_ordered L L' u : removed L L' u → ordered compar L → ordered compar L'.
Proof.
  intros (A & a & x & B & -> & _ & [[_ ->]|(b & y & B' & -> & _ & ->)]) Ho; [by eapply ordered_drop|].
  eapply ordered_move, ordered_drop, Ho.
Qed.

Lemma balanced_rb st L : balanced st L → ordered compar L → rbtree compar st L.
Proof.
  intros (C & t & n & Hh & Hb & Hc & <-) Ho. destruct (bal_plug C t n Hb Hc) as [m Hm].
  exists (plug C t), m. split_and!; [by apply holds_plug|done..].
Qed.

Context `{!TotalPreorder compar}.

(** C40. On a tree of fewer than 2^20 - 1 nodes [tdelete] always ends: an
    absent key gives NULL and changes nothing; a present one is removed from
    the sorted list of nodes, one node is freed and never used again, and the
    result is a red-black tree. The node freed is the key's own, or that of the
    next key, which moves to the node of the key removed. *)
Theorem tdelete_refines fuel st L :
  rbtree compar st L → Z.of_nat (length L) + 1 < 2 ^ 20 → (40 ≤ fuel)%nat →
  match seek compar k L with
  | None => tdelete compar fuel k st = Val (None, st)
  | Some _ =>
      ∃ p u st' L', tdelete compar fuel k st = Val (Some p, st') ∧ rbtree compar st' L' ∧ removed L L' u ∧
        heap st' !! u = None
  end.
Proof.
  intros (t & n & Hh & Hb & <- & Ho) Hlen Hf. assert (height t < 40)%nat as Hht.
  { pose proof (rb_height t n Hb). assert (Nat.log2 (S (length (inorder t))) < 20)%nat; [|lia].
    apply Nat.log2_lt_pow2; [lia|]. apply Nat2Z.inj_lt. rewrite Nat2Z.inj_pow. cbn -[Z.pow]. lia. }
  unfold tdelete. rewrite (bind_step _ _ st st (rootv st)) by done. rewrite (ho_ctx _ _ _ Hh).
  destruct t as [|a c x l r]; [done|]. cbn [ad].
  destruct (tdelete_find_spec compar k fuel [] a c x l r st 40 Hh) as
    [(C & a' & c' & x' & l' & r' & E1 & Hp & Hfit & Hx & Hn & Hh')|(E1 & C & Hp & Hfit)]; [constructor|lia|cbn [length]; lia|..].
  - cbn [plug] in Hp. rewrite <- Hp in Ho, Hb |- *. rewrite seek_here by done. cbn [here links owner] in E1.
    rewrite (bind_step _ _ _ _ _ E1). destruct st as [h v].
    rewrite (bind_step _ _ _ _ _ (DEREF_here _ _ _ _ (ho_ctx _ _ _ Hh'))), (bind_step _ _ _ _ a') by done.
    destruct (bal_unplug C [] (T a' c' x' l' r') n Hb) as (m & Hm & Hc); [done|]. rewrite app_nil_r in Hc.
    destruct (delete_node fuel (State h v) C a' c' x' l' r' m 40 Hh' Hm Hc Hx Hn Hf) as (st' & L' & u & E2 & Hbal & Hrem & Hu).
    exists (owner C a'), u, st', L'. split_and!; [|by eapply balanced_rb, removed_ordered|done..].
    rewrite <- step_assoc. by rewrite (bind_step _ _ _ _ _ E2).
  - cbn [here links owner] in E1. rewrite (bind_step _ _ _ _ _ E1). cbn [plug] in Hp. rewrite <- Hp in Ho |- *.
    destruct (fits_cut compar k C E Hfit Ho) as [H1 H2]. rewrite plug_inorder. by rewrite seek_miss.
Qed.
End deleting.

(** Deleting 60, which has two children: its successor 70 is unchained. *)
Lemma tdelete_refines_witness :
  ∃ p u st' L', tdelete icmp 40 60 sample = Val (Some p, st') ∧ rbtree icmp st' L' ∧
    removed icmp 60 sample_nodes L' u ∧ heap st' !! u = None.
Proof. apply (tdelete_refines icmp 60 40 sample sample_nodes sample_rb); [vm_compute; reflexivity|lia]. Defined.

End Tdelete.
