(* ===== verification/Printf.v ===== *)
(** * Formatted output: what the modelled code uses of [sprintf]

    The conversions [%u], [%zu] and [%x], and [sprintf] and [snprintf] with
    their text already converted.  The formatter itself
    ([stdio-common/vfprintf-internal.c]) is not modelled: these are the
    numerals it is documented to produce. *)

From S2P Require Import Prelude CString.
Local Open Scope Z_scope.

Module Printf.
Import CString.

(** The digits of a number, first the most significant one; the fuel is
    enough for the 64-bit numbers in base ten and sixteen. *)
Fixpoint udigits (fuel : nat) (base n : Z) : list Z :=
  match fuel with
  | O => []
  | S fuel => (if n <? base then [] else udigits fuel base (n / base)) ++ [n mod base]
  end.
Definition fmt_u (n : Z) : list Z := (λ d, 48 + d) <$> udigits 32 10 n.
Definition hex_char (d : Z) : Z := if d <? 10 then 48 + d else 87 + d.
Definition fmt_x (n : Z) : list Z := hex_char <$> udigits 32 16 n.

(** [sprintf] into an array of [cap] bytes of which those before [tp] are
    [out]: the text with its NUL has to fit. *)
Definition sprintf (cap : nat) (out text : list Z) : outcome (list Z) :=
  if (length out + length text + 1 <=? cap)%nat then Val (out ++ text) else Fault.

(** [snprintf (buf + off, size, ...)]: the text is cut to [size - 1] bytes and
    terminated, and its whole length is returned.  Nothing is written when
    [size] is 0. *)
Definition snprintf (buf : list Z) (off size : nat) (text : list Z) : outcome (list Z * nat) :=
  match size with
  | O => Val (buf, length text)
  | S n => buf ← write_at buf off (take n text ++ [0]); Val (buf, length text)
  end.

Lemma udigits_enough f g b n :
  2 <= b → 0 <= n → n < 2 ^ Z.of_nat f → n < 2 ^ Z.of_nat g → (0 < f)%nat → (0 < g)%nat →
  udigits f b n = udigits g b n.
Proof.
  intros Hb. revert g n. induction f as [|f IH]; intros g n Hn Hf Hg H1 H2; [lia|]. destruct g as [|g]; [lia|].
  cbn [udigits]. destruct (Z.ltb_spec n b) as [|Hge]; [done|]. f_equal.
  rewrite Nat2Z.inj_succ, Z.pow_succ_r in Hf, Hg by lia.
  assert (1 <= n / b) by (apply Z.div_le_lower_bound; lia).
  assert (n / b <= n / 2) by (apply Z.div_le_compat_l; lia).
  assert (∀ m, n < 2 * 2 ^ m → n / b < 2 ^ m) as Hlt.
  { intros m Hm. assert (n / 2 < 2 ^ m) by (apply Z.div_lt_upper_bound; lia). lia. }
  apply IH; [lia|auto|auto|destruct f; [cbn in *; lia|lia]|destruct g; [cbn in *; lia|lia]].
Qed.

(** The text of a number grows by its last digit. *)
Lemma udigits_snoc b x d :
  2 <= b → 0 < x → 0 <= d < b → b * x + d < 2 ^ 31 → udigits 32 b (b * x + d) = udigits 32 b x ++ [d].
Proof.
  intros Hb Hx Hd Hlt. change (udigits 32 b (b * x + d)) with
    ((if b * x + d <? b then [] else udigits 31 b ((b * x + d) / b)) ++ [(b * x + d) mod b]).
  destruct (Z.ltb_spec (b * x + d) b); [nia|].
  replace ((b * x + d) / b) with x by (apply Z.div_unique_pos with d; lia).
  replace ((b * x + d) mod b) with d by (apply Z.mod_unique_pos with x; lia).
  rewrite (udigits_enough 31 32 b x); [done|lia|lia| | |lia|lia]; cbn [Z.of_nat]; nia.
Qed.

Lemma udigits_small b d : 0 <= d < b → udigits 32 b d = [d].
Proof.
  intros Hd. cbn [udigits]. destruct (Z.ltb_spec d b); [|lia]. rewrite Z.mod_small by lia. done.
Qed.

Definition is_dec (c : Z) : Prop := 48 <= c <= 57.

Lemma fmt_u_small d : 0 <= d < 10 → fmt_u d = [48 + d].
Proof. intros Hd. unfold fmt_u. by rewrite udigits_small. Qed.

Lemma fmt_u_snoc x d : 0 < x → 0 <= d < 10 → 10 * x + d < 2 ^ 31 → fmt_u (10 * x + d) = fmt_u x ++ [48 + d].
Proof. intros Hx Hd Hlt. unfold fmt_u. rewrite udigits_snoc by lia. by rewrite fmap_app. Qed.
End Printf.
