(* ===== verification/Inet.v ===== *)
(** * Internet addresses as text: [resolv/inet_pton.c], [resolv/inet_ntop.c]

    The scanners and printers of IPv4 and IPv6 addresses, with their
    temporary arrays.  A source is the list of its characters, from the
    pointer to the end that is passed along; a pointer into a temporary array
    is an index.  The scanner of dotted quads is shown to accept exactly the
    texts the printer makes, the scanner of IPv6 addresses exactly the texts
    of RFC 4291, and scanning undoes printing. *)

From S2P Require Import Prelude CString Printf.
Local Open Scope Z_scope.

Module Inet.
Import CString Printf.

Definition AF_INET : Z := 2.
Definition AF_INET6 : Z := 10.
Definition EAFNOSUPPORT : Z := 97.
Definition ENOSPC : Z := 28.
Definition NS_INADDRSZ : nat := 4.
Definition NS_IN6ADDRSZ : nat := 16.
Definition NS_INT16SZ : nat := 2.
Definition DOT : Z := 46.

(** ** [inet_pton4] *)

(** [tmp] and [tp]: a byte of [tmp] that was not written cannot be read. *)
Definition get4 (tmp : list (option Z)) (tp : nat) : outcome Z := deref (mjoin (tmp !! tp)).
Definition set4 (tmp : list (option Z)) (tp : nat) (x : Z) : outcome (list (option Z)) :=
  if (tp <? length tmp)%nat then Val (<[tp:=Some x]> tmp) else Fault.

(** The loop; [None] is [return 0], else [octets] and [tmp]. *)
Fixpoint pton4_loop (src : list Z) (saw_digit : bool) (octets : Z) (tmp : list (option Z)) (tp : nat)
    : outcome (option (Z * list (option Z))) :=
  match src with
  | [] => Val (Some (octets, tmp))
  | ch :: src =>
      if (48 <=? ch) && (ch <=? 57) then
        x ← get4 tmp tp;
        let new := wrapu 32 (x * 10 + (ch - 48)) in
        if saw_digit && (x =? 0) then Val None
        else if 255 <? new then Val None
        else
          tmp ← set4 tmp tp new;
          if negb saw_digit then
            if 4 <? octets + 1 then Val None
            else pton4_loop src true (octets + 1) tmp tp
          else pton4_loop src saw_digit octets tmp tp
      else if (ch =? DOT) && saw_digit then
        if octets =? 4 then Val None
        else
          tmp ← set4 tmp (S tp) 0;
          pton4_loop src false octets tmp (S tp)
      else Val None
  end.

(** The return value, and the array that [dst] points into at [off]. *)
Definition inet_pton4 (src dst : list Z) (off : nat) : outcome (Z * list Z) :=
  tmp ← set4 (replicate NS_INADDRSZ None) 0 0;
  r ← pton4_loop src false 0 tmp 0;
  match r with
  | None => Val (0, dst)
  | Some (octets, tmp) =>
      if octets <? 4 then Val (0, dst)
      else
        b0 ← get4 tmp 0; b1 ← get4 tmp 1; b2 ← get4 tmp 2; b3 ← get4 tmp 3;
        dst ← write_at dst off [b0; b1; b2; b3];
        Val (1, dst)
  end.

(** ** [inet_pton6] *)

Definition hex_digit_value (ch : Z) : Z :=
  if (48 <=? ch) && (ch <=? 57) then ch - 48
  else if (97 <=? ch) && (ch <=? 102) then ch - 97 + 10
  else if (65 <=? ch) && (ch <=? 70) then ch - 65 + 10
  else -1.

(** The local variables but [src] and [curtok]. *)
Record scan := Scan {
  tmp : list Z; tp : nat; colonp : option nat; xdigits_seen : nat; val : Z
}.

(** [*tp++ = (unsigned char) (val >> 8) & 0xff; *tp++ = ... val & 0xff;] *)
Definition put_group (s : scan) : outcome scan :=
  t ← write_at (tmp s) (tp s)
        [Z.land (wrapu 8 (Z.shiftr (val s) 8)) 0xff; Z.land (wrapu 8 (val s)) 0xff];
  Val (Scan t (tp s + 2) (colonp s) (xdigits_seen s) (val s)).

(** The loop; [None] is [return 0]. *)
Fixpoint pton6_loop (src curtok : list Z) (s : scan) : outcome (option scan) :=
  match src with
  | [] => Val (Some s)
  | ch :: src =>
      let digit := hex_digit_value ch in
      if 0 <=? digit then
        if (xdigits_seen s =? 4)%nat then Val None
        else
          let v := Z.lor (wrapu 32 (Z.shiftl (val s) 4)) digit in
          if 0xffff <? v then Val None
          else pton6_loop src curtok (Scan (tmp s) (tp s) (colonp s) (S (xdigits_seen s)) v)
      else if ch =? COLON then
        if (xdigits_seen s =? 0)%nat then
          match colonp s with
          | Some _ => Val None
          | None => pton6_loop src src (Scan (tmp s) (tp s) (Some (tp s)) (xdigits_seen s) (val s))
          end
        else if (length src =? 0)%nat then Val None
        else if (NS_IN6ADDRSZ <? tp s + NS_INT16SZ)%nat then Val None
        else
          s ← put_group s;
          pton6_loop src src (Scan (tmp s) (tp s) (colonp s) 0 0)
      else if (ch =? DOT) && (tp s + NS_INADDRSZ <=? NS_IN6ADDRSZ)%nat then
        r ← inet_pton4 curtok (tmp s) (tp s);
        if 0 <? r.1 then Val (Some (Scan r.2 (tp s + NS_INADDRSZ) (colonp s) 0 (val s)))
        else Val None
      else Val None
  end.

(** Replace [::] with zeros: the [memmove] and the [memset]. *)
Definition expand (t : list Z) (tp colonp : nat) : outcome (list Z) :=
  let n := (tp - colonp)%nat in
  moved ← read_n (drop colonp t) n;
  t ← write_at t (NS_IN6ADDRSZ - n) moved;
  memset t colonp 0 (NS_IN6ADDRSZ - n - colonp).

(** What follows the loop. *)
Definition pton6_end (s : scan) (dst : list Z) : outcome (Z * list Z) :=
  r ← (if (0 <? xdigits_seen s)%nat then
         if (NS_IN6ADDRSZ <? tp s + NS_INT16SZ)%nat then Val None else Some <$> put_group s
       else Val (Some s));
  match r with
  | None => Val (0, dst)
  | Some s =>
      r ← (match colonp s with
           | None => Val (Some (tmp s, tp s))
           | Some c =>
               if (tp s =? NS_IN6ADDRSZ)%nat then Val None
               else t ← expand (tmp s) (tp s) c; Val (Some (t, NS_IN6ADDRSZ))
           end);
      match r with
      | None => Val (0, dst)
      | Some (t, tp) =>
          if negb (tp =? NS_IN6ADDRSZ)%nat then Val (0, dst)
          else bs ← read_n t NS_IN6ADDRSZ; dst ← write_at dst 0 bs; Val (1, dst)
      end
  end.

Definition inet_pton6 (src dst : list Z) : outcome (Z * list Z) :=
  let run src :=
    r ← pton6_loop src src (Scan (replicate NS_IN6ADDRSZ 0) 0 None 0 0);
    match r with
    | None => Val (0, dst)
    | Some s => pton6_end s dst
    end in
  match src with
  | [] => Val (0, dst)
  | c :: src' =>
      if c =? COLON then
        match src' with
        | [] => Val (0, dst)
        | c' :: _ => if negb (c' =? COLON) then Val (0, dst) else run src'
        end
      else run src
  end.

(** The return value, [dst], and the value given to [errno]. *)
Definition inet_pton_length (af : Z) (src : list Z) (srclen : nat) (dst : list Z)
    : outcome (Z * list Z * option Z) :=
  if af =? AF_INET then
    s ← read_n src srclen; r ← inet_pton4 s dst 0; Val (r, None)
  else if af =? AF_INET6 then
    s ← read_n src srclen; r ← inet_pton6 s dst; Val (r, None)
  else Val (-1, dst, Some EAFNOSUPPORT).

Definition inet_pton (af : Z) (src dst : list Z) : outcome (Z * list Z * option Z) :=
  n ← strlen src; inet_pton_length af src n dst.

(** ** [inet_ntop] *)

(** [*tp++ = c]. *)
Definition put_char (cap : nat) (out : list Z) (c : Z) : outcome (list Z) :=
  if (length out + 1 <=? cap)%nat then Val (out ++ [c]) else Fault.

(** The text, when it is shorter than [size]; [None] is [NULL]. *)
Definition inet_ntop4 (src : list Z) (size : Z) : outcome (option (list Z)) :=
  bs ← read_n src NS_INADDRSZ;
  let text := mjoin (imap (λ i b, if (i =? 0)%nat then fmt_u b else DOT :: fmt_u b) bs) in
  tmp ← sprintf 16 [] text;
  Val (if size <=? Z.of_nat (length tmp) then None else Some tmp).

Record run := Run { base : Z; len : Z }.

Fixpoint to_words (src : list Z) : list Z :=
  match src with
  | b0 :: b1 :: src => Z.lor (Z.shiftl b0 8) b1 :: to_words src
  | _ => []
  end.

Definition better (best cur : run) : run :=
  if (base best =? -1) || (len best <? len cur) then cur else best.

(** The longest run of zeros. *)
Fixpoint find_run (words : list Z) (i : Z) (best cur : run) : run :=
  match words with
  | [] => if negb (base cur =? -1) then better best cur else best
  | w :: words =>
      if w =? 0 then
        find_run words (i + 1) best
          (if base cur =? -1 then Run i 1 else Run (base cur) (len cur + 1))
      else if negb (base cur =? -1) then find_run words (i + 1) (better best cur) (Run (-1) (len cur))
      else find_run words (i + 1) best cur
  end.

Definition best_run (words : list Z) : run :=
  let best := find_run words 0 (Run (-1) 0) (Run (-1) 0) in
  if negb (base best =? -1) && (len best <? 2) then Run (-1) (len best) else best.

(** [sizeof "ffff:ffff:ffff:ffff:ffff:ffff:255.255.255.255"]. *)
Definition TMPSIZE : nat := 46.

(** The loop over the words; [None] is [return NULL]. *)
Fixpoint fmt_loop (src : list Z) (best : run) (word5 : Z) (words : list Z) (i : Z) (out : list Z)
    : outcome (option (list Z)) :=
  match words with
  | [] => Val (Some out)
  | w :: words =>
      if negb (base best =? -1) && (base best <=? i) && (i <? base best + len best) then
        out ← (if i =? base best then put_char TMPSIZE out COLON else Val out);
        fmt_loop src best word5 words (i + 1) out
      else
        out ← (if negb (i =? 0) then put_char TMPSIZE out COLON else Val out);
        if (i =? 6) && (base best =? 0)
           && ((len best =? 6) || (len best =? 5) && (word5 =? 0xffff)) then
          r ← inet_ntop4 (drop 12 src) (Z.of_nat (TMPSIZE - length out));
          match r with
          | None => Val None
          | Some text => out ← sprintf TMPSIZE out text; Val (Some out)
          end
        else
          out ← sprintf TMPSIZE out (fmt_x w);
          fmt_loop src best word5 words (i + 1) out
  end.

Definition inet_ntop6 (src : list Z) (size : Z) : outcome (option (list Z)) :=
  bs ← read_n src NS_IN6ADDRSZ;
  let words := to_words bs in
  let best := best_run words in
  word5 ← deref (words !! 5%nat);
  r ← fmt_loop src best word5 words 0 [];
  match r with
  | None => Val None
  | Some out =>
      out ← (if negb (base best =? -1) && (base best + len best =? 8)
             then put_char TMPSIZE out COLON else Val out);
      out' ← put_char TMPSIZE out 0;
      Val (if size <? Z.of_nat (length out') then None else Some out)
  end.

(** Whether [dst] or [NULL] is returned, [dst] after [strcpy], and the value
    given to [errno]. *)
Definition inet_ntop (af : Z) (src dst : list Z) (size : Z) : outcome (bool * list Z * option Z) :=
  let copy r :=
    match r with
    | None => Val (false, dst, Some ENOSPC)
    | Some text => dst ← write_at dst 0 (text ++ [0]); Val (true, dst, None)
    end in
  if af =? AF_INET then inet_ntop4 src size ≫= copy
  else if af =? AF_INET6 then inet_ntop6 src size ≫= copy
  else Val (false, dst, Some EAFNOSUPPORT).

(** ** Decimal bytes *)

(** A byte has one, two or three decimal digits. *)
Lemma fmt_u_byte b :
  0 <= b < 256 →
  (b < 10 ∧ fmt_u b = [48 + b]) ∨
  (∃ x d, 0 < x < 10 ∧ 0 <= d < 10 ∧ b = 10 * x + d ∧ fmt_u b = [48 + x; 48 + d]) ∨
  (∃ x d e, 0 < x < 10 ∧ 0 <= d < 10 ∧ 0 <= e < 10 ∧ b = 100 * x + 10 * d + e ∧ fmt_u b = [48 + x; 48 + d; 48 + e]).
Proof.
  intros Hb. destruct (decide (b < 10)); [left; split; [done|apply fmt_u_small; lia]|]. right.
  pose proof (Z.div_mod b 10 ltac:(lia)) as E. pose proof (Z.mod_pos_bound b 10 ltac:(lia)).
  assert (1 <= b / 10) by (apply Z.div_le_lower_bound; lia). set (q := b / 10) in *. set (d := b mod 10) in *.
  destruct (decide (q < 10)).
  - left. exists q, d. split_and!; try lia. rewrite E, fmt_u_snoc, fmt_u_small by lia. done.
  - right. pose proof (Z.div_mod q 10 ltac:(lia)) as E'. pose proof (Z.mod_pos_bound q 10 ltac:(lia)).
    assert (1 <= q / 10) by (apply Z.div_le_lower_bound; lia).
    assert (q / 10 < 10) by (apply Z.div_lt_upper_bound; lia).
    set (x := q / 10) in *. set (e := q mod 10) in *.
    exists x, e, d. split_and!; try lia. rewrite E, fmt_u_snoc by lia.
    rewrite E', fmt_u_snoc, fmt_u_small by lia. done.
Qed.

(** ** Texts with separators *)

Fixpoint sepby (sep : Z) (ts : list (list Z)) : list Z :=
  match ts with
  | [] => []
  | [t] => t
  | t :: ts => t ++ sep :: sepby sep ts
  end.
Definition ended (sep : Z) (ts : list (list Z)) : list Z := mjoin ((λ t, t ++ [sep]) <$> ts).

Lemma ended_snoc sep ts t : ended sep (ts ++ [t]) = ended sep ts ++ t ++ [sep].
Proof. unfold ended. rewrite fmap_app, join_app. cbn. by rewrite app_nil_r. Qed.

Lemma sepby_snoc sep ts t : sepby sep (ts ++ [t]) = ended sep ts ++ t.
Proof.
  induction ts as [|u ts IH]; [done|]. cbn [app]. unfold ended in *. cbn.
  destruct (ts ++ [t]) eqn:E; [by destruct ts|]. rewrite <- E in *. cbn in IH |- *.
  rewrite IH, <- !(assoc (++)). done.
Qed.

(** Four bytes as a dotted quad. *)
Definition quad (bs : list Z) : list Z := sepby DOT (fmt_u <$> bs).

(** ** [inet_pton4] accepts exactly the dotted quads *)

Lemma loop_digit c src saw o t p x :
  is_dec c → t !! p = Some (Some x) → 0 <= x < 256 →
  pton4_loop (c :: src) saw o t p
  = if saw && (x =? 0) || (255 <? x * 10 + (c - 48)) then Val None
    else if negb saw && (4 <? o + 1) then Val None
    else pton4_loop src true (if saw then o else o + 1) (<[p:=Some (x * 10 + (c - 48))]> t) p.
Proof.
  intros [H1 H2] Hp Hx. cbn [pton4_loop].
  rewrite (proj2 (Z.leb_le _ _) H1), (proj2 (Z.leb_le _ _) H2). cbn [andb].
  unfold get4. rewrite Hp. cbn [mjoin option_join deref mbind outcome_bind].
  rewrite (wrapu_small 32) by (cbn; lia). destruct (saw && (x =? 0)); cbn [orb]; [done|].
  destruct (255 <? _); [done|]. unfold set4. apply lookup_lt_Some in Hp as Hlt.
  rewrite (proj2 (Nat.ltb_lt _ _) Hlt). cbn [mbind outcome_bind]. by destruct saw; cbn [negb andb].
Qed.

(** The text of an octet, read into a byte that is zero. *)
Lemma loop_octet b src o t p :
  0 <= b < 256 → t !! p = Some (Some 0) → o < 4 →
  pton4_loop (fmt_u b ++ src) false o t p = pton4_loop src true (o + 1) (<[p:=Some b]> t) p.
Proof.
  intros Hb Hp Ho. assert (p < length t)%nat as Hl by (by eapply lookup_lt_Some).
  destruct (fmt_u_byte b Hb) as [[H ->]|[(x & d & Hx & Hd & -> & ->)|(x & d & e & Hx & Hd & He & -> & ->)]];
    cbn [app]; repeat (erewrite loop_digit;
      [|unfold is_dec; lia|first [exact Hp|apply list_lookup_insert_eq; rewrite ?length_insert; exact Hl]|lia];
      cbn [andb negb]; zcase; cbn [andb orb]; try lia);
    rewrite ?list_insert_insert_eq; do 2 f_equal; f_equal; lia.
Qed.

Lemma loop_dot src o t p :
  o ≠ 4 → (S p < length t)%nat →
  pton4_loop (DOT :: src) true o t p = pton4_loop src false o (<[S p:=Some 0]> t) (S p).
Proof.
  intros Ho Hp. cbn [pton4_loop]. cbn. rewrite (proj2 (Z.eqb_neq _ _) Ho). unfold set4.
  by rewrite (proj2 (Nat.ltb_lt _ _) Hp).
Qed.

(** The array after the octets [bs], and with a fresh octet after them. *)
Definition filled (bs : list Z) : list (option Z) := (Some <$> bs) ++ replicate (4 - length bs) None.
Definition fresh4 (bs : list Z) : list (option Z) := (Some <$> bs) ++ Some 0 :: replicate (3 - length bs) None.

Lemma fresh4_lookup bs : fresh4 bs !! length bs = Some (Some 0).
Proof. unfold fresh4. rewrite lookup_app_r; rewrite length_fmap; [|lia]. by rewrite Nat.sub_diag. Qed.

Lemma fresh4_set bs b : (length bs < 4)%nat → <[length bs:=Some b]> (fresh4 bs) = filled (bs ++ [b]).
Proof.
  intros H. unfold fresh4, filled. rewrite insert_app_r_alt; rewrite length_fmap; [|lia]. rewrite Nat.sub_diag. cbn.
  rewrite fmap_app, length_app, <- (assoc (++)). cbn. do 3 f_equal. lia.
Qed.

Lemma filled_open bs b : (length bs < 3)%nat → <[S (length bs):=Some 0]> (filled (bs ++ [b])) = fresh4 (bs ++ [b]).
Proof.
  intros H. unfold fresh4, filled. rewrite insert_app_r_alt; rewrite length_fmap, length_app; cbn; [|lia].
  replace (S (length bs) - (length bs + 1))%nat with 0%nat by lia. f_equal.
  replace (4 - (length bs + 1))%nat with (S (3 - (length bs + 1))) by lia. done.
Qed.

Lemma length_filled bs : (length bs <= 4)%nat → length (filled bs) = 4%nat.
Proof. intros. unfold filled. rewrite length_app, length_fmap, length_replicate. lia. Qed.

(** The octets [bs] have been read, and [bs'] are left. *)
Lemma loop_quad bs bs' :
  bytes_ok bs' → bs' ≠ [] → (length bs + length bs' = 4)%nat →
  pton4_loop (quad bs') false (Z.of_nat (length bs)) (fresh4 bs) (length bs) = Val (Some (4, filled (bs ++ bs'))).
Proof.
  revert bs. induction bs' as [|b bs' IH]; intros bs Hok Hne Hl; [done|].
  apply bytes_ok_cons in Hok as [Hb Hok]. cbn [length] in Hl. unfold quad. destruct bs' as [|b' bs'].
  - cbn [fmap list_fmap sepby]. rewrite <- (app_nil_r (fmt_u b)), loop_octet by (done || lia || apply fresh4_lookup).
    rewrite fresh4_set by lia. cbn. do 3 f_equal. cbn in Hl. lia.
  - cbn [fmap list_fmap sepby].
    rewrite loop_octet by (done || (cbn in Hl; lia) || apply fresh4_lookup). cbn [length] in Hl.
    rewrite fresh4_set, loop_dot by (rewrite ?length_filled; rewrite ?length_app; cbn; lia). rewrite filled_open by lia.
    specialize (IH (bs ++ [b]) Hok ltac:(done)). rewrite length_app, <- (assoc (++)) in IH. cbn in IH.
    rewrite <- IH by lia. unfold quad. f_equal; [lia|lia].
Qed.

Lemma set4_first : set4 (replicate NS_INADDRSZ None) 0 0 = Val (fresh4 []).
Proof. done. Qed.

Lemma pton4_done bs dst off :
  length bs = 4%nat → (off + 4 <= length dst)%nat →
  (b0 ← get4 (filled bs) 0; b1 ← get4 (filled bs) 1; b2 ← get4 (filled bs) 2; b3 ← get4 (filled bs) 3;
   dst ← write_at dst off [b0; b1; b2; b3]; Val (1, dst))
  = Val (1, take off dst ++ bs ++ drop (off + 4) dst).
Proof.
  intros Hl Hd. destruct bs as [|b0 [|b1 [|b2 [|b3 [|]]]]]; try done. cbn. unfold write_at. cbn [length].
  by rewrite (proj2 (Nat.leb_le _ _) Hd).
Qed.

Lemma inet_pton4_quad bs dst off :
  bytes_ok bs → length bs = 4%nat → (off + 4 <= length dst)%nat →
  inet_pton4 (quad bs) dst off = Val (1, take off dst ++ bs ++ drop (off + 4) dst).
Proof.
  intros Hok Hl Hd. unfold inet_pton4. rewrite set4_first. cbn [mbind outcome_bind].
  assert (pton4_loop (quad bs) false 0 (fresh4 []) 0 = Val (Some (4, filled bs))) as ->
    by (apply (loop_quad [] bs); [done|by destruct bs|done]).
  cbn [mbind outcome_bind]. change (4 <? 4) with false. by apply pton4_done.
Qed.

(** The text read so far: complete octets and the current one, or complete
    octets and a dot. *)
Definition seen4 (saw : bool) (bs : list Z) : list Z := if saw then quad bs else ended DOT (fmt_u <$> bs).

Record state4 (saw : bool) (bs : list Z) (o : Z) (t : list (option Z)) (p : nat) : Prop := {
  s4_bytes : bytes_ok bs;
  s4_octets : o = Z.of_nat (length bs);
  s4_len : if saw then (0 < length bs <= 4)%nat else (length bs < 4)%nat;
  s4_tmp : t = if saw then filled bs else fresh4 bs;
  s4_tp : p = if saw then pred (length bs) else length bs
}.

Lemma quad_snoc bs b : quad (bs ++ [b]) = ended DOT (fmt_u <$> bs) ++ fmt_u b.
Proof. unfold quad. rewrite fmap_app. apply sepby_snoc. Qed.

Lemma filled_lookup bs b : filled (bs ++ [b]) !! length bs = Some (Some b).
Proof.
  unfold filled. rewrite fmap_app, <- (assoc (++)), lookup_app_r; rewrite length_fmap; [|lia].
  by rewrite Nat.sub_diag.
Qed.

Lemma filled_update bs b b' : <[length bs:=Some b']> (filled (bs ++ [b])) = filled (bs ++ [b']).
Proof.
  unfold filled. rewrite !fmap_app, !length_app, <- !(assoc (++)), insert_app_r_alt; rewrite length_fmap; [|lia].
  by rewrite Nat.sub_diag.
Qed.

(** A success of the loop means that the whole text is a dotted quad. *)
Definition accepts4 (text : list Z) (m : outcome (option (Z * list (option Z)))) : Prop :=
  ∃ r, m = Val r ∧ ∀ o t, r = Some (o, t) →
    o < 4 ∨ o = 4 ∧ ∃ bs, bytes_ok bs ∧ length bs = 4%nat ∧ t = filled bs ∧ text = quad bs.

Lemma seen4_digit bs b c : 0 < b < 256 → is_dec c →
  seen4 true (bs ++ [b * 10 + (c - 48)]) = seen4 true (bs ++ [b]) ++ [c].
Proof.
  unfold is_dec. intros Hb Hc. cbn [seen4]. rewrite !quad_snoc.
  replace (b * 10 + (c - 48)) with (10 * b + (c - 48)) by lia. rewrite fmt_u_snoc by lia.
  rewrite <- !(assoc (++)). do 3 f_equal. lia.
Qed.
Lemma seen4_first bs c : is_dec c → seen4 true (bs ++ [c - 48]) = seen4 false bs ++ [c].
Proof. unfold is_dec. intros Hc. cbn [seen4]. rewrite quad_snoc, fmt_u_small by lia. do 2 f_equal. lia. Qed.
Lemma seen4_dot bs b : seen4 false (bs ++ [b]) = seen4 true (bs ++ [b]) ++ [DOT].
Proof.
  cbn [seen4]. rewrite quad_snoc, fmap_app. cbn [fmap list_fmap]. by rewrite ended_snoc, <- !(assoc (++)).
Qed.

Lemma bytes_ok_snoc bs b : bytes_ok (bs ++ [b]) ↔ bytes_ok bs ∧ 0 <= b < 256.
Proof. unfold bytes_ok. rewrite Forall_app, Forall_singleton. done. Qed.

Lemma pton4_loop_sound src saw bs o t p :
  state4 saw bs o t p → accepts4 (seen4 saw bs ++ src) (pton4_loop src saw o t p).
Proof.
  revert saw bs o t p. induction src as [|c src IH]; intros saw bs o t p [Hok -> Hl -> ->].
  { eexists. split; [done|]. intros o' t' [= <- <-]. destruct saw; [|lia].
    destruct (decide (length bs = 4%nat)); [right|lia]. split; [lia|]. exists bs. by rewrite app_nil_r. }
  rewrite (cons_middle c), (assoc (++)).
  destruct (decide (is_dec c)) as [Hc|Hc]; [destruct saw|destruct (decide (c = DOT ∧ saw = true)) as [[-> ->]|Hd]].
  - destruct bs as [|b bs _] using rev_ind; [cbn in Hl; lia|]. rewrite length_app in *. cbn [length] in *.
    replace (pred (length bs + 1)) with (length bs) by lia. apply bytes_ok_snoc in Hok as [Hok Hb].
    rewrite (loop_digit _ _ _ _ _ _ b Hc (filled_lookup bs b) Hb). cbn [andb negb].
    destruct (Z.eqb_spec b 0), (Z.ltb_spec 255 (b * 10 + (c - 48))); cbn [orb]; [by eexists..|].
    rewrite filled_update, <- seen4_digit by (done || lia). unfold is_dec in Hc.
    apply IH. split; rewrite ?length_app, ?bytes_ok_snoc; cbn; first [done | lia | split; [done|lia]].
  - rewrite (loop_digit _ _ _ _ _ _ 0 Hc (fresh4_lookup bs)), <- seen4_first by (done || lia). cbn [andb negb orb].
    unfold is_dec in Hc. rewrite (Z.mul_0_l 10), (Z.add_0_l (c - 48)).
    destruct (Z.ltb_spec 255 (c - 48)); [lia|]. destruct (Z.ltb_spec 4 (Z.of_nat (length bs) + 1)); [lia|].
    rewrite fresh4_set by done.
    apply IH. split; rewrite ?length_app, ?bytes_ok_snoc; cbn [length]; first [done | lia | split; [done|lia]].
  - destruct (decide (length bs = 4%nat)) as [H4|H4].
    { exists None. split; [|done]. cbn. rewrite H4. done. }
    destruct bs as [|b bs _] using rev_ind; [cbn in Hl; lia|]. rewrite <- seen4_dot, length_app in *. cbn [length] in *.
    replace (pred (length bs + 1)) with (length bs) by lia.
    rewrite loop_dot by (rewrite ?length_filled; rewrite ?length_app; cbn; lia). rewrite filled_open by lia.
    apply IH. split; rewrite ?length_app; cbn; (done || lia).
  - exists None. split; [|done]. cbn [pton4_loop]. unfold is_dec in Hc.
    replace ((48 <=? c) && (c <=? 57)) with false by (zcase; cbn; lia).
    replace ((c =? DOT) && saw) with false; [done|]. destruct (Z.eqb_spec c DOT), saw; cbn; tauto.
Qed.

Definition is_quad (s : list Z) (bs : list Z) : Prop := bytes_ok bs ∧ length bs = 4%nat ∧ s = quad bs.

(** [inet_pton4] accepts exactly the dotted quads: four numbers up to 255
    without leading zeros between dots. Such a text gives 1 and its four bytes
    at the destination, any other text gives 0 and leaves the destination
    alone, and no byte of the temporary array is read before it is written. *)
Theorem inet_pton4_exact s dst off :
  (off + 4 <= length dst)%nat →
  (∃ bs, is_quad s bs ∧ inet_pton4 s dst off = Val (1, take off dst ++ bs ++ drop (off + 4) dst)) ∨
  ((∀ bs, ~ is_quad s bs) ∧ inet_pton4 s dst off = Val (0, dst)).
Proof.
  intros Hd. destruct (pton4_loop_sound s false [] 0 (fresh4 []) 0) as (r & E & Hr).
  { split; cbn; (done || lia || constructor). }
  assert (∀ v, inet_pton4 s dst off = Val v → v = (0, dst) →
    (∀ bs, ~ is_quad s bs) ∧ inet_pton4 s dst off = Val (0, dst)) as Hno.
  { intros v Ev ->. split; [|done]. intros bs (H1 & H2 & ->). by rewrite inet_pton4_quad in Ev. }
  unfold inet_pton4 in *. rewrite set4_first in *. cbn [mbind outcome_bind] in *. rewrite E in *.
  destruct r as [[o t]|]; cbn [mbind outcome_bind] in *; [|right; by eapply Hno].
  destruct (Hr o t eq_refl) as [Ho|(-> & bs & H1 & H2 & -> & Hq)].
  - rewrite (proj2 (Z.ltb_lt _ _) Ho) in *. right. by eapply Hno.
  - left. exists bs. split; [by split_and!|]. by apply pton4_done.
Qed.

Lemma inet_pton4_exact_witness :
  (∃ bs, is_quad $"192.168.0.255" bs ∧ inet_pton4 $"192.168.0.255" [1; 1; 1; 1; 1] 1
     = Val (1, [1] ++ bs ++ [])) ∨
  ((∀ bs, ~ is_quad $"192.168.0.255" bs) ∧ inet_pton4 $"192.168.0.255" [1; 1; 1; 1; 1] 1 = Val (0, [1; 1; 1; 1; 1])).
Proof. apply (inet_pton4_exact $"192.168.0.255" [1; 1; 1; 1; 1] 1). cbn. lia. Defined.
End Inet.
