(* ===== verification/Inet6.v ===== *)
(** * IPv6 addresses as text: correctness of [inet_pton6] and [inet_ntop6]

    The relation [ipv6_text] says which texts denote which addresses: eight
    groups, of which a dotted quad can stand for the last two, or fewer with
    two colons for the zeros left out.  The scanner accepts exactly these;
    the printer makes one of them, with the first longest run of zeros left
    out, and never writes past its temporary array. *)

From S2P Require Import Prelude CString Printf Inet.
Local Open Scope Z_scope.

Module Inet6.
Import CString Printf Inet.

(** ** The texts of RFC 4291 *)

Definition hex_value (h : list Z) : Z := foldl (λ v c, 16 * v + hex_digit_value c) 0 h.
Definition is_hex (c : Z) : Prop := 0 <= hex_digit_value c.

(** One to four hexadecimal digits, and the two bytes they stand for. *)
Definition group (h : list Z) : Prop := (1 <= length h <= 4)%nat ∧ Forall is_hex h.
Definition group_bytes (h : list Z) : list Z := [hex_value h / 256; hex_value h mod 256].

(** Groups, and possibly a dotted quad after them. *)
Record groups_ok (gs : list (list Z)) (q : option (list Z)) : Prop := {
  go_groups : Forall group gs;
  go_quad : ∀ bs, q = Some bs → bytes_ok bs ∧ length bs = 4%nat
}.
Definition pieces (gs : list (list Z)) (q : option (list Z)) : list (list Z) :=
  gs ++ match q with Some bs => [quad bs] | None => [] end.
Definition groups_text (gs : list (list Z)) (q : option (list Z)) : list Z := sepby COLON (pieces gs q).
Definition groups_bytes (gs : list (list Z)) (q : option (list Z)) : list Z :=
  mjoin (group_bytes <$> gs) ++ default [] q.

(** All sixteen bytes, or two colons for the zeros that are missing. *)
Inductive ipv6_text : list Z → list Z → Prop :=
  | ipv6_full gs q :
      groups_ok gs q → length (groups_bytes gs q) = 16%nat →
      ipv6_text (groups_text gs q) (groups_bytes gs q)
  | ipv6_short gs gs' q :
      groups_ok gs None → groups_ok gs' q →
      (length (groups_bytes gs None) + length (groups_bytes gs' q) < 16)%nat →
      ipv6_text (groups_text gs None ++ COLON :: COLON :: groups_text gs' q)
        (groups_bytes gs None
         ++ replicate (16 - length (groups_bytes gs None) - length (groups_bytes gs' q)) 0
         ++ groups_bytes gs' q).

(** ** The loop on well-formed text *)

(** The local variables when the bytes [bs] have been stored. *)
Definition at6 (bs : list Z) (c : option nat) (x : nat) (v : Z) : scan :=
  Scan (bs ++ replicate (16 - length bs) 0) (length bs) c x v.

Lemma hex_digit_bound c : hex_digit_value c < 16.
Proof. unfold hex_digit_value. zcase; cbn [andb]; lia. Qed.

Lemma hex_snoc h c : hex_value (h ++ [c]) = 16 * hex_value h + hex_digit_value c.
Proof. unfold hex_value. by rewrite foldl_app. Qed.

Lemma hex_bound h : Forall is_hex h → 0 <= hex_value h < 16 ^ Z.of_nat (length h).
Proof.
  induction h as [|c h IH] using rev_ind; [cbn; lia|]. intros [Hh [Hc _]%Forall_cons]%Forall_app.
  rewrite hex_snoc, length_app, Nat2Z.inj_add, Z.pow_add_r by lia. cbn [length Z.of_nat].
  specialize (IH Hh). unfold is_hex in Hc. pose proof (hex_digit_bound c). change (16 ^ 1) with 16. lia.
Qed.

Lemma loop6_digit c src cur t p col h :
  is_hex c → Forall is_hex h → (length h < 4)%nat →
  pton6_loop (c :: src) cur (Scan t p col (length h) (hex_value h))
  = pton6_loop src cur (Scan t p col (length (h ++ [c])) (hex_value (h ++ [c]))).
Proof.
  intros Hc Hh Hl. cbn [pton6_loop]. unfold is_hex in Hc. rewrite (proj2 (Z.leb_le _ _) Hc). cbn [xdigits_seen tmp tp colonp val].
  rewrite (proj2 (Nat.eqb_neq _ _)) by lia. pose proof (hex_bound h Hh) as Hv. pose proof (hex_digit_bound c).
  assert (16 ^ Z.of_nat (length h) <= 16 ^ 3) by (apply Z.pow_le_mono_r; lia). change (16 ^ 3) with 4096 in *.
  rewrite Z.shiftl_mul_pow2, wrapu_small by lia. rewrite lor_low by lia. change (2 ^ 4) with 16.
  destruct (Z.ltb_spec 65535 (hex_value h * 16 + hex_digit_value c)); [lia|].
  rewrite length_app, hex_snoc. cbn [length]. f_equal. f_equal; lia.
Qed.

Lemma loop6_group g src cur t p col h :
  Forall is_hex h → Forall is_hex g → (length h + length g <= 4)%nat →
  pton6_loop (g ++ src) cur (Scan t p col (length h) (hex_value h))
  = pton6_loop src cur (Scan t p col (length (h ++ g)) (hex_value (h ++ g))).
Proof.
  revert h. induction g as [|c g IH]; intros h Hh Hg Hl; [by rewrite app_nil_r|].
  apply Forall_cons in Hg as [Hc Hg]. cbn [length] in Hl. cbn [app]. rewrite loop6_digit by (done || lia).
  rewrite IH; [by rewrite <- (assoc (++))|apply Forall_app; by repeat constructor|done|rewrite length_app; cbn; lia].
Qed.

Lemma put_group_at6 bs c x h :
  Forall is_hex h → (length h <= 4)%nat → (length bs + 2 <= 16)%nat →
  put_group (at6 bs c x (hex_value h)) = Val (at6 (bs ++ group_bytes h) c x (hex_value h)).
Proof.
  intros Hh Hl Hb. pose proof (hex_bound h Hh) as Hv.
  assert (16 ^ Z.of_nat (length h) <= 16 ^ 4) by (apply Z.pow_le_mono_r; lia). change (16 ^ 4) with 65536 in *.
  unfold put_group, at6. cbn [tmp tp val colonp xdigits_seen].
  replace [Z.land (wrapu 8 (Z.shiftr (hex_value h) 8)) 255; Z.land (wrapu 8 (hex_value h)) 255] with (group_bytes h).
  2: { unfold group_bytes. change 255 with (Z.ones 8). rewrite !Z.land_ones, Z.shiftr_div_pow2 by lia. unfold wrapu.
       change (2 ^ 8) with 256. rewrite !Zmod_mod. f_equal. symmetry. apply Z.mod_small.
       split; [apply Z.div_pos; lia|apply Z.div_lt_upper_bound; lia]. }
  replace (replicate (16 - length bs) 0) with (replicate (length (group_bytes h)) 0 ++ replicate (16 - length (bs ++ group_bytes h)) 0).
  2: { rewrite <- replicate_add. f_equal. rewrite length_app. cbn. lia. }
  rewrite (write_at_mid bs _ _ (group_bytes h)) by (by rewrite length_replicate).
  cbn [mbind outcome_bind]. rewrite length_app, <- (assoc (++)). done.
Qed.

Lemma loop6_colon g rest cur bs c :
  group g → rest ≠ [] → (length bs + 2 <= 16)%nat →
  pton6_loop (COLON :: rest) cur (at6 bs c (length g) (hex_value g))
  = pton6_loop rest rest (at6 (bs ++ group_bytes g) c 0 0).
Proof.
  intros [Hg Hh] Hr Hb. cbn [pton6_loop]. change (0 <=? hex_digit_value COLON) with false. change (COLON =? COLON) with true.
  cbv iota. change (xdigits_seen (at6 bs c (length g) (hex_value g))) with (length g).
  change (tp (at6 bs c (length g) (hex_value g))) with (length bs).
  rewrite (proj2 (Nat.eqb_neq (length g) 0)) by lia.
  rewrite (proj2 (Nat.eqb_neq (length rest) 0)) by (by destruct rest).
  rewrite (proj2 (Nat.ltb_ge _ _)) by (unfold NS_IN6ADDRSZ, NS_INT16SZ; lia).
  rewrite put_group_at6 by (done || lia). done.
Qed.

Lemma group_ne g : group g → g ≠ [].
Proof. intros [H _] ->. cbn in H. lia. Qed.

Lemma loop6_one g src cur bs c :
  group g → pton6_loop (g ++ src) cur (at6 bs c 0 0) = pton6_loop src cur (at6 bs c (length g) (hex_value g)).
Proof. intros [H1 H2]. apply (loop6_group g src cur _ _ _ []); [done..|cbn; lia]. Qed.

Lemma loop6_ended gs rest bs c :
  Forall group gs → rest ≠ [] → (length bs + 2 * length gs <= 16)%nat →
  pton6_loop (ended COLON gs ++ rest) (ended COLON gs ++ rest) (at6 bs c 0 0)
  = pton6_loop rest rest (at6 (bs ++ mjoin (group_bytes <$> gs)) c 0 0).
Proof.
  intros Hgs Hr. revert bs. induction Hgs as [|g gs Hg _ IH]; intros bs Hl; [by rewrite app_nil_r|].
  cbn [length] in Hl. unfold ended. cbn. rewrite <- !(assoc (++)). rewrite loop6_one by done. cbn [app].
  rewrite loop6_colon; [|done|intros E; by apply app_nil in E as [_ ?]|lia].
  change (mjoin ((λ t, t ++ [COLON]) <$> gs)) with (ended COLON gs).
  rewrite IH by (rewrite length_app; cbn; lia). by rewrite <- (assoc (++)).
Qed.

Lemma fmt_u_hex b : 0 <= b < 256 → group (fmt_u b).
Proof.
  intros Hb. destruct (fmt_u_byte b Hb) as [[H ->]|[(x & d & Hx & Hd & _ & ->)|(x & d & e & Hx & Hd & He & _ & ->)]];
    (split; [cbn; lia|]); repeat constructor; unfold is_hex, hex_digit_value; zcase; cbn [andb]; lia.
Qed.

Lemma loop6_quad q bs c :
  bytes_ok q → length q = 4%nat → (length bs + 4 <= 16)%nat →
  ∃ v, pton6_loop (quad q) (quad q) (at6 bs c 0 0) = Val (Some (at6 (bs ++ q) c 0 v)).
Proof.
  intros Hq Hl Hb. assert (∃ rest, quad q = fmt_u (hd 0 q) ++ DOT :: rest) as [rest E].
  { destruct q as [|b0 [|b1 q]]; try done. by eexists. }
  assert (0 <= hd 0 q < 256) as Hh by (destruct q; [done|]; by apply bytes_ok_cons in Hq as [? _]).
  exists (hex_value (fmt_u (hd 0 q))).
  rewrite E at 1. rewrite loop6_one by (by apply fmt_u_hex). cbn [pton6_loop].
  change (0 <=? hex_digit_value DOT) with false. change (DOT =? COLON) with false. change (DOT =? DOT) with true.
  cbn [andb]. cbv iota. set (v := hex_value (fmt_u (hd 0 q))). set (x := length (fmt_u (hd 0 q))).
  change (tp (at6 bs c x v)) with (length bs). rewrite (proj2 (Nat.leb_le _ _)) by (unfold NS_IN6ADDRSZ, NS_INADDRSZ; lia).
  change (tmp (at6 bs c x v)) with (bs ++ replicate (16 - length bs) 0).
  rewrite inet_pton4_quad by (rewrite ?length_app, ?length_replicate; (done || lia)).
  cbn [mbind outcome_bind fst snd]. change (0 <? 1) with true. cbv iota. unfold at6. cbn [colonp val].
  rewrite take_app_length, drop_app_add, length_app, Hl, drop_replicate, (assoc (++)). by rewrite <- Nat.sub_add_distr.
Qed.

(** ** The end of [inet_pton6] *)

(** What is copied when [bs] are the bytes read and [c] the place of the two
    colons among them. *)
Definition close6 (bs : list Z) (c : option nat) (dst : list Z) : Z * list Z :=
  match c with
  | None => if (length bs =? 16)%nat then (1, bs ++ drop 16 dst) else (0, dst)
  | Some k =>
      if (length bs =? 16)%nat then (0, dst)
      else (1, (take k bs ++ replicate (16 - length bs) 0 ++ drop k bs) ++ drop 16 dst)
  end.

Lemma expand_at6 bs k :
  (k <= length bs < 16)%nat →
  expand (bs ++ replicate (16 - length bs) 0) (length bs) k
  = Val (take k bs ++ replicate (16 - length bs) 0 ++ drop k bs).
Proof.
  intros Hk. unfold expand, read_n, memset, NS_IN6ADDRSZ.
  assert (∃ a b, bs = a ++ b ∧ length a = k) as (a & b & -> & <-).
  { exists (take k bs), (drop k bs). rewrite take_drop, length_take. split; [done|lia]. }
  rewrite !length_app, <- !(assoc (++)), drop_app_length, !length_app, length_replicate in *.
  rewrite (proj2 (Nat.leb_le _ _)) by lia. cbn [mbind outcome_bind].
  replace (length a + length b - length a)%nat with (length b) by lia.
  rewrite take_app_length, take_app_length, drop_app_length.
  replace (16 - length b - length a)%nat with (16 - (length a + length b))%nat by lia.
  set (n := (16 - (length a + length b))%nat) in *. rewrite <- (assoc (++) a). set (R := b ++ replicate n 0).
  assert (length R = n + length b)%nat as HR by (unfold R; rewrite length_app, length_replicate; lia).
  assert (write_at (a ++ R) (16 - length b) b = Val (a ++ take n R ++ b)) as ->.
  { rewrite <- (take_drop n R) at 1. rewrite (assoc (++)).
    replace (16 - length b)%nat with (length (a ++ take n R)) by (rewrite length_app, length_take; lia).
    rewrite <- (app_nil_r (drop n R)), write_at_mid; rewrite ?app_nil_r; [by rewrite <- (assoc (++))|].
    rewrite length_drop. lia. }
  cbn [mbind outcome_bind]. apply write_at_mid. rewrite length_take, length_replicate. lia.
Qed.

Lemma end6_clean bs c v dst :
  (length bs <= 16)%nat → (∀ k, c = Some k → (k <= length bs)%nat) → (16 <= length dst)%nat →
  pton6_end (at6 bs c 0 v) dst = Val (close6 bs c dst).
Proof.
  intros Hb Hc Hd. unfold pton6_end. cbn [xdigits_seen at6 Nat.ltb Nat.leb mbind outcome_bind colonp tmp tp].
  unfold NS_IN6ADDRSZ. destruct c as [k|]; cbn [close6].
  - destruct (Nat.eqb_spec (length bs) 16) as [|Hne]; [done|]. specialize (Hc k eq_refl).
    rewrite expand_at6 by lia. cbn [mbind outcome_bind negb Nat.eqb]. unfold read_n, write_at.
    assert (length (take k bs ++ replicate (16 - length bs) 0 ++ drop k bs) = 16%nat) as Hl.
    { rewrite !length_app, length_take, length_drop, length_replicate. lia. }
    rewrite Hl. cbn [Nat.leb mbind outcome_bind]. rewrite take_ge by lia. rewrite Hl.
    rewrite (proj2 (Nat.leb_le _ _)) by lia. done.
  - cbn [mbind outcome_bind]. destruct (Nat.eqb_spec (length bs) 16) as [He|]; [|done]. cbn [negb].
    rewrite He, app_nil_r. unfold read_n, write_at. rewrite He. cbn [Nat.leb mbind outcome_bind]. rewrite take_ge by lia.
    rewrite He, (proj2 (Nat.leb_le _ _)) by lia. done.
Qed.

Lemma end6_group bs c g dst :
  group g → (length bs <= 16)%nat → (∀ k, c = Some k → (k <= length bs)%nat) → (16 <= length dst)%nat →
  pton6_end (at6 bs c (length g) (hex_value g)) dst
  = if (length bs + 2 <=? 16)%nat then Val (close6 (bs ++ group_bytes g) c dst) else Val (0, dst).
Proof.
  intros [Hg Hh] Hb Hc Hd. destruct (Nat.leb_spec (length bs + 2) 16) as [Hle|Hgt].
  - rewrite <- (end6_clean (bs ++ group_bytes g) c (hex_value g)); [|rewrite length_app; cbn; lia| |done].
    + unfold pton6_end at 1. change (xdigits_seen (at6 bs c (length g) (hex_value g))) with (length g).
      change (tp (at6 bs c (length g) (hex_value g))) with (length bs).
      rewrite (proj2 (Nat.ltb_lt _ _)) by lia. rewrite (proj2 (Nat.ltb_ge _ _)) by (unfold NS_IN6ADDRSZ, NS_INT16SZ; lia).
      rewrite put_group_at6 by (done || lia). done.
    + intros k Hk. specialize (Hc k Hk). rewrite length_app. lia.
  - unfold pton6_end. change (xdigits_seen (at6 bs c (length g) (hex_value g))) with (length g).
    change (tp (at6 bs c (length g) (hex_value g))) with (length bs).
    rewrite (proj2 (Nat.ltb_lt _ _)) by lia. rewrite (proj2 (Nat.ltb_lt _ _)) by (unfold NS_IN6ADDRSZ, NS_INT16SZ; lia).
    done.
Qed.

(** ** Every such text is accepted *)

Definition run6 (src cur : list Z) (s : scan) (dst : list Z) : outcome (Z * list Z) :=
  r ← pton6_loop src cur s;
  match r with None => Val (0, dst) | Some s => pton6_end s dst end.

Lemma quad_ne q : length q = 4%nat → quad q ≠ [].
Proof. destruct q as [|b0 [|b1 q]]; try done. intros _ E. unfold quad in E. cbn in E. by apply app_nil in E as [_ ?]. Qed.

Lemma length_group_bytes gs : length (mjoin (group_bytes <$> gs)) = (2 * length gs)%nat.
Proof.
  induction gs as [|g gs IH]; [done|].
  change (mjoin (group_bytes <$> g :: gs)) with (group_bytes g ++ mjoin (group_bytes <$> gs)).
  rewrite length_app, IH. cbn [length group_bytes]. lia.
Qed.

Lemma groups_bytes_none gs : groups_bytes gs None = mjoin (group_bytes <$> gs).
Proof. unfold groups_bytes. apply app_nil_r. Qed.

Lemma run6_groups gs q bs c dst :
  groups_ok gs q → (length bs + length (groups_bytes gs q) <= 16)%nat →
  (∀ k, c = Some k → (k <= length bs)%nat) → (16 <= length dst)%nat →
  run6 (groups_text gs q) (groups_text gs q) (at6 bs c 0 0) dst = Val (close6 (bs ++ groups_bytes gs q) c dst).
Proof.
  intros [Hgs Hq] Hl Hc Hd. unfold groups_text, pieces, run6.
  destruct q as [q|]; [|destruct gs as [|g gs _] using rev_ind].
  - destruct (Hq q eq_refl) as [Hok Hlq]. unfold groups_bytes in *. change (default [] (Some q)) with q in *. rewrite length_app, length_group_bytes in Hl.
    rewrite sepby_snoc, loop6_ended; [|done|by apply quad_ne|lia].
    destruct (loop6_quad q (bs ++ mjoin (group_bytes <$> gs)) c Hok Hlq) as [v ->].
    { rewrite length_app, length_group_bytes. lia. }
    cbn [mbind outcome_bind]. rewrite end6_clean, <- (assoc (++)); [done|..].
    + rewrite !length_app, length_group_bytes. lia.
    + intros k Hk. specialize (Hc k Hk). rewrite !length_app. lia.
    + done.
  - cbn [app sepby pton6_loop mbind outcome_bind]. change (groups_bytes [] None) with (@nil Z).
    rewrite app_nil_r. apply (end6_clean bs c 0); [cbn in Hl; lia|done..].
  - apply Forall_app in Hgs as [Hgs [Hg _]%Forall_cons]. rewrite groups_bytes_none, length_group_bytes, length_app in Hl.
    cbn [length] in Hl. rewrite app_nil_r, sepby_snoc, loop6_ended; [|done|by apply group_ne|lia].
    rewrite <- (app_nil_r g) at 1. rewrite loop6_one by done. cbn [pton6_loop mbind outcome_bind].
    rewrite end6_group; [|done|rewrite length_app, length_group_bytes; lia| |done].
    + rewrite length_app, length_group_bytes, (proj2 (Nat.leb_le _ _)) by lia.
      rewrite groups_bytes_none, fmap_app, join_app, <- (assoc (++)). cbn [fmap list_fmap mjoin list_join]. by rewrite app_nil_r.
    + intros k Hk. specialize (Hc k Hk). rewrite length_app. lia.
Qed.

Lemma group_head g : group g → ∃ c g', g = c :: g' ∧ c ≠ COLON.
Proof. intros [Hl Hh]. destruct g as [|c g]; [cbn in Hl; lia|]. exists c, g. split; [done|]. intros ->. by apply Forall_cons in Hh as [? _]. Qed.

(** A text that starts with a group or a quad. *)
Lemma groups_head gs q rest :
  groups_ok gs q → gs ≠ [] ∨ q ≠ None → ∃ c s, groups_text gs q ++ rest = c :: s ∧ c ≠ COLON.
Proof.
  intros [Hgs Hq] Hne. unfold groups_text, pieces. assert (∀ g ts, group g → ∃ c s, sepby COLON (g :: ts) ++ rest = c :: s ∧ c ≠ COLON) as H.
  { intros g ts (c & g' & -> & Hc)%group_head. destruct ts; cbn; eauto. }
  destruct gs as [|g gs].
  - destruct q as [q|]; [|by destruct Hne]. destruct (Hq q eq_refl) as [Hok Hlq]. cbn [app].
    destruct q as [|b0 [|b1 q]]; try done. apply bytes_ok_cons in Hok as [Hb _].
    destruct (group_head _ (fmt_u_hex b0 Hb)) as (c & g' & E & Hc). unfold quad. cbn [sepby fmap list_fmap].
    rewrite E. cbn [app]. eauto.
  - apply Forall_cons in Hgs as [Hg _]. by apply H.
Qed.

Lemma inet_pton6_run c s dst : c ≠ COLON → inet_pton6 (c :: s) dst = run6 (c :: s) (c :: s) (at6 [] None 0 0) dst.
Proof. intros Hc. unfold inet_pton6. by rewrite (proj2 (Z.eqb_neq _ _) Hc). Qed.

Lemma inet_pton6_colons s dst :
  inet_pton6 (COLON :: COLON :: s) dst = run6 s s (at6 [] (Some 0%nat) 0 0) dst.
Proof. done. Qed.

Lemma run6_colons s cur bs dst :
  run6 (COLON :: s) cur (at6 bs None 0 0) dst = run6 s s (at6 bs (Some (length bs)) 0 0) dst.
Proof. done. Qed.

Lemma inet_pton6_complete s a dst :
  ipv6_text s a → (16 <= length dst)%nat → inet_pton6 s dst = Val (1, a ++ drop 16 dst).
Proof.
  intros [gs q Hok Hl|gs gs' q Hok Hok' Hl] Hd.
  - destruct (groups_head gs q [] Hok) as (c & s' & E & Hc).
    { destruct gs; [right|by left]. intros ->. done. }
    rewrite app_nil_r in E. rewrite E, inet_pton6_run, <- E, run6_groups by (done || (cbn; lia)).
    cbn [app close6]. by rewrite Hl.
  - assert (run6 (groups_text gs' q) (groups_text gs' q) (at6 (groups_bytes gs None) (Some (length (groups_bytes gs None))) 0 0) dst
      = Val (1, (groups_bytes gs None ++ replicate (16 - length (groups_bytes gs None) - length (groups_bytes gs' q)) 0
         ++ groups_bytes gs' q) ++ drop 16 dst)) as Hrun.
    { rewrite run6_groups; [|done|lia|by intros k [= <-]|done]. cbn [close6]. rewrite length_app.
      rewrite (proj2 (Nat.eqb_neq _ _)) by lia. rewrite take_app_length, drop_app_length.
      by rewrite Nat.sub_add_distr. }
    destruct gs as [|g gs0 _] using rev_ind; [exact Hrun|].
    destruct (groups_head (gs0 ++ [g]) None (COLON :: COLON :: groups_text gs' q) Hok) as (c & s' & E & Hc); [left; by destruct gs0|].
    rewrite E, inet_pton6_run, <- E by done. destruct Hok as [Hgs _]. rewrite groups_bytes_none, length_group_bytes in Hl.
    assert (groups_text (gs0 ++ [g]) None ++ COLON :: COLON :: groups_text gs' q
      = ended COLON (gs0 ++ [g]) ++ COLON :: groups_text gs' q) as ->.
    { unfold groups_text at 1, pieces. by rewrite app_nil_r, sepby_snoc, ended_snoc, <- !(assoc (++)). }
    rewrite <- Hrun. unfold run6 at 1. rewrite loop6_ended by (done || (cbn; lia)).
    rewrite groups_bytes_none. apply run6_colons.
Qed.

(** ** Nothing else is accepted *)

(** The first of two leading colons is skipped before the loop. *)
Definition skipped (lead : bool) : list Z := if lead then [COLON] else [].
Definition bytes_of (gs : list (list Z)) : list Z := mjoin (group_bytes <$> gs).

(** What has been read and what is left, before and after two colons. *)
Inductive inv6 : bool → list Z → list Z → list Z → scan → Prop :=
  | inv_plain gs h src :
      Forall group gs → Forall is_hex h → (length h <= 4)%nat → (length gs <= 8)%nat →
      (h = [] → ∃ c src', src = c :: src' ∧ (gs = [] → c ≠ COLON)) →
      inv6 false (ended COLON gs ++ h) src (h ++ src) (at6 (bytes_of gs) None (length h) (hex_value h))
  | inv_colons lead gs gs' h src :
      Forall group gs → Forall group gs' → Forall is_hex h → (length h <= 4)%nat →
      (length gs + length gs' <= 8)%nat → (gs = [] ↔ lead = true) → (h = [] → gs' = [] ∨ src ≠ []) →
      inv6 lead (ended COLON gs ++ COLON :: ended COLON gs' ++ h) src (h ++ src)
        (at6 (bytes_of gs ++ bytes_of gs') (Some (length (bytes_of gs))) (length h) (hex_value h)).

Definition sound6 (lead : bool) (text dst : list Z) (m : outcome (Z * list Z)) : Prop :=
  m = Val (0, dst) ∨ ∃ a, ipv6_text (skipped lead ++ text) a ∧ m = Val (1, a ++ drop 16 dst).

Lemma bytes_of_snoc gs g : bytes_of (gs ++ [g]) = bytes_of gs ++ group_bytes g.
Proof. unfold bytes_of. rewrite fmap_app, join_app. cbn [fmap list_fmap mjoin list_join]. by rewrite app_nil_r. Qed.

Lemma length_bytes_of gs : length (bytes_of gs) = (2 * length gs)%nat.
Proof. apply length_group_bytes. Qed.

Lemma colons_text lead gs x :
  (gs = [] ↔ lead = true) →
  skipped lead ++ ended COLON gs ++ COLON :: x = groups_text gs None ++ COLON :: COLON :: x.
Proof.
  intros H. unfold groups_text, pieces. rewrite app_nil_r. destruct gs as [|g gs _] using rev_ind.
  - by rewrite (proj1 H eq_refl).
  - destruct lead; [pose proof (proj2 H eq_refl) as E; by apply app_nil in E as [_ ?]|].
    cbn [skipped app]. by rewrite ended_snoc, sepby_snoc, <- !(assoc (++)).
Qed.

Lemma ok_none gs : Forall group gs → groups_ok gs None.
Proof. by split. Qed.

(** The results of [close6] are those of texts. *)
Lemma close6_plain gs q dst :
  groups_ok gs q → sound6 false (groups_text gs q) dst (Val (close6 (groups_bytes gs q) None dst)).
Proof.
  intros Hok. cbn [close6]. destruct (Nat.eqb_spec (length (groups_bytes gs q)) 16); [right|by left].
  eexists. split; [by apply ipv6_full|done].
Qed.

Lemma close6_colons lead gs gs' q dst :
  Forall group gs → groups_ok gs' q → (gs = [] ↔ lead = true) →
  (length (bytes_of gs) + length (groups_bytes gs' q) <= 16)%nat →
  sound6 lead (ended COLON gs ++ COLON :: groups_text gs' q) dst
    (Val (close6 (bytes_of gs ++ groups_bytes gs' q) (Some (length (bytes_of gs))) dst)).
Proof.
  intros Hgs Hok Hlead Hl. cbn [close6]. rewrite length_app.
  destruct (Nat.eqb_spec (length (bytes_of gs) + length (groups_bytes gs' q)) 16); [by left|right].
  eexists. split.
  - rewrite colons_text by done. apply ipv6_short; [by apply ok_none|done|]. rewrite groups_bytes_none. fold (bytes_of gs). lia.
  - rewrite take_app_length, drop_app_length, groups_bytes_none, Nat.sub_add_distr. done.
Qed.

Lemma hex_group h : Forall is_hex h → (length h <= 4)%nat → h ≠ [] → group h.
Proof. intros H1 H2 H3. split; [|done]. destruct h; [done|cbn in *; lia]. Qed.

Lemma text_snoc gs h : ended COLON gs ++ h = groups_text (gs ++ [h]) None.
Proof. unfold groups_text, pieces. by rewrite app_nil_r, sepby_snoc. Qed.

Lemma text_quad gs q : ended COLON gs ++ quad q = groups_text gs (Some q).
Proof. unfold groups_text, pieces. by rewrite sepby_snoc. Qed.

(** The end of the text. *)
Lemma sound6_end lead seen cur s dst :
  inv6 lead seen [] cur s → (16 <= length dst)%nat → sound6 lead (seen ++ []) dst (pton6_end s dst).
Proof.
  intros H Hd. rewrite app_nil_r. remember [] as src eqn:Es in H. destruct H as [gs h src H1 H2 H3 H4 H5|lead gs gs' h src H1 H2 H3 H4 H5 H6 H7]; subst src.
  - assert (h ≠ []) as Hne by (intros E; by destruct (H5 E) as (? & ? & ? & _)).
    rewrite end6_group; [|by apply hex_group|rewrite length_bytes_of; lia|done|done].
    destruct (_ <=? 16)%nat; [|by left]. rewrite text_snoc, <- bytes_of_snoc. unfold bytes_of. rewrite <- groups_bytes_none.
    apply close6_plain, ok_none, Forall_app. split; [done|]. constructor; [by apply hex_group|constructor].
  - destruct (decide (h = [])) as [->|Hne].
    + destruct (H7 eq_refl) as [->|]; [|done]. cbn [length]. rewrite !app_nil_r.
      rewrite end6_clean; [|rewrite length_bytes_of; lia|by intros k [= <-]|done].
      rewrite <- (app_nil_r (bytes_of gs)) at 1. apply (close6_colons lead gs [] None); [done|by apply ok_none|done|].
      cbn. rewrite length_bytes_of. lia.
    + rewrite end6_group; [|by apply hex_group|rewrite length_app, !length_bytes_of; lia
        |intros k [= <-]; rewrite length_app; lia|done].
      destruct (Nat.leb_spec (length (bytes_of gs ++ bytes_of gs') + 2) 16) as [Hle|]; [|by left].
      rewrite (text_snoc gs' h), <- (assoc (++)), <- bytes_of_snoc. unfold bytes_of at 2. rewrite <- groups_bytes_none.
      apply close6_colons; [done| |done|].
      * apply ok_none, Forall_app. split; [done|]. constructor; [by apply hex_group|constructor].
      * rewrite length_app, !length_bytes_of in Hle. rewrite groups_bytes_none, length_group_bytes, length_app, length_bytes_of. cbn. lia.
Qed.

(** A colon. *)
Lemma loop6_colon_no g rest cur bs c :
  group g → rest = [] ∨ (16 < length bs + 2)%nat →
  pton6_loop (COLON :: rest) cur (at6 bs c (length g) (hex_value g)) = Val None.
Proof.
  intros [Hg _] Hr. cbn [pton6_loop]. change (0 <=? hex_digit_value COLON) with false. change (COLON =? COLON) with true.
  cbv iota. change (xdigits_seen (at6 bs c (length g) (hex_value g))) with (length g).
  change (tp (at6 bs c (length g) (hex_value g))) with (length bs).
  rewrite (proj2 (Nat.eqb_neq (length g) 0)) by lia. destruct Hr as [->|Hr]; [done|].
  rewrite (proj2 (Nat.ltb_lt _ _)) by (unfold NS_IN6ADDRSZ, NS_INT16SZ; lia). by destruct (_ =? 0)%nat.
Qed.

Lemma loop6_colon_cases g src cur bs c :
  group g →
  pton6_loop (COLON :: src) cur (at6 bs c (length g) (hex_value g)) = Val None ∨
  src ≠ [] ∧ (length bs + 2 <= 16)%nat ∧
  pton6_loop (COLON :: src) cur (at6 bs c (length g) (hex_value g))
  = pton6_loop src src (at6 (bs ++ group_bytes g) c 0 0).
Proof.
  intros Hg. destruct (decide (src = [])) as [->|Hs]; [left; apply loop6_colon_no; auto|].
  destruct (decide (16 < length bs + 2)%nat); [left; apply loop6_colon_no; auto|].
  right. split_and!; [done|lia|]. apply loop6_colon; (done || lia).
Qed.

Lemma groups_snoc gs g : Forall group gs → group g → Forall group (gs ++ [g]).
Proof. intros H Hg. apply Forall_app. split; [done|]. by apply Forall_singleton. Qed.

Lemma sound6_colon lead seen src cur s :
  inv6 lead seen (COLON :: src) cur s →
  pton6_loop (COLON :: src) cur s = Val None ∨
  ∃ s', pton6_loop (COLON :: src) cur s = pton6_loop src src s' ∧ inv6 lead (seen ++ [COLON]) src src s'.
Proof.
  intros H. remember (COLON :: src) as src0 eqn:Es in H.
  destruct H as [gs h src0 H1 H2 H3 H4 H5|lead gs gs' h src0 H1 H2 H3 H4 H5 H6 H7]; subst src0;
    (destruct (decide (h = [])) as [->|Hne]).
  - right. destruct (H5 eq_refl) as (c & src' & [= <- <-] & Hc).
    exists (at6 (bytes_of gs) (Some (length (bytes_of gs))) 0 0). split; [done|]. rewrite app_nil_r.
    rewrite <- (app_nil_r (bytes_of gs)) at 1.
    apply (inv_colons false gs [] []); try done; [cbn; lia..|split; [intros E; by destruct (Hc E)|done]|by left].
  - apply hex_group in Hne as Hg; [|done..].
    destruct (loop6_colon_cases h src (h ++ COLON :: src) (bytes_of gs) None Hg) as [|(Hs & Hl & E)]; [by left|right].
    eexists. split; [exact E|]. rewrite <- bytes_of_snoc, <- (assoc (++)), <- ended_snoc, <- (app_nil_r (ended _ _)).
    rewrite length_bytes_of in Hl.
    apply (inv_plain (gs ++ [h]) []); [by apply groups_snoc|done|cbn; lia|rewrite length_app; cbn; lia|].
    intros _. destruct src as [|c src]; [done|]. exists c, src. split; [done|]. intros E'. by apply app_nil in E' as [_ ?].
  - left. done.
  - apply hex_group in Hne as Hg; [|done..].
    destruct (loop6_colon_cases h src (h ++ COLON :: src) (bytes_of gs ++ bytes_of gs') (Some (length (bytes_of gs))) Hg) as [|(Hs & Hl & E)]; [by left|right].
    eexists. split; [exact E|]. rewrite <- (assoc (++) (bytes_of gs)), <- bytes_of_snoc.
    rewrite length_app, !length_bytes_of in Hl.
    replace ((ended COLON gs ++ COLON :: ended COLON gs' ++ h) ++ [COLON])
      with (ended COLON gs ++ COLON :: ended COLON (gs' ++ [h]) ++ [])
      by (rewrite app_nil_r, ended_snoc, <- !(assoc (++)); cbn; by rewrite <- !(assoc (++))).
    apply (inv_colons lead gs (gs' ++ [h]) []); try done; [by apply groups_snoc|cbn; lia|rewrite length_app; cbn; lia|by right].
Qed.

(** A digit. *)
Lemma sound6_digit lead seen c src cur s :
  inv6 lead seen (c :: src) cur s → is_hex c →
  pton6_loop (c :: src) cur s = Val None ∨
  ∃ s', pton6_loop (c :: src) cur s = pton6_loop src cur s' ∧ inv6 lead (seen ++ [c]) src cur s'.
Proof.
  intros H Hc. remember (c :: src) as src0 eqn:Es in H.
  destruct H as [gs h src0 H1 H2 H3 H4 H5|lead gs gs' h src0 H1 H2 H3 H4 H5 H6 H7]; subst src0;
    (destruct (decide (length h = 4%nat)) as [E4|N4];
      [left; cbn [pton6_loop at6 xdigits_seen]; rewrite (proj2 (Z.leb_le _ _) Hc), E4; done|right]);
    (eexists; split; [apply loop6_digit; (done || lia)|]).
  - rewrite <- (assoc (++)), (cons_middle c h src), (assoc (++) h [c] src).
    apply inv_plain; [done|apply Forall_app; by repeat constructor|rewrite length_app; cbn; lia|done|].
    intros E. by apply app_nil in E as [_ ?].
  - rewrite (cons_middle c h src), (assoc (++) h [c] src).
    replace ((ended COLON gs ++ COLON :: ended COLON gs' ++ h) ++ [c]) with (ended COLON gs ++ COLON :: ended COLON gs' ++ (h ++ [c]))
      by (rewrite <- !(assoc (++)); cbn; by rewrite <- !(assoc (++))).
    apply inv_colons; try done; [apply Forall_app; by repeat constructor|rewrite length_app; cbn; lia|].
    intros E. by apply app_nil in E as [_ ?].
Qed.

(** A dot, or another character. *)
Lemma loop6_other c src cur bs col x v :
  ~ is_hex c → c ≠ COLON → (length bs <= 16)%nat →
  pton6_loop (c :: src) cur (at6 bs col x v) = Val None ∨
  ∃ q, is_quad cur q ∧ (length bs + 4 <= 16)%nat ∧
    pton6_loop (c :: src) cur (at6 bs col x v) = Val (Some (at6 (bs ++ q) col 0 v)).
Proof.
  intros Hh Hc Hb. cbn [pton6_loop]. destruct (Z.leb_spec 0 (hex_digit_value c)); [done|].
  rewrite (proj2 (Z.eqb_neq _ _) Hc). change (tp (at6 bs col x v)) with (length bs).
  change (tmp (at6 bs col x v)) with (bs ++ replicate (16 - length bs) 0). unfold NS_IN6ADDRSZ, NS_INADDRSZ.
  destruct ((c =? DOT) && (length bs + 4 <=? 16)%nat) eqn:E; [|by left].
  apply andb_true_iff in E as [_ Hl%Nat.leb_le].
  destruct (inet_pton4_exact cur (bs ++ replicate (16 - length bs) 0) (length bs)) as [(q & Hq & ->)|(_ & ->)].
  - rewrite length_app, length_replicate. lia.
  - right. exists q. split_and!; [done|lia|]. destruct Hq as (_ & Hlq & _). cbn [mbind outcome_bind fst snd].
    change (0 <? 1) with true. cbv iota. unfold at6. cbn [colonp val].
    rewrite take_app_length, drop_app_add, length_app, Hlq, drop_replicate, (assoc (++)).
    by rewrite <- Nat.sub_add_distr.
  - left. done.
Qed.

Lemma sound6_other lead seen c src cur s dst :
  inv6 lead seen (c :: src) cur s → ~ is_hex c → c ≠ COLON → (16 <= length dst)%nat →
  sound6 lead (seen ++ c :: src) dst (run6 (c :: src) cur s dst).
Proof.
  intros H Hh Hc Hd. unfold run6. remember (c :: src) as src0 eqn:Es in H |- *.
  destruct H as [gs h src0 H1 H2 H3 H4 H5|lead gs gs' h src0 H1 H2 H3 H4 H5 H6 H7]; subst src0.
  - destruct (loop6_other c src (h ++ c :: src) (bytes_of gs) None (length h) (hex_value h) Hh Hc) as [->|(q & (Hq1 & Hq2 & Hq) & Hl & ->)];
      [rewrite length_bytes_of; lia|by left|]. cbn [mbind outcome_bind].
    rewrite end6_clean by (rewrite ?length_app; (done || lia)). rewrite <- (assoc (++)), Hq, text_quad.
    change (bytes_of gs ++ q) with (groups_bytes gs (Some q)). apply close6_plain. split; [done|]. by intros ? [= <-].
  - destruct (loop6_other c src (h ++ c :: src) (bytes_of gs ++ bytes_of gs') (Some (length (bytes_of gs))) (length h) (hex_value h) Hh Hc)
      as [->|(q & (Hq1 & Hq2 & Hq) & Hl & ->)]; [rewrite length_app, !length_bytes_of; lia|by left|]. cbn [mbind outcome_bind].
    rewrite length_app in Hl.
    rewrite end6_clean; [|rewrite !length_app; lia|intros k [= <-]; rewrite !length_app; lia|done].
    replace ((ended COLON gs ++ COLON :: ended COLON gs' ++ h) ++ c :: src) with (ended COLON gs ++ COLON :: ended COLON gs' ++ quad q)
      by (rewrite <- Hq, <- !(assoc (++)); cbn; by rewrite <- !(assoc (++))).
    rewrite text_quad, <- (assoc (++)). change (bytes_of gs' ++ q) with (groups_bytes gs' (Some q)).
    apply close6_colons; [done|split; [done|by intros ? [= <-]]|done|].
    change (groups_bytes gs' (Some q)) with (bytes_of gs' ++ q). rewrite length_app. lia.
Qed.

Lemma run6_sound src lead seen cur s dst :
  inv6 lead seen src cur s → (16 <= length dst)%nat → sound6 lead (seen ++ src) dst (run6 src cur s dst).
Proof.
  intros H Hd. revert seen cur s H. induction src as [|c src IH]; intros seen cur s H; [by eapply sound6_end|].
  assert (∀ cur' s', pton6_loop (c :: src) cur s = pton6_loop src cur' s' → inv6 lead (seen ++ [c]) src cur' s' →
    sound6 lead (seen ++ c :: src) dst (run6 (c :: src) cur s dst)) as Hstep.
  { intros cur' s' E H'. rewrite (cons_middle c), (assoc (++)). unfold run6. rewrite E. by apply IH. }
  assert (pton6_loop (c :: src) cur s = Val None → sound6 lead (seen ++ c :: src) dst (run6 (c :: src) cur s dst)) as Hstop.
  { intros E. left. unfold run6. by rewrite E. }
  destruct (decide (0 <= hex_digit_value c)) as [Hc|Hc].
  - destruct (sound6_digit lead seen c src cur s H Hc) as [|(s' & E & H')]; eauto.
  - destruct (decide (c = COLON)) as [->|Hne]; [|by apply sound6_other].
    destruct (sound6_colon lead seen src cur s H) as [|(s' & E & H')]; eauto.
Qed.

Lemma inet_pton6_sound s dst :
  (16 <= length dst)%nat →
  inet_pton6 s dst = Val (0, dst) ∨ ∃ a, ipv6_text s a ∧ inet_pton6 s dst = Val (1, a ++ drop 16 dst).
Proof.
  intros Hd. destruct s as [|c s]; [by left|]. destruct (decide (c = COLON)) as [->|Hc].
  - destruct s as [|c s]; [by left|]. destruct (decide (c = COLON)) as [->|Hc].
    + rewrite inet_pton6_colons. apply (run6_sound s true [COLON] s (at6 [] (Some 0%nat) 0 0) dst); [|done].
      apply (inv_colons true [] [] []); try done; [cbn; lia..|by left].
    + left. cbn. by rewrite (proj2 (Z.eqb_neq _ _) Hc).
  - rewrite inet_pton6_run by done. apply (run6_sound (c :: s) false [] (c :: s) (at6 [] None 0 0) dst); [|done].
    apply (inv_plain [] []); try done; [cbn; lia..|]. intros _. eauto.
Qed.

(** [inet_pton6] accepts exactly the texts of RFC 4291, as the relation
    [ipv6_text] states them without reference to the scanner (eight groups of
    one to four hexadecimal digits, a dotted quad for the last two, one pair of
    colons for a non-empty run of zeros): it then returns 1 and stores the
    address the text denotes, and on any other text it returns 0 and does not
    touch the destination. *)
Theorem inet_pton6_exact s dst :
  (16 <= length dst)%nat →
  (∃ a, ipv6_text s a ∧ inet_pton6 s dst = Val (1, a ++ drop 16 dst)) ∨
  ((∀ a, ~ ipv6_text s a) ∧ inet_pton6 s dst = Val (0, dst)).
Proof.
  intros Hd. destruct (inet_pton6_sound s dst Hd) as [E|]; [right|by left]. split; [|done].
  intros a Ha. by rewrite (inet_pton6_complete s a dst Ha Hd) in E.
Qed.

Lemma inet_pton6_exact_witness :
  (∃ a, ipv6_text $"fe80::1:192.0.2.1" a ∧ inet_pton6 $"fe80::1:192.0.2.1" (replicate 17 9) = Val (1, a ++ [9])) ∨
  ((∀ a, ~ ipv6_text $"fe80::1:192.0.2.1" a) ∧ inet_pton6 $"fe80::1:192.0.2.1" (replicate 17 9) = Val (0, replicate 17 9)).
Proof. apply (inet_pton6_exact $"fe80::1:192.0.2.1" (replicate 17 9)). cbn. lia. Defined.

(** ** Hexadecimal numerals *)

Lemma hex_char_value d : 0 <= d < 16 → hex_digit_value (hex_char d) = d.
Proof. intros Hd. unfold hex_char, hex_digit_value. zcase; cbn [andb]; lia. Qed.

Lemma fmt_x_snoc x d : 0 < x < 2 ^ 20 → 0 <= d < 16 → fmt_x (16 * x + d) = fmt_x x ++ [hex_char d].
Proof. intros Hx Hd. unfold fmt_x. rewrite udigits_snoc by lia. by rewrite fmap_app. Qed.

Lemma fmt_x_digits k w :
  (k <= 4)%nat → 0 <= w < 16 ^ Z.of_nat k → (0 < k)%nat →
  (1 <= length (fmt_x w) <= k)%nat ∧ Forall is_hex (fmt_x w) ∧ hex_value (fmt_x w) = w.
Proof.
  revert w. induction k as [|k IH]; intros w Hk Hw Hpos; [lia|].
  destruct (decide (w < 16)) as [Hs|Hs].
  - unfold fmt_x. rewrite udigits_small by lia. cbn. rewrite hex_char_value by lia.
    split_and!; [lia..| |lia]. constructor; [|constructor]. unfold is_hex. rewrite hex_char_value; lia.
  - pose proof (Z.div_mod w 16 ltac:(lia)) as E. pose proof (Z.mod_pos_bound w 16 ltac:(lia)) as Hm.
    assert (1 <= w / 16) by (apply Z.div_le_lower_bound; lia).
    rewrite Nat2Z.inj_succ, Z.pow_succ_r in Hw by lia.
    assert (w / 16 < 16 ^ Z.of_nat k) by (apply Z.div_lt_upper_bound; lia).
    assert (16 ^ Z.of_nat k <= 16 ^ 4) by (apply Z.pow_le_mono_r; lia). change (16 ^ 4) with 65536 in *.
    assert (0 < k)%nat as Hk0 by (destruct k; [cbn in *; lia|lia]).
    destruct (IH (w / 16)) as (I1 & I2 & I3); [lia|lia|done|].
    rewrite E, fmt_x_snoc, length_app, hex_snoc, I3, hex_char_value by lia. cbn [length]. split_and!; [lia..| |lia].
    apply Forall_app. split; [done|]. constructor; [|constructor]. unfold is_hex. rewrite hex_char_value; lia.
Qed.

Lemma fmt_x_group w : 0 <= w < 65536 → group (fmt_x w) ∧ hex_value (fmt_x w) = w.
Proof. intros Hw. destruct (fmt_x_digits 4 w) as (H1 & H2 & H3); [lia|cbn; lia|lia|]. done. Qed.

(** ** Words *)

Lemma bytes_of_cons g gs : bytes_of (g :: gs) = group_bytes g ++ bytes_of gs.
Proof. done. Qed.
Lemma bytes_of_app gs gs' : bytes_of (gs ++ gs') = bytes_of gs ++ bytes_of gs'.
Proof. unfold bytes_of. by rewrite fmap_app, join_app. Qed.

Lemma to_words_bytes bs :
  bytes_ok bs → Nat.Even (length bs) →
  Forall (λ w, 0 <= w < 65536) (to_words bs) ∧ bytes_of (fmt_x <$> to_words bs) = bs ∧
  length bs = (2 * length (to_words bs))%nat.
Proof.
  intros Hok [n Hn]. revert bs Hok Hn. induction n as [|n IH]; intros bs Hok Hn; [by destruct bs|].
  destruct bs as [|b0 [|b1 bs]]; cbn in Hn; try lia. apply bytes_ok_cons in Hok as [H0 [H1 Hok]%bytes_ok_cons].
  destruct (IH bs Hok) as (I1 & I2 & I3); [lia|]. cbn [to_words].
  rewrite Z.lor_comm, lor_byte by done.
  destruct (fmt_x_group (b1 + 256 * b0)) as [_ Hv]; [lia|]. split_and!.
  - constructor; [lia|done].
  - rewrite fmap_cons, bytes_of_cons, I2.
    unfold group_bytes. rewrite Hv. cbn [app]. f_equal; [|f_equal].
    + symmetry. apply Z.div_unique_pos with b1; lia.
    + symmetry. apply Z.mod_unique_pos with b0; lia.
  - cbn [length]. lia.
Qed.

(** ** The run of zeros that is left out *)

Definition zeros_at (ws : list Z) (i n : nat) : Prop :=
  (i + n <= length ws)%nat ∧ Forall (λ w, w = 0) (take n (drop i ws)).

(** The first of the longest runs of at least two zeros, if there is one. *)
Definition first_longest (ws : list Z) (r : run) : Prop :=
  (base r = -1 ∧ ∀ i n, zeros_at ws i n → (n < 2)%nat) ∨
  (∃ b l, base r = Z.of_nat b ∧ len r = Z.of_nat l ∧ (2 <= l)%nat ∧ zeros_at ws b l ∧
     ∀ i n, zeros_at ws i n → (n <= l)%nat ∧ (n = l → (b <= i)%nat)).

(** Only which words are zero matters, so that eight words are one of 256
    patterns. *)
Definition norm (w : Z) : Z := if w =? 0 then 0 else 1.

Lemma find_run_norm ws i best cur : find_run (norm <$> ws) i best cur = find_run ws i best cur.
Proof.
  revert i best cur. induction ws as [|w ws IH]; intros i best cur; [done|]. cbn [fmap list_fmap find_run].
  unfold norm at 1. destruct (w =? 0); cbn [Z.eqb]; rewrite !IH; done.
Qed.

Lemma zeros_at_norm ws i n : zeros_at (norm <$> ws) i n ↔ zeros_at ws i n.
Proof.
  unfold zeros_at. rewrite length_fmap, <- fmap_drop, <- fmap_take, Forall_fmap.
  split; (intros [H1 H2]; split; [done|]); (eapply Forall_impl; [exact H2|]); intros w; cbn; unfold norm;
    destruct (Z.eqb_spec w 0); done.
Qed.

Fixpoint patterns (n : nat) : list (list Z) :=
  match n with
  | O => [[]]
  | S n => ((cons 0) <$> patterns n) ++ ((cons 1) <$> patterns n)
  end.

Lemma patterns_norm ws : norm <$> ws ∈ patterns (length ws).
Proof.
  induction ws as [|w ws IH]; cbn; [set_solver|]. apply elem_of_app. unfold norm at 1 3.
  destruct (w =? 0); [left|right]; by apply list_elem_of_fmap_2.
Qed.

#[export] Instance zeros_at_dec ws i n : Decision (zeros_at ws i n).
Proof. unfold zeros_at. apply _. Defined.

Definition upto8 (P : nat → nat → Prop) : Prop := Forall (λ i, Forall (P i) (seq 0 9)) (seq 0 9).

Lemma upto8_all ws (P : nat → nat → Prop) :
  length ws = 8%nat → upto8 (λ i n, zeros_at ws i n → P i n) → ∀ i n, zeros_at ws i n → P i n.
Proof.
  intros Hl H i n Hz. unfold upto8 in H. rewrite Forall_forall in H.
  assert (i + n <= 8)%nat by (rewrite <- Hl; apply Hz).
  specialize (H i). rewrite elem_of_seq, Forall_forall in H. apply H; [lia| |done]. apply elem_of_seq. lia.
Qed.

Definition checked (ws : list Z) : Prop :=
  let r := best_run ws in
  (base r = -1 ∧ upto8 (λ i n, zeros_at ws i n → (n < 2)%nat)) ∨
  (0 <= base r ∧ 2 <= len r ∧ zeros_at ws (Z.to_nat (base r)) (Z.to_nat (len r)) ∧
   upto8 (λ i n, zeros_at ws i n →
     (n <= Z.to_nat (len r))%nat ∧ (n = Z.to_nat (len r) → (Z.to_nat (base r) <= i)%nat))).

#[export] Instance checked_dec ws : Decision (checked ws).
Proof. unfold checked, upto8. apply _. Defined.

Lemma patterns_checked : Forall checked (patterns 8).
Proof. apply (bool_decide_eq_true_1 _). vm_compute. reflexivity. Qed.

Lemma best_run_longest ws : length ws = 8%nat → first_longest ws (best_run ws).
Proof.
  intros Hl. assert (checked (norm <$> ws)) as H.
  { pose proof (patterns_norm ws) as Hp. rewrite Hl in Hp.
    exact (proj1 (Forall_forall _ _) patterns_checked _ Hp). }
  assert (best_run (norm <$> ws) = best_run ws) as E by (unfold best_run; by rewrite find_run_norm).
  unfold checked in H. rewrite E in H. assert (length (norm <$> ws) = 8%nat) as Hl' by (by rewrite length_fmap).
  destruct H as [[Hb Hz]|(Hb & H2 & Hz & Ha)]; [left|right].
  - split; [done|]. intros i n Hi. apply (upto8_all _ _ Hl' Hz i n). by apply zeros_at_norm.
  - exists (Z.to_nat (base (best_run ws))), (Z.to_nat (len (best_run ws))). split_and!; [lia..|by apply zeros_at_norm|].
    intros i n Hi. apply (upto8_all _ _ Hl' Ha i n). by apply zeros_at_norm.
Qed.

(** ** The loop of [inet_ntop6] *)

Definition in_run (best : run) (i : Z) : bool :=
  negb (base best =? -1) && (base best <=? i) && (i <? base best + len best).
Definition quad_here (best : run) (word5 i : Z) : bool :=
  (i =? 6) && (base best =? 0) && ((len best =? 6) || (len best =? 5) && (word5 =? 0xffff)).

(** Groups that follow a colon each. *)
Definition tail_text (ws : list Z) : list Z := mjoin ((λ w, COLON :: fmt_x w) <$> ws).
Definition words_ok (ws : list Z) : Prop := Forall (λ w, 0 <= w < 65536) ws.
(** The text fits so far: five characters for each word. *)
Definition short6 (out : list Z) (i : Z) : Prop := 0 <= i <= 8 ∧ Z.of_nat (length out) <= 5 * i.

Lemma fmt_word src best w5 w ws i out :
  in_run best i = false → quad_here best w5 i = false → 0 <= w < 65536 → short6 out i → i < 8 →
  let out' := out ++ (if i =? 0 then [] else [COLON]) ++ fmt_x w in
  fmt_loop src best w5 (w :: ws) i out = fmt_loop src best w5 ws (i + 1) out' ∧ short6 out' (i + 1).
Proof.
  intros Hr Hq Hw [Hi Ho] H8 out'. destruct (fmt_x_group w Hw) as [[Hl _] _].
  cbn [fmt_loop]. unfold in_run in Hr. rewrite Hr. unfold quad_here in Hq.
  assert ((if negb (i =? 0) then put_char TMPSIZE out COLON else Val out) = Val (out ++ (if i =? 0 then [] else [COLON]))) as ->.
  { destruct (Z.eqb_spec i 0); cbn [negb]; [by rewrite app_nil_r|]. unfold put_char, TMPSIZE.
    rewrite (proj2 (Nat.leb_le _ _)) by lia. done. }
  cbn [mbind outcome_bind]. rewrite Hq. unfold sprintf, TMPSIZE.
  assert ((length (if (i =? 0)%Z then [] else [COLON]) <= 1)%nat) as Hc by (destruct (i =? 0); cbn; lia).
  rewrite (proj2 (Nat.leb_le _ _)) by (rewrite length_app; lia). cbn [mbind outcome_bind]. unfold out'.
  rewrite (assoc (++)). split; [done|]. split; [lia|]. rewrite !length_app. lia.
Qed.

Lemma tail_text_cons w ws : tail_text (w :: ws) = COLON :: fmt_x w ++ tail_text ws.
Proof. done. Qed.

Lemma fmt_words src best w5 ws rest i out :
  (∀ j, i <= j < i + Z.of_nat (length ws) → in_run best j = false ∧ quad_here best w5 j = false) →
  words_ok ws → short6 out i → 0 < i → i + Z.of_nat (length ws) <= 8 →
  fmt_loop src best w5 (ws ++ rest) i out = fmt_loop src best w5 rest (i + Z.of_nat (length ws)) (out ++ tail_text ws) ∧
  short6 (out ++ tail_text ws) (i + Z.of_nat (length ws)).
Proof.
  intros Hj Hok. revert i out Hj. induction Hok as [|w ws Hw _ IH]; intros i out Hj Ho Hi H8.
  - cbn. rewrite Z.add_0_r, app_nil_r. done.
  - cbn [length] in *. cbn [app]. destruct (Hj i ltac:(lia)) as [H1 H2].
    destruct (fmt_word src best w5 w (ws ++ rest) i out H1 H2 Hw Ho) as [-> Ho']; [lia|].
    rewrite (proj2 (Z.eqb_neq i 0)) in Ho' |- * by lia.
    destruct (IH (i + 1) (out ++ [COLON] ++ fmt_x w)) as [E Hs]; [intros j ?; apply Hj; lia|done|lia|lia|].
    rewrite tail_text_cons. rewrite E. replace (i + 1 + Z.of_nat (length ws)) with (i + Z.of_nat (S (length ws))) in * by lia.
    rewrite <- (assoc (++)) in *. done.
Qed.

(** The words from the first one on. *)
Lemma sepby_tail w ws : sepby COLON (fmt_x <$> w :: ws) = fmt_x w ++ tail_text ws.
Proof.
  revert w. induction ws as [|w' ws IH]; intros w; [by rewrite app_nil_r|].
  rewrite tail_text_cons, <- IH. done.
Qed.

Lemma fmt_first src best w5 ws rest :
  (∀ j, 0 <= j < Z.of_nat (length ws) → in_run best j = false ∧ quad_here best w5 j = false) →
  words_ok ws → (length ws <= 8)%nat →
  fmt_loop src best w5 (ws ++ rest) 0 [] = fmt_loop src best w5 rest (Z.of_nat (length ws)) (sepby COLON (fmt_x <$> ws)) ∧
  short6 (sepby COLON (fmt_x <$> ws)) (Z.of_nat (length ws)).
Proof.
  intros Hj Hok Hl. assert (short6 [] 0) as H0 by (split; cbn; lia).
  destruct Hok as [|w ws Hw Hok]; [done|]. cbn [length] in *. destruct (Hj 0 ltac:(lia)) as [H1 H2].
  destruct (fmt_word src best w5 w (ws ++ rest) 0 [] H1 H2 Hw H0 ltac:(lia)) as [E Ho]. cbn [app] in E |- *.
  rewrite E, sepby_tail. destruct (fmt_words src best w5 ws rest (0 + 1) (fmt_x w)) as [E' Ho'];
    [intros j ?; apply Hj; lia|done|done|lia|lia|].
  cbn [Z.eqb app] in E', Ho'. cbn [Z.eqb app]. rewrite E'. replace (Z.of_nat (S (length ws))) with (0 + 1 + Z.of_nat (length ws)) by lia. done.
Qed.

(** The run of zeros becomes one colon. *)
Lemma fmt_zeros src w5 b zs rest out :
  0 <= b → zs ≠ [] → short6 out b → b + Z.of_nat (length zs) <= 8 →
  let best := Run b (Z.of_nat (length zs)) in
  fmt_loop src best w5 (zs ++ rest) b out = fmt_loop src best w5 rest (b + Z.of_nat (length zs)) (out ++ [COLON]) ∧
  short6 (out ++ [COLON]) (b + Z.of_nat (length zs)).
Proof.
  intros Hb Hne [Hi Ho] H8 best. split.
  - destruct zs as [|z zs]; [done|]. cbn [app fmt_loop length] in *.
    assert (∀ i, b <= i < b + Z.of_nat (S (length zs)) → in_run best i = true) as Hin.
    { intros i Hib. unfold in_run, best. cbn [base len]. zcase; cbn; (done || lia). }
    pose proof (Hin b ltac:(lia)) as H. unfold in_run in H. rewrite H. clear H.
    change (base best) with b. rewrite Z.eqb_refl. unfold put_char at 1, TMPSIZE at 1.
    rewrite (proj2 (Nat.leb_le _ _)) by lia. cbn [mbind outcome_bind].
    assert (∀ zs' i, b < i → i + Z.of_nat (length zs') = b + Z.of_nat (S (length zs)) →
      fmt_loop src best w5 (zs' ++ rest) i (out ++ [COLON]) = fmt_loop src best w5 rest (b + Z.of_nat (S (length zs))) (out ++ [COLON])) as Hrest.
    { induction zs' as [|z' zs' IH]; intros i Hbi Hl; [cbn in *; do 2 f_equal; lia|]. cbn [app fmt_loop length] in *.
      pose proof (Hin i ltac:(lia)) as H. unfold in_run in H. rewrite H. change (base best) with b.
      rewrite (proj2 (Z.eqb_neq _ _)) by lia. cbn [mbind outcome_bind]. apply IH; lia. }
    apply Hrest; lia.
  - split; [lia|]. rewrite length_app. cbn [length]. destruct zs; [done|]. cbn [length]. lia.
Qed.

(** ** The printed text *)

Lemma fmt_u_length b : 0 <= b < 256 → (length (fmt_u b) <= 3)%nat.
Proof.
  intros Hb. destruct (fmt_u_byte b Hb) as [[H ->]|[(x & d & Hx & Hd & _ & ->)|(x & d & e & Hx & Hd & He & _ & ->)]]; cbn; lia.
Qed.

Lemma inet_ntop4_text bs r size :
  bytes_ok bs → length bs = 4%nat →
  inet_ntop4 (bs ++ r) size = Val (if size <=? Z.of_nat (length (quad bs)) then None else Some (quad bs)) ∧
  (length (quad bs) <= 15)%nat.
Proof.
  intros Hok Hl. destruct bs as [|b0 [|b1 [|b2 [|b3 [|]]]]]; try done.
  apply bytes_ok_cons in Hok as [H0 [H1 [H2 [H3 _]%bytes_ok_cons]%bytes_ok_cons]%bytes_ok_cons].
  pose proof (fmt_u_length b0 H0). pose proof (fmt_u_length b1 H1). pose proof (fmt_u_length b2 H2). pose proof (fmt_u_length b3 H3).
  set (q := fmt_u b0 ++ DOT :: fmt_u b1 ++ DOT :: fmt_u b2 ++ DOT :: fmt_u b3).
  change (quad [b0; b1; b2; b3]) with q.
  assert (length q <= 15)%nat as Hq by (unfold q; repeat (rewrite length_app; cbn [length]); lia).
  split; [|done]. unfold inet_ntop4.
  change (read_n ([b0; b1; b2; b3] ++ r) NS_INADDRSZ) with (Val [b0; b1; b2; b3]). cbn [mbind outcome_bind].
  assert (mjoin (imap (λ i b, if (i =? 0)%nat then fmt_u b else DOT :: fmt_u b) [b0; b1; b2; b3]) = q) as ->.
  { unfold q. change (fmt_u b0 ++ (DOT :: fmt_u b1) ++ (DOT :: fmt_u b2) ++ (DOT :: fmt_u b3) ++ [] = fmt_u b0 ++ DOT :: fmt_u b1 ++ DOT :: fmt_u b2 ++ DOT :: fmt_u b3).
    by rewrite app_nil_r. }
  unfold sprintf. cbn [length app Nat.add]. rewrite (proj2 (Nat.leb_le _ _)) by lia. done.
Qed.

Lemma fmt_quad a r best w5 w ws out :
  quad_here best w5 6 = true → in_run best 6 = false → bytes_ok a → length a = 16%nat → (length out <= 10)%nat →
  fmt_loop (a ++ r) best w5 (w :: ws) 6 out = Val (Some (out ++ COLON :: quad (drop 12 a))).
Proof.
  intros Hq Hr Hok Hl Ho. cbn [fmt_loop]. unfold in_run in Hr. rewrite Hr. unfold quad_here in Hq.
  change (negb (6 =? 0)) with true. cbv iota. unfold put_char, TMPSIZE. rewrite (proj2 (Nat.leb_le _ _)) by lia.
  cbn [mbind outcome_bind]. rewrite Hq. rewrite drop_app_le by lia.
  destruct (inet_ntop4_text (drop 12 a) r (Z.of_nat (46 - length (out ++ [COLON])))) as [-> H15].
  { by apply Forall_drop. } { rewrite length_drop, Hl. done. }
  rewrite length_app. cbn [length]. rewrite (proj2 (Z.leb_gt _ _)) by lia. cbn [mbind outcome_bind].
  unfold sprintf. rewrite length_app. cbn [length]. rewrite (proj2 (Nat.leb_le _ _)) by lia.
  cbn [mbind outcome_bind]. by rewrite <- (assoc (++)).
Qed.

Lemma tail_sepby ws : ws ≠ [] → tail_text ws = COLON :: sepby COLON (fmt_x <$> ws).
Proof. destruct ws as [|w ws]; [done|]. intros _. by rewrite sepby_tail. Qed.

Lemma words_groups ws : words_ok ws → Forall group (fmt_x <$> ws).
Proof. intros H. apply Forall_fmap. eapply Forall_impl; [exact H|]. intros w Hw. by apply fmt_x_group. Qed.

Lemma zeros_bytes zs : Forall (λ w, w = 0) zs → bytes_of (fmt_x <$> zs) = replicate (2 * length zs) 0.
Proof.
  induction 1 as [|z zs -> _ IH]; [done|]. rewrite fmap_cons, bytes_of_cons, IH. cbn [length].
  replace (2 * S (length zs))%nat with (2 + 2 * length zs)%nat by lia. done.
Qed.

(** The loop and the colon for a trailing run. *)
Definition printed (a r : list Z) (best : run) (w5 : Z) (ws : list Z) (text : list Z) : Prop :=
  (o ← fmt_loop (a ++ r) best w5 ws 0 [];
   match o with
   | None => Val None
   | Some out =>
       out ← (if negb (base best =? -1) && (base best + len best =? 8) then put_char TMPSIZE out COLON else Val out);
       Val (Some out)
   end) = Val (Some text).

Lemma printed_full a r ws l w5 :
  words_ok ws → length ws = 8%nat → printed a r (Run (-1) l) w5 ws (sepby COLON (fmt_x <$> ws)) ∧ 
  (length (sepby COLON (fmt_x <$> ws)) <= 40)%nat.
Proof.
  intros Hok Hl. unfold printed. destruct (fmt_first (a ++ r) (Run (-1) l) w5 ws []) as [E [_ Hs]]; [|done|lia|].
  { intros j _. unfold in_run, quad_here. cbn. by rewrite andb_false_r. }
  rewrite app_nil_r in E. rewrite E. cbn. split; [done|lia].
Qed.

Lemma text_none gs : groups_text gs None = sepby COLON gs.
Proof. unfold groups_text, pieces. by rewrite app_nil_r. Qed.

(** Up to the end of the run. *)
Lemma fmt_upto src A zs B w5 :
  let best := Run (Z.of_nat (length A)) (Z.of_nat (length zs)) in
  words_ok A → zs ≠ [] → (length A + length zs + length B = 8)%nat →
  fmt_loop src best w5 (A ++ zs ++ B) 0 []
  = fmt_loop src best w5 B (Z.of_nat (length A) + Z.of_nat (length zs)) (sepby COLON (fmt_x <$> A) ++ [COLON]) ∧
  short6 (sepby COLON (fmt_x <$> A) ++ [COLON]) (Z.of_nat (length A) + Z.of_nat (length zs)).
Proof.
  intros best HA Hz Hl. destruct (fmt_first src best w5 A (zs ++ B)) as [E Hs]; [|done|lia|].
  { intros j Hj. unfold in_run, quad_here, best. cbn [base len]. split; zcase; cbn; (done || lia). }
  rewrite E. apply fmt_zeros; [lia|done|done|lia].
Qed.

Lemma printed_run a r A zs B w5 :
  let best := Run (Z.of_nat (length A)) (Z.of_nat (length zs)) in
  words_ok A → words_ok B → zs ≠ [] → (length A + length zs + length B = 8)%nat →
  quad_here best w5 6 = false ∨ length B = 0%nat ∨ length B = 1%nat →
  let text := groups_text (fmt_x <$> A) None ++ COLON :: COLON :: groups_text (fmt_x <$> B) None in
  printed a r best w5 (A ++ zs ++ B) text ∧ (length text <= 41)%nat.
Proof.
  intros best HA HB Hz Hl Hq. cbv zeta. rewrite !text_none. unfold printed.
  destruct (fmt_upto (a ++ r) A zs B w5 HA Hz Hl) as [E Hs]. fold best in E. rewrite E.
  assert (0 < length zs)%nat by (destruct zs; [done|cbn; lia]).
  destruct (fmt_words (a ++ r) best w5 B [] (Z.of_nat (length A) + Z.of_nat (length zs)) (sepby COLON (fmt_x <$> A) ++ [COLON])) as [E' Hs'];
    [|done|done|lia|lia|].
  { intros j Hj. split.
    - unfold in_run, best. cbn [base len]. zcase; cbn; (done || lia).
    - destruct (decide (j = 6)) as [->|Hj6]; [destruct Hq as [Hq|Hq]; [done|lia]|].
      unfold quad_here. by rewrite (proj2 (Z.eqb_neq _ _) Hj6). }
  rewrite app_nil_r in E'. rewrite E'. cbn [fmt_loop mbind outcome_bind].
  replace (Z.of_nat (length A) + Z.of_nat (length zs) + Z.of_nat (length B)) with 8 in Hs' by lia. destruct Hs' as [_ Hs'].
  change (base best) with (Z.of_nat (length A)). change (len best) with (Z.of_nat (length zs)).
  rewrite (proj2 (Z.eqb_neq (Z.of_nat (length A)) (-1))) by lia. cbn [negb andb].
  destruct (decide (B = [])) as [->|HB0].
  - cbn [length] in Hl. rewrite (proj2 (Z.eqb_eq _ 8)) by lia. cbn [fmap list_fmap] in *. unfold tail_text in *. cbn [fmap list_fmap] in *.
    rewrite app_nil_r in *. unfold put_char, TMPSIZE. rewrite (proj2 (Nat.leb_le _ _)) by lia. cbn [mbind outcome_bind].
    cbn [sepby]. rewrite <- (assoc (++)). split; [done|]. rewrite !length_app in *. cbn [length] in *. lia.
  - rewrite (proj2 (Z.eqb_neq _ 8)) by (destruct B; [done|cbn in *; lia]). cbn [mbind outcome_bind].
    rewrite tail_sepby in * by done. rewrite <- (assoc (++)) in *. split; [done|]. cbn [app] in Hs'. lia.
Qed.

Lemma printed_quad a r zs B w5 q :
  let best := Run 0 (Z.of_nat (length zs)) in
  words_ok B → bytes_ok a → length a = 16%nat → (length zs + length B = 8)%nat →
  length zs = 6%nat ∧ B = [q.1; q.2] ∨ length zs = 5%nat ∧ w5 = 0xffff ∧ B = [w5; q.1; q.2] →
  let text := COLON :: COLON :: groups_text (fmt_x <$> take (length B - 2) B) (Some (drop 12 a)) in
  printed a r best w5 (zs ++ B) text ∧ (length text <= 41)%nat.
Proof.
  intros best HB Hok Hl H8 Hq. cbv zeta. unfold printed.
  destruct (fmt_upto (a ++ r) [] zs B w5) as [E Hs]; [constructor|destruct zs; [cbn in *; lia|done]|done|].
  cbn [length fmap list_fmap sepby app] in E, Hs. change (Z.of_nat 0) with 0 in E. fold best in E. cbn [app]. rewrite E, Z.add_0_l.
  destruct (inet_ntop4_text (drop 12 a) [] 0) as [_ H15]; [by apply Forall_drop|by rewrite length_drop, Hl|].
  destruct Hq as [[Hz ->]|(Hz & -> & ->)]; rewrite Hz.
  - rewrite fmt_quad by (done || (cbn; lia) || (unfold quad_here, in_run, best; cbn [base len]; by rewrite Hz)).
    cbn [mbind outcome_bind]. change (base best) with 0. change (len best) with (Z.of_nat (length zs)). rewrite Hz. cbn. split; [done|lia].
  - destruct (fmt_words (a ++ r) best 0xffff [0xffff] [q.1; q.2] 5 [COLON]) as [E1 Hs1].
    + intros j Hj. cbn [length] in Hj. replace j with 5 by lia. unfold in_run, quad_here, best. cbn [base len]. by rewrite Hz.
    + by apply Forall_cons in HB as [H _]; repeat constructor.
    + split; cbn; lia.
    + lia.
    + cbn. lia.
    + cbn [app] in E1. change (Z.of_nat 5) with 5. change (0 + 5) with 5. rewrite E1. cbn [length]. change (5 + Z.of_nat 1) with 6.
      rewrite fmt_quad; [|unfold quad_here, best; cbn [base len]; by rewrite Hz|unfold in_run, best; cbn [base len]; by rewrite Hz|done|done|].
      * cbn [mbind outcome_bind]. change (base best) with 0. change (len best) with (Z.of_nat (length zs)). rewrite Hz.
        change (groups_text (fmt_x <$> take (length [65535; q.1; q.2] - 2) [65535; q.1; q.2]) (Some (drop 12 a)))
          with ($"ffff" ++ COLON :: quad (drop 12 a)). split; [done|].
        change (7 + length (quad (drop 12 a)) <= 41)%nat. lia.
      * change (6 <= 10)%nat. lia.
Qed.

(** Words with a run left out stand for the address. *)
Lemma run_text a A zs B :
  bytes_ok a → length a = 16%nat → to_words a = A ++ zs ++ B → Forall (λ w, w = 0) zs → zs ≠ [] →
  ipv6_text (groups_text (fmt_x <$> A) None ++ COLON :: COLON :: groups_text (fmt_x <$> B) None) a ∧
  (∀ B0 w w', B = B0 ++ [w; w'] →
    ipv6_text (groups_text (fmt_x <$> A) None ++ COLON :: COLON :: groups_text (fmt_x <$> B0) (Some (drop 12 a))) a).
Proof.
  intros Hok Hl Hws Hz Hne. destruct (to_words_bytes a Hok) as (Hw & Hbs & Hlen); [rewrite Hl; exists 8%nat; lia|].
  rewrite Hws in Hw, Hbs, Hlen. apply Forall_app in Hw as [HA [_ HB]%Forall_app].
  rewrite !length_app in Hlen. rewrite !fmap_app, !bytes_of_app, (zeros_bytes zs Hz) in Hbs.
  assert (0 < length zs)%nat by (destruct zs; [done|cbn; lia]).
  assert (∀ gs q, groups_ok gs q → groups_bytes gs q = bytes_of (fmt_x <$> B) →
    ipv6_text (groups_text (fmt_x <$> A) None ++ COLON :: COLON :: groups_text gs q) a) as Hshort.
  { intros gs q Hq Hb. pose proof (ipv6_short (fmt_x <$> A) gs q) as H'. rewrite Hb in H'.
    rewrite !groups_bytes_none in H'. fold (bytes_of (fmt_x <$> A)) in H'. rewrite !length_bytes_of, !length_fmap in H'.
    replace (16 - 2 * length A - 2 * length B)%nat with (2 * length zs)%nat in H' by lia. rewrite Hbs in H'.
    apply H'; [by apply ok_none, words_groups|done|lia]. }
  split.
  - apply Hshort; [by apply ok_none, words_groups|]. by rewrite groups_bytes_none.
  - intros B0 w w' ->. apply Forall_app in HB as [HB0 Hww]. apply Hshort.
    + split; [by apply words_groups|]. intros bs [= <-]. split; [by apply Forall_drop|]. by rewrite length_drop, Hl.
    + rewrite fmap_app, bytes_of_app. unfold groups_bytes. fold (bytes_of (fmt_x <$> B0)). f_equal.
      rewrite <- Hbs, fmap_app, bytes_of_app, !(assoc (++)). cbn [default from_option id].
      rewrite drop_app_length'; [done|]. rewrite !length_app, !length_bytes_of, !length_fmap, length_replicate.
      rewrite length_app in Hlen. cbn in Hlen. lia.
Qed.

Lemma printed_text a r w5 :
  bytes_ok a → length a = 16%nat → to_words a !! 5%nat = Some w5 →
  ∃ text, ipv6_text text a ∧ (length text <= 41)%nat ∧ printed a r (best_run (to_words a)) w5 (to_words a) text.
Proof.
  intros Hok Hl Hw5. destruct (to_words_bytes a Hok) as (Hw & Hbs & Hlen); [rewrite Hl; exists 8%nat; lia|].
  rewrite Hl in Hlen. assert (length (to_words a) = 8%nat) as H8 by lia. clear Hlen.
  pose proof (best_run_longest (to_words a) H8) as Hbest. destruct (best_run (to_words a)) as [b l].
  destruct Hbest as [[Hb _]|(bn & ln & Hb & Hln & H2 & [Hz1 Hz2] & _)]; cbn [base len] in *; subst b.
  - exists (sepby COLON (fmt_x <$> to_words a)).
    destruct (printed_full a r (to_words a) l w5 Hw H8) as [Hp H40]. split_and!; [|lia|done].
    pose proof (ipv6_full (fmt_x <$> to_words a) None) as H'. rewrite groups_bytes_none, text_none in H'.
    fold (bytes_of (fmt_x <$> to_words a)) in H'. rewrite Hbs in H'. apply H'; [by apply ok_none, words_groups|done].
  - subst l. assert (∃ A zs B, to_words a = A ++ zs ++ B ∧ length A = bn ∧ length zs = ln ∧ Forall (λ w, w = 0) zs) as (A & zs & B & Hws & <- & <- & Hz).
    { exists (take bn (to_words a)), (take ln (drop bn (to_words a))), (drop (bn + ln) (to_words a)).
      rewrite !length_take, length_drop. split_and!; [by rewrite <- drop_drop, !take_drop|lia|lia|done]. }
    assert (zs ≠ []) as Hne by (destruct zs; [cbn in H2; lia|done]).
    destruct (run_text a A zs B Hok Hl Hws Hz Hne) as [Ht1 Ht2]. rewrite Hws in *. clear Hws.
    apply Forall_app in Hw as [HA [_ HB]%Forall_app]. rewrite !length_app in H8.
    destruct (quad_here (Run (Z.of_nat (length A)) (Z.of_nat (length zs))) w5 6) eqn:Eq.
    + assert (length A = 0%nat ∧ (length zs = 6%nat ∨ length zs = 5%nat ∧ w5 = 0xffff)) as [HA0 Hzs].
      { unfold quad_here in Eq. cbn [base len] in Eq. lia. }
      apply nil_length_inv in HA0 as ->. cbn [app length] in *.
      destruct (decide (length zs = 6%nat)) as [H6|H6].
      * destruct B as [|w6 [|w7 [|]]]; cbn in H8; try lia.
        destruct (printed_quad a r zs [w6; w7] w5 (w6, w7) HB Hok Hl) as [Hp H41]; [cbn; lia|by left|].
        eexists. split; [exact (Ht2 [] w6 w7 eq_refl)|]. split; [exact H41|exact Hp].
      * destruct Hzs as [?|[H5 ->]]; [done|].
        destruct B as [|v5 [|w6 [|w7 [|]]]]; cbn in H8; try lia.
        rewrite lookup_app_r in Hw5 by lia. rewrite H5 in Hw5. injection Hw5 as ->.
        destruct (printed_quad a r zs [0xffff; w6; w7] 0xffff (w6, w7) HB Hok Hl) as [Hp H41]; [cbn; lia|by right|].
        eexists. split; [exact (Ht2 [0xffff] w6 w7 eq_refl)|]. split; [exact H41|exact Hp].
    + eexists. split; [exact Ht1|]. destruct (printed_run a r A zs B w5 HA HB Hne) as [Hp H41]; [lia|by left|]. split; [lia|exact Hp].
Qed.

(** ** [inet_ntop] and [inet_pton] *)

Lemma inet_ntop6_text a r :
  bytes_ok a → length a = 16%nat →
  ∃ text, ipv6_text text a ∧ (length text <= 41)%nat ∧
    ∀ size, inet_ntop6 (a ++ r) size = Val (if size <=? Z.of_nat (length text) then None else Some text).
Proof.
  intros Hok Hl. destruct (to_words_bytes a Hok) as (_ & _ & Hlen); [rewrite Hl; exists 8%nat; lia|].
  destruct (lookup_lt_is_Some_2 (to_words a) 5) as [w5 Hw5]; [lia|].
  destruct (printed_text a r w5 Hok Hl Hw5) as (text & Ht & H41 & Hp). exists text. split; [done|]. split; [done|].
  intros size. unfold inet_ntop6, read_n, NS_IN6ADDRSZ. rewrite length_app, Hl. cbn [Nat.add Nat.leb mbind outcome_bind].
  rewrite (take_app_length' a r 16) by done. rewrite Hw5. cbn [deref mbind outcome_bind]. unfold printed in Hp.
  destruct (fmt_loop _ _ _ _ _ _) as [[out|]| |]; cbn [mbind outcome_bind] in *; try done.
  destruct (if negb _ && _ then _ else _) as [out'| |]; cbn [mbind outcome_bind] in *; try done. injection Hp as ->.
  unfold put_char, TMPSIZE. rewrite (proj2 (Nat.leb_le _ _)) by lia. cbn [mbind outcome_bind].
  rewrite length_app. cbn [length]. f_equal. zcase; (done || lia).
Qed.

Lemma is_hex_nonzero c : is_hex c → c ≠ 0.
Proof. intros Hc ->. by compute in Hc. Qed.

Lemma sepby_nonzero sep ts : sep ≠ 0 → Forall nul_free ts → nul_free (sepby sep ts).
Proof.
  intros Hsep. induction 1 as [|t ts Ht Hts IH]; [constructor|]. destruct ts; [done|].
  apply Forall_app. split; [done|]. by constructor.
Qed.

Lemma fmt_u_nonzero b : 0 <= b < 256 → nul_free (fmt_u b).
Proof.
  intros Hb. destruct (fmt_u_byte b Hb) as [[? ->]|[(x & d & ? & ? & ? & ->)|(x & y & d & ? & ? & ? & ? & ->)]];
    repeat constructor; lia.
Qed.

Lemma quad_nonzero bs : bytes_ok bs → nul_free (quad bs).
Proof. intros Hok. apply sepby_nonzero; [done|]. apply Forall_fmap. eapply Forall_impl; [exact Hok|]. exact fmt_u_nonzero. Qed.

Lemma groups_nonzero gs q : groups_ok gs q → nul_free (groups_text gs q).
Proof.
  intros [Hg Hq]. apply sepby_nonzero; [done|]. unfold pieces. apply Forall_app. split.
  - eapply Forall_impl; [exact Hg|]. intros h [_ Hh]. eapply Forall_impl; [exact Hh|]. exact is_hex_nonzero.
  - destruct q as [bs|]; [|constructor]. constructor; [|constructor]. by apply quad_nonzero, Hq.
Qed.

Lemma ipv6_nonzero s a : ipv6_text s a → nul_free s.
Proof.
  intros [gs q Hok _|gs gs' q Hok Hok' _]; [by apply groups_nonzero|].
  apply Forall_app. split; [by apply groups_nonzero|]. repeat constructor; try done. by apply groups_nonzero.
Qed.

(** The text of an address of either family, and how long it may be. *)
Inductive address : Z → list Z → list Z → Prop :=
  | address4 bs : bytes_ok bs → length bs = 4%nat → address AF_INET (quad bs) bs
  | address6 s a : ipv6_text s a → bytes_ok a → length a = 16%nat → address AF_INET6 s a.
Definition addr_size (af : Z) : nat := if af =? AF_INET then 4 else 16.
Definition INET_ADDRSTRLEN (af : Z) : Z := if af =? AF_INET then 16 else 46.

Lemma inet_pton_address af text a junk out :
  address af text a → (length a <= length out)%nat →
  inet_pton af (text ++ 0 :: junk) out = Val (1, a ++ drop (length a) out, None).
Proof.
  intros Ha Ho. assert (nul_free text) as Hn by (destruct Ha; [by apply quad_nonzero|by eapply ipv6_nonzero]).
  unfold inet_pton. rewrite strlen_spec by done. cbn [mbind outcome_bind]. unfold inet_pton_length, read_n.
  rewrite length_app, (proj2 (Nat.leb_le _ _)), take_app_length by lia.
  destruct Ha as [bs Hok Hl|s a Ht Hok Hl].
  - rewrite Z.eqb_refl. cbn [mbind outcome_bind]. rewrite inet_pton4_quad by (done || lia). by rewrite Hl.
  - change (AF_INET6 =? AF_INET) with false. rewrite Z.eqb_refl. cbn [mbind outcome_bind].
    rewrite (inet_pton6_complete s a) by (done || lia). by rewrite Hl.
Qed.

Lemma inet_ntop_address af a r :
  (af = AF_INET ∨ af = AF_INET6) → bytes_ok a → length a = addr_size af →
  ∃ text, address af text a ∧ Z.of_nat (length text) < INET_ADDRSTRLEN af ∧
    ∀ dst size, size <= Z.of_nat (length dst) →
      inet_ntop af (a ++ r) dst size
      = Val (if size <=? Z.of_nat (length text) then (false, dst, Some ENOSPC)
             else (true, text ++ 0 :: drop (S (length text)) dst, None)).
Proof.
  intros Haf Hok Hl.
  assert (∃ text, address af text a ∧ Z.of_nat (length text) < INET_ADDRSTRLEN af ∧ ∀ size,
    (if af =? AF_INET then inet_ntop4 (a ++ r) size else inet_ntop6 (a ++ r) size)
    = Val (if size <=? Z.of_nat (length text) then None else Some text)) as (text & Ha & H46 & E).
  { destruct Haf as [-> | ->]; cbn in *.
    - exists (quad a). split; [by constructor|]. pose proof (inet_ntop4_text a r 0 Hok Hl) as [_ ?].
      split; [cbn; lia|]. intros size. by apply inet_ntop4_text.
    - destruct (inet_ntop6_text a r Hok Hl) as (text & Ht & H41 & E). exists text.
      split; [by constructor|]. split; [cbn; lia|done]. }
  exists text. split; [done|]. split; [done|]. intros dst size Hs.
  assert (∀ copy : option (list Z) → outcome (bool * list Z * option Z),
    (if af =? AF_INET then inet_ntop4 (a ++ r) size ≫= copy
     else if af =? AF_INET6 then inet_ntop6 (a ++ r) size ≫= copy else Val (false, dst, Some EAFNOSUPPORT))
    = copy (if size <=? Z.of_nat (length text) then None else Some text)) as Ecopy.
  { intros copy. specialize (E size). destruct Haf as [-> | ->]; cbn in *; by rewrite E. }
  unfold inet_ntop. rewrite Ecopy. destruct (Z.leb_spec size (Z.of_nat (length text))); [done|].
  unfold write_at. rewrite length_app. cbn [length]. rewrite (proj2 (Nat.leb_le _ _)) by lia. cbn.
  rewrite <- (assoc (++)). by rewrite Nat.add_1_r.
Qed.

(** C29. For every IPv4 and every IPv6 address, [inet_ntop] never leaves its
    temporary array and prints one text, shorter than [INET_ADDRSTRLEN] or
    [INET6_ADDRSTRLEN]; it stores the text with its NUL exactly when [size] is
    larger than its length and otherwise fails with [ENOSPC] and leaves the
    buffer alone; and [inet_pton] reads the text back as the same address. *)
Theorem inet_roundtrip af a r :
  (af = AF_INET ∨ af = AF_INET6) → bytes_ok a → length a = addr_size af →
  ∃ text, Z.of_nat (length text) < INET_ADDRSTRLEN af ∧
    (∀ dst size, size <= Z.of_nat (length dst) →
      inet_ntop af (a ++ r) dst size
      = Val (if size <=? Z.of_nat (length text) then (false, dst, Some ENOSPC)
             else (true, text ++ 0 :: drop (S (length text)) dst, None))) ∧
    (∀ junk out, (length a <= length out)%nat →
      inet_pton af (text ++ 0 :: junk) out = Val (1, a ++ drop (length a) out, None)).
Proof.
  intros Haf Hok Hl. destruct (inet_ntop_address af a r Haf Hok Hl) as (text & Ha & H46 & E).
  exists text. split_and!; [done|done|]. intros junk out. by apply inet_pton_address.
Qed.

Lemma inet_roundtrip_witness :
  ∃ text, Z.of_nat (length text) < 46 ∧
    (∀ dst size, size <= Z.of_nat (length dst) →
      inet_ntop AF_INET6 (replicate 15 0 ++ [1] ++ [7]) dst size
      = Val (if size <=? Z.of_nat (length text) then (false, dst, Some ENOSPC)
             else (true, text ++ 0 :: drop (S (length text)) dst, None))) ∧
    (∀ junk out, (16 <= length out)%nat →
      inet_pton AF_INET6 (text ++ 0 :: junk) out = Val (1, replicate 15 0 ++ [1] ++ drop 16 out, None)).
Proof.
  apply (inet_roundtrip AF_INET6 (replicate 15 0 ++ [1]) [7]); [by right| |done].
  repeat constructor; lia.
Defined.

Example inet_ntop_loopback :
  inet_ntop AF_INET6 (replicate 15 0 ++ [1]) (replicate 46 9) 46 = Val (true, $"::1" ++ 0 :: replicate 42 9, None) ∧
  inet_ntop AF_INET6 (replicate 10 0 ++ [255; 255; 192; 0; 2; 1]) (replicate 46 9) 46
    = Val (true, $"::ffff:192.0.2.1" ++ 0 :: replicate 29 9, None) ∧
  inet_ntop AF_INET6 (replicate 15 0 ++ [1]) [9; 9; 9] 3 = Val (false, [9; 9; 9], Some ENOSPC).
Proof. by vm_compute. Qed.

(** Another family is refused, and nothing is read or written. *)
Lemma inet_family af src dst size n :
  af ≠ AF_INET → af ≠ AF_INET6 →
  inet_ntop af src dst size = Val (false, dst, Some EAFNOSUPPORT) ∧
  inet_pton_length af src n dst = Val (-1, dst, Some EAFNOSUPPORT).
Proof.
  intros H4 H6. unfold inet_ntop, inet_pton_length.
  by rewrite (proj2 (Z.eqb_neq _ _) H4), (proj2 (Z.eqb_neq _ _) H6).
Qed.
End Inet6.
