(* ===== verification/CryptOut.v ===== *)
(** * The result string of the [crypt] functions

    [string/stpncpy.c], [__b64_from_24bit] of [crypt/crypt_util.c], and the
    way [__md5_crypt_r], [__sha256_crypt_r] and [__sha512_crypt_r] build their
    result in the caller's buffer: a pointer [cp] that moves forward and a
    count [buflen] of the bytes left, which may become negative and then
    stops every further store.  The lemmas say that a text is either in the
    buffer completely, followed by zeros, or [buflen] is exhausted. *)

From S2P Require Import Prelude CString Printf.
Local Open Scope Z_scope.

Module CryptOut.
Import CString Printf.

Definition DOLLAR : Z := 36.
Definition ERANGE : Z := 34.

(** A copy of no bytes through a pointer past the end stores nothing. *)
Definition store (buf : list Z) (off : nat) (bs : list Z) : outcome (list Z) :=
  match bs with
  | [] => Val buf
  | _ => write_at buf off bs
  end.

(** [__stpncpy (buf + off, src, n)]: the buffer, and the offset returned. *)
Definition stpncpy (buf : list Z) (off : nat) (src : list Z) (n : nat) : outcome (list Z * nat) :=
  size ← strnlen src n;
  bs ← read_n src size;
  buf ← store buf off bs;
  let dest := (off + size)%nat in
  if (size =? n)%nat then Val (buf, dest)
  else buf ← store buf dest (replicate (n - size) 0); Val (buf, dest).

(** The caller's buffer, [cp] as an offset into it, and [buflen]. *)
Record out := Out { obuf : list Z; cp : nat; room : Z }.

Definition b64t : list Z := $"./0123456789ABCDEFGHIJKLMNOPQRSTUVWXYZabcdefghijklmnopqrstuvwxyz".

(** [*cp++ = c; --buflen;] *)
Definition put (o : out) (c : Z) : outcome out :=
  buf ← write_at (obuf o) (cp o) [c]; Val (Out buf (S (cp o)) (room o - 1)).

Fixpoint b64_loop (n : nat) (w : Z) (o : out) : outcome out :=
  match n with
  | O => Val o
  | S n =>
      if 0 <? room o then
        c ← deref (b64t !! Z.to_nat (Z.land w 0x3f));
        o ← put o c;
        b64_loop n (Z.shiftr w 6) o
      else Val o
  end.

Definition b64_from_24bit (o : out) (b2 b1 b0 : Z) (n : nat) : outcome out :=
  b64_loop n (wrapu 32 (Z.lor (Z.lor (Z.shiftl b2 16) (Z.shiftl b1 8)) b0)) o.

(** The calls of [__b64_from_24bit] at the end: for each its three bytes,
    as indices into [alt_result] or the constant 0, and the number of
    characters. *)
Definition group : Type := option nat * option nat * option nat * nat.

Definition byte_at (r : list Z) (i : option nat) : outcome Z :=
  match i with
  | Some i => deref (r !! i)
  | None => Val 0
  end.

Fixpoint put_hash (gs : list group) (r : list Z) (o : out) : outcome out :=
  match gs with
  | [] => Val o
  | (i2, i1, i0, n) :: gs =>
      b2 ← byte_at r i2;
      b1 ← byte_at r i1;
      b0 ← byte_at r i0;
      o ← b64_from_24bit o b2 b1 b0 n;
      put_hash gs r o
  end.

(** The salt prefix: [cp = __stpncpy (buffer, prefix, MAX (0, buflen));
    buflen -= sizeof (prefix) - 1;] *)
Definition put_prefix (buffer : list Z) (buflen : Z) (prefix : list Z) : outcome out :=
  r ← stpncpy buffer 0 (prefix ++ [0]) (Z.to_nat (Z.max 0 buflen));
  Val (Out r.1 r.2 (buflen - Z.of_nat (length prefix))).

(** The salt, and the dollar sign after it. *)
Definition put_salt (o : out) (salt : list Z) (salt_len : nat) : outcome out :=
  let n := Nat.min (Z.to_nat (Z.max 0 (room o))) salt_len in
  r ← stpncpy (obuf o) (cp o) salt n;
  let o := Out r.1 r.2 (room o - Z.of_nat n) in
  if 0 <? room o then put o DOLLAR else Val o.

(** The last test: whether [buffer] is returned, its contents, and the
    value given to [errno]. *)
Definition put_end (o : out) : outcome (bool * list Z * option Z) :=
  if room o <=? 0 then Val (false, obuf o, Some ERANGE)
  else buf ← write_at (obuf o) (cp o) [0]; Val (true, buf, None).

(** ** The text written so far *)

Section text.
(** The buffer as it was passed, and [buflen]. *)
Variables (buffer : list Z) (buflen : nat).
Hypothesis fits : (buflen <= length buffer)%nat.

(** The text is there, with zeros after it; or it did not fit, and no byte
    past [buflen] was touched. *)
Definition wrote (text : list Z) (o : out) : Prop :=
  ((length text <= buflen)%nat ∧ cp o = length text ∧ room o = Z.of_nat buflen - Z.of_nat (length text) ∧
   obuf o = text ++ replicate (buflen - length text) 0 ++ drop buflen buffer) ∨
  ((buflen <= length text)%nat ∧ room o <= 0 ∧ length (obuf o) = length buffer ∧ drop buflen (obuf o) = drop buflen buffer).

Definition finished (text : list Z) (r : bool * list Z * option Z) : Prop :=
  if (length text <? buflen)%nat
  then r = (true, text ++ replicate (buflen - length text) 0 ++ drop buflen buffer, None)
  else ∃ buf, r = (false, buf, Some ERANGE) ∧ length buf = length buffer ∧ drop buflen buf = drop buflen buffer.

Lemma write_zeros text n rest bs :
  (length bs <= n)%nat →
  write_at (text ++ replicate n 0 ++ rest) (length text) bs = Val (text ++ bs ++ replicate (n - length bs) 0 ++ rest).
Proof.
  intros Hn. replace (replicate n 0) with (replicate (length bs) 0 ++ replicate (n - length bs) 0)
    by (rewrite <- replicate_add; f_equal; lia).
  rewrite <- (assoc (++) (replicate (length bs) 0)). apply write_at_mid. apply length_replicate.
Qed.

Lemma stpncpy_exact buf off src t n :
  nul_free src → length src = n →
  stpncpy buf off (src ++ t) n = (buf ← store buf off src; Val (buf, off + n)%nat).
Proof.
  intros Hs <-. assert (strnlen (src ++ t) (length src) = Val (length src)) as E.
  { clear -Hs. induction src as [|c src IH]; [by destruct t|]. apply nul_free_cons in Hs as [Hc Hs].
    cbn. rewrite (proj2 (Z.eqb_neq _ _) Hc). by rewrite IH. }
  unfold stpncpy. rewrite E. cbn [mbind outcome_bind]. unfold read_n. rewrite length_app, (proj2 (Nat.leb_le _ _)) by lia.
  cbn [mbind outcome_bind]. rewrite take_app_length, Nat.eqb_refl. done.
Qed.

Lemma wrote_length text o : wrote text o → length (obuf o) = length buffer.
Proof using fits.
  intros [(H1 & _ & _ & ->)|(_ & _ & H & _)]; [|done]. rewrite !length_app, length_replicate, length_drop. lia.
Qed.

Lemma wrote_full text o more : wrote text o → room o <= 0 → wrote (text ++ more) o.
Proof using fits.
  intros Hw Hr. pose proof (wrote_length text o Hw) as Hl. right. rewrite length_app.
  destruct Hw as [(H1 & H2 & H3 & H4)|(H1 & H2 & H3 & H4)]; [|split_and!; (done || lia)].
  split_and!; [lia|done|done|]. rewrite H4. replace (buflen - length text)%nat with 0%nat by lia.
  cbn [replicate app]. by rewrite drop_app_length' by lia.
Qed.

(** A store of [bs] at [cp] when there is room for it. *)
Lemma wrote_store text o bs :
  wrote text o → Z.of_nat (length bs) <= room o →
  bs = [] ∨ ∃ buf, write_at (obuf o) (cp o) bs = Val buf ∧
    wrote (text ++ bs) (Out buf (cp o + length bs) (room o - Z.of_nat (length bs))).
Proof using fits.
  intros Hw Hr. destruct (decide (bs = [])) as [->|Hne]; [by left|]. right.
  assert (0 < length bs)%nat by (destruct bs; [done|cbn; lia]).
  destruct Hw as [(H1 & H2 & H3 & H4)|(H1 & H2 & _)]; [|lia].
  rewrite H2, H4, write_zeros by lia. eexists. split; [done|]. left. rewrite length_app. cbn [cp room obuf].
  split_and!; [lia|done|lia|]. rewrite <- (assoc (++)). do 4 f_equal. lia.
Qed.

Lemma put_wrote text o c :
  wrote text o → ∃ o', (if 0 <? room o then put o c else Val o) = Val o' ∧ wrote (text ++ [c]) o'.
Proof using fits.
  intros Hw. destruct (Z.ltb_spec 0 (room o)) as [Hr|Hr].
  - destruct (wrote_store text o [c] Hw) as [?|(buf & E & Hw')]; [cbn; lia|done|].
    unfold put. rewrite E. eexists. split; [done|]. cbn [length] in Hw'. by rewrite Nat.add_1_r in Hw'.
  - exists o. split; [done|]. by apply wrote_full.
Qed.

Lemma put_end_finished text o : wrote text o → ∃ r, put_end o = Val r ∧ finished text r.
Proof using fits.
  intros Hw. pose proof (wrote_length text o Hw) as Hl. unfold put_end, finished.
  destruct Hw as [(H1 & H2 & H3 & H4)|(H1 & H2 & H3 & H4)].
  - destruct (Nat.ltb_spec (length text) buflen) as [Hlt|Hge].
    + rewrite (proj2 (Z.leb_gt _ _)) by lia. rewrite H2, H4, write_zeros by (cbn; lia). eexists. split; [done|]. 
      cbn [length]. replace (buflen - length text)%nat with (S (buflen - length text - 1)) at 2 by lia. done.
    + rewrite (proj2 (Z.leb_le _ _)) by lia. eexists. split; [done|]. eexists. split; [done|]. split; [done|].
      rewrite H4. replace (buflen - length text)%nat with 0%nat by lia. cbn [replicate app]. by rewrite drop_app_length' by lia.
  - rewrite (proj2 (Nat.ltb_ge _ _)), (proj2 (Z.leb_le _ _)) by lia. eexists. split; [done|]. by eexists.
Qed.

Lemma put_prefix_wrote prefix :
  nul_free prefix → ∃ o, put_prefix buffer (Z.of_nat buflen) prefix = Val o ∧ wrote prefix o.
Proof using fits.
  intros Hp. unfold put_prefix. replace (Z.to_nat (Z.max 0 (Z.of_nat buflen))) with buflen by lia.
  destruct (Nat.le_gt_cases buflen (length prefix)) as [Hle|Hgt].
  - replace (prefix ++ [0]) with (take buflen prefix ++ drop buflen prefix ++ [0]) by (by rewrite (assoc (++)), take_drop).
    rewrite stpncpy_exact by (first [by apply Forall_take|rewrite length_take; lia]).
    destruct (decide (buflen = 0%nat)) as [->|Hne].
    + rewrite take_0. cbn. eexists. split; [done|]. right. cbn. split_and!; (done || lia).
    + assert (∃ b bs, take buflen prefix = b :: bs) as (b & bs & E) by (destruct (take buflen prefix) eqn:E; [apply (f_equal length) in E; rewrite length_take in E; cbn in E; lia|eauto]).
      unfold store. rewrite E, <- E. unfold write_at. rewrite length_take, (proj2 (Nat.leb_le _ _)) by lia.
      cbn [mbind outcome_bind]. eexists. split; [done|]. right. cbn [room obuf fst]. rewrite take_0. cbn [app].
      replace (0 + buflen `min` length prefix)%nat with buflen by lia.
      split_and!; [lia|lia|rewrite length_app, length_take, length_drop; lia|].
      rewrite drop_app_length'; [done|]. rewrite length_take. lia.
  - unfold stpncpy. assert (strnlen (prefix ++ [0]) buflen = Val (length prefix)) as ->.
    { clear -Hp Hgt. revert buflen Hgt. induction prefix as [|c p IH]; intros [|n] Hn; cbn in *; try lia; [done|].
      apply nul_free_cons in Hp as [Hc Hp]. rewrite (proj2 (Z.eqb_neq _ _) Hc). rewrite IH by (done || lia). done. }
    cbn [mbind outcome_bind]. unfold read_n. rewrite length_app, (proj2 (Nat.leb_le _ _)) by lia.
    cbn [mbind outcome_bind]. rewrite take_app_length.
    assert (store buffer 0 prefix = Val (prefix ++ drop (length prefix) buffer)) as ->.
    { destruct prefix; [done|]. unfold store, write_at. rewrite (proj2 (Nat.leb_le _ _)) by lia. done. }
    cbn [mbind outcome_bind]. rewrite (proj2 (Nat.eqb_neq _ _)) by lia. rewrite Nat.add_0_l.
    assert (store (prefix ++ drop (length prefix) buffer) (length prefix) (replicate (buflen - length prefix) 0)
      = Val (prefix ++ replicate (buflen - length prefix) 0 ++ drop buflen buffer)) as ->.
    { destruct (replicate (buflen - length prefix) 0) as [|z zs] eqn:Ez; [apply (f_equal length) in Ez; rewrite length_replicate in Ez; cbn in Ez; lia|].
      unfold store. rewrite <- Ez.
      replace (drop (length prefix) buffer) with (take (buflen - length prefix) (drop (length prefix) buffer) ++ drop buflen buffer).
      - apply write_at_mid. rewrite length_take, length_drop, length_replicate. lia.
      - rewrite <- (take_drop (buflen - length prefix) (drop (length prefix) buffer)) at 2. rewrite drop_drop. do 2 f_equal. lia. }
    cbn [mbind outcome_bind]. eexists. split; [done|]. left. cbn. split_and!; (done || lia).
Qed.

Lemma put_salt_wrote text o salt t n :
  nul_free salt → length salt = n → wrote text o →
  ∃ o', put_salt o (salt ++ t) n = Val o' ∧ wrote (text ++ salt ++ [DOLLAR]) o'.
Proof using fits.
  intros Hs <- Hw. unfold put_salt. set (n := Nat.min _ _).
  assert (∃ buf, store (obuf o) (cp o) (take n salt) = Val buf ∧
    wrote (text ++ salt) (Out buf (cp o + n) (room o - Z.of_nat n))) as (buf & E & Hw').
  { destruct (Z.le_gt_cases (room o) 0) as [Hr|Hr].
    - replace n with 0%nat by lia. rewrite take_0. exists (obuf o). split; [done|].
      rewrite Nat.add_0_r, Z.sub_0_r. destruct o. by apply wrote_full.
    - destruct (wrote_store text o (take n salt) Hw) as [E|(buf & E & Hw')]; [rewrite length_take; lia| |].
      + rewrite E. apply (f_equal length) in E. rewrite length_take in E. cbn in E. replace n with 0%nat by lia. exists (obuf o). split; [done|].
        rewrite Nat.add_0_r, Z.sub_0_r. assert (salt = []) as -> by (destruct salt; [done|cbn in *; lia]). by rewrite app_nil_r; destruct o.
      + exists buf. rewrite length_take in Hw'. replace (n `min` length salt)%nat with n in Hw' by lia. split.
        * destruct (take n salt) eqn:En; [|done]. revert E. unfold store, write_at.
          cbn. destruct (_ <=? _)%nat; [|done]. intros [= <-]. rewrite Nat.add_0_r. by rewrite take_drop.
        * destruct (Nat.le_gt_cases (length salt) n) as [Hle|Hgt]; [by rewrite take_ge in Hw'|].
          rewrite <- (take_drop n salt), (assoc (++)). apply wrote_full; [done|]. cbn [room]. lia. }
  replace (salt ++ t) with (take n salt ++ drop n salt ++ t) by (by rewrite (assoc (++)), take_drop).
  rewrite stpncpy_exact by (first [by apply Forall_take|rewrite length_take; lia]). rewrite E. cbn [mbind outcome_bind fst snd].
  destruct (put_wrote _ _ DOLLAR Hw') as (o' & E' & H'). exists o'. split; [exact E'|]. by rewrite (assoc (++)).
Qed.

Lemma snprintf_wrote text o t :
  wrote text o →
  ∃ r, snprintf (obuf o) (cp o) (Z.to_nat (Z.max 0 (room o))) t = Val r ∧ r.2 = length t ∧
    wrote (text ++ t) (Out r.1 (cp o + r.2) (room o - Z.of_nat r.2)).
Proof using fits.
  intros Hw. pose proof (wrote_length text o Hw) as Hl. unfold snprintf.
  destruct (Z.to_nat (Z.max 0 (room o))) as [|n] eqn:En.
  - eexists. split; [done|]. split; [done|]. cbn [fst snd]. right. rewrite length_app. cbn [room obuf].
    destruct (wrote_full text o [] Hw ltac:(lia)) as [(H1 & H2 & H3 & H4)|(H1 & H2 & H3 & H4)];
      rewrite app_nil_r in *; split_and!; try (done || lia).
    rewrite H4. replace (buflen - length text)%nat with 0%nat by lia. cbn [replicate app]. by rewrite drop_app_length' by lia.
  - destruct (wrote_store text o (take n t ++ [0]) Hw) as [?|(buf & E & Hw')].
    { rewrite length_app, length_take. cbn. lia. } { by destruct (take n t). }
    rewrite E. eexists. split; [done|]. split; [done|]. cbn [fst snd].
    destruct (Nat.le_gt_cases (length t) n) as [Hle|Hgt].
    + rewrite take_ge in * by done. destruct Hw as [(H1 & H2 & H3 & H4)|(H1 & H2 & _)]; [|lia].
      destruct Hw' as [(K1 & K2 & K3 & K4)|(K1 & K2 & K3 & K4)]; rewrite !length_app in *; cbn [length cp room obuf] in *.
      * left. rewrite length_app. cbn [cp room obuf]. split_and!; [lia|lia|lia|]. rewrite K4, <- !(assoc (++)). do 2 f_equal.
        replace (buflen - (length text + length t))%nat with (S (buflen - (length text + (length t + 1))))%nat by lia. done.
      * left. rewrite length_app. cbn [cp room obuf]. split_and!; [lia|lia|lia|].
        rewrite H4, H2 in E. rewrite write_zeros in E by (rewrite length_app; cbn; lia). injection E as <-.
        rewrite <- !(assoc (++)). do 2 f_equal. rewrite length_app. cbn [length].
        replace (buflen - (length text + length t))%nat with (S (buflen - length text - (length t + 1)))%nat by lia. done.
    + right. rewrite length_app. cbn [room obuf]. pose proof (wrote_length _ _ Hw') as Hl'. cbn [obuf] in Hl'.
      destruct (wrote_full _ _ [] Hw') as [(K1 & K2 & K3 & K4)|(K1 & K2 & K3 & K4)];
        [cbn [room]; rewrite length_app, length_take; cbn; lia| |];
        rewrite app_nil_r in *; cbn [cp room obuf] in *; rewrite !length_app, length_take in *; cbn [length] in *;
        destruct Hw as [(H1 & H2 & H3 & H4)|(H1 & H2 & _)]; try lia.
      * split_and!; [lia|lia|done|]. rewrite K4, drop_app_ge by (rewrite !length_app, length_take; cbn; lia).
        rewrite drop_app_length'; [done|]. rewrite length_replicate, !length_app, length_take. cbn. lia.
      * split_and!; [lia|lia|done|done].
Qed.

(** ** The encoded hash *)

Fixpoint b64_chars (n : nat) (w : Z) : list Z :=
  match n with
  | O => []
  | S n => nth (Z.to_nat (w mod 64)) b64t 0 :: b64_chars n (w / 64)
  end.

Lemma b64t_lookup w : b64t !! Z.to_nat (w mod 64) = Some (nth (Z.to_nat (w mod 64)) b64t 0).
Proof using.
  clear fits. pose proof (Z.mod_pos_bound w 64 ltac:(lia)) as Hm. rewrite nth_lookup.
  destruct (b64t !! Z.to_nat (w mod 64)) eqn:E; [done|]. apply lookup_ge_None in E.
  change (length b64t) with 64%nat in E. lia.
Qed.

Lemma b64_loop_wrote n w text o :
  wrote text o → ∃ o', b64_loop n w o = Val o' ∧ wrote (text ++ b64_chars n w) o'.
Proof using fits.
  revert w text o. induction n as [|n IH]; intros w text o Hw; cbn [b64_loop b64_chars].
  - exists o. by rewrite app_nil_r.
  - destruct (Z.ltb_spec 0 (room o)) as [Hr|Hr].
    + change 0x3f with (Z.ones 6). rewrite Z.land_ones by lia. change (2 ^ 6) with 64.
      rewrite b64t_lookup. cbn [deref mbind outcome_bind]. set (c := nth _ _ _).
      destruct (put_wrote text o c Hw) as (o1 & E1 & Hw1). rewrite (proj2 (Z.ltb_lt _ _) Hr) in E1.
      rewrite E1. cbn [mbind outcome_bind]. destruct (IH (Z.shiftr w 6) _ _ Hw1) as (o2 & E2 & Hw2).
      exists o2. split; [done|]. rewrite <- (assoc (++)) in Hw2. rewrite Z.shiftr_div_pow2 in Hw2 by lia. exact Hw2.
    + exists o. split; [done|]. by apply wrote_full.
Qed.

Definition byte_or0 (r : list Z) (i : option nat) : Z := from_option (λ i, nth i r 0) 0 i.
Definition group_ok (n : nat) (g : group) : Prop :=
  let '(i2, i1, i0, _) := g in
  Forall (λ i, ∀ k, i = Some k → (k < n)%nat) [i2; i1; i0].
Definition group_text (r : list Z) (g : group) : list Z :=
  let '(i2, i1, i0, n) := g in
  b64_chars n (wrapu 32 (Z.lor (Z.lor (Z.shiftl (byte_or0 r i2) 16) (Z.shiftl (byte_or0 r i1) 8)) (byte_or0 r i0))).
Definition hash_text (gs : list group) (r : list Z) : list Z := mjoin (group_text r <$> gs).

Lemma byte_at_spec r i : (∀ k, i = Some k → (k < length r)%nat) → byte_at r i = Val (byte_or0 r i).
Proof using.
  clear fits. intros H. destruct i as [k|]; [|done]. cbn. destruct (lookup_lt_is_Some_2 r k (H k eq_refl)) as [x E].
  rewrite E. cbn. f_equal. by rewrite nth_lookup, E.
Qed.

Lemma put_hash_wrote gs r text o :
  Forall (group_ok (length r)) gs → wrote text o →
  ∃ o', put_hash gs r o = Val o' ∧ wrote (text ++ hash_text gs r) o'.
Proof using fits.
  intros Hg. revert text o. induction Hg as [|[[[i2 i1] i0] n] gs Hg Hgs IH]; intros text o Hw.
  - exists o. unfold hash_text. cbn. by rewrite app_nil_r.
  - unfold group_ok in Hg. rewrite !Forall_cons in Hg. destruct Hg as (H2 & H1 & H0 & _).
    cbn [put_hash]. rewrite !byte_at_spec by done. cbn [mbind outcome_bind]. unfold b64_from_24bit.
    set (w := wrapu 32 _). destruct (b64_loop_wrote n w text o Hw) as (o1 & E1 & Hw1). rewrite E1. cbn [mbind outcome_bind].
    destruct (IH _ _ Hw1) as (o2 & E2 & Hw2). exists o2. split; [done|]. rewrite <- (assoc (++)) in Hw2. exact Hw2.
Qed.
End text.

Lemma b64_chars_in n w : Forall (λ c, c ∈ b64t) (b64_chars n w).
Proof.
  revert w. induction n as [|n IH]; intros w; constructor; [|apply IH].
  eapply list_elem_of_lookup_2. apply b64t_lookup.
Qed.

Lemma b64t_chars c : c ∈ b64t → c ≠ 0 ∧ c ≠ DOLLAR.
Proof.
  intros Hc. assert (Forall (λ c, c ≠ 0 ∧ c ≠ DOLLAR) b64t) as H by (apply (bool_decide_eq_true_1 _); by vm_compute).
  rewrite Forall_forall in H. by apply H.
Qed.

Lemma b64_chars_length n w : length (b64_chars n w) = n.
Proof. revert w. induction n as [|n IH]; intros w; cbn; [done|]. by rewrite IH. Qed.

Lemma hash_text_chars gs r : Forall (λ c, c ≠ 0 ∧ c ≠ DOLLAR) (hash_text gs r).
Proof.
  unfold hash_text. apply Forall_join, Forall_fmap, Forall_true. intros [[[i2 i1] i0] n].
  eapply Forall_impl; [apply b64_chars_in|]. exact b64t_chars.
Qed.

Lemma hash_text_length gs r : length (hash_text gs r) = list_sum (snd <$> gs).
Proof.
  unfold hash_text. induction gs as [|[[[i2 i1] i0] n] gs IH]; [done|].
  change (length (group_text r (i2, i1, i0, n) ++ mjoin (group_text r <$> gs)) = (n + list_sum (snd <$> gs))%nat).
  rewrite length_app, IH. unfold group_text. by rewrite b64_chars_length.
Qed.
End CryptOut.
