(* ===== verification/ShaCrypt.v ===== *)
(** * SHA-based password hashing: [crypt/sha256-crypt.c], [crypt/sha512-crypt.c]

    [__sha256_crypt_r] and [__sha512_crypt_r] are one algorithm over the two
    digests of [Sha2]; [algo] says which file is meant and supplies what
    differs: the prefix, the size of a digest and the order in which the
    bytes of the hash are printed.  The build without [USE_NSS] is modelled,
    with the contexts, the arrays and the copies the code keeps on its stack,
    which are part of the result so that what is left in them can be stated.
    Whether a pointer is misaligned and what [__libc_use_alloca] and [malloc]
    answer are inputs. *)

From S2P Require Import Prelude CString Strtol Digest Sha2 Printf CryptOut.
Local Open Scope Z_scope.

Module ShaCrypt.
Import CString Digest Sha2 Printf CryptOut.

Inductive algo := SHA256 | SHA512.

Definition md (a : algo) : Md Z := match a with SHA256 => sha256 | SHA512 => sha512 end.
Definition salt_prefix (a : algo) : list Z := match a with SHA256 => $"$5$" | SHA512 => $"$6$" end.
(** [sizeof (alt_result)]. *)
Definition dsize (a : algo) : nat := match a with SHA256 => 32 | SHA512 => 64 end.

Definition rounds_prefix : list Z := $"rounds=".
Definition SALT_LEN_MAX : nat := 16.
Definition ROUNDS_DEFAULT : Z := 5000.
Definition ROUNDS_MIN : Z := 1000.
Definition ROUNDS_MAX : Z := 999999999.

(** The arguments of [__b64_from_24bit], a line each. *)
Definition groups256 : list group :=
  [(Some 0, Some 10, Some 20, 4); (Some 21, Some 1, Some 11, 4);
   (Some 12, Some 22, Some 2, 4); (Some 3, Some 13, Some 23, 4);
   (Some 24, Some 4, Some 14, 4); (Some 15, Some 25, Some 5, 4);
   (Some 6, Some 16, Some 26, 4); (Some 27, Some 7, Some 17, 4);
   (Some 18, Some 28, Some 8, 4); (Some 9, Some 19, Some 29, 4);
   (None, Some 31, Some 30, 3)]%nat.

Definition groups512 : list group :=
  [(Some 0, Some 21, Some 42, 4); (Some 22, Some 43, Some 1, 4);
   (Some 44, Some 2, Some 23, 4); (Some 3, Some 24, Some 45, 4);
   (Some 25, Some 46, Some 4, 4); (Some 47, Some 5, Some 26, 4);
   (Some 6, Some 27, Some 48, 4); (Some 28, Some 49, Some 7, 4);
   (Some 50, Some 8, Some 29, 4); (Some 9, Some 30, Some 51, 4);
   (Some 31, Some 52, Some 10, 4); (Some 53, Some 11, Some 32, 4);
   (Some 12, Some 33, Some 54, 4); (Some 34, Some 55, Some 13, 4);
   (Some 56, Some 14, Some 35, 4); (Some 15, Some 36, Some 57, 4);
   (Some 37, Some 58, Some 16, 4); (Some 59, Some 17, Some 38, 4);
   (Some 18, Some 39, Some 60, 4); (Some 40, Some 61, Some 19, 4);
   (Some 62, Some 20, Some 41, 4); (None, None, Some 63, 2)]%nat.

Definition groups (a : algo) : list group := match a with SHA256 => groups256 | SHA512 => groups512 end.

(** ** The salt argument *)

(** Where the salt starts, the number of rounds, and [rounds_custom]. *)
Definition find_salt (a : algo) (salt : list Z) : outcome (list Z * Z * bool) :=
  d ← strncmp (salt_prefix a ++ [0]) salt (length (salt_prefix a));
  let salt := if d =? 0 then drop (length (salt_prefix a)) salt else salt in
  d ← strncmp salt (rounds_prefix ++ [0]) (length rounds_prefix);
  if d =? 0 then
    let num := drop (length rounds_prefix) salt in
    r ← Strtol.strtoul num 10;
    endp ← deref (Strtol.endptr r);
    c ← deref (num !! endp);
    if c =? DOLLAR then
      Val (drop (S endp) num, Z.max ROUNDS_MIN (Z.min (Strtol.ret r) ROUNDS_MAX), true)
    else Val (salt, ROUNDS_DEFAULT, false)
  else Val (salt, ROUNDS_DEFAULT, false).

Definition salt_length (salt : list Z) : outcome nat :=
  n ← strcspn salt [DOLLAR; 0]; Val (Nat.min n SALT_LEN_MAX).

(** ** The digests *)

Section hash.
Context {T : Type} `{HM : Md T}.
Variable size : nat.

(** [for (cnt = key_len; cnt > size; cnt -= size)] and the statement after
    it: a byte of [alt_result] for each character of the key. *)
Fixpoint add_alt (fuel cnt : nat) (alt_result : list Z) (c : ctx T) : outcome (ctx T) :=
  match fuel with
  | O => NoFuel
  | S fuel =>
      if (size <? cnt)%nat
      then c ← process_bytes alt_result size c; add_alt fuel (cnt - size) alt_result c
      else process_bytes alt_result cnt c
  end.

(** [for (cnt = key_len; cnt > 0; cnt >>= 1)]. *)
Fixpoint add_bits (fuel : nat) (cnt : Z) (key alt_result : list Z) (key_len : nat) (c : ctx T) : outcome (ctx T) :=
  match fuel with
  | O => NoFuel
  | S fuel =>
      if 0 <? cnt then
        c ← (if negb (Z.land cnt 1 =? 0) then process_bytes alt_result size c
             else process_bytes key key_len c);
        add_bits fuel (Z.shiftr cnt 1) key alt_result key_len c
      else Val c
  end.

(** [n] times the same bytes. *)
Fixpoint add_times (n : nat) (bs : list Z) (len : nat) (c : ctx T) : outcome (ctx T) :=
  match n with
  | O => Val c
  | S n => c ← process_bytes bs len c; add_times n bs len c
  end.

(** [for (cnt = len; cnt >= size; cnt -= size) cp = mempcpy (cp, temp_result, size);
    memcpy (cp, temp_result, cnt);] *)
Fixpoint fill_bytes (fuel cnt : nat) (arr : list Z) (cp : nat) (temp_result : list Z) : outcome (list Z) :=
  match fuel with
  | O => NoFuel
  | S fuel =>
      if (size <=? cnt)%nat then
        bs ← read_n temp_result size;
        arr ← write_at arr cp bs;
        fill_bytes fuel (cnt - size) arr (cp + size) temp_result
      else bs ← read_n temp_result cnt; write_at arr cp bs
  end.

(** One pass of the loop that burns CPU cycles. *)
Definition burn (cnt : Z) (p_bytes s_bytes : list Z) (key_len salt_len : nat) (c : ctx T) (alt_result : list Z)
    : outcome (ctx T * list Z) :=
  let c := init_ctx (buffer c) in
  let odd := negb (Z.land cnt 1 =? 0) in
  c ← (if odd then process_bytes p_bytes key_len c else process_bytes alt_result size c);
  c ← (if negb (cnt mod 3 =? 0) then process_bytes s_bytes salt_len c else Val c);
  c ← (if negb (cnt mod 7 =? 0) then process_bytes p_bytes key_len c else Val c);
  c ← (if odd then process_bytes alt_result size c else process_bytes p_bytes key_len c);
  finish_ctx c.

(** The loop: [n] more passes from [cnt] on. *)
Fixpoint burn_loop (n : nat) (cnt : Z) (p_bytes s_bytes : list Z) (key_len salt_len : nat) (c : ctx T) (alt_result : list Z)
    : outcome (ctx T * list Z) :=
  match n with
  | O => Val (c, alt_result)
  | S n =>
      r ← burn cnt p_bytes s_bytes key_len salt_len c alt_result;
      burn_loop n (cnt + 1) p_bytes s_bytes key_len salt_len r.1 r.2
  end.

(** The first two digests: [ctx], [alt_ctx] and [alt_result] after them. *)
Definition first_digests (key salt : list Z) (key_len salt_len : nat) (c alt : ctx T) : outcome (ctx T * ctx T * list Z) :=
  c ← process_bytes key key_len (init_ctx (buffer c));
  c ← process_bytes salt salt_len c;
  alt ← process_bytes key key_len (init_ctx (buffer alt));
  alt ← process_bytes salt salt_len alt;
  alt ← process_bytes key key_len alt;
  r ← finish_ctx alt;
  let alt := r.1 in
  let alt_result := r.2 in
  c ← add_alt (S key_len) key_len alt_result c;
  c ← add_bits (S key_len) (Z.of_nat key_len) key alt_result key_len c;
  r ← finish_ctx c;
  Val (r.1, alt, r.2).

(** A digest of [n] times the same bytes, in [alt_ctx]. *)
Definition times_digest (n : nat) (bs : list Z) (len : nat) (alt : ctx T) : outcome (ctx T * list Z) :=
  alt ← add_times n bs len (init_ctx (buffer alt));
  finish_ctx alt.
End hash.

(** ** [__sha256_crypt_r] and [__sha512_crypt_r] *)

Definition ENOMEM : Z := 12.

(** What the code asks its surroundings: whether [key] and [salt] are
    misaligned, and, for the copy of the key and for [p_bytes], the answers
    of [__libc_use_alloca] and whether [malloc] succeeds. *)
Record answers := Answers {
  key_misaligned : bool; salt_misaligned : bool;
  alloca_key : bool; malloc_key : bool; alloca_p : bool; malloc_p : bool
}.

(** The local objects that hold key-dependent bytes. *)
Record locals := Locals {
  l_ctx : ctx Z; l_alt_ctx : ctx Z;
  l_alt_result : list Z; l_temp_result : list Z; l_p_bytes : list Z; l_s_bytes : list Z;
  l_copied_key : option (list Z); l_copied_salt : option (list Z)
}.

(** Whether [buffer] is returned rather than [NULL], its contents, the value
    given to [errno], and the local objects at the return. *)
Record result := Result { returned : bool; rbuffer : list Z; set_errno : option Z; left_over : locals }.

Definition put_rounds (o : out) (rounds : Z) : outcome out :=
  r ← snprintf (obuf o) (cp o) (Z.to_nat (Z.max 0 (room o))) (rounds_prefix ++ fmt_u rounds ++ [DOLLAR]);
  Val (Out r.1 (cp o + r.2) (room o - Z.of_nat r.2)).

(** The result string. *)
Definition put_result (a : algo) (buffer : list Z) (buflen : Z) (rounds : Z) (rounds_custom : bool)
    (salt : list Z) (salt_len : nat) (alt_result : list Z) : outcome (bool * list Z * option Z) :=
  o ← put_prefix buffer buflen (salt_prefix a);
  o ← (if rounds_custom then put_rounds o rounds else Val o);
  o ← put_salt o salt salt_len;
  o ← put_hash (groups a) alt_result o;
  put_end o.

(** [explicit_bzero]. *)
Definition bzero (bs : list Z) : list Z := replicate (length bs) 0.
Definition bzero_ctx (c : ctx Z) : ctx Z := Ctx (bzero (chain c)) 0 0 (bzero (buffer c)).

(** The statements before the final [return]. *)
Definition cleanup (a : algo) (l : locals) : outcome locals :=
  r ← finish_ctx (H := md a) (init_ctx (H := md a) (buffer (l_ctx l)));
  Val (Locals (bzero_ctx r.1) (bzero_ctx (l_alt_ctx l)) r.2 (bzero (l_temp_result l))
              (bzero (l_p_bytes l)) (bzero (l_s_bytes l))
              (bzero <$> l_copied_key l) (bzero <$> l_copied_salt l)).

Definition crypt_r (a : algo) (q : answers) (l : locals) (key salt buffer : list Z) (buflen : Z)
    : outcome result :=
  find_salt a salt ≫= λ '(salt, rounds, rounds_custom),
  salt_len ← salt_length salt;
  key_len ← strlen key;
  if key_misaligned q && negb (alloca_key q) && negb (malloc_key q)
  then Val (Result false buffer (Some ENOMEM) l)
  else
    key_copy ← read_n key key_len;
    let copied_key := if key_misaligned q then Some key_copy else None in
    let key := default key copied_key in
    salt_copy ← read_n salt salt_len;
    let copied_salt := if salt_misaligned q then Some salt_copy else None in
    let salt := default salt copied_salt in
    first_digests (HM := md a) (dsize a) key salt key_len salt_len (l_ctx l) (l_alt_ctx l) ≫= λ '(c, alt, alt_result),
    times_digest (HM := md a) key_len key key_len alt ≫= λ '(alt, temp_result),
    if negb (alloca_p q) && negb (malloc_p q)
    then Val (Result false buffer (Some ENOMEM)
                (Locals c alt alt_result temp_result (l_p_bytes l) (l_s_bytes l) copied_key copied_salt))
    else
      p_bytes ← fill_bytes (dsize a) (S key_len) key_len (replicate key_len 0) 0 temp_result;
      b ← deref (alt_result !! 0%nat);
      times_digest (HM := md a) (16 + Z.to_nat b) salt salt_len alt ≫= λ '(alt, temp_result),
      s_bytes ← fill_bytes (dsize a) (S salt_len) salt_len (replicate salt_len 0) 0 temp_result;
      burn_loop (HM := md a) (dsize a) (Z.to_nat rounds) 0 p_bytes s_bytes key_len salt_len c alt_result ≫= λ '(c, alt_result),
      put_result a buffer buflen rounds rounds_custom salt salt_len alt_result ≫= λ '(ok, buffer, errno),
      l ← cleanup a (Locals c alt alt_result temp_result p_bytes s_bytes copied_key copied_salt);
      Val (Result ok buffer errno l).

Definition sha256_crypt_r := crypt_r SHA256.
Definition sha512_crypt_r := crypt_r SHA512.

(** ** [__sha256_crypt] and [__sha512_crypt] *)

(** The static variables. *)
Record static := Static { s_buffer : list Z; s_buflen : Z }.

(** The number of characters of the encoded hash, a constant of the code. *)
Definition hash_chars (a : algo) : Z := match a with SHA256 => 43 | SHA512 => 86 end.

(** [realloc] gives the new block, or [None] for [NULL]. *)
Definition crypt (a : algo) (q : answers) (l : locals) (realloc : list Z → Z → option (list Z))
    (key salt : list Z) (st : static) : outcome (option result * static) :=
  n ← strlen salt;
  let needed := wraps 32 (wrapu 64 (Z.of_nat (length (salt_prefix a)) + Z.of_nat (S (length rounds_prefix)) + 9 + 1
                                    + Z.of_nat n + 1 + hash_chars a + 1)) in
  let grown := if s_buflen st <? needed
               then (λ b, Static b needed) <$> realloc (s_buffer st) needed
               else Some st in
  match grown with
  | None => Val (None, st)
  | Some st =>
      r ← crypt_r a q l key salt (s_buffer st) (s_buflen st);
      Val (Some r, Static (rbuffer r) (s_buflen st))
  end.

Definition sha256_crypt := crypt SHA256.
Definition sha512_crypt := crypt SHA512.

(** ** The hash as a function of its inputs *)

(** [n] bytes of [d] repeated. *)
Definition cycle (d : list Z) (n : nat) : list Z := (λ i, nth (i mod length d) d 0) <$> seq 0 n.
Definition times (n : nat) (m : list Z) : list Z := mjoin (replicate n m).
(** The binary digits of a number, the least significant one first. *)
Fixpoint pos_bits (p : positive) : list bool :=
  match p with
  | xH => [true]
  | xO p => false :: pos_bits p
  | xI p => true :: pos_bits p
  end.
Definition bits (n : nat) : list bool := match Z.of_nat n with Zpos p => pos_bits p | _ => [] end.

Section spec.
Variable D : list Z → list Z.

Definition hash_B (key salt : list Z) : list Z := D (key ++ salt ++ key).
Definition hash_A (key salt : list Z) : list Z :=
  let B := hash_B key salt in
  D (key ++ salt ++ cycle B (length key) ++ mjoin ((λ b : bool, if b then B else key) <$> bits (length key))).
Definition seq_P (key : list Z) : list Z := cycle (D (times (length key) key)) (length key).
Definition seq_S (key salt : list Z) : list Z :=
  cycle (D (times (16 + Z.to_nat (nth 0 (hash_A key salt) 0)) salt)) (length salt).
Definition hash_round (P S C : list Z) (i : Z) : list Z :=
  D ((if Z.odd i then P else C) ++ (if i mod 3 =? 0 then [] else S) ++ (if i mod 7 =? 0 then [] else P)
     ++ (if Z.odd i then C else P)).
Definition hash (key salt : list Z) (rounds : Z) : list Z :=
  foldl (hash_round (seq_P key) (seq_S key salt)) (hash_A key salt) (seqZ 0 rounds).
End spec.

(** ** The contexts compute it *)

Lemma cycle_small d n : (n <= length d)%nat → cycle d n = take n d.
Proof.
  intros Hn. unfold cycle. apply list_eq. intros i. rewrite list_lookup_fmap.
  destruct (decide (i < n)%nat) as [Hi|Hi].
  - rewrite lookup_seq_lt, lookup_take_lt by done. cbn. rewrite Nat.mod_small by lia.
    destruct (lookup_lt_is_Some_2 d i ltac:(lia)) as [x E]. by rewrite E, nth_lookup, E.
  - rewrite lookup_seq_ge, lookup_take_ge by lia. done.
Qed.

Lemma cycle_step d n : (length d <= n)%nat → d ≠ [] → cycle d n = d ++ cycle d (n - length d).
Proof.
  intros Hn Hd. assert (0 < length d)%nat by (destruct d; [done|cbn; lia]).
  rewrite <- (take_ge d (length d)) at 2 by done. rewrite <- cycle_small by done. unfold cycle.
  replace n with (length d + (n - length d))%nat at 1 by lia. rewrite seq_app, fmap_app. f_equal.
  rewrite Nat.add_0_l, <- (Nat.add_0_r (length d)) at 1. rewrite <- fmap_add_seq, <- list_fmap_compose.
  apply list_fmap_ext. intros _ i _. cbn. f_equal. rewrite <- Nat.Div0.add_mod_idemp_l, Nat.Div0.mod_same. done.
Qed.

Lemma cycle_length d n : length (cycle d n) = n.
Proof. unfold cycle. by rewrite length_fmap, length_seq. Qed.

Section digests.
Context {T : Type} `{HM : Md T} {count : Z → T} `{HL : !MdLaws HM count}.
Variable size : nat.
Hypothesis size_pos : (0 < size)%nat.
Hypothesis digest_size : ∀ m, length (md_digest count m) = size.
Local Notation "'D'" := (md_digest count).
Local Notation "'rep'" := (represents (count := count)).

(** A context that can be started. *)
Definition sized (c : ctx T) : Prop := length (buffer c) = (2 * block)%nat.

Lemma init_rep c : sized c → rep [] (init_ctx (buffer c)).
Proof using HL. apply init_represents. Qed.

Lemma rep_process m n s c :
  (n <= length s)%nat → rep m c → ∃ c', process_bytes s n c = Val c' ∧ rep (m ++ take n s) c'.
Proof using HL.
  intros Hn Hc. destruct (process_bytes_spec m (take n s) (drop n s) c Hc) as (c' & E & Hc').
  rewrite take_drop, length_take, Nat.min_l in E by done. eauto.
Qed.

Lemma write_at_length buf off bs buf' : write_at buf off bs = Val buf' → length buf' = length buf.
Proof using.
  clear. unfold write_at. destruct (Nat.leb_spec (off + length bs) (length buf)); [|done]. intros [= <-].
  rewrite !length_app, length_take, length_drop. lia.
Qed.

Lemma rep_finish m c : rep m c → ∃ c', finish_ctx c = Val (c', D m) ∧ sized c'.
Proof using HL.
  intros Hc. destruct (finish_ctx_spec m c Hc) as (c' & E). exists c'. split; [done|].
  destruct Hc as (k & p & q & j & Hh). pose proof (hm_size _ _ _ _ _ _ Hh) as Hs. clear Hh.
  revert E. unfold finish_ctx, sized. cbv zeta. destruct (read_n _ _) as [f| |]; try done. cbn [mbind outcome_bind].
  destruct (write_at (buffer c) _ f) as [b| |] eqn:E1; try done. cbn [mbind outcome_bind].
  destruct (write_at b _ _) as [b'| |] eqn:E2; try done. cbn [mbind outcome_bind]. unfold process_block.
  destruct (read_n _ _) as [d| |]; try done. cbn [mbind outcome_bind].
  destruct (_ =? 0)%nat; [|done]. cbn [mbind outcome_bind]. intros [= <- _]. cbn [buffer].
  by rewrite (write_at_length _ _ _ _ E2), (write_at_length _ _ _ _ E1).
Qed.

Lemma add_alt_rep fuel cnt alt m c :
  length alt = size → (cnt < fuel)%nat → rep m c →
  ∃ c', add_alt size fuel cnt alt c = Val c' ∧ rep (m ++ cycle alt cnt) c'.
Proof using HL size_pos.
  intros Ha. revert cnt m c. induction fuel as [|fuel IH]; intros cnt m c Hf Hc; [lia|]. cbn [add_alt].
  destruct (Nat.ltb_spec size cnt) as [Hlt|Hge].
  - destruct (rep_process m size alt c) as (c1 & -> & H1); [lia|done|]. cbn [mbind outcome_bind].
    destruct (IH (cnt - size)%nat (m ++ take size alt) c1) as (c2 & -> & H2); [lia|done|].
    exists c2. split; [done|]. rewrite take_ge, <- (assoc (++)) in H2 by lia.
    rewrite cycle_step by (lia || (intros ->; cbn in *; lia)). by rewrite Ha.
  - destruct (rep_process m cnt alt c) as (c1 & -> & H1); [lia|done|]. exists c1. split; [done|].
    rewrite cycle_small by lia. done.
Qed.

Lemma add_bits_rep fuel p key key' alt m c :
  length alt = size → take (length key) key' = key → (length key <= length key')%nat →
  (Pos.to_nat p < fuel)%nat → rep m c →
  ∃ c', add_bits size fuel (Zpos p) key' alt (length key) c = Val c' ∧
    rep (m ++ mjoin ((λ b : bool, if b then alt else key) <$> pos_bits p)) c'.
Proof using HL size_pos.
  intros Ha Hk Hk'. revert p m c. induction fuel as [|fuel IH]; intros p m c Hf Hc; [lia|].
  cbn [add_bits]. cbn [Z.ltb Z.compare].
  assert (∃ c1, (if negb (Z.land (Zpos p) 1 =? 0) then process_bytes alt size c else process_bytes key' (length key) c) = Val c1 ∧
    rep (m ++ (if Z.odd (Zpos p) then alt else key)) c1) as (c1 & -> & H1).
  { destruct p; cbn [Z.land Pos.land Z.odd Z.eqb negb].
    - destruct (rep_process m size alt c) as (c1 & E & H1); [lia|done|]. rewrite take_ge in H1 by lia. eauto.
    - destruct (rep_process m (length key) key' c) as (c1 & E & H1); [done|done|]. rewrite Hk in H1. eauto.
    - destruct (rep_process m size alt c) as (c1 & E & H1); [lia|done|]. rewrite take_ge in H1 by lia. eauto. }
  cbn [mbind outcome_bind]. destruct p as [p|p|].
  - destruct (IH p _ c1 ltac:(lia) H1) as (c2 & E & H2). exists c2. split; [exact E|].
    by rewrite <- (assoc (++)) in H2.
  - destruct (IH p _ c1 ltac:(lia) H1) as (c2 & E & H2). exists c2. split; [exact E|].
    by rewrite <- (assoc (++)) in H2.
  - destruct fuel; [lia|]. exists c1. split; [done|]. cbn. by rewrite app_nil_r.
Qed.

Lemma add_times_rep n bs bs' m c :
  take (length bs) bs' = bs → (length bs <= length bs')%nat → rep m c →
  ∃ c', add_times n bs' (length bs) c = Val c' ∧ rep (m ++ times n bs) c'.
Proof using HL.
  intros Hk Hk'. revert m c. induction n as [|n IH]; intros m c Hc; cbn [add_times].
  - exists c. unfold times. cbn. by rewrite app_nil_r.
  - destruct (rep_process m (length bs) bs' c) as (c1 & -> & H1); [done|done|]. rewrite Hk in H1. cbn [mbind outcome_bind].
    destruct (IH _ _ H1) as (c2 & E & H2). exists c2. split; [done|]. by rewrite <- (assoc (++)) in H2.
Qed.

Lemma times_digest_spec n bs bs' alt :
  take (length bs) bs' = bs → (length bs <= length bs')%nat → sized alt →
  ∃ alt', times_digest n bs' (length bs) alt = Val (alt', D (times n bs)) ∧ sized alt'.
Proof using HL.
  intros Hk Hk' Hs. unfold times_digest.
  destruct (add_times_rep n bs bs' [] _ Hk Hk' (init_rep alt Hs)) as (c & -> & Hc). by apply rep_finish.
Qed.

Lemma first_digests_spec key key' salt salt' c alt :
  take (length key) key' = key → (length key <= length key')%nat →
  take (length salt) salt' = salt → (length salt <= length salt')%nat → sized c → sized alt →
  ∃ c' alt', first_digests size key' salt' (length key) (length salt) c alt = Val (c', alt', hash_A D key salt) ∧
    sized c' ∧ sized alt'.
Proof using HL size_pos digest_size.
  intros Hk Hk' Hs Hs' Hc Ha. unfold first_digests.
  destruct (rep_process [] (length key) key' _ Hk' (init_rep c Hc)) as (c1 & -> & H1). rewrite Hk in H1. cbn [mbind outcome_bind].
  destruct (rep_process _ (length salt) salt' _ Hs' H1) as (c2 & -> & H2). rewrite Hs in H2. cbn [mbind outcome_bind].
  destruct (rep_process [] (length key) key' _ Hk' (init_rep alt Ha)) as (a1 & -> & A1). rewrite Hk in A1. cbn [mbind outcome_bind].
  destruct (rep_process _ (length salt) salt' _ Hs' A1) as (a2 & -> & A2). rewrite Hs in A2. cbn [mbind outcome_bind].
  destruct (rep_process _ (length key) key' _ Hk' A2) as (a3 & -> & A3). rewrite Hk in A3. cbn [mbind outcome_bind].
  destruct (rep_finish _ _ A3) as (a4 & -> & A4). cbn [mbind outcome_bind fst snd app] in *.
  replace ((key ++ salt) ++ key) with (key ++ salt ++ key) by (by rewrite (assoc (++))). set (B := D (key ++ salt ++ key)). assert (length B = size) as HB by apply digest_size.
  destruct (add_alt_rep (S (length key)) (length key) B _ c2 HB ltac:(lia) H2) as (c3 & -> & H3). cbn [mbind outcome_bind].
  assert (∃ c4, add_bits size (S (length key)) (Z.of_nat (length key)) key' B (length key) c3 = Val c4 ∧
    rep (((key ++ salt) ++ cycle B (length key)) ++ mjoin ((λ b : bool, if b then B else key) <$> bits (length key))) c4) as (c4 & -> & H4).
  { unfold bits. destruct (Z.of_nat (length key)) as [|p|p] eqn:E; [| |lia].
    - exists c3. split; [done|]. cbn. by rewrite app_nil_r.
    - apply add_bits_rep; [done|done|done|lia|done]. }
  cbn [mbind outcome_bind]. destruct (rep_finish _ _ H4) as (c5 & -> & H5). cbn [mbind outcome_bind fst snd].
  exists c5, a4. split; [|done]. unfold hash_A, hash_B. fold B. by rewrite <- !(assoc (++)).
Qed.

(** The array is filled exactly. *)
Lemma fill_bytes_spec fuel cnt done_ cp todo t :
  length t = size → (cnt < fuel)%nat → length todo = cnt → cp = length done_ →
  fill_bytes size fuel cnt (done_ ++ todo) cp t = Val (done_ ++ cycle t cnt).
Proof using size_pos.
  intros Ht. revert cnt done_ cp todo. induction fuel as [|fuel IH]; intros cnt done_ cp todo Hf Hl ->; [lia|].
  cbn [fill_bytes]. destruct (Nat.leb_spec size cnt) as [Hle|Hgt].
  - unfold read_n. rewrite (proj2 (Nat.leb_le _ _)) by lia. cbn [mbind outcome_bind]. rewrite take_ge by lia.
    rewrite <- (take_drop size todo). rewrite write_at_mid by (rewrite length_take; lia). cbn [mbind outcome_bind].
    rewrite (assoc (++)), IH by (rewrite ?length_drop, ?length_app; lia). rewrite <- (assoc (++)). do 2 f_equal.
    rewrite (cycle_step t cnt) by (lia || (intros ->; cbn in *; lia)). by rewrite Ht.
  - unfold read_n. rewrite (proj2 (Nat.leb_le _ _)) by lia. cbn [mbind outcome_bind].
    rewrite <- (app_nil_r todo). rewrite write_at_mid by (rewrite length_take; lia).
    rewrite app_nil_r, cycle_small by lia. done.
Qed.

Lemma rep_if (b : bool) m s s' n c :
  take n s' = s → (n <= length s')%nat → rep m c →
  ∃ c', (if negb b then process_bytes s' n c else Val c) = Val c' ∧ rep (m ++ (if b then [] else s)) c'.
Proof using HL.
  intros <- Hn Hc. destruct b; cbn [negb]; [exists c; by rewrite app_nil_r|]. by apply rep_process.
Qed.

Lemma rep_choice (b : bool) m s s' t t' n k c :
  take n s' = s → (n <= length s')%nat → take k t' = t → (k <= length t')%nat → rep m c →
  ∃ c', (if b then process_bytes s' n c else process_bytes t' k c) = Val c' ∧ rep (m ++ (if b then s else t)) c'.
Proof using HL. intros <- Hn <- Hk Hc. destruct b; by apply rep_process. Qed.

Lemma odd_land x : negb (Z.land x 1 =? 0) = Z.odd x.
Proof using.
  clear. change 1 with (Z.ones 1). rewrite Z.land_ones by lia. change (2 ^ 1) with 2. rewrite Zmod_odd. by destruct (Z.odd x).
Qed.

Lemma burn_spec cnt P P' S S' C kl sl c :
  take kl P' = P → (kl <= length P')%nat → take sl S' = S → (sl <= length S')%nat → length C = size → sized c →
  ∃ c', burn size cnt P' S' kl sl c C = Val (c', hash_round D P S C cnt) ∧ sized c'.
Proof using HL.
  intros HP HP' HS HS' HC Hc. unfold burn. rewrite odd_land.
  assert (take size C = C ∧ (size <= length C)%nat) as [HC1 HC2] by (rewrite take_ge by (by rewrite HC); split; [done|by rewrite HC]).
  destruct (rep_choice (Z.odd cnt) [] P P' C C kl size _ HP HP' HC1 HC2 (init_rep c Hc)) as (c1 & -> & H1). cbn [mbind outcome_bind].
  destruct (rep_if (cnt mod 3 =? 0) _ S S' sl _ HS HS' H1) as (c2 & -> & H2). cbn [mbind outcome_bind].
  destruct (rep_if (cnt mod 7 =? 0) _ P P' kl _ HP HP' H2) as (c3 & -> & H3). cbn [mbind outcome_bind].
  destruct (rep_choice (Z.odd cnt) _ C C P P' size kl _ HC1 HC2 HP HP' H3) as (c4 & -> & H4). cbn [mbind outcome_bind].
  destruct (rep_finish _ _ H4) as (c5 & -> & H5). exists c5. split; [|done]. unfold hash_round.
  cbn [app]. by rewrite <- !(assoc (++)).
Qed.

Lemma burn_loop_spec n cnt P P' S S' C kl sl c :
  take kl P' = P → (kl <= length P')%nat → take sl S' = S → (sl <= length S')%nat → length C = size → sized c →
  ∃ c', burn_loop size n cnt P' S' kl sl c C = Val (c', foldl (hash_round D P S) C (seqZ cnt (Z.of_nat n))) ∧ sized c'.
Proof using HL digest_size size_pos.
  intros HP HP' HS HS'. revert cnt C c. induction n as [|n IH]; intros cnt C c HC Hc; cbn [burn_loop].
  - exists c. done.
  - destruct (burn_spec cnt P P' S S' C kl sl c HP HP' HS HS' HC Hc) as (c1 & -> & H1). cbn [mbind outcome_bind fst snd].
    destruct (IH (cnt + 1) (hash_round D P S C cnt) c1) as (c2 & -> & H2); [apply digest_size|done|].
    exists c2. split; [|done]. rewrite (seqZ_cons cnt (Z.of_nat (Datatypes.S n))) by lia. cbn [foldl].
    rewrite Z.add_1_r. replace (Z.pred (Z.of_nat (Datatypes.S n))) with (Z.of_nat n) by lia. done.
Qed.
End digests.

(** ** The digests of the two algorithms *)

Definition digest (a : algo) : list Z → list Z := match a with SHA256 => sha256_digest | SHA512 => sha512_digest end.
Definition md_count (a : algo) (n : Z) : Z := match a with SHA256 => n mod 2 ^ 64 | SHA512 => n mod 2 ^ 128 end.

#[export] Instance md_laws a : MdLaws (md a) (md_count a).
Proof. destruct a; [exact sha256_laws|exact sha512_laws]. Qed.

Lemma md_digest_digest a m : md_digest (H := md a) (md_count a) m = digest a m.
Proof.
  destruct a; unfold md_digest, md_pad, digest, sha256_digest, sha512_digest, std_pad; cbn [md md_count].
  - by rewrite sha256_field.
  - by rewrite sha512_field by lia.
Qed.

Lemma compress_blocks_8 a n h bs : length h = 8%nat → length (compress_blocks (H := md a) n h bs) = 8%nat.
Proof. revert h bs. induction n as [|n IH]; intros h bs Hh; [done|]. cbn [compress_blocks]. apply IH. by destruct a. Qed.

Lemma mjoin_const {A} (f : A → list Z) k l : (∀ x, length (f x) = k) → length (mjoin (f <$> l)) = (length l * k)%nat.
Proof.
  intros Hf. induction l as [|x l IH]; [done|]. change (length (f x ++ mjoin (f <$> l)) = (length (x :: l) * k)%nat).
  rewrite length_app, IH, Hf. cbn [length]. lia.
Qed.

Lemma digest_length a m : length (digest a m) = dsize a.
Proof.
  rewrite <- md_digest_digest. unfold md_digest. set (h := compress_blocks _ _ _).
  assert (length h = 8%nat) as Hh by (apply compress_blocks_8; by destruct a).
  destruct a; cbn [md output sha256 sha512 dsize]; unfold sha_output; rewrite (mjoin_const _ _ _ (λ x, le_bytes_length _ _)), Hh; done.
Qed.

(** ** The salt argument *)

(** [s] without the prefix [p]. *)
Fixpoint strip (p s : list Z) : option (list Z) :=
  match p, s with
  | [], _ => Some s
  | c :: p, d :: s => if c =? d then strip p s else None
  | _ :: _, [] => None
  end.

(** The characters before the first dollar sign. *)
Fixpoint before_dollar (s : list Z) : list Z :=
  match s with
  | [] => []
  | c :: s => if c =? DOLLAR then [] else c :: before_dollar s
  end.
Definition salt_field (s : list Z) : list Z := take SALT_LEN_MAX (before_dollar s).

(** The number after [rounds=], when a dollar sign ends it, and what comes
    after. *)
Definition rounds_spec (num : list Z) : option (Z * list Z) :=
  match Strtol.strtoul (num ++ [0]) 10 with
  | Val r =>
      e ← Strtol.endptr r;
      c ← num !! e;
      if c =? DOLLAR then Some (Strtol.ret r, drop (S e) num) else None
  | _ => None
  end.

(** What a salt argument asks for: the salt and what follows it, the number of
    rounds, and whether it names one. *)
Definition setting (a : algo) (arg : list Z) : list Z * Z * bool :=
  let s := default arg (strip (salt_prefix a) arg) in
  match strip rounds_prefix s ≫= rounds_spec with
  | Some (n, rest) => (rest, Z.max ROUNDS_MIN (Z.min n ROUNDS_MAX), true)
  | None => (s, ROUNDS_DEFAULT, false)
  end.

Definition crypt_text (a : algo) (key arg : list Z) : list Z :=
  let '(rest, rounds, custom) := setting a arg in
  let s := salt_field rest in
  salt_prefix a ++ (if custom then rounds_prefix ++ fmt_u rounds ++ [DOLLAR] else [])
  ++ s ++ DOLLAR :: hash_text (groups a) (hash (digest a) key s rounds).

Lemma strip_Some p s r : strip p s = Some r ↔ s = p ++ r.
Proof.
  revert s. induction p as [|c p IH]; intros s; cbn; [split; [by intros [= ->]|by intros ->]|].
  destruct s as [|d s]; [done|]. destruct (Z.eqb_spec c d) as [->|Hne].
  - rewrite IH. split; [by intros ->|by intros [= ->]].
  - split; [done|]. intros [= -> _]. done.
Qed.

Lemma strip_app p s : strip p (p ++ s) = Some s.
Proof. by apply strip_Some. Qed.

Lemma strncmp_ref_sym n s1 s2 : strncmp_ref n s2 s1 = Z.opp <$> strncmp_ref n s1 s2.
Proof.
  revert s1 s2. induction n as [|n IH]; intros [|c1 s1] [|c2 s2]; cbn; try done.
  destruct (Z.eqb_spec c1 0), (Z.eqb_spec c2 0), (Z.eqb_spec c1 c2), (Z.eqb_spec c2 c1); cbn; subst; try done; try (f_equal; lia).
Qed.

(** Both comparisons of [find_salt] test for a prefix. *)
Lemma strncmp_strip p s t1 t2 :
  nul_free p → nul_free s →
  ∃ d, strncmp (s ++ 0 :: t1) (p ++ t2) (length p) = Val d ∧ strncmp (p ++ t2) (s ++ 0 :: t1) (length p) = Val (- d) ∧
    (d =? 0) = bool_decide (is_Some (strip p s)).
Proof.
  intros Hp Hs. destruct (strncmp_prefix p s t1 t2 Hp Hs) as (d & E & Hd). exists d.
  rewrite !strncmp_unrolled, (strncmp_ref_sym _ (s ++ 0 :: t1)), E. split_and!; [done|done|].
  assert (is_Some (strip p s) ↔ p `prefix_of` s) as Hi.
  { split; [intros [r Hr]; apply strip_Some in Hr as ->; by exists r|]. intros [r ->]. exists r. apply strip_app. }
  rewrite (bool_decide_ext _ _ Hi). destruct (Z.eqb_spec d 0) as [Hz|Hz]; symmetry;
    [apply bool_decide_eq_true_2|apply bool_decide_eq_false_2]; tauto.
Qed.

(** [strtoul] does not look past a character that ends a numeral. *)
Definition stops (x : Z) : Prop :=
  Strtol.isspace x = false ∧ (x =? 45) || (x =? 43) = false ∧ (x = 0 ∨ Strtol.digit 10 x = None).

Lemma skip_space_stop s x t :
  Strtol.isspace x = false → ∃ k, Strtol.skip_space (s ++ x :: t) = Val k ∧ (k <= length s)%nat ∧
  ∀ t', Strtol.skip_space (s ++ x :: t') = Val k.
Proof.
  intros Hx. induction s as [|c s (k & E & Hk & H)]; cbn.
  - rewrite Hx. exists 0%nat. split_and!; (done || lia).
  - destruct (Strtol.isspace c).
    + exists (S k). rewrite E. split_and!; [done|lia|]. intros t'. by rewrite H.
    + exists 0%nat. split_and!; (done || lia).
Qed.

Lemma digits_stop cutoff cutlim s x t t' i ov :
  stops x → Strtol.digits 10 cutoff cutlim (s ++ x :: t) i ov = Strtol.digits 10 cutoff cutlim (s ++ x :: t') i ov.
Proof.
  intros (_ & _ & Hx). revert i ov. induction s as [|c s IH]; intros i ov; cbn.
  - destruct Hx as [->|Hx]; [done|]. rewrite Hx. done.
  - destruct (c =? 0); [done|]. destruct (Strtol.digit 10 c); [|done]. by rewrite !IH.
Qed.

Lemma lookup_stop (s : list Z) x t t' i : (i <= length s)%nat → (s ++ x :: t) !! i = (s ++ x :: t') !! i.
Proof.
  intros Hi. destruct (decide (i = length s)) as [->|Hne].
  - by rewrite !list_lookup_middle.
  - by rewrite !lookup_app_l by lia.
Qed.

Lemma strtoul_stop s x t t' : stops x → Strtol.strtoul (s ++ x :: t) 10 = Strtol.strtoul (s ++ x :: t') 10.
Proof.
  intros Hx. unfold Strtol.strtoul, Strtol.strtol_internal. cbn [Z.ltb Z.eqb Z.compare Pos.compare Pos.compare_cont orb].
  destruct (skip_space_stop s x t (proj1 Hx)) as (k & E & Hk & H). rewrite E, (H t'). cbn [mbind outcome_bind].
  rewrite (lookup_stop s x t t' k Hk). destruct ((s ++ x :: t') !! k) as [c|] eqn:Ec; [|done]. cbn [deref mbind outcome_bind].
  destruct (c =? 0); [done|]. set (k' := if (c =? 45) || (c =? 43) then S k else k).
  assert (k' <= length s)%nat as Hk'.
  { unfold k'. destruct ((c =? 45) || (c =? 43)) eqn:Es; [|done].
    destruct (decide (k = length s)) as [->|]; [|lia]. rewrite list_lookup_middle in Ec by done. injection Ec as <-.
    destruct Hx as (_ & Hx & _). congruence. }
  unfold Strtol.prefix. rewrite (lookup_stop s x t t' k' Hk'). destruct ((s ++ x :: t') !! k') as [d|]; [|done].
  cbn [deref mbind outcome_bind Z.eqb orb Pos.eqb]. 
  assert ((if d =? 48 then Val (k', 10) else Val (k', 10)) = Val (k', 10)) as -> by (by destruct (d =? 48)).
  cbn [mbind outcome_bind fst snd]. destruct (deref (Strtol.cutoff_tab !! _)) as [co| |]; [|done..]. cbn [mbind outcome_bind].
  destruct (deref (Strtol.cutlim_tab !! _)) as [cl| |]; [|done..]. cbn [mbind outcome_bind].
  rewrite !drop_app_le, (digits_stop co cl _ x t t') by done.
  destruct (Strtol.digits _ _ _ _ _ _) as [[[n i] ov]| |]; [|done..]. cbn [mbind outcome_bind fst snd].
  destruct (n =? 0)%nat; [|done]. unfold Strtol.noconv. destruct (Nat.leb_spec 2 k'); [|done].
  by rewrite (lookup_stop s x t t' (k' - 1)), (lookup_stop s x t t' (k' - 2)) by lia.
Qed.

Lemma stops_nul : stops 0.
Proof. split_and!; [done|done|by left]. Qed.
Lemma stops_dollar : stops DOLLAR.
Proof. split_and!; [done|done|by right]. Qed.

Lemma prefix_nul_free a : nul_free (salt_prefix a) ∧ nul_free rounds_prefix.
Proof. destruct a; split; repeat constructor; done. Qed.

Lemma drop_stripped p s r t : strip p s = Some r → drop (length p) (s ++ t) = r ++ t.
Proof. intros ->%strip_Some. by rewrite <- (assoc (++)), drop_app_length. Qed.

Lemma find_salt_spec a arg t :
  nul_free arg →
  let '(rest, rounds, custom) := setting a arg in
  find_salt a (arg ++ 0 :: t) = Val (rest ++ 0 :: t, rounds, custom) ∧ nul_free rest ∧ (length rest <= length arg)%nat ∧
  ROUNDS_MIN <= rounds <= ROUNDS_MAX ∧ (custom = true → (length rest + 8 <= length arg)%nat).
Proof.
  intros Hs. destruct (prefix_nul_free a) as [Hp Hr]. unfold find_salt, setting.
  destruct (strncmp_strip (salt_prefix a) arg t [0] Hp Hs) as (d & _ & -> & Hd). cbn [mbind outcome_bind].
  replace (- d =? 0) with (d =? 0) by (destruct (Z.eqb_spec d 0), (Z.eqb_spec (-d) 0); lia). rewrite Hd. clear d Hd.
  set (s := default arg (strip (salt_prefix a) arg)).
  assert ((if bool_decide (is_Some (strip (salt_prefix a) arg)) then drop (length (salt_prefix a)) (arg ++ 0 :: t) else arg ++ 0 :: t) = s ++ 0 :: t) as ->.
  { unfold s. destruct (strip (salt_prefix a) arg) as [r|] eqn:E; [|done]. by apply drop_stripped. }
  assert (nul_free s ∧ (length s <= length arg)%nat) as [Hns Hls].
  { unfold s. destruct (strip (salt_prefix a) arg) as [r|] eqn:E; [|done]. apply strip_Some in E as ->.
    apply nul_free_app in Hs as [_ Hs]. rewrite length_app. split; [exact Hs|cbn; lia]. }
  clearbody s. clear Hs. destruct (strncmp_strip rounds_prefix s t [0] Hr Hns) as (d & -> & _ & Hd). cbn [mbind outcome_bind].
  rewrite Hd. clear d Hd. assert (ROUNDS_MIN <= ROUNDS_DEFAULT <= ROUNDS_MAX) as Hdef by done.
  destruct (strip rounds_prefix s) as [num|] eqn:E; cbn [mbind option_bind]; [|by split_and!].
  rewrite bool_decide_eq_true_2 by eauto. rewrite (drop_stripped _ _ _ _ E). apply strip_Some in E as ->.
  apply nul_free_app in Hns as [_ Hn]. unfold rounds_spec. rewrite (strtoul_stop num 0 t [] stops_nul).
  destruct (Strtol.strtol_internal_total num [] Hn true 10) as (r & Er & He & Hle & _).
  unfold Strtol.strtoul. rewrite Er. destruct (He ltac:(lia)) as [e Ee]. specialize (Hle e Ee). rewrite Ee. cbn [mbind outcome_bind option_bind deref]. rewrite Ee. cbn [mbind outcome_bind deref].
  rewrite length_app in Hls. change (length rounds_prefix) with 7%nat in Hls.
  destruct (decide (e = length num)) as [->|Hne].
  - rewrite list_lookup_middle, lookup_ge_None_2 by done. cbn [mbind outcome_bind option_bind deref].
    change (0 =? DOLLAR) with false. split_and!; [done|by apply nul_free_app|by rewrite length_app|done..].
  - rewrite lookup_app_l by lia. destruct (lookup_lt_is_Some_2 num e ltac:(lia)) as [c Ec]. rewrite Ec.
    cbn [mbind outcome_bind option_bind deref]. destruct (c =? DOLLAR).
    + rewrite drop_app_le by lia. split_and!; [done|by apply Forall_drop|rewrite length_drop; lia| | |rewrite length_drop; lia];
        unfold ROUNDS_MIN, ROUNDS_MAX; lia.
    + split_and!; [done|by apply nul_free_app|by rewrite length_app|done..].
Qed.

Lemma span_dollar s t :
  nul_free s → span_len (λ b, negb (elemb b [DOLLAR])) (s ++ 0 :: t) = Val (length (before_dollar s)).
Proof.
  induction s as [|c s IH]; [done|]. intros [Hc Hs]%nul_free_cons. cbn [app span_len before_dollar].
  rewrite (proj2 (Z.eqb_neq _ _) Hc). cbn [orb]. unfold elemb at 1. rewrite negb_involutive.
  destruct (Z.eqb_spec c DOLLAR) as [->|Hne].
  - rewrite bool_decide_eq_true_2 by set_solver. done.
  - rewrite bool_decide_eq_false_2 by set_solver. rewrite IH by done. done.
Qed.

Lemma salt_length_spec s t : nul_free s → salt_length (s ++ 0 :: t) = Val (length (salt_field s)).
Proof.
  intros Hs. unfold salt_length, strcspn.
  change (cstr [DOLLAR; 0]) with (Val [DOLLAR]). cbn [mbind outcome_bind]. rewrite span_dollar by done.
  cbn [mbind outcome_bind]. f_equal. unfold salt_field. rewrite length_take. lia.
Qed.

Lemma before_dollar_prefix s : ∃ r, s = before_dollar s ++ r.
Proof.
  induction s as [|c s [r IH]]; [by exists []|]. cbn. destruct (c =? DOLLAR); [by exists (c :: s)|].
  exists r. cbn. by rewrite <- IH.
Qed.

Lemma salt_field_prefix s : ∃ r, s = salt_field s ++ r.
Proof.
  destruct (before_dollar_prefix s) as [r E]. exists (drop SALT_LEN_MAX (before_dollar s) ++ r).
  unfold salt_field. by rewrite (assoc (++)), take_drop.
Qed.

Lemma group_ok_alt n gs :
  Forall (λ '(i2, i1, i0, _), Forall (from_option (λ k, k < n)%nat True) [i2; i1; i0]) gs → Forall (group_ok n) gs.
Proof.
  intros H. eapply Forall_impl; [exact H|]. intros [[[i2 i1] i0] k] H'. eapply Forall_impl; [exact H'|].
  intros [i|]; cbn; naive_solver.
Qed.

Lemma groups_ok a : Forall (group_ok (dsize a)) (groups a).
Proof. apply group_ok_alt. destruct a; repeat constructor. Qed.

Lemma put_result_spec a buffer buflen rounds custom salt t h :
  (buflen <= length buffer)%nat → nul_free salt → length h = dsize a →
  ∃ r, put_result a buffer (Z.of_nat buflen) rounds custom (salt ++ t) (length salt) h = Val r ∧
    finished buffer buflen
      (salt_prefix a ++ (if custom then rounds_prefix ++ fmt_u rounds ++ [DOLLAR] else []) ++ salt ++ DOLLAR :: hash_text (groups a) h) r.
Proof.
  intros Hb Hs Hh. unfold put_result.
  destruct (put_prefix_wrote buffer buflen Hb (salt_prefix a)) as (o1 & -> & H1); [apply prefix_nul_free|]. cbn [mbind outcome_bind].
  assert (∃ o2, (if custom then put_rounds o1 rounds else Val o1) = Val o2 ∧
    wrote buffer buflen (salt_prefix a ++ (if custom then rounds_prefix ++ fmt_u rounds ++ [DOLLAR] else [])) o2) as (o2 & -> & H2).
  { destruct custom; [|exists o1; by rewrite app_nil_r]. unfold put_rounds.
    destruct (snprintf_wrote buffer buflen Hb _ o1 (rounds_prefix ++ fmt_u rounds ++ [DOLLAR]) H1) as (r & -> & _ & H2).
    eexists. by split. }
  cbn [mbind outcome_bind]. destruct (put_salt_wrote buffer buflen Hb _ o2 salt t _ Hs eq_refl H2) as (o3 & -> & H3). cbn [mbind outcome_bind].
  assert (Forall (group_ok (length h)) (groups a)) as Hg by (rewrite Hh; apply groups_ok).
  destruct (put_hash_wrote buffer buflen Hb (groups a) h _ o3 Hg H3) as (o4 & -> & H4). cbn [mbind outcome_bind].
  destruct (put_end_finished buffer buflen Hb _ o4 H4) as (r & -> & H5). exists r. split; [done|].
  rewrite <- !(assoc (++)) in H5. exact H5.
Qed.

(** ** The whole function *)

(** The memory of the locals when they come into scope. *)
Record fresh (a : algo) (l : locals) : Prop := {
  fresh_ctx : length (buffer (l_ctx l)) = (2 * block (Md := md a))%nat;
  fresh_alt : length (buffer (l_alt_ctx l)) = (2 * block (Md := md a))%nat
}.

(** No allocation fails. *)
Definition served (q : answers) : Prop :=
  (key_misaligned q = true → alloca_key q = true ∨ malloc_key q = true) ∧ (alloca_p q = true ∨ malloc_p q = true).

Definition zeros (bs : list Z) : Prop := Forall (λ b, b = 0) bs.
Definition zero_ctx (c : ctx Z) : Prop := zeros (chain c) ∧ total c = 0 ∧ buflen c = 0%nat ∧ zeros (buffer c).

(** Nothing that depends on the key or the salt is left in the objects. *)
Record erased (a : algo) (l : locals) : Prop := {
  erased_ctx : zero_ctx (l_ctx l) ∧ zero_ctx (l_alt_ctx l);
  erased_alt_result : l_alt_result l = digest a [];
  erased_arrays : zeros (l_temp_result l) ∧ zeros (l_p_bytes l) ∧ zeros (l_s_bytes l);
  erased_copies : (∀ k, l_copied_key l = Some k → zeros k) ∧ (∀ s, l_copied_salt l = Some s → zeros s)
}.

Lemma bzero_zeros bs : zeros (bzero bs).
Proof. apply Forall_replicate. done. Qed.

Lemma sized_md a c : length (buffer c) = (2 * block (Md := md a))%nat ↔ sized (HM := md a) c.
Proof. done. Qed.

Lemma cleanup_erased a l : sized (HM := md a) (l_ctx l) → ∃ l', cleanup a l = Val l' ∧ erased a l'.
Proof.
  intros Hs. unfold cleanup.
  destruct (rep_finish (HM := md a) [] _ (init_rep (HM := md a) (l_ctx l) Hs)) as (c' & -> & _).
  cbn [mbind outcome_bind fst snd]. eexists. split; [done|]. split; cbn.
  - split; (split_and!; [apply bzero_zeros|done|done|apply bzero_zeros]).
  - by rewrite md_digest_digest.
  - split_and!; apply bzero_zeros.
  - split; intros k (x & _ & ->)%fmap_Some; apply bzero_zeros.
Qed.

Lemma copied_arg (s t : list Z) (b : bool) :
  let s' := default (s ++ t) (if b then Some s else None) in
  take (length s) s' = s ∧ (length s <= length s')%nat ∧ ∃ t', s' = s ++ t'.
Proof.
  destruct b; cbn; [|rewrite take_app_length, length_app; split_and!; [done|lia|by exists t]].
  split_and!; [by rewrite take_ge|done|exists []; by rewrite app_nil_r].
Qed.

Lemma dsize_pos a : (0 < dsize a)%nat.
Proof. destruct a; cbn; lia. Qed.

Lemma md_digest_length a m : length (md_digest (H := md a) (md_count a) m) = dsize a.
Proof. rewrite md_digest_digest. apply digest_length. Qed.

Lemma hash_ext D D' key salt rounds : (∀ m, D m = D' m) → hash D key salt rounds = hash D' key salt rounds.
Proof.
  intros HD. unfold hash, seq_S, seq_P, hash_A, hash_B. rewrite !HD.
  generalize (seqZ 0 rounds). generalize (D' (key ++ salt ++ cycle (D' (key ++ salt ++ key)) (length key) ++
    mjoin ((λ b : bool, if b then D' (key ++ salt ++ key) else key) <$> bits (length key)))). intros C l.
  set (P := cycle _ (length key)). set (S := cycle _ (length salt)). clearbody P S.
  revert C. induction l as [|i l IH]; intros C; [done|]. cbn. unfold hash_round at 2 4. by rewrite HD.
Qed.

Lemma hash_length a key salt rounds : 0 <= rounds → length (hash (digest a) key salt rounds) = dsize a.
Proof.
  intros _. unfold hash. assert (length (hash_A (digest a) key salt) = dsize a) as HA by apply digest_length.
  revert HA. generalize (hash_A (digest a) key salt) as C. generalize (seqZ 0 rounds) as l.
  intros l. generalize (seq_S (digest a) key salt) as S. intros S.
  induction l as [|i l IH]; intros C HC; [done|]. cbn. apply IH. apply digest_length.
Qed.

Lemma crypt_r_spec a q l key arg kt st buffer buflen :
  nul_free key → nul_free arg → (buflen <= length buffer)%nat → fresh a l → served q →
  ∃ res, crypt_r a q l (key ++ 0 :: kt) (arg ++ 0 :: st) buffer (Z.of_nat buflen) = Val res ∧
    finished buffer buflen (crypt_text a key arg) (returned res, rbuffer res, set_errno res) ∧
    erased a (left_over res).
Proof.
  intros Hk Ha Hb [Hl1 Hl2] [Hq1 Hq2]. unfold crypt_r, crypt_text. pose proof (find_salt_spec a arg st Ha) as Hf.
  destruct (setting a arg) as [[rest rounds] custom]. destruct Hf as (-> & Hr & _ & Hrd & _). cbn [mbind outcome_bind].
  rewrite salt_length_spec, strlen_spec by done. cbn [mbind outcome_bind].
  assert (key_misaligned q && negb (alloca_key q) && negb (malloc_key q) = false) as ->.
  { destruct (key_misaligned q); [|done]. destruct Hq1 as [-> | ->]; [done|done|]. by destruct (alloca_key q). }
  destruct (salt_field_prefix rest) as [tl Et]. set (s := salt_field rest) in *.
  assert (nul_free s) as Hns by (rewrite Et in Hr; by apply nul_free_app in Hr as [? _]).
  rewrite (read_prefix key) by done. cbn [mbind outcome_bind]. clearbody s. subst rest. rewrite <- app_assoc. rewrite (read_prefix s) by done. cbn [mbind outcome_bind].
  destruct (copied_arg key (0 :: kt) (key_misaligned q)) as (Hk1 & Hk2 & _). set (key' := default (key ++ 0 :: kt) _) in *.
  destruct (copied_arg s (tl ++ 0 :: st) (salt_misaligned q)) as (Hs1 & Hs2 & t' & Es). set (s' := default (s ++ tl ++ 0 :: st) _) in *.
  clearbody key' s'.
  pose proof (md_digest_length a) as HD. pose proof (dsize_pos a) as Hp.
  destruct (first_digests_spec (HM := md a) (dsize a) Hp HD key key' s s' (l_ctx l) (l_alt_ctx l) Hk1 Hk2 Hs1 Hs2 Hl1 Hl2)
    as (c1 & a1 & -> & Hc1 & Ha1). cbn [mbind outcome_bind].
  destruct (times_digest_spec (HM := md a) (length key) key key' a1 Hk1 Hk2 Ha1) as (a2 & -> & Ha2). cbn [mbind outcome_bind].
  assert (negb (alloca_p q) && negb (malloc_p q) = false) as -> by (destruct Hq2 as [-> | ->]; [done|by destruct (alloca_p q)]).
  pose proof (fill_bytes_spec (dsize a) Hp (S (length key)) (length key) [] 0 (replicate (length key) 0)) as Hfill.
  cbn [app length] in Hfill. rewrite Hfill by (done || lia || (by rewrite length_replicate)). clear Hfill. cbn [mbind outcome_bind].
  set (A := hash_A _ key s). assert (A !! 0%nat = Some (nth 0 A 0)) as ->.
  { destruct (lookup_lt_is_Some_2 A 0) as [x E]; [unfold A, hash_A; rewrite HD; done|]. by rewrite nth_lookup, E. }
  cbn [deref mbind outcome_bind].
  destruct (times_digest_spec (HM := md a) (16 + Z.to_nat (nth 0 A 0)) s s' a2 Hs1 Hs2 Ha2) as (a3 & -> & Ha3). cbn [mbind outcome_bind].
  pose proof (fill_bytes_spec (dsize a) Hp (S (length s)) (length s) [] 0 (replicate (length s) 0)) as Hfill.
  cbn [app length] in Hfill. rewrite Hfill by (done || lia || (by rewrite length_replicate)). clear Hfill. cbn [mbind outcome_bind].
  set (P := cycle _ (length key)). set (S := cycle _ (length s)).
  destruct (burn_loop_spec (HM := md a) (dsize a) Hp HD (Z.to_nat rounds) 0 P P S S A (length key) (length s) c1)
    as (c2 & -> & Hc2); [by rewrite take_ge by (by unfold P; rewrite cycle_length)|by unfold P; rewrite cycle_length
      |by rewrite take_ge by (by unfold S; rewrite cycle_length)|by unfold S; rewrite cycle_length|apply HD|done|]. cbn [mbind outcome_bind].
  unfold ROUNDS_MIN in Hrd. rewrite Z2Nat.id by lia.
  change (foldl (hash_round (md_digest (md_count a)) P S) A (seqZ 0 rounds)) with (hash (md_digest (H := md a) (md_count a)) key s rounds).
  rewrite (hash_ext _ (digest a) key s rounds (md_digest_digest a)). set (h := hash _ _ _ _).
  assert (length h = dsize a) as Hh by (apply hash_length; lia).
  rewrite Es. destruct (put_result_spec a buffer buflen rounds custom s t' h Hb Hns Hh) as ([[ok buf] e] & -> & Hfin). cbn [mbind outcome_bind].
  destruct (cleanup_erased a (Locals c2 a3 h (md_digest (H := md a) (md_count a) (times (16 + Z.to_nat (nth 0 A 0)) s)) P S
    (if key_misaligned q then Some key else None) (if salt_misaligned q then Some s else None)) Hc2) as (l' & El & Her).
  rewrite El. cbn [mbind outcome_bind]. eexists. split; [done|]. by split.
Qed.

(** ** A result used as the salt argument *)

Lemma decimal n :
  0 <= n < 2 ^ 31 →
  ∃ ds, Strtol.digit_string 10 (fmt_u n) ds ∧ Strtol.horner 10 0 ds = n ∧ fmt_u n ≠ [] ∧ Forall (λ c, c ≠ 0 ∧ c ≠ DOLLAR) (fmt_u n).
Proof.
  intros Hn. assert (0 <= n) as H0 by lia. revert n H0 Hn.
  apply (Zlt_0_ind (λ n, 0 <= n < 2 ^ 31 → _)). intros n IH _ Hn.
  assert (∀ d, 0 <= d < 10 → 48 + d ≠ 0 ∧ Strtol.digit 10 (48 + d) = Some d) as Hd.
  { intros d Hd. split; [lia|]. unfold Strtol.digit.
    rewrite (proj2 (Z.leb_le 48 _)), (proj2 (Z.leb_le _ 57)) by lia. cbn [andb mbind option_bind].
    rewrite (proj2 (Z.leb_gt _ _)) by lia. f_equal. lia. }
  assert (∀ d, 0 <= d < 10 → 48 + d ≠ 0 ∧ 48 + d ≠ DOLLAR) as Hd' by (unfold DOLLAR; lia).
  destruct (decide (n < 10)) as [Hs|Hs].
  - exists [n]. rewrite fmt_u_small by lia. split_and!; [|done|done|]; constructor; (apply Hd || apply Hd' || constructor); lia.
  - pose proof (Z.div_mod n 10 ltac:(lia)) as E. pose proof (Z.mod_pos_bound n 10 ltac:(lia)) as Hm.
    assert (1 <= n / 10) by (apply Z.div_le_lower_bound; lia).
    set (q := n / 10) in *. set (d := n mod 10) in *. clearbody q d. subst n.
    destruct (IH q) as (ds & I1 & I2 & I3 & I4); [lia|lia|].
    exists (ds ++ [d]). rewrite fmt_u_snoc by lia. split_and!.
    + apply Forall2_app; [done|]. constructor; [by apply Hd|constructor].
    + unfold Strtol.horner in *. rewrite foldl_app, I2. cbn. lia.
    + by destruct (fmt_u q).
    + apply Forall_app. split; [done|]. constructor; [by apply Hd'|constructor].
Qed.

Lemma rounds_spec_decimal n r : 0 <= n < 2 ^ 31 → rounds_spec (fmt_u n ++ DOLLAR :: r) = Some (n, r).
Proof.
  intros Hn. destruct (decimal n Hn) as (ds & Hds & Hh & Hne & _). unfold rounds_spec. rewrite <- (assoc (++)). cbn [app].
  destruct (Strtol.strtol_internal_numeral true 10 [] [] [] (fmt_u n) DOLLAR (r ++ [0]) false 10 ds) as (i & Hi & E).
  { split; [done|constructor| |done|done|by right].
    destruct (fmt_u n) as [|c [|c' l]]; [done|by apply Strtol.np_given|by apply Strtol.np_given]. }
  cbn [app] in E. unfold Strtol.strtoul. rewrite E. rewrite Hh in *. cbv zeta.
  rewrite (proj2 (Z.ltb_ge _ _)) by (unfold ULONG_MAX; lia). cbn [Strtol.endptr Strtol.ret mbind option_bind].
  rewrite list_lookup_middle by done. cbn [mbind option_bind]. rewrite Z.eqb_refl, Hi by (unfold ULONG_MAX; lia).
  unfold wrapu. rewrite Z.mod_small by lia. do 2 f_equal.
  rewrite <- (app_nil_r (fmt_u n)) at 1. change (DOLLAR :: r) with ([DOLLAR] ++ r).
  rewrite app_nil_r, (assoc (++)), drop_app_length'; [done|]. rewrite length_app. cbn. lia.
Qed.

Definition plain (s : list Z) : Prop := Forall (λ c, c ≠ DOLLAR) s.

Lemma before_dollar_plain s : plain (before_dollar s).
Proof. induction s as [|c s IH]; cbn; [constructor|]. destruct (Z.eqb_spec c DOLLAR); by constructor. Qed.

Lemma salt_field_plain s : plain (salt_field s) ∧ (length (salt_field s) <= SALT_LEN_MAX)%nat.
Proof. split; [apply Forall_take, before_dollar_plain|]. unfold salt_field. rewrite length_take. lia. Qed.

Lemma before_dollar_app s t : plain s → before_dollar (s ++ DOLLAR :: t) = s.
Proof. induction 1 as [|c s Hc Hs IH]; [done|]. cbn. by rewrite (proj2 (Z.eqb_neq _ _) Hc), IH. Qed.

Lemma before_dollar_id s : plain s → before_dollar s = s.
Proof. induction 1 as [|c s Hc Hs IH]; [done|]. cbn. by rewrite (proj2 (Z.eqb_neq _ _) Hc), IH. Qed.

Lemma salt_field_again s t : plain s → (length s <= SALT_LEN_MAX)%nat → salt_field (s ++ DOLLAR :: t) = s.
Proof. intros Hs Hl. unfold salt_field. by rewrite before_dollar_app, take_ge. Qed.

(** Two texts that agree agree up to their first dollar signs. *)
Lemma dollar_inj s s' t t' : plain s → plain s' → s ++ DOLLAR :: t = s' ++ DOLLAR :: t' → s = s' ∧ t = t'.
Proof.
  intros Hs Hs' E. assert (s = s') as <- by (by rewrite <- (before_dollar_app s t), <- (before_dollar_app s' t'), E).
  split; [done|]. apply app_inv_head in E. by injection E.
Qed.

Lemma decimal_plain n : 0 <= n < 2 ^ 31 → plain (fmt_u n).
Proof.
  intros Hn. destruct (decimal n Hn) as (ds & _ & _ & _ & H). eapply Forall_impl; [exact H|]. by intros c [_ ?].
Qed.

(** A salt of which [rounds=] and a numeral are all there is: nothing marks
    it as a number of rounds until the result puts a dollar sign after it. *)
Definition ambiguous (a : algo) (arg : list Z) : bool :=
  let '(rest, _, custom) := setting a arg in
  negb custom && bool_decide (is_Some (strip rounds_prefix (salt_field rest ++ [DOLLAR]) ≫= rounds_spec)).

Lemma rounds_spec_at x t :
  plain x → plain t → rounds_spec (x ++ DOLLAR :: t) = (λ p, (p.1, t)) <$> rounds_spec (x ++ [DOLLAR]).
Proof.
  intros Hx Ht. unfold rounds_spec. rewrite <- !(assoc (++)). cbn [app].
  rewrite (strtoul_stop x DOLLAR (t ++ [0]) [0] stops_dollar).
  destruct (Strtol.strtoul _ _) as [r| |]; [|done..]. destruct (Strtol.endptr r) as [e|]; [|done]. cbn [mbind option_bind].
  destruct (decide (e < length x)%nat) as [He|He].
  - rewrite !lookup_app_l by done. destruct (x !! e) as [c|] eqn:Ec; [|done]. cbn [mbind option_bind].
    unfold plain in Hx. rewrite Forall_lookup in Hx. by rewrite (proj2 (Z.eqb_neq _ _) (Hx _ _ Ec)).
  - destruct (decide (e = length x)) as [->|Hne].
    + rewrite !list_lookup_middle by done. cbn [mbind option_bind]. rewrite Z.eqb_refl. cbn [fmap option_fmap option_map fst].
      do 2 f_equal. change (DOLLAR :: t) with ([DOLLAR] ++ t). rewrite (assoc (++)), drop_app_length'; [done|].
      rewrite length_app. cbn. lia.
    + rewrite (lookup_ge_None_2 (x ++ [DOLLAR])) by (rewrite length_app; cbn; lia). cbn [mbind option_bind].
      rewrite lookup_app_r by lia. destruct (e - length x)%nat as [|k] eqn:Ek; [lia|]. cbn.
      destruct (t !! k) as [c|] eqn:Ec; [|done]. cbn. unfold plain in Ht. rewrite Forall_lookup in Ht.
      by rewrite (proj2 (Z.eqb_neq _ _) (Ht _ _ Ec)).
Qed.

Lemma strip_dollar p s t :
  plain p → strip p (s ++ DOLLAR :: t) = (λ x, x ++ DOLLAR :: t) <$> strip p s.
Proof.
  intros Hp. revert s. induction Hp as [|c p Hc Hp IH]; intros s; [done|]. destruct s as [|d s]; cbn.
  - by rewrite (proj2 (Z.eqb_neq _ _) Hc).
  - destruct (c =? d); [apply IH|done].
Qed.

Lemma rounds_prefix_plain : plain rounds_prefix.
Proof. repeat constructor; done. Qed.

Lemma hash_plain a key s rounds :
  plain (hash_text (groups a) (hash (digest a) key s rounds)) ∧
  length (hash_text (groups a) (hash (digest a) key s rounds)) = Z.to_nat (hash_chars a).
Proof.
  split; [|rewrite hash_text_length; by destruct a].
  eapply Forall_impl; [apply hash_text_chars|]. by intros c [_ ?].
Qed.

Lemma crypt_text_again a key arg :
  crypt_text a key (crypt_text a key arg) = crypt_text a key arg ↔ ambiguous a arg = false.
Proof.
  unfold crypt_text at 2 3, ambiguous. destruct (setting a arg) as [[rest rounds] custom] eqn:Eset.
  destruct (salt_field_plain rest) as [Hs Hl]. set (s := salt_field rest) in *.
  destruct (hash_plain a key s rounds) as [Hh Hhl]. set (h := hash_text _ _) in *.
  assert (custom = true → ROUNDS_MIN <= rounds <= ROUNDS_MAX) as Hr.
  { unfold setting in Eset. intros ->. destruct (_ ≫= _) as [[n r]|] in Eset; simplify_eq. unfold ROUNDS_MIN, ROUNDS_MAX. lia. }
  unfold crypt_text, setting. rewrite strip_app. cbn [default from_option id].
  destruct custom; cbn [negb andb].
  - specialize (Hr eq_refl). rewrite <- !(assoc (++)). rewrite strip_app. cbn [mbind option_bind app].
    unfold ROUNDS_MIN, ROUNDS_MAX in *. rewrite rounds_spec_decimal by lia.
    replace (Z.max 1000 (Z.min rounds 999999999)) with rounds by lia. rewrite salt_field_again by done. rewrite <- !(assoc (++)). by split.
  - cbn [app]. clear Hr. assert (rounds = ROUNDS_DEFAULT) as ->.
    { unfold setting in Eset. destruct (_ ≫= _) as [[n r]|] in Eset; by simplify_eq. }
    rewrite !strip_dollar by apply rounds_prefix_plain.
    destruct (strip rounds_prefix s) as [x|] eqn:Ex; cbn [fmap option_fmap option_map mbind option_bind].
    + apply strip_Some in Ex. assert (plain x) as Hx by (rewrite Ex in Hs; by apply Forall_app in Hs as [_ ?]).
      rewrite rounds_spec_at by done. destruct (rounds_spec (x ++ [DOLLAR])) as [[n r]|]; cbn [fmap option_fmap option_map fst].
      * rewrite bool_decide_eq_true_2 by eauto. split; [|done]. intros E. exfalso. rewrite Ex in E.
        apply app_inv_head in E. rewrite <- !(assoc (++)) in E. apply app_inv_head in E. cbn [app] in E.
        apply dollar_inj in E as [_ E]; [|apply decimal_plain; unfold ROUNDS_MIN, ROUNDS_MAX; lia|done].
        rewrite <- E in Hh. apply Forall_app in Hh as [_ Hh]. apply Forall_cons in Hh as [Hh _]. done.
      * rewrite bool_decide_eq_false_2 by (intros [? ?]; done). rewrite salt_field_again by done. by split.
    + rewrite bool_decide_eq_false_2 by (intros [? ?]; done). rewrite salt_field_again by done. by split.
Qed.

(** ** Lengths *)

Lemma fmt_u_length_le n k : (0 < k)%nat → (k <= 9)%nat → 0 <= n < 10 ^ Z.of_nat k → (length (fmt_u n) <= k)%nat.
Proof.
  revert n. induction k as [|k IH]; intros n Hk H9 Hn; [lia|].
  destruct (decide (n < 10)) as [Hs|Hs]; [rewrite fmt_u_small by lia; cbn; lia|].
  rewrite Nat2Z.inj_succ, Z.pow_succ_r in Hn by lia.
  pose proof (Z.div_mod n 10 ltac:(lia)) as E. pose proof (Z.mod_pos_bound n 10 ltac:(lia)).
  assert (1 <= n / 10) by (apply Z.div_le_lower_bound; lia).
  assert (n / 10 < 10 ^ Z.of_nat k) by (apply Z.div_lt_upper_bound; lia).
  assert (10 ^ Z.of_nat k <= 10 ^ 8) by (apply Z.pow_le_mono_r; lia).
  destruct k as [|k]; [cbn in *; lia|].
  rewrite E, fmt_u_snoc, length_app by lia. cbn [length]. specialize (IH (n / 10) ltac:(lia) ltac:(lia) ltac:(lia)). lia.
Qed.

Lemma setting_bounds a arg :
  nul_free arg →
  let '(rest, rounds, custom) := setting a arg in
  nul_free rest ∧ (length rest <= length arg)%nat ∧ ROUNDS_MIN <= rounds <= ROUNDS_MAX.
Proof. intros Ha. pose proof (find_salt_spec a arg [] Ha) as H. destruct (setting a arg) as [[rest rounds] custom]. tauto. Qed.

Lemma crypt_text_bounds a key arg :
  nul_free arg →
  nul_free (crypt_text a key arg) ∧
  Z.of_nat (length (crypt_text a key arg)) <= 3 + 7 + 9 + 1 + Z.min 16 (Z.of_nat (length arg)) + 1 + hash_chars a.
Proof.
  intros Ha. pose proof (setting_bounds a arg Ha) as Hb. unfold crypt_text. destruct (setting a arg) as [[rest rounds] custom].
  destruct Hb as (Hr & Hlr & Hrd). destruct (salt_field_plain rest) as [_ Hl]. destruct (salt_field_prefix rest) as [tl Et].
  set (s := salt_field rest) in *. destruct (hash_plain a key s rounds) as [_ Hhl]. destruct (prefix_nul_free a) as [Hp Hrp].
  assert (0 <= rounds < 10 ^ Z.of_nat 9) as Hr9 by (unfold ROUNDS_MIN, ROUNDS_MAX in Hrd; cbn; lia).
  pose proof (fmt_u_length_le rounds 9 ltac:(lia) ltac:(lia) Hr9) as Hf. split.
  - rewrite Et in Hr. apply nul_free_app in Hr as [Hs _]. unfold ROUNDS_MIN, ROUNDS_MAX in Hrd.
    destruct (decimal rounds ltac:(lia)) as (_ & _ & _ & _ & Hd).
    assert (∀ l, Forall (λ c, c ≠ 0 ∧ c ≠ DOLLAR) l → nul_free l) as Hnf by (intros l' Hl'; eapply Forall_impl; [exact Hl'|]; by intros c [? _]).
    apply nul_free_app. split; [done|]. apply nul_free_app. split.
    + destruct custom; [|constructor]. apply nul_free_app. split; [done|]. apply nul_free_app. split; [by apply Hnf|by repeat constructor].
    + apply nul_free_app. split; [done|]. constructor; [done|]. apply Hnf, hash_text_chars.
  - rewrite !length_app. cbn [length]. rewrite Hhl. apply (f_equal length) in Et. rewrite length_app in Et.
    assert (length (salt_prefix a) = 3%nat) as -> by (by destruct a). unfold SALT_LEN_MAX in Hl.
    assert ((length (if custom then rounds_prefix ++ fmt_u rounds ++ [DOLLAR] else []) <= 17)%nat).
    { destruct custom; [|cbn; lia]. rewrite !length_app. cbn [length]. change (length rounds_prefix) with 7%nat. lia. }
    destruct a; cbn [hash_chars] in *; lia.
Qed.

(** The buffer that a call leaves when the text fits. *)
Lemma finished_fits buffer buflen text r :
  finished buffer buflen text r → (length text < buflen)%nat →
  ∃ t, r = (true, text ++ 0 :: t, None) ∧ length (text ++ 0 :: t) = (buflen + length (drop buflen buffer))%nat.
Proof.
  unfold finished. intros Hf Hlt. rewrite (proj2 (Nat.ltb_lt _ _) Hlt) in Hf.
  exists (replicate (buflen - length text - 1) 0 ++ drop buflen buffer).
  replace (buflen - length text)%nat with (S (buflen - length text - 1)) in Hf at 1 by lia.
  split; [exact Hf|]. rewrite !length_app. cbn [length]. rewrite length_app, length_replicate. lia.
Qed.

(** ** Main theorems *)

(** C30. [__sha256_crypt_r] and [__sha512_crypt_r], whatever the alignment of
    their arguments and wherever the copies are allocated, as long as no
    allocation fails, compute the hash that [hash] defines directly from the
    digest function, store prefix, rounds, salt and encoded hash followed by
    zeros when the text is shorter than [buflen] and otherwise return [NULL]
    with [ERANGE] without touching a byte past [buflen], and leave nothing that
    depends on the key or the salt in the eight local objects that hold such
    bytes: the two contexts, alt_result, temp_result, p_bytes, s_bytes and the
    copies of key and salt. The lengths of key and salt and the frames of the
    functions called are not considered. *)
Theorem sha_crypt_correct a q l key arg kt st buffer buflen :
  nul_free key → nul_free arg → (buflen <= length buffer)%nat → fresh a l → served q →
  ∃ res, crypt_r a q l (key ++ 0 :: kt) (arg ++ 0 :: st) buffer (Z.of_nat buflen) = Val res ∧
    finished buffer buflen (crypt_text a key arg) (returned res, rbuffer res, set_errno res) ∧
    erased a (left_over res).
Proof. apply crypt_r_spec. Qed.

(** Contexts and arrays as they may be found on the stack. *)
Definition some_ctx (a : algo) : ctx Z := Ctx [] 7 7 (replicate (2 * block (Md := md a)) 7).
Definition some_locals (a : algo) : locals := Locals (some_ctx a) (some_ctx a) [7] [7] [] [] None None.

Lemma sha_crypt_correct_witness :
  ∃ res, crypt_r SHA256 (Answers true false false true true false) (some_locals SHA256)
      ($"Hello world!" ++ 0 :: [1]) ($"$5$saltstring" ++ [0]) (replicate 60 1) (Z.of_nat 60) = Val res ∧
    finished (replicate 60 1) 60 (crypt_text SHA256 $"Hello world!" $"$5$saltstring")
      (returned res, rbuffer res, set_errno res) ∧
    erased SHA256 (left_over res).
Proof.
  apply (sha_crypt_correct SHA256 (Answers true false false true true false) (some_locals SHA256)
    $"Hello world!" $"$5$saltstring" [1] [] (replicate 60 1) 60).
  - apply (bool_decide_eq_true_1 _). reflexivity.
  - apply (bool_decide_eq_true_1 _). reflexivity.
  - apply (bool_decide_eq_true_1 _). reflexivity.
  - split; reflexivity.
  - split; [right; reflexivity|left; reflexivity].
Defined.

(** Passing the result of [__sha256_crypt_r] or [__sha512_crypt_r] back as
    the salt reproduces it, which is how a password is checked, if and only if
    the salt argument is not of the form [ambiguous]: the text [rounds=] and a
    number that no dollar sign follows within the first sixteen characters.
    Such an argument is taken as a plain salt the first time and as a number of
    rounds the second time, so that the stored hash never verifies. *)
Theorem sha_crypt_verifies a q q' l l' key arg kt st buffer buflen buffer' buflen' :
  nul_free key → nul_free arg → (124 <= buflen <= length buffer)%nat → (124 <= buflen' <= length buffer')%nat →
  fresh a l → fresh a l' → served q → served q' →
  ∃ res res', crypt_r a q l (key ++ 0 :: kt) (arg ++ 0 :: st) buffer (Z.of_nat buflen) = Val res ∧
    crypt_r a q' l' (key ++ 0 :: kt) (rbuffer res) buffer' (Z.of_nat buflen') = Val res' ∧
    returned res = true ∧ returned res' = true ∧
    (cstr (rbuffer res') = cstr (rbuffer res) ↔ ambiguous a arg = false).
Proof.
  intros Hk Ha Hb Hb' Hl Hl' Hq Hq'.
  assert (∀ arg, nul_free arg → nul_free (crypt_text a key arg) ∧ (length (crypt_text a key arg) < 124)%nat) as Ht.
  { intros arg' Ha'. destruct (crypt_text_bounds a key arg' Ha') as [H1 H2]. split; [done|]. destruct a; cbn [hash_chars] in H2; lia. }
  destruct (Ht arg Ha) as [Hn1 Hl1]. destruct (Ht _ Hn1) as [Hn2 Hl2].
  destruct (crypt_r_spec a q l key arg kt st buffer buflen Hk Ha ltac:(lia) Hl Hq) as (res & E & Hf & _).
  destruct (finished_fits _ _ _ _ Hf ltac:(lia)) as (t & [= Er1 Er2 _] & _).
  destruct (crypt_r_spec a q' l' key _ kt t buffer' buflen' Hk Hn1 ltac:(lia) Hl' Hq') as (res' & E' & Hf' & _).
  destruct (finished_fits _ _ _ _ Hf' ltac:(lia)) as (t' & [= Er1' Er2' _] & _).
  exists res, res'. rewrite Er2, Er2'. split_and!; [done|done|done|done|]. rewrite !cstr_spec by done.
  rewrite <- (crypt_text_again a key arg). split; [by intros [= ?]|by intros ->].
Qed.

Lemma sha_crypt_verifies_witness :
  ∃ res res', crypt_r SHA512 (Answers false false true true true true) (some_locals SHA512)
      ($"secret" ++ [0]) ($"$6$rounds=5000" ++ [0]) (replicate 124 1) 124 = Val res ∧
    crypt_r SHA512 (Answers true true true true true true) (some_locals SHA512)
      ($"secret" ++ [0]) (rbuffer res) (replicate 200 2) 130 = Val res' ∧
    returned res = true ∧ returned res' = true ∧ cstr (rbuffer res') ≠ cstr (rbuffer res).
Proof.
  destruct (sha_crypt_verifies SHA512 (Answers false false true true true true) (Answers true true true true true true)
    (some_locals SHA512) (some_locals SHA512) $"secret" $"$6$rounds=5000" [] [] (replicate 124 1) 124 (replicate 200 2) 130)
    as (res & res' & E & E' & R & R' & Hv).
  - apply (bool_decide_eq_true_1 _). reflexivity.
  - apply (bool_decide_eq_true_1 _). reflexivity.
  - rewrite length_replicate. lia.
  - rewrite length_replicate. lia.
  - split; reflexivity.
  - split; reflexivity.
  - split; [|left]; done.
  - split; [|left]; try done. by left.
  - exists res, res'. split_and!; [exact E|exact E'|exact R|exact R'|]. intros H. apply Hv in H. vm_compute in H. discriminate H.
Defined.

Example ambiguous_salts :
  ambiguous SHA256 $"$5$rounds=1000$abc" = false ∧ ambiguous SHA256 $"$5$salt" = false ∧
  ambiguous SHA256 $"$5$rounds=x" = false ∧ ambiguous SHA256 $"$5$rounds=77" = true ∧
  ambiguous SHA256 $"$5$rounds=123456789012" = true ∧ ambiguous SHA256 $"rounds=" = true.
Proof. by vm_compute. Qed.

(** The static buffer always has [buflen] bytes. *)
Definition static_ok (st : static) : Prop := s_buflen st = Z.of_nat (length (s_buffer st)).
(** [realloc] gives a block of the size asked for, or nothing. *)
Definition realloc_ok (realloc : list Z → Z → option (list Z)) : Prop :=
  ∀ b n b', 0 <= n → realloc b n = Some b' → Z.of_nat (length b') = n.

(** The size [__sha256_crypt] and [__sha512_crypt] compute for their
    static buffer is always enough: a call fails only when [realloc] does, then
    leaving the buffer as it was, and otherwise returns the hash; the recorded
    size stays the size of the buffer. *)
Theorem sha_crypt_static a q l realloc key arg kt at_ st :
  nul_free key → nul_free arg → Z.of_nat (length arg) < 2 ^ 31 - 200 → fresh a l → served q →
  static_ok st → realloc_ok realloc →
  ∃ o st', crypt a q l realloc (key ++ 0 :: kt) (arg ++ 0 :: at_) st = Val (o, st') ∧ static_ok st' ∧
    match o with
    | Some res => returned res = true ∧ rbuffer res = s_buffer st' ∧ cstr (s_buffer st') = Val (crypt_text a key arg)
    | None => st' = st ∧ ∃ n, s_buflen st < n ∧ realloc (s_buffer st) n = None
    end.
Proof.
  intros Hk Ha Hlen Hl Hq Hst Hre. unfold crypt. rewrite strlen_spec by done. cbn [mbind outcome_bind].
  set (needed := wraps 32 _). destruct (crypt_text_bounds a key arg Ha) as [Hn Ht].
  assert (Z.of_nat (length (crypt_text a key arg)) < needed) as Hfit.
  { unfold needed. assert (length (salt_prefix a) = 3%nat) as -> by (by destruct a). change (length rounds_prefix) with 7%nat.
    unfold wrapu. rewrite Z.mod_small by (destruct a; cbn [hash_chars]; lia).
    rewrite wraps_small by (destruct a; cbn [hash_chars]; lia). lia. }
  assert (∀ st1, static_ok st1 → needed <= s_buflen st1 →
    ∃ o st', (r ← crypt_r a q l (key ++ 0 :: kt) (arg ++ 0 :: at_) (s_buffer st1) (s_buflen st1);
              Val (Some r, Static (rbuffer r) (s_buflen st1))) = Val (Some o, st') ∧ static_ok st' ∧
      returned o = true ∧ rbuffer o = s_buffer st' ∧ cstr (s_buffer st') = Val (crypt_text a key arg)) as Hrun.
  { intros st1 Hst1 Hge. unfold static_ok in Hst1. rewrite Hst1.
    destruct (crypt_r_spec a q l key arg kt at_ (s_buffer st1) (length (s_buffer st1)) Hk Ha ltac:(lia) Hl Hq) as (res & -> & Hf & _).
    destruct (finished_fits _ _ _ _ Hf ltac:(lia)) as (t & [= E1 E2 _] & Hlt). cbn [mbind outcome_bind].
    eexists _, _. split; [done|]. unfold static_ok. cbn [s_buffer s_buflen]. rewrite E2. split_and!; [|done|done|by apply cstr_spec].
    rewrite Hlt, length_drop. lia. }
  destruct (Z.ltb_spec (s_buflen st) needed) as [Hsmall|Hbig].
  - destruct (realloc (s_buffer st) needed) as [b|] eqn:Er; cbn [fmap option_fmap option_map].
    + assert (0 <= needed) as Hn0 by lia. pose proof (Hre _ _ _ Hn0 Er) as Hb. destruct (Hrun (Static b needed)) as (o & st' & E & H1 & H2); [done|cbn; lia|].
      exists (Some o), st'. split; [exact E|]. by split.
    + exists None, st. split; [done|]. split; [done|]. split; [done|]. by exists needed.
  - destruct (Hrun st Hst Hbig) as (o & st' & E & H1 & H2). exists (Some o), st'. split; [exact E|]. by split.
Qed.

Definition grow (b : list Z) (n : Z) : option (list Z) := Some (take (Z.to_nat n) b ++ replicate (Z.to_nat n - length b) 7).

Lemma sha_crypt_static_witness :
  ∃ o st', crypt SHA256 (Answers true true true true true true) (some_locals SHA256) grow
      ($"secret" ++ [0]) ($"$5$salt" ++ [0]) (Static [] 0) = Val (o, st') ∧ static_ok st' ∧
    match o with
    | Some res => returned res = true ∧ rbuffer res = s_buffer st' ∧ cstr (s_buffer st') = Val (crypt_text SHA256 $"secret" $"$5$salt")
    | None => st' = Static [] 0 ∧ ∃ n, 0 < n ∧ grow [] n = None
    end.
Proof.
  apply (sha_crypt_static SHA256 (Answers true true true true true true) (some_locals SHA256) grow $"secret" $"$5$salt" [] [] (Static [] 0)).
  - apply (bool_decide_eq_true_1 _). reflexivity.
  - apply (bool_decide_eq_true_1 _). reflexivity.
  - reflexivity.
  - split; reflexivity.
  - split; [|left]; try done. by left.
  - reflexivity.
  - intros b n b' Hn [= <-]. rewrite length_app, length_take, length_replicate. lia.
Defined.

(** When the [malloc] of [p_bytes] fails, the copy of the key is freed or
    left on the stack as it is. *)
Lemma malloc_failure_keeps_key a l key arg kt st buffer buflen :
  nul_free key → nul_free arg → fresh a l →
  ∃ res, crypt_r a (Answers true false true true false false) l (key ++ 0 :: kt) (arg ++ 0 :: st) buffer buflen = Val res ∧
    returned res = false ∧ l_copied_key (left_over res) = Some key.
Proof.
  intros Hk Ha [Hl1 Hl2]. unfold crypt_r. pose proof (find_salt_spec a arg st Ha) as Hf.
  destruct (setting a arg) as [[rest rounds] custom]. destruct Hf as (-> & Hr & _). cbn [mbind outcome_bind].
  rewrite salt_length_spec, strlen_spec by done. cbn [mbind outcome_bind key_misaligned alloca_key malloc_key andb negb].
  destruct (salt_field_prefix rest) as [tl Et]. set (s := salt_field rest) in *.
  rewrite (read_prefix key) by done. cbn [mbind outcome_bind]. clearbody s. subst rest. rewrite <- app_assoc, (read_prefix s) by done.
  cbn [mbind outcome_bind salt_misaligned default from_option id].
  destruct (copied_arg s (tl ++ 0 :: st) false) as (Hs1 & Hs2 & _). cbn [default from_option] in Hs1, Hs2.
  destruct (first_digests_spec (HM := md a) (dsize a) (dsize_pos a) (md_digest_length a) key key s (s ++ tl ++ 0 :: st)
    (l_ctx l) (l_alt_ctx l) (take_ge _ _ (Nat.le_refl _)) (Nat.le_refl _) Hs1 Hs2 Hl1 Hl2) as (c1 & a1 & -> & Hc1 & Ha1).
  cbn [mbind outcome_bind].
  destruct (times_digest_spec (HM := md a) (length key) key key a1 (take_ge _ _ (Nat.le_refl _)) (Nat.le_refl _) Ha1) as (a2 & -> & _).
  cbn [mbind outcome_bind alloca_p malloc_p negb andb]. eexists. by split.
Qed.
End ShaCrypt.
