(* ===== verification/Md5Crypt.v ===== *)
(** * MD5-based password hashing: [crypt/md5-crypt.c]

    [__md5_crypt_r] and [__md5_crypt], without [USE_NSS].  The loop that adds
    the alternate sum and the loop of a thousand rounds are those of
    [ShaCrypt], with the key and the salt in the place of the byte
    sequences P and S. *)

From S2P Require Import Prelude CString Digest Md5 Printf CryptOut ShaCrypt.
Local Open Scope Z_scope.

Module Md5Crypt.
Import CString Digest Md5 CryptOut.

Definition md5_salt_prefix : list Z := $"$1$".

(** The arguments of [__b64_from_24bit], a line each. *)
Definition md5_groups : list group :=
  [(Some 0, Some 6, Some 12, 4); (Some 1, Some 7, Some 13, 4); (Some 2, Some 8, Some 14, 4);
   (Some 3, Some 9, Some 15, 4); (Some 4, Some 10, Some 5, 4); (None, None, Some 11, 2)]%nat.

Definition find_salt (salt : list Z) : outcome (list Z) :=
  d ← strncmp (md5_salt_prefix ++ [0]) salt (length md5_salt_prefix);
  Val (if d =? 0 then drop (length md5_salt_prefix) salt else salt).

Definition salt_length (salt : list Z) : outcome nat :=
  n ← strcspn salt [DOLLAR; 0]; Val (Nat.min n 8).

(** [for (cnt = key_len; cnt > 0; cnt >>= 1)]: one byte, of [alt_result] or
    of the key. *)
Fixpoint add_bits (fuel : nat) (cnt : Z) (key alt_result : list Z) (c : ctx (Z * Z)) : outcome (ctx (Z * Z)) :=
  match fuel with
  | O => NoFuel
  | S fuel =>
      if 0 <? cnt then
        c ← md5_process_bytes (if negb (Z.land cnt 1 =? 0) then alt_result else key) 1 c;
        add_bits fuel (Z.shiftr cnt 1) key alt_result c
      else Val c
  end.

(** The first two digests, up to the intermediate result. *)
Definition first_digests (key salt : list Z) (key_len salt_len : nat) (c alt : ctx (Z * Z))
    : outcome (ctx (Z * Z) * ctx (Z * Z) * list Z) :=
  c ← md5_process_bytes key key_len (md5_init_ctx (buffer c));
  c ← md5_process_bytes (md5_salt_prefix ++ [0]) (length md5_salt_prefix) c;
  c ← md5_process_bytes salt salt_len c;
  alt ← md5_process_bytes key key_len (md5_init_ctx (buffer alt));
  alt ← md5_process_bytes salt salt_len alt;
  alt ← md5_process_bytes key key_len alt;
  r ← md5_finish_ctx alt;
  let alt := r.1 in
  c ← ShaCrypt.add_alt (HM := md5) 16 (S key_len) key_len r.2 c;
  alt_result ← write_at r.2 0 [0];
  c ← add_bits (S key_len) (Z.of_nat key_len) key alt_result c;
  r ← md5_finish_ctx c;
  Val (r.1, alt, r.2).

(** Whether [key] and [salt] are misaligned, and the answers of
    [__libc_use_alloca] and [malloc] for the copy of the key. *)
Record answers := Answers { key_misaligned : bool; salt_misaligned : bool; alloca_key : bool; malloc_key : bool }.

Record locals := Locals {
  l_ctx : ctx (Z * Z); l_alt_ctx : ctx (Z * Z); l_alt_result : list Z;
  l_copied_key : option (list Z); l_copied_salt : option (list Z)
}.
Record result := Result { returned : bool; rbuffer : list Z; set_errno : option Z; left_over : locals }.

Definition put_result (buffer : list Z) (buflen : Z) (salt : list Z) (salt_len : nat) (alt_result : list Z)
    : outcome (bool * list Z * option Z) :=
  o ← put_prefix buffer buflen md5_salt_prefix;
  o ← put_salt o salt salt_len;
  o ← put_hash md5_groups alt_result o;
  put_end o.

Definition bzero_ctx (c : ctx (Z * Z)) : ctx (Z * Z) :=
  Ctx (ShaCrypt.bzero (chain c)) (0, 0) 0 (ShaCrypt.bzero (buffer c)).

Definition cleanup (l : locals) : outcome locals :=
  r ← md5_finish_ctx (md5_init_ctx (buffer (l_ctx l)));
  Val (Locals (bzero_ctx r.1) (bzero_ctx (l_alt_ctx l)) r.2
              (ShaCrypt.bzero <$> l_copied_key l) (ShaCrypt.bzero <$> l_copied_salt l)).

Definition md5_crypt_r (q : answers) (l : locals) (key salt buffer : list Z) (buflen : Z) : outcome result :=
  salt ← find_salt salt;
  salt_len ← salt_length salt;
  key_len ← strlen key;
  if key_misaligned q && negb (alloca_key q) && negb (malloc_key q)
  then Val (Result false buffer (Some ShaCrypt.ENOMEM) l)
  else
    key_copy ← read_n key key_len;
    let copied_key := if key_misaligned q then Some key_copy else None in
    let key := default key copied_key in
    salt_copy ← read_n salt salt_len;
    let copied_salt := if salt_misaligned q then Some salt_copy else None in
    let salt := default salt copied_salt in
    first_digests key salt key_len salt_len (l_ctx l) (l_alt_ctx l) ≫= λ '(c, alt, alt_result),
    ShaCrypt.burn_loop (HM := md5) 16 1000 0 key salt key_len salt_len c alt_result ≫= λ '(c, alt_result),
    put_result buffer buflen salt salt_len alt_result ≫= λ '(ok, buffer, errno),
    l ← cleanup (Locals c alt alt_result copied_key copied_salt);
    Val (Result ok buffer errno l).

(** The static variables of [__md5_crypt], and the function; [realloc] gives
    the new block, or [None] for [NULL]. *)
Record static := Static { s_buffer : list Z; s_buflen : Z }.

Definition md5_crypt (q : answers) (l : locals) (realloc : list Z → Z → option (list Z))
    (key salt : list Z) (st : static) : outcome (option result * static) :=
  n ← strlen salt;
  let needed := wraps 32 (wrapu 64 (3 + Z.of_nat n + 1 + 26 + 1)) in
  let grown := if s_buflen st <? needed
               then (λ b, Static b needed) <$> realloc (s_buffer st) needed
               else Some st in
  match grown with
  | None => Val (None, st)
  | Some st =>
      r ← md5_crypt_r q l key salt (s_buffer st) (s_buflen st);
      Val (Some r, Static (rbuffer r) (s_buflen st))
  end.

(** ** The result as a function of its inputs *)

Definition setting (arg : list Z) : list Z := default arg (ShaCrypt.strip md5_salt_prefix arg).
Definition salt_field (s : list Z) : list Z := take 8 (ShaCrypt.before_dollar s).

Definition hash_A (key salt : list Z) : list Z :=
  let B := md5_digest (key ++ salt ++ key) in
  md5_digest (key ++ md5_salt_prefix ++ salt ++ ShaCrypt.cycle B (length key)
              ++ ((λ b : bool, if b then 0 else nth 0 key 0) <$> ShaCrypt.bits (length key))).
Definition hash (key salt : list Z) : list Z :=
  foldl (ShaCrypt.hash_round md5_digest key salt) (hash_A key salt) (seqZ 0 1000).

Definition crypt_text (key arg : list Z) : list Z :=
  let s := salt_field (setting arg) in
  md5_salt_prefix ++ s ++ DOLLAR :: hash_text md5_groups (hash key s).

(** ** The contexts compute it *)

Local Notation "'mrep'" := (represents (HM := md5) (count := count32)).

Lemma md5_compress_4 n h bs : length h = 4%nat → length (compress_blocks (H := md5) n h bs) = 4%nat.
Proof.
  revert h bs. induction n as [|n IH]; intros h bs Hh; [done|]. cbn [compress_blocks]. apply IH.
  cbn [compress md5]. unfold md5_compress. by destruct (foldl _ _ _) as [[[? ?] ?] ?].
Qed.

Lemma md5_length m : length (md_digest (H := md5) count32 m) = 16%nat.
Proof.
  unfold md_digest. cbn [output md5]. unfold md5_read_ctx. rewrite (ShaCrypt.mjoin_const _ _ _ (λ x, le_bytes_length 4 x)).
  rewrite md5_compress_4 by reflexivity. reflexivity.
Qed.

Lemma md5_add_bits_rep fuel p key key' alt m c :
  (0 < length key)%nat → take (length key) key' = key → head alt = Some 0 → (Pos.to_nat p < fuel)%nat → mrep m c →
  ∃ c', add_bits fuel (Zpos p) key' alt c = Val c' ∧
    mrep (m ++ ((λ b : bool, if b then 0 else nth 0 key 0) <$> ShaCrypt.pos_bits p)) c'.
Proof.
  intros Hl Hk Ha. revert p m c. induction fuel as [|fuel IH]; intros p m c Hf Hc; [lia|].
  cbn [add_bits]. cbn [Z.ltb Z.compare]. rewrite ShaCrypt.odd_land.
  assert (∃ c1, md5_process_bytes (if Z.odd (Zpos p) then alt else key') 1 c = Val c1 ∧
    mrep (m ++ [if Z.odd (Zpos p) then 0 else nth 0 key 0]) c1) as (c1 & -> & H1).
  { destruct (ShaCrypt.rep_process (HM := md5) m 1 (if Z.odd (Zpos p) then alt else key') c) as (c1 & E & H1).
    - destruct (Z.odd _); [destruct alt; [done|cbn; lia]|]. rewrite <- Hk, length_take in Hl. lia.
    - done.
    - exists c1. split; [exact E|]. destruct (Z.odd _).
      + destruct alt as [|x alt]; [done|]. cbn in Ha. injection Ha as ->. exact H1.
      + destruct key' as [|x key']; [rewrite take_nil in Hk; subst key; cbn in Hl; lia|].
        destruct key as [|y key]; [cbn in Hl; lia|]. cbn in Hk. injection Hk as -> _. exact H1. }
  cbn [mbind outcome_bind]. destruct p as [p|p|].
  - destruct (IH p _ c1 ltac:(lia) H1) as (c2 & E & H2). exists c2. split; [exact E|]. by rewrite <- (assoc (++)) in H2.
  - destruct (IH p _ c1 ltac:(lia) H1) as (c2 & E & H2). exists c2. split; [exact E|]. by rewrite <- (assoc (++)) in H2.
  - destruct fuel; [lia|]. by exists c1.
Qed.

Lemma md5_first_digests_spec key key' salt salt' c alt :
  take (length key) key' = key → (length key <= length key')%nat →
  take (length salt) salt' = salt → (length salt <= length salt')%nat →
  length (buffer c) = 128%nat → length (buffer alt) = 128%nat →
  ∃ c' alt', first_digests key' salt' (length key) (length salt) c alt = Val (c', alt', hash_A key salt) ∧
    length (buffer c') = 128%nat ∧ length (buffer alt') = 128%nat.
Proof.
  intros Hk Hk' Hs Hs' Hc Ha. unfold first_digests, md5_process_bytes, md5_finish_ctx, md5_init_ctx.
  destruct (ShaCrypt.rep_process (HM := md5) [] (length key) key' _ Hk' (ShaCrypt.init_rep (HM := md5) c Hc)) as (c1 & -> & H1).
  rewrite Hk in H1. cbn [mbind outcome_bind].
  destruct (ShaCrypt.rep_process (HM := md5) _ 3 (md5_salt_prefix ++ [0]) _ ltac:(cbn; lia) H1) as (c2 & E2 & H2).
  change (length md5_salt_prefix) with 3%nat. rewrite E2. cbn [mbind outcome_bind]. change (take 3 (md5_salt_prefix ++ [0])) with md5_salt_prefix in H2.
  destruct (ShaCrypt.rep_process (HM := md5) _ (length salt) salt' _ Hs' H2) as (c3 & -> & H3). rewrite Hs in H3. cbn [mbind outcome_bind].
  destruct (ShaCrypt.rep_process (HM := md5) [] (length key) key' _ Hk' (ShaCrypt.init_rep (HM := md5) alt Ha)) as (a1 & -> & A1).
  rewrite Hk in A1. cbn [mbind outcome_bind].
  destruct (ShaCrypt.rep_process (HM := md5) _ (length salt) salt' _ Hs' A1) as (a2 & -> & A2). rewrite Hs in A2. cbn [mbind outcome_bind].
  destruct (ShaCrypt.rep_process (HM := md5) _ (length key) key' _ Hk' A2) as (a3 & -> & A3). rewrite Hk in A3. cbn [mbind outcome_bind].
  destruct (ShaCrypt.rep_finish (HM := md5) _ _ A3) as (a4 & -> & A4). cbn [mbind outcome_bind fst snd app] in *.
  rewrite md5_reference. replace ((key ++ salt) ++ key) with (key ++ salt ++ key) by (by rewrite (assoc (++))).
  set (B := md5_digest (key ++ salt ++ key)).
  assert (length B = 16%nat) as HB by (unfold B; rewrite <- md5_reference; apply md5_length).
  destruct (ShaCrypt.add_alt_rep (HM := md5) 16 ltac:(lia) (S (length key)) (length key) B _ c3 HB ltac:(lia) H3) as (c4 & -> & H4).
  cbn [mbind outcome_bind]. unfold write_at. rewrite (proj2 (Nat.leb_le _ _)) by (rewrite HB; cbn [length]; lia). cbn [mbind outcome_bind].
  set (alt0 := take 0 B ++ [0] ++ drop (0 + length [0]) B).
  assert (∃ c5, add_bits (S (length key)) (Z.of_nat (length key)) key' alt0 c4 = Val c5 ∧
    mrep ((((key ++ md5_salt_prefix) ++ salt) ++ ShaCrypt.cycle B (length key)) ++
      ((λ b : bool, if b then 0 else nth 0 key 0) <$> ShaCrypt.bits (length key))) c5) as (c5 & -> & H5).
  { unfold ShaCrypt.bits. destruct (Z.of_nat (length key)) as [|p|p] eqn:E; [| |lia].
    - exists c4. split; [done|]. cbn. by rewrite app_nil_r.
    - apply md5_add_bits_rep; [lia|done|done|lia|done]. }
  cbn [mbind outcome_bind]. destruct (ShaCrypt.rep_finish (HM := md5) _ _ H5) as (c6 & -> & H6). cbn [mbind outcome_bind fst snd].
  exists c6, a4. split; [|done]. unfold hash_A. fold B. rewrite md5_reference. by rewrite <- !(assoc (++)).
Qed.

(** ** The whole function *)

Record fresh (l : locals) : Prop := {
  fresh_ctx : length (buffer (l_ctx l)) = 128%nat;
  fresh_alt : length (buffer (l_alt_ctx l)) = 128%nat
}.
Definition served (q : answers) : Prop := key_misaligned q = true → alloca_key q = true ∨ malloc_key q = true.

Definition zero_ctx (c : ctx (Z * Z)) : Prop :=
  ShaCrypt.zeros (chain c) ∧ total c = (0, 0) ∧ buflen c = 0%nat ∧ ShaCrypt.zeros (buffer c).
Record erased (l : locals) : Prop := {
  erased_ctx : zero_ctx (l_ctx l) ∧ zero_ctx (l_alt_ctx l);
  erased_alt_result : l_alt_result l = md5_digest [];
  erased_copies : (∀ k, l_copied_key l = Some k → ShaCrypt.zeros k) ∧ (∀ s, l_copied_salt l = Some s → ShaCrypt.zeros s)
}.

Lemma md5_cleanup_erased l : length (buffer (l_ctx l)) = 128%nat → ∃ l', cleanup l = Val l' ∧ erased l'.
Proof.
  intros Hs. unfold cleanup, md5_finish_ctx, md5_init_ctx.
  destruct (ShaCrypt.rep_finish (HM := md5) [] _ (ShaCrypt.init_rep (HM := md5) (l_ctx l) Hs)) as (c' & -> & _).
  cbn [mbind outcome_bind fst snd]. eexists. split; [reflexivity|].
  split; cbn [l_ctx l_alt_ctx l_alt_result l_copied_key l_copied_salt].
  - split; (split_and!; [apply ShaCrypt.bzero_zeros|done|done|apply ShaCrypt.bzero_zeros]).
  - by rewrite md5_reference.
  - split; intros k (x & _ & ->)%fmap_Some; apply ShaCrypt.bzero_zeros.
Qed.

Lemma md5_find_salt_spec arg t :
  nul_free arg → find_salt (arg ++ 0 :: t) = Val (setting arg ++ 0 :: t) ∧ nul_free (setting arg) ∧ (length (setting arg) <= length arg)%nat.
Proof.
  intros Hs. assert (nul_free md5_salt_prefix) as Hp by (repeat constructor; done). unfold find_salt, setting.
  destruct (ShaCrypt.strncmp_strip md5_salt_prefix arg t [0] Hp Hs) as (d & _ & -> & Hd). cbn [mbind outcome_bind].
  replace (- d =? 0) with (d =? 0) by (destruct (Z.eqb_spec d 0), (Z.eqb_spec (-d) 0); lia). rewrite Hd. clear d Hd.
  destruct (ShaCrypt.strip md5_salt_prefix arg) as [r|] eqn:E; [|done]. rewrite bool_decide_eq_true_2 by eauto.
  rewrite (ShaCrypt.drop_stripped _ _ _ _ E). cbn [default from_option id]. apply ShaCrypt.strip_Some in E as ->.
  apply nul_free_app in Hs as [_ Hs]. rewrite length_app. split_and!; [done|done|lia].
Qed.

Lemma md5_salt_length_spec s t : nul_free s → salt_length (s ++ 0 :: t) = Val (length (salt_field s)).
Proof.
  intros Hs. unfold salt_length, strcspn. change (cstr [DOLLAR; 0]) with (Val [DOLLAR]). cbn [mbind outcome_bind].
  rewrite ShaCrypt.span_dollar by done. cbn [mbind outcome_bind]. f_equal. unfold salt_field. rewrite length_take. lia.
Qed.

Lemma md5_salt_field_prefix s : ∃ r, s = salt_field s ++ r.
Proof.
  destruct (ShaCrypt.before_dollar_prefix s) as [r E]. exists (drop 8 (ShaCrypt.before_dollar s) ++ r).
  unfold salt_field. by rewrite (assoc (++)), take_drop.
Qed.

Lemma md5_hash_length key salt : length (hash key salt) = 16%nat.
Proof.
  unfold hash. assert (∀ m, length (md5_digest m) = 16%nat) as HD by (intros m; rewrite <- md5_reference; apply md5_length).
  assert (length (hash_A key salt) = 16%nat) as HA by apply HD. revert HA.
  generalize (hash_A key salt) as C. generalize (seqZ 0 1000) as l.
  induction l as [|i l IH]; intros C HC; [done|]. cbn. apply IH, HD.
Qed.

Lemma md5_groups_ok : Forall (group_ok 16) md5_groups.
Proof. apply ShaCrypt.group_ok_alt. repeat constructor. Qed.

Lemma md5_put_result_spec buffer buflen salt t h :
  (buflen <= length buffer)%nat → nul_free salt → length h = 16%nat →
  ∃ r, put_result buffer (Z.of_nat buflen) (salt ++ t) (length salt) h = Val r ∧
    finished buffer buflen (md5_salt_prefix ++ salt ++ DOLLAR :: hash_text md5_groups h) r.
Proof.
  intros Hb Hs Hh. unfold put_result.
  destruct (put_prefix_wrote buffer buflen Hb md5_salt_prefix) as (o1 & -> & H1); [repeat constructor; done|]. cbn [mbind outcome_bind].
  destruct (put_salt_wrote buffer buflen Hb _ o1 salt t _ Hs eq_refl H1) as (o3 & -> & H3). cbn [mbind outcome_bind].
  assert (Forall (group_ok (length h)) md5_groups) as Hg by (rewrite Hh; apply md5_groups_ok).
  destruct (put_hash_wrote buffer buflen Hb md5_groups h _ o3 Hg H3) as (o4 & -> & H4). cbn [mbind outcome_bind].
  destruct (put_end_finished buffer buflen Hb _ o4 H4) as (r & -> & H5). exists r. split; [done|].
  rewrite <- !(assoc (++)) in H5. exact H5.
Qed.

Lemma md5_crypt_r_spec q l key arg kt st buffer buflen :
  nul_free key → nul_free arg → (buflen <= length buffer)%nat → fresh l → served q →
  ∃ res, md5_crypt_r q l (key ++ 0 :: kt) (arg ++ 0 :: st) buffer (Z.of_nat buflen) = Val res ∧
    finished buffer buflen (crypt_text key arg) (returned res, rbuffer res, set_errno res) ∧
    erased (left_over res).
Proof.
  intros Hk Ha Hb [Hl1 Hl2] Hq. unfold md5_crypt_r, crypt_text. destruct (md5_find_salt_spec arg st Ha) as (-> & Hr & _).
  cbn [mbind outcome_bind]. rewrite md5_salt_length_spec, strlen_spec by done. cbn [mbind outcome_bind].
  assert (key_misaligned q && negb (alloca_key q) && negb (malloc_key q) = false) as ->.
  { unfold served in Hq. destruct (key_misaligned q); [|done]. destruct Hq as [-> | ->]; [done|done|]. by destruct (alloca_key q). }
  destruct (md5_salt_field_prefix (setting arg)) as [tl Et]. set (s := salt_field (setting arg)) in *. clearbody s. rewrite Et in *.
  assert (nul_free s) as Hns by (by apply nul_free_app in Hr as [? _]).
  rewrite (read_prefix key) by done. cbn [mbind outcome_bind]. rewrite <- app_assoc, (read_prefix s) by done. cbn [mbind outcome_bind].
  destruct (ShaCrypt.copied_arg key (0 :: kt) (key_misaligned q)) as (Hk1 & Hk2 & _). set (key' := default (key ++ 0 :: kt) _) in *.
  destruct (ShaCrypt.copied_arg s (tl ++ 0 :: st) (salt_misaligned q)) as (Hs1 & Hs2 & t' & Es). set (s' := default (s ++ tl ++ 0 :: st) _) in *.
  clearbody key' s'.
  destruct (md5_first_digests_spec key key' s s' (l_ctx l) (l_alt_ctx l) Hk1 Hk2 Hs1 Hs2 Hl1 Hl2) as (c1 & a1 & -> & Hc1 & Ha1).
  cbn [mbind outcome_bind].
  destruct (ShaCrypt.burn_loop_spec (HM := md5) 16 ltac:(lia) md5_length 1000 0 key key' s s' (hash_A key s) (length key) (length s) c1
    Hk1 Hk2 Hs1 Hs2) as (c2 & -> & Hc2); [unfold hash_A; rewrite <- md5_reference; apply md5_length|exact Hc1|]. cbn [mbind outcome_bind].
  assert (foldl (ShaCrypt.hash_round (md_digest count32) key s) (hash_A key s) (seqZ 0 (Z.of_nat 1000)) = hash key s) as ->.
  { unfold hash. change (Z.of_nat 1000) with 1000. generalize (seqZ 0 1000) as js. intros js. generalize (hash_A key s) as C.
    induction js as [|i js IH]; intros C; [done|]. cbn [foldl]. rewrite IH. f_equal. unfold ShaCrypt.hash_round. by rewrite md5_reference. }
  rewrite Es. destruct (md5_put_result_spec buffer buflen s t' (hash key s) Hb Hns (md5_hash_length key s)) as ([[ok buf] e] & -> & Hfin).
  cbn [mbind outcome_bind].
  destruct (md5_cleanup_erased (Locals c2 a1 (hash key s) (if key_misaligned q then Some key else None) (if salt_misaligned q then Some s else None)) Hc2)
    as (l' & El & Her).
  rewrite El. cbn [mbind outcome_bind]. eexists. split; [done|]. by split.
Qed.

(** ** Main theorems *)

Lemma md5_crypt_text_again key arg : crypt_text key (crypt_text key arg) = crypt_text key arg.
Proof.
  unfold crypt_text at 2. set (s := salt_field (setting arg)). unfold crypt_text, setting. rewrite ShaCrypt.strip_app.
  cbn [default from_option id]. assert (ShaCrypt.plain s) as Hs by apply Forall_take, ShaCrypt.before_dollar_plain.
  assert (salt_field (s ++ DOLLAR :: hash_text md5_groups (hash key s)) = s) as ->; [|done].
  unfold salt_field at 1. rewrite ShaCrypt.before_dollar_app by done. apply take_ge. unfold s, salt_field. rewrite length_take. lia.
Qed.

Lemma md5_crypt_text_bounds key arg :
  nul_free arg → nul_free (crypt_text key arg) ∧ (length (crypt_text key arg) <= 3 + Nat.min 8 (length arg) + 1 + 22)%nat.
Proof.
  intros Ha. destruct (md5_find_salt_spec arg [] Ha) as (_ & Hr & Hl). unfold crypt_text.
  destruct (md5_salt_field_prefix (setting arg)) as [tl Et].
  assert (length (salt_field (setting arg)) <= 8)%nat as H8 by (unfold salt_field; rewrite length_take; lia).
  set (s := salt_field (setting arg)) in *. clearbody s. rewrite Et in *. apply nul_free_app in Hr as [Hs _]. rewrite length_app in Hl. split.
  - apply nul_free_app. split; [repeat constructor; done|]. apply nul_free_app. split; [done|]. constructor; [done|].
    eapply Forall_impl; [apply hash_text_chars|]. by intros c [? _].
  - rewrite !length_app. cbn [length]. rewrite hash_text_length. change (list_sum (snd <$> md5_groups)) with 22%nat.
    change (length md5_salt_prefix) with 3%nat. lia.
Qed.

(** [__md5_crypt_r] stores the MD5-based hash of the key and of the first
    eight characters of the salt, or fails with [ERANGE] when it does not fit
    in [buflen], erases its intermediate results, and a result passed back as
    the salt always reproduces itself. *)
Theorem md5_crypt_verifies q q' l l' key arg kt st buffer buflen buffer' buflen' :
  nul_free key → nul_free arg → (buflen <= length buffer)%nat → (35 <= buflen' <= length buffer')%nat →
  fresh l → fresh l' → served q → served q' →
  ∃ res, md5_crypt_r q l (key ++ 0 :: kt) (arg ++ 0 :: st) buffer (Z.of_nat buflen) = Val res ∧
    finished buffer buflen (crypt_text key arg) (returned res, rbuffer res, set_errno res) ∧ erased (left_over res) ∧
    (returned res = true →
     ∃ res', md5_crypt_r q' l' (key ++ 0 :: kt) (rbuffer res) buffer' (Z.of_nat buflen') = Val res' ∧
       returned res' = true ∧ cstr (rbuffer res') = cstr (rbuffer res)).
Proof.
  intros Hk Ha Hb Hb' Hl Hl' Hq Hq'.
  destruct (md5_crypt_r_spec q l key arg kt st buffer buflen Hk Ha Hb Hl Hq) as (res & E & Hf & He).
  exists res. split; [done|]. split; [done|]. split; [done|]. intros Hret.
  destruct (md5_crypt_text_bounds key arg Ha) as [Hn Ht].
  assert (length (crypt_text key arg) < buflen)%nat as Hlt.
  { destruct (Nat.lt_ge_cases (length (crypt_text key arg)) buflen) as [|Hge]; [done|]. unfold finished in Hf.
    rewrite (proj2 (Nat.ltb_ge _ _) Hge), Hret in Hf. destruct Hf as (b & [= ?] & _). }
  destruct (ShaCrypt.finished_fits _ _ _ _ Hf Hlt) as (t & Et & _).
  pose proof (f_equal (λ r, r.1.2) Et) as Er. cbn [fst snd] in Er.
  destruct (md5_crypt_r_spec q' l' key _ kt t buffer' buflen' Hk Hn ltac:(lia) Hl' Hq') as (res' & E' & Hf' & _).
  rewrite md5_crypt_text_again in Hf'. destruct (ShaCrypt.finished_fits _ _ _ _ Hf' ltac:(lia)) as (t' & Et' & _).
  pose proof (f_equal (λ r, r.1.1) Et') as Er1'. pose proof (f_equal (λ r, r.1.2) Et') as Er2'. cbn [fst snd] in Er1', Er2'.
  exists res'. rewrite Er, Er2'. split; [exact E'|]. split; [done|].
  rewrite (cstr_spec (crypt_text key arg) t'), (cstr_spec (crypt_text key arg) t) by done. done.
Qed.

Definition some_ctx : ctx (Z * Z) := Ctx [] (7, 7) 7 (replicate 128 7).
Definition some_locals : locals := Locals some_ctx some_ctx [7] None None.

Lemma md5_crypt_verifies_witness :
  ∃ res, md5_crypt_r (Answers true false false true) some_locals
      ($"Hello world!" ++ [0]) ($"$1$saltstring" ++ [0]) (replicate 40 1) (Z.of_nat 40) = Val res ∧
    finished (replicate 40 1) 40 (crypt_text $"Hello world!" $"$1$saltstring") (returned res, rbuffer res, set_errno res) ∧
    erased (left_over res) ∧
    (returned res = true →
     ∃ res', md5_crypt_r (Answers false true true true) some_locals ($"Hello world!" ++ [0]) (rbuffer res)
         (replicate 35 1) (Z.of_nat 35) = Val res' ∧
       returned res' = true ∧ cstr (rbuffer res') = cstr (rbuffer res)).
Proof.
  apply (md5_crypt_verifies (Answers true false false true) (Answers false true true true) some_locals some_locals
    $"Hello world!" $"$1$saltstring" [] [] (replicate 40 1) 40 (replicate 35 1) 35).
  - apply (bool_decide_eq_true_1 _). reflexivity.
  - apply (bool_decide_eq_true_1 _). reflexivity.
  - rewrite length_replicate. lia.
  - rewrite length_replicate. lia.
  - split; reflexivity.
  - split; reflexivity.
  - intros _. right. reflexivity.
  - intros _. right. reflexivity.
Defined.

(** [__md5_crypt] asks for enough: it fails only when [realloc] does. *)
Lemma md5_crypt_static q l realloc key arg kt at_ st :
  nul_free key → nul_free arg → Z.of_nat (length arg) < 2 ^ 31 - 200 → fresh l → served q →
  s_buflen st = Z.of_nat (length (s_buffer st)) → ShaCrypt.realloc_ok realloc →
  ∃ o st', md5_crypt q l realloc (key ++ 0 :: kt) (arg ++ 0 :: at_) st = Val (o, st') ∧
    s_buflen st' = Z.of_nat (length (s_buffer st')) ∧
    match o with
    | Some res => returned res = true ∧ rbuffer res = s_buffer st' ∧ cstr (s_buffer st') = Val (crypt_text key arg)
    | None => st' = st ∧ ∃ n, s_buflen st < n ∧ realloc (s_buffer st) n = None
    end.
Proof.
  intros Hk Ha Hlen Hl Hq Hst Hre. unfold md5_crypt. rewrite strlen_spec by done. cbn [mbind outcome_bind].
  set (needed := wraps 32 _). destruct (md5_crypt_text_bounds key arg Ha) as [Hn Ht].
  assert (Z.of_nat (length (crypt_text key arg)) < needed) as Hfit.
  { unfold needed. unfold wrapu. rewrite Z.mod_small by lia. rewrite wraps_small by lia. lia. }
  assert (∀ st1, s_buflen st1 = Z.of_nat (length (s_buffer st1)) → needed <= s_buflen st1 →
    ∃ o st', (r ← md5_crypt_r q l (key ++ 0 :: kt) (arg ++ 0 :: at_) (s_buffer st1) (s_buflen st1);
              Val (Some r, Static (rbuffer r) (s_buflen st1))) = Val (Some o, st') ∧
      s_buflen st' = Z.of_nat (length (s_buffer st')) ∧
      returned o = true ∧ rbuffer o = s_buffer st' ∧ cstr (s_buffer st') = Val (crypt_text key arg)) as Hrun.
  { intros st1 Hst1 Hge. rewrite Hst1.
    destruct (md5_crypt_r_spec q l key arg kt at_ (s_buffer st1) (length (s_buffer st1)) Hk Ha ltac:(lia) Hl Hq) as (res & -> & Hf & _).
    destruct (ShaCrypt.finished_fits _ _ _ _ Hf ltac:(lia)) as (t & Et & Hlt).
    pose proof (f_equal (λ r, r.1.1) Et) as E1. pose proof (f_equal (λ r, r.1.2) Et) as E2. cbn [fst snd] in E1, E2. cbn [mbind outcome_bind].
    eexists _, _. split; [done|]. cbn [s_buffer s_buflen]. rewrite E2. split_and!; [|done|done|by apply cstr_spec].
    rewrite Hlt, length_drop. lia. }
  destruct (Z.ltb_spec (s_buflen st) needed) as [Hsmall|Hbig].
  - destruct (realloc (s_buffer st) needed) as [b|] eqn:Er; cbn [fmap option_fmap option_map].
    + assert (0 <= needed) as Hn0 by lia. pose proof (Hre _ _ _ Hn0 Er) as Hb.
      destruct (Hrun (Static b needed)) as (o & st' & E & H1 & H2); [done|cbn; lia|].
      exists (Some o), st'. split; [exact E|]. by split.
    + exists None, st. split; [done|]. split; [done|]. split; [done|]. by exists needed.
  - destruct (Hrun st Hst Hbig) as (o & st' & E & H1 & H2). exists (Some o), st'. split; [exact E|]. by split.
Qed.
End Md5Crypt.
