(* ===== verification/Getopt.v ===== *)
(** * Option parsing: [posix/getopt.c], [posix/getopt1.c]

    [_getopt_internal_r] with [exchange], [process_long_option] and
    [_getopt_initialize], and the entry points over the static data.  A
    string is the memory from its pointer on, so that a pointer into a string
    ([__nextchar], [optarg]) is a suffix of it; [argv] is the list of its
    [argc] strings and is permuted in place.  A call returns its code
    together with the data, the vector, the stores to [*longind] and through
    a [flag] pointer, and the diagnostics it prints.  Whether
    [POSIXLY_CORRECT] is set and the answers of [__libc_use_alloca] and
    [malloc] are inputs. *)

From S2P Require Import Prelude CString.
Local Open Scope Z_scope.

Module Getopt.
Import CString.

Definition COLON : Z := 58.
Definition SEMICOLON : Z := 59.
Definition QUESTION : Z := 63.
Definition DASH : Z := 45.
Definition PLUS : Z := 43.
Definition EQUALS : Z := 61.
Definition W : Z := 87.

(** [enum __ord]. *)
Inductive ord := REQUIRE_ORDER | PERMUTE | RETURN_IN_ORDER.
#[export] Instance ord_dec : EqDecision ord.
Proof. solve_decision. Defined.

(** [struct _getopt_data]. *)
Record getopt_data := Data {
  optind : Z; opterr : Z; optopt : Z; optarg : option (list Z);
  initialized : bool; nextchar : option (list Z); ordering : ord;
  first_nonopt : Z; last_nonopt : Z
}.

(** [struct option]; [flag] is the number of a variable, [None] for [NULL]. *)
Record option_ := Option { name : list Z; has_arg : Z; flag : option nat; val : Z }.

(** The diagnostics, with the program name. *)
Inductive message :=
  | Ambiguous (prog prefix opt : list Z) (possibilities : option (list (list Z)))
  | Unrecognized (prog prefix opt : list Z)
  | NoArgumentAllowed (prog prefix opt : list Z)
  | LongRequiresArgument (prog prefix opt : list Z)
  | Invalid (prog : list Z) (c : Z)
  | RequiresArgument (prog : list Z) (c : Z).

(** What a call did. *)
Record effect := Effect {
  code : Z; data : getopt_data; stored_index : option Z; stored_flag : option (nat * Z); printed : list message
}.

Definition set_optind (d : getopt_data) (i : Z) : getopt_data :=
  Data i (opterr d) (optopt d) (optarg d) (initialized d) (nextchar d) (ordering d) (first_nonopt d) (last_nonopt d).
Definition set_optopt (d : getopt_data) (c : Z) : getopt_data :=
  Data (optind d) (opterr d) c (optarg d) (initialized d) (nextchar d) (ordering d) (first_nonopt d) (last_nonopt d).
Definition set_optarg (d : getopt_data) (p : option (list Z)) : getopt_data :=
  Data (optind d) (opterr d) (optopt d) p (initialized d) (nextchar d) (ordering d) (first_nonopt d) (last_nonopt d).
Definition set_nextchar (d : getopt_data) (p : option (list Z)) : getopt_data :=
  Data (optind d) (opterr d) (optopt d) (optarg d) (initialized d) p (ordering d) (first_nonopt d) (last_nonopt d).
Definition set_nonopts (d : getopt_data) (first last : Z) : getopt_data :=
  Data (optind d) (opterr d) (optopt d) (optarg d) (initialized d) (nextchar d) (ordering d) first last.

(** [argv[i]] and a character of a string. *)
Definition arg (argv : list (list Z)) (i : Z) : outcome (list Z) :=
  if 0 <=? i then deref (argv !! Z.to_nat i) else Fault.
Definition char_at (p : list Z) (i : nat) : outcome Z := deref (p !! i).

(** ** [exchange] *)

(** [for (i = 0; i < len; i++)] with the three assignments. *)
Fixpoint swap_segments (len : nat) (a b : Z) (argv : list (list Z)) : outcome (list (list Z)) :=
  match len with
  | O => Val argv
  | S len =>
      tem ← arg argv a;
      y ← arg argv b;
      swap_segments len (a + 1) (b + 1) (<[Z.to_nat b := tem]> (<[Z.to_nat a := y]> argv))
  end.

Fixpoint exchange_loop (fuel : nat) (bottom middle top : Z) (argv : list (list Z)) : outcome (list (list Z)) :=
  match fuel with
  | O => NoFuel
  | S fuel =>
      if (middle <? top) && (bottom <? middle) then
        if middle - bottom <? top - middle then
          let len := middle - bottom in
          argv ← swap_segments (Z.to_nat len) bottom (top - (middle - bottom)) argv;
          exchange_loop fuel bottom middle (top - len) argv
        else
          let len := top - middle in
          argv ← swap_segments (Z.to_nat len) bottom middle argv;
          exchange_loop fuel (bottom + len) middle top argv
      else Val argv
  end.

(** Each round leaves out at least one element. *)
Definition exchange (argv : list (list Z)) (d : getopt_data) : outcome (list (list Z) * getopt_data) :=
  argv ← exchange_loop (S (length argv)) (first_nonopt d) (last_nonopt d) (optind d) argv;
  Val (argv, set_nonopts d (first_nonopt d + (optind d - last_nonopt d)) (optind d)).

(** ** [process_long_option] *)

(** [for (nameend = d->__nextchar; *nameend && *nameend != '='; nameend++)],
    as a length. *)
Fixpoint name_length (p : list Z) : outcome nat :=
  match p with
  | [] => Fault
  | c :: p => if (c =? 0) || (c =? EQUALS) then Val 0%nat else S <$> name_length p
  end.

(** The search for an exact match: the option and its index. *)
Fixpoint find_exact (opts : list option_) (next : list Z) (namelen : nat) (i : nat) : outcome (option (option_ * nat)) :=
  match opts with
  | [] => Val None
  | p :: opts =>
      d ← strncmp (name p) next namelen;
      n ← strlen (name p);
      if (d =? 0) && (namelen =? n)%nat then Val (Some (p, i)) else find_exact opts next namelen (S i)
  end.

(** The state of the search for abbreviations: [pfound] with [indfound],
    [ambig_set] and [ambig_fallback]. *)
Record search := Search { pfound : option (option_ * nat); ambig_set : option (list bool); ambig_fallback : bool }.

(** Whether the second match has to be told from the first. *)
Definition differs (long_only : bool) (p q : option_) : bool :=
  long_only || negb (has_arg p =? has_arg q) || negb (bool_decide (flag p = flag q)) || negb (val p =? val q).

(** A second or later match at [i]; [memory] says whether there is space for
    the set of [n] candidates. *)
Definition add_candidate (print_errors memory : bool) (n i indfound : nat) (s : search) : search :=
  if ambig_fallback s then s
  else
    let s :=
      if negb print_errors then Search (pfound s) (ambig_set s) true
      else match ambig_set s with
           | Some _ => s
           | None =>
               if memory then Search (pfound s) (Some (<[indfound := true]> (replicate n false))) (ambig_fallback s)
               else Search (pfound s) None true
           end in
    Search (pfound s) ((λ set, <[i := true]> set) <$> ambig_set s) (ambig_fallback s).

Fixpoint find_abbrev (long_only print_errors memory : bool) (n : nat) (opts : list option_)
    (next : list Z) (namelen i : nat) (s : search) : outcome search :=
  match opts with
  | [] => Val s
  | p :: opts =>
      d ← strncmp (name p) next namelen;
      let s :=
        if d =? 0 then
          match pfound s with
          | None => Search (Some (p, i)) (ambig_set s) (ambig_fallback s)
          | Some (q, indfound) =>
              if differs long_only q p then add_candidate print_errors memory n i indfound s else s
          end
        else s in
      find_abbrev long_only print_errors memory n opts next namelen (S i) s
  end.

(** The names listed in the diagnostic. *)
Definition possibilities (opts : list option_) (set : list bool) : list (list Z) :=
  (λ p, name p.1) <$> filter (λ p, p.2 = true) (zip opts set).

Definition say (b : bool) (m : message) : list message := if b then [m] else [].

(** What follows when a long option was found: [rest] is [nameend]. *)
Definition take_long (argc : Z) (argv : list (list Z)) (optstring prefix rest : list Z) (print_errors : bool)
    (p : option_) (index : nat) (d : getopt_data) : outcome effect :=
  prog ← arg argv 0;
  let d := set_nextchar (set_optind d (optind d + 1)) None in
  let found d :=
    match flag p with
    | Some f => Val (Effect 0 d (Some (Z.of_nat index)) (Some (f, val p)) [])
    | None => Val (Effect (val p) d (Some (Z.of_nat index)) None [])
    end in
  c ← char_at rest 0;
  if negb (c =? 0) then
    if negb (has_arg p =? 0) then found (set_optarg d (Some (drop 1 rest)))
    else Val (Effect QUESTION (set_optopt d (val p)) None None (say print_errors (NoArgumentAllowed prog prefix (name p))))
  else if has_arg p =? 1 then
    if optind d <? argc then
      a ← arg argv (optind d); found (set_optind (set_optarg d (Some a)) (optind d + 1))
    else
      o ← char_at optstring 0;
      Val (Effect (if o =? COLON then COLON else QUESTION) (set_optopt d (val p)) None None
             (say print_errors (LongRequiresArgument prog prefix (name p))))
  else found d.

(** [None] is the return value -1. *)
Definition process_long_option (argc : Z) (argv : list (list Z)) (optstring : list Z) (longopts : list option_)
    (long_only memory : bool) (d : getopt_data) (print_errors : bool) (prefix : list Z) : outcome (option effect) :=
  prog ← arg argv 0;
  next ← deref (nextchar d);
  namelen ← name_length next;
  exact ← find_exact longopts next namelen 0;
  match exact with
  | Some (p, index) => Some <$> take_long argc argv optstring prefix (drop namelen next) print_errors p index d
  | None =>
      s ← find_abbrev long_only print_errors memory (length longopts) longopts next namelen 0 (Search None None false);
      if bool_decide (is_Some (ambig_set s)) || ambig_fallback s then
        n ← strlen next;
        let m := Ambiguous prog prefix next
                   (if ambig_fallback s then None else possibilities longopts <$> ambig_set s) in
        let d := set_nextchar (set_optind d (optind d + 1)) (Some (drop n next)) in
        Val (Some (Effect QUESTION (set_optopt d 0) None None (say print_errors m)))
      else
        match pfound s with
        | Some (p, index) => Some <$> take_long argc argv optstring prefix (drop namelen next) print_errors p index d
        | None =>
            a ← (if long_only then arg argv (optind d) else Val []);
            c1 ← (if long_only then char_at a 1 else Val 0);
            c ← char_at next 0;
            short ← (if long_only && negb (c1 =? DASH) then strchr optstring c else Val None);
            if negb long_only || (c1 =? DASH) || bool_decide (short = None) then
              let d := set_nextchar (set_optind d (optind d + 1)) None in
              Val (Some (Effect QUESTION (set_optopt d 0) None None (say print_errors (Unrecognized prog prefix next))))
            else Val None
        end
  end.

(** ** [_getopt_internal_r] *)

(** [_getopt_initialize]; [env] says whether [POSIXLY_CORRECT] is set. *)
Definition getopt_initialize (optstring : list Z) (d : getopt_data) (posixly_correct env : bool)
    : outcome (list Z * getopt_data) :=
  let i := if optind d =? 0 then 1 else optind d in
  c ← char_at optstring 0;
  let '(o, optstring) :=
    if c =? DASH then (RETURN_IN_ORDER, drop 1 optstring)
    else if c =? PLUS then (REQUIRE_ORDER, drop 1 optstring)
    else if posixly_correct || env then (REQUIRE_ORDER, optstring)
    else (PERMUTE, optstring) in
  Val (optstring, Data i (opterr d) (optopt d) (optarg d) true None o i i).

(** [NONOPTION_P] for the string [a]. *)
Definition nonoption (a : list Z) : outcome bool :=
  c0 ← char_at a 0;
  if negb (c0 =? DASH) then Val true
  else c1 ← char_at a 1; Val (c1 =? 0).

(** [while (d->optind < argc && NONOPTION_P) d->optind++;] *)
Fixpoint skip_nonoptions (fuel : nat) (argc : Z) (argv : list (list Z)) (i : Z) : outcome Z :=
  match fuel with
  | O => NoFuel
  | S fuel =>
      if i <? argc then
        a ← arg argv i;
        b ← nonoption a;
        if b : bool then skip_nonoptions fuel argc argv (i + 1) else Val i
      else Val i
  end.

(** The part for [PERMUTE]. *)
Definition permute (argc : Z) (argv : list (list Z)) (d : getopt_data) : outcome (list (list Z) * getopt_data) :=
  r ← (if negb (first_nonopt d =? last_nonopt d) && negb (last_nonopt d =? optind d) then exchange argv d
       else if negb (last_nonopt d =? optind d) then Val (argv, set_nonopts d (optind d) (last_nonopt d))
       else Val (argv, d));
  let d := r.2 in
  i ← skip_nonoptions (S (length r.1)) argc r.1 (optind d);
  Val (r.1, set_nonopts (set_optind d i) (first_nonopt d) i).

(** The special element [--]. *)
Definition double_dash (argc : Z) (argv : list (list Z)) (d : getopt_data) : outcome (list (list Z) * getopt_data) :=
  if negb (optind d =? argc) then
    a ← arg argv (optind d);
    c ← strcmp a [DASH; DASH; 0];
    if c =? 0 then
      let d := set_optind d (optind d + 1) in
      r ← (if negb (first_nonopt d =? last_nonopt d) && negb (last_nonopt d =? optind d) then exchange argv d
           else if first_nonopt d =? last_nonopt d then Val (argv, set_nonopts d (optind d) (last_nonopt d))
           else Val (argv, d));
      Val (r.1, set_optind (set_nonopts r.2 (first_nonopt r.2) argc) argc)
    else Val (argv, d)
  else Val (argv, d).

(** The value of a [char], which is signed. *)
Definition schar (c : Z) : Z := if 128 <=? c then c - 256 else c.

(** [return process_long_option (...)]. *)
Definition return_long (r : option effect) (d : getopt_data) : effect := default (Effect (-1) d None None []) r.

(** The next short option character; [next] is [__nextchar]. *)
Definition short_option (argc : Z) (argv : list (list Z)) (optstring : list Z) (longopts : option (list option_))
    (memory : bool) (print_errors : bool) (next : list Z) (d : getopt_data) : outcome effect :=
  prog ← arg argv 0;
  c ← char_at next 0;
  let next := drop 1 next in
  temp ← strchr optstring c;
  n0 ← char_at next 0;
  let d := set_nextchar (if n0 =? 0 then set_optind d (optind d + 1) else d) (Some next) in
  o ← char_at optstring 0;
  let missing := if o =? COLON then COLON else QUESTION in
  match temp with
  | None => Val (Effect QUESTION (set_optopt d (schar c)) None None (say print_errors (Invalid prog c)))
  | Some temp =>
      if (c =? COLON) || (c =? SEMICOLON) then
        Val (Effect QUESTION (set_optopt d (schar c)) None None (say print_errors (Invalid prog c)))
      else
        t0 ← char_at temp 0;
        t1 ← char_at temp 1;
        match (if (t0 =? W) && (t1 =? SEMICOLON) then longopts else None) with
        | Some longopts =>
            if negb (n0 =? 0) || negb (optind d =? argc) then
              a ← (if negb (n0 =? 0) then Val next else arg argv (optind d));
              let d := set_optarg (set_nextchar d (Some a)) None in
              r ← process_long_option argc argv optstring longopts false memory d print_errors $"-W ";
              Val (return_long r d)
            else Val (Effect missing (set_optopt d (schar c)) None None (say print_errors (RequiresArgument prog c)))
        | None =>
            if t1 =? COLON then
              t2 ← char_at temp 2;
              if t2 =? COLON then
                let d := if negb (n0 =? 0) then set_optind (set_optarg d (Some next)) (optind d + 1)
                         else set_optarg d None in
                Val (Effect (schar c) (set_nextchar d None) None None [])
              else if negb (n0 =? 0) then
                Val (Effect (schar c) (set_nextchar (set_optind (set_optarg d (Some next)) (optind d + 1)) None) None None [])
              else if optind d =? argc then
                Val (Effect missing (set_nextchar (set_optopt d (schar c)) None) None None (say print_errors (RequiresArgument prog c)))
              else
                a ← arg argv (optind d);
                Val (Effect (schar c) (set_nextchar (set_optind (set_optarg d (Some a)) (optind d + 1)) None) None None [])
            else Val (Effect (schar c) d None None [])
        end
  end.

(** [It is not a long option]: the element at [optind] as short options. *)
Definition short_element (argc : Z) (argv : list (list Z)) (optstring : list Z) (longopts : option (list option_))
    (memory : bool) (print_errors : bool) (d : getopt_data) : outcome effect :=
  a ← arg argv (optind d);
  short_option argc argv optstring longopts memory print_errors (drop 1 a) (set_nextchar d (Some (drop 1 a))).

(** The effects of [e] followed by those of [e']. *)
Definition after (e e' : effect) : effect :=
  Effect (code e') (data e')
    (match stored_index e' with Some i => Some i | None => stored_index e end)
    (match stored_flag e' with Some f => Some f | None => stored_flag e end)
    (printed e ++ printed e').

(** An element that starts with a dash, at [optind].  When a long option was
    consumed and its value is -1 the code goes on with the next element. *)
Definition option_element (argc : Z) (argv : list (list Z)) (optstring : list Z) (longopts : option (list option_))
    (long_only memory : bool) (print_errors : bool) (d : getopt_data) : outcome effect :=
  a ← arg argv (optind d);
  match longopts with
  | None => short_element argc argv optstring longopts memory print_errors d
  | Some opts =>
      c1 ← char_at a 1;
      if c1 =? DASH then
        let d := set_nextchar d (Some (drop 2 a)) in
        r ← process_long_option argc argv optstring opts long_only memory d print_errors $"--";
        Val (return_long r d)
      else if long_only then
        c2 ← char_at a 2;
        s ← (if negb (c2 =? 0) then Val None else strchr optstring c1);
        if negb (c2 =? 0) || bool_decide (s = None) then
          let d := set_nextchar d (Some (drop 1 a)) in
          r ← process_long_option argc argv optstring opts long_only memory d print_errors $"-";
          let e := return_long r d in
          if code e =? -1
          then e' ← short_element argc argv optstring longopts memory print_errors (data e); Val (after e e')
          else Val e
        else short_element argc argv optstring longopts memory print_errors d
      else short_element argc argv optstring longopts memory print_errors d
  end.

(** The element at [optind], after operands may have been skipped; the
    vector is returned as well. *)
Definition dispatch_element (argc : Z) (argv : list (list Z)) (optstring : list Z) (longopts : option (list option_))
    (long_only memory : bool) (print_errors : bool) (d : getopt_data) : outcome (list (list Z) * effect) :=
  r ← double_dash argc argv d;
  let argv := r.1 in
  let d := r.2 in
  if optind d =? argc then
    let d := if negb (first_nonopt d =? last_nonopt d) then set_optind d (first_nonopt d) else d in
    Val (argv, Effect (-1) d None None [])
  else
    a ← arg argv (optind d);
    b ← nonoption a;
    if b : bool then
      if bool_decide (ordering d = REQUIRE_ORDER) then Val (argv, Effect (-1) d None None [])
      else Val (argv, Effect 1 (set_optind (set_optarg d (Some a)) (optind d + 1)) None None [])
    else e ← option_element argc argv optstring longopts long_only memory print_errors d; Val (argv, e).

(** Advance to the next element. *)
Definition next_element (argc : Z) (argv : list (list Z)) (optstring : list Z) (longopts : option (list option_))
    (long_only memory : bool) (print_errors : bool) (d : getopt_data) : outcome (list (list Z) * effect) :=
  let last := if optind d <? last_nonopt d then optind d else last_nonopt d in
  let first := if optind d <? first_nonopt d then optind d else first_nonopt d in
  let d := set_nonopts d first last in
  r ← (if bool_decide (ordering d = PERMUTE) then permute argc argv d else Val (argv, d));
  dispatch_element argc r.1 optstring longopts long_only memory print_errors r.2.

Definition getopt_internal_r (argc : Z) (argv : list (list Z)) (optstring : list Z) (longopts : option (list option_))
    (long_only memory : bool) (d : getopt_data) (posixly_correct env : bool) : outcome (list (list Z) * effect) :=
  if argc <? 1 then Val (argv, Effect (-1) d None None [])
  else
    let d := set_optarg d None in
    r ← (if (optind d =? 0) || negb (initialized d) then getopt_initialize optstring d posixly_correct env
         else c ← char_at optstring 0;
              Val (if (c =? DASH) || (c =? PLUS) then drop 1 optstring else optstring, d));
    let optstring := r.1 in
    let d := r.2 in
    o ← char_at optstring 0;
    let print_errors := negb (opterr d =? 0) && negb (o =? COLON) in
    match nextchar d with
    | None => next_element argc argv optstring longopts long_only memory print_errors d
    | Some next =>
        c ← char_at next 0;
        if c =? 0 then next_element argc argv optstring longopts long_only memory print_errors d
        else e ← short_option argc argv optstring longopts memory print_errors next d; Val (argv, e)
    end.

(** ** The entry points *)

(** The global variables, and the static data. *)
Record globals := Globals { g_optarg : option (list Z); g_optind : Z; g_opterr : Z; g_optopt : Z; g_data : getopt_data }.

(** [getopt_data.optind = optind; getopt_data.opterr = opterr;] *)
Definition set_opterr (d : getopt_data) (b : Z) : getopt_data :=
  Data (optind d) b (optopt d) (optarg d) (initialized d) (nextchar d) (ordering d) (first_nonopt d) (last_nonopt d).
Definition fetch (g : globals) : getopt_data := set_opterr (set_optind (g_data g) (g_optind g)) (g_opterr g).

Definition getopt_internal (argc : Z) (argv : list (list Z)) (optstring : list Z) (longopts : option (list option_))
    (long_only memory posixly_correct env : bool) (g : globals) : outcome (list (list Z) * effect * globals) :=
  r ← getopt_internal_r argc argv optstring longopts long_only memory (fetch g) posixly_correct env;
  let d := data r.2 in
  Val (r.1, r.2, Globals (optarg d) (optind d) (g_opterr g) (optopt d) d).

Definition getopt (argc : Z) (argv : list (list Z)) (optstring : list Z) (memory env : bool) :=
  getopt_internal argc argv optstring None false memory false env.
Definition posix_getopt (argc : Z) (argv : list (list Z)) (optstring : list Z) (memory env : bool) :=
  getopt_internal argc argv optstring None false memory true env.
Definition getopt_long (argc : Z) (argv : list (list Z)) (options : list Z) (long_options : list option_) (memory env : bool) :=
  getopt_internal argc argv options (Some long_options) false memory false env.
Definition getopt_long_only (argc : Z) (argv : list (list Z)) (options : list Z) (long_options : list option_) (memory env : bool) :=
  getopt_internal argc argv options (Some long_options) true memory false env.
Definition getopt_long_r (argc : Z) (argv : list (list Z)) (options : list Z) (long_options : list option_)
    (memory env : bool) (d : getopt_data) :=
  getopt_internal_r argc argv options (Some long_options) false memory d false env.
Definition getopt_long_only_r (argc : Z) (argv : list (list Z)) (options : list Z) (long_options : list option_)
    (memory env : bool) (d : getopt_data) :=
  getopt_internal_r argc argv options (Some long_options) true memory d false env.
End Getopt.
