(* ===== verification/GetoptRun.v ===== *)
(** * Option parsing: correctness of [_getopt_internal_r]

    [exchange] swaps two adjacent segments.  Between calls the vector is the
    program name, the options moved to the front, the non-options skipped so
    far, the options found since, and the rest: the invariant says so and
    that the two parts keep the order the elements were given in.  Every
    call keeps it, stays within the vector and the strings, and makes
    progress, so that a caller's loop ends; then all options precede all
    operands. *)

From S2P Require Import Prelude CString Getopt.
Local Open Scope Z_scope.

Module GetoptRun.
Import CString Getopt.

(** ** [exchange] *)

Lemma arg_mid (P R : list (list Z)) x a : a = Z.of_nat (length P) → arg (P ++ x :: R) a = Val x.
Proof.
  intros ->. unfold arg. rewrite (proj2 (Z.leb_le _ _)), Nat2Z.id by lia. by rewrite list_lookup_middle.
Qed.

Lemma insert_mid (P R : list (list Z)) x y a : a = Z.of_nat (length P) → <[Z.to_nat a := y]> (P ++ x :: R) = P ++ y :: R.
Proof. intros ->. rewrite Nat2Z.id. by rewrite insert_app_r_alt, Nat.sub_diag by lia. Qed.

Lemma swap_segments_spec n P X Q Y R a b :
  length X = n → length Y = n → a = Z.of_nat (length P) → b = Z.of_nat (length P + n + length Q) →
  swap_segments n a b (P ++ X ++ Q ++ Y ++ R) = Val (P ++ Y ++ Q ++ X ++ R).
Proof.
  revert P X Q Y a b. induction n as [|n IH]; intros P X Q Y a b HX HY Ha Hb.
  - apply nil_length_inv in HX as ->. apply nil_length_inv in HY as ->. done.
  - destruct X as [|x X]; [done|]. destruct Y as [|y Y]; [done|]. injection HX as HX. injection HY as HY. cbn [swap_segments app].
    rewrite (arg_mid P _ x a Ha). cbn [mbind outcome_bind].
    replace (P ++ x :: X ++ Q ++ y :: Y ++ R) with ((P ++ x :: X ++ Q) ++ y :: Y ++ R) by (by rewrite <- !(assoc (++)); cbn; rewrite <- !(assoc (++))).
    rewrite (arg_mid _ _ y b) by (rewrite Hb, !length_app; cbn; rewrite length_app; lia). cbn [mbind outcome_bind].
    replace ((P ++ x :: X ++ Q) ++ y :: Y ++ R) with (P ++ x :: X ++ Q ++ y :: Y ++ R) by (by rewrite <- !(assoc (++)); cbn; rewrite <- !(assoc (++))).
    rewrite (insert_mid P _ x y a Ha).
    replace (P ++ y :: X ++ Q ++ y :: Y ++ R) with ((P ++ y :: X ++ Q) ++ y :: Y ++ R) by (by rewrite <- !(assoc (++)); cbn; rewrite <- !(assoc (++))).
    rewrite (insert_mid _ _ y x b) by (rewrite Hb, !length_app; cbn; rewrite length_app; lia).
    replace ((P ++ y :: X ++ Q) ++ x :: Y ++ R) with ((P ++ [y]) ++ X ++ (Q ++ [x]) ++ Y ++ R) by (by rewrite <- !(assoc (++)); cbn; rewrite <- !(assoc (++))).
    rewrite IH by (rewrite ?length_app; cbn; lia). by rewrite <- !(assoc (++)).
Qed.

Lemma exchange_loop_spec fuel P N O R :
  (length N + length O < fuel)%nat →
  exchange_loop fuel (Z.of_nat (length P)) (Z.of_nat (length P + length N)) (Z.of_nat (length P + length N + length O))
    (P ++ N ++ O ++ R) = Val (P ++ O ++ N ++ R).
Proof.
  revert P N O R. induction fuel as [|fuel IH]; intros P N O R Hf; [lia|]. cbn [exchange_loop].
  destruct (decide (N = [])) as [->|HN].
  { rewrite (proj2 (Z.ltb_ge (Z.of_nat (length P)) _)), andb_false_r by (cbn; lia). done. }
  destruct (decide (O = [])) as [->|HO].
  { rewrite (proj2 (Z.ltb_ge (Z.of_nat (length P + length N)) _)) by (cbn; lia). done. }
  assert (0 < length N)%nat by (destruct N; [done|cbn; lia]). assert (0 < length O)%nat by (destruct O; [done|cbn; lia]).
  rewrite (proj2 (Z.ltb_lt (Z.of_nat (length P + length N)) (Z.of_nat (length P + length N + length O)))) by lia.
  rewrite (proj2 (Z.ltb_lt (Z.of_nat (length P)) (Z.of_nat (length P + length N)))) by lia. cbn [andb].
  destruct (Z.ltb_spec (Z.of_nat (length P + length N) - Z.of_nat (length P))
    (Z.of_nat (length P + length N + length O) - Z.of_nat (length P + length N))) as [Hlt|Hge].
  - set (k := (length O - length N)%nat).
    assert (∃ O1 O2, O = O1 ++ O2 ∧ length O1 = k ∧ length O2 = length N) as (O1 & O2 & -> & H1 & H2).
    { exists (take k O), (drop k O). rewrite take_drop, length_take, length_drop. unfold k. split_and!; [done|lia|lia]. }
    rewrite length_app in *. rewrite <- (assoc (++) O1).
    rewrite (swap_segments_spec _ P N O1 O2 R) by lia. cbn [mbind outcome_bind].
    pose proof (IH P O2 O1 (N ++ R) ltac:(lia)) as E. rewrite H2 in E.
    replace (Z.of_nat (length P + length N + (length O1 + length O2)) - (Z.of_nat (length P + length N) - Z.of_nat (length P)))
      with (Z.of_nat (length P + length N + length O1)) by lia.
    by rewrite E, <- (assoc (++) O1).
  - assert (∃ N1 N2, N = N1 ++ N2 ∧ length N1 = length O) as (N1 & N2 & -> & H1).
    { exists (take (length O) N), (drop (length O) N). rewrite take_drop, length_take. split; [done|lia]. }
    rewrite length_app in *. rewrite <- (assoc (++) N1).
    rewrite (swap_segments_spec _ P N1 N2 O R) by lia. cbn [mbind outcome_bind].
    pose proof (IH (P ++ O) N2 N1 R ltac:(lia)) as E. rewrite length_app, <- !(assoc (++)) in E.
    replace (Z.of_nat (length P) + (Z.of_nat (length P + (length N1 + length N2) + length O) - Z.of_nat (length P + (length N1 + length N2))))
      with (Z.of_nat (length P + length O)) by lia.
    replace (length P + (length N1 + length N2))%nat with (length P + length O + length N2)%nat by lia.
    replace (length P + length O + length N2 + length O)%nat with (length P + length O + length N2 + length N1)%nat by lia.
    by rewrite E, <- (assoc (++) N1).
Qed.

Lemma exchange_spec P N O R d :
  first_nonopt d = Z.of_nat (length P) → last_nonopt d = first_nonopt d + Z.of_nat (length N) →
  optind d = last_nonopt d + Z.of_nat (length O) →
  exchange (P ++ N ++ O ++ R) d
  = Val (P ++ O ++ N ++ R, set_nonopts d (Z.of_nat (length P + length O)) (optind d)).
Proof.
  intros Hf Hl Ho. unfold exchange. rewrite Ho, Hl, Hf.
  replace (Z.of_nat (length P) + Z.of_nat (length N) + Z.of_nat (length O)) with (Z.of_nat (length P + length N + length O)) by lia.
  replace (Z.of_nat (length P) + Z.of_nat (length N)) with (Z.of_nat (length P + length N)) by lia.
  rewrite exchange_loop_spec by (rewrite !length_app; lia). cbn [mbind outcome_bind]. do 3 f_equal. lia.
Qed.

(** ** Strings *)

Definition cstring (p : list Z) : Prop := ∃ s t, p = s ++ 0 :: t ∧ nul_free s.

(** The number of characters before the NUL. *)
Fixpoint chars (p : list Z) : nat :=
  match p with
  | [] => 0
  | c :: p => if c =? 0 then 0 else S (chars p)
  end.

Lemma chars_spec s t : nul_free s → chars (s ++ 0 :: t) = length s.
Proof. induction s as [|c s IH]; [done|]. intros [Hc Hs]%nul_free_cons. cbn. by rewrite (proj2 (Z.eqb_neq _ _) Hc), IH. Qed.

(** A string is at its end or has a first character. *)
Lemma cstring_inv p :
  cstring p → ∃ c q, p = c :: q ∧ ((c = 0 ∧ chars p = 0%nat) ∨ (c ≠ 0 ∧ cstring q ∧ chars p = S (chars q))).
Proof.
  intros (s & t & -> & Hs). destruct s as [|c s]; [exists 0, t; split; [done|left; done]|].
  apply nul_free_cons in Hs as [Hc Hs]. exists c, (s ++ 0 :: t). split; [done|]. right. split; [done|].
  split; [by exists s, t|]. cbn. by rewrite (proj2 (Z.eqb_neq _ _) Hc).
Qed.

Lemma cstring_chars p : cstring p → ∃ c, char_at p (chars p) = Val c ∧ c = 0.
Proof. intros (s & t & -> & Hs). rewrite chars_spec by done. unfold char_at. rewrite list_lookup_middle by done. by exists 0. Qed.

Lemma cstring_drop p n : cstring p → (n <= chars p)%nat → cstring (drop n p) ∧ chars (drop n p) = (chars p - n)%nat.
Proof.
  intros (s & t & -> & Hs) Hn. rewrite chars_spec in * by done. rewrite drop_app_le by done.
  assert (nul_free (drop n s)) as Hd by (by apply Forall_drop). split; [by exists (drop n s), t|].
  by rewrite chars_spec, length_drop.
Qed.

Lemma strlen_chars p : cstring p → strlen p = Val (chars p).
Proof. intros (s & t & -> & Hs). by rewrite strlen_spec, chars_spec. Qed.

Lemma strncmp_total n p q : cstring p → cstring q → ∃ d, strncmp p q n = Val d.
Proof.
  rewrite strncmp_unrolled. revert p q. induction n as [|n IH]; intros p q Hp Hq; [by exists 0|].
  destruct (cstring_inv p Hp) as (c & p' & -> & Hc). destruct (cstring_inv q Hq) as (d & q' & -> & Hd). cbn [strncmp_ref].
  destruct (Z.eqb_spec c 0) as [->|Hc0]; [by eexists|]. destruct (Z.eqb_spec c d) as [->|]; [|by eexists]. cbn [orb negb].
  apply IH; [by destruct Hc as [[? _]|(_ & ? & _)]|by destruct Hd as [[? _]|(_ & ? & _)]].
Qed.

Lemma strchr_total p c : cstring p → ∃ r, strchr p c = Val r ∧ ∀ q, r = Some q → ∃ a, p = a ++ q ∧ q !! 0%nat = Some c ∧ (length a <= chars p)%nat.
Proof.
  intros (s & t & -> & Hs). induction s as [|x s IH].
  - cbn [app strchr]. destruct (Z.eqb_spec 0 c) as [<-|Hc].
    + eexists. split; [done|]. intros q [= <-]. exists []. split_and!; [done|done|cbn; lia].
    + cbn. eexists. split; [done|]. done.
  - apply nul_free_cons in Hs as [Hx Hs]. cbn [app strchr]. destruct (Z.eqb_spec x c) as [->|Hc].
    + eexists. split; [done|]. intros q [= <-]. exists []. split_and!; [done|done|cbn; lia].
    + rewrite (proj2 (Z.eqb_neq _ _) Hx). destruct (IH Hs) as (r & -> & Hr). exists r. split; [done|].
      intros q Hq. destruct (Hr q Hq) as (a & -> & Hq0 & Hl). exists (x :: a). split_and!; [done|done|].
      cbn. rewrite (proj2 (Z.eqb_neq _ _) Hx). lia.
Qed.

Lemma name_length_total p : cstring p → ∃ n, name_length p = Val n ∧ (n <= chars p)%nat.
Proof.
  intros (s & t & -> & Hs). rewrite chars_spec by done. induction s as [|c s IH]; [exists 0%nat; cbn; split; [done|lia]|].
  apply nul_free_cons in Hs as [Hc Hs]. cbn [app name_length]. destruct ((c =? 0) || (c =? EQUALS)); [exists 0%nat; split; [done|lia]|].
  destruct (IH Hs) as (n & -> & Hn). exists (S n). split; [done|]. cbn. lia.
Qed.

(** ** Long options *)

(** Options with names; none is told from the end by the value -1. *)
Definition opts_ok (opts : list option_) : Prop :=
  Forall (λ p, cstring (name p) ∧ (flag p = None → val p ≠ -1)) opts.

Lemma char_at_0 p : cstring p → ∃ c, char_at p 0 = Val c.
Proof. intros (s & t & -> & _). destruct s as [|c s]; by eexists. Qed.

Lemma find_exact_total opts next n i :
  opts_ok opts → cstring next → ∃ r, find_exact opts next n i = Val r ∧ ∀ p j, r = Some (p, j) → p ∈ opts.
Proof.
  intros Ho Hn. revert i. induction Ho as [|p opts [Hp _] Hopts IH]; intros i; cbn [find_exact].
  - eexists. split; [done|]. done.
  - destruct (strncmp_total n (name p) next Hp Hn) as (d & ->). cbn [mbind outcome_bind]. rewrite strlen_chars by done. cbn [mbind outcome_bind].
    destruct (_ && _); [eexists; split; [done|]; intros ? ? [= <- <-]; set_solver|].
    destruct (IH (S i)) as (r & -> & Hr). exists r. split; [done|]. intros q j Hq. specialize (Hr q j Hq). set_solver.
Qed.

Lemma find_abbrev_total lo pe mem n opts next k i s :
  opts_ok opts → cstring next →
  ∃ s', find_abbrev lo pe mem n opts next k i s = Val s' ∧ ∀ p j, pfound s' = Some (p, j) → pfound s = Some (p, j) ∨ p ∈ opts.
Proof.
  intros Ho Hn. revert i s. induction Ho as [|p opts [Hp _] Hopts IH]; intros i s; cbn [find_abbrev].
  - exists s. split; [done|]. by left.
  - destruct (strncmp_total k (name p) next Hp Hn) as (d & ->). cbn [mbind outcome_bind].
    set (s1 := if d =? 0 then _ else _). destruct (IH (S i) s1) as (s' & -> & Hs). exists s'. split; [done|].
    intros q j Hq. destruct (Hs q j Hq) as [Hq'|Hq']; [|right; set_solver].
    assert (pfound s1 = pfound s ∨ pfound s1 = Some (p, i)) as [E|E].
    { unfold s1. destruct (d =? 0); [|by left]. destruct (pfound s) as [[q0 i0]|] eqn:E0; [|by right].
      destruct (differs _ _ _); [|by left]. left. unfold add_candidate. destruct (ambig_fallback s); [done|].
      destruct pe; cbn [negb]; [|done]. destruct (ambig_set s); [done|]. by destruct mem. }
    + left. by rewrite <- E.
    + right. rewrite E in Hq'. injection Hq' as <- _. set_solver.
Qed.

Section long.
Variables (argc : Z) (argv : list (list Z)) (optstring : list Z).
Hypothesis argc_argv : argc = Z.of_nat (length argv).
Hypothesis argv_nonempty : (1 <= length argv)%nat.
Hypothesis argv_strings : Forall cstring argv.
Hypothesis optstring_string : cstring optstring.

(** The members no option changes. *)
Definition same (d d' : getopt_data) : Prop :=
  opterr d' = opterr d ∧ initialized d' = initialized d ∧ ordering d' = ordering d ∧
  first_nonopt d' = first_nonopt d ∧ last_nonopt d' = last_nonopt d.

Lemma same_trans d d' d'' : same d d' → same d' d'' → same d d''.
Proof using. intros (? & ? & ? & ? & ?) (? & ? & ? & ? & ?). split_and!; congruence. Qed.

(** No character of an element is left to scan. *)
Definition at_end (d : getopt_data) : Prop := ∀ p, nextchar d = Some p → cstring p ∧ chars p = 0%nat.

(** At least the element at [optind] is used up, and nothing past the end. *)
Definition consumed (d d' : getopt_data) : Prop :=
  same d d' ∧ optind d + 1 <= optind d' <= argc ∧ at_end d'.

Lemma arg_total i : 0 <= i < argc → ∃ a, arg argv i = Val a ∧ cstring a.
Proof using argc_argv argv_nonempty argv_strings.
  intros Hi. unfold arg. rewrite (proj2 (Z.leb_le _ _)) by lia.
  destruct (lookup_lt_is_Some_2 argv (Z.to_nat i) ltac:(lia)) as [a Ea]. exists a. rewrite Ea. split; [done|].
  by apply (Forall_lookup_1 _ _ _ _ argv_strings Ea).
Qed.

Lemma take_long_spec prefix rest pe p index d :
  cstring rest → (flag p = None → val p ≠ -1) → 0 <= optind d < argc →
  ∃ e, take_long argc argv optstring prefix rest pe p index d = Val e ∧ code e ≠ -1 ∧ consumed d (data e).
Proof using argc_argv argv_nonempty argv_strings optstring_string.
  intros Hr Hv Hi. unfold take_long. destruct (arg_total 0) as (prog & -> & _); [lia|]. cbn [mbind outcome_bind].
  destruct (char_at_0 rest Hr) as (c & ->). cbn [mbind outcome_bind].
  set (d1 := set_nextchar (set_optind d (optind d + 1)) None).
  assert (∀ d2, same d d2 → optind d + 1 <= optind d2 <= argc → nextchar d2 = None → ∃ e,
    match flag p with
    | Some f => Val (Effect 0 d2 (Some (Z.of_nat index)) (Some (f, val p)) [])
    | None => Val (Effect (val p) d2 (Some (Z.of_nat index)) None [])
    end = Val e ∧ code e ≠ -1 ∧ consumed d (data e)) as Hfound.
  { intros d2 H1 H2 H3. destruct (flag p) eqn:Ef; eexists; (split; [done|]); cbn [code data];
      (split; [by first [apply Hv|done]|]); (split_and!; [done|lia|lia|]); intros q Hq; congruence. }
  assert (same d d1) as Hs1 by done.
  destruct (negb (c =? 0)).
  - destruct (negb (has_arg p =? 0)); [apply Hfound; [done|cbn; lia|done]|]. eexists. split; [done|]. cbn [code data].
    split; [done|]. split_and!; [done|cbn; lia|cbn; lia|]. done.
  - destruct (has_arg p =? 1); [|apply Hfound; [done|cbn; lia|done]].
    change (optind d1) with (optind d + 1). destruct (Z.ltb_spec (optind d + 1) argc).
    + destruct (arg_total (optind d + 1)) as (a & -> & _); [lia|]. cbn [mbind outcome_bind].
      apply Hfound; [done|cbn; lia|done].
    + destruct (char_at_0 optstring optstring_string) as (o & ->). cbn [mbind outcome_bind]. eexists. split; [done|].
      cbn [code data]. split; [by destruct (o =? COLON)|]. split_and!; [done|cbn; lia|cbn; lia|]. done.
Qed.

Lemma process_long_spec opts lo mem d pe prefix next :
  opts_ok opts → nextchar d = Some next → cstring next → 0 <= optind d < argc →
  (lo = true → ∃ a, arg argv (optind d) = Val a ∧ cstring a ∧ (1 <= chars a)%nat) →
  ∃ r, process_long_option argc argv optstring opts lo mem d pe prefix = Val r ∧
    match r with
    | None => lo = true
    | Some e => code e ≠ -1 ∧ consumed d (data e)
    end.
Proof using argc_argv argv_nonempty argv_strings optstring_string.
  intros Ho En Hn Hi Hlo. unfold process_long_option. destruct (arg_total 0) as (prog & -> & _); [lia|]. cbn [mbind outcome_bind].
  rewrite En. cbn [deref mbind outcome_bind]. destruct (name_length_total next Hn) as (k & -> & Hk). cbn [mbind outcome_bind].
  destruct (cstring_drop next k Hn Hk) as [Hrest _].
  destruct (find_exact_total opts next k 0 Ho Hn) as (r & -> & Hr). cbn [mbind outcome_bind].
  assert (∀ p j, p ∈ opts → ∃ r, Some <$> take_long argc argv optstring prefix (drop k next) pe p j d = Val r ∧
    match r with None => lo = true | Some e => code e ≠ -1 ∧ consumed d (data e) end) as Htake.
  { intros p j Hp. unfold opts_ok in Ho. rewrite Forall_forall in Ho. destruct (Ho p Hp) as [_ Hv].
    destruct (take_long_spec prefix (drop k next) pe p j d Hrest Hv Hi) as (e & -> & He). by exists (Some e). }
  destruct r as [[p j]|]; [apply Htake; by eapply Hr|]. clear Hr.
  destruct (find_abbrev_total lo pe mem (length opts) opts next k 0 (Search None None false) Ho Hn) as (s & -> & Hs).
  cbn [mbind outcome_bind]. destruct (bool_decide _ || _).
  - rewrite strlen_chars by done. cbn [mbind outcome_bind]. eexists. split; [done|]. cbn [code data]. split; [done|].
    split_and!; [done|cbn; lia|cbn; lia|]. intros q [= <-].
    destruct (cstring_drop next (chars next) Hn ltac:(lia)) as [H1 H2]. split; [done|lia].
  - destruct (pfound s) as [[p j]|] eqn:Ep.
    + apply Htake. destruct (Hs p j eq_refl) as [?|?]; done.
    + clear Htake Hs. destruct (char_at_0 next Hn) as (c & Ec).
      destruct lo.
      * destruct Hlo as (a & -> & Ha & Hla); [done|]. cbn [mbind outcome_bind].
        destruct (cstring_drop a 1 Ha Hla) as [Ha1 _]. destruct (char_at_0 _ Ha1) as (c1 & Ec1).
        assert (char_at a 1 = Val c1) as -> by (unfold char_at in *; by rewrite lookup_drop in Ec1). cbn [mbind outcome_bind].
        rewrite Ec. cbn [mbind outcome_bind]. destruct (c1 =? DASH); cbn [negb andb orb mbind outcome_bind].
        { eexists. split; [done|]. cbn [code data]. split; [done|]. split_and!; [done|cbn; lia|cbn; lia|]. done. }
        destruct (strchr_total optstring c optstring_string) as (r & -> & _). cbn [mbind outcome_bind].
        destruct (bool_decide _); [|by exists None].
        eexists. split; [done|]. cbn [code data]. split; [done|]. split_and!; [done|cbn; lia|cbn; lia|]. done.
      * cbn [mbind outcome_bind]. rewrite Ec. cbn [negb andb orb mbind outcome_bind]. eexists. split; [done|]. cbn [code data].
        split; [done|]. split_and!; [done|cbn; lia|cbn; lia|]. done.
Qed.

(** ** Short options *)

Hypothesis no_minus_one : ∀ c q, strchr optstring c = Val (Some q) → schar c ≠ -1.
Variable longopts : option (list option_).
Hypothesis longopts_ok : ∀ opts, longopts = Some opts → opts_ok opts.

(** Either the element is used up, or fewer of its characters are left. *)
Definition stepped (n : nat) (d d' : getopt_data) : Prop :=
  consumed d d' ∨
  (same d d' ∧ optind d' = optind d ∧ ∃ p, nextchar d' = Some p ∧ cstring p ∧ (1 <= chars p < n)%nat).

Lemma cstring_next c q : cstring (c :: q) → c ≠ 0 → cstring q ∧ ∃ x, char_at (c :: q) 1 = Val x.
Proof using.
  clear. intros H Hc. destruct (cstring_inv _ H) as (c' & q' & [= <- <-] & [[? _]|(_ & Hq & _)]); [done|].
  split; [done|]. destruct (char_at_0 q Hq) as (x & Hx). by exists x.
Qed.

Lemma short_option_spec mem pe next d :
  cstring next → (1 <= chars next)%nat → 0 <= optind d < argc →
  ∃ e, short_option argc argv optstring longopts mem pe next d = Val e ∧ code e ≠ -1 ∧ stepped (chars next) d (data e).
Proof using All.
  intros Hn Hl Hi. unfold short_option. destruct (arg_total 0) as (prog & -> & _); [lia|]. cbn [mbind outcome_bind].
  destruct (cstring_inv next Hn) as (c & q & -> & [[_ ?]|(Hc & Hq & Hlen)]); [lia|]. rewrite Hlen in *. clear Hl Hlen.
  change (char_at (c :: q) 0) with (Val c). change (drop 1 (c :: q)) with q. cbn [mbind outcome_bind].
  destruct (strchr_total optstring c optstring_string) as (temp & Et & Ht). rewrite Et. cbn [mbind outcome_bind].
  destruct (cstring_inv q Hq) as (n0 & q' & Eq & Hn0). assert (char_at q 0 = Val n0) as -> by (by rewrite Eq). cbn [mbind outcome_bind].
  destruct (char_at_0 optstring optstring_string) as (o & ->). cbn [mbind outcome_bind].
  set (d1 := set_nextchar _ (Some q)). set (missing := if o =? COLON then _ else _).
  assert (missing ≠ -1) as Hmiss by (unfold missing; by destruct (o =? COLON)).
  assert (same d d1 ∧ nextchar d1 = Some q ∧
    ((n0 = 0 ∧ chars q = 0%nat ∧ optind d1 = optind d + 1) ∨ (n0 ≠ 0 ∧ (1 <= chars q)%nat ∧ optind d1 = optind d))) as (Hs1 & Hx1 & H1).
  { unfold d1. destruct Hn0 as [[-> Hch]|(Hne & _ & Hch)].
    - rewrite Z.eqb_refl. split_and!; [done|done|by left].
    - rewrite (proj2 (Z.eqb_neq _ _) Hne). split_and!; [done|done|]. right. split_and!; [done|lia|done]. }
  clearbody d1 missing.
  assert (stepped (S (chars q)) d d1) as Hstep1.
  { destruct H1 as [(_ & Hch & Ho)|(_ & Hch & Ho)]; [left|right].
    - split_and!; [done|lia|lia|]. intros p Hp. rewrite Hx1 in Hp. by injection Hp as <-.
    - split_and!; [done|done|]. exists q. split_and!; [done|done|lia|lia]. }
  assert (∀ d2 c', c' ≠ -1 → same d d2 → optind d2 = optind d1 → nextchar d2 = Some q → ∀ m,
    ∃ e, Val (Effect c' d2 None None m) = Val e ∧ code e ≠ -1 ∧ stepped (S (chars q)) d (data e)) as Hstay.
  { intros d2 c' Hc' Hs2 Ho2 Hx2 m. eexists. split; [done|]. cbn [code data]. split; [done|].
    destruct Hstep1 as [(_ & Hb & He)|(_ & Hb & He)]; [left|right].
    - split_and!; [done|lia|lia|]. intros p Hp. apply He. by rewrite Hx1, <- Hx2.
    - split_and!; [done|lia|]. by rewrite Hx2, <- Hx1. }
  assert (∀ d2 c' m, c' ≠ -1 → same d d2 → optind d + 1 <= optind d2 <= argc →
    ∃ e, Val (Effect c' (set_nextchar d2 None) None None m) = Val e ∧ code e ≠ -1 ∧ stepped (S (chars q)) d (data e)) as Hgo.
  { intros d2 c' m Hc' Hs2 Ho2. eexists. split; [done|]. cbn [code data]. split; [done|]. left.
    split_and!; [done|cbn; lia|cbn; lia|]. done. }
  destruct temp as [temp|]; [|by apply Hstay]. destruct ((c =? COLON) || (c =? SEMICOLON)); [by apply Hstay|].
  pose proof (no_minus_one c temp Et) as Hm1.
  assert (∃ q1, temp = c :: q1 ∧ cstring (c :: q1)) as (q1 & -> & Htemp).
  { destruct (Ht temp eq_refl) as (a & Ea & H0 & Hla). destruct temp as [|c' q1]; [done|]. cbn in H0. injection H0 as ->.
    exists q1. split; [done|]. pose proof (cstring_drop optstring (length a) optstring_string Hla) as [Hd _].
    rewrite Ea, drop_app_length in Hd. done. }
  clear Ht Et. change (char_at (c :: q1) 0) with (Val c). cbn [mbind outcome_bind].
  destruct (cstring_next c q1 Htemp Hc) as (Hq1 & t1 & Et1). rewrite Et1. cbn [mbind outcome_bind].
  destruct (if (c =? W) && (t1 =? SEMICOLON) then longopts else None) as [opts|] eqn:Elong.
  - assert (opts_ok opts) as Hopts by (destruct (_ && _) in Elong; [by apply longopts_ok|done]).
    destruct (negb (n0 =? 0) || negb (optind d1 =? argc)) eqn:Earg; [|by apply Hstay].
    assert (∃ a, (if negb (n0 =? 0) then Val q else arg argv (optind d1)) = Val a ∧ cstring a ∧ 0 <= optind d1 < argc) as (a & -> & Ha & Hi1).
    { destruct H1 as [(-> & _ & Ho)|(Hne & _ & Ho)].
      - cbn in Earg. apply negb_true_iff, Z.eqb_neq in Earg. destruct (arg_total (optind d1)) as (a & E & Ha); [lia|].
        exists a. rewrite Z.eqb_refl. cbn [negb]. split_and!; [done|done|lia|lia].
      - exists q. rewrite (proj2 (Z.eqb_neq _ _) Hne). cbn [negb]. split_and!; [done|done|lia|lia]. }
    cbn [mbind outcome_bind]. set (d2 := set_optarg (set_nextchar d1 (Some a)) None).
    destruct (process_long_spec opts false mem d2 pe $"-W " a Hopts eq_refl Ha Hi1) as (r & -> & Hr); [done|]. cbn [mbind outcome_bind].
    destruct r as [e|]; [|done]. destruct Hr as (Hce & Hsame & Hb & Hend). exists e. split; [done|]. split; [done|]. left.
    change (optind d2) with (optind d1) in Hb. assert (optind d <= optind d1) by (destruct H1 as [(_ & _ & ?)|(_ & _ & ?)]; lia).
    split_and!; [|lia|lia|done]. exact (same_trans d d2 (data e) Hs1 Hsame).
  - clear Elong. destruct (Z.eqb_spec t1 COLON) as [->|_]; [|by apply Hstay].
    assert (∃ t2, char_at (c :: q1) 2 = Val t2) as (t2 & ->).
    { destruct q1 as [|x q1]; [done|]. change (char_at (c :: x :: q1) 1) with (Val x) in Et1. injection Et1 as ->.
      destruct (cstring_next COLON q1 Hq1) as (_ & t2 & Et2); [done|]. by exists t2. }
    cbn [mbind outcome_bind]. destruct (t2 =? COLON).
    + destruct H1 as [(-> & _ & Ho)|(Hne & _ & Ho)].
      * rewrite Z.eqb_refl. cbn [negb]. apply Hgo; [done|done|]. cbn [optind set_optarg set_optopt set_optind]. lia.
      * rewrite (proj2 (Z.eqb_neq _ _) Hne). cbn [negb]. apply Hgo; [done|done|]. cbn [optind set_optarg set_optopt set_optind]. lia.
    + destruct H1 as [(-> & _ & Ho)|(Hne & _ & Ho)].
      * rewrite Z.eqb_refl. cbn [negb]. destruct (Z.eqb_spec (optind d1) argc) as [Ee|Ene].
        { apply Hgo; [done|done|]. cbn [optind set_optarg set_optopt set_optind]. lia. }
        destruct (arg_total (optind d1)) as (a & -> & _); [lia|]. cbn [mbind outcome_bind]. apply Hgo; [done|done|]. cbn [optind set_optarg set_optopt set_optind]. lia.
      * rewrite (proj2 (Z.eqb_neq _ _) Hne). cbn [negb]. apply Hgo; [done|done|]. cbn [optind set_optarg set_optopt set_optind]. lia.
Qed.

(** ** An option element *)

Lemma short_element_spec mem pe d a :
  0 <= optind d < argc → arg argv (optind d) = Val a → cstring a → (2 <= chars a)%nat →
  ∃ e, short_element argc argv optstring longopts mem pe d = Val e ∧ code e ≠ -1 ∧ stepped (chars a) d (data e).
Proof using All.
  intros Hi Ea Ha Hl. unfold short_element. rewrite Ea. cbn [mbind outcome_bind].
  destruct (cstring_drop a 1 Ha ltac:(lia)) as [Hd Hdl].
  destruct (short_option_spec mem pe (drop 1 a) (set_nextchar d (Some (drop 1 a))) Hd ltac:(lia) Hi) as (e & -> & Hc & Hs).
  exists e. split; [done|]. split; [done|]. destruct Hs as [Hs|(Hs & Ho & p & Hp & Hcp & Hlp)]; [by left|].
  right. split_and!; [done|done|]. exists p. split_and!; [done|done|lia|lia].
Qed.

Lemma option_element_spec lo mem pe d a :
  0 <= optind d < argc → arg argv (optind d) = Val a → cstring a → (2 <= chars a)%nat →
  ∃ e, option_element argc argv optstring longopts lo mem pe d = Val e ∧ code e ≠ -1 ∧ stepped (chars a) d (data e).
Proof using All.
  intros Hi Ea Ha Hl. unfold option_element. rewrite Ea. cbn [mbind outcome_bind].
  assert (∀ d', optind d' = optind d → ∃ e, short_element argc argv optstring longopts mem pe d' = Val e ∧ code e ≠ -1 ∧
    stepped (chars a) d' (data e)) as Hshort by (intros d' Ed'; apply short_element_spec; by rewrite ?Ed').
  destruct longopts as [opts|] eqn:Elo; [|by apply Hshort]. pose proof (longopts_ok opts eq_refl) as Hopts.
  destruct (cstring_drop a 1 Ha ltac:(lia)) as [Ha1 Hl1]. destruct (cstring_drop a 2 Ha ltac:(lia)) as [Ha2 Hl2].
  destruct (char_at_0 _ Ha1) as (c1 & Ec1). assert (char_at a 1 = Val c1) as -> by (unfold char_at in *; by rewrite lookup_drop in Ec1).
  cbn [mbind outcome_bind].
  assert (∀ k pre, cstring (drop k a) → ∃ r,
    process_long_option argc argv optstring opts lo mem (set_nextchar d (Some (drop k a))) pe pre = Val r ∧
    match r with None => lo = true | Some e => code e ≠ -1 ∧ stepped (chars a) d (data e) end) as Hlong.
  { intros k pre Hk.
    destruct (process_long_spec opts lo mem (set_nextchar d (Some (drop k a))) pe pre (drop k a) Hopts eq_refl Hk Hi) as (r & E & Hr).
    - intros _. exists a. split_and!; [done|done|lia].
    - exists r. split; [done|]. destruct r as [e|]; [|done]. destruct Hr as [Hce Hco]. split; [done|]. by left. }
  destruct (Z.eqb_spec c1 DASH) as [->|Hne].
  - destruct (process_long_spec opts lo mem (set_nextchar d (Some (drop 2 a))) pe $"--" (drop 2 a) Hopts eq_refl Ha2 Hi) as (r & E & Hr).
    { intros _. exists a. split_and!; [done|done|lia]. }
    rewrite E. cbn [mbind outcome_bind]. destruct r as [e|].
    + exists e. split; [done|]. destruct Hr as [Hce Hco]. split; [done|]. by left.
    + exfalso. subst lo. clear -E Ea Ec1 Ha2. revert E. unfold process_long_option. cbn [nextchar set_nextchar deref].
      destruct (arg argv 0) as [prog| |]; try done. cbn [mbind outcome_bind].
      destruct (name_length _) as [k| |]; try done. cbn [mbind outcome_bind].
      destruct (find_exact _ _ _ _) as [[[p j]|]| |]; try done; cbn [mbind outcome_bind]; [by destruct (take_long _ _ _ _ _ _ _ _ _)|].
      destruct (find_abbrev _ _ _ _ _ _ _ _ _) as [s| |]; try done. cbn [mbind outcome_bind].
      destruct (bool_decide _ || _); [by destruct (strlen _)|]. destruct (pfound s) as [[p j]|]; [by destruct (take_long _ _ _ _ _ _ _ _ _)|].
      change (optind (set_nextchar d (Some (drop 2 a)))) with (optind d). rewrite Ea. cbn [mbind outcome_bind].
      assert (char_at a 1 = Val DASH) as -> by (unfold char_at in *; by rewrite lookup_drop in Ec1). cbn [mbind outcome_bind].
      destruct (char_at (drop 2 a) 0); try done.
  - destruct lo; [|by apply Hshort]. destruct (char_at_0 _ Ha2) as (c2 & Ec2).
    assert (char_at a 2 = Val c2) as -> by (unfold char_at in *; by rewrite lookup_drop in Ec2). cbn [mbind outcome_bind].
    destruct (strchr_total optstring c1 optstring_string) as (sc & Esc & _). rewrite Esc.
    assert (∃ s', (if negb (c2 =? 0) then Val None else Val sc) = Val s') as (s' & ->) by (destruct (negb (c2 =? 0)); by eexists).
    cbn [mbind outcome_bind]. destruct (_ || _); [|by apply Hshort].
    destruct (Hlong 1%nat $"-" Ha1) as (r & -> & Hr). cbn [mbind outcome_bind]. destruct r as [e|]; cbn [return_long default from_option id].
    + destruct Hr as [Hce Hco]. rewrite (proj2 (Z.eqb_neq _ _) Hce). by exists e.
    + cbn [code]. cbn [Z.eqb Pos.eqb]. cbn [data].
      destruct (Hshort (set_nextchar d (Some (drop 1 a))) eq_refl) as (e' & E' & Hc' & Hs').
      rewrite E'. cbn [mbind outcome_bind]. eexists. split; [done|]. cbn [after code data]. split; [done|exact Hs'].
Qed.
End long.

(** ** The order of the elements *)

(** [l] is made of the elements of [o] and of [n], each in order. *)
Inductive interleave {A} : list A → list A → list A → Prop :=
  | il_nil : interleave [] [] []
  | il_left x o n l : interleave o n l → interleave (x :: o) n (x :: l)
  | il_right x o n l : interleave o n l → interleave o (x :: n) (x :: l).

Lemma interleave_app {A} (o n l o' n' l' : list A) :
  interleave o n l → interleave o' n' l' → interleave (o ++ o') (n ++ n') (l ++ l').
Proof. intros H H'. induction H; cbn; [done|by constructor|by constructor]. Qed.

Lemma interleave_l {A} (l : list A) : interleave l [] l.
Proof. induction l; by constructor. Qed.
Lemma interleave_r {A} (l : list A) : interleave [] l l.
Proof. induction l; by constructor. Qed.

Lemma interleave_only {A} (o l : list A) : interleave o [] l → l = o.
Proof. intros H. remember [] as n eqn:En. induction H; [done|by rewrite IHinterleave|done]. Qed.

Lemma interleave_perm {A} (o n l : list A) : interleave o n l → l ≡ₚ o ++ n.
Proof.
  induction 1 as [|x o n l _ IH|x o n l _ IH]; [done|by rewrite IH|]. rewrite IH. by rewrite Permutation_middle.
Qed.

(** ** The invariant between calls *)

Definition operand (a : list Z) : Prop := nonoption a = Val true.
Definition is_dashes (a : list Z) : Prop := strcmp a [DASH; DASH; 0] = Val 0.

(** [od] and [op] are the option elements before and after the operands [n]
    that were skipped, [r] is the rest. *)
Record layout (orig argv : list (list Z)) (d : getopt_data) (prog : list Z) (od n op r pre : list (list Z)) : Prop := {
  lay_argv : argv = prog :: od ++ n ++ op ++ r;
  lay_orig : orig = prog :: pre ++ r;
  lay_order : interleave (od ++ op) n pre;
  lay_first : first_nonopt d = 1 + Z.of_nat (length od);
  lay_last : last_nonopt d = first_nonopt d + Z.of_nat (length n);
  lay_optind : optind d = last_nonopt d + Z.of_nat (length op);
  lay_operands : Forall operand n;
  lay_mode : ordering d ≠ PERMUTE → od = [] ∧ n = []
}.

(** The state between two calls. *)
Definition scanning (orig argv : list (list Z)) (d : getopt_data) : Prop :=
  initialized d = true ∧
  ∃ prog od n op r pre, layout orig argv d prog od n op r pre ∧
    ∀ p, nextchar d = Some p → cstring p ∧ ((1 <= chars p)%nat → r ≠ []).

(** The state at the end: the options come first, then the operands, both in
    the order they were given. *)
Definition finished (orig argv : list (list Z)) (d : getopt_data) : Prop :=
  ∃ prog pre o n n', orig = prog :: pre ∧ argv = prog :: o ++ n ++ n' ∧ interleave o (n ++ n') pre ∧
    optind d = 1 + Z.of_nat (length o) ∧ Forall operand n ∧
    (n' = [] ∨ (ordering d = REQUIRE_ORDER ∧ ∃ a r, n' = a :: r ∧ operand a) ∨ ∃ a, last o = Some a ∧ is_dashes a) ∧
    (ordering d ≠ PERMUTE → argv = orig).

(** How many characters and elements are left. *)
Definition weight (l : list (list Z)) : nat := list_sum ((λ a, S (chars a)) <$> l).
Definition todo (argv : list (list Z)) (d : getopt_data) : nat :=
  let r := drop (Z.to_nat (optind d)) argv in
  match nextchar d with
  | Some p => if (0 <? chars p)%nat then (chars p + weight (drop 1 r))%nat else weight r
  | None => weight r
  end.

Lemma weight_app l l' : weight (l ++ l') = (weight l + weight l')%nat.
Proof. unfold weight. by rewrite fmap_app, list_sum_app. Qed.

Lemma layout_rest orig argv d prog od n op r pre :
  layout orig argv d prog od n op r pre →
  drop (Z.to_nat (optind d)) argv = r ∧ optind d = 1 + Z.of_nat (length od + length n + length op) ∧
  Z.of_nat (length argv) = optind d + Z.of_nat (length r).
Proof.
  intros [Ha _ _ Hf Hl Ho _ _]. assert (optind d = 1 + Z.of_nat (length od + length n + length op)) as E by lia. split_and!; [|done|].
  - rewrite Ha, E. replace (Z.to_nat (1 + Z.of_nat (length od + length n + length op))) with (length (prog :: od ++ n ++ op))
      by (cbn [length]; rewrite !length_app; lia).
    replace (prog :: od ++ n ++ op ++ r) with ((prog :: od ++ n ++ op) ++ r) by (cbn; by rewrite <- !(assoc (++))).
    apply drop_app_length.
  - rewrite Ha. cbn [length]. rewrite !length_app. lia.
Qed.

Lemma layout_at orig argv d prog od n op a r pre :
  layout orig argv d prog od n op (a :: r) pre → arg argv (optind d) = Val a.
Proof.
  intros H. destruct (layout_rest _ _ _ _ _ _ _ _ _ H) as (_ & E & _). destruct H as [Ha _ _ _ _ _ _ _]. rewrite Ha.
  replace (prog :: od ++ n ++ op ++ a :: r) with ((prog :: od ++ n ++ op) ++ a :: r) by (cbn; by rewrite <- !(assoc (++))).
  apply arg_mid. cbn [length]. rewrite !length_app. lia.
Qed.

(** Elements that are used up move from the rest to the options. *)
Lemma layout_consume orig argv d d' prog od n op r pre :
  layout orig argv d prog od n op r pre → same d d' → optind d <= optind d' <= Z.of_nat (length argv) →
  ∃ r1 r2, r = r1 ++ r2 ∧ Z.of_nat (length r1) = optind d' - optind d ∧ layout orig argv d' prog od n (op ++ r1) r2 (pre ++ r1).
Proof.
  intros H (_ & _ & So & Sf & Sl) Hb. destruct (layout_rest _ _ _ _ _ _ _ _ _ H) as (_ & E & Hlen).
  set (k := Z.to_nat (optind d' - optind d)). assert (k <= length r)%nat as Hk by (unfold k; lia).
  assert (∃ r1 r2, r = r1 ++ r2 ∧ length r1 = k) as (r1 & r2 & -> & Hr1)
    by (exists (take k r), (drop k r); rewrite take_drop, length_take; split; [done|lia]).
  exists r1, r2. split; [done|]. split; [unfold k in Hr1; lia|].
  destruct H as [Ha Hor Hi Hf Hl Ho Hop Hm]. split.
  - rewrite Ha. by rewrite <- !(assoc (++)).
  - rewrite Hor. by rewrite <- !(assoc (++)).
  - rewrite (assoc (++)), <- (app_nil_r n). apply interleave_app; [done|apply interleave_l].
  - lia.
  - lia.
  - rewrite length_app. unfold k in Hr1. lia.
  - done.
  - by rewrite So.
Qed.

(** ** One call *)

Lemma nonoption_total a : cstring a → ∃ b, nonoption a = Val b ∧ (b = false → (2 <= chars a)%nat).
Proof.
  intros Ha. unfold nonoption. destruct (cstring_inv a Ha) as (c & q & -> & Hc). change (char_at (c :: q) 0) with (Val c). cbn [mbind outcome_bind].
  destruct (Z.eqb_spec c DASH) as [->|]; cbn [negb]; [|by eexists]. destruct Hc as [[? _]|(_ & Hq & Hl)]; [done|].
  destruct (cstring_inv q Hq) as (c1 & q1 & -> & Hc1). change (char_at (DASH :: c1 :: q1) 1) with (Val c1). cbn [mbind outcome_bind].
  eexists. split; [done|]. intros Hz%Z.eqb_neq. destruct Hc1 as [[? _]|(_ & _ & Hl1)]; [done|lia].
Qed.

Lemma skip_spec fuel r argv i P :
  argv = P ++ r → i = Z.of_nat (length P) → Forall cstring r → (length r < fuel)%nat →
  ∃ r1 r2, r = r1 ++ r2 ∧ Forall operand r1 ∧ (∀ a r3, r2 = a :: r3 → nonoption a = Val false) ∧
    skip_nonoptions fuel (Z.of_nat (length argv)) argv i = Val (i + Z.of_nat (length r1)).
Proof.
  revert r i P. induction fuel as [|fuel IH]; intros r i P Ha Hi Hr Hf; [lia|]. cbn [skip_nonoptions].
  destruct r as [|a r].
  - exists [], []. rewrite (proj2 (Z.ltb_ge _ _)) by (rewrite Ha, length_app; cbn; lia). split_and!; [done|done|done|].
    f_equal. cbn. lia.
  - apply Forall_cons in Hr as [Hca Hr]. rewrite (proj2 (Z.ltb_lt _ _)) by (rewrite Ha, length_app; cbn; lia).
    assert (arg argv i = Val a) as -> by (rewrite Ha; by apply arg_mid). cbn [mbind outcome_bind]. destruct (nonoption_total a Hca) as (b & Eb & _). rewrite Eb.
    cbn [mbind outcome_bind]. destruct b.
    + destruct (IH r (i + 1) (P ++ [a])) as (r1 & r2 & -> & H1 & H2 & E).
      { rewrite Ha. by rewrite <- (assoc (++)). } { rewrite length_app. cbn. lia. } { done. } { cbn in Hf. lia. }
      exists (a :: r1), r2. split_and!; [done|by constructor|done|]. rewrite E. f_equal. cbn [length]. lia.
    + exists [], (a :: r). split_and!; [done|done| |f_equal; cbn; lia]. intros a' r3 [= <- <-]. done.
Qed.

Section call.
Variables (orig : list (list Z)) (optstring : list Z) (longopts : option (list option_)) (lo mem : bool).
Hypothesis orig_strings : Forall cstring orig.
Hypothesis optstring_string : cstring optstring.
Hypothesis no_minus_one : ∀ c q, strchr optstring c = Val (Some q) → schar c ≠ -1.
Hypothesis longopts_ok : ∀ opts, longopts = Some opts → opts_ok opts.
Local Abbreviation argc := (Z.of_nat (length orig)).

Lemma layout_strings argv d prog od n op r pre :
  layout orig argv d prog od n op r pre → Forall cstring argv ∧ Forall cstring r ∧ length argv = length orig ∧ (1 <= length argv)%nat.
Proof using orig_strings.
  intros [Ha Hor Hi _ _ _ _ _]. pose proof (interleave_perm _ _ _ Hi) as Hp.
  assert (argv ≡ₚ orig) as Hperm.
  { rewrite Ha, Hor, Hp. constructor. rewrite <- !(assoc (++)). f_equiv. rewrite !(assoc (++)). f_equiv. apply Permutation_app_comm. }
  split_and!.
  - by rewrite Hperm.
  - rewrite Hor in orig_strings. apply Forall_cons in orig_strings as [_ [_ H]%Forall_app]. done.
  - by rewrite Hperm.
  - rewrite Ha. cbn. lia.
Qed.

(** First the skipped operands are moved behind the options, and more of
    them are skipped. *)
Lemma permute_skips argv d prog od n op r pre :
  layout orig argv d prog od n op r pre → ordering d = PERMUTE →
  ∃ argv' d' n' r' pre', permute argc argv d = Val (argv', d') ∧ layout orig argv' d' prog (od ++ op) n' [] r' pre' ∧
    ordering d' = PERMUTE ∧ initialized d' = initialized d ∧ nextchar d' = nextchar d ∧
    (∀ a r3, r' = a :: r3 → nonoption a = Val false) ∧ (weight r' <= weight r)%nat ∧
    ∃ r1, n' = n ++ r1 ∧ r = r1 ++ r' ∧ Forall operand r1.
Proof using orig_strings.
  intros H Hp. destruct (layout_strings _ _ _ _ _ _ _ _ H) as (_ & Hr & Hlen & _).
  destruct (layout_rest _ _ _ _ _ _ _ _ _ H) as (_ & Ho & _). pose proof H as [Ha Hor Hi Hf Hl Hoi Hop _].
  unfold permute.
  assert (∃ d1, (if negb (first_nonopt d =? last_nonopt d) && negb (last_nonopt d =? optind d) then exchange argv d
      else if negb (last_nonopt d =? optind d) then Val (argv, set_nonopts d (optind d) (last_nonopt d))
      else Val (argv, d)) = Val (prog :: (od ++ op) ++ n ++ r, d1) ∧ first_nonopt d1 = 1 + Z.of_nat (length (od ++ op)) ∧
      optind d1 = optind d ∧ ordering d1 = ordering d ∧ initialized d1 = initialized d ∧ nextchar d1 = nextchar d) as (d1 & -> & F1 & O1 & M1 & I1 & X1).
  { destruct (decide (n = [])) as [->|Hn].
    - cbn [length] in Hl. rewrite (proj2 (Z.eqb_eq _ _)) by lia. cbn [negb andb app] in *.
      assert (argv = prog :: (od ++ op) ++ r) as -> by (rewrite Ha; by rewrite <- (assoc (++))). rewrite length_app.
      destruct (Z.eqb_spec (last_nonopt d) (optind d)) as [El|El]; cbn [negb]; eexists; (split; [done|]); cbn [first_nonopt set_nonopts];
        split_and!; try done; lia.
    - assert (0 < length n)%nat by (destruct n; [done|cbn; lia]). rewrite (proj2 (Z.eqb_neq (first_nonopt d) _)) by lia. cbn [negb andb].
      destruct (decide (op = [])) as [->|Hop0].
      + cbn [length] in Hoi. rewrite (proj2 (Z.eqb_eq _ _)) by lia. cbn [negb]. exists d. rewrite app_nil_r. split_and!; try done.
        rewrite Ha. cbn [app]. done.
      + assert (0 < length op)%nat by (destruct op; [done|cbn; lia]). rewrite (proj2 (Z.eqb_neq _ _)) by lia. cbn [negb].
        rewrite Ha. change (prog :: od ++ n ++ op ++ r) with ((prog :: od) ++ n ++ op ++ r).
        rewrite exchange_spec by (cbn [length]; lia). eexists. split; [cbn [app]; by rewrite <- (assoc (++))|].
        cbn [first_nonopt set_nonopts length]. rewrite length_app. split_and!; try done. lia. }
  cbn [mbind outcome_bind fst snd].
  assert (Hlen' : length (prog :: (od ++ op) ++ n ++ r) = length orig) by (rewrite <- Hlen, Ha; cbn [length]; rewrite !length_app; lia).
  rewrite <- Hlen'.
  destruct (skip_spec (S (length (prog :: (od ++ op) ++ n ++ r))) r (prog :: (od ++ op) ++ n ++ r) (optind d1) (prog :: (od ++ op) ++ n))
    as (r1 & r2 & -> & H1 & H2 & E).
  { cbn [app]. by rewrite <- !(assoc (++)). } { cbn [length]. rewrite !length_app. lia. } { done. } { cbn [length]. rewrite !length_app. lia. }
  pose proof F1 as F1'. rewrite length_app in F1'. rewrite E. cbn [mbind outcome_bind]. eexists _, _, (n ++ r1), r2, (pre ++ r1). split; [done|]. split_and!; try done.
  - split; cbn [first_nonopt last_nonopt optind ordering set_nonopts set_optind].
    + cbn [app]. by rewrite <- !(assoc (++)).
    + rewrite Hor. by rewrite <- (assoc (++)).
    + rewrite app_nil_r. rewrite <- (app_nil_r (od ++ op)). apply interleave_app; [done|apply interleave_r].
    + done.
    + rewrite length_app. lia.
    + cbn [length]. lia.
    + by apply Forall_app.
    + intros Hne. by rewrite M1 in Hne.
  - cbn. by rewrite M1.
  - rewrite weight_app. lia.
  - by exists r1.
Qed.

(** The element [--] ends the options. *)
Lemma dashes_finish argv d prog od n op a r pre :
  layout orig argv d prog od n op (a :: r) pre → (ordering d = PERMUTE → op = []) → is_dashes a →
  ∃ d', let d'' := if negb (first_nonopt d' =? last_nonopt d') then set_optind d' (first_nonopt d') else d' in
    let argv' := prog :: (od ++ op ++ [a]) ++ n ++ r in
    double_dash argc argv d = Val (argv', d') ∧ optind d' = argc ∧ finished orig argv' d'' ∧
    optind d'' = 1 + Z.of_nat (length (od ++ op ++ [a])).
Proof using orig_strings.
  intros H Hop Hd. destruct (layout_strings _ _ _ _ _ _ _ _ H) as (_ & _ & Hlen & _).
  destruct (layout_rest _ _ _ _ _ _ _ _ _ H) as (_ & Ho & Hl). rewrite Hlen in Hl. cbn [length] in Hl. unfold double_dash.
  rewrite (proj2 (Z.eqb_neq _ _)) by lia. cbn [negb]. rewrite (layout_at _ _ _ _ _ _ _ _ _ _ H). cbn [mbind outcome_bind].
  rewrite Hd. cbn [mbind outcome_bind]. cbn [Z.eqb].
  pose proof H as [Ha Hor Hi Hf Hla Hoi Hops Hm].
  set (d1 := set_optind d (optind d + 1)).
  assert (∃ d2, (if negb (first_nonopt d1 =? last_nonopt d1) && negb (last_nonopt d1 =? optind d1) then exchange argv d1
      else if first_nonopt d1 =? last_nonopt d1 then Val (argv, set_nonopts d1 (optind d1) (last_nonopt d1))
      else Val (argv, d1)) = Val (prog :: (od ++ op ++ [a]) ++ n ++ r, d2) ∧ first_nonopt d2 = 1 + Z.of_nat (length (od ++ op ++ [a])) ∧
      ordering d2 = ordering d) as (d2 & -> & F2 & M2).
  { change (first_nonopt d1) with (first_nonopt d). change (last_nonopt d1) with (last_nonopt d). change (optind d1) with (optind d + 1).
    destruct (decide (n = [])) as [->|Hn].
    - cbn [length] in Hla. rewrite (proj2 (Z.eqb_eq _ _)) by lia. cbn [negb andb]. eexists. split.
      + do 2 f_equal. rewrite Ha. cbn [app]. by rewrite <- !(assoc (++)).
      + cbn [first_nonopt set_nonopts ordering]. rewrite !length_app. cbn [length]. split; [lia|done].
    - assert (0 < length n)%nat by (destruct n; [done|cbn; lia]). rewrite (proj2 (Z.eqb_neq (first_nonopt d) _)) by lia. cbn [negb andb].
      rewrite (proj2 (Z.eqb_neq _ _)) by lia. cbn [negb].
      destruct (decide (ordering d = PERMUTE)) as [Hp|Hp]; [|destruct (Hm Hp) as [_ ->]; done]. rewrite (Hop Hp) in *. cbn [length app] in *.
      rewrite Ha. change (prog :: od ++ n ++ a :: r) with ((prog :: od) ++ n ++ [a] ++ r).
      rewrite exchange_spec by (cbn [length first_nonopt last_nonopt optind set_optind d1]; unfold d1; cbn [first_nonopt last_nonopt optind set_optind length]; lia).
      eexists. split; [cbn [app]; by rewrite <- !(assoc (++))|]. cbn [first_nonopt set_nonopts ordering length]. rewrite length_app. cbn [length].
      split; [lia|done]. }
  cbn [mbind outcome_bind fst snd]. eexists. cbv zeta. split; [done|]. split; [done|].
  cbn [first_nonopt last_nonopt set_nonopts set_optind].
  set (d3 := set_optind (set_nonopts d2 (first_nonopt d2) argc) argc).
  assert (optind (if negb (first_nonopt d2 =? argc) then set_optind d3 (first_nonopt d2) else d3) = first_nonopt d2) as E3.
  { destruct (Z.eqb_spec (first_nonopt d2) argc); cbn [negb]; [by unfold d3; cbn|done]. }
  assert (ordering (if negb (first_nonopt d2 =? argc) then set_optind d3 (first_nonopt d2) else d3) = ordering d) as E4.
  { rewrite <- M2. by destruct (negb _). }
  rewrite E3. split; [|done]. exists prog, (pre ++ a :: r), (od ++ op ++ [a]), n, r. rewrite E3, E4. split_and!.
  - done.
  - done.
  - assert (interleave ((od ++ op) ++ [a]) (n ++ []) (pre ++ [a])) as H1 by (apply interleave_app; [done|apply interleave_l]).
    pose proof (interleave_app _ _ _ _ _ _ H1 (interleave_r r)) as H2. rewrite !app_nil_r, <- !(assoc (++)) in H2. exact H2.
  - done.
  - done.
  - right. right. exists a. split; [|done]. rewrite (assoc (++)). by rewrite last_snoc.
  - intros Hne. destruct (Hm Hne) as [-> ->]. cbn [app] in *. rewrite Hor. apply interleave_only in Hi as ->. by rewrite <- (assoc (++)).
Qed.

Lemma strcmp_total a : cstring a → ∃ c, strcmp a [DASH; DASH; 0] = Val c.
Proof using.
  intros (s & t & -> & Hs). change [DASH; DASH; 0] with ([DASH; DASH] ++ 0 :: []). rewrite strcmp_lexcmp; [by eexists|done|].
  repeat constructor; done.
Qed.

(** An element is used up, or partly: the next call goes on from there. *)
Lemma stepped_scanning argv d d' prog od n op a r pre k :
  layout orig argv d prog od n op (a :: r) pre → initialized d = true → stepped argc k d d' →
  scanning orig argv d' ∧ (k <= chars a → todo argv d' < weight (a :: r))%nat ∧ (∀ p, nextchar d = Some p → k = chars p → (1 <= k)%nat → todo argv d' < todo argv d)%nat.
Proof using orig_strings.
  intros H Hin Hs. destruct (layout_strings _ _ _ _ _ _ _ _ H) as (_ & _ & Hlen & _). rewrite <- Hlen in Hs.
  assert (weight (a :: r) = S (chars a + weight r)) as Hw by done.
  destruct (layout_rest _ _ _ _ _ _ _ _ _ H) as (Hd & _ & Hbound).
  destruct Hs as [(Hsame & Hb & Hend)|(Hsame & Ho & p & Hp & Hcp & Hl)].
  - destruct (layout_consume _ _ _ _ _ _ _ _ _ _ H Hsame ltac:(lia)) as (r1 & r2 & Er & Hl1 & H').
    destruct (layout_rest _ _ _ _ _ _ _ _ _ H') as (Hd' & _ & _).
    assert (todo argv d' = weight r2) as Et.
    { unfold todo. rewrite Hd'. destruct (nextchar d') as [p|] eqn:En; [|done]. destruct (Hend p En) as [_ ->]. done. }
    destruct r1 as [|a' r1]; [cbn in Hl1; lia|]. injection Er as <- Er.
    assert (weight r2 <= weight r)%nat as Hle by (rewrite Er, weight_app; lia).
    split_and!.
    + split; [by destruct Hsame as (_ & -> & _)|]. exists prog, od, n, (op ++ a :: r1), r2, (pre ++ a :: r1). split; [done|].
      intros p Hp. destruct (Hend p Hp) as [? Hz]. split; [done|]. rewrite Hz. lia.
    + lia.
    + intros p Hp -> Hk. unfold todo at 2. rewrite Hp, Hd, (proj2 (Nat.ltb_lt _ _)) by lia.
      change (drop 1 (a :: r)) with r. lia.
  - destruct (layout_consume _ _ _ _ _ _ _ _ _ _ H Hsame ltac:(lia)) as (r1 & r2 & Er & Hl1 & H').
    destruct (layout_rest _ _ _ _ _ _ _ _ _ H') as (Hd' & _ & _).
    destruct r1 as [|a' r1]; [|cbn in Hl1; lia]. cbn [app] in Er. subst r2.
    assert (todo argv d' = chars p + weight r)%nat as Et.
    { unfold todo. rewrite Hd', Hp, (proj2 (Nat.ltb_lt _ _)) by lia. done. }
    split_and!.
    + split; [by destruct Hsame as (_ & -> & _)|]. eexists prog, od, n, _, (a :: r), _. split; [exact H'|].
      intros p' Hp'. rewrite Hp in Hp'. injection Hp' as <-. done.
    + lia.
    + intros p' Hp' -> Hk. unfold todo at 2. rewrite Hp', Hd, (proj2 (Nat.ltb_lt _ _)) by lia.
      change (drop 1 (a :: r)) with r. lia.
Qed.

(** The outcome of a call. *)
Definition call_ok (before : nat) (r : list (list Z) * effect) : Prop :=
  if code r.2 =? -1 then finished orig r.1 (data r.2)
  else scanning orig r.1 (data r.2) ∧ (todo r.1 (data r.2) < before)%nat.

Lemma next_element_spec pe argv d prog od n op r pre :
  layout orig argv d prog od n op r pre → initialized d = true → at_end d →
  ∃ res, next_element argc argv optstring longopts lo mem pe d = Val res ∧ call_ok (weight r) res.
Proof using All.
  intros H0 Hin0 Hend0. pose proof H0 as [_ _ _ Hf0 Hl0 Ho0 _ _]. unfold next_element.
  rewrite (proj2 (Z.ltb_ge (optind d) (last_nonopt d))), (proj2 (Z.ltb_ge (optind d) (first_nonopt d))) by lia.
  assert (set_nonopts d (first_nonopt d) (last_nonopt d) = d) as -> by (by destruct d). clear Hf0 Hl0 Ho0.
  assert (∃ argv1 d1 od1 n1 op1 r1 pre1, (if bool_decide (ordering d = PERMUTE) then permute argc argv d else Val (argv, d)) = Val (argv1, d1) ∧
    layout orig argv1 d1 prog od1 n1 op1 r1 pre1 ∧ initialized d1 = true ∧ at_end d1 ∧ (weight r1 <= weight r)%nat ∧
    (ordering d1 = PERMUTE → op1 = [] ∧ ∀ a r3, r1 = a :: r3 → nonoption a = Val false)) as (argv1 & d1 & od1 & n1 & op1 & r1 & pre1 & -> & H & Hin & Hend & Hw & Hperm).
  { destruct (decide (ordering d = PERMUTE)) as [Hp|Hp].
    - rewrite bool_decide_eq_true_2 by done. destruct (permute_skips _ _ _ _ _ _ _ _ H0 Hp) as (argv' & d' & n' & r' & pre' & -> & H' & Hp' & Hi' & Hx' & Hnon & Hw & _).
      eexists _, _, _, _, _, _, _. split; [done|]. split; [exact H'|]. split_and!; [by rewrite Hi'|by unfold at_end; rewrite Hx'|done|]. intros _. by split.
    - rewrite bool_decide_eq_false_2 by done. eexists _, _, _, _, _, _, _. split; [done|]. split; [exact H0|]. split_and!; done. }
  clear H0 Hin0 Hend0. cbn [mbind outcome_bind fst snd]. unfold dispatch_element.
  destruct (layout_strings _ _ _ _ _ _ _ _ H) as (Hcs & Hcr & Hlen & Hne). destruct (layout_rest _ _ _ _ _ _ _ _ _ H) as (_ & Ho & Hl).
  rewrite Hlen in Hl. pose proof H as [Ha Hor Hi Hf Hla Hoi Hops Hm].
  destruct r1 as [|a r1].
  - (* nothing is left *)
    cbn [length] in Hl. unfold double_dash. rewrite (proj2 (Z.eqb_eq _ _)) by lia. cbn [negb mbind outcome_bind fst snd].
    rewrite (proj2 (Z.eqb_eq _ _)) by lia. eexists. split; [done|]. unfold call_ok. cbn [code data fst snd Z.eqb Pos.eqb].
    set (d2 := if negb _ then _ else _).
    assert (optind d2 = 1 + Z.of_nat (length (od1 ++ op1)) ∧ ordering d2 = ordering d1) as [E1 E2].
    { unfold d2. rewrite length_app. destruct (Z.eqb_spec (first_nonopt d1) (last_nonopt d1)) as [El|El]; cbn [negb optind ordering set_optind].
      - split; [lia|done].
      - destruct (decide (ordering d1 = PERMUTE)) as [Hp|Hp]; [destruct (Hperm Hp) as [-> _]; cbn; split; [lia|done]|].
        destruct (Hm Hp) as [-> ->]. cbn in *. lia. }
    rewrite app_nil_r in Ha, Hor. exists prog, pre1, (od1 ++ op1), n1, []. rewrite !app_nil_r, E1, E2. split_and!; try done.
    + rewrite Ha. destruct (decide (ordering d1 = PERMUTE)) as [Hp|Hp].
      * destruct (Hperm Hp) as [-> _]. by rewrite !app_nil_r.
      * destruct (Hm Hp) as [-> ->]. cbn. by rewrite app_nil_r.
    + by left.
    + intros Hp. destruct (Hm Hp) as [-> ->]. cbn [app] in *. apply interleave_only in Hi as ->. congruence.
  - apply Forall_cons in Hcr as [Hca Hcr]. destruct (strcmp_total a Hca) as (c & Ec).
    destruct (decide (c = 0)) as [->|Hc].
    + (* "--" *)
      destruct (dashes_finish _ _ _ _ _ _ _ _ _ H) as (d2 & -> & Ho2 & Hfin & _); [by intros Hp; apply Hperm|exact Ec|].
      cbn [mbind outcome_bind fst snd]. rewrite (proj2 (Z.eqb_eq _ _)) by done. eexists. split; [done|].
      unfold call_ok. cbn [code data fst snd Z.eqb Pos.eqb]. exact Hfin.
    + assert (double_dash argc argv1 d1 = Val (argv1, d1)) as ->.
      { unfold double_dash. rewrite (proj2 (Z.eqb_neq _ _)) by (cbn [length] in Hl; lia). cbn [negb].
        rewrite (layout_at _ _ _ _ _ _ _ _ _ _ H). cbn [mbind outcome_bind]. rewrite Ec. cbn [mbind outcome_bind].
        by rewrite (proj2 (Z.eqb_neq _ _) Hc). }
      cbn [mbind outcome_bind fst snd]. rewrite (proj2 (Z.eqb_neq _ _)) by (cbn [length] in Hl; lia).
      pose proof (layout_at _ _ _ _ _ _ _ _ _ _ H) as Ea. rewrite Ea. cbn [mbind outcome_bind].
      destruct (nonoption_total a Hca) as (b & Eb & Hb2). rewrite Eb. cbn [mbind outcome_bind]. destruct b.
      * destruct (decide (ordering d1 = PERMUTE)) as [Hp|Hp].
        { destruct (Hperm Hp) as [_ Hnon]. rewrite (Hnon a r1 eq_refl) in Eb. done. }
        destruct (Hm Hp) as [-> ->]. apply interleave_only in Hi as ->. cbn [app] in *.
        destruct (decide (ordering d1 = REQUIRE_ORDER)) as [Hr|Hr].
        -- rewrite bool_decide_eq_true_2 by done. eexists. split; [done|]. unfold call_ok. cbn [code data fst snd Z.eqb Pos.eqb].
           exists prog, (op1 ++ a :: r1), op1, [], (a :: r1). split_and!; try done.
           ++ rewrite <- (app_nil_r op1) at 1. apply interleave_app; [apply interleave_l|apply interleave_r].
           ++ right. left. split; [done|]. by exists a, r1.
           ++ intros _. congruence.
        -- rewrite bool_decide_eq_false_2 by done. eexists. split; [done|]. unfold call_ok. cbn [code data fst snd Z.eqb Pos.eqb].
           destruct (layout_consume orig argv1 d1 (set_optind (set_optarg d1 (Some a)) (optind d1 + 1)) _ _ _ _ _ _ H) as (q1 & q2 & Eq & Hq1 & H').
           { done. } { cbn [optind set_optind]. rewrite Hlen. cbn [length] in Hl. lia. }
           cbn [optind set_optind] in Hq1. destruct q1 as [|x [|]]; cbn [length] in Hq1; try lia. injection Eq as <- ->.
           destruct (layout_rest _ _ _ _ _ _ _ _ _ H') as (Hd' & _ & _).
           assert (todo argv1 (set_optind (set_optarg d1 (Some a)) (optind d1 + 1)) = weight q2) as ->.
           { unfold todo. rewrite Hd'. cbn [nextchar set_optind set_optarg]. destruct (nextchar d1) as [p|] eqn:En; [|done].
             destruct (Hend p En) as [_ ->]. done. }
           change (weight (a :: q2)) with (S (chars a + weight q2)) in Hw. split; [|lia].
           split; [done|]. eexists prog, _, _, _, q2, _. split; [exact H'|]. intros p Hp'. destruct (Hend p Hp') as [? Hz]. split; [done|lia].
      * destruct (option_element_spec argc argv1 optstring) with (longopts := longopts) (lo := lo) (mem := mem) (pe := pe) (d := d1) (a := a)
          as (e & -> & Hce & Hs); try done.
        { by rewrite Hlen. } { cbn [length] in Hl. lia. } { by apply Hb2. }
        cbn [mbind outcome_bind]. eexists. split; [done|]. unfold call_ok. cbn [fst snd]. rewrite (proj2 (Z.eqb_neq _ _) Hce).
        destruct (stepped_scanning _ _ _ _ _ _ _ _ _ _ _ H Hin Hs) as (Hsc & Hw2 & _). split; [done|].
        specialize (Hw2 (Nat.le_refl _)). lia.
Qed.
End call.

(** ** The whole scan *)

(** A list of option characters; with the character 255 the value of an
    option could not be told from the end. *)
Definition optstring_ok (u : list Z) : Prop := ∃ s t, u = s ++ 0 :: t ∧ Forall (λ c, 0 < c < 255) s.

(** The list without the character that chooses the order. *)
Definition effective (u : list Z) : list Z :=
  match u with
  | c :: u' => if (c =? DASH) || (c =? PLUS) then u' else u
  | [] => u
  end.

Lemma optstring_effective u : optstring_ok u → optstring_ok (effective u).
Proof.
  intros (s & t & -> & Hs). destruct s as [|c s]; [by exists [], t|]. cbn.
  destruct (_ || _); [|by exists (c :: s), t]. apply Forall_cons in Hs as [_ Hs]. by exists s, t.
Qed.

Lemma optstring_facts u :
  optstring_ok u → cstring u ∧ ∀ c q, strchr u c = Val (Some q) → schar c ≠ -1.
Proof.
  intros (s & t & -> & Hs). split.
  - exists s, t. split; [done|]. eapply Forall_impl; [exact Hs|]. cbn. lia.
  - intros c q. induction Hs as [|x s Hx Hs IH]; cbn [app strchr].
    + destruct (Z.eqb_spec 0 c) as [<-|]; [done|]. by rewrite Z.eqb_refl.
    + destruct (Z.eqb_spec x c) as [<-|]; [|by destruct (x =? 0)]. intros _. unfold schar. destruct (Z.leb_spec 128 x); lia.
Qed.

Lemma effective_step u : cstring u → ∃ c, char_at u 0 = Val c ∧ (if (c =? DASH) || (c =? PLUS) then drop 1 u else u) = effective u.
Proof. intros (s & t & -> & _). destruct s as [|c s]; by eexists. Qed.

(** Before the first call. *)
Definition unused (d : getopt_data) : Prop :=
  optind d = 0 ∨ (optind d = 1 ∧ initialized d = false).

(** The loop of a caller: until the value -1. *)
Fixpoint getopt_loop (call : list (list Z) → globals → outcome (list (list Z) * effect * globals)) (fuel : nat)
    (argv : list (list Z)) (g : globals) : outcome (list (list Z) * list effect * globals) :=
  match fuel with
  | O => NoFuel
  | S fuel =>
      r ← call argv g;
      if code r.1.2 =? -1 then Val (r.1.1, [], r.2)
      else r' ← getopt_loop call fuel r.1.1 r.2; Val (r'.1.1, r.1.2 :: r'.1.2, r'.2)
  end.

Section scan.
Variables (orig : list (list Z)) (u : list Z) (longopts : option (list option_)) (lo mem posix env : bool).
Hypothesis orig_strings : Forall cstring orig.
Hypothesis orig_nonempty : orig ≠ [].
Hypothesis u_ok : optstring_ok u.
Hypothesis longopts_ok : ∀ opts, longopts = Some opts → opts_ok opts.
Local Abbreviation argc := (Z.of_nat (length orig)).

Lemma first_call d :
  unused d → ∃ res, getopt_internal_r argc orig u longopts lo mem d posix env = Val res ∧ call_ok orig (weight (tail orig)) res.
Proof using All.
  intros Hd. destruct orig as [|prog r] eqn:Eo; [done|]. rewrite <- Eo in *. unfold getopt_internal_r.
  rewrite (proj2 (Z.ltb_ge _ _)) by (rewrite Eo; cbn [length]; lia).
  assert ((optind (set_optarg d None) =? 0) || negb (initialized (set_optarg d None)) = true) as ->.
  { cbn. destruct Hd as [-> | [-> ->]]; done. }
  destruct (optstring_facts u u_ok) as [Hu _]. destruct (optstring_facts _ (optstring_effective u u_ok)) as [He Hem].
  destruct (effective_step u Hu) as (c & Ec & Eff). unfold getopt_initialize. rewrite Ec. cbn [mbind outcome_bind].
  assert (∃ o, (if c =? DASH then (RETURN_IN_ORDER, drop 1 u) else if c =? PLUS then (REQUIRE_ORDER, drop 1 u)
    else if posix || env then (REQUIRE_ORDER, u) else (PERMUTE, u)) = (o, effective u)) as (o & ->).
  { rewrite <- Eff. destruct (c =? DASH); [by eexists|]. destruct (c =? PLUS); [by eexists|]. cbn [orb]. destruct (posix || env); by eexists. }
  assert ((if optind (set_optarg d None) =? 0 then 1 else optind (set_optarg d None)) = 1) as ->.
  { cbn. destruct Hd as [-> | [-> _]]; done. }
  cbn [mbind outcome_bind fst snd nextchar]. destruct (char_at_0 _ He) as (o0 & ->). cbn [mbind outcome_bind].
  set (d1 := Data 1 _ _ _ true None o 1 1).
  assert (layout orig orig d1 prog [] [] [] r []) as Hlay.
  { split; try done. constructor. }
  replace (weight (tail orig)) with (weight r) by (by rewrite Eo).
  eapply next_element_spec; [done|done|done|done|exact Hlay|done|done].
Qed.

Lemma next_call argv d :
  scanning orig argv d →
  ∃ res, getopt_internal_r argc argv u longopts lo mem d posix env = Val res ∧ call_ok orig (todo argv d) res.
Proof using All.
  intros (Hin & prog & od & n & op & r & pre & Hlay & Hnext). destruct (layout_rest _ _ _ _ _ _ _ _ _ Hlay) as (Hr & Ho & Hlen).
  destruct (layout_strings orig orig_strings _ _ _ _ _ _ _ _ Hlay) as (Hcs & _ & Hl & Hge).
  unfold getopt_internal_r. rewrite (proj2 (Z.ltb_ge _ _)) by lia.
  assert ((optind (set_optarg d None) =? 0) || negb (initialized (set_optarg d None)) = false) as ->.
  { cbn. rewrite Hin. rewrite (proj2 (Z.eqb_neq _ _)) by lia. done. }
  destruct (optstring_facts u u_ok) as [Hu _]. destruct (optstring_facts _ (optstring_effective u u_ok)) as [He Hem].
  destruct (effective_step u Hu) as (c & Ec & Eff). rewrite Ec. cbn [mbind outcome_bind fst snd]. rewrite Eff.
  destruct (char_at_0 _ He) as (o0 & ->). cbn [mbind outcome_bind nextchar set_optarg].
  set (d1 := set_optarg d None). set (pe := _ && _). fold d1.
  assert (layout orig argv d1 prog od n op r pre) as Hlay1 by (by destruct Hlay; split).
  assert (at_end d → ∃ res, next_element argc argv (effective u) longopts lo mem pe d1 = Val res ∧ call_ok orig (todo argv d) res) as Hne.
  { intros Hend. assert (todo argv d = weight r) as ->.
    { unfold todo. rewrite Hr. destruct (nextchar d) as [p|] eqn:En; [|done]. destruct (Hend p En) as [_ ->]. done. }
    eapply next_element_spec; [done|done|done|done|exact Hlay1|done|exact Hend]. }
  change (Data (optind d) (opterr d) (optopt d) None (initialized d) (nextchar d) (ordering d) (first_nonopt d) (last_nonopt d)) with d1.
  destruct (nextchar d) as [next|] eqn:En; [|apply Hne; intros p Hp; congruence].
  destruct (Hnext next eq_refl) as [Hcn Hrest]. destruct (cstring_inv next Hcn) as (x & q & -> & Hx).
  change (char_at (x :: q) 0) with (Val x). cbn [mbind outcome_bind]. destruct Hx as [[-> Hz]|(Hx & Hq & Hlx)].
  - rewrite Z.eqb_refl. apply Hne. intros p Hp. rewrite En in Hp. injection Hp as <-. done.
  - rewrite (proj2 (Z.eqb_neq _ _) Hx). destruct r as [|a r]; [exfalso; apply Hrest; [lia|done]|].
    assert (0 <= optind d1 < argc) as Hi by (change (optind d1) with (optind d); cbn [length] in Hlen; lia).
    assert (argc = Z.of_nat (length argv)) as Hac by (by rewrite Hl).
    destruct (short_option_spec argc argv (effective u) Hac Hge Hcs He Hem longopts longopts_ok mem pe (x :: q) d1 Hcn ltac:(lia) Hi)
      as (e & -> & Hce & Hs).
    cbn [mbind outcome_bind]. eexists. split; [done|]. unfold call_ok. cbn [fst snd]. rewrite (proj2 (Z.eqb_neq _ _) Hce).
    destruct (stepped_scanning orig orig_strings _ _ _ _ _ _ _ _ _ _ _ Hlay1 Hin Hs) as (Hsc & _ & Hlt). split; [done|].
    change (todo argv d) with (todo argv d1). eapply Hlt; [exact En|done|lia].
Qed.

(** ** A loop over the entry points *)

Lemma internal_call argv g res :
  getopt_internal_r argc argv u longopts lo mem (fetch g) posix env = Val res →
  ∃ g', getopt_internal argc argv u longopts lo mem posix env g = Val (res.1, res.2, g') ∧
    g_data g' = data res.2 ∧ g_optind g' = optind (data res.2) ∧ fetch g' = set_opterr (data res.2) (g_opterr g).
Proof using. intros E. unfold getopt_internal. rewrite E. cbn [mbind outcome_bind]. by eexists. Qed.

Lemma scanning_opterr argv d b : scanning orig argv d → scanning orig argv (set_opterr d b).
Proof using.
  intros (Hin & prog & od & n & op & r & pre & H & Hn). split; [done|]. exists prog, od, n, op, r, pre. split; [|done]. by destruct H; split.
Qed.

Local Abbreviation loop := (getopt_loop (λ argv, getopt_internal argc argv u longopts lo mem posix env)).

(** One round: the rest of the loop is shorter. *)
Lemma loop_call fuel argv g res before :
  (∀ argv g, scanning orig argv (fetch g) → (todo argv (fetch g) < fuel)%nat →
     ∃ argv' es g', loop fuel argv g = Val (argv', es, g') ∧ finished orig argv' (g_data g') ∧ g_optind g' = optind (g_data g') ∧
       (length es <= todo argv (fetch g))%nat) →
  getopt_internal_r argc argv u longopts lo mem (fetch g) posix env = Val res → call_ok orig before res → (before <= fuel)%nat →
  ∃ argv' es g', loop (S fuel) argv g = Val (argv', es, g') ∧ finished orig argv' (g_data g') ∧ g_optind g' = optind (g_data g') ∧
    (length es <= before)%nat.
Proof using.
  intros IH E Hok Hf. cbn [getopt_loop]. destruct (internal_call argv g res E) as (g1 & -> & Hd1 & Ho1 & Hf1).
  unfold call_ok in Hok. cbn [mbind outcome_bind fst snd]. destruct (code res.2 =? -1).
  - eexists _, _, _. split; [done|]. rewrite Hd1. split_and!; [done|done|cbn; lia].
  - destruct Hok as [Hs1 Hlt]. destruct (IH res.1 g1) as (argv' & es & g' & -> & Hfin & Ho & Hl).
    { rewrite Hf1. by apply scanning_opterr. }
    { rewrite Hf1. change (todo res.1 (set_opterr (data res.2) (g_opterr g))) with (todo res.1 (data res.2)). lia. }
    rewrite Hf1 in Hl. change (todo res.1 (set_opterr (data res.2) (g_opterr g))) with (todo res.1 (data res.2)) in Hl.
    eexists _, _, _. split; [done|]. split_and!; [done|done|cbn; lia].
Qed.

Lemma loop_spec fuel argv g :
  scanning orig argv (fetch g) → (todo argv (fetch g) < fuel)%nat →
  ∃ argv' es g', loop fuel argv g = Val (argv', es, g') ∧ finished orig argv' (g_data g') ∧ g_optind g' = optind (g_data g') ∧
    (length es <= todo argv (fetch g))%nat.
Proof using All.
  revert argv g. induction fuel as [|fuel IH]; intros argv g Hs Hf; [lia|].
  destruct (next_call argv (fetch g) Hs) as (res & E & Hok). by eapply loop_call; [exact IH|exact E|exact Hok|lia].
Qed.

Lemma loop_ends g :
  unused (fetch g) →
  ∃ argv es g', loop (S (weight (tail orig))) orig g = Val (argv, es, g') ∧ finished orig argv (g_data g') ∧ g_optind g' = optind (g_data g') ∧
    (length es <= weight (tail orig))%nat.
Proof using All.
  intros Hd. destruct (first_call (fetch g) Hd) as (res & E & Hok).
  eapply loop_call; [intros; by apply loop_spec|exact E|exact Hok|lia].
Qed.
End scan.
End GetoptRun.
