(* ===== verification/GetoptSpec.v ===== *)
(** * Option parsing: what a run of [getopt] yields

    A reference parser for command lines, by recursion on the arguments: the
    values and arguments a caller's loop sees, the option elements and the
    operands.  A loop over [_getopt_internal_r] yields exactly those and
    leaves the vector with the option elements first.  For long options,
    [resolve] says which option a name stands for. *)

From S2P Require Import Prelude CString Getopt GetoptRun.
Local Open Scope Z_scope.

Module GetoptSpec.
Import CString Getopt GetoptRun.

(** The characters of a string. *)
Definition text (p : list Z) : list Z := take (chars p) p.

Lemma text_spec p : cstring p → ∃ t, p = text p ++ 0 :: t ∧ nul_free (text p) ∧ length (text p) = chars p.
Proof.
  intros (s & t & -> & Hs). exists t. unfold text. rewrite chars_spec, take_app_length by done. done.
Qed.

(** ** The reference parser *)

(** What the list of options says about a character. *)
Inductive kind := Bad | Flag | Optional | Required.

(** What follows the first occurrence of [c]. *)
Fixpoint following (u : list Z) (c : Z) : option (list Z) :=
  match u with
  | [] => None
  | x :: u => if x =? c then Some u else if x =? 0 then None else following u c
  end.

Definition kind_of (u : list Z) (c : Z) : kind :=
  if bool_decide (c = COLON ∨ c = SEMICOLON) then Bad
  else match following u c with
       | None => Bad
       | Some (x :: y :: _) => if x =? COLON then (if y =? COLON then Optional else Required) else Flag
       | Some _ => Flag
       end.

(** The answer when an argument is missing. *)
Definition missing (u : list Z) : Z := if bool_decide (head u = Some COLON) then COLON else QUESTION.

(** The value returned and [optarg]. *)
Definition event : Type := Z * option (list Z).

Definition at_nul (p : list Z) : bool := bool_decide (head p = Some 0).

(** The option characters of an element, and the option that takes its
    argument from the next element. *)
Fixpoint cluster (u p : list Z) : list event * option Z :=
  match p with
  | [] => ([], None)
  | c :: p =>
      if c =? 0 then ([], None)
      else match kind_of u c with
           | Bad => let x := cluster u p in ((QUESTION, None) :: x.1, x.2)
           | Flag => let x := cluster u p in ((schar c, None) :: x.1, x.2)
           | Optional => ([(schar c, if at_nul p then None else Some p)], None)
           | Required => if at_nul p then ([], Some c) else ([(schar c, Some p)], None)
           end
  end.

(** The events, the option elements with their arguments, the operands. *)
Record parsed := Parsed { events : list event; elements : list (list Z); operands : list (list Z) }.

Definition emit (es : list event) (l : list (list Z)) (x : parsed) : parsed :=
  Parsed (es ++ events x) (l ++ elements x) (operands x).

(** The element [a] with the events [c], before the arguments [r]; [x] is the
    rest from [r], [y] the rest after the first of [r]. *)
Definition complete (u a : list Z) (c : list event * option Z) (r : list (list Z)) (x y : parsed) : parsed :=
  match c.2 with
  | None => emit c.1 [a] x
  | Some o =>
      match r with
      | [] => Parsed (c.1 ++ [(missing u, None)]) [a] []
      | b :: _ => emit (c.1 ++ [(schar o, Some b)]) [a; b] y
      end
  end.

Fixpoint parse (mode : ord) (u : list Z) (args : list (list Z)) : parsed :=
  match args with
  | [] => Parsed [] [] []
  | a :: r =>
      if bool_decide (text a = [DASH; DASH]) then Parsed [] [a] r
      else if bool_decide (head a = Some DASH ∧ text a ≠ [DASH]) then
        complete u a (cluster u (drop 1 a)) r (parse mode u r) (match r with [] => Parsed [] [] [] | _ :: r' => parse mode u r' end)
      else match mode with
           | REQUIRE_ORDER => Parsed [] [] (a :: r)
           | PERMUTE => let x := parse mode u r in Parsed (events x) (elements x) (a :: operands x)
           | RETURN_IN_ORDER => emit [(1, Some a)] [a] (parse mode u r)
           end
  end.

(** The mode the list of options and the environment choose. *)
Definition mode_of (u : list Z) (posixly : bool) : ord :=
  if bool_decide (head u = Some DASH) then RETURN_IN_ORDER
  else if bool_decide (head u = Some PLUS) || posixly then REQUIRE_ORDER else PERMUTE.

(** ** Elements *)

Lemma is_dashes_text a : cstring a → is_dashes a ↔ text a = [DASH; DASH].
Proof.
  intros Ha. destruct (text_spec a Ha) as (t & Et & Hn & _). unfold is_dashes. rewrite Et at 1.
  change [DASH; DASH; 0] with ([DASH; DASH] ++ 0 :: []). rewrite strcmp_lexcmp by (done || by repeat constructor).
  rewrite <- (lexcmp_0 (text a) [DASH; DASH]) by (done || by repeat constructor). split; [by intros [= ->]|by intros ->].
Qed.

Lemma text_cons c q : c ≠ 0 → text (c :: q) = c :: text q.
Proof. intros Hc. unfold text. cbn [chars]. by rewrite (proj2 (Z.eqb_neq _ _) Hc). Qed.

Lemma nonoption_text a : cstring a → nonoption a = Val (negb (bool_decide (head a = Some DASH ∧ text a ≠ [DASH]))).
Proof.
  intros Ha. destruct (cstring_inv a Ha) as (c & q & -> & Hc). unfold nonoption. change (char_at (c :: q) 0) with (Val c). cbn [mbind outcome_bind head].
  destruct (Z.eqb_spec c DASH) as [->|Hd]; cbn [negb].
  - destruct Hc as [[? _]|(_ & Hq & _)]; [done|]. destruct (cstring_inv q Hq) as (c1 & q1 & -> & Hc1).
    change (char_at (DASH :: c1 :: q1) 1) with (Val c1). cbn [mbind outcome_bind]. rewrite text_cons by done.
    destruct Hc1 as [[-> _]|(Hc1 & _ & _)].
    + by rewrite bool_decide_eq_false_2 by (intros [_ []]; done).
    + rewrite (proj2 (Z.eqb_neq _ _) Hc1). rewrite text_cons by done. by rewrite bool_decide_eq_true_2 by done.
  - by rewrite bool_decide_eq_false_2 by (intros [[= ->] _]; done).
Qed.

Lemma operand_text a : cstring a → operand a → ¬ (head a = Some DASH ∧ text a ≠ [DASH]).
Proof.
  intros Ha Ho Hd. unfold operand in Ho. rewrite nonoption_text, bool_decide_eq_true_2 in Ho by done. done.
Qed.

(** An element that is not [--] nor an operand. *)
Lemma dashes_option a : text a = [DASH; DASH] → head a = Some DASH ∧ text a ≠ [DASH].
Proof.
  intros E. rewrite E. split; [|done]. destruct a as [|c a]; [done|]. unfold text in E. cbn [chars] in E.
  destruct (c =? 0); [done|]. cbn [take] in E. by injection E as -> _.
Qed.

Lemma parse_operands u r1 r :
  Forall cstring r1 → Forall operand r1 →
  let x := parse PERMUTE u r in parse PERMUTE u (r1 ++ r) = Parsed (events x) (elements x) (r1 ++ operands x).
Proof.
  cbv zeta. intros Hc Ho. induction Ho as [|a r1 Ha Ho IH]; [cbn [app]; by destruct (parse PERMUTE u r)|].
  apply Forall_cons in Hc as [Hca Hc]. pose proof (operand_text a Hca Ha) as Hn. cbn [app parse].
  rewrite (bool_decide_eq_false_2 (text a = [DASH; DASH])) by (intros E; exact (Hn (dashes_option a E))).
  rewrite bool_decide_eq_false_2 by done. rewrite IH by done. done.
Qed.

(** ** One option character *)

(** Its event, how many elements it uses up and where the scan goes on, when
    [b] is the next element. *)
Definition short_result (u : list Z) (c : Z) (q : list Z) (b : option (list Z)) : event * nat * option (list Z) :=
  let stay := if at_nul q then 1%nat else 0%nat in
  match kind_of u c with
  | Bad => ((QUESTION, None), stay, Some q)
  | Flag => ((schar c, None), stay, Some q)
  | Optional => ((schar c, if at_nul q then None else Some q), 1%nat, None)
  | Required =>
      if at_nul q then
        match b with
        | None => ((missing u, None), 1%nat, None)
        | Some b => ((schar c, Some b), 2%nat, None)
        end
      else ((schar c, Some q), 1%nat, None)
  end.

Lemma following_strchr u c :
  cstring u → c ≠ 0 →
  strchr u c = Val ((λ q, c :: q) <$> following u c) ∧ ∀ q, following u c = Some q → cstring q.
Proof.
  intros (s & t & -> & Hs) Hc. induction s as [|x s IH].
  - cbn [app strchr following]. rewrite (proj2 (Z.eqb_neq 0 c)) by done. done.
  - apply nul_free_cons in Hs as [Hx Hs]. cbn [app strchr following]. destruct (Z.eqb_spec x c) as [->|Hne].
    + split; [done|]. intros q [= <-]. by exists s, t.
    + rewrite (proj2 (Z.eqb_neq _ _) Hx). by apply IH.
Qed.

Lemma short_option_exact argv u mem pe c q d :
  Forall cstring argv → argv ≠ [] → cstring u → cstring q → c ≠ 0 → 0 <= optind d < Z.of_nat (length argv) → optarg d = None →
  let x := short_result u c q (argv !! Z.to_nat (optind d + 1)) in
  ∃ e, short_option (Z.of_nat (length argv)) argv u None mem pe (c :: q) d = Val e ∧ same d (data e) ∧
    (code e, optarg (data e)) = x.1.1 ∧ optind (data e) = optind d + Z.of_nat x.1.2 ∧ nextchar (data e) = x.2.
Proof.
  intros Hcs Hne Hu Hq Hc Hi Hoa. cbv zeta. unfold short_option.
  destruct argv as [|prog argv0] eqn:Eargv; [done|]. rewrite <- Eargv in *. assert (arg argv 0 = Val prog) as -> by (by rewrite Eargv).
  cbn [mbind outcome_bind]. change (char_at (c :: q) 0) with (Val c). change (drop 1 (c :: q)) with q. cbn [mbind outcome_bind].
  destruct (following_strchr u c Hu Hc) as [-> Hf]. cbn [mbind outcome_bind].
  destruct (cstring_inv q Hq) as (n0 & q' & Eq & Hn0). assert (char_at q 0 = Val n0) as -> by (by rewrite Eq). cbn [mbind outcome_bind].
  destruct (cstring_inv u Hu) as (o & u' & Eu & _). assert (char_at u 0 = Val o) as -> by (by rewrite Eu). cbn [mbind outcome_bind].
  assert ((if o =? COLON then COLON else QUESTION) = missing u) as ->.
  { unfold missing. rewrite Eu. cbn [head]. destruct (Z.eqb_spec o COLON) as [->|Ho]; [by rewrite bool_decide_eq_true_2|].
    by rewrite bool_decide_eq_false_2 by congruence. }
  assert ((n0 =? 0) = at_nul q) as Hnul.
  { unfold at_nul. rewrite Eq. cbn [head]. destruct (Z.eqb_spec n0 0) as [->|?]; [by rewrite bool_decide_eq_true_2|].
    by rewrite bool_decide_eq_false_2 by congruence. }
  rewrite Hnul. unfold short_result, kind_of.
  destruct ((c =? COLON) || (c =? SEMICOLON)) eqn:Epunct.
  { rewrite bool_decide_eq_true_2 by (apply orb_true_iff in Epunct as [?%Z.eqb_eq|?%Z.eqb_eq]; [by left|by right]).
    destruct (following u c); eexists; (split; [done|]); destruct (at_nul q); cbn; rewrite ?Hoa; split_and!; try done; lia. }
  rewrite bool_decide_eq_false_2 by (intros [-> | ->]; done).
  destruct (following u c) as [q1|]; cbn [fmap option_fmap option_map].
  2:{ eexists. split; [done|]. destruct (at_nul q); cbn; rewrite ?Hoa; split_and!; try done; lia. }
  destruct (cstring_inv q1 (Hf q1 eq_refl)) as (t1 & q2 & -> & Ht1). change (char_at (c :: t1 :: q2) 0) with (Val c). change (char_at (c :: t1 :: q2) 1) with (Val t1).
  cbn [mbind outcome_bind].
  assert ((if (c =? W) && (t1 =? SEMICOLON) then @None (list option_) else None) = None) as -> by (by destruct (_ && _)).
  destruct (Z.eqb_spec t1 COLON) as [->|Hcol].
  2:{ replace (match q2 with [] | _ => Flag end) with Flag by (by destruct q2).
      eexists. split; [done|]. destruct (at_nul q); cbn; rewrite ?Hoa; split_and!; try done; lia. }
  destruct Ht1 as [[? _]|(_ & Hq2 & _)]; [done|]. destruct (cstring_inv q2 Hq2) as (t2 & q3 & -> & _).
  change (char_at (c :: COLON :: t2 :: q3) 2) with (Val t2). cbn [mbind outcome_bind].
  destruct (t2 =? COLON); [|destruct (at_nul q) eqn:En]; cbn [negb].
  - eexists. split; [done|]. destruct (at_nul q); cbn; rewrite ?Hoa; split_and!; try done; lia.
  - cbn [optind set_nextchar set_optind]. destruct (Z.eqb_spec (optind d + 1) (Z.of_nat (length argv))) as [Ee|Ene].
    + rewrite (lookup_ge_None_2 argv) by lia. eexists. split; [done|]. cbn. rewrite Hoa. split_and!; try done; lia.
    + destruct (lookup_lt_is_Some_2 argv (Z.to_nat (optind d + 1)) ltac:(lia)) as [b Eb]. rewrite Eb. unfold arg.
      rewrite (proj2 (Z.leb_le _ _)) by lia. rewrite Eb. cbn [deref mbind outcome_bind]. eexists. split; [done|]. cbn. split_and!; try done; lia.
  - eexists. split; [done|]. cbn. split_and!; try done; lia.
Qed.

(** What is left to report from a state with [nextchar] and the arguments
    [r] from [optind] on. *)
Definition remaining (mode : ord) (u : list Z) (nc : option (list Z)) (r : list (list Z)) : parsed :=
  match nc, r with
  | Some p, a :: r' =>
      if at_nul p then parse mode u r
      else complete u a (cluster u p) r' (parse mode u r') (parse mode u (tail r'))
  | _, _ => parse mode u r
  end.

Lemma parse_option mode u a r :
  text a ≠ [DASH; DASH] → head a = Some DASH ∧ text a ≠ [DASH] →
  parse mode u (a :: r) = complete u a (cluster u (drop 1 a)) r (parse mode u r) (parse mode u (tail r)).
Proof.
  intros H1 H2. cbn [parse]. rewrite (bool_decide_eq_false_2 (text a = [DASH; DASH])), bool_decide_eq_true_2 by done. by destruct r.
Qed.

(** One character of the element [a]: its event comes first. *)
Lemma complete_short mode u a c q r :
  c ≠ 0 →
  let x := short_result u c q (head r) in
  let now := complete u a (cluster u (c :: q)) r (parse mode u r) (parse mode u (tail r)) in
  let later := remaining mode u x.2 (drop x.1.2 (a :: r)) in
  events now = x.1.1 :: events later ∧ elements now = take x.1.2 (a :: r) ++ elements later ∧ operands now = operands later.
Proof.
  intros Hc. cbv zeta. cbn [cluster]. rewrite (proj2 (Z.eqb_neq _ _) Hc). unfold short_result.
  assert (∀ ev, let x := cluster u q in
    let now := complete u a (ev :: x.1, x.2) r (parse mode u r) (parse mode u (tail r)) in
    let n := if at_nul q then 1%nat else 0%nat in
    let later := remaining mode u (Some q) (drop n (a :: r)) in
    events now = ev :: events later ∧ elements now = take n (a :: r) ++ elements later ∧ operands now = operands later) as Hstay.
  { intros ev. cbv zeta. destruct (at_nul q) eqn:En; cbn [drop take app].
    - assert (cluster u q = ([], None)) as ->.
      { unfold at_nul in En. apply bool_decide_eq_true in En. destruct q as [|x q]; [done|]. cbn in En. injection En as ->. done. }
      change (drop 0 r) with r. change (take 0 r) with (@nil (list Z)).
      assert (remaining mode u (Some q) r = parse mode u r) as -> by (destruct r; cbn [remaining]; by rewrite ?En). done.
    - cbn [remaining]. rewrite En. unfold complete. destruct (cluster u q) as [es [o|]]; cbn [fst snd]; [destruct r as [|b r]|]; done. }
  destruct (kind_of u c); [apply Hstay|apply Hstay| |].
  - cbn [fst snd complete emit drop take app remaining events elements operands]. by destruct r.
  - destruct (at_nul q); [|cbn [fst snd]; by destruct r].
    destruct r as [|b r]; [done|]. cbn [head fst snd tail drop take]. by destruct r.
Qed.

Section exact.
Variables (orig : list (list Z)) (u : list Z) (lo mem posix env : bool).
Hypothesis orig_strings : Forall cstring orig.
Hypothesis orig_nonempty : orig ≠ [].
Hypothesis u_ok : optstring_ok u.
Local Abbreviation argc := (Z.of_nat (length orig)).
Local Abbreviation v := (effective u).

(** How a call continues the run: [x] is what was left, [l] and [n] are the
    option elements and the operands before it. *)
Definition continues (prog : list Z) (l n : list (list Z)) (x : parsed) (mode : ord) (res : list (list Z) * effect) : Prop :=
  if code res.2 =? -1 then
    events x = [] ∧ res.1 = prog :: (l ++ elements x) ++ n ++ operands x ∧
    optind (data res.2) = 1 + Z.of_nat (length (l ++ elements x))
  else
    ∃ od' n' op' r' pre', layout orig res.1 (data res.2) prog od' n' op' r' pre' ∧ ordering (data res.2) = mode ∧
      let x' := remaining mode v (nextchar (data res.2)) r' in
      events x = (code res.2, optarg (data res.2)) :: events x' ∧
      l ++ elements x = (od' ++ op') ++ elements x' ∧ n ++ operands x = n' ++ operands x'.

(** The characters of the element [a] at [optind]. *)
Lemma short_continues argv d prog od n op a r pre c q pe :
  layout orig argv d prog od n op (a :: r) pre → optarg d = None → cstring (c :: q) → c ≠ 0 →
  ∃ e, short_option argc argv v None mem pe (c :: q) d = Val e ∧
    continues prog (od ++ op) n (complete v a (cluster v (c :: q)) r (parse (ordering d) v r) (parse (ordering d) v (tail r)))
      (ordering d) (argv, e).
Proof using orig_strings u_ok.
  intros H Hoa Hcs Hc. destruct (layout_strings orig orig_strings _ _ _ _ _ _ _ _ H) as (Hargv & _ & Hlen & Hge).
  destruct (optstring_facts _ (optstring_effective u u_ok)) as [Hv Hem].
  destruct (layout_rest _ _ _ _ _ _ _ _ _ H) as (Hd & Ho & Hl).
  destruct (cstring_next c q Hcs Hc) as [Hq _]. rewrite <- Hlen.
  assert (argv !! Z.to_nat (optind d + 1) = head r) as Hnext.
  { replace (Z.to_nat (optind d + 1)) with (Z.to_nat (optind d) + 1)%nat by lia. rewrite <- lookup_drop, Hd. by destruct r. }
  destruct (short_option_exact argv v mem pe c q d) as (e & E & Hsame & Hev & Hoi & Hnc); try done.
  { intros ->. cbn in Hge. lia. } { cbn [length] in Hl. lia. }
  rewrite Hnext in *. exists e. split; [done|].
  pose proof (complete_short (ordering d) v a c q r Hc) as (E1 & E2 & E3). cbv zeta in *.
  assert (code e ≠ -1) as Hce.
  { clear E E1 E2 E3 Hoi Hnc. assert (code e = (short_result v c q (head r)).1.1.1) as -> by (by rewrite <- Hev).
    pose proof (following_strchr v c Hv Hc) as [Es _]. unfold short_result, kind_of.
    destruct (bool_decide _); [done|]. destruct (following v c) as [w|]; [|done]. specialize (Hem c (c :: w) Es).
    assert (missing v ≠ -1) by (unfold missing; by destruct (bool_decide _)).
    destruct w as [|x [|y w]]; [done|done|]. destruct (x =? COLON), (y =? COLON), (at_nul q), (head r); done. }
  assert ((short_result v c q (head r)).1.2 <= length (a :: r))%nat as Hadv.
  { unfold short_result. destruct (kind_of v c), (at_nul q), r; cbn; lia. }
  unfold continues. cbn [fst snd]. rewrite (proj2 (Z.eqb_neq _ _) Hce).
  destruct (layout_consume _ _ _ (data e) _ _ _ _ _ _ H Hsame ltac:(cbn [length] in *; lia)) as (r1 & r2 & Er & Hr1 & H').
  assert (length r1 = (short_result v c q (head r)).1.2) as Hlr by lia.
  exists od, n, (op ++ r1), r2, (pre ++ r1). split; [done|]. split; [by destruct Hsame as (_ & _ & -> & _)|].
  rewrite Er, <- Hlr, drop_app_length, take_app_length in *. rewrite Hnc, Hev, E1, E2, E3. split_and!; [done| |done].
  by rewrite <- !(assoc (++)).
Qed.

(** The element found after the skipped operands. *)
Lemma element_continues pe argv d prog od n op r pre :
  layout orig argv d prog od n op r pre → optarg d = None → at_end d →
  (ordering d = PERMUTE → op = [] ∧ ∀ a r3, r = a :: r3 → nonoption a = Val false) →
  ∃ res, dispatch_element argc argv v None lo mem pe d = Val res ∧
    continues prog (od ++ op) n (parse (ordering d) v r) (ordering d) res.
Proof using orig_strings u_ok.
  intros H Hoa Hend Hperm. unfold dispatch_element. destruct (layout_strings orig orig_strings _ _ _ _ _ _ _ _ H) as (Hcs & Hcr & Hlen & Hne).
  destruct (layout_rest _ _ _ _ _ _ _ _ _ H) as (_ & Ho & Hl). rewrite Hlen in Hl. pose proof H as [Ha Hor Hi Hf Hla Hoi Hops Hm].
  destruct r as [|a r].
  - cbn [length] in Hl. unfold double_dash. rewrite (proj2 (Z.eqb_eq _ _)) by lia. cbn [negb mbind outcome_bind fst snd].
    rewrite (proj2 (Z.eqb_eq _ _)) by lia. eexists. split; [done|]. unfold continues. cbn [code data fst snd Z.eqb Pos.eqb parse events elements operands].
    split; [done|]. rewrite Ha, !app_nil_r. destruct (decide (ordering d = PERMUTE)) as [Hp|Hp].
    + destruct (Hperm Hp) as [-> _]. rewrite !app_nil_r. split; [done|].
      destruct (Z.eqb_spec (first_nonopt d) (last_nonopt d)); cbn [negb optind set_optind length] in *; lia.
    + destruct (Hm Hp) as [-> ->]. cbn [app length] in *. rewrite !app_nil_r. split; [done|]. rewrite (proj2 (Z.eqb_eq _ _)) by lia. cbn [negb]. lia.
  - apply Forall_cons in Hcr as [Hca Hcr]. destruct (decide (text a = [DASH; DASH])) as [Ed|Ed].
    + destruct (dashes_finish orig orig_strings _ _ _ _ _ _ _ _ _ H) as (d2 & -> & Ho2 & _ & Hoi2); [by intros Hp; apply Hperm|by apply is_dashes_text|].
      cbn [mbind outcome_bind fst snd]. rewrite (proj2 (Z.eqb_eq _ _)) by done. eexists. split; [done|]. unfold continues.
      cbn [code data fst snd Z.eqb Pos.eqb parse]. rewrite bool_decide_eq_true_2 by done. cbn [events elements operands]. split; [done|].
      rewrite <- !(assoc (++)). cbn [app]. split; [done|]. exact Hoi2.
    + assert (double_dash argc argv d = Val (argv, d)) as ->.
      { unfold double_dash. rewrite (proj2 (Z.eqb_neq _ _)) by (cbn [length] in Hl; lia). cbn [negb].
        rewrite (layout_at _ _ _ _ _ _ _ _ _ _ H). cbn [mbind outcome_bind]. destruct (strcmp_total a Hca) as (c & Ec). rewrite Ec. cbn [mbind outcome_bind].
        destruct (Z.eqb_spec c 0) as [->|]; [|done]. exfalso. by apply Ed, is_dashes_text. }
      cbn [mbind outcome_bind fst snd]. rewrite (proj2 (Z.eqb_neq _ _)) by (cbn [length] in Hl; lia).
      pose proof (layout_at _ _ _ _ _ _ _ _ _ _ H) as Ea. rewrite Ea. cbn [mbind outcome_bind].
      rewrite nonoption_text by done. cbn [mbind outcome_bind]. destruct (bool_decide_reflect (head a = Some DASH ∧ text a ≠ [DASH])) as [Hopt|Hopt]; cbn [negb].
      * unfold option_element, short_element. rewrite Ea. cbn [mbind outcome_bind]. rewrite parse_option by done.
        destruct (cstring_inv a Hca) as (x & a' & -> & Hx). cbn [head] in Hopt. destruct Hopt as [[= ->] Hnd].
        destruct Hx as [[? _]|(_ & Ha' & _)]; [done|]. change (drop 1 (DASH :: a')) with a'.
        destruct (cstring_inv a' Ha') as (c & q & -> & Hc). destruct Hc as [[-> _]|(Hc & _ & _)]; [by destruct Hnd|].
        destruct (short_continues argv (set_nextchar d (Some (c :: q))) prog od n op (DASH :: c :: q) r pre c q pe) as (e & -> & Hco); try done.
        cbn [mbind outcome_bind]. eexists. split; [done|]. exact Hco.
      * destruct (decide (ordering d = PERMUTE)) as [Hp|Hp].
        { destruct (Hperm Hp) as [_ Hnon]. specialize (Hnon a r eq_refl). rewrite nonoption_text, bool_decide_eq_false_2 in Hnon by done. done. }
        destruct (Hm Hp) as [-> ->]. cbn [app parse length] in *.
        rewrite (bool_decide_eq_false_2 (text a = [DASH; DASH])), (bool_decide_eq_false_2 (head a = Some DASH ∧ text a ≠ [DASH])) by done.
        destruct (ordering d) eqn:Eord; [| done |].
        -- rewrite bool_decide_eq_true_2 by done. eexists. split; [done|]. unfold continues. cbn [code data fst snd Z.eqb Pos.eqb events elements operands app].
           rewrite app_nil_r. split_and!; [done|done|lia].
        -- rewrite bool_decide_eq_false_2 by done. eexists. split; [done|]. unfold continues. cbn [code data fst snd Z.eqb Pos.eqb].
           set (d1 := set_optind (set_optarg d (Some a)) (optind d + 1)).
           destruct (layout_consume orig argv d d1 _ _ _ _ _ _ H) as (q1 & q2 & Eq & Hq1 & H').
           { done. } { cbn [optind set_optind d1]. unfold d1. cbn [optind set_optind]. rewrite Hlen. lia. }
           unfold d1 in Hq1. cbn [optind set_optind] in Hq1. destruct q1 as [|x [|]]; cbn [length] in Hq1; try lia. injection Eq as <- ->.
           exists [], [], (op ++ [a]), q2, (pre ++ [a]). split; [done|]. split; [done|]. cbv zeta.
           assert (remaining RETURN_IN_ORDER v (nextchar d1) q2 = parse RETURN_IN_ORDER v q2) as ->.
           { change (nextchar d1) with (nextchar d). destruct (nextchar d) as [p|] eqn:En; [|done]. destruct (Hend p En) as [Hp0 Hz].
             destruct q2; [done|]. cbn [remaining]. destruct (cstring_inv p Hp0) as (x & p' & -> & [[-> _]|(_ & _ & ?)]); [done|lia]. }
           cbn [emit events elements operands app]. split_and!; [done| |done]. by rewrite <- (assoc (++)).
Qed.

Lemma next_continues pe argv d prog od n op r pre :
  layout orig argv d prog od n op r pre → optarg d = None → at_end d →
  ∃ res, next_element argc argv v None lo mem pe d = Val res ∧ continues prog (od ++ op) n (parse (ordering d) v r) (ordering d) res.
Proof using orig_strings u_ok.
  intros H Hoa Hend. pose proof H as [_ _ _ Hf0 Hl0 Ho0 _ _]. unfold next_element.
  rewrite (proj2 (Z.ltb_ge (optind d) (last_nonopt d))), (proj2 (Z.ltb_ge (optind d) (first_nonopt d))) by lia.
  assert (set_nonopts d (first_nonopt d) (last_nonopt d) = d) as -> by (by destruct d).
  destruct (layout_strings orig orig_strings _ _ _ _ _ _ _ _ H) as (_ & Hcr & _ & _).
  destruct (decide (ordering d = PERMUTE)) as [Hp|Hp].
  - rewrite (bool_decide_eq_true_2 (ordering d = PERMUTE)) by done.
    destruct (permute_skips orig orig_strings _ _ _ _ _ _ _ _ H Hp) as (argv' & d' & n' & r' & pre' & E & H' & Hp' & Hi' & Hx' & Hnon & _ & r1 & -> & -> & Hr1).
    assert (optarg d' = None) as Hoa'.
    { clear -E Hoa. unfold permute in E. revert E. set (c := if negb _ && _ then _ else _).
      assert (∀ z, c = Val z → optarg z.2 = None) as Hc.
      { intros z. unfold c, exchange. destruct (negb _ && negb _); [|destruct (negb _); by intros [= <-]].
        destruct (exchange_loop _ _ _ _ _); [|done|done]. by intros [= <-]. }
      destruct c as [z| |]; [|done|done]. cbn [mbind outcome_bind]. destruct (skip_nonoptions _ _ _ _); [|done|done]. cbn [mbind outcome_bind].
      intros [= _ <-]. cbn. by apply Hc. }
    rewrite E. cbn [mbind outcome_bind fst snd].
    destruct (element_continues pe _ _ _ _ _ _ _ _ H' Hoa') as (res & -> & Hres); [by unfold at_end; rewrite Hx'|by intros _|].
    exists res. split; [done|]. rewrite Hp, Hp' in *. rewrite app_nil_r in Hres.
    rewrite parse_operands; [|by apply Forall_app in Hcr as []|done]. revert Hres. unfold continues. cbn [events elements operands].
    destruct (code res.2 =? -1).
    + rewrite <- !(assoc (++)). done.
    + intros (od1 & n1 & op1 & r2 & pre2 & H1 & H2 & H3 & H4 & H5). exists od1, n1, op1, r2, pre2. split_and!; try done. by rewrite (assoc (++)).
  - rewrite (bool_decide_eq_false_2 (ordering d = PERMUTE)) by done. cbn [mbind outcome_bind fst snd].
    apply (element_continues pe _ _ _ _ _ _ _ _ H Hoa Hend). done.
Qed.

Lemma remaining_at_end mode nc r :
  (∀ p, nc = Some p → cstring p ∧ chars p = 0%nat) → remaining mode v nc r = parse mode v r.
Proof using.
  intros Hend. destruct nc as [p|]; [|done]. destruct r as [|a r]; [done|]. destruct (Hend p eq_refl) as [Hp Hz]. cbn [remaining].
  destruct (cstring_inv p Hp) as (x & p' & -> & [[-> _]|(_ & _ & ?)]); [done|lia].
Qed.

(** A call between the first and the last. *)
Lemma call_continues argv d prog od n op r pre :
  layout orig argv d prog od n op r pre → initialized d = true →
  (∀ p, nextchar d = Some p → cstring p ∧ ((1 <= chars p)%nat → r ≠ [])) →
  ∃ res, getopt_internal_r argc argv u None lo mem d posix env = Val res ∧
    continues prog (od ++ op) n (remaining (ordering d) v (nextchar d) r) (ordering d) res.
Proof using orig_strings u_ok.
  intros H Hin Hnext. destruct (layout_rest _ _ _ _ _ _ _ _ _ H) as (_ & Ho & _).
  destruct (layout_strings orig orig_strings _ _ _ _ _ _ _ _ H) as (_ & _ & Hl & Hge).
  unfold getopt_internal_r. rewrite (proj2 (Z.ltb_ge _ _)) by lia.
  assert ((optind (set_optarg d None) =? 0) || negb (initialized (set_optarg d None)) = false) as ->.
  { cbn. rewrite Hin. rewrite (proj2 (Z.eqb_neq _ _)) by lia. done. }
  destruct (optstring_facts u u_ok) as [Hu _]. destruct (optstring_facts _ (optstring_effective u u_ok)) as [He _].
  destruct (effective_step u Hu) as (c & -> & Eff). cbn [mbind outcome_bind fst snd]. rewrite Eff.
  destruct (char_at_0 _ He) as (o0 & ->). cbn [mbind outcome_bind]. set (pe := _ && _). set (d1 := set_optarg d None).
  assert (layout orig argv d1 prog od n op r pre) as H1 by (by destruct H; split).
  change (nextchar d1) with (nextchar d).
  assert (at_end d → ∃ res, next_element argc argv v None lo mem pe d1 = Val res ∧
    continues prog (od ++ op) n (remaining (ordering d) v (nextchar d) r) (ordering d) res) as Hne.
  { intros Hend. rewrite remaining_at_end by done. by apply (next_continues pe argv d1 prog od n op r pre). }
  destruct (nextchar d) as [next|] eqn:En; [|apply Hne; intros p Hp; congruence].
  destruct (Hnext next eq_refl) as [Hcn Hrest]. destruct (cstring_inv next Hcn) as (x & q & -> & Hx).
  change (char_at (x :: q) 0) with (Val x). cbn [mbind outcome_bind]. destruct Hx as [[-> Hz]|(Hx & Hq & Hlx)].
  - rewrite Z.eqb_refl. apply Hne. intros p Hp. rewrite En in Hp. injection Hp as <-. done.
  - rewrite (proj2 (Z.eqb_neq _ _) Hx). destruct r as [|a r]; [exfalso; apply Hrest; [lia|done]|]. cbn [remaining].
    assert (at_nul (x :: q) = false) as -> by (unfold at_nul; apply bool_decide_eq_false_2; cbn; congruence).
    destruct (short_continues argv d1 prog od n op a r pre x q pe H1 eq_refl Hcn Hx) as (e & -> & Hco). cbn [mbind outcome_bind].
    eexists. split; [done|]. exact Hco.
Qed.

(** The first call. *)
Lemma first_continues d prog r :
  orig = prog :: r → unused d →
  ∃ res, getopt_internal_r argc orig u None lo mem d posix env = Val res ∧
    continues prog [] [] (parse (mode_of u (posix || env)) v r) (mode_of u (posix || env)) res.
Proof using orig_strings u_ok.
  intros Eo Hd. unfold getopt_internal_r. rewrite (proj2 (Z.ltb_ge _ _)) by (rewrite Eo; cbn [length]; lia).
  assert ((optind (set_optarg d None) =? 0) || negb (initialized (set_optarg d None)) = true) as ->.
  { cbn. destruct Hd as [-> | [-> ->]]; done. }
  destruct (optstring_facts u u_ok) as [Hu _]. destruct (optstring_facts _ (optstring_effective u u_ok)) as [He _].
  destruct (effective_step u Hu) as (c & Ec & Eff). unfold getopt_initialize. rewrite Ec. cbn [mbind outcome_bind].
  assert (head u = Some c) as Hh by (destruct u; [done|]; cbn in Ec; by injection Ec as ->).
  assert ((if c =? DASH then (RETURN_IN_ORDER, drop 1 u) else if c =? PLUS then (REQUIRE_ORDER, drop 1 u)
    else if posix || env then (REQUIRE_ORDER, u) else (PERMUTE, u)) = (mode_of u (posix || env), v)) as ->.
  { unfold mode_of. rewrite Hh, <- Eff. destruct (Z.eqb_spec c DASH) as [->|H1]; [by rewrite bool_decide_eq_true_2|].
    rewrite (bool_decide_eq_false_2 (Some c = Some DASH)) by congruence. destruct (Z.eqb_spec c PLUS) as [->|H2]; [by rewrite bool_decide_eq_true_2|].
    rewrite (bool_decide_eq_false_2 (Some c = Some PLUS)) by congruence. cbn [orb]. by destruct (posix || env). }
  assert ((if optind (set_optarg d None) =? 0 then 1 else optind (set_optarg d None)) = 1) as ->.
  { cbn. destruct Hd as [-> | [-> _]]; done. }
  cbn [mbind outcome_bind fst snd nextchar]. destruct (char_at_0 _ He) as (o0 & ->). cbn [mbind outcome_bind].
  set (d1 := Data 1 _ _ _ true None _ 1 1).
  apply (next_continues _ orig d1 prog [] [] [] r []); [|done|done]. split; try done. constructor.
Qed.

(** What a caller's loop observes. *)
Definition observe (es : list effect) : list event := (λ e, (code e, optarg (data e))) <$> es.

(** The results of the loop agree with [x]. *)
Definition agrees (prog : list Z) (l n : list (list Z)) (x : parsed) (res : list (list Z) * list effect * globals) : Prop :=
  observe res.1.2 = events x ∧ res.1.1 = prog :: (l ++ elements x) ++ n ++ operands x ∧
  g_optind res.2 = 1 + Z.of_nat (length (l ++ elements x)).

Local Abbreviation loop := (getopt_loop (λ argv, getopt_internal argc argv u None lo mem posix env)).

(** The rest of the vector is determined by the state. *)
Lemma scanning_pending argv d prog od n op r pre :
  layout orig argv d prog od n op r pre → scanning orig argv d →
  ∀ p, nextchar d = Some p → cstring p ∧ ((1 <= chars p)%nat → r ≠ []).
Proof using.
  intros H (_ & prog2 & od2 & n2 & op2 & r2 & pre2 & H2 & Hn2).
  destruct (layout_rest _ _ _ _ _ _ _ _ _ H) as (<- & _). by destruct (layout_rest _ _ _ _ _ _ _ _ _ H2) as (-> & _).
Qed.

(** [fuel] is enough for the loop to agree with what is left. *)
Definition enough (prog : list Z) (fuel : nat) : Prop :=
  ∀ argv g od n op r pre, layout orig argv (fetch g) prog od n op r pre → scanning orig argv (fetch g) → (todo argv (fetch g) < fuel)%nat →
    ∃ res, loop fuel argv g = Val res ∧
      agrees prog (od ++ op) n (remaining (ordering (fetch g)) v (nextchar (fetch g)) r) res.

(** One round of the loop. *)
Lemma loop_round fuel argv g res before prog l n x mode :
  enough prog fuel → getopt_internal_r argc argv u None lo mem (fetch g) posix env = Val res →
  call_ok orig before res → (before <= fuel)%nat → continues prog l n x mode res →
  ∃ res', loop (S fuel) argv g = Val res' ∧ agrees prog l n x res'.
Proof using.
  intros IH E Hok Hf Hco. cbn [getopt_loop].
  destruct (internal_call orig u None lo mem posix env argv g res E) as (g1 & -> & Hd1 & Ho1 & Hf1). unfold call_ok, continues in *.
  cbn [mbind outcome_bind fst snd] in *. destruct (code res.2 =? -1).
  - eexists. split; [done|]. unfold agrees. cbn [fst snd]. rewrite Ho1. destruct Hco as (-> & ? & ?). done.
  - destruct Hok as [Hs1 Hlt]. destruct Hco as (od' & n' & op' & r' & pre' & H' & Hm & Hev & Hel & Hopr).
    destruct (IH res.1 g1 od' n' op' r' pre') as (res' & -> & Hres & Hargv & Hoi).
    { rewrite Hf1. by destruct H'; split. } { rewrite Hf1. by apply scanning_opterr. }
    { rewrite Hf1. change (todo res.1 (set_opterr (data res.2) (g_opterr g))) with (todo res.1 (data res.2)). lia. }
    cbn [mbind outcome_bind]. eexists. split; [done|]. unfold agrees. cbn [fst snd]. rewrite Hf1 in *. cbn [ordering nextchar set_opterr] in *. rewrite Hm in *.
    rewrite Hev, Hel, Hargv. split_and!; [by rewrite <- Hres| |done]. do 2 f_equal. by rewrite Hopr.
Qed.

Lemma loop_enough prog fuel : enough prog fuel.
Proof using orig_strings orig_nonempty u_ok.
  induction fuel as [|fuel IH]; intros argv g od n op r pre H Hs Hf; [lia|].
  destruct (next_call orig u None lo mem posix env orig_strings orig_nonempty u_ok ltac:(done) argv (fetch g) Hs) as (res & E & Hok).
  destruct (call_continues argv (fetch g) prog od n op r pre H (proj1 Hs)) as (res' & E' & Hco); [by eapply scanning_pending|].
  rewrite E in E'. injection E' as <-. by eapply loop_round; [exact IH|exact E|exact Hok|lia|exact Hco].
Qed.

Lemma loop_parses g prog args :
  orig = prog :: args → unused (fetch g) →
  ∃ res, loop (S (weight args)) orig g = Val res ∧ agrees prog [] [] (parse (mode_of u (posix || env)) v args) res.
Proof using orig_strings orig_nonempty u_ok.
  intros Eo Hd.
  destruct (first_call orig u None lo mem posix env orig_strings orig_nonempty u_ok ltac:(done) (fetch g) Hd) as (res & E & Hok).
  destruct (first_continues (fetch g) prog args Eo Hd) as (res' & E' & Hco). rewrite E in E'. injection E' as <-.
  eapply loop_round; [apply loop_enough|exact E|exact Hok|by rewrite Eo|exact Hco].
Qed.
End exact.

(** ** Which long option is meant *)

Inductive resolution := Found (p : option_) (i : nat) | AmbiguousName | UnknownName.

(** The options from index [i] on of which [g] is a prefix. *)
Fixpoint candidates (g : list Z) (opts : list option_) (i : nat) : list (option_ * nat) :=
  match opts with
  | [] => []
  | p :: opts => (if bool_decide (g `prefix_of` text (name p)) then [(p, i)] else []) ++ candidates g opts (S i)
  end.

(** An exact match wins, also over earlier abbreviations; otherwise the
    first candidate, unless another one does something else. *)
Definition resolve (long_only : bool) (g : list Z) (opts : list option_) : resolution :=
  match filter (λ c, text (name c.1) = g) (candidates g opts 0) with
  | (p, i) :: _ => Found p i
  | [] =>
      match candidates g opts 0 with
      | [] => UnknownName
      | (p, i) :: rest => if existsb (λ c, differs long_only p c.1) rest then AmbiguousName else Found p i
      end
  end.

Section resolution.
Variables (g rest next : list Z).
Hypothesis next_split : next = g ++ rest.
Hypothesis g_nul_free : nul_free g.

Lemma strncmp_name p :
  cstring (name p) → ∃ d, strncmp (name p) next (length g) = Val d ∧ (d =? 0) = bool_decide (g `prefix_of` text (name p)).
Proof using next_split g_nul_free.
  intros Hp. destruct (text_spec _ Hp) as (t & Et & Hn & _). destruct (strncmp_prefix g (text (name p)) t rest g_nul_free Hn) as (d & E & Hd).
  exists d. rewrite strncmp_unrolled, Et, next_split. rewrite <- Et at 1. split; [by rewrite Et|].
  destruct (Z.eqb_spec d 0) as [Hz|Hz]; symmetry; [apply bool_decide_eq_true_2|apply bool_decide_eq_false_2]; rewrite <- Et; tauto.
Qed.

Lemma find_exact_resolve opts i :
  opts_ok opts → find_exact opts next (length g) i = Val (head (filter (λ c, text (name c.1) = g) (candidates g opts i))).
Proof using next_split g_nul_free.
  intros Ho. revert i. induction Ho as [|p opts [Hp _] Hopts IH]; intros i; [done|]. cbn [find_exact candidates].
  destruct (strncmp_name p Hp) as (d & -> & Hd). cbn [mbind outcome_bind]. rewrite strlen_chars by done. cbn [mbind outcome_bind].
  rewrite Hd. destruct (text_spec _ Hp) as (t & _ & _ & Hl). rewrite filter_app.
  destruct (bool_decide_reflect (g `prefix_of` text (name p))) as [[k Hk]|Hk]; cbn [andb]; [|by rewrite IH].
  rewrite filter_cons, filter_nil. cbn [fst]. destruct (decide (text (name p) = g)) as [Eg|Eg].
  - rewrite <- Hl, Eg, Nat.eqb_refl. done.
  - assert ((length g =? chars (name p))%nat = false) as ->.
    { apply Nat.eqb_neq. intros E. apply Eg. rewrite <- Hl, Hk, length_app in E. assert (k = []) as -> by (destruct k; [done|cbn in E; lia]).
      by rewrite Hk, app_nil_r. }
    apply IH.
Qed.

(** The search has met a candidate that differs from the first. *)
Definition met (s : search) : bool := bool_decide (is_Some (ambig_set s)) || ambig_fallback s.

Lemma add_candidate_met pe mem n i j s :
  pfound (add_candidate pe mem n i j s) = pfound s ∧ met (add_candidate pe mem n i j s) = true.
Proof using.
  destruct s as [pf [set|] []], pe, mem; by split.
Qed.

Lemma find_abbrev_resolve lo pe mem n opts i s :
  opts_ok opts → (pfound s = None → met s = false) →
  ∃ s', find_abbrev lo pe mem n opts next (length g) i s = Val s' ∧
    match pfound s with
    | Some (p, j) =>
        pfound s' = Some (p, j) ∧ met s' = met s || existsb (λ c, differs lo p c.1) (candidates g opts i)
    | None =>
        match candidates g opts i with
        | [] => pfound s' = None ∧ met s' = false
        | (p, j) :: r => pfound s' = Some (p, j) ∧ met s' = existsb (λ c, differs lo p c.1) r
        end
    end.
Proof using next_split g_nul_free.
  intros Ho. revert i s. induction Ho as [|p opts [Hp _] Hopts IH]; intros i s Hs; cbn [find_abbrev candidates].
  - exists s. split; [done|]. destruct (pfound s) as [[q j]|]; [cbn; by rewrite orb_false_r|]. split; [done|by apply Hs].
  - destruct (strncmp_name p Hp) as (d & -> & Hd). cbn [mbind outcome_bind]. rewrite Hd. clear Hd d.
    destruct (bool_decide _); cbn [app]; [|by apply IH].
    destruct (pfound s) as [[q j]|] eqn:Eq.
    + destruct (differs lo q p) eqn:Ed.
      * destruct (add_candidate_met pe mem n i j s) as [Ep Em]. destruct (IH (S i) (add_candidate pe mem n i j s)) as (s' & E & Hs').
        { intros Hx. rewrite Ep, Eq in Hx. done. }
        exists s'. split; [done|]. rewrite Ep, Eq, Em in Hs'. cbn [existsb fst]. rewrite Ed. cbn [orb]. rewrite orb_true_r. exact Hs'.
      * destruct (IH (S i) s) as (s' & E & Hs'); [intros Hx; congruence|]. exists s'. split; [done|]. rewrite Eq in Hs'.
        cbn [existsb fst]. rewrite Ed. exact Hs'.
    + destruct (IH (S i) (Search (Some (p, i)) (ambig_set s) (ambig_fallback s))) as (s' & E & Hs'); [done|].
      exists s'. split; [done|]. cbn [pfound] in Hs'. change (met (Search (Some (p, i)) (ambig_set s) (ambig_fallback s))) with (met s) in Hs'.
      rewrite (Hs eq_refl) in Hs'. exact Hs'.
Qed.
End resolution.

(** A name with two dashes, or after [-W]: the option that [resolve] names
    is taken with what follows the name; otherwise the element is used up
    and the answer is ['?']. *)
Lemma process_long_resolves argc argv optstring opts mem d pe prefix g rest prog :
  opts_ok opts → nextchar d = Some (g ++ rest) → cstring (g ++ rest) → nul_free g → EQUALS ∉ g →
  (head rest = Some 0 ∨ head rest = Some EQUALS) → arg argv 0 = Val prog →
  match resolve false g opts with
  | Found p i =>
      process_long_option argc argv optstring opts false mem d pe prefix
      = Some <$> take_long argc argv optstring prefix rest pe p i d
  | AmbiguousName =>
      ∃ l, process_long_option argc argv optstring opts false mem d pe prefix
      = Val (Some (Effect QUESTION
          (set_optopt (set_nextchar (set_optind d (optind d + 1)) (Some (drop (chars (g ++ rest)) (g ++ rest)))) 0)
          None None (say pe (Ambiguous prog prefix (g ++ rest) l))))
  | UnknownName =>
      process_long_option argc argv optstring opts false mem d pe prefix
      = Val (Some (Effect QUESTION (set_optopt (set_nextchar (set_optind d (optind d + 1)) None) 0)
          None None (say pe (Unrecognized prog prefix (g ++ rest)))))
  end.
Proof.
  intros Ho En Hc Hg Hne Hr Hp.
  assert (name_length (g ++ rest) = Val (length g)) as Hl.
  { clear -Hg Hne Hr. induction g as [|c g IH].
    - destruct rest as [|x rest]; [by destruct Hr|]. cbn. by destruct Hr as [[= ->]|[= ->]].
    - apply nul_free_cons in Hg as [Hc Hg]. cbn [app name_length].
      rewrite (proj2 (Z.eqb_neq _ _) Hc), (proj2 (Z.eqb_neq c EQUALS)) by set_solver. cbn [orb].
      rewrite IH by (done || set_solver). done. }
  unfold process_long_option. rewrite Hp, En. cbn [mbind outcome_bind deref]. rewrite Hl. cbn [mbind outcome_bind].
  rewrite (find_exact_resolve g rest (g ++ rest) eq_refl Hg opts 0 Ho). cbn [mbind outcome_bind].
  rewrite drop_app_length. unfold resolve.
  destruct (filter _ (candidates g opts 0)) as [|[p i] ex]; [|done]. cbn [head].
  destruct (find_abbrev_resolve g rest (g ++ rest) eq_refl Hg false pe mem (length opts) opts 0 (Search None None false) Ho) as (s & -> & Hs); [done|].
  cbn [mbind outcome_bind]. fold (met s). cbn [pfound] in Hs.
  destruct (char_at_0 _ Hc) as (c & Ec).
  destruct (candidates g opts 0) as [|[p i] cands].
  - destruct Hs as [-> ->]. cbn [mbind outcome_bind]. rewrite Ec. done.
  - destruct Hs as [-> ->]. destruct (existsb _ cands); [|done].
    rewrite strlen_chars by done. cbn [mbind outcome_bind]. by eexists.
Qed.

(** ** The properties *)

(** exchange, which swaps equal pieces of the two segments in place, ends
    and interchanges the skipped operands with the options after them, keeping
    the order inside both and every other element, and moves first_nonopt and
    last_nonopt along. *)
Theorem exchange_rotates (P N O R : list (list Z)) (d : getopt_data) :
  first_nonopt d = Z.of_nat (length P) → last_nonopt d = first_nonopt d + Z.of_nat (length N) →
  optind d = last_nonopt d + Z.of_nat (length O) →
  exchange (P ++ N ++ O ++ R) d
  = Val (P ++ O ++ N ++ R, set_nonopts d (first_nonopt d + Z.of_nat (length O)) (optind d)).
Proof. intros Hf Hl Ho. rewrite exchange_spec by done. rewrite Hf. do 3 f_equal. lia. Qed.

(** C28. Between calls the vector is the program name, the options moved to the
    front, the operands skipped, the options found since and the rest, as
    first_nonopt, last_nonopt and optind say; every call, with or without long
    options, with an option string without the character 255 and no long option
    that returns val -1, keeps this, faults nowhere, and returns -1 or leaves
    strictly less to scan. *)
Theorem getopt_call_keeps (orig argv : list (list Z)) (u : list Z) (longopts : option (list option_)) (lo mem posix env : bool) (d : getopt_data) :
  Forall cstring orig → optstring_ok u → (∀ opts, longopts = Some opts → opts_ok opts) → scanning orig argv d →
  ∃ argv' e, getopt_internal_r (Z.of_nat (length orig)) argv u longopts lo mem d posix env = Val (argv', e) ∧
    (if code e =? -1 then finished orig argv' (data e)
     else scanning orig argv' (data e) ∧ (todo argv' (data e) < todo argv d)%nat).
Proof.
  intros Ho Hu Hl Hs. assert (orig ≠ []) as Hne by (destruct Hs as (_ & prog & ? & ? & ? & ? & ? & [_ -> _ _ _ _ _ _] & _); done).
  destruct (next_call orig u longopts lo mem posix env Ho Hne Hu Hl argv d Hs) as ([argv' e] & E & Hok). by exists argv', e.
Qed.

(** C27. For a vector with at least the program name, an option string without
    the character 255 and long options none of which returns val -1, a caller's
    loop over getopt, getopt_long, getopt_long_only or __posix_getopt, begun
    with optind 0 or before any other call, always ends, after at most as many
    values as the arguments have characters and elements, without reading
    outside the vector or a string; then the option elements precede the
    operands, both in the order given, all elements after optind are operands
    unless the scan stopped at one (REQUIRE_ORDER) or after --, and without
    PERMUTE the vector is as it was. *)
Theorem getopt_ends (orig : list (list Z)) (u : list Z) (longopts : option (list option_)) (lo mem posix env : bool) (g : globals) :
  orig ≠ [] → Forall cstring orig → optstring_ok u → (∀ opts, longopts = Some opts → opts_ok opts) → unused (fetch g) →
  ∃ argv es g', getopt_loop (λ argv, getopt_internal (Z.of_nat (length orig)) argv u longopts lo mem posix env)
      (S (weight (tail orig))) orig g = Val (argv, es, g') ∧
    finished orig argv (g_data g') ∧ g_optind g' = optind (g_data g') ∧ (length es <= weight (tail orig))%nat.
Proof. intros Hne Ho Hu Hl Hg. exact (loop_ends orig u longopts lo mem posix env Ho Hne Hu Hl g Hg). Qed.

(** C26. A loop over getopt refines a reference parser defined by recursion on
    the arguments: for every vector of strings, list of option characters
    (other than the character 255) and mode, the loop ends, the values returned
    and the arguments in optarg are exactly the parser's, in order, and the
    vector is left with the option elements first and the operands after them,
    optind at the first operand. *)
Theorem getopt_parses (prog : list Z) (args : list (list Z)) (u : list Z) (mem env : bool) (g : globals) :
  Forall cstring (prog :: args) → optstring_ok u → unused (fetch g) →
  let x := parse (mode_of u env) (effective u) args in
  ∃ es g', getopt_loop (λ argv, getopt (Z.of_nat (length (prog :: args))) argv u mem env) (S (weight args)) (prog :: args) g
      = Val (prog :: elements x ++ operands x, es, g') ∧
    observe es = events x ∧ g_optind g' = 1 + Z.of_nat (length (elements x)).
Proof.
  intros Ho Hu Hg. destruct (loop_parses (prog :: args) u false mem false env Ho ltac:(done) Hu g prog args eq_refl Hg)
    as ([[argv es] g'] & E & Hes & Hargv & Hoi). cbn [fst snd app] in *. subst argv. by exists es, g'.
Qed.

(** An element --name or --name=value selects the option whose name it is,
    otherwise the first option of which it is an abbreviation provided all the
    others would do the same; it is reported as ambiguous when they differ and
    as unrecognized when there is none, with '?', one element used up and
    optopt 0. *)
Theorem long_option_resolves (argc : Z) (argv : list (list Z)) (u : list Z) (opts : list option_) (mem pe : bool) (d : getopt_data)
    (prog g rest : list Z) :
  opts_ok opts → cstring (g ++ rest) → nul_free g → EQUALS ∉ g → (head rest = Some 0 ∨ head rest = Some EQUALS) →
  arg argv 0 = Val prog → arg argv (optind d) = Val (DASH :: DASH :: g ++ rest) →
  let call := option_element argc argv u (Some opts) false mem pe d in
  match resolve false g opts with
  | Found p i => call = take_long argc argv u $"--" rest pe p i (set_nextchar d (Some (g ++ rest)))
  | AmbiguousName =>
      ∃ l e, call = Val e ∧ code e = QUESTION ∧ optind (data e) = optind d + 1 ∧ optopt (data e) = 0 ∧
        printed e = say pe (Ambiguous prog $"--" (g ++ rest) l)
  | UnknownName =>
      ∃ e, call = Val e ∧ code e = QUESTION ∧ optind (data e) = optind d + 1 ∧ optopt (data e) = 0 ∧
        printed e = say pe (Unrecognized prog $"--" (g ++ rest))
  end.
Proof.
  intros Ho Hc Hg Hne Hr Hp Ha. cbv zeta. unfold option_element. rewrite Ha. cbn [mbind outcome_bind].
  change (char_at (DASH :: DASH :: g ++ rest) 1) with (Val DASH). cbn [mbind outcome_bind]. rewrite Z.eqb_refl.
  change (drop 2 (DASH :: DASH :: g ++ rest)) with (g ++ rest).
  pose proof (process_long_resolves argc argv u opts mem (set_nextchar d (Some (g ++ rest))) pe $"--" g rest prog Ho eq_refl Hc Hg Hne Hr Hp) as H.
  destruct (resolve false g opts) as [p i| |].
  - rewrite H. by destruct (take_long _ _ _ _ _ _ _ _ _).
  - destruct H as (l & ->). by eexists l, _.
  - rewrite H. by eexists.
Qed.

(** ** Concrete runs *)

Definition terminated (s : list Z) : list Z := s ++ [0].

Lemma terminated_cstring s : nul_free s → cstring (terminated s).
Proof. intros Hs. by exists s, []. Qed.

Definition fresh : globals := Globals None 1 1 63 (Data 0 0 0 None false None REQUIRE_ORDER 0 0).

(** [prog x -ab y -c arg -dq -cd -? -- -a], with the options [abc:d::]. *)
Definition demo_args : list (list Z) :=
  terminated <$> [$"x"; $"-ab"; $"y"; $"-c"; $"arg"; $"-dq"; $"-cd"; $"-?"; $"--"; $"-a"].
Definition demo_argv : list (list Z) := terminated $"prog" :: demo_args.
Definition demo_opts : list Z := terminated $"abc:d::".

Definition demo_long : list option_ :=
  [Option (terminated $"verbose") 0 None 118; Option (terminated $"version") 0 None 86; Option (terminated $"file") 1 None 102].

Lemma demo_strings : Forall cstring demo_argv.
Proof. repeat (apply Forall_cons; split; [apply terminated_cstring; by repeat constructor|]). apply Forall_nil. done. Qed.

Lemma demo_opts_ok : optstring_ok demo_opts.
Proof. exists ($"abc:d::"), []. split; [done|]. repeat constructor; lia. Qed.

Lemma demo_long_ok : ∀ opts, Some demo_long = Some opts → opts_ok opts.
Proof.
  intros opts [= <-]. repeat (apply Forall_cons; split; [split; [apply terminated_cstring; by repeat constructor|done]|]). by apply Forall_nil.
Qed.

Lemma exchange_rotates_witness :
  exchange ([terminated $"p"] ++ (terminated <$> [$"x"; $"y"; $"z"]) ++ [terminated $"-a"] ++ [])
    (Data 5 1 63 None true None PERMUTE 1 4)
  = Val ([terminated $"p"] ++ [terminated $"-a"] ++ (terminated <$> [$"x"; $"y"; $"z"]) ++ [],
         Data 5 1 63 None true None PERMUTE 2 5).
Proof.
  exact (exchange_rotates [terminated $"p"] (terminated <$> [$"x"; $"y"; $"z"]) [terminated $"-a"] []
    (Data 5 1 63 None true None PERMUTE 1 4) eq_refl eq_refl eq_refl).
Defined.

(** In the middle of [-ab], with [x] skipped. *)
Lemma getopt_call_keeps_witness :
  ∃ argv' e, getopt_internal_r 11 demo_argv demo_opts (Some demo_long) false true
      (Data 2 1 63 None true (Some (terminated $"b")) PERMUTE 1 2) false false = Val (argv', e) ∧
    (if code e =? -1 then finished demo_argv argv' (data e)
     else scanning demo_argv argv' (data e) ∧
       (todo argv' (data e) < todo demo_argv (Data 2 1 63 None true (Some (terminated $"b")) PERMUTE 1 2))%nat).
Proof.
  apply (getopt_call_keeps demo_argv demo_argv demo_opts (Some demo_long) false true false false
    (Data 2 1 63 None true (Some (terminated $"b")) PERMUTE 1 2) demo_strings demo_opts_ok demo_long_ok).
  split; [reflexivity|]. exists (terminated $"prog"), [], [terminated $"x"], [], (drop 1 demo_args), [terminated $"x"]. split.
  - split; try reflexivity.
    + exact (interleave_r [terminated $"x"]).
    + apply Forall_cons. split; [reflexivity|]. apply Forall_nil. exact I.
    + intros H. destruct (H eq_refl).
  - intros p E. injection E as <-. split; [apply terminated_cstring; repeat constructor; discriminate|]. intros _. discriminate.
Defined.

Lemma getopt_ends_witness :
  ∃ argv es g', getopt_loop (λ argv, getopt_internal 11 argv demo_opts (Some demo_long) true true false false)
      (S (weight demo_args)) demo_argv fresh = Val (argv, es, g') ∧
    finished demo_argv argv (g_data g') ∧ g_optind g' = optind (g_data g') ∧ (length es <= weight demo_args)%nat.
Proof.
  apply (getopt_ends demo_argv demo_opts (Some demo_long) true true false false fresh); [discriminate|exact demo_strings|exact demo_opts_ok|exact demo_long_ok|].
  right. split; reflexivity.
Defined.

Lemma getopt_parses_witness :
  ∃ es g', getopt_loop (λ argv, getopt 11 argv demo_opts true false) (S (weight demo_args)) demo_argv fresh
      = Val (terminated <$> [$"prog"; $"-ab"; $"-c"; $"arg"; $"-dq"; $"-cd"; $"-?"; $"--"; $"x"; $"y"; $"-a"], es, g') ∧
    observe es = [(97, None); (98, None); (99, Some (terminated $"arg")); (100, Some (terminated $"q"));
                  (99, Some (terminated $"d")); (63, None)] ∧
    g_optind g' = 8.
Proof.
  exact (getopt_parses (terminated $"prog") demo_args demo_opts true false fresh demo_strings demo_opts_ok (or_intror (conj eq_refl eq_refl))).
Defined.

(** [--vers] stands for [--version], [--ver] is ambiguous. *)
Lemma long_option_resolves_witness :
  option_element 2 [terminated $"p"; terminated $"--vers"] (terminated []) (Some demo_long) false true true
      (Data 1 1 63 None true None PERMUTE 1 1)
  = take_long 2 [terminated $"p"; terminated $"--vers"] (terminated []) $"--" [0] true
      (Option (terminated $"version") 0 None 86) 1 (Data 1 1 63 None true (Some (terminated $"vers")) PERMUTE 1 1) ∧
  resolve false $"ver" demo_long = AmbiguousName.
Proof.
  split; [|reflexivity].
  apply (long_option_resolves 2 [terminated $"p"; terminated $"--vers"] (terminated []) demo_long true true
    (Data 1 1 63 None true None PERMUTE 1 1) (terminated $"p") ($"vers") [0]).
  - exact (demo_long_ok demo_long eq_refl).
  - apply terminated_cstring. repeat constructor; discriminate.
  - repeat constructor; discriminate.
  - apply (bool_decide_unpack _). vm_compute. exact I.
  - left. reflexivity.
  - reflexivity.
  - reflexivity.
Defined.
End GetoptSpec.
