(* ===== verification/NsName.v ===== *)
(** * Domain names: the functions [ns_name_*] of [resolv/]

    Wire format to and from text ([ns_name_ntop.c], [ns_name_pton.c]),
    compression ([ns_name_pack.c], [ns_name_compress.c]) and decompression
    ([ns_name_unpack.c], [ns_name_uncompress.c], [ns_name_skip.c]), the small
    functions of [ns_name.c], and the comparison of names as text
    ([ns_makecanon.c], [ns_samename.c], [ns_samedomain.c]) with the string
    functions they call.  A message is the list of its bytes and pointers
    into it are offsets; a source that is only read forwards is the memory
    from its pointer on.  Every function returns its value or the error it
    stores in [errno], and the buffers it writes to, also on failure.
    Messages and buffers are shorter than [2^31] bytes, so that the
    differences of pointers fit an [int]. *)

From S2P Require Import Prelude CString.
Local Open Scope Z_scope.

Module NsName.
Import CString.

Definition EMSGSIZE : Z := 90.
Definition ENOENT : Z := 2.
Definition NS_MAXDNAME : Z := 1025.
Definition NS_MAXCDNAME : Z := 255.
Definition NS_CMPRSFLGS : Z := 0xc0.
Definition DOT : Z := 46.
Definition BACKSLASH : Z := 92.
Definition ZERO : Z := 48.

(** A value, or -1 with [errno]. *)
Inductive answer := Ok (n : Z) | Error (errno : Z).

(** A byte of a message. *)
Definition rd (m : list Z) (i : nat) : outcome Z := deref (m !! i).

(** ** [ns_name_unpack] *)

Definition target (msg_n lo : Z) : nat := Z.to_nat (Z.lor (Z.shiftl (Z.land msg_n 0x3f) 8) lo).

(** [m] is the message from [msg] to [eom]; [dst] has [dstsiz] bytes. *)
Fixpoint unpack_loop (fuel : nat) (m : list Z) (src srcp : nat) (dst : list Z) (dstp : nat) (len checked : Z)
    : outcome (answer * list Z) :=
  match fuel with
  | O => NoFuel
  | S fuel =>
      n ← rd m srcp;
      let srcp := S srcp in
      let eom := Z.of_nat (length m) in
      if n =? 0 then
        dst ← write_at dst dstp [0];
        Val (Ok (if len <? 0 then Z.of_nat srcp - Z.of_nat src else len), dst)
      else if Z.land n NS_CMPRSFLGS =? 0 then
        if 64 <=? n then Val (Error EMSGSIZE, dst)
        else if (Z.of_nat (length dst) - Z.of_nat dstp <=? n + 1) || (eom - Z.of_nat srcp <=? n) then Val (Error EMSGSIZE, dst)
        else
          dst ← write_at dst dstp [n];
          bs ← read_n (drop srcp m) (Z.to_nat n);
          dst ← write_at dst (S dstp) bs;
          unpack_loop fuel m src (srcp + Z.to_nat n)%nat dst (S dstp + Z.to_nat n)%nat len (checked + (n + 1))
      else if Z.land n NS_CMPRSFLGS =? NS_CMPRSFLGS then
        if eom <=? Z.of_nat srcp then Val (Error EMSGSIZE, dst)
        else
          let len := if len <? 0 then Z.of_nat srcp - Z.of_nat src + 1 else len in
          lo ← rd m srcp;
          if eom <=? Z.of_nat (target n lo) then Val (Error EMSGSIZE, dst)
          else
            let checked := checked + 2 in
            if eom <=? checked then Val (Error EMSGSIZE, dst)
            else unpack_loop fuel m src (target n lo) dst dstp len checked
      else Val (Error EMSGSIZE, dst)
  end.

(** Each label takes a byte of [dst] and each pointer adds to [checked]. *)
Definition ns_name_unpack (m : list Z) (src : Z) (dst : list Z) : outcome (answer * list Z) :=
  if (src <? 0) || (Z.of_nat (length m) <=? src) then Val (Error EMSGSIZE, dst)
  else unpack_loop (S (length m + length dst)) m (Z.to_nat src) (Z.to_nat src) dst 0 (-1) 0.

(** ** [ns_name_skip] *)

Fixpoint skip_loop (fuel : nat) (m : list Z) (ptr cp : nat) : outcome (answer * nat) :=
  match fuel with
  | O => NoFuel
  | S fuel =>
      let eom := Z.of_nat (length m) in
      if Z.of_nat cp <? eom then
        n ← rd m cp;
        let cp := S cp in
        if n =? 0 then Val (Ok 0, cp)
        else if Z.land n NS_CMPRSFLGS =? 0 then
          if eom - Z.of_nat cp <? n then Val (Error EMSGSIZE, ptr) else skip_loop fuel m ptr (cp + Z.to_nat n)
        else if Z.land n NS_CMPRSFLGS =? NS_CMPRSFLGS then
          if Z.of_nat cp =? eom then Val (Error EMSGSIZE, ptr) else Val (Ok 0, S cp)
        else Val (Error EMSGSIZE, ptr)
      else Val (Error EMSGSIZE, ptr)
  end.

Definition ns_name_skip (m : list Z) (ptr : nat) : outcome (answer * nat) := skip_loop (S (length m)) m ptr ptr.

(** ** [ns_name_ntop] *)

(** The double quote, the dot, the semicolon, the backslash, the two
    parentheses, the at sign and the dollar sign. *)
Definition special (ch : Z) : bool :=
  (ch =? 34) || (ch =? DOT) || (ch =? 59) || (ch =? BACKSLASH) || (ch =? 40) || (ch =? 41) || (ch =? 64) || (ch =? 36).
Definition printable (ch : Z) : bool := (0x20 <? ch) && (ch <? 0x7f).

Definition ntop_end (dst : list Z) (dn : nat) : outcome (answer * list Z) :=
  let eom := length dst in
  if (dn =? 0)%nat && (eom <=? dn)%nat then Val (Error EMSGSIZE, dst)
  else
    dst ← (if (dn =? 0)%nat then write_at dst dn [DOT] else Val dst);
    let dn := if (dn =? 0)%nat then S dn else dn in
    if (eom <=? dn)%nat then Val (Error EMSGSIZE, dst)
    else dst ← write_at dst dn [0]; Val (Ok (Z.of_nat (S dn)), dst).

(** [l] bytes of the current label are left. *)
Fixpoint ntop_loop (cp : list Z) (l : nat) (dst : list Z) (dn : nat) : outcome (answer * list Z) :=
  match cp with
  | [] => Fault
  | c :: cp =>
      let eom := length dst in
      match l with
      | O =>
          if c =? 0 then ntop_end dst dn
          else if 64 <=? c then Val (Error EMSGSIZE, dst)
          else if negb (dn =? 0)%nat then
            if (eom <=? dn)%nat then Val (Error EMSGSIZE, dst)
            else dst ← write_at dst dn [DOT]; ntop_loop cp (Z.to_nat c) dst (S dn)
          else ntop_loop cp (Z.to_nat c) dst dn
      | S l =>
          let room := Z.of_nat eom - Z.of_nat dn in
          if special c then
            if room <? 2 then Val (Error EMSGSIZE, dst)
            else dst ← write_at dst dn [BACKSLASH; c]; ntop_loop cp l dst (dn + 2)
          else if negb (printable c) then
            if room <? 4 then Val (Error EMSGSIZE, dst)
            else
              dst ← write_at dst dn [BACKSLASH; ZERO + c / 100; ZERO + c mod 100 / 10; ZERO + c mod 10];
              ntop_loop cp l dst (dn + 4)
          else
            if room <? 2 then Val (Error EMSGSIZE, dst)
            else dst ← write_at dst dn [c]; ntop_loop cp l dst (S dn)
      end
  end.

Definition ns_name_ntop (src dst : list Z) : outcome (answer * list Z) := ntop_loop src 0 dst 0.

(** ** [ns_name_pton] *)

Definition isdigit (c : Z) : bool := (ZERO <=? c) && (c <=? 57).

(** The length byte of the label that ends at [bp], and the root label when
    the name ends here; the value is [result]. *)
Definition pton_end (dst : list Z) (label bp : nat) (result : Z) : outcome (answer * list Z) :=
  let c := Z.of_nat bp - Z.of_nat label - 1 in
  let eom := length dst in
  if negb (Z.land c NS_CMPRSFLGS =? 0) then Val (Error EMSGSIZE, dst)
  else if (eom <=? label)%nat then Val (Error EMSGSIZE, dst)
  else
    dst ← write_at dst label [wrapu 8 c];
    if negb (c =? 0) && (eom <=? bp)%nat then Val (Error EMSGSIZE, dst)
    else
      dst ← (if negb (c =? 0) then write_at dst bp [0] else Val dst);
      let bp := if negb (c =? 0) then S bp else bp in
      if NS_MAXCDNAME <? Z.of_nat bp then Val (Error EMSGSIZE, dst) else Val (Ok result, dst).

Fixpoint pton_loop (src : list Z) (escaped : bool) (dst : list Z) (label bp : nat) : outcome (answer * list Z) :=
  let store c k :=
    if (length dst <=? bp)%nat then Val (Error EMSGSIZE, dst) else dst ← write_at dst bp [c]; k dst (S bp) in
  match src with
  | [] => Fault
  | c :: src =>
      if c =? 0 then
        if escaped : bool then Val (Error EMSGSIZE, dst) else pton_end dst label bp 0
      else if escaped then
        if isdigit c then
          match src with
          | [] => Fault
          | c2 :: src =>
              if negb (isdigit c2) then Val (Error EMSGSIZE, dst)
              else match src with
                   | [] => Fault
                   | c3 :: src =>
                       if negb (isdigit c3) then Val (Error EMSGSIZE, dst)
                       else
                         let n := (c - ZERO) * 100 + (c2 - ZERO) * 10 + (c3 - ZERO) in
                         if 255 <? n then Val (Error EMSGSIZE, dst)
                         else store n (λ dst bp, pton_loop src false dst label bp)
                   end
          end
        else store c (λ dst bp, pton_loop src false dst label bp)
      else if c =? BACKSLASH then pton_loop src true dst label bp
      else if c =? DOT then
        let l := Z.of_nat bp - Z.of_nat label - 1 in
        match src with
        | [] => Fault
        | next :: _ =>
            if next =? 0 then pton_end dst label bp 1
            else if negb (Z.land l NS_CMPRSFLGS =? 0) then Val (Error EMSGSIZE, dst)
            else if (length dst <=? label)%nat then Val (Error EMSGSIZE, dst)
            else
              dst ← write_at dst label [wrapu 8 l];
              if (l =? 0) || (next =? DOT) then Val (Error EMSGSIZE, dst)
              else pton_loop src false dst bp (S bp)
        end
      else store c (λ dst bp, pton_loop src false dst label bp)
  end.

Definition ns_name_pton (src dst : list Z) : outcome (answer * list Z) := pton_loop src false dst 0 1.

(** ** [ns_name_pack] *)

Definition mklower (ch : Z) : Z := if (65 <=? ch) && (ch <=? 90) then ch + 32 else ch.

Inductive comparison_ := Same | Different | Illegal.

(** The [n] bytes of a label, up to the case of letters. *)
Fixpoint same_bytes (n : nat) (m dn : list Z) (cp : nat) : outcome bool :=
  match n with
  | O => Val true
  | S n =>
      a ← deref (head dn);
      b ← rd m cp;
      if mklower a =? mklower b then same_bytes n m (tail dn) (S cp) else Val false
  end.

(** The name at [cp] against the name [dn]. *)
Fixpoint same_name (fuel : nat) (m : list Z) (msg : nat) (dn : list Z) (cp : nat) : outcome comparison_ :=
  match fuel with
  | O => NoFuel
  | S fuel =>
      n ← rd m cp;
      let cp := S cp in
      if n =? 0 then Val Different
      else if Z.land n NS_CMPRSFLGS =? 0 then
        d ← deref (head dn);
        if negb (n =? d) then Val Different
        else
          same ← same_bytes (Z.to_nat n) m (tail dn) cp;
          if negb (same : bool) then Val Different
          else
            let dn := drop (S (Z.to_nat n)) dn in
            let cp := (cp + Z.to_nat n)%nat in
            d ← deref (head dn);
            if negb (d =? 0) then same_name fuel m msg dn cp
            else c ← rd m cp; Val (if c =? 0 then Same else Different)
      else if Z.land n NS_CMPRSFLGS =? NS_CMPRSFLGS then
        lo ← rd m cp; same_name fuel m msg dn (msg + target n lo)
      else Val Illegal
  end.

(** Each label of the name at [sp]. *)
Fixpoint find_suffix (fuel : nat) (m : list Z) (msg : nat) (domain : list Z) (sp : nat) : outcome answer :=
  match fuel with
  | O => NoFuel
  | S fuel =>
      s ← rd m sp;
      if negb (s =? 0) && (Z.land s NS_CMPRSFLGS =? 0) && (Z.of_nat sp - Z.of_nat msg <? 0x4000) then
        r ← same_name (S (length m + length domain)) m msg domain sp;
        match r with
        | Same => Val (Ok (Z.of_nat sp - Z.of_nat msg))
        | Different => find_suffix fuel m msg domain (sp + Z.to_nat s + 1)
        | Illegal => Val (Error EMSGSIZE)
        end
      else Val (Error ENOENT)
  end.

Fixpoint dn_find (m : list Z) (msg : nat) (domain : list Z) (ptrs : list (option nat)) : outcome answer :=
  match ptrs with
  | [] => Val (Error ENOENT)
  | p :: ptrs =>
      sp ← deref p;
      r ← find_suffix (S (length m)) m msg domain sp;
      match r with
      | Error e => if e =? ENOENT then dn_find m msg domain ptrs else Val r
      | Ok _ => Val r
      end
  end.

(** [for (cpp = dnptrs; *cpp != NULL; cpp++)], as an index. *)
Fixpoint list_end (ptrs : list (option nat)) (i : nat) : outcome nat :=
  match ptrs with
  | [] => Fault
  | None :: _ => Val i
  | Some _ :: ptrs => list_end ptrs (S i)
  end.

(** Whether the name is legal. *)
Fixpoint legal (fuel : nat) (srcp : list Z) (l : Z) : outcome bool :=
  match fuel with
  | O => NoFuel
  | S fuel =>
      n ← deref (head srcp);
      if 64 <=? n then Val false
      else if NS_MAXCDNAME <? l + (n + 1) then Val false
      else if n =? 0 then Val true
      else legal fuel (drop (S (Z.to_nat n)) srcp) (l + (n + 1))
  end.

Definition store_ptr (arr : list (option nat)) (i : nat) (p : option nat) : outcome (list (option nat)) :=
  if (i <? length arr)%nat then Val (<[i := p]> arr) else Fault.

(** The result, the message and the array. *)
Definition packed : Type := answer * list Z * list (option nat).

Definition pack_cleanup (m : list Z) (arr : list (option nat)) (msg : option nat) (lpp : nat) : outcome packed :=
  arr ← (match msg with Some _ => store_ptr arr lpp None | None => Val arr end);
  Val (Error EMSGSIZE, m, arr).

(** Save the place of the name when there is space in the array. *)
Definition save_ptr (arr : list (option nat)) (last : option nat) (cpp msg dstp : nat) (first : bool)
    : outcome (list (option nat) * nat * bool) :=
  match last with
  | Some last =>
      if (Z.of_nat cpp <? Z.of_nat last - 1) && (Z.of_nat dstp - Z.of_nat msg <? 0x4000) && first then
        arr ← store_ptr arr cpp (Some dstp);
        arr ← store_ptr arr (S cpp) None;
        Val (arr, S cpp, false)
      else Val (arr, cpp, first)
  | None => Val (arr, cpp, first)
  end.

Fixpoint pack_loop (fuel : nat) (m srcp : list Z) (dst dstp : nat) (eob : Z) (arr : list (option nat)) (last : option nat)
    (msg : option nat) (lpp cpp : nat) (first : bool) : outcome packed :=
  match fuel with
  | O => NoFuel
  | S fuel =>
      n ← deref (head srcp);
      let copy arr cpp first :=
        if (64 <=? n) || (eob - Z.of_nat dstp <? n + 1) then pack_cleanup m arr msg lpp
        else
          bs ← read_n srcp (S (Z.to_nat n));
          m ← write_at m dstp bs;
          let dstp := (dstp + S (Z.to_nat n))%nat in
          if n =? 0 then
            if eob <? Z.of_nat dstp then pack_cleanup m arr msg lpp
            else Val (Ok (Z.of_nat dstp - Z.of_nat dst), m, arr)
          else pack_loop fuel m (drop (S (Z.to_nat n)) srcp) dst dstp eob arr last msg lpp cpp first in
      match msg with
      | Some base =>
          if negb (n =? 0) then
            l ← dn_find m base srcp (take (lpp - 1) (drop 1 arr));
            match l with
            | Ok l =>
                if eob - Z.of_nat dstp <=? 1 then pack_cleanup m arr msg lpp
                else
                  m ← write_at m dstp [wrapu 8 (Z.lor (Z.shiftr l 8) NS_CMPRSFLGS); l mod 256];
                  Val (Ok (Z.of_nat (dstp + 2) - Z.of_nat dst), m, arr)
            | Error _ =>
                s ← save_ptr arr last cpp base dstp first;
                copy s.1.1 s.1.2 s.2
            end
          else copy arr cpp first
      | None => copy arr cpp first
      end
  end.

(** [dst] and the pointers are offsets into the object [m]; [dnptrs] is the
    array of pointers, its first element the start of the message, and
    [lastdnptr] an index into it. *)
Definition ns_name_pack (m src : list Z) (dst : nat) (dstsiz : Z) (dnptrs : option (list (option nat))) (lastdnptr : option nat)
    : outcome packed :=
  let arr := default [] dnptrs in
  msg ← (match dnptrs with Some arr => deref (head arr) | None => Val None end);
  lpp ← (match msg with Some _ => list_end (drop 1 arr) 1 | None => Val 0%nat end);
  ok ← legal (S (length src)) src 0;
  if negb (ok : bool) then Val (Error EMSGSIZE, m, arr)
  else pack_loop (S (length src)) m src dst dst (Z.of_nat dst + dstsiz) arr lastdnptr msg lpp lpp true.

(** ** [ns_name_compress] and [ns_name_uncompress]

    [tmp] is the uninitialised array, of [NS_MAXCDNAME] bytes. *)
Definition ns_name_compress (m src : list Z) (dst : nat) (dstsiz : Z) (dnptrs : option (list (option nat)))
    (lastdnptr : option nat) (tmp : list Z) : outcome packed :=
  r ← ns_name_pton src tmp;
  match r.1 with
  | Error e => Val (Error e, m, default [] dnptrs)
  | Ok _ => ns_name_pack m r.2 dst (wraps 32 dstsiz) dnptrs lastdnptr
  end.

Definition ns_name_uncompress (m : list Z) (src : Z) (dst tmp : list Z) : outcome (answer * list Z) :=
  r ← ns_name_unpack m src tmp;
  match r.1 with
  | Error e => Val (Error e, dst)
  | Ok n =>
      t ← ns_name_ntop r.2 dst;
      Val (match t.1 with Error e => Error e | Ok _ => Ok n end, t.2)
  end.

(** ** [ns_name_ntol] and [ns_name_rollback] *)

Definition labellen (b : Z) : Z := if b <=? 63 then b else -1.

Fixpoint ntol_loop (cp : list Z) (l : nat) (dst : list Z) (dn : nat) : outcome (answer * list Z) :=
  match cp with
  | [] => Fault
  | c :: cp =>
      match l with
      | O =>
          if c =? 0 then dst ← write_at dst dn [0]; Val (Ok (Z.of_nat (S dn)), dst)
          else if Z.land c NS_CMPRSFLGS =? NS_CMPRSFLGS then Val (Error EMSGSIZE, dst)
          else
            dst ← write_at dst dn [c];
            let dn := S dn in
            if labellen c <? 0 then Val (Error EMSGSIZE, dst)
            else if Z.of_nat (length dst) <=? Z.of_nat dn + labellen c then Val (Error EMSGSIZE, dst)
            else ntol_loop cp (Z.to_nat (labellen c)) dst dn
      | S l => dst ← write_at dst dn [mklower c]; ntol_loop cp l dst (S dn)
      end
  end.

Definition ns_name_ntol (src dst : list Z) : outcome (answer * list Z) :=
  if (length dst <=? 0)%nat then Val (Error EMSGSIZE, dst) else ntol_loop src 0 dst 0.

(** [ptrs] is the array from [dnptrs] to [lastdnptr]. *)
Fixpoint ns_name_rollback (src : nat) (ptrs : list (option nat)) : list (option nat) :=
  match ptrs with
  | Some p :: rest => if (src <=? p)%nat then None :: rest else Some p :: ns_name_rollback src rest
  | _ => ptrs
  end.

(** ** Names as text *)

(** [TOLOWER] in the C locale is [mklower]. *)
Fixpoint strcasecmp (p1 p2 : list Z) : outcome Z :=
  match p1, p2 with
  | c1 :: p1, c2 :: p2 =>
      let result := mklower c1 - mklower c2 in
      if negb (result =? 0) then Val result else if c1 =? 0 then Val result else strcasecmp p1 p2
  | _, _ => Fault
  end.

Fixpoint strncasecmp (p1 p2 : list Z) (n : nat) : outcome Z :=
  match n with
  | O => Val 0
  | S n =>
      match p1, p2 with
      | c1 :: p1, c2 :: p2 =>
          let result := mklower c1 - mklower c2 in
          if negb (result =? 0) then Val result else if c1 =? 0 then Val result else strncasecmp p1 p2 n
      | _, _ => Fault
      end
  end.

(** [while (n >= 1U && dst[n - 1] == '.')]. *)
Fixpoint strip_dots (n : nat) (dst : list Z) : outcome (nat * list Z) :=
  match n with
  | O => Val (O, dst)
  | S k =>
      c ← rd dst k;
      if c =? DOT then
        escaped ← (if (2 <=? n)%nat then
                     b ← rd dst (n - 2);
                     if b =? BACKSLASH then
                       if (n <? 3)%nat then Val true else b' ← rd dst (n - 3); Val (negb (b' =? BACKSLASH))
                     else Val false
                   else Val false);
        if escaped : bool then Val (n, dst)
        else dst ← write_at dst k [0]; strip_dots k dst
      else Val (n, dst)
  end.

Definition ns_makecanon (src dst : list Z) : outcome (answer * list Z) :=
  n ← strlen src;
  if (length dst <? n + 2)%nat then Val (Error EMSGSIZE, dst)
  else
    bs ← read_n src (S n);
    dst ← write_at dst 0 bs;
    r ← strip_dots n dst;
    dst ← write_at r.2 r.1 [DOT];
    dst ← write_at dst (S r.1) [0];
    Val (Ok 0, dst).

(** [ta] and [tb] are the uninitialised arrays of [NS_MAXDNAME] bytes. *)
Definition ns_samename (a b ta tb : list Z) : outcome Z :=
  ra ← ns_makecanon a ta;
  match ra.1 with
  | Error _ => Val (-1)
  | Ok _ =>
      rb ← ns_makecanon b tb;
      match rb.1 with
      | Error _ => Val (-1)
      | Ok _ => d ← strcasecmp ra.2 rb.2; Val (if d =? 0 then 1 else 0)
      end
  end.

(** The loop over the backslashes that end before position [i]. *)
Fixpoint escaped_at (a : list Z) (i : nat) (escaped : bool) : outcome bool :=
  match i with
  | O => Val escaped
  | S i => c ← rd a i; if c =? BACKSLASH then escaped_at a i (negb escaped) else Val escaped
  end.

(** The length without a trailing dot that is not escaped. *)
Definition undotted (a : list Z) (la : nat) : outcome nat :=
  match la with
  | O => Val O
  | S k =>
      c ← rd a k;
      if c =? DOT then escaped ← escaped_at a k false; Val (if escaped : bool then la else k) else Val la
  end.

Definition ns_samedomain (a b : list Z) : outcome bool :=
  la ← strlen a;
  lb ← strlen b;
  la ← undotted a la;
  lb ← undotted b lb;
  if (lb =? 0)%nat then Val true
  else if (la <? lb)%nat then Val false
  else if (lb =? la)%nat then d ← strncasecmp a b lb; Val (d =? 0)
  else
    let diff := (la - lb)%nat in
    if (diff <? 2)%nat then Val false
    else
      c ← rd a (diff - 1);
      if negb (c =? DOT) then Val false
      else
        escaped ← escaped_at a (diff - 1) false;
        if escaped : bool then Val false
        else d ← strncasecmp (drop diff a) b lb; Val (d =? 0).

Definition ns_subdomain (a b ta tb : list Z) : outcome bool :=
  same ← ns_samename a b ta tb;
  if negb (same =? 1) then ns_samedomain a b else Val false.
End NsName.
