(* ===== verification/NsWire.v ===== *)
(** * Domain names in messages: correctness of packing and unpacking

    [name_at] says what a compressed name denotes: labels, the root, or a
    pointer to the rest.  [ns_name_unpack] is exact for it on every message,
    faults on none and always ends, also when pointers form a cycle.  Names
    that [ns_name_pack] writes are [wired]: every pointer leads to a part of
    the message that ends before the part with the pointer begins.  That
    holds again after each call, so that what was packed can be unpacked, up
    to the case of letters. *)

From S2P Require Import Prelude CString NsName.
Local Open Scope Z_scope.

Module NsWire.
Import CString NsName.

(** ** Labels *)

Definition label_ok (l : list Z) : Prop := (1 <= length l < 64)%nat ∧ bytes_ok l.

(** The wire format without compression. *)
Definition enc_label (l : list Z) : list Z := Z.of_nat (length l) :: l.
Fixpoint enc (ls : list (list Z)) : list Z :=
  match ls with
  | [] => [0]
  | l :: ls => enc_label l ++ enc ls
  end.

Lemma enc_nonempty ls : (1 <= length (enc ls))%nat.
Proof. destruct ls; cbn; lia. Qed.

Lemma enc_cons l ls : length (enc (l :: ls)) = (S (length l) + length (enc ls))%nat.
Proof. cbn. by rewrite length_app. Qed.

(** ** Bytes *)

Lemma flags_label n : 0 <= n < 64 → (Z.land n NS_CMPRSFLGS =? 0) = true.
Proof.
  intros Hn. assert (Forall (λ n, (Z.land n NS_CMPRSFLGS =? 0) = true) (seqZ 0 64)) as H by (apply (bool_decide_unpack _); by vm_compute).
  rewrite Forall_forall in H. apply H, elem_of_seqZ. lia.
Qed.

Lemma flags_pointer n :
  192 <= n < 256 → (Z.land n NS_CMPRSFLGS =? 0) = false ∧ (Z.land n NS_CMPRSFLGS =? NS_CMPRSFLGS) = true.
Proof.
  intros Hn. assert (Forall (λ n, (Z.land n NS_CMPRSFLGS =? 0) = false ∧ (Z.land n NS_CMPRSFLGS =? NS_CMPRSFLGS) = true) (seqZ 192 64)) as H.
  { apply (bool_decide_unpack _). by vm_compute. }
  rewrite Forall_forall in H. apply H, elem_of_seqZ. lia.
Qed.

Lemma flags_illegal n :
  64 <= n < 192 → (Z.land n NS_CMPRSFLGS =? 0) = false ∧ (Z.land n NS_CMPRSFLGS =? NS_CMPRSFLGS) = false.
Proof.
  intros Hn. assert (Forall (λ n, (Z.land n NS_CMPRSFLGS =? 0) = false ∧ (Z.land n NS_CMPRSFLGS =? NS_CMPRSFLGS) = false) (seqZ 64 128)) as H.
  { apply (bool_decide_unpack _). by vm_compute. }
  rewrite Forall_forall in H. apply H, elem_of_seqZ. lia.
Qed.

Lemma target_value n lo : 192 <= n < 256 → 0 <= lo < 256 → target n lo = Z.to_nat ((n - 192) * 256 + lo).
Proof.
  intros Hn Hl. unfold target. f_equal. change 0x3f with (Z.ones 6). rewrite Z.land_ones by lia.
  rewrite Z.shiftl_mul_pow2, (lor_low 8) by lia. f_equal. f_equal. change (2 ^ 6) with 64.
  rewrite <- (Z.mod_add _ (-3) 64) by lia. rewrite Z.mod_small by lia. lia.
Qed.

(** ** What a compressed name denotes *)

(** The name at offset [o]: its labels, the bytes it takes at [o], and the
    bytes that are read up to and including the last pointer. *)
Inductive name_at (m : list Z) : nat → list (list Z) → nat → nat → Prop :=
  | at_root o : m !! o = Some 0 → name_at m o [] 1 0
  | at_label o l ls k c :
      m !! o = Some (Z.of_nat (length l)) → (1 <= length l < 64)%nat → l = take (length l) (drop (S o) m) →
      name_at m (S o + length l) ls k c →
      name_at m o (l :: ls) (S (length l) + k) (if decide (c = 0%nat) then 0 else S (length l) + c)
  | at_pointer o n lo ls k c :
      m !! o = Some n → 192 <= n → m !! S o = Some lo → name_at m (target n lo) ls k c →
      name_at m o ls 2 (2 + c).

Lemma name_at_lt m o ls k c : name_at m o ls k c → (o < length m)%nat.
Proof. destruct 1 as [? H|? ? ? ? ? H|? ? ? ? ? ? H]; by apply lookup_lt_Some in H. Qed.

(** ** [ns_name_unpack] *)

Lemma write_at_app w r bs : (length bs <= length r)%nat → write_at (w ++ r) (length w) bs = Val (w ++ bs ++ drop (length bs) r).
Proof.
  intros H. unfold write_at. rewrite length_app, (proj2 (Nat.leb_le _ _)) by lia.
  rewrite take_app_length. by rewrite drop_app_add.
Qed.

Lemma read_slice m o n : (o + n <= length m)%nat → read_n (drop o m) n = Val (take n (drop o m)).
Proof. intros H. unfold read_n. rewrite length_drop, (proj2 (Nat.leb_le _ _)) by lia. done. Qed.

Definition result_len (len : Z) (src end_ : nat) : Z := if len <? 0 then Z.of_nat end_ - Z.of_nat src else len.

Section unpack.
Variables (m : list Z) (src : nat).
Hypothesis m_bytes : bytes_ok m.

Lemma m_byte i b : m !! i = Some b → 0 <= b < 256.
Proof using m_bytes. intros H. by apply (Forall_lookup_1 _ _ _ _ m_bytes H). Qed.

(** One round at a label. *)
Lemma unpack_label fuel w r srcp n len checked :
  m !! srcp = Some n → 0 < n < 64 →
  unpack_loop (S fuel) m src srcp (w ++ r) (length w) len checked =
  if (length r <=? Z.to_nat n + 1)%nat || (length m - S srcp <=? Z.to_nat n)%nat then Val (Error EMSGSIZE, w ++ r)
  else
    let l := take (Z.to_nat n) (drop (S srcp) m) in
    unpack_loop fuel m src (S srcp + Z.to_nat n) ((w ++ enc_label l) ++ drop (S (Z.to_nat n)) r) (length (w ++ enc_label l)) len (checked + (n + 1)).
Proof using.
  intros E Hn. pose proof (lookup_lt_Some _ _ _ E) as Hlt. cbn [unpack_loop]. unfold rd. rewrite E. cbn [deref mbind outcome_bind].
  rewrite (proj2 (Z.eqb_neq n 0)), flags_label, (proj2 (Z.leb_gt 64 n)) by lia. rewrite length_app.
  replace (Z.of_nat (length w + length r) - Z.of_nat (length w) <=? n + 1) with (length r <=? Z.to_nat n + 1)%nat
    by (apply eq_bool_prop_intro; rewrite !Is_true_true, Nat.leb_le, Z.leb_le; lia).
  replace (Z.of_nat (length m) - Z.of_nat (S srcp) <=? n) with (length m - S srcp <=? Z.to_nat n)%nat
    by (apply eq_bool_prop_intro; rewrite !Is_true_true, Nat.leb_le, Z.leb_le; lia).
  destruct (Nat.leb_spec (length r) (Z.to_nat n + 1)) as [?|Hr]; cbn [orb]; [done|].
  destruct (Nat.leb_spec (length m - S srcp) (Z.to_nat n)) as [?|Hm]; [done|]. cbv zeta.
  rewrite write_at_app by (cbn; lia). cbn [mbind outcome_bind]. rewrite read_slice by lia. cbn [mbind outcome_bind].
  set (l := take (Z.to_nat n) (drop (S srcp) m)).
  assert (length l = Z.to_nat n) as Hl by (unfold l; rewrite length_take, length_drop; lia).
  replace (w ++ [n] ++ drop (length [n]) r) with ((w ++ [n]) ++ drop 1 r) by (by rewrite <- (assoc (++))).
  replace (S (length w)) with (length (w ++ [n])) by (rewrite length_app; cbn; lia).
  rewrite write_at_app by (rewrite length_drop; lia). cbn [mbind outcome_bind].
  assert (w ++ enc_label l = (w ++ [n]) ++ l) as -> by (unfold enc_label; rewrite Hl, Z2Nat.id by lia; by rewrite <- (assoc (++))).
  f_equal; [|rewrite !length_app; cbn; lia].
  rewrite drop_drop, Hl, <- (assoc (++) (w ++ [n])). done.
Qed.

Lemma unpack_root fuel w r srcp len checked :
  m !! srcp = Some 0 → r ≠ [] →
  unpack_loop (S fuel) m src srcp (w ++ r) (length w) len checked = Val (Ok (result_len len src (srcp + 1)), w ++ [0] ++ drop 1 r).
Proof using.
  intros E Hr. cbn [unpack_loop]. unfold rd. rewrite E. cbn [deref mbind outcome_bind]. rewrite Z.eqb_refl.
  rewrite write_at_app by (destruct r; [done|cbn; lia]). cbn [mbind outcome_bind]. unfold result_len.
  replace (Z.of_nat (S srcp)) with (Z.of_nat (srcp + 1)) by lia. done.
Qed.

(** One round at a pointer. *)
Lemma unpack_pointer fuel dst dstp srcp n len checked :
  m !! srcp = Some n → 192 <= n < 256 →
  unpack_loop (S fuel) m src srcp dst dstp len checked =
  match m !! S srcp with
  | None => Val (Error EMSGSIZE, dst)
  | Some lo =>
      if (length m <=? target n lo)%nat || (Z.of_nat (length m) <=? checked + 2) then Val (Error EMSGSIZE, dst)
      else unpack_loop fuel m src (target n lo) dst dstp (result_len len src (srcp + 2)) (checked + 2)
  end.
Proof using.
  intros E Hn. cbn [unpack_loop]. unfold rd. rewrite E. cbn [deref mbind outcome_bind].
  destruct (flags_pointer n Hn) as [-> ->]. rewrite (proj2 (Z.eqb_neq n 0)) by lia.
  destruct (m !! S srcp) as [lo|] eqn:El.
  - apply lookup_lt_Some in El as Hlt. rewrite (proj2 (Z.leb_gt _ _)) by lia. cbn [deref mbind outcome_bind].
    replace (Z.of_nat (length m) <=? Z.of_nat (target n lo)) with (length m <=? target n lo)%nat
      by (apply eq_bool_prop_intro; rewrite !Is_true_true, Nat.leb_le, Z.leb_le; lia).
    destruct (length m <=? target n lo)%nat; [done|]. cbn [orb]. destruct (_ <=? checked + 2); [done|].
    f_equal. unfold result_len. destruct (len <? 0); lia.
  - apply lookup_ge_None in El. by rewrite (proj2 (Z.leb_le _ _)) by lia.
Qed.

Lemma unpack_illegal fuel dst dstp srcp n len checked :
  m !! srcp = Some n → 64 <= n < 192 → unpack_loop (S fuel) m src srcp dst dstp len checked = Val (Error EMSGSIZE, dst).
Proof using.
  intros E Hn. cbn [unpack_loop]. unfold rd. rewrite E. cbn [deref mbind outcome_bind].
  destruct (flags_illegal n Hn) as [-> ->]. by rewrite (proj2 (Z.eqb_neq n 0)) by lia.
Qed.

(** What is left to do; it decreases in every round. *)
Definition budget (checked : Z) (r : list Z) : nat := (Z.to_nat (Z.of_nat (length m) - checked) + length r)%nat.

Lemma result_len_pointer len srcp e : (len < 0 → (src <= srcp)%nat) → result_len (result_len len src (srcp + 2)) src e = result_len len src (srcp + 2).
Proof using.
  intros H. unfold result_len. destruct (Z.ltb_spec len 0) as [Hl|Hl]; [|by rewrite (proj2 (Z.ltb_ge _ _))].
  specialize (H Hl). by rewrite (proj2 (Z.ltb_ge _ _)) by lia.
Qed.

Lemma result_len_nonneg len srcp : (len < 0 → (src <= srcp)%nat) → ¬ result_len len src (srcp + 2) < 0.
Proof using. intros H. unfold result_len. destruct (Z.ltb_spec len 0) as [Hl|Hl]; [specialize (H Hl)|]; lia. Qed.

Lemma unpack_sound fuel w r srcp len checked :
  (srcp < length m)%nat → r ≠ [] → 0 <= checked → (len < 0 → (src <= srcp)%nat) → (budget checked r < fuel)%nat →
  ∃ ans dst', unpack_loop fuel m src srcp (w ++ r) (length w) len checked = Val (ans, dst') ∧ length dst' = length (w ++ r) ∧
    match ans with
    | Error e => e = EMSGSIZE
    | Ok v => ∃ ls k c, name_at m srcp ls k c ∧ (length (enc ls) <= length r)%nat ∧
        dst' = w ++ enc ls ++ drop (length (enc ls)) r ∧ v = result_len len src (srcp + k)
    end.
Proof using m_bytes.
  revert w r srcp len checked. induction fuel as [|fuel IH]; intros w r srcp len checked Hs Hr Hc Hlen Hf; [lia|].
  destruct (lookup_lt_is_Some_2 m srcp Hs) as [n En]. pose proof (m_byte srcp n En) as Hn.
  destruct (decide (n = 0)) as [->|Hn0].
  { rewrite unpack_root by done. eexists _, _. split; [done|]. split; [destruct r; [done|]; rewrite !length_app, length_drop; cbn [length]; lia|].
    exists [], 1%nat, 0%nat. split_and!; [by constructor|destruct r; [done|cbn; lia]|done|done]. }
  destruct (decide (n < 64)) as [Hlab|Hlab].
  { rewrite (unpack_label fuel w r srcp n) by (done || lia).
    destruct (Nat.leb_spec (length r) (Z.to_nat n + 1)) as [?|Hr']; cbn [orb]; [eexists _, _; split; [done|]; done|].
    destruct (Nat.leb_spec (length m - S srcp) (Z.to_nat n)) as [?|Hm]; [eexists _, _; split; [done|]; done|]. cbv zeta.
    set (l := take (Z.to_nat n) (drop (S srcp) m)).
    assert (length l = Z.to_nat n) as Hl by (unfold l; rewrite length_take, length_drop; lia).
    destruct (IH (w ++ enc_label l) (drop (S (Z.to_nat n)) r) (S srcp + Z.to_nat n)%nat len (checked + (n + 1))) as (ans & dst' & -> & Hd & Hans).
    { lia. } { intros E. apply (f_equal length) in E. rewrite length_drop in E. cbn in E. lia. } { lia. } { intros H. specialize (Hlen H). lia. }
    { unfold budget in *. rewrite length_drop. lia. }
    eexists _, _. split; [done|]. split; [rewrite Hd, !length_app, length_drop; cbn [length enc_label]; rewrite Hl; lia|].
    destruct ans as [v|e]; [|done]. destruct Hans as (ls & k & c & Hna & Hfit & -> & ->). rewrite length_drop in Hfit.
    eexists (l :: ls), _, _. split_and!.
    - apply at_label; [rewrite Hl, Z2Nat.id by lia; done|lia|by rewrite Hl|rewrite Hl; exact Hna].
    - rewrite enc_cons. lia.
    - rewrite enc_cons. change (enc (l :: ls)) with (enc_label l ++ enc ls). rewrite <- !(assoc (++)), drop_drop, Hl. done.
    - f_equal. lia. }
  destruct (decide (n < 192)) as [Hill|Hptr].
  { rewrite (unpack_illegal fuel _ _ srcp n) by (done || lia). eexists _, _. by split. }
  rewrite (unpack_pointer fuel _ _ srcp n) by (done || lia). destruct (m !! S srcp) as [lo|] eqn:El; [|eexists _, _; by split].
  destruct (Nat.leb_spec (length m) (target n lo)) as [?|Ht]; cbn [orb]; [eexists _, _; by split|].
  destruct (Z.leb_spec (Z.of_nat (length m)) (checked + 2)) as [?|Hck]; [eexists _, _; by split|].
  destruct (IH w r (target n lo) (result_len len src (srcp + 2)) (checked + 2)) as (ans & dst' & -> & Hd & Hans).
  { done. } { done. } { lia. } { intros H. exfalso. by apply (result_len_nonneg len srcp Hlen). }
  { unfold budget in *. lia. }
  eexists _, _. split; [done|]. split; [done|]. destruct ans as [v|e]; [|done]. destruct Hans as (ls & k & c & Hna & Hfit & -> & ->).
  eexists ls, _, _. split_and!; [by eapply at_pointer; [exact En|lia|exact El|exact Hna]|done|done|]. by apply result_len_pointer.
Qed.

Lemma unpack_complete fuel w r srcp len checked ls k c :
  name_at m srcp ls k c → (length (enc ls) <= length r)%nat → 0 <= checked → (len < 0 → (src <= srcp)%nat) →
  (c = 0%nat ∨ checked + Z.of_nat c < Z.of_nat (length m)) → (budget checked r < fuel)%nat →
  unpack_loop fuel m src srcp (w ++ r) (length w) len checked
  = Val (Ok (result_len len src (srcp + k)), w ++ enc ls ++ drop (length (enc ls)) r).
Proof using m_bytes.
  intros Hna. revert fuel w r len checked. induction Hna as [o E|o l ls k c E Hl El Hna IH|o n lo ls k c E Hn El Hna IH];
    intros fuel w r len checked Hfit Hc Hlen Hck Hf; (destruct fuel as [|fuel]; [lia|]).
  - rewrite unpack_root by (done || (intros ->; cbn in Hfit; lia)). done.
  - pose proof (enc_nonempty ls). rewrite enc_cons in Hfit. pose proof (name_at_lt _ _ _ _ _ Hna) as Hlt.
    rewrite (unpack_label fuel w r o (Z.of_nat (length l))) by (done || lia). rewrite Nat2Z.id.
    rewrite (proj2 (Nat.leb_gt _ _)), (proj2 (Nat.leb_gt (length m - S o) _)) by lia. cbn [orb]. rewrite <- El. cbv zeta.
    rewrite IH; [|rewrite length_drop; lia|lia|intros H0; specialize (Hlen H0); lia| |unfold budget in *; rewrite length_drop; lia].
    + rewrite enc_cons. change (enc (l :: ls)) with (enc_label l ++ enc ls). rewrite <- !(assoc (++)), drop_drop.
      by replace (S o + length l + k)%nat with (o + (S (length l) + k))%nat by lia.
    + destruct (decide (c = 0%nat)); [by left|]. right. destruct Hck as [?|?]; lia.
  - pose proof (m_byte o n E). pose proof (name_at_lt _ _ _ _ _ Hna) as Hlt.
    rewrite (unpack_pointer fuel _ _ o n) by (done || lia). rewrite El, (proj2 (Nat.leb_gt _ _)), (proj2 (Z.leb_gt _ _)) by lia. cbn [orb].
    rewrite IH; [|done|lia| | |unfold budget in *; lia].
    + by rewrite result_len_pointer.
    + intros H0. exfalso. by apply (result_len_nonneg len o Hlen).
    + destruct (decide (c = 0%nat)); [by left|]. right. lia.
Qed.
End unpack.

(** ** Names whose pointers lead backwards *)

(** The name at [o], in a part of the message that starts at [s]; it ends
    before [e] there. *)
Inductive wired (m : list Z) : nat → nat → list (list Z) → nat → Prop :=
  | wired_root s o : m !! o = Some 0 → wired m s o [] (S o)
  | wired_label s o l ls e :
      m !! o = Some (Z.of_nat (length l)) → (1 <= length l < 64)%nat → l = take (length l) (drop (S o) m) →
      wired m s (S o + length l) ls e → wired m s o (l :: ls) e
  | wired_pointer s o n lo ls e :
      m !! o = Some n → 192 <= n → m !! S o = Some lo → wired m (target n lo) (target n lo) ls e → (e <= s)%nat →
      wired m s o ls (o + 2).

Lemma wired_bounds m s o ls e : wired m s o ls e → (o < e <= length m)%nat.
Proof.
  induction 1 as [s o E|s o l ls e E Hl El _ IH|s o n lo ls e E Hn El _ IH He].
  - apply lookup_lt_Some in E. lia.
  - lia.
  - apply lookup_lt_Some in El. lia.
Qed.

Lemma wired_mono m s s' o ls e : wired m s o ls e → (s <= s')%nat → wired m s' o ls e.
Proof.
  intros H. revert s'. induction H as [s o E|s o l ls e E Hl El _ IH|s o n lo ls e E Hn El H _ He]; intros s' Hs.
  - by constructor.
  - apply wired_label; [done|done|done|by apply IH].
  - by eapply wired_pointer; [done|done|done|exact H|lia].
Qed.

(** Only the bytes before the end matter. *)
Lemma wired_agree m m' s o ls e :
  wired m s o ls e → (s <= o)%nat → (∀ i, (i < e)%nat → m' !! i = m !! i) → wired m' s o ls e.
Proof.
  induction 1 as [s o E|s o l ls e E Hl El H IH|s o n lo ls e E Hn El H IH He]; intros Hs Ha.
  - apply wired_root. rewrite Ha by lia. done.
  - pose proof (wired_bounds _ _ _ _ _ H). apply wired_label.
    + rewrite Ha by lia. done.
    + done.
    + rewrite El at 1. apply list_eq. intros i. destruct (decide (i < length l)%nat).
      * rewrite !lookup_take, !lookup_drop by lia. rewrite !decide_True by done. symmetry. apply Ha. lia.
      * rewrite !lookup_take_ge by lia. done.
    + apply IH; [lia|done].
  - eapply wired_pointer; [rewrite Ha by lia; done|done|rewrite Ha by lia; done| |done].
    apply IH; [done|]. intros i Hi. apply Ha. lia.
Qed.

Lemma wired_name_at m s o ls e :
  wired m s o ls e → (s <= o)%nat → ∃ c, name_at m o ls (e - o) c ∧ (c = 0%nat ∨ (1 <= s)%nat ∧ (c <= e - o + (s - 1))%nat).
Proof.
  induction 1 as [s o E|s o l ls e E Hl El H IH|s o n lo ls e E Hn El H IH He]; intros Hs.
  - exists 0%nat. replace (S o - o)%nat with 1%nat by lia. split; [by constructor|by left].
  - pose proof (wired_bounds _ _ _ _ _ H). destruct (IH ltac:(lia)) as (c & Hc & Hb).
    exists (if decide (c = 0%nat) then 0 else S (length l) + c)%nat.
    replace (e - o)%nat with (S (length l) + (e - (S o + length l)))%nat by lia. split; [by apply at_label|].
    destruct (decide (c = 0%nat)); [by left|]. right. destruct Hb as [?|[? ?]]; [done|]. lia.
  - pose proof (wired_bounds _ _ _ _ _ H). destruct (IH ltac:(lia)) as (c & Hc & Hb). exists (2 + c)%nat.
    replace (o + 2 - o)%nat with 2%nat by lia. split; [by eapply at_pointer|]. right. destruct Hb as [->|[? ?]]; lia.
Qed.

(** Such a name is unpacked. *)
Lemma wired_unpack m o ls e dst :
  bytes_ok m → wired m o o ls e → (length (enc ls) <= length dst)%nat →
  ns_name_unpack m (Z.of_nat o) dst = Val (Ok (Z.of_nat (e - o)), enc ls ++ drop (length (enc ls)) dst).
Proof.
  intros Hm H Hfit. pose proof (wired_bounds _ _ _ _ _ H). destruct (wired_name_at _ _ _ _ _ H ltac:(lia)) as (c & Hc & Hb).
  unfold ns_name_unpack. rewrite (proj2 (Z.ltb_ge _ _)), (proj2 (Z.leb_gt _ _)) by lia. cbn [orb]. rewrite Nat2Z.id.
  rewrite (unpack_complete m o Hm _ [] dst o (-1) 0 ls (e - o) c); [|done|done|lia|lia|destruct Hb as [->|[? ?]]; [by left|right; lia]|unfold budget; lia].
  cbn [app]. unfold result_len. cbn [Z.ltb Z.compare]. do 3 f_equal. lia.
Qed.

(** ** The search for a suffix *)

(** Equal up to the case of letters. *)
Definition same_label (a b : list Z) : Prop := mklower <$> a = mklower <$> b.
#[export] Instance same_label_dec a b : Decision (same_label a b).
Proof. unfold same_label. apply _. Defined.
Definition same_names (ls ls' : list (list Z)) : Prop := Forall2 same_label ls ls'.

Lemma same_bytes_spec n m l t cp :
  length l = n → (cp + n <= length m)%nat →
  same_bytes n m (l ++ t) cp = Val (bool_decide (same_label (take n (drop cp m)) l)).
Proof.
  revert l cp. induction n as [|n IH]; intros l cp Hl Hm.
  - apply nil_length_inv in Hl as ->. done.
  - destruct l as [|a l]; [done|]. injection Hl as Hl. cbn [same_bytes app head tail]. cbn [deref mbind outcome_bind]. unfold rd.
    destruct (lookup_lt_is_Some_2 m cp ltac:(lia)) as [b Eb]. rewrite Eb. cbn [deref mbind outcome_bind].
    rewrite (drop_S m b cp Eb). cbn [take]. unfold same_label. cbn [fmap list_fmap].
    destruct (Z.eqb_spec (mklower a) (mklower b)) as [E|E].
    + rewrite IH by lia. f_equal. apply bool_decide_ext. unfold same_label. split; [intros ->; by rewrite E|by intros [= _ ->]].
    + f_equal. symmetry. apply bool_decide_eq_false_2. intros [= H _]. done.
Qed.

Section find.
Variables (m : list Z) (D : list (list Z)) (t : list Z).
Hypothesis m_bytes : bytes_ok m.
Hypothesis D_ok : Forall label_ok D.

Lemma same_name_spec fuel s cp ls e D' :
  wired m s cp ls e → (s <= cp)%nat → Forall label_ok D' → D' ≠ [] → (length (enc D') + s < fuel)%nat →
  ∃ r, same_name fuel m 0 (enc D' ++ t) cp = Val r ∧ r ≠ Illegal ∧ (r = Same → same_names ls D').
Proof using m_bytes.
  intros H. revert fuel D'. induction H as [s o E|s o l ls e E Hl El H IH|s o n lo ls e E Hn El H IH He];
    intros fuel D' Hs HD Hne Hf; (destruct fuel as [|fuel]; [lia|]); cbn [same_name]; unfold rd; rewrite E; cbn [deref mbind outcome_bind].
  - rewrite Z.eqb_refl. by exists Different.
  - rewrite (proj2 (Z.eqb_neq _ _)), flags_label by lia. destruct D' as [|d D']; [done|]. apply Forall_cons in HD as [[Hd _] HD].
    cbn [enc enc_label app head tail]. cbn [deref mbind outcome_bind]. rewrite Nat2Z.id. rewrite enc_cons in Hf.
    destruct (Z.eqb_spec (Z.of_nat (length l)) (Z.of_nat (length d))) as [Elen|]; cbn [negb]; [|by exists Different].
    apply Nat2Z.inj in Elen. pose proof (wired_bounds _ _ _ _ _ H) as Hb. rewrite <- !app_assoc.
    rewrite same_bytes_spec by (done || lia). rewrite <- El. cbn [mbind outcome_bind].
    destruct (bool_decide_reflect (same_label l d)) as [Hsame|]; cbn [negb]; [|by exists Different].
    cbn [drop]. rewrite Elen, drop_app_length. destruct D' as [|d' D'].
    + cbn [enc app head]. cbn [deref mbind outcome_bind]. rewrite Z.eqb_refl. cbn [negb].
      destruct (lookup_lt_is_Some_2 m (S o + length d)%nat ltac:(lia)) as [c Ec]. rewrite Ec. cbn [deref mbind outcome_bind].
      destruct (Z.eqb_spec c 0) as [->|]; [|by exists Different]. exists Same. split; [done|]. split; [done|]. intros _.
      assert (ls = []) as -> by (rewrite Elen in H; inversion H; [done|rewrite Ec in *; simplify_eq; lia|rewrite Ec in *; simplify_eq; lia]).
      by constructor.
    + assert (head (enc (d' :: D') ++ t) = Some (Z.of_nat (length d'))) as -> by done. cbn [deref mbind outcome_bind].
      apply Forall_cons in HD as HD'. destruct HD' as [[Hd' _] _]. rewrite (proj2 (Z.eqb_neq _ _)) by lia. cbn [negb].
      rewrite <- Elen. destruct (IH fuel (d' :: D') ltac:(lia) HD ltac:(done) ltac:(lia)) as (r & -> & Hi & Hr).
      exists r. split; [done|]. split; [done|]. intros Er. constructor; [done|by apply Hr].
  - pose proof (m_byte m m_bytes o n E) as Hnb. destruct (flags_pointer n) as [-> ->]; [lia|].
    rewrite (proj2 (Z.eqb_neq _ _)) by lia. rewrite El. cbn [deref mbind outcome_bind Nat.add].
    pose proof (wired_bounds _ _ _ _ _ H). by apply IH; [|done|done|lia].
Qed.

(** An entry: a name that ends before [lim]. *)
Definition entry (lim : nat) (p : option nat) : Prop := ∃ o ls e, p = Some o ∧ wired m o o ls e ∧ (e <= lim)%nat.

(** An answer of the search: a place where the name [D] can be found. *)
Definition found (lim : nat) (a : answer) : Prop :=
  match a with
  | Ok v => ∃ o ls e, v = Z.of_nat o ∧ v < 0x4000 ∧ wired m o o ls e ∧ (e <= lim)%nat ∧ same_names ls D
  | Error e => e = ENOENT
  end.

Lemma find_suffix_spec fuel s o ls e lim :
  wired m s o ls e → (s <= o)%nat → (e <= lim)%nat → D ≠ [] → (length m - o < fuel)%nat →
  ∃ a, find_suffix fuel m 0 (enc D ++ t) o = Val a ∧ found lim a.
Proof using m_bytes D_ok.
  intros H. revert fuel. induction H as [s o E|s o l ls e E Hl El H IH|s o n lo ls e E Hn El H IH He];
    intros fuel Hs Hlim HD Hf; (destruct fuel as [|fuel]; [lia|]); cbn [find_suffix]; unfold rd; rewrite E; cbn [deref mbind outcome_bind].
  - rewrite Z.eqb_refl. cbn [negb andb]. by eexists.
  - rewrite (proj2 (Z.eqb_neq _ _)), flags_label by lia. cbn [negb andb].
    destruct (Z.ltb_spec (Z.of_nat o - Z.of_nat 0) 0x4000) as [Ho|]; [|by eexists].
    assert (wired m o o (l :: ls) e) as Hw by (apply wired_label; [done..|]; eapply wired_mono; [exact H|lia]).
    pose proof (wired_bounds _ _ _ _ _ Hw). rewrite Nat2Z.id.
    destruct (same_name_spec (S (length m + length (enc D ++ t))) o o (l :: ls) e D Hw ltac:(lia) D_ok HD) as (r & -> & Hi & Hr).
    { rewrite length_app. lia. }
    cbn [mbind outcome_bind]. destruct r; [| |done].
    + eexists. split; [done|]. exists o, (l :: ls), e. split_and!; [lia|lia|done|done|by apply Hr].
    + replace (o + length l + 1)%nat with (S o + length l)%nat by lia. apply IH; [lia|done|done|lia].
  - pose proof (m_byte m m_bytes o n E) as Hnb. destruct (flags_pointer n) as [-> _]; [lia|].
    rewrite andb_false_r. cbn [andb]. by eexists.
Qed.

Lemma dn_find_spec lim ptrs :
  Forall (entry lim) ptrs → D ≠ [] → ∃ a, dn_find m 0 (enc D ++ t) ptrs = Val a ∧ found lim a.
Proof using m_bytes D_ok.
  intros Hp HD. induction Hp as [|p ptrs (o & ls & e & -> & Hw & He) Hp IH]; [by eexists|]. cbn [dn_find deref mbind outcome_bind].
  pose proof (wired_bounds _ _ _ _ _ Hw).
  destruct (find_suffix_spec (S (length m)) o o ls e lim Hw ltac:(lia) He HD ltac:(lia)) as (a & -> & Ha). cbn [mbind outcome_bind].
  destruct a as [v|e']; [by eexists|]. cbn in Ha. rewrite Ha, Z.eqb_refl. exact IH.
Qed.
End find.

(** ** [ns_name_pack] *)

Definition splice (m : list Z) (i : nat) (bs : list Z) : list Z := take i m ++ bs ++ drop (i + length bs) m.

Lemma write_splice m i bs : (i + length bs <= length m)%nat → write_at m i bs = Val (splice m i bs).
Proof. intros H. unfold write_at. by rewrite (proj2 (Nat.leb_le _ _)). Qed.

Section splice.
Variables (m : list Z) (i : nat) (bs : list Z).
Hypothesis fits : (i + length bs <= length m)%nat.

Lemma splice_length : length (splice m i bs) = length m.
Proof using fits. unfold splice. rewrite !length_app, length_take, length_drop. lia. Qed.

Lemma splice_before j : (j < i)%nat → splice m i bs !! j = m !! j.
Proof using fits. intros H. unfold splice. rewrite lookup_app_l by (rewrite length_take; lia). by rewrite lookup_take, decide_True by lia. Qed.

Lemma splice_after j : (i + length bs <= j)%nat → splice m i bs !! j = m !! j.
Proof using fits.
  intros H. unfold splice. rewrite lookup_app_r by (rewrite length_take; lia). rewrite length_take.
  rewrite lookup_app_r by lia. rewrite lookup_drop. f_equal. lia.
Qed.

Lemma splice_at j : (j < length bs)%nat → splice m i bs !! (i + j)%nat = bs !! j.
Proof using fits.
  intros H. unfold splice. rewrite lookup_app_r by (rewrite length_take; lia). rewrite length_take, lookup_app_l by lia. f_equal. lia.
Qed.

Lemma splice_bytes : bytes_ok m → bytes_ok bs → bytes_ok (splice m i bs).
Proof using. intros Hm Hb. unfold bytes_ok, splice. apply Forall_app. split; [by apply Forall_take|]. apply Forall_app. split; [done|by apply Forall_drop]. Qed.
End splice.

(** The two bytes of a pointer. *)
Lemma pointer_bytes o :
  Z.of_nat o < 0x4000 →
  let hi := wrapu 8 (Z.lor (Z.shiftr (Z.of_nat o) 8) NS_CMPRSFLGS) in
  let lo := Z.of_nat o mod 256 in
  192 <= hi < 256 ∧ 0 <= lo < 256 ∧ target hi lo = o.
Proof.
  intros Ho. cbv zeta. pose proof (Z.div_mod (Z.of_nat o) 256 ltac:(lia)). pose proof (Z.mod_pos_bound (Z.of_nat o) 256 ltac:(lia)).
  assert (0 <= Z.of_nat o / 256 < 64) as Hd by (split; [apply Z.div_pos; lia|apply Z.div_lt_upper_bound; lia]).
  assert (wrapu 8 (Z.lor (Z.shiftr (Z.of_nat o) 8) NS_CMPRSFLGS) = 192 + Z.of_nat o / 256) as ->.
  { rewrite Z.lor_comm, Z.shiftr_div_pow2 by lia. change NS_CMPRSFLGS with (3 * 2 ^ 6). change (2 ^ 8) with 256.
    rewrite (lor_low 6) by (change (2 ^ 6) with 64; lia). apply wrapu_small. change (2 ^ 6) with 64. change (2 ^ 8) with 256. lia. }
  split_and!; try lia. rewrite target_value by lia. lia.
Qed.

(** A label in front of a name. *)
Lemma wired_splice_label m m' dst dstp l ls e :
  (1 <= length l < 64)%nat → (dstp + S (length l) <= length m)%nat →
  (∀ i, (i < dstp + S (length l))%nat → m' !! i = splice m dstp (enc_label l) !! i) →
  wired m' dst (dstp + S (length l)) ls e → wired m' dst dstp (l :: ls) e.
Proof.
  intros Hl Hfit Ha Hw. assert ((dstp + length (enc_label l) <= length m)%nat) as Hfit' by (cbn [enc_label length]; lia).
  assert (∀ j, (j < S (length l))%nat → m' !! (dstp + j)%nat = enc_label l !! j) as Hat.
  { intros j Hj. rewrite Ha by lia. apply splice_at; [done|cbn [enc_label length]; lia]. }
  apply wired_label.
  - specialize (Hat 0%nat ltac:(lia)). rewrite Nat.add_0_r in Hat. exact Hat.
  - done.
  - apply list_eq. intros i. destruct (decide (i < length l)%nat) as [Hi|Hi].
    + rewrite lookup_take, decide_True, lookup_drop by lia. specialize (Hat (S i) ltac:(lia)). cbn in Hat.
      replace (S dstp + i)%nat with (dstp + S i)%nat by lia. done.
    + rewrite lookup_take_ge by lia. apply lookup_ge_None_2. lia.
  - replace (S dstp + length l)%nat with (dstp + S (length l))%nat by lia. done.
Qed.

(** The array of pointers after a call: the entries before [lpp] stay, and
    at most the place of a part of the new name is added. *)
Definition array_ok (m' : list Z) (arr arr' : list (option nat)) (lpp dst e : nat) (first : bool) : Prop :=
  arr' = arr ∨
  (first = true ∧ take lpp arr' = take lpp arr ∧ arr' !! S lpp = Some None ∧
   ∃ p D, arr' !! lpp = Some (Some p) ∧ (dst <= p)%nat ∧ wired m' dst p D e).

Section pack.
Variables (t : list Z) (dst : nat) (eob : Z) (last : option nat) (lpp : nat) (ptrs : list (option nat)).

(** What a call leaves. *)
Definition pack_post (m : list Z) (D : list (list Z)) (dstp : nat) (arr : list (option nat)) (first : bool) (r : packed) : Prop :=
  let '(a, m', arr') := r in
  length m' = length m ∧ bytes_ok m' ∧ (∀ i, (i < dstp)%nat ∨ eob <= Z.of_nat i → m' !! i = m !! i) ∧ length arr' = length arr ∧
  match a with
  | Ok v => ∃ D' e, v = Z.of_nat e - Z.of_nat dst ∧ Z.of_nat e <= eob ∧ (e <= dstp + length (enc D))%nat ∧
      wired m' dst dstp D' e ∧ same_names D' D ∧ array_ok m' arr arr' lpp dst e first
  | Error e => e = EMSGSIZE ∧ eob < Z.of_nat (dstp + length (enc D)) ∧ take lpp arr' = take lpp arr ∧ arr' !! lpp = Some None
  end.

Lemma cleanup_spec m D dstp arr arr0 first :
  bytes_ok m → (lpp < length arr)%nat → take lpp arr = take lpp arr0 → length arr = length arr0 → eob < Z.of_nat (dstp + length (enc D)) →
  ∃ r, pack_cleanup m arr (Some 0%nat) lpp = Val r ∧ pack_post m D dstp arr0 first r.
Proof using.
  intros Hm Hl Ht Hlen He. unfold pack_cleanup, store_ptr. rewrite (proj2 (Nat.ltb_lt _ _)) by done. cbn [mbind outcome_bind].
  eexists. split; [done|]. split_and!; [done|done|done|by rewrite length_insert|done|done| |].
  - by rewrite take_insert_ge.
  - by apply list_lookup_insert_eq.
Qed.

Lemma save_ptr_spec arr cpp dstp first :
  (first = true → cpp = lpp) → (∀ k, last = Some k → (k <= length arr)%nat) →
  ∃ arr1 cpp1 first1, save_ptr arr last cpp 0 dstp first = Val (arr1, cpp1, first1) ∧ length arr1 = length arr ∧
    take lpp arr1 = take lpp arr ∧ (first1 = true → cpp1 = lpp) ∧
    ((arr1 = arr ∧ first1 = first) ∨
     (first = true ∧ first1 = false ∧ arr1 !! lpp = Some (Some dstp) ∧ arr1 !! S lpp = Some None)).
Proof using.
  intros Hcpp Hlast. unfold save_ptr. destruct last as [k|] eqn:El; [|eexists _, _, _; split; [done|]; split_and!; try done; by left].
  specialize (Hlast k eq_refl). destruct (Z.ltb_spec (Z.of_nat cpp) (Z.of_nat k - 1)) as [Hk|]; cbn [andb];
    [|eexists _, _, _; split; [done|]; split_and!; try done; by left].
  destruct (_ <? 0x4000); cbn [andb]; [|eexists _, _, _; split; [done|]; split_and!; try done; by left].
  destruct first; [|eexists _, _, _; split; [done|]; split_and!; try done; by left]. rewrite (Hcpp eq_refl) in *. unfold store_ptr.
  rewrite (proj2 (Nat.ltb_lt _ _)) by lia. cbn [mbind outcome_bind]. rewrite (proj2 (Nat.ltb_lt _ _)) by (rewrite length_insert; lia).
  cbn [mbind outcome_bind]. eexists _, _, _. split; [done|]. rewrite !length_insert. split_and!; [done| |done|].
  - by rewrite !take_insert_ge by lia.
  - right. split_and!; [done|done| |].
    + rewrite list_lookup_insert_ne by lia. apply list_lookup_insert_eq. lia.
    + apply list_lookup_insert_eq. rewrite length_insert. lia.
Qed.

Lemma pack_loop_spec fuel m D dstp arr cpp first :
  bytes_ok m → Forall label_ok D → take (lpp - 1) (drop 1 arr) = ptrs → Forall (entry m dst) ptrs →
  (dst <= dstp)%nat → eob <= Z.of_nat (length m) → (1 <= lpp < length arr)%nat → (first = true → cpp = lpp) →
  (∀ k, last = Some k → (k <= length arr)%nat) → (length D < fuel)%nat →
  ∃ r, pack_loop fuel m (enc D ++ t) dst dstp eob arr last (Some 0%nat) lpp cpp first = Val r ∧ pack_post m D dstp arr first r.
Proof using.
  revert m D dstp arr cpp first. induction fuel as [|fuel IH]; intros m D dstp arr cpp first Hm HD Hptrs Hent Hdst Heob Hlpp Hcpp Hlast Hf; [lia|].
  cbn [pack_loop]. destruct D as [|l D].
  - (* the root *)
    cbn [enc app head deref mbind outcome_bind]. rewrite Z.eqb_refl. cbn [negb Z.leb Z.compare orb].
    destruct (Z.ltb_spec (eob - Z.of_nat dstp) (0 + 1)) as [Hs|Hs]; [by apply cleanup_spec; [|lia|..|cbn; lia]|].
    change (read_n (0 :: t) (S (Z.to_nat 0))) with (Val [0]). cbn [mbind outcome_bind]. rewrite write_splice by (cbn [length]; lia). cbn [mbind outcome_bind].
    rewrite (proj2 (Z.ltb_ge _ _)) by lia. eexists. split; [done|]. unfold pack_post. rewrite splice_length by (cbn [length]; lia).
    split_and!; [done|by apply splice_bytes; [|by repeat constructor]| |done|].
    { intros i Hi. destruct (decide (i < dstp)%nat); [apply splice_before; [cbn [length]; lia|done]|apply splice_after; cbn [length]; lia]. }
    exists [], (S dstp). split_and!; [lia|lia|cbn; lia| |constructor|by left]. apply wired_root.
    rewrite <- (Nat.add_0_r dstp) at 1. by rewrite splice_at by (cbn [length]; lia).
  - apply Forall_cons in HD as [Hl HD]. pose proof Hl as [Hln Hlb].
    assert (head (enc (l :: D) ++ t) = Some (Z.of_nat (length l))) as -> by done. cbn [deref mbind outcome_bind].
    rewrite (proj2 (Z.eqb_neq (Z.of_nat (length l)) 0)) by lia. cbn [negb]. rewrite Nat2Z.id, Hptrs.
    destruct (dn_find_spec m (l :: D) t Hm ltac:(by constructor) dst ptrs Hent ltac:(done)) as (a & -> & Ha). cbn [mbind outcome_bind].
    destruct a as [v|e].
    + (* a pointer *)
      destruct Ha as (o & ls & e & -> & Ho & Hw & He & Hsame). pose proof (pointer_bytes o Ho) as (Hhi & Hlo & Ht). cbv zeta in *.
      set (hi := wrapu 8 _) in *. set (lo := Z.of_nat o mod 256) in *. clearbody hi lo.
      pose proof (enc_nonempty D).
      destruct (Z.leb_spec (eob - Z.of_nat dstp) 1) as [Hs|Hs]; [apply cleanup_spec; [done|lia|done|done|rewrite enc_cons; lia]|].
      assert ((dstp + length [hi; lo] <= length m)%nat) as Hfit by (cbn [length]; lia).
      rewrite write_splice by done. cbn [mbind outcome_bind]. eexists. split; [done|]. unfold pack_post. rewrite splice_length by done.
      split_and!; [done|by apply splice_bytes; [|repeat constructor; lia]| |done|].
      { intros i Hi. destruct (decide (i < dstp)%nat); [by apply splice_before|apply splice_after; [done|cbn [length]; lia]]. }
      exists ls, (dstp + 2)%nat. rewrite enc_cons. split_and!; [lia|lia|lia| |done|by left].
      eapply (wired_pointer _ _ _ hi lo).
      * rewrite <- (Nat.add_0_r dstp) at 1. by rewrite splice_at by (done || (cbn [length]; lia)).
      * lia.
      * replace (S dstp) with (dstp + 1)%nat by lia. by rewrite splice_at by (done || (cbn [length]; lia)).
      * rewrite Ht. eapply wired_agree; [exact Hw|lia|]. intros i Hi. apply splice_before; [done|lia].
      * done.
    + (* not found *)
      destruct (save_ptr_spec arr cpp dstp first Hcpp Hlast) as (arr1 & cpp1 & first1 & -> & Hlen1 & Htake1 & Hcpp1 & Hsaved).
      cbn [mbind outcome_bind fst snd]. rewrite (proj2 (Z.leb_gt 64 _)) by lia. cbn [orb].
      pose proof (enc_nonempty D). assert (length (enc_label l) = S (length l)) as Hel by done.
      destruct (Z.ltb_spec (eob - Z.of_nat dstp) (Z.of_nat (length l) + 1)) as [Hs|Hs];
        [apply cleanup_spec; [done|lia|done|done|rewrite enc_cons; lia]|].
      assert (read_n (enc (l :: D) ++ t) (S (length l)) = Val (enc_label l)) as ->.
      { unfold read_n. rewrite length_app, enc_cons, (proj2 (Nat.leb_le _ _)) by lia. cbn [enc]. rewrite <- app_assoc, take_app_le by lia.
        by rewrite <- Hel, firstn_all. }
      cbn [mbind outcome_bind]. rewrite write_splice by lia. cbn [mbind outcome_bind].
      set (m1 := splice m dstp (enc_label l)).
      assert (drop (S (length l)) (enc (l :: D) ++ t) = enc D ++ t) as ->.
      { cbn [enc]. rewrite <- app_assoc, <- Hel. apply drop_app_length. }
      assert (take (lpp - 1) (drop 1 arr1) = ptrs) as Hptrs1.
      { rewrite <- Hptrs, !take_drop_commute. replace (1 + (lpp - 1))%nat with lpp by lia. by rewrite Htake1. }
      assert (∀ i, (i < dst)%nat → m1 !! i = m !! i) as Hm1 by (intros i Hi; apply splice_before; lia).
      destruct (IH m1 D (dstp + S (length l))%nat arr1 cpp1 first1) as ([[a m'] arr'] & -> & Hlen & Hb & Hframe & Hla & Hpost).
      { by apply splice_bytes; [|constructor; [lia|]]. } { done. } { done. }
      { eapply Forall_impl; [exact Hent|]. intros p (o & ls & e' & -> & Hw & He). exists o, ls, e'. split_and!; [done| |done].
        eapply wired_agree; [exact Hw|done|]. intros i Hi. apply Hm1. lia. }
      { lia. } { unfold m1. rewrite splice_length by lia. done. } { lia. } { done. } { intros k Hk. rewrite Hlen1. by apply Hlast. }
      { cbn [length] in Hf. lia. }
      eexists. split; [done|]. unfold pack_post. rewrite Hlen, Hla, Hlen1. unfold m1. rewrite splice_length by lia. split_and!; [done|done| |done|].
      { intros i Hi. rewrite Hframe by lia. unfold m1. destruct (decide (i < dstp)%nat); [apply splice_before; lia|apply splice_after; lia]. }
      rewrite enc_cons. destruct a as [v|e1].
      * destruct Hpost as (D' & e1 & -> & He1 & Hle & Hw & Hsame & Harr). exists (l :: D'), e1.
        assert (wired m' dst dstp (l :: D') e1) as Hw' by (eapply wired_splice_label; [done| |intros i Hi; apply Hframe; lia|done]; lia).
        split_and!; [done|done|lia|done|by constructor|]. destruct Hsaved as [[-> ->]|(-> & -> & Hp & Hnull)].
        -- done.
        -- destruct Harr as [->|[? _]]; [|done]. right. split_and!; [done|done|done|]. by exists dstp, (l :: D').
      * destruct Hpost as (-> & He1 & Htk & Hnull). split_and!; [done|lia|by rewrite Htk|done].
Qed.
End pack.

(** ** Whole calls *)

(** The array: the message, the names packed before, a null pointer. *)
Definition table (m : list Z) (lim : nat) (arr : list (option nat)) : Prop :=
  ∃ ptrs rest, arr = Some 0%nat :: ptrs ++ None :: rest ∧ Forall (entry m lim) ptrs.

(** The pointers up to the null one. *)
Fixpoint pointers (arr : list (option nat)) : list nat :=
  match arr with Some o :: arr => o :: pointers arr | _ => [] end.

Lemma pointers_table ptrs rest : Forall (λ p, is_Some p) ptrs → pointers (Some 0%nat :: ptrs ++ None :: rest) = 0%nat :: omap id ptrs.
Proof. intros H. cbn [pointers]. f_equal. induction H as [|p ptrs [o ->] _ IH]; [done|]. cbn. by f_equal. Qed.

Lemma list_end_spec ptrs rest i : (Forall (λ p, is_Some p) ptrs) → list_end (ptrs ++ None :: rest) i = Val (i + length ptrs)%nat.
Proof.
  intros H. revert i. induction H as [|p ptrs [o ->] _ IH]; intros i; cbn [app list_end length]; [f_equal; lia|]. rewrite IH. f_equal. lia.
Qed.

Lemma legal_spec fuel D t l :
  Forall label_ok D → (length D < fuel)%nat → 0 <= l →
  legal fuel (enc D ++ t) l = Val (bool_decide (l + Z.of_nat (length (enc D)) <= NS_MAXCDNAME)).
Proof.
  intros HD. revert fuel l. induction HD as [|d D [Hd _] HD IH]; intros fuel l Hf Hl; (destruct fuel as [|fuel]; [lia|]); cbn [legal].
  - cbn [enc app head deref mbind outcome_bind length]. cbn [Z.leb Z.compare Z.eqb].
    destruct (Z.ltb_spec NS_MAXCDNAME (l + (0 + 1))); [rewrite bool_decide_eq_false_2 by lia|rewrite bool_decide_eq_true_2 by lia]; done.
  - assert (head (enc (d :: D) ++ t) = Some (Z.of_nat (length d))) as -> by done. cbn [deref mbind outcome_bind].
    rewrite (proj2 (Z.leb_gt 64 _)), (proj2 (Z.eqb_neq _ 0)) by lia. rewrite enc_cons, Nat2Z.id.
    destruct (Z.ltb_spec NS_MAXCDNAME (l + (Z.of_nat (length d) + 1))); [by rewrite bool_decide_eq_false_2 by lia|].
    assert (drop (S (length d)) (enc (d :: D) ++ t) = enc D ++ t) as ->.
    { cbn [enc]. rewrite <- app_assoc. change (S (length d)) with (length (enc_label d)). apply drop_app_length. }
    rewrite IH by (cbn [length] in Hf; lia). f_equal. apply bool_decide_ext. lia.
Qed.

Lemma same_names_length D D' : same_names D D' → length (enc D) = length (enc D').
Proof.
  induction 1 as [|a b D D' Hab _ IH]; [done|]. rewrite !enc_cons, IH. apply (f_equal length) in Hab. rewrite !length_fmap in Hab. lia.
Qed.

Lemma enc_length_labels D : (length D < length (enc D))%nat.
Proof. induction D as [|d D IH]; [cbn; lia|]. rewrite enc_cons. cbn [length]. lia. Qed.

(** The name written at [dst] can be unpacked from any message that holds it. *)
Lemma packed_unpack m dst D' D e eom buf :
  bytes_ok m → wired m dst dst D' e → same_names D' D → (e <= eom <= length m)%nat → (length (enc D) <= length buf)%nat →
  ns_name_unpack (take eom m) (Z.of_nat dst) buf = Val (Ok (Z.of_nat e - Z.of_nat dst), enc D' ++ drop (length (enc D)) buf).
Proof.
  intros Hm Hw Hs He Hb. rewrite <- (same_names_length _ _ Hs) in *. pose proof (wired_bounds _ _ _ _ _ Hw).
  rewrite (wired_unpack _ _ D' e); [|by apply Forall_take| |done].
  - do 3 f_equal. lia.
  - eapply wired_agree; [exact Hw|done|]. intros i Hi. by rewrite lookup_take, decide_True by lia.
Qed.

Lemma pack_spec m D t dst dstsiz arr last :
  bytes_ok m → Forall label_ok D → Z.of_nat (length (enc D)) <= NS_MAXCDNAME → table m dst arr →
  Z.of_nat dst + dstsiz <= Z.of_nat (length m) → (∀ k, last = Some k → (k <= length arr)%nat) →
  ∃ a m' arr', ns_name_pack m (enc D ++ t) dst dstsiz (Some arr) last = Val (a, m', arr') ∧ bytes_ok m' ∧ length m' = length m ∧
    (∀ i, (i < dst)%nat ∨ Z.of_nat dst + dstsiz <= Z.of_nat i → m' !! i = m !! i) ∧
    match a with
    | Ok k => 1 <= k <= dstsiz ∧ k <= Z.of_nat (length (enc D)) ∧ table m' (dst + Z.to_nat k) arr' ∧
        (pointers arr' = pointers arr ∨ ∃ p, pointers arr' = pointers arr ++ [p] ∧ (dst <= p)%nat) ∧
        ∃ D', same_names D' D ∧ wired m' dst dst D' (dst + Z.to_nat k)
    | Error e => e = EMSGSIZE ∧ dstsiz < Z.of_nat (length (enc D)) ∧ table m' dst arr' ∧ pointers arr' = pointers arr
    end.
Proof.
  intros Hm HD Hlen (ptrs & rest & -> & Hent) Hsize Hlast. unfold ns_name_pack. cbn [default from_option id head deref mbind outcome_bind].
  change (drop 1 (Some 0%nat :: ptrs ++ None :: rest)) with (ptrs ++ None :: rest).
  assert (Forall (λ p, is_Some p) ptrs) as Hsome by (eapply Forall_impl; [exact Hent|]; intros p (o & ? & ? & -> & _); by eexists).
  rewrite list_end_spec by done. cbn [mbind outcome_bind].
  pose proof (enc_length_labels D). rewrite legal_spec by (done || lia || (rewrite length_app; lia)). cbn [mbind outcome_bind].
  rewrite bool_decide_eq_true_2 by lia. cbn [negb].
  destruct (pack_loop_spec t dst (Z.of_nat dst + dstsiz) last (1 + length ptrs) ptrs (S (length (enc D ++ t))) m D dst
    (Some 0%nat :: ptrs ++ None :: rest) (1 + length ptrs) true) as ([[a m'] arr'] & -> & Hl & Hb & Hframe & Hla & Hpost); try done.
  { cbn [drop Nat.sub Nat.add]. rewrite Nat.sub_0_r. apply take_app_length. } { cbn [length]. rewrite length_app. cbn [length]. lia. }
  { rewrite length_app. lia. }
  assert (take (1 + length ptrs) (Some 0%nat :: ptrs ++ None :: rest) = Some 0%nat :: ptrs) as Ht by (cbn; by rewrite take_app_length).
  assert (∀ lim, (dst <= lim)%nat → Forall (entry m' lim) ptrs) as Hent'.
  { intros lim Hlim. eapply Forall_impl; [exact Hent|]. intros p (o & ls & e & -> & Hw & He). exists o, ls, e. split_and!; [done| |lia].
    eapply wired_agree; [exact Hw|done|]. intros i Hi. apply Hframe. left. lia. }
  eexists _, _, _. split; [done|]. split_and!; [done|done|done|]. destruct a as [v|e].
  - destruct Hpost as (D' & e & -> & He & Hle & Hw & Hs & Harr). pose proof (wired_bounds _ _ _ _ _ Hw).
    replace (dst + Z.to_nat (Z.of_nat e - Z.of_nat dst))%nat with e by lia. split; [lia|]. split; [lia|].
    destruct Harr as [->|(_ & Htk & Hnull & p & D1 & Hp & Hdp & Hw1)].
    + split_and!; [|by left|by exists D']. exists ptrs, rest. split; [done|]. apply Hent'. lia.
    + assert (arr' = Some 0%nat :: (ptrs ++ [Some p]) ++ None :: drop (3 + length ptrs) arr') as Earr.
      { rewrite Ht in Htk. rewrite <- (take_drop (1 + length ptrs) arr') at 1. rewrite Htk. cbn [app]. f_equal. rewrite <- app_assoc. f_equal.
        cbn [app]. rewrite (drop_S arr' (Some p)) by done. rewrite (drop_S arr' None) by done. done. }
      split_and!; [| |by exists D'].
      * exists (ptrs ++ [Some p]), (drop (3 + length ptrs) arr'). split; [exact Earr|]. apply Forall_app. split; [apply Hent'; lia|].
        apply Forall_singleton. exists p, D1, e. split_and!; [done| |done]. eapply wired_mono; [exact Hw1|done].
      * right. exists p. split; [|done]. rewrite Earr, !pointers_table by (done || (apply Forall_app; split; [done|by apply Forall_singleton])).
        rewrite omap_app. done.
  - destruct Hpost as (-> & He & Htk & Hnull). split_and!; [done|lia|..]; rewrite Ht in Htk.
    all: assert (arr' = Some 0%nat :: ptrs ++ None :: drop (2 + length ptrs) arr') as Earr
      by (rewrite <- (take_drop (1 + length ptrs) arr') at 1; rewrite Htk; cbn [app]; f_equal; f_equal; by rewrite (drop_S arr' None)).
    + exists ptrs, (drop (2 + length ptrs) arr'). split; [exact Earr|]. by apply Hent'.
    + by rewrite Earr, !pointers_table.
Qed.

(** [ns_name_skip] passes over the same bytes. *)
Lemma skip_loop_spec m o ls k c ptr fuel :
  bytes_ok m → name_at m o ls k c → (length m - o < fuel)%nat → skip_loop fuel m ptr o = Val (Ok 0, (o + k)%nat).
Proof.
  intros Hm H. revert fuel.
  induction H as [o E|o l ls k c E Hl El H IH|o n lo ls k c E Hn El H _]; intros fuel Hf; (destruct fuel as [|fuel]; [apply lookup_lt_Some in E; lia|]);
    pose proof (lookup_lt_Some _ _ _ E) as Hlt; cbn [skip_loop]; rewrite (proj2 (Z.ltb_lt _ _)) by lia; unfold rd; rewrite E; cbn [deref mbind outcome_bind].
  - rewrite Z.eqb_refl. do 2 f_equal. lia.
  - pose proof (name_at_lt _ _ _ _ _ H). rewrite (proj2 (Z.eqb_neq _ 0)), flags_label, (proj2 (Z.ltb_ge _ _)) by lia. rewrite Nat2Z.id.
    rewrite IH by lia. do 2 f_equal. lia.
  - pose proof (m_byte m Hm o n E). destruct (flags_pointer n) as [-> ->]; [lia|]. rewrite (proj2 (Z.eqb_neq _ 0)) by lia.
    apply lookup_lt_Some in El. rewrite (proj2 (Z.eqb_neq _ _)) by lia. do 2 f_equal. lia.
Qed.

Lemma skip_name_at m o ls k c : bytes_ok m → name_at m o ls k c → ns_name_skip m o = Val (Ok 0, (o + k)%nat).
Proof. intros Hm H. eapply skip_loop_spec; [done|exact H|lia]. Qed.

(** ** The properties *)

(** C10. On every message, every offset and every buffer that is not empty,
    ns_name_unpack ends, reads only the message and writes only the buffer,
    also when compression pointers form a cycle. When it succeeds the buffer
    holds the labels the compressed name denotes, the value is the number of
    bytes the name takes at its place, and ns_name_skip moves over the same
    bytes; when it fails there is no such name, or it does not fit, or reaching
    its last pointer takes as many bytes as the message has. *)
Theorem ns_name_unpack_exact (m : list Z) (src : Z) (dst : list Z) :
  bytes_ok m → dst ≠ [] →
  ∃ a dst', ns_name_unpack m src dst = Val (a, dst') ∧ length dst' = length dst ∧
    match a with
    | Ok v => 0 <= src ∧ ∃ ls k c, name_at m (Z.to_nat src) ls k c ∧ v = Z.of_nat k ∧ (length (enc ls) <= length dst)%nat ∧
        dst' = enc ls ++ drop (length (enc ls)) dst ∧ ns_name_skip m (Z.to_nat src) = Val (Ok 0, (Z.to_nat src + k)%nat)
    | Error e => e = EMSGSIZE ∧
        ∀ ls k c, 0 <= src → name_at m (Z.to_nat src) ls k c → (length dst < length (enc ls))%nat ∨ (length m <= c)%nat
    end.
Proof.
  intros Hm Hd. unfold ns_name_unpack. destruct (Z.ltb_spec src 0) as [Hneg|Hpos]; cbn [orb].
  { eexists _, _. split; [done|]. split; [done|]. split; [done|]. lia. }
  destruct (Z.leb_spec (Z.of_nat (length m)) src) as [Hge|Hlt].
  { eexists _, _. split; [done|]. split; [done|]. split; [done|]. intros ls k c _ H. apply name_at_lt in H. lia. }
  destruct (unpack_sound m (Z.to_nat src) Hm (S (length m + length dst)) [] dst (Z.to_nat src) (-1) 0) as (a & dst' & E & Hl & Ha);
    [lia|done|lia|lia|unfold budget; lia|].
  exists a, dst'. split; [exact E|]. split; [exact Hl|]. destruct a as [v|e].
  - destruct Ha as (ls & k & c & Hna & Hfit & -> & ->). split; [done|]. exists ls, k, c. split_and!; [done| |done|done|by eapply skip_name_at].
    unfold result_len. cbn [Z.ltb Z.compare]. lia.
  - split; [done|]. intros ls k c _ Hna. destruct (decide (length dst < length (enc ls))%nat); [by left|].
    destruct (decide (length m <= c)%nat); [by right|]. exfalso.
    rewrite (unpack_complete m (Z.to_nat src) Hm (S (length m + length dst)) [] dst (Z.to_nat src) (-1) 0 ls k c) in E; [done|done|lia|lia|lia|right; lia|unfold budget; lia].
Qed.

(** C11. ns_name_pack on a legal name and a table of names packed before writes
    only between dst and dst + dstsiz and either fails with EMSGSIZE, which
    happens only when the uncompressed name does not fit, with the pointers of
    the table as before, or returns a length not above that of the uncompressed
    name; then the pointers of the table are as before, or with one to the new
    name added at the end, each points to a packed name, and ns_name_unpack
    gives the labels back up to the case of letters, from every end of message
    on. *)
Theorem ns_name_pack_unpack (m : list Z) (D : list (list Z)) (t : list Z) (dst : nat) (dstsiz : Z) (arr : list (option nat)) (last : option nat) :
  bytes_ok m → Forall label_ok D → Z.of_nat (length (enc D)) <= NS_MAXCDNAME → table m dst arr →
  Z.of_nat dst + dstsiz <= Z.of_nat (length m) → (∀ k, last = Some k → (k <= length arr)%nat) →
  ∃ a m' arr', ns_name_pack m (enc D ++ t) dst dstsiz (Some arr) last = Val (a, m', arr') ∧ length m' = length m ∧
    (∀ i, (i < dst)%nat ∨ Z.of_nat dst + dstsiz <= Z.of_nat i → m' !! i = m !! i) ∧
    match a with
    | Ok k => 1 <= k <= dstsiz ∧ k <= Z.of_nat (length (enc D)) ∧ table m' (dst + Z.to_nat k) arr' ∧
        (pointers arr' = pointers arr ∨ ∃ p, pointers arr' = pointers arr ++ [p] ∧ (dst <= p)%nat) ∧
        ∃ D', same_names D' D ∧ ∀ eom buf, (dst + Z.to_nat k <= eom <= length m')%nat → (length (enc D) <= length buf)%nat →
          ns_name_unpack (take eom m') (Z.of_nat dst) buf = Val (Ok k, enc D' ++ drop (length (enc D)) buf)
    | Error e => e = EMSGSIZE ∧ dstsiz < Z.of_nat (length (enc D)) ∧ table m' dst arr' ∧ pointers arr' = pointers arr
    end.
Proof.
  intros Hm HD Hlen Htab Hsize Hlast. destruct (pack_spec m D t dst dstsiz arr last Hm HD Hlen Htab Hsize Hlast) as (a & m' & arr' & E & Hb & Hl & Hfr & Ha).
  exists a, m', arr'. split_and!; [done|done|done|]. destruct a as [k|e]; [|done]. destruct Ha as (Hk & Hk' & Ht & Hp & D' & Hs & Hw).
  split_and!; [lia|lia|done|done|done|]. exists D'. split; [done|]. intros eom buf He Hbuf. rewrite (packed_unpack m' dst D' D (dst + Z.to_nat k)) by done.
  do 3 f_equal. lia.
Qed.

(** ** A message *)

(** [www.example.com] at 12 and [ftp] with a pointer to 16 at 29. *)
Definition demo_message : list Z :=
  replicate 12 0 ++ enc [$"www"; $"example"; $"com"] ++ [3; 102; 116; 112; 192; 16].
Definition demo_array : list (option nat) := [Some 0%nat; Some 12%nat; None; None].

Lemma bytes_okb s : forallb (λ b, (0 <=? b) && (b <? 256)) s = true → bytes_ok s.
Proof. intros H. apply Forall_forall. intros b Hb. rewrite forallb_forall in H. apply list_elem_of_In, H in Hb. lia. Qed.

Lemma ns_name_unpack_exact_witness :
  ∃ a dst', ns_name_unpack demo_message 29 (replicate 255 0) = Val (a, dst') ∧ length dst' = 255%nat ∧
    match a with
    | Ok v => 0 <= 29 ∧ ∃ ls k c, name_at demo_message 29 ls k c ∧ v = Z.of_nat k ∧ (length (enc ls) <= 255)%nat ∧
        dst' = enc ls ++ drop (length (enc ls)) (replicate 255 0) ∧ ns_name_skip demo_message 29 = Val (Ok 0, (29 + k)%nat)
    | Error e => e = EMSGSIZE ∧
        ∀ ls k c, 0 <= 29 → name_at demo_message 29 ls k c → (255 < length (enc ls))%nat ∨ (length demo_message <= c)%nat
    end.
Proof. apply (ns_name_unpack_exact demo_message 29 (replicate 255 0)); [apply bytes_okb; reflexivity|discriminate]. Defined.

Lemma demo_table : table (demo_message ++ replicate 20 0) 35 demo_array.
Proof.
  exists [Some 12%nat], [None]. split; [done|]. apply Forall_singleton. exists 12%nat, [$"www"; $"example"; $"com"], 29%nat. split_and!; [done| |lia].
  apply wired_label; [done|cbn; lia|done|]. apply wired_label; [done|cbn; lia|done|]. apply wired_label; [done|cbn; lia|done|]. by apply wired_root.
Qed.

Lemma ns_name_pack_unpack_witness :
  ∃ a m' arr', ns_name_pack (demo_message ++ replicate 20 0) (enc [$"mail"; $"EXAMPLE"; $"com"] ++ []) 35 20 (Some demo_array) (Some 4%nat)
      = Val (a, m', arr') ∧ length m' = length (demo_message ++ replicate 20 0) ∧
    (∀ i, (i < 35)%nat ∨ Z.of_nat 35 + 20 <= Z.of_nat i → m' !! i = (demo_message ++ replicate 20 0) !! i) ∧
    match a with
    | Ok k => 1 <= k <= 20 ∧ k <= 18 ∧ table m' (35 + Z.to_nat k) arr' ∧
        (pointers arr' = pointers demo_array ∨ ∃ p, pointers arr' = pointers demo_array ++ [p] ∧ (35 <= p)%nat) ∧
        ∃ D', same_names D' [$"mail"; $"EXAMPLE"; $"com"] ∧ ∀ eom buf, (35 + Z.to_nat k <= eom <= length m')%nat → (18 <= length buf)%nat →
          ns_name_unpack (take eom m') 35 buf = Val (Ok k, enc D' ++ drop 18 buf)
    | Error e => e = EMSGSIZE ∧ 20 < 18 ∧ table m' 35 arr' ∧ pointers arr' = pointers demo_array
    end.
Proof.
  apply (ns_name_pack_unpack (demo_message ++ replicate 20 0) [$"mail"; $"EXAMPLE"; $"com"] [] 35 20 demo_array (Some 4%nat)).
  - apply bytes_okb. reflexivity.
  - repeat (apply Forall_cons; split; [split; [cbn; lia|apply bytes_okb; reflexivity]|]). by apply Forall_nil.
  - vm_compute. discriminate.
  - exact demo_table.
  - vm_compute. discriminate.
  - intros k E. injection E as <-. cbn. lia.
Defined.
End NsWire.
