(* ===== verification/NsText.v ===== *)
(** * Domain names as text: correctness of [ns_name_ntop] and [ns_name_pton]

    [text] is the presentation of a name: labels with dots between them,
    special characters behind a backslash, others that cannot be printed as
    a backslash and three digits.  [ns_name_ntop] writes it exactly when it
    fits, and [ns_name_pton] reads it back; on any string [ns_name_pton]
    stays inside its buffer and what it accepts is a legal name. *)

From S2P Require Import Prelude CString NsName NsWire.
Local Open Scope Z_scope.

Module NsText.
Import CString NsName NsWire.

(** ** The text of a name *)

Definition text_char (c : Z) : list Z :=
  if special c then [BACKSLASH; c]
  else if printable c then [c]
  else [BACKSLASH; ZERO + c / 100; ZERO + c mod 100 / 10; ZERO + c mod 10].
Definition text_label (l : list Z) : list Z := l ≫= text_char.
(** The labels after the first. *)
Definition text_tail (ls : list (list Z)) : list Z := ls ≫= (λ l, DOT :: text_label l).
Definition text (ls : list (list Z)) : list Z :=
  match ls with
  | [] => [DOT]
  | l :: ls => text_label l ++ text_tail ls
  end.

Lemma text_label_cons c l : text_label (c :: l) = text_char c ++ text_label l.
Proof. done. Qed.

Lemma text_char_length c : (1 <= length (text_char c) <= 4)%nat.
Proof. unfold text_char. destruct (special c), (printable c); cbn; lia. Qed.

Lemma text_label_nonempty l : (1 <= length l)%nat → (1 <= length (text_label l))%nat.
Proof. destruct l as [|c l]; cbn [length]; [lia|]. intros _. rewrite text_label_cons, length_app. pose proof (text_char_length c). lia. Qed.

(** ** [ns_name_ntop] *)

(** The rest [R] of the text fits the rest [r] of the buffer with its NUL, or
    the call fails. *)
Definition ntop_post (w r R : list Z) (a : answer) (dst' : list Z) : Prop :=
  length dst' = length (w ++ r) ∧
  if decide (length R < length r)%nat
  then a = Ok (Z.of_nat (length w + length R + 1)) ∧ dst' = w ++ R ++ 0 :: drop (S (length R)) r
  else a = Error EMSGSIZE.

Lemma ntop_post_step w r x R a dst' :
  (length x <= length r)%nat → ntop_post (w ++ x) (drop (length x) r) R a dst' → ntop_post w r (x ++ R) a dst'.
Proof.
  intros Hx (Hl & H). split; [rewrite Hl, !length_app, length_drop; lia|]. rewrite length_drop in H. rewrite length_app.
  destruct (decide (length R < length r - length x)%nat); [rewrite decide_True by lia|rewrite decide_False by lia; done].
  destruct H as [-> ->]. rewrite !length_app, drop_drop, <- !app_assoc. split; [f_equal; lia|]. do 5 f_equal. lia.
Qed.

Lemma ntop_post_full w r R : (length r <= length R)%nat → ntop_post w r R (Error EMSGSIZE) (w ++ r).
Proof. intros H. split; [done|]. by rewrite decide_False by lia. Qed.

(** Write [x] and go on. *)
Lemma ntop_write w r x R (k : list Z → nat → outcome (answer * list Z)) :
  (length x <= length r)%nat →
  (∃ a dst', k ((w ++ x) ++ drop (length x) r) (length (w ++ x)) = Val (a, dst') ∧ ntop_post (w ++ x) (drop (length x) r) R a dst') →
  ∃ a dst', (dst ← write_at (w ++ r) (length w) x; k dst (length w + length x)%nat) = Val (a, dst') ∧ ntop_post w r (x ++ R) a dst'.
Proof.
  intros Hx (a & dst' & E & H). rewrite write_at_app by done. cbn [mbind outcome_bind].
  rewrite app_assoc, <- length_app, E. exists a, dst'. split; [done|]. by apply ntop_post_step.
Qed.

Lemma ntop_label_spec t ls w r l :
  Forall label_ok ls → bytes_ok l → (w ≠ [] ∨ l ≠ []) →
  (∀ w r, w ≠ [] → ∃ a dst', ntop_loop (enc ls ++ t) 0 (w ++ r) (length w) = Val (a, dst') ∧ ntop_post w r (text_tail ls) a dst') →
  ∃ a dst', ntop_loop (l ++ enc ls ++ t) (length l) (w ++ r) (length w) = Val (a, dst') ∧ ntop_post w r (text_label l ++ text_tail ls) a dst'.
Proof.
  intros Hls Hl Hne Hend. revert w r Hne. induction Hl as [|c l Hc Hl IH]; intros w r Hne; [apply Hend; by destruct Hne|].
  assert (∀ x r', (1 <= length x)%nat → ∃ a dst', ntop_loop (l ++ enc ls ++ t) (length l) ((w ++ x) ++ r') (length (w ++ x)) = Val (a, dst') ∧
    ntop_post (w ++ x) r' (text_label l ++ text_tail ls) a dst') as IH'.
  { intros x r' Hx. apply IH. left. intros E. apply (f_equal length) in E. rewrite length_app in E. cbn in E. lia. }
  rewrite text_label_cons, <- app_assoc. cbn [app length ntop_loop]. unfold text_char. rewrite length_app.
  replace (Z.of_nat (length w + length r) - Z.of_nat (length w)) with (Z.of_nat (length r)) by lia.
  destruct (special c); [|destruct (printable c); cbn [negb]].
  - destruct (Z.ltb_spec (Z.of_nat (length r)) 2); [eexists _, _; split; [done|]; apply ntop_post_full; cbn; lia|].
    apply (ntop_write w r [BACKSLASH; c] _ (λ dst dn, ntop_loop (l ++ enc ls ++ t) (length l) dst dn)); [cbn; lia|]. apply IH'. cbn; lia.
  - destruct (Z.ltb_spec (Z.of_nat (length r)) 2); [eexists _, _; split; [done|]; apply ntop_post_full; cbn; lia|].
    rewrite <- Nat.add_1_r. apply (ntop_write w r [c] _ (λ dst dn, ntop_loop (l ++ enc ls ++ t) (length l) dst dn)); [cbn; lia|]. apply IH'. cbn; lia.
  - destruct (Z.ltb_spec (Z.of_nat (length r)) 4); [eexists _, _; split; [done|]; apply ntop_post_full; cbn; lia|].
    apply (ntop_write w r [BACKSLASH; ZERO + c / 100; ZERO + c mod 100 / 10; ZERO + c mod 10] _
      (λ dst dn, ntop_loop (l ++ enc ls ++ t) (length l) dst dn)); [cbn; lia|]. apply IH'. cbn; lia.
Qed.

Lemma ntop_tail_spec t ls w r :
  Forall label_ok ls → w ≠ [] →
  ∃ a dst', ntop_loop (enc ls ++ t) 0 (w ++ r) (length w) = Val (a, dst') ∧ ntop_post w r (text_tail ls) a dst'.
Proof.
  intros Hls. revert w r. induction Hls as [|l ls [Hl Hb] Hls IH]; intros w r Hw; assert (0 < length w)%nat as Hlw by (destruct w; [done|cbn; lia]).
  - cbn [enc app ntop_loop]. rewrite Z.eqb_refl. unfold ntop_end. rewrite (proj2 (Nat.eqb_neq (length w) 0)) by lia. cbn [andb mbind outcome_bind].
    rewrite length_app. destruct (Nat.leb_spec (length w + length r) (length w)).
    + eexists _, _. split; [done|]. apply ntop_post_full. cbn. lia.
    + rewrite write_at_app by (cbn; lia). cbn [mbind outcome_bind]. eexists _, _. split; [done|]. unfold ntop_post.
      rewrite !length_app, length_drop. cbn [length app text_tail]. rewrite decide_True by (cbn; lia). split; [lia|]. split; [|done]. f_equal. cbn. lia.
  - assert (ntop_loop (enc (l :: ls) ++ t) 0 (w ++ r) (length w) =
      if (length r =? 0)%nat then Val (Error EMSGSIZE, w ++ r)
      else dst ← write_at (w ++ r) (length w) [DOT]; ntop_loop (l ++ enc ls ++ t) (length l) dst (length w + length [DOT])) as ->.
    { cbn [enc enc_label app ntop_loop]. rewrite (proj2 (Z.eqb_neq _ _)), (proj2 (Z.leb_gt 64 _)), (proj2 (Nat.eqb_neq (length w) 0)) by lia. cbn [negb].
      rewrite Nat2Z.id, length_app, <- app_assoc. replace (length w + length [DOT])%nat with (S (length w)) by (cbn; lia).
      destruct (Nat.eqb_spec (length r) 0); [rewrite (proj2 (Nat.leb_le _ _)) by lia|rewrite (proj2 (Nat.leb_gt _ _)) by lia]; done. }
    change (text_tail (l :: ls)) with ([DOT] ++ text_label l ++ text_tail ls).
    destruct (Nat.eqb_spec (length r) 0); [eexists _, _; split; [done|]; apply ntop_post_full; cbn; lia|].
    apply (ntop_write w r [DOT] _ (λ dst dn, ntop_loop (l ++ enc ls ++ t) (length l) dst dn)); [cbn; lia|].
    apply ntop_label_spec; [done|done|left; by destruct w|]. intros w' r' Hw'. by apply IH.
Qed.

(** The text, when it fits with its NUL. *)
Lemma ntop_spec ls t dst :
  Forall label_ok ls →
  ∃ a dst', ns_name_ntop (enc ls ++ t) dst = Val (a, dst') ∧ ntop_post [] dst (text ls) a dst'.
Proof.
  intros Hls. unfold ns_name_ntop. destruct Hls as [|l ls [Hl Hb] Hls].
  - cbn [enc app ntop_loop]. rewrite Z.eqb_refl. unfold ntop_end. cbn [Nat.eqb andb text].
    destruct dst as [|x [|y dst]].
    + eexists _, _. split; [done|]. apply (ntop_post_full [] []). cbn. lia.
    + eexists _, _. split; [done|]. split; [done|]. done.
    + eexists _, _. split; [done|]. split; [done|]. by rewrite decide_True by (cbn; lia).
  - assert (ntop_loop (enc (l :: ls) ++ t) 0 dst 0 = ntop_loop (l ++ enc ls ++ t) (length l) ([] ++ dst) (length (@nil Z))) as ->.
    { cbn [enc enc_label app ntop_loop]. rewrite (proj2 (Z.eqb_neq _ _)), (proj2 (Z.leb_gt 64 _)) by lia. cbn [negb Nat.eqb]. by rewrite Nat2Z.id, <- app_assoc. }
    apply ntop_label_spec; [done|done|right; intros ->; cbn in Hl; lia|]. intros w r Hw. by apply ntop_tail_spec.
Qed.

(** ** [ns_name_pton] on the text of a name *)

Definition char_facts (c : Z) : Prop :=
  (special c = true → (c =? 0) = false ∧ isdigit c = false) ∧
  (special c = false → printable c = true → (c =? 0) = false ∧ (c =? BACKSLASH) = false ∧ (c =? DOT) = false) ∧
  let d1 := ZERO + c / 100 in let d2 := ZERO + c mod 100 / 10 in let d3 := ZERO + c mod 10 in
  (d1 =? 0) = false ∧ isdigit d1 = true ∧ isdigit d2 = true ∧ isdigit d3 = true ∧ (d1 - ZERO) * 100 + (d2 - ZERO) * 10 + (d3 - ZERO) = c.

#[local] Instance char_facts_dec c : Decision (char_facts c).
Proof. unfold char_facts. apply _. Defined.

Lemma char_facts_all c : 0 <= c < 256 → char_facts c.
Proof.
  intros Hc. assert (Forall char_facts (seqZ 0 256)) as H by (apply (bool_decide_unpack _); by vm_compute).
  rewrite Forall_forall in H. apply H, elem_of_seqZ. lia.
Qed.

(** One character: it is stored when there is space. *)
Lemma pton_char c s dst label bp :
  0 <= c < 256 →
  pton_loop (text_char c ++ s) false dst label bp =
  if (length dst <=? bp)%nat then Val (Error EMSGSIZE, dst) else dst ← write_at dst bp [c]; pton_loop s false dst label (S bp).
Proof.
  intros Hc. destruct (char_facts_all c Hc) as (Hs & Hp & Hd). unfold text_char. destruct (special c); [|destruct (printable c)].
  - destruct (Hs eq_refl) as [H0 Hdig]. cbn [app pton_loop]. rewrite H0, Hdig. done.
  - destruct (Hp eq_refl eq_refl) as (H0 & H1 & H2). cbn [app pton_loop]. rewrite H0, H1, H2. done.
  - cbv zeta in Hd. set (d1 := ZERO + c / 100) in *. set (d2 := ZERO + c mod 100 / 10) in *. set (d3 := ZERO + c mod 10) in *.
    destruct Hd as (H0 & H1 & H2 & H3 & Hv). clearbody d1 d2 d3. cbn [app pton_loop]. rewrite H0, H1, H2, H3. cbn [negb].
    cbn [BACKSLASH Z.eqb Pos.eqb]. rewrite Hv. by rewrite (proj2 (Z.ltb_ge 255 c)) by lia.
Qed.

(** The characters of a label. *)
Lemma pton_label l s B r label :
  bytes_ok l →
  if decide (length l <= length r)%nat then
    pton_loop (text_label l ++ s) false (B ++ r) label (length B)
    = pton_loop s false ((B ++ l) ++ drop (length l) r) label (length (B ++ l))
  else ∃ dst', pton_loop (text_label l ++ s) false (B ++ r) label (length B) = Val (Error EMSGSIZE, dst') ∧ length dst' = length (B ++ r).
Proof.
  intros Hl. revert B r. induction Hl as [|c l Hc Hl IH]; intros B r.
  - rewrite decide_True by (cbn; lia). cbn [text_label mbind list_bind app length]. by rewrite app_nil_r.
  - rewrite text_label_cons, <- app_assoc, pton_char, length_app by done. cbn [length].
    destruct (Nat.leb_spec (length B + length r) (length B)) as [Hr|Hr].
    { rewrite decide_False by lia. eexists. by rewrite length_app. }
    rewrite write_at_app by (cbn; lia). cbn [mbind outcome_bind length]. rewrite app_assoc.
    replace (S (length B)) with (length (B ++ [c])) by (rewrite length_app; cbn; lia).
    specialize (IH (B ++ [c]) (drop 1 r)). rewrite length_drop in IH. destruct (decide (length l <= length r - 1)%nat).
    + rewrite decide_True by lia. rewrite IH, drop_drop, <- !app_assoc. done.
    + rewrite decide_False by lia. destruct IH as (dst' & -> & Hd). exists dst'. split; [done|]. rewrite Hd, !length_app, length_drop. cbn [length]. lia.
Qed.

(** The first character of a label. *)
Lemma text_label_head l : label_ok l → ∃ y s, text_label l = y :: s ∧ y ≠ 0 ∧ y ≠ DOT.
Proof.
  intros [Hl Hb]. destruct l as [|c l]; [cbn in Hl; lia|]. apply bytes_ok_cons in Hb as [Hc _]. destruct (char_facts_all c Hc) as (Hs & Hp & _).
  rewrite text_label_cons. unfold text_char. destruct (special c); [by eexists _, _|]. destruct (printable c); [|by eexists _, _].
  destruct (Hp eq_refl eq_refl) as (H0 & _ & H2). eexists _, _. split; [done|]. apply Z.eqb_neq in H0, H2. done.
Qed.

Lemma set_label (w : list Z) x l r : write_at ((w ++ x :: l) ++ r) (length w) [Z.of_nat (length l)] = Val (w ++ enc_label l ++ r).
Proof. rewrite <- app_assoc. cbn [app]. by rewrite write_at_app by (cbn; lia). Qed.

Lemma wrap_label (l : list Z) : (length l < 64)%nat → wrapu 8 (Z.of_nat (length l)) = Z.of_nat (length l).
Proof. intros H. apply wrapu_small. change (2 ^ 8) with 256. lia. Qed.

(** The result for a name whose wire format [x] goes to [r]. *)
Definition pton_post (v : Z) (w r x : list Z) (a : answer) (dst' : list Z) : Prop :=
  length dst' = length (w ++ r) ∧
  if decide (length x <= length r ∧ length w + length x <= 255)%nat
  then a = Ok v ∧ dst' = w ++ x ++ drop (length x) r
  else a = Error EMSGSIZE.

Lemma pton_post_fail v (w r x dst' : list Z) : (length r < length x)%nat → length dst' = length (w ++ r) → pton_post v w r x (Error EMSGSIZE) dst'.
Proof. intros H Hl. split; [done|]. by rewrite decide_False by lia. Qed.

(** The label at the start of [r]: either it is copied behind its slot, or
    there is no space. *)
Lemma pton_slot l s w r :
  label_ok l →
  (∃ x, (length l < length r)%nat ∧
     pton_loop (text_label l ++ s) false (w ++ r) (length w) (S (length w))
     = pton_loop s false ((w ++ x :: l) ++ drop (S (length l)) r) (length w) (length (w ++ x :: l))) ∨
  (length r < S (length l))%nat ∧ ∃ dst', length dst' = length (w ++ r) ∧
     pton_loop (text_label l ++ s) false (w ++ r) (length w) (S (length w)) = Val (Error EMSGSIZE, dst').
Proof.
  intros [Hln Hb]. destruct r as [|x r].
  - right. split; [cbn; lia|]. destruct l as [|c l]; [cbn in Hln; lia|]. apply bytes_ok_cons in Hb as [Hc _]. exists (w ++ []). split; [done|].
    rewrite text_label_cons, <- app_assoc, pton_char by done. rewrite app_nil_r, (proj2 (Nat.leb_le _ _)) by lia. done.
  - pose proof (pton_label l s (w ++ [x]) r (length w) Hb) as H. rewrite <- !app_assoc in H. cbn [app] in H.
    replace (length (w ++ [x])) with (S (length w)) in H by (rewrite length_app; cbn; lia).
    destruct (decide (length l <= length r)%nat).
    + left. exists x. split; [cbn; lia|]. rewrite H. cbn [drop]. by rewrite <- !app_assoc.
    + right. split; [cbn; lia|]. destruct H as (dst' & E & Hd). exists dst'. done.
Qed.

(** A dot between labels. *)
Lemma pton_dot w x l r y s :
  (1 <= length l < 64)%nat → y ≠ 0 → y ≠ DOT →
  pton_loop (DOT :: y :: s) false ((w ++ x :: l) ++ r) (length w) (length (w ++ x :: l))
  = pton_loop (y :: s) false ((w ++ enc_label l) ++ r) (length (w ++ enc_label l)) (S (length (w ++ enc_label l))).
Proof.
  intros Hl Hy0 Hyd.
  transitivity (dst ← write_at ((w ++ x :: l) ++ r) (length w) [wrapu 8 (Z.of_nat (length l))];
    pton_loop (y :: s) false dst (length (w ++ x :: l)) (S (length (w ++ x :: l)))).
  - set (rest := y :: s). cbn [pton_loop]. unfold rest at 2.
    rewrite (proj2 (Z.eqb_neq DOT 0)), (proj2 (Z.eqb_neq DOT BACKSLASH)), Z.eqb_refl, (proj2 (Z.eqb_neq y 0)) by done.
    replace (Z.of_nat (length (w ++ x :: l)) - Z.of_nat (length w) - 1) with (Z.of_nat (length l)) by (rewrite length_app; cbn [length]; lia).
    rewrite flags_label by lia. cbn [negb]. rewrite (proj2 (Nat.leb_gt _ (length w))) by (rewrite !length_app; cbn [length]; lia).
    by rewrite (proj2 (Z.eqb_neq (Z.of_nat (length l)) 0)), (proj2 (Z.eqb_neq y DOT)) by (done || lia).
  - rewrite wrap_label, set_label by lia. cbn [mbind outcome_bind].
    replace (length (w ++ x :: l)) with (length (w ++ enc_label l)) by (rewrite !length_app; cbn; lia). by rewrite app_assoc.
Qed.

Lemma pton_name t l ls w r :
  label_ok l → Forall label_ok ls →
  ∃ a dst', pton_loop (text_label l ++ text_tail ls ++ 0 :: t) false (w ++ r) (length w) (S (length w)) = Val (a, dst') ∧
    pton_post 0 w r (enc (l :: ls)) a dst'.
Proof.
  intros Hl Hls. revert w r l Hl. induction Hls as [|l2 ls Hl2 Hls IH]; intros w r l Hl; pose proof Hl as [Hln _].
  - destruct (pton_slot l (text_tail [] ++ 0 :: t) w r Hl) as [(x & Hfit & ->)|(Hfull & dst' & Hd & ->)];
      [|eexists _, _; split; [done|]; apply pton_post_fail; [rewrite enc_cons; cbn; lia|done]].
    cbn [text_tail mbind list_bind app pton_loop]. rewrite Z.eqb_refl. unfold pton_end.
    replace (Z.of_nat (length (w ++ x :: l)) - Z.of_nat (length w) - 1) with (Z.of_nat (length l)) by (rewrite length_app; cbn [length]; lia).
    rewrite flags_label by lia. cbn [negb]. rewrite (proj2 (Nat.leb_gt _ (length w))) by (rewrite !length_app; cbn [length]; lia).
    rewrite wrap_label, set_label by lia. cbn [mbind outcome_bind]. rewrite (proj2 (Z.eqb_neq (Z.of_nat (length l)) 0)) by lia. cbn [negb andb].
    rewrite !length_app, length_drop. cbn [length]. destruct (Nat.leb_spec (length w + S (length l) + (length r - S (length l))) (length w + S (length l))).
    { eexists _, _. split; [done|]. apply pton_post_fail; [rewrite enc_cons; cbn; lia|]. rewrite !length_app, length_drop. cbn [length enc_label]. lia. }
    replace (length w + S (length l))%nat with (length (w ++ enc_label l)) by (rewrite length_app; cbn; lia). rewrite app_assoc.
    rewrite write_at_app by (rewrite length_drop; cbn; lia). cbn [mbind outcome_bind]. rewrite length_app. cbn [enc_label length].
    destruct (Z.ltb_spec NS_MAXCDNAME (Z.of_nat (S (length w + S (length l))))) as [Hbig|Hok]; unfold NS_MAXCDNAME in *; eexists _, _; (split; [done|]); unfold pton_post;
      rewrite enc_cons, !length_app, !length_drop; cbn [length enc_label enc]; (split; [lia|]).
    + by rewrite decide_False by lia.
    + rewrite decide_True by lia. split; [done|]. rewrite <- !app_assoc, drop_drop. done.
  - destruct (pton_slot l (text_tail (l2 :: ls) ++ 0 :: t) w r Hl) as [(x & Hfit & ->)|(Hfull & dst' & Hd & ->)];
      [|eexists _, _; split; [done|]; apply pton_post_fail; [rewrite enc_cons; lia|done]].
    destruct (text_label_head l2 Hl2) as (y & s & Ey & Hy0 & Hyd).
    assert (text_tail (l2 :: ls) ++ 0 :: t = DOT :: y :: s ++ text_tail ls ++ 0 :: t) as ->.
    { change (text_tail (l2 :: ls)) with (DOT :: text_label l2 ++ text_tail ls). rewrite Ey. cbn [app]. by rewrite <- app_assoc. }
    rewrite pton_dot by done. change (y :: s ++ text_tail ls ++ 0 :: t) with ((y :: s) ++ text_tail ls ++ 0 :: t). rewrite <- Ey.
    destruct (IH (w ++ enc_label l) (drop (S (length l)) r) l2 Hl2) as (a & dst' & -> & Hd & Ha).
    eexists _, _. split; [done|]. unfold pton_post. rewrite Hd. rewrite !length_app, !length_drop, (enc_cons l) in *. cbn [length enc_label] in *.
    split; [lia|]. destruct (decide (length (enc (l2 :: ls)) <= length r - S (length l) ∧ length w + S (length l) + length (enc (l2 :: ls)) <= 255)%nat).
    + rewrite decide_True by lia. destruct Ha as [-> ->]. split; [done|]. change (enc (l :: l2 :: ls)) with (enc_label l ++ enc (l2 :: ls)).
      rewrite <- !app_assoc, drop_drop. done.
    + by rewrite decide_False by lia.
Qed.

(** The text of a name is read back. *)
Lemma pton_spec ls t dst :
  Forall label_ok ls →
  ∃ a dst', ns_name_pton (text ls ++ 0 :: t) dst = Val (a, dst') ∧ pton_post (if decide (ls = []) then 1 else 0) [] dst (enc ls) a dst'.
Proof.
  intros Hls. unfold ns_name_pton. destruct Hls as [|l ls Hl Hls].
  - destruct dst as [|x dst]; (eexists _, _; split; [done|]); (split; [done|]); done.
  - cbn [text]. rewrite <- app_assoc. rewrite decide_False by done. apply (pton_name t l ls [] dst); done.
Qed.

(** ** [ns_name_pton] on any string *)

Definition flat (ls : list (list Z)) : list Z := ls ≫= enc_label.

Lemma flat_snoc ls l : flat (ls ++ [l]) = flat ls ++ enc_label l.
Proof. unfold flat. rewrite bind_app. cbn. by rewrite app_nil_r. Qed.

Lemma enc_flat ls : enc ls = flat ls ++ [0].
Proof. induction ls as [|l ls IH]; [done|]. cbn [enc]. rewrite IH, app_assoc. done. Qed.

(** [x] stands at offset [o] of [dst]. *)
Definition stands (dst : list Z) (o : nat) (x : list Z) : Prop := ∀ i, (i < length x)%nat → dst !! (o + i)%nat = x !! i.

Lemma stands_app dst o x y : stands dst o x → stands dst (o + length x) y → stands dst o (x ++ y).
Proof.
  intros Hx Hy i Hi. rewrite length_app in Hi. destruct (decide (i < length x)%nat).
  - rewrite lookup_app_l by done. by apply Hx.
  - rewrite lookup_app_r by lia. rewrite <- Hy by lia. f_equal. lia.
Qed.

Lemma stands_splice dst o x i bs :
  (i + length bs <= length dst)%nat → stands dst o x → (o + length x <= i ∨ i + length bs <= o)%nat → stands (splice dst i bs) o x.
Proof.
  intros Hfit Hx Hd j Hj. destruct Hd; [rewrite splice_before by (done || lia)|rewrite splice_after by (done || lia)]; by apply Hx.
Qed.

Lemma stands_written dst i bs : (i + length bs <= length dst)%nat → stands (splice dst i bs) i bs.
Proof. intros Hfit j Hj. by apply splice_at. Qed.

Lemma stands_take dst x : stands dst 0 x → (length x <= length dst)%nat → take (length x) dst = x.
Proof.
  intros Hx Hl. apply list_eq. intros i. destruct (decide (i < length x)%nat) as [Hi|Hi].
  - rewrite lookup_take, decide_True by done. by apply (Hx i).
  - rewrite lookup_take_ge by lia. symmetry. apply lookup_ge_None_2. lia.
Qed.

(** Complete labels [ls] and the characters [cur] of the next one. *)
Definition partial (dst : list Z) (label bp : nat) (ls : list (list Z)) (cur : list Z) : Prop :=
  label = length (flat ls) ∧ bp = (label + 1 + length cur)%nat ∧ stands dst 0 (flat ls) ∧ stands dst (S label) cur ∧
  Forall label_ok ls ∧ bytes_ok cur.

(** A legal name. *)
Definition legal_name (dst : list Z) : Prop :=
  ∃ ls, Forall label_ok ls ∧ (length (enc ls) <= 255)%nat ∧ (length (enc ls) <= length dst)%nat ∧ take (length (enc ls)) dst = enc ls.

Definition pton_safe (dst : list Z) (label bp : nat) (a : answer) (dst' : list Z) : Prop :=
  length dst' = length dst ∧
  match a with
  | Error e => e = EMSGSIZE
  | Ok v => (v = 0 ∨ v = 1) ∧ (bp <= 255)%nat ∧ ∀ ls cur, partial dst label bp ls cur → legal_name dst'
  end.

Lemma safe_fail dst label bp dst' : length dst' = length dst → ∃ a dst'', Val (Error EMSGSIZE, dst') = Val (a, dst'') ∧ pton_safe dst label bp a dst''.
Proof. intros H. by eexists _, _. Qed.

(** The number of a label whose length passed the test. *)
Lemma label_fits c : 0 <= c <= 255 → (Z.land c NS_CMPRSFLGS =? 0) = true → c < 64.
Proof.
  intros Hc Hl. destruct (decide (c < 64)); [done|]. destruct (decide (c < 192)).
  - destruct (flags_illegal c) as [E _]; [lia|]. congruence.
  - destruct (flags_pointer c) as [E _]; [lia|]. congruence.
Qed.

(** Closing the label. *)
Lemma partial_close dst label bp ls cur :
  partial dst label bp ls cur → (label < length dst)%nat → (1 <= length cur < 64)%nat →
  stands (splice dst label [wrapu 8 (Z.of_nat bp - Z.of_nat label - 1)]) 0 (flat (ls ++ [cur])) ∧
  Forall label_ok (ls ++ [cur]) ∧ bp = length (flat (ls ++ [cur])).
Proof.
  intros (Hlab & Hbp & Hs & Hc & Hls & Hb) Hlt Hcur.
  assert (wrapu 8 (Z.of_nat bp - Z.of_nat label - 1) = Z.of_nat (length cur)) as ->
    by (rewrite <- wrap_label by lia; f_equal; lia).
  rewrite flat_snoc, length_app. cbn [enc_label length]. split_and!.
  - apply stands_app; [apply stands_splice; [cbn; lia|done|cbn; lia]|]. cbn [Nat.add]. rewrite <- Hlab.
    apply (stands_app _ _ [Z.of_nat (length cur)] cur); [by apply stands_written; cbn; lia|].
    cbn [length]. rewrite Nat.add_1_r. apply stands_splice; [cbn; lia|done|cbn; lia].
  - apply Forall_app. split; [done|]. by apply Forall_singleton.
  - lia.
Qed.

Lemma pton_end_safe dst label bp v :
  (v = 0 ∨ v = 1) → (label < bp)%nat → ∃ a dst', pton_end dst label bp v = Val (a, dst') ∧ pton_safe dst label bp a dst'.
Proof.
  intros Hv Hlb. unfold pton_end. set (c := Z.of_nat bp - Z.of_nat label - 1).
  destruct (Z.land c NS_CMPRSFLGS =? 0) eqn:Efl; cbn [negb]; [|by apply safe_fail].
  destruct (Nat.leb_spec (length dst) label) as [|Hlab]; [by apply safe_fail|].
  rewrite write_splice by (cbn; lia). cbn [mbind outcome_bind]. assert (length (splice dst label [wrapu 8 c]) = length dst) as Hl1 by (apply splice_length; cbn; lia).
  destruct (Z.eqb_spec c 0) as [Hc|Hc]; cbn [negb andb mbind outcome_bind].
  - destruct (Z.ltb_spec NS_MAXCDNAME (Z.of_nat bp)) as [|Hmax]; [by apply safe_fail|]. eexists _, _. split; [done|]. split; [done|].
    unfold NS_MAXCDNAME in *. split_and!; [done|lia|]. intros ls cur (Hlb' & Hbp & Hs & _ & Hls & _).
    assert (cur = []) as -> by (apply nil_length_inv; lia). exists ls. rewrite enc_flat, length_app. cbn [length] in *. split_and!; [done|lia|lia|].
    replace (length (flat ls) + 1)%nat with (length (flat ls ++ [0])) by (by rewrite length_app). apply stands_take; [|rewrite length_app; cbn; lia].
    apply stands_app; [apply stands_splice; [cbn; lia|done|lia]|]. rewrite Hc. cbn [Nat.add]. rewrite <- Hlb'. by apply stands_written; cbn; lia.
  - destruct (Nat.leb_spec (length dst) bp) as [|Hbp]; [by apply safe_fail|]. rewrite write_splice by (cbn; lia). cbn [mbind outcome_bind].
    assert (length (splice (splice dst label [wrapu 8 c]) bp [0]) = length dst) as Hl2 by (rewrite splice_length; cbn; lia).
    destruct (Z.ltb_spec NS_MAXCDNAME (Z.of_nat (S bp))) as [|Hmax]; [by apply safe_fail|]. eexists _, _. split; [done|]. split; [done|].
    unfold NS_MAXCDNAME in *. split_and!; [done|lia|]. intros ls cur Hp. pose proof Hp as (Hlb' & Hbp' & _).
    apply label_fits in Efl; [|lia]. destruct (partial_close dst label bp ls cur Hp Hlab) as (Hst & Hls & Hbpl); [lia|].
    exists (ls ++ [cur]). rewrite enc_flat, length_app, <- Hbpl. cbn [length]. split_and!; [done|lia|lia|].
    replace (bp + 1)%nat with (length (flat (ls ++ [cur]) ++ [0])) by (rewrite length_app, <- Hbpl; done).
    apply stands_take; [|rewrite length_app, <- Hbpl; cbn; lia].
    apply stands_app; [apply stands_splice; [cbn; lia|done|lia]|]. cbn [Nat.add]. rewrite <- Hbpl. by apply stands_written; cbn; lia.
Qed.

Lemma partial_store dst label bp ls cur c :
  0 <= c < 256 → (bp < length dst)%nat → partial dst label bp ls cur → partial (splice dst bp [c]) label (S bp) ls (cur ++ [c]).
Proof.
  intros Hc Hb (Hlab & Hbp & Hs & Hcur & Hls & Hbo). split_and!; [done|rewrite length_app; cbn; lia| | |done|].
  - apply stands_splice; [cbn; lia|done|lia].
  - apply stands_app; [apply stands_splice; [cbn; lia|done|lia]|]. replace (S label + length cur)%nat with bp by lia. by apply stands_written; cbn; lia.
  - apply Forall_app. split; [done|]. by apply Forall_singleton.
Qed.

(** Storing a character and going on. *)
Lemma store_safe dst label bp c (k : list Z → nat → outcome (answer * list Z)) :
  0 <= c < 256 →
  (∀ dst1, ∃ a dst', k dst1 (S bp) = Val (a, dst') ∧ pton_safe dst1 label (S bp) a dst') →
  ∃ a dst', (if (length dst <=? bp)%nat then Val (Error EMSGSIZE, dst) else dst ← write_at dst bp [c]; k dst (S bp)) = Val (a, dst') ∧
    pton_safe dst label bp a dst'.
Proof.
  intros Hc Hk. destruct (Nat.leb_spec (length dst) bp) as [|Hb]; [by apply safe_fail|]. rewrite write_splice by (cbn; lia). cbn [mbind outcome_bind].
  destruct (Hk (splice dst bp [c])) as (a & dst' & -> & Hl & Ha). exists a, dst'. split; [done|].
  split; [rewrite Hl; apply splice_length; cbn; lia|]. destruct a as [v|e]; [|done]. destruct Ha as (Hv & Hbp & Hp). split_and!; [done|lia|].
  intros ls cur H. apply (Hp ls (cur ++ [c])). by apply partial_store.
Qed.

Lemma pton_loop_safe n s t escaped dst label bp :
  (length s <= n)%nat → nul_free s → bytes_ok s → (label < bp)%nat →
  ∃ a dst', pton_loop (s ++ 0 :: t) escaped dst label bp = Val (a, dst') ∧ pton_safe dst label bp a dst'.
Proof.
  revert s escaped dst label bp. induction n as [|n IH]; intros s escaped dst label bp Hn Hnf Hb Hlb.
  { apply Nat.le_0_r, nil_length_inv in Hn as ->. cbn [app pton_loop]. rewrite Z.eqb_refl. destruct escaped; [by apply safe_fail|].
    apply pton_end_safe; [by left|done]. }
  destruct s as [|c s].
  { cbn [app pton_loop]. rewrite Z.eqb_refl. destruct escaped; [by apply safe_fail|]. apply pton_end_safe; [by left|done]. }
  apply nul_free_cons in Hnf as [Hc0 Hnf]. apply bytes_ok_cons in Hb as [Hc Hb]. cbn [length] in Hn.
  assert (∀ x s' dst, 0 <= x < 256 → (length s' <= n)%nat → nul_free s' → bytes_ok s' →
    ∃ a dst', (if (length dst <=? bp)%nat then Val (Error EMSGSIZE, dst)
      else dst ← write_at dst bp [x]; pton_loop (s' ++ 0 :: t) false dst label (S bp)) = Val (a, dst') ∧ pton_safe dst label bp a dst') as Hstore.
  { intros x s' dst0 Hx H1 H2 H3. apply (store_safe dst0 label bp x (λ d b, pton_loop (s' ++ 0 :: t) false d label b)); [done|].
    intros dst1. apply IH; [done|done|done|lia]. }
  cbn [app]. destruct escaped.
  - (* after a backslash *)
    cbn [pton_loop]. rewrite (proj2 (Z.eqb_neq _ _) Hc0). destruct (isdigit c) eqn:Ed; [|apply Hstore; [done|lia|done|done]].
    destruct s as [|c2 s]; [by apply safe_fail|]. apply nul_free_cons in Hnf as [_ Hnf]. apply bytes_ok_cons in Hb as [_ Hb]. cbn [app].
    destruct (isdigit c2) eqn:Ed2; cbn [negb]; [|by apply safe_fail].
    destruct s as [|c3 s]; [by apply safe_fail|]. apply nul_free_cons in Hnf as [_ Hnf]. apply bytes_ok_cons in Hb as [_ Hb]. cbn [app].
    destruct (isdigit c3) eqn:Ed3; cbn [negb]; [|by apply safe_fail].
    destruct (Z.ltb_spec 255 ((c - ZERO) * 100 + (c2 - ZERO) * 10 + (c3 - ZERO))); [by apply safe_fail|].
    apply Hstore; [|cbn [length] in Hn; lia|done|done]. unfold isdigit, ZERO in *. lia.
  - destruct (decide (c = DOT)) as [->|Hdot].
    + (* a dot *)
      assert (∃ y s', s ++ 0 :: t = y :: s' ∧ (y = 0 ∨ s ≠ [])) as (y & s' & Es & Hy) by (destruct s; eexists _, _; split; [done|by left|done|by right]).
      cbn [pton_loop]. rewrite (proj2 (Z.eqb_neq DOT 0)), (proj2 (Z.eqb_neq DOT BACKSLASH)), Z.eqb_refl by done.
      set (rest := s ++ 0 :: t) in *. rewrite Es.
      destruct (Z.eqb_spec y 0) as [->|Hy0]; [apply pton_end_safe; [by right|done]|]. rewrite <- Es. unfold rest.
      destruct (Z.land _ NS_CMPRSFLGS =? 0) eqn:Efl; cbn [negb]; [|by apply safe_fail].
      destruct (Nat.leb_spec (length dst) label) as [|Hlab]; [by apply safe_fail|]. rewrite write_splice by (cbn; lia). cbn [mbind outcome_bind].
      assert (length (splice dst label [wrapu 8 (Z.of_nat bp - Z.of_nat label - 1)]) = length dst) as Hl1 by (apply splice_length; cbn; lia).
      destruct (Z.eqb_spec (Z.of_nat bp - Z.of_nat label - 1) 0) as [|Hl0]; cbn [orb]; [by apply safe_fail|].
      destruct (y =? DOT); [by apply safe_fail|].
      destruct (IH s false (splice dst label [wrapu 8 (Z.of_nat bp - Z.of_nat label - 1)]) bp (S bp)) as (a & dst' & -> & Hl & Ha); [lia|done|done|lia|].
      exists a, dst'. split; [done|]. split; [by rewrite Hl|]. destruct a as [v|e]; [|done]. destruct Ha as (Hv & Hbp & Hp). split_and!; [done|lia|].
      intros ls cur H. pose proof H as (Hlb' & Hbp' & _). apply label_fits in Efl; [|lia].
      destruct (partial_close dst label bp ls cur H Hlab) as (Hst & Hls & Hbpl); [lia|]. apply (Hp (ls ++ [cur]) []).
      split_and!; [done|cbn; lia|done| |done|by constructor]. intros i Hi. cbn in Hi. lia.
    + cbn [pton_loop]. rewrite (proj2 (Z.eqb_neq _ _) Hc0), (proj2 (Z.eqb_neq _ _) Hdot).
      destruct (c =? BACKSLASH); [apply IH; [lia|done|done|done]|]. apply Hstore; [done|lia|done|done].
Qed.

(** ** Compression of text *)

Lemma text_label_length l : (length (text_label l) <= 4 * length l)%nat.
Proof.
  induction l as [|c l IH]; [cbn; lia|]. rewrite text_label_cons, length_app. pose proof (text_char_length c). cbn [length]. lia.
Qed.

Lemma text_tail_length ls : (length (text_tail ls) + 4 <= 4 * length (enc ls))%nat.
Proof.
  induction ls as [|l ls IH]; [cbn; lia|]. change (text_tail (l :: ls)) with ((DOT :: text_label l) ++ text_tail ls).
  rewrite length_app, enc_cons. pose proof (text_label_length l). cbn [length]. lia.
Qed.

(** The text of a legal name fits the buffers of the callers. *)
Lemma text_length ls : (length (text ls) <= 4 * length (enc ls))%nat.
Proof.
  destruct ls as [|l ls]; [cbn; lia|]. cbn [text]. rewrite length_app, enc_cons. pose proof (text_label_length l). pose proof (text_tail_length ls). lia.
Qed.

Lemma same_label_ok a b : same_label a b → bytes_ok a → label_ok b → label_ok a.
Proof. intros H Ha [Hl _]. apply (f_equal length) in H. rewrite !length_fmap in H. split; [by rewrite H|done]. Qed.

Lemma wired_bytes m s o ls e : bytes_ok m → wired m s o ls e → Forall bytes_ok ls.
Proof.
  intros Hm. induction 1 as [s o E|s o l ls e E Hl El _ IH|s o n lo ls e E Hn El _ IH He]; [done| |done].
  constructor; [|done]. rewrite El. by apply Forall_take, Forall_drop.
Qed.

Lemma same_names_ok ls D : same_names ls D → Forall bytes_ok ls → Forall label_ok D → Forall label_ok ls.
Proof.
  induction 1 as [|a b ls D Hab _ IH]; intros Hb HD; [done|]. apply Forall_cons in Hb as [Ha Hb]. apply Forall_cons in HD as [Hd HD].
  constructor; [by eapply same_label_ok|by apply IH].
Qed.

(** A text packed into a message, and the text unpacked from it. *)
Lemma compress_spec m D t dst dstsiz arr last tmp :
  bytes_ok m → Forall label_ok D → Z.of_nat (length (enc D)) <= NS_MAXCDNAME → table m dst arr →
  Z.of_nat dst + wraps 32 dstsiz <= Z.of_nat (length m) → (∀ k, last = Some k → (k <= length arr)%nat) → length tmp = Z.to_nat NS_MAXCDNAME →
  ns_name_compress m (text D ++ 0 :: t) dst dstsiz (Some arr) last tmp
  = ns_name_pack m (enc D ++ drop (length (enc D)) tmp) dst (wraps 32 dstsiz) (Some arr) last.
Proof.
  intros Hm HD Hlen Htab Hsize Hlast Htmp. unfold ns_name_compress, NS_MAXCDNAME in *.
  destruct (pton_spec D t tmp HD) as (a & dst' & -> & Hl & Ha). cbn [mbind outcome_bind fst snd].
  rewrite decide_True in Ha by (cbn [length]; lia). destruct Ha as [-> ->]. done.
Qed.

Lemma uncompress_spec m o ls e eom dst tmp :
  bytes_ok m → wired m o o ls e → Forall label_ok ls → (length (enc ls) <= 255)%nat → (e <= eom <= length m)%nat →
  length tmp = Z.to_nat NS_MAXCDNAME → (length (text ls) < length dst)%nat →
  ns_name_uncompress (take eom m) (Z.of_nat o) dst tmp
  = Val (Ok (Z.of_nat e - Z.of_nat o), text ls ++ 0 :: drop (S (length (text ls))) dst).
Proof.
  intros Hm Hw Hls Hle He Htmp Hfit. unfold ns_name_uncompress, NS_MAXCDNAME in *.
  rewrite (packed_unpack m o ls ls e eom tmp) by (done || lia || (by apply Forall2_same_length_lookup_2; [|naive_solver])). cbn [mbind outcome_bind fst snd].
  destruct (ntop_spec ls (drop (length (enc ls)) tmp) dst Hls) as (a & dst' & -> & _ & Ha). cbn [mbind outcome_bind fst snd].
  rewrite decide_True in Ha by done. destruct Ha as [-> ->]. done.
Qed.

(** ** The properties *)

(** C12. For every legal name ns_name_ntop writes exactly its escaped text with
    a NUL, which is shorter than NS_MAXDNAME, or fails with EMSGSIZE when and
    only when that does not fit; ns_name_pton turns the text back into the
    name, or fails when and only when the name does not fit. *)
Theorem ns_name_text_roundtrip (ls : list (list Z)) (t t' dst tmp : list Z) :
  Forall label_ok ls → (length (enc ls) <= 255)%nat →
  Z.of_nat (length (text ls)) < NS_MAXDNAME ∧
  (∃ a dst', ns_name_ntop (enc ls ++ t) dst = Val (a, dst') ∧ length dst' = length dst ∧
     if decide (length (text ls) < length dst)%nat
     then a = Ok (Z.of_nat (length (text ls) + 1)) ∧ dst' = text ls ++ 0 :: drop (S (length (text ls))) dst
     else a = Error EMSGSIZE) ∧
  (∃ a tmp', ns_name_pton (text ls ++ 0 :: t') tmp = Val (a, tmp') ∧ length tmp' = length tmp ∧
     if decide (length (enc ls) <= length tmp)%nat
     then a = Ok (if decide (ls = []) then 1 else 0) ∧ tmp' = enc ls ++ drop (length (enc ls)) tmp
     else a = Error EMSGSIZE).
Proof.
  intros Hls Hle. split; [pose proof (text_length ls); unfold NS_MAXDNAME; lia|]. split.
  - destruct (ntop_spec ls t dst Hls) as (a & dst' & E & Hl & Ha). by exists a, dst'.
  - destruct (pton_spec ls t' tmp Hls) as (a & tmp' & E & Hl & Ha). exists a, tmp'. split; [done|]. split; [done|]. cbn [length app] in Ha.
    destruct (decide (length (enc ls) <= length tmp)%nat); [by rewrite decide_True in Ha by lia|by rewrite decide_False in Ha by lia].
Qed.

(** On every string ns_name_pton stays inside the string and the buffer,
    and whatever it accepts is a legal name: labels of 1 to 63 bytes and at
    most 255 bytes with the root label, although its test of a label's length
    lets through lengths from 256 on. *)
Theorem ns_name_pton_safety (s t dst : list Z) :
  nul_free s → bytes_ok s →
  ∃ a dst', ns_name_pton (s ++ 0 :: t) dst = Val (a, dst') ∧ length dst' = length dst ∧
    match a with
    | Error e => e = EMSGSIZE
    | Ok v => (v = 0 ∨ v = 1) ∧ ∃ ls, Forall label_ok ls ∧ (length (enc ls) <= 255)%nat ∧ (length (enc ls) <= length dst)%nat ∧
        take (length (enc ls)) dst' = enc ls
    end.
Proof.
  intros Hn Hb. destruct (pton_loop_safe (length s) s t false dst 0 1) as (a & dst' & E & Hl & Ha); [lia|done|done|lia|].
  exists a, dst'. split; [done|]. split; [done|]. destruct a as [v|e]; [|done]. destruct Ha as (Hv & _ & Hp). split; [done|].
  rewrite <- Hl. apply (Hp [] []). split_and!; [done|done| | |done|by constructor]; intros i Hi; cbn in Hi; lia.
Qed.

(** The text of a legal name, compressed into a message with space for it,
    is uncompressed to the text of the same name up to the case of letters, in
    a buffer of NS_MAXDNAME bytes, and the table of names stays valid for
    further calls. *)
Theorem ns_name_compress_roundtrip (m : list Z) (D : list (list Z)) (t : list Z) (dst : nat) (dstsiz : Z) (arr : list (option nat))
    (last : option nat) (tmp : list Z) :
  bytes_ok m → Forall label_ok D → Z.of_nat (length (enc D)) <= NS_MAXCDNAME → table m dst arr →
  0 <= dstsiz < 2 ^ 31 → Z.of_nat dst + dstsiz <= Z.of_nat (length m) → (∀ k, last = Some k → (k <= length arr)%nat) →
  length tmp = Z.to_nat NS_MAXCDNAME → Z.of_nat (length (enc D)) <= dstsiz →
  ∃ k m' arr' D', ns_name_compress m (text D ++ 0 :: t) dst dstsiz (Some arr) last tmp = Val (Ok k, m', arr') ∧
    1 <= k <= Z.of_nat (length (enc D)) ∧ table m' (dst + Z.to_nat k) arr' ∧ same_names D' D ∧
    ∀ eom buf, (dst + Z.to_nat k <= eom <= length m')%nat → Z.of_nat (length buf) = NS_MAXDNAME →
      ns_name_uncompress (take eom m') (Z.of_nat dst) buf tmp = Val (Ok k, text D' ++ 0 :: drop (S (length (text D'))) buf).
Proof.
  intros Hm HD Hlen Htab Hd Hsize Hlast Htmp Hfit.
  assert (wraps 32 dstsiz = dstsiz) as Hwr by (apply wraps_small; [lia|]; change (32 - 1) with 31; lia).
  rewrite compress_spec by (rewrite ?Hwr; done). rewrite Hwr.
  destruct (pack_spec m D (drop (length (enc D)) tmp) dst dstsiz arr last Hm HD Hlen Htab Hsize Hlast) as (a & m' & arr' & -> & Hb & Hl & _ & Ha).
  destruct a as [k|e]; [|lia]. destruct Ha as (Hk & Hk' & Ht & _ & D' & Hs & Hw).
  exists k, m', arr', D'. split_and!; [done|lia|lia|done|done|]. intros eom buf He Hbuf. pose proof (same_names_length _ _ Hs) as Hlen'.
  unfold NS_MAXCDNAME, NS_MAXDNAME in *. pose proof (text_length D').
  rewrite (uncompress_spec m' dst D' (dst + Z.to_nat k)); [do 3 f_equal; lia|done|done| |lia|done|done|lia].
  eapply same_names_ok; [exact Hs|by eapply wired_bytes|done].
Qed.

(** ** Concrete names *)

Lemma label_okb l : (1 <=? length l)%nat && (length l <? 64)%nat && forallb (λ b, (0 <=? b) && (b <? 256)) l = true → label_ok l.
Proof. intros H. apply andb_true_iff in H as [[H1 H2]%andb_true_iff H3]. split; [|by apply bytes_okb]. apply Nat.leb_le in H1. apply Nat.ltb_lt in H2. lia. Qed.

(** A label with a dot and a byte that cannot be printed. *)
Definition demo_name : list (list Z) := [$"a.b"; [200; 65]; $"com"].

Lemma demo_name_ok : Forall label_ok demo_name.
Proof. repeat (apply Forall_cons; split; [apply label_okb; reflexivity|]). by apply Forall_nil. Qed.

Lemma ns_name_text_roundtrip_witness :
  text demo_name = $"a\.b.\200A.com" ∧
  Z.of_nat (length (text demo_name)) < NS_MAXDNAME ∧
  (∃ a dst', ns_name_ntop (enc demo_name ++ []) (replicate 20 0) = Val (a, dst') ∧ length dst' = 20%nat ∧
     if decide (length (text demo_name) < 20)%nat
     then a = Ok (Z.of_nat (length (text demo_name) + 1)) ∧ dst' = text demo_name ++ 0 :: drop (S (length (text demo_name))) (replicate 20 0)
     else a = Error EMSGSIZE) ∧
  (∃ a tmp', ns_name_pton (text demo_name ++ 0 :: []) (replicate 20 0) = Val (a, tmp') ∧ length tmp' = 20%nat ∧
     if decide (length (enc demo_name) <= 20)%nat
     then a = Ok (if decide (demo_name = []) then 1 else 0) ∧ tmp' = enc demo_name ++ drop (length (enc demo_name)) (replicate 20 0)
     else a = Error EMSGSIZE).
Proof.
  split; [reflexivity|]. apply (ns_name_text_roundtrip demo_name [] [] (replicate 20 0) (replicate 20 0)); [exact demo_name_ok|vm_compute; lia].
Defined.

Lemma ns_name_pton_safety_witness :
  ∃ a dst', ns_name_pton ($"a\046b.\999" ++ 0 :: []) (replicate 20 0) = Val (a, dst') ∧ length dst' = 20%nat ∧
    match a with
    | Error e => e = EMSGSIZE
    | Ok v => (v = 0 ∨ v = 1) ∧ ∃ ls, Forall label_ok ls ∧ (length (enc ls) <= 255)%nat ∧ (length (enc ls) <= 20)%nat ∧
        take (length (enc ls)) dst' = enc ls
    end.
Proof.
  apply (ns_name_pton_safety ($"a\046b.\999") [] (replicate 20 0)); [repeat constructor; discriminate|apply bytes_okb; reflexivity].
Defined.

Lemma ns_name_compress_roundtrip_witness :
  ∃ k m' arr' D', ns_name_compress (demo_message ++ replicate 20 0) (text [$"mail"; $"EXAMPLE"; $"com"] ++ 0 :: []) 35 20 (Some demo_array) (Some 4%nat)
      (replicate 255 0) = Val (Ok k, m', arr') ∧
    1 <= k <= 18 ∧ table m' (35 + Z.to_nat k) arr' ∧ same_names D' [$"mail"; $"EXAMPLE"; $"com"] ∧
    ∀ eom buf, (35 + Z.to_nat k <= eom <= length m')%nat → Z.of_nat (length buf) = NS_MAXDNAME →
      ns_name_uncompress (take eom m') 35 buf (replicate 255 0) = Val (Ok k, text D' ++ 0 :: drop (S (length (text D'))) buf).
Proof.
  apply (ns_name_compress_roundtrip (demo_message ++ replicate 20 0) [$"mail"; $"EXAMPLE"; $"com"] [] 35 20 demo_array (Some 4%nat) (replicate 255 0)).
  - apply bytes_okb. reflexivity.
  - repeat (apply Forall_cons; split; [apply label_okb; reflexivity|]). by apply Forall_nil.
  - vm_compute. discriminate.
  - exact demo_table.
  - lia.
  - vm_compute. discriminate.
  - intros k E. injection E as <-. cbn. lia.
  - reflexivity.
  - vm_compute. discriminate.
Defined.

(** ** Two cases the callers avoid *)

(** With an empty buffer the root label is stored past its end. *)
Example unpack_empty_buffer : ns_name_unpack [0] 0 [] = Fault.
Proof. reflexivity. Qed.

(** [ns_makecanon] looks at two characters before a trailing dot: after three
    backslashes, the last of which escapes it, the dot is taken for a
    separator. *)
Example makecanon_three_backslashes :
  ns_makecanon ($"a\\\." ++ [0]) (replicate 8 0) = Val (Ok 0, $"a\\\." ++ [0; 0; 0]).
Proof. reflexivity. Qed.
End NsText.
