(* ===== verification/LongLong.v ===== *)
(** * Double-word arithmetic: the portable macros of [stdlib/longlong.h]

    A word has 64 bits.  [umul_ppmm] multiplies two words from four products
    of half words, [udiv_qrnnd] divides two words by a normalised one with
    two estimates of half a word each. *)

From S2P Require Import Prelude.
Local Open Scope Z_scope.

Module LongLong.

Definition B : Z := 18446744073709551616.
Definition ll_B : Z := 4294967296.

Definition wrap (x : Z) : Z := wrapu 64 x.
Definition b2z (b : bool) : Z := if b then 1 else 0.

Definition ll_lowpart (t : Z) : Z := Z.land t (ll_B - 1).
Definition ll_highpart (t : Z) : Z := Z.shiftr t 32.

(** The pairs are the high and the low word. *)
Definition add_ssaaaa (ah al bh bl : Z) : Z * Z :=
  let x := wrap (al + bl) in
  (wrap (ah + bh + b2z (x <? al)), x).

Definition sub_ddmmss (ah al bh bl : Z) : Z * Z :=
  let x := wrap (al - bl) in
  (wrap (ah - bh - b2z (al <? x)), x).

Definition umul_ppmm (u v : Z) : Z * Z :=
  let ul := ll_lowpart u in
  let uh := ll_highpart u in
  let vl := ll_lowpart v in
  let vh := ll_highpart v in
  let x0 := wrap (ul * vl) in
  let x1 := wrap (ul * vh) in
  let x2 := wrap (uh * vl) in
  let x3 := wrap (uh * vh) in
  let x1 := wrap (x1 + ll_highpart x0) in
  let x1 := wrap (x1 + x2) in
  let x3 := if x1 <? x2 then wrap (x3 + ll_B) else x3 in
  (wrap (x3 + ll_highpart x1), wrap (wrap (ll_lowpart x1 * ll_B) + ll_lowpart x0)).

(** Half a word of the quotient of [n1] and the half word [nh] by [d], and
    what is left. *)
Definition div_half (n1 nh d : Z) : Z * Z :=
  let d1 := ll_highpart d in
  let d0 := ll_lowpart d in
  let r := n1 mod d1 in
  let q := n1 / d1 in
  let m := wrap (q * d0) in
  let r := Z.lor (wrap (r * ll_B)) nh in
  let '(q, r) :=
    if r <? m then
      let q := wrap (q - 1) in
      let r := wrap (r + d) in
      if (d <=? r) && (r <? m) then (wrap (q - 1), wrap (r + d)) else (q, r)
    else (q, r) in
  (q, wrap (r - m)).

(** [__udiv_qrnnd_c]: quotient and remainder of [n1 * B + n0] by [d]. *)
Definition udiv_qrnnd (n1 n0 d : Z) : Z * Z :=
  let '(q1, r1) := div_half n1 (ll_highpart n0) d in
  let '(q0, r0) := div_half r1 (ll_lowpart n0) d in
  (Z.lor (wrap (q1 * ll_B)) q0, r0).

(** ** Words *)

Definition word (x : Z) : Prop := 0 <= x < B.

Lemma wrap_mod x : wrap x = x mod B.
Proof. done. Qed.

Lemma wrap_word x : word (wrap x).
Proof. rewrite wrap_mod. apply Z.mod_pos_bound. done. Qed.

Lemma wrap_id x : word x → wrap x = x.
Proof. intros H. rewrite wrap_mod. by apply Z.mod_small. Qed.

(** One more or one less than a word. *)
Lemma wrap_over x : B <= x < 2 * B → wrap x = x - B.
Proof. intros H. rewrite wrap_mod. symmetry. apply Z.mod_unique with 1; unfold B in *; lia. Qed.

Lemma wrap_under x : - B <= x < 0 → wrap x = x + B.
Proof. intros H. rewrite wrap_mod. symmetry. apply Z.mod_unique with (-1); unfold B in *; lia. Qed.

Lemma parts x : word x → x = ll_highpart x * ll_B + ll_lowpart x ∧ 0 <= ll_highpart x < ll_B ∧ 0 <= ll_lowpart x < ll_B.
Proof.
  intros H. unfold ll_highpart, ll_lowpart. change (ll_B - 1) with (Z.ones 32). rewrite Z.land_ones, Z.shiftr_div_pow2 by lia.
  change (2 ^ 32) with ll_B. pose proof (Z.div_mod x ll_B ltac:(done)). pose proof (Z.mod_pos_bound x ll_B ltac:(done)).
  unfold word, B, ll_B in *. lia.
Qed.

(** ** Addition and subtraction *)

Lemma add_ssaaaa_spec ah al bh bl :
  word al → word bl → let '(h, l) := add_ssaaaa ah al bh bl in word h ∧ word l ∧ (h * B + l) mod (B * B) = (ah * B + al + (bh * B + bl)) mod (B * B).
Proof.
  intros Ha Hb. unfold add_ssaaaa. split; [apply wrap_word|]. split; [apply wrap_word|].
  assert (wrap (al + bl) = al + bl - B * b2z (wrap (al + bl) <? al)) as E.
  { destruct (decide (al + bl < B)) as [H|H].
    - rewrite wrap_id by (unfold word in *; lia). rewrite (proj2 (Z.ltb_ge _ _)) by (unfold word in *; lia). cbn. lia.
    - rewrite wrap_over by (unfold word in *; lia). rewrite (proj2 (Z.ltb_lt _ _)) by (unfold word in *; lia). cbn. lia. }
  set (c := b2z _) in *. rewrite E. rewrite (wrap_mod (ah + bh + c)).
  rewrite (Z.mod_eq (ah + bh + c) B) by done.
  replace ((ah + bh + c - B * ((ah + bh + c) / B)) * B + (al + bl - B * c))
    with (ah * B + al + (bh * B + bl) + - ((ah + bh + c) / B) * (B * B)) by ring.
  by rewrite Z_mod_plus_full.
Qed.

Lemma sub_ddmmss_spec ah al bh bl :
  word al → word bl → let '(h, l) := sub_ddmmss ah al bh bl in word h ∧ word l ∧ (h * B + l) mod (B * B) = (ah * B + al - (bh * B + bl)) mod (B * B).
Proof.
  intros Ha Hb. unfold sub_ddmmss. split; [apply wrap_word|]. split; [apply wrap_word|].
  assert (wrap (al - bl) = al - bl + B * b2z (al <? wrap (al - bl))) as E.
  { destruct (decide (0 <= al - bl)) as [H|H].
    - rewrite wrap_id by (unfold word in *; lia). rewrite (proj2 (Z.ltb_ge _ _)) by (unfold word in *; lia). cbn. lia.
    - rewrite wrap_under by (unfold word in *; lia). rewrite (proj2 (Z.ltb_lt _ _)) by (unfold word in *; lia). cbn. lia. }
  set (c := b2z _) in *. rewrite E. rewrite (wrap_mod (ah - bh - c)). rewrite (Z.mod_eq (ah - bh - c) B) by done.
  replace ((ah - bh - c - B * ((ah - bh - c) / B)) * B + (al - bl + B * c))
    with (ah * B + al - (bh * B + bl) + - ((ah - bh - c) / B) * (B * B)) by ring.
  by rewrite Z_mod_plus_full.
Qed.

(** ** Multiplication *)

Lemma umul_ppmm_spec u v : word u → word v → let '(h, l) := umul_ppmm u v in word h ∧ word l ∧ h * B + l = u * v.
Proof.
  intros Hu Hv. destruct (parts u Hu) as (Eu & Huh & Hul). destruct (parts v Hv) as (Ev & Hvh & Hvl). unfold umul_ppmm.
  set (ul := ll_lowpart u) in *. set (uh := ll_highpart u) in *. set (vl := ll_lowpart v) in *. set (vh := ll_highpart v) in *. clearbody ul uh vl vh.
  assert (∀ a b, 0 <= a < ll_B → 0 <= b < ll_B → 0 <= a * b <= 18446744065119617025) as Hp by (unfold ll_B; intros; nia).
  pose proof (Hp ul vl Hul Hvl) as P0. pose proof (Hp ul vh Hul Hvh) as P1. pose proof (Hp uh vl Huh Hvl) as P2. pose proof (Hp uh vh Huh Hvh) as P3.
  assert (u * v = uh * vh * B + (ul * vh + uh * vl) * ll_B + ul * vl) as Emul by (rewrite Eu, Ev; change B with (ll_B * ll_B); ring).
  rewrite Emul. clear Emul Eu Ev Hu Hv Hp. set (p0 := ul * vl) in *. set (p1 := ul * vh) in *. set (p2 := uh * vl) in *. set (p3 := uh * vh) in *.
  clearbody p0 p1 p2 p3. assert (∀ p, 0 <= p <= 18446744065119617025 → word p) as Hw by (unfold word, B; lia).
  rewrite !(wrap_id p0), !(wrap_id p1), !(wrap_id p2), !(wrap_id p3) by auto.
  destruct (parts p0 (Hw _ P0)) as (E0 & H0h & H0l). set (a := ll_highpart p0) in *. set (b := ll_lowpart p0) in *. clearbody a b.
  rewrite (wrap_id (p1 + a)) by (unfold word, B, ll_B in *; lia).
  destruct (decide (p1 + a + p2 < B)) as [Hc|Hc].
  - rewrite (wrap_id (p1 + a + p2)) by (unfold word; lia). rewrite (proj2 (Z.ltb_ge _ _)) by (unfold ll_B in *; lia).
    destruct (parts (p1 + a + p2)) as (E1 & H1h & H1l); [unfold word; lia|]. set (c := ll_highpart (p1 + a + p2)) in *.
    set (e := ll_lowpart (p1 + a + p2)) in *. clearbody c e. split; [apply wrap_word|]. split; [apply wrap_word|].
    rewrite (wrap_id (e * ll_B)), (wrap_id (e * ll_B + b)), (wrap_id (p3 + c)) by (unfold word, B, ll_B in *; lia). unfold B, ll_B in *. lia.
  - rewrite (wrap_over (p1 + a + p2)) by (unfold B, ll_B in *; lia). rewrite (proj2 (Z.ltb_lt _ _)) by (unfold B, ll_B in *; lia).
    destruct (parts (p1 + a + p2 - B)) as (E1 & H1h & H1l); [unfold word, B, ll_B in *; lia|]. set (c := ll_highpart (p1 + a + p2 - B)) in *.
    set (e := ll_lowpart (p1 + a + p2 - B)) in *. clearbody c e. split; [apply wrap_word|]. split; [apply wrap_word|].
    rewrite (wrap_id (e * ll_B)), (wrap_id (e * ll_B + b)), (wrap_id (p3 + ll_B)), (wrap_id (p3 + ll_B + c)) by (unfold word, B, ll_B in *; lia).
    unfold B, ll_B in *. lia.
Qed.

(** ** Division *)

Definition normalised (d : Z) : Prop := B <= 2 * d < 2 * B.

Lemma div_half_spec n1 nh d :
  normalised d → 0 <= n1 < d → 0 <= nh < ll_B →
  let '(q, r) := div_half n1 nh d in 0 <= q < ll_B ∧ 0 <= r < d ∧ n1 * ll_B + nh = q * d + r.
Proof.
  intros Hd Hn Hh. unfold div_half. assert (word d) as Hwd by (unfold normalised, word, B in *; lia).
  destruct (parts d Hwd) as (Ed & Hd1 & Hd0). set (d1 := ll_highpart d) in *. set (d0 := ll_lowpart d) in *. clearbody d1 d0.
  assert (2147483648 <= d1) as Hbig by (unfold normalised, B, ll_B in *; lia).
  pose proof (Z.div_mod n1 d1 ltac:(lia)) as Ediv. pose proof (Z.mod_pos_bound n1 d1 ltac:(lia)) as Hmod.
  assert (0 <= n1 / d1 <= ll_B + 1) as Hq.
  { split; [apply Z.div_pos; lia|]. assert (n1 / d1 < ll_B + 2); [|lia]. apply Z.div_lt_upper_bound; [lia|]. unfold ll_B in *. nia. }
  set (qh := n1 / d1) in *. set (rm := n1 mod d1) in *. clearbody qh rm.
  assert (0 <= qh * d0 < B) as Hm by (unfold B, ll_B in *; nia).
  rewrite (wrap_id (qh * d0)) by done.
  assert (word (rm * ll_B)) as Hrm by (unfold word, B, ll_B in *; lia). rewrite (wrap_id (rm * ll_B)) by done.
  assert (Z.lor (rm * ll_B) nh = rm * ll_B + nh) as -> by (change ll_B with (2 ^ 32) in *; apply lor_low; lia).
  assert (n1 * ll_B + nh - qh * d = rm * ll_B + nh - qh * d0) as Ekey by (rewrite Ediv, Ed; ring).
  assert (0 <= rm * ll_B + nh < d) as Hr by (unfold ll_B in *; lia).
  set (r := rm * ll_B + nh) in *. set (m := qh * d0) in *. assert (0 <= n1 * ll_B + nh < d * ll_B) as HN by (unfold ll_B in *; lia).
  set (N := n1 * ll_B + nh) in *. clearbody r m N. clear Ediv Hmod Hrm Hn Hh Ed Hd0 Hd1 Hbig.
  assert (∀ q r', N = q * d + r' → 0 <= r' < d → 0 <= q < ll_B ∧ 0 <= r' < d ∧ N = q * d + r') as Hfin.
  { intros q r' E H. split_and!; try done; try lia; unfold ll_B in *; nia. }
  destruct (Z.ltb_spec r m) as [H1|H1].
  - destruct (decide (qh = 0)) as [->|Hq0]; [lia|].
    rewrite (wrap_id (qh - 1)) by (unfold word, B, ll_B in *; lia). destruct (decide (r + d < B)) as [Hc|Hc].
    + rewrite (wrap_id (r + d)) by (unfold word; lia). rewrite (proj2 (Z.leb_le d (r + d))) by lia. cbn [andb].
      destruct (Z.ltb_spec (r + d) m) as [H2|H2].
      * assert (1 < qh) by (destruct (decide (qh = 1)) as [->|]; lia). rewrite (wrap_id (qh - 1 - 1)) by (unfold word, B, ll_B in *; lia).
        assert (wrap (wrap (r + d + d) - m) = r + d + d - m) as ->.
        { destruct (decide (r + d + d < B)).
          - rewrite (wrap_id (r + d + d)) by (unfold word; lia). apply wrap_id. unfold word, normalised in *. lia.
          - rewrite (wrap_over (r + d + d)) by (unfold normalised in *; lia). rewrite wrap_under by (unfold normalised in *; lia). lia. }
        apply Hfin; unfold normalised in *; lia.
      * rewrite (wrap_id (r + d - m)) by (unfold word; lia). apply Hfin; lia.
    + rewrite (wrap_over (r + d)) by (unfold normalised in *; lia). rewrite (proj2 (Z.leb_gt d (r + d - B))) by lia. cbn [andb].
      rewrite wrap_under by (unfold normalised in *; lia). apply Hfin; unfold normalised in *; lia.
  - rewrite (wrap_id (r - m)) by (unfold word, normalised in *; lia). apply Hfin; lia.
Qed.

Lemma udiv_qrnnd_spec n1 n0 d :
  normalised d → 0 <= n1 < d → word n0 →
  let '(q, r) := udiv_qrnnd n1 n0 d in word q ∧ 0 <= r < d ∧ n1 * B + n0 = q * d + r.
Proof.
  intros Hd Hn H0. unfold udiv_qrnnd. destruct (parts n0 H0) as (E0 & Hh & Hl).
  pose proof (div_half_spec n1 (ll_highpart n0) d Hd Hn Hh) as H1. destruct (div_half n1 (ll_highpart n0) d) as [q1 r1]. destruct H1 as (Hq1 & Hr1 & E1).
  pose proof (div_half_spec r1 (ll_lowpart n0) d Hd Hr1 Hl) as H2. destruct (div_half r1 (ll_lowpart n0) d) as [q0 r0]. destruct H2 as (Hq0 & Hr0 & E2).
  rewrite wrap_id by (unfold word, B, ll_B in *; lia).
  assert (Z.lor (q1 * ll_B) q0 = q1 * ll_B + q0) as -> by (change ll_B with (2 ^ 32) in *; apply lor_low; lia).
  split; [unfold word, B, ll_B in *; lia|]. split; [done|]. change B with (ll_B * ll_B). rewrite E0 at 1.
  transitivity ((n1 * ll_B + ll_highpart n0) * ll_B + ll_lowpart n0); [ring|]. rewrite E1.
  transitivity (q1 * ll_B * d + (r1 * ll_B + ll_lowpart n0)); [ring|]. rewrite E2. ring.
Qed.
End LongLong.
