(* ===== verification/Mpn.v ===== *)
(** * Multi-precision arithmetic: the loops of [stdlib/]

    [add_n.c], [sub_n.c], [mul_1.c], [addmul_1.c], [submul_1.c], [lshift.c],
    [rshift.c], [cmp.c], the inline functions [mpn_add_1], [mpn_sub_1],
    [mpn_add] and [mpn_sub] of [gmp.h] and the macros [MPN_COPY_*] and
    [MPN_ZERO] of [gmp-impl.h], on a memory of 64-bit limbs in which the
    operands are ranges that may overlap as the comments allow.  [V m p n] is
    the number in the [n] limbs at [p], the least significant first.  The
    loops [do ... while (++j != 0)] are undefined for no limbs at all. *)

From S2P Require Import Prelude LongLong.
Local Open Scope Z_scope.

Module Mpn.
Import LongLong.

(** ** Memory *)

Definition M (A : Type) : Type := list Z → outcome (A * list Z).
#[export] Instance M_ret : MRet M := λ A a m, Val (a, m).
#[export] Instance M_bind : MBind M := λ A A' f c m,
  match c m with
  | Val (a, m) => f a m
  | Fault => Fault
  | NoFuel => NoFuel
  end.

Definition load (p : nat) : M Z := λ m, match m !! p with Some v => Val (v, m) | None => Fault end.
Definition store (p : nat) (v : Z) : M unit := λ m, if (p <? length m)%nat then Val (tt, <[p := v]> m) else Fault.
Definition fault {A : Type} : M A := λ _, Fault.

(** ** The macros *)

Fixpoint MPN_COPY (dst src n : nat) : M unit :=
  match n with
  | O => mret tt
  | S n => x ← load src; store dst x ;; MPN_COPY (S dst) (S src) n
  end.

Fixpoint MPN_COPY_DECR (dst src n : nat) : M unit :=
  match n with
  | O => mret tt
  | S n => x ← load (src + n); store (dst + n) x ;; MPN_COPY_DECR dst src n
  end.

Fixpoint MPN_ZERO (dst n : nat) : M unit :=
  match n with
  | O => mret tt
  | S n => store dst 0 ;; MPN_ZERO (S dst) n
  end.

(** ** Addition and subtraction *)

Fixpoint add_n_loop (n res s1 s2 : nat) (cy : Z) : M Z :=
  match n with
  | O => mret cy
  | S n =>
      y ← load s2;
      x ← load s1;
      let y := wrap (y + cy) in
      let cy := b2z (y <? cy) in
      let y := wrap (x + y) in
      let cy := b2z (y <? x) + cy in
      store res y ;;
      add_n_loop n (S res) (S s1) (S s2) cy
  end.

Definition mpn_add_n (res s1 s2 n : nat) : M Z := if (n =? 0)%nat then fault else add_n_loop n res s1 s2 0.

Fixpoint sub_n_loop (n res s1 s2 : nat) (cy : Z) : M Z :=
  match n with
  | O => mret cy
  | S n =>
      y ← load s2;
      x ← load s1;
      let y := wrap (y + cy) in
      let cy := b2z (y <? cy) in
      let y := wrap (x - y) in
      let cy := b2z (x <? y) + cy in
      store res y ;;
      sub_n_loop n (S res) (S s1) (S s2) cy
  end.

Definition mpn_sub_n (res s1 s2 n : nat) : M Z := if (n =? 0)%nat then fault else sub_n_loop n res s1 s2 0.

(** From the label [fin]: the [n] limbs left are copied. *)
Definition fin (res s1 n : nat) : M Z := (if (res =? s1)%nat then mret tt else MPN_COPY res s1 n) ;; mret 0.

Fixpoint add_1_loop (n res s1 : nat) : M Z :=
  match n with
  | O => mret 1
  | S n =>
      x ← load s1;
      let x := wrap (x + 1) in
      store res x ;;
      if negb (x =? 0) then fin (S res) (S s1) n else add_1_loop n (S res) (S s1)
  end.

Definition mpn_add_1 (res s1 n : nat) (s2_limb : Z) : M Z :=
  match n with
  | O => fault
  | S n =>
      x ← load s1;
      let s2_limb := wrap (x + s2_limb) in
      store res s2_limb ;;
      if s2_limb <? x then add_1_loop n (S res) (S s1) else fin (S res) (S s1) n
  end.

Fixpoint sub_1_loop (n res s1 : nat) : M Z :=
  match n with
  | O => mret 1
  | S n =>
      x ← load s1;
      store res (wrap (x - 1)) ;;
      if negb (x =? 0) then fin (S res) (S s1) n else sub_1_loop n (S res) (S s1)
  end.

Definition mpn_sub_1 (res s1 n : nat) (s2_limb : Z) : M Z :=
  match n with
  | O => fault
  | S n =>
      x ← load s1;
      let s2_limb := wrap (x - s2_limb) in
      store res s2_limb ;;
      if x <? s2_limb then sub_1_loop n (S res) (S s1) else fin (S res) (S s1) n
  end.

Definition mpn_add (res s1 n1 s2 n2 : nat) : M Z :=
  cy ← (if negb (n2 =? 0)%nat then mpn_add_n res s1 s2 n2 else mret 0);
  if negb (n1 - n2 =? 0)%nat then mpn_add_1 (res + n2) (s1 + n2) (n1 - n2) cy else mret cy.

Definition mpn_sub (res s1 n1 s2 n2 : nat) : M Z :=
  cy ← (if negb (n2 =? 0)%nat then mpn_sub_n res s1 s2 n2 else mret 0);
  if negb (n1 - n2 =? 0)%nat then mpn_sub_1 (res + n2) (s1 + n2) (n1 - n2) cy else mret cy.

(** ** Multiplication by a limb *)

Fixpoint mul_1_loop (n res s1 : nat) (s2_limb cy : Z) : M Z :=
  match n with
  | O => mret cy
  | S n =>
      x ← load s1;
      let '(prod_high, prod_low) := umul_ppmm x s2_limb in
      let prod_low := wrap (prod_low + cy) in
      let cy := wrap (b2z (prod_low <? cy) + prod_high) in
      store res prod_low ;;
      mul_1_loop n (S res) (S s1) s2_limb cy
  end.

Definition mpn_mul_1 (res s1 n : nat) (s2_limb : Z) : M Z := if (n =? 0)%nat then fault else mul_1_loop n res s1 s2_limb 0.

Fixpoint addmul_1_loop (n res s1 : nat) (s2_limb cy : Z) : M Z :=
  match n with
  | O => mret cy
  | S n =>
      s ← load s1;
      let '(prod_high, prod_low) := umul_ppmm s s2_limb in
      let prod_low := wrap (prod_low + cy) in
      let cy := wrap (b2z (prod_low <? cy) + prod_high) in
      x ← load res;
      let prod_low := wrap (x + prod_low) in
      let cy := wrap (cy + b2z (prod_low <? x)) in
      store res prod_low ;;
      addmul_1_loop n (S res) (S s1) s2_limb cy
  end.

Definition mpn_addmul_1 (res s1 n : nat) (s2_limb : Z) : M Z := if (n =? 0)%nat then fault else addmul_1_loop n res s1 s2_limb 0.

Fixpoint submul_1_loop (n res s1 : nat) (s2_limb cy : Z) : M Z :=
  match n with
  | O => mret cy
  | S n =>
      s ← load s1;
      let '(prod_high, prod_low) := umul_ppmm s s2_limb in
      let prod_low := wrap (prod_low + cy) in
      let cy := wrap (b2z (prod_low <? cy) + prod_high) in
      x ← load res;
      let prod_low := wrap (x - prod_low) in
      let cy := wrap (cy + b2z (x <? prod_low)) in
      store res prod_low ;;
      submul_1_loop n (S res) (S s1) s2_limb cy
  end.

Definition mpn_submul_1 (res s1 n : nat) (s2_limb : Z) : M Z := if (n =? 0)%nat then fault else submul_1_loop n res s1 s2_limb 0.

(** ** Shifts and comparison *)

(** The limbs from [i] down; [high_limb] is the one at [i]. *)
Fixpoint lshift_loop (i wp up : nat) (cnt high_limb : Z) : M unit :=
  match i with
  | O => store wp (wrap (Z.shiftl high_limb cnt))
  | S k =>
      low_limb ← load (up + k);
      store (wp + i) (Z.lor (wrap (Z.shiftl high_limb cnt)) (Z.shiftr low_limb (64 - cnt))) ;;
      lshift_loop k wp up cnt low_limb
  end.

Definition mpn_lshift (wp up n : nat) (cnt : Z) : M Z :=
  match n with
  | O => fault
  | S i =>
      low_limb ← load (up + i);
      lshift_loop i wp up cnt low_limb ;;
      mret (Z.shiftr low_limb (64 - cnt))
  end.

(** [n] limbs are left; [low_limb] is the one before. *)
Fixpoint rshift_loop (n wp up : nat) (cnt low_limb : Z) : M unit :=
  match n with
  | O => store wp (Z.shiftr low_limb cnt)
  | S n =>
      high_limb ← load up;
      store wp (Z.lor (Z.shiftr low_limb cnt) (wrap (Z.shiftl high_limb (64 - cnt)))) ;;
      rshift_loop n (S wp) (S up) cnt high_limb
  end.

Definition mpn_rshift (wp up n : nat) (cnt : Z) : M Z :=
  match n with
  | O => fault
  | S n =>
      high_limb ← load up;
      rshift_loop n wp (S up) cnt high_limb ;;
      mret (wrap (Z.shiftl high_limb (64 - cnt)))
  end.

Fixpoint mpn_cmp (op1 op2 n : nat) : M Z :=
  match n with
  | O => mret 0
  | S i =>
      op1_word ← load (op1 + i);
      op2_word ← load (op2 + i);
      if negb (op1_word =? op2_word) then mret (if op2_word <? op1_word then 1 else -1) else mpn_cmp op1 op2 i
  end.

(** ** Numbers in memory *)

Fixpoint V (m : list Z) (p n : nat) : Z :=
  match n with
  | O => 0
  | S n => default 0 (m !! p) + B * V m (S p) n
  end.

(** Every limb is one. *)
Definition wf (m : list Z) : Prop := Forall word m.

(** [m'] differs from [m] only at [R]. *)
Definition frame (R : nat → Prop) (m m' : list Z) : Prop := length m' = length m ∧ ∀ i, ¬ R i → m' !! i = m !! i.
Definition range (p n : nat) (i : nat) : Prop := (p <= i < p + n)%nat.

(** The result may be at or before an operand, or apart from it. *)
Definition may_overlap (res s n : nat) : Prop := (res <= s ∨ s + n <= res)%nat.

Lemma B_pos : 0 < B.
Proof. done. Qed.

Lemma frame_refl R m : frame R m m.
Proof. done. Qed.

Lemma frame_trans R m m' m'' : frame R m m' → frame R m' m'' → frame R m m''.
Proof. intros [H1 H2] [H3 H4]. split; [by rewrite H3|]. intros i Hi. by rewrite H4, H2. Qed.

Lemma frame_weaken (R R' : nat → Prop) m m' : frame R m m' → (∀ i, R i → R' i) → frame R' m m'.
Proof. intros [H1 H2] H. split; [done|]. intros i Hi. apply H2. auto. Qed.

Lemma frame_insert (R : nat → Prop) m p v : R p → frame R m (<[p := v]> m).
Proof. intros H. split; [by rewrite length_insert|]. intros i Hi. apply list_lookup_insert_ne. by intros ->. Qed.

Lemma wf_insert m p v : wf m → word v → wf (<[p := v]> m).
Proof. intros Hm Hv. by apply Forall_insert. Qed.

Lemma wf_lookup m p v : wf m → m !! p = Some v → word v.
Proof. intros Hm H. by apply (Forall_lookup_1 _ _ _ _ Hm H). Qed.

Lemma wf_default m p : wf m → word (default 0 (m !! p)).
Proof. intros Hm. destruct (m !! p) as [v|] eqn:E; [by eapply wf_lookup|done]. Qed.

Lemma V_frame R m m' p n : frame R m m' → (∀ i, range p n i → ¬ R i) → V m' p n = V m p n.
Proof.
  intros [_ Hf]. revert p. induction n as [|n IH]; intros p H; [done|]. cbn [V].
  rewrite (Hf p) by (apply H; unfold range; lia). rewrite IH; [done|]. intros i Hi. apply H. unfold range in *. lia.
Qed.

Lemma V_bound m p n : wf m → 0 <= V m p n < B ^ Z.of_nat n.
Proof.
  intros Hm. revert p. induction n as [|n IH]; intros p; [cbn; lia|]. cbn [V]. pose proof (wf_default m p Hm) as H. specialize (IH (S p)).
  rewrite Nat2Z.inj_succ, Z.pow_succ_r by lia. unfold word in H. pose proof B_pos. nia.
Qed.

Lemma V_split m p a b : V m p (a + b) = V m p a + B ^ Z.of_nat a * V m (p + a) b.
Proof.
  revert p. induction a as [|a IH]; intros p.
  - change (V m p 0) with 0. rewrite Nat.add_0_r. change (B ^ Z.of_nat 0) with 1. cbn [Nat.add]. lia.
  - cbn [Nat.add V]. rewrite IH, Nat2Z.inj_succ, Z.pow_succ_r by lia. replace (S p + a)%nat with (p + S a)%nat by lia. ring.
Qed.

Lemma V_top m p n : V m p (S n) = V m p n + B ^ Z.of_nat n * default 0 (m !! (p + n)%nat).
Proof. rewrite <- Nat.add_1_r, V_split. cbn [V]. f_equal. f_equal. lia. Qed.

Lemma V_cons m p n v : m !! p = Some v → V m p (S n) = v + B * V m (S p) n.
Proof. intros H. cbn [V]. by rewrite H. Qed.

(** ** Steps of the monad *)

Lemma load_bind {A} p v (f : Z → M A) m : m !! p = Some v → (load p ≫= f) m = f v m.
Proof. intros H. unfold mbind, M_bind, load. by rewrite H. Qed.

Lemma store_bind {A} p v (f : unit → M A) m : (p < length m)%nat → (store p v ≫= f) m = f tt (<[p := v]> m).
Proof. intros H. unfold mbind, M_bind, store. by rewrite (proj2 (Nat.ltb_lt _ _)). Qed.

Lemma step_bind {A A'} (c : M A) (f : A → M A') m a m' : c m = Val (a, m') → (c ≫= f) m = f a m'.
Proof. intros H. unfold mbind, M_bind. by rewrite H. Qed.

Lemma limb_at (m : list Z) p : (p < length m)%nat → ∃ v, m !! p = Some v.
Proof. intros H. by apply lookup_lt_is_Some_2 in H as [v Hv]; exists v. Qed.

Lemma add_carry a b : word a → word b → a + b = wrap (a + b) + B * b2z (wrap (a + b) <? b).
Proof.
  unfold word. intros Ha Hb. destruct (decide (a + b < B)).
  - rewrite wrap_id by (unfold word; lia). rewrite (proj2 (Z.ltb_ge _ _)) by lia. cbn. lia.
  - rewrite wrap_over by lia. rewrite (proj2 (Z.ltb_lt _ _)) by lia. cbn. lia.
Qed.

Lemma add_carry' a b : word a → word b → a + b = wrap (a + b) + B * b2z (wrap (a + b) <? a).
Proof. intros Ha Hb. rewrite (Z.add_comm a b). by apply add_carry. Qed.

Lemma sub_borrow a b : word a → word b → a - b = wrap (a - b) - B * b2z (a <? wrap (a - b)).
Proof.
  unfold word. intros Ha Hb. destruct (decide (0 <= a - b)).
  - rewrite wrap_id by (unfold word; lia). rewrite (proj2 (Z.ltb_ge _ _)) by lia. cbn. lia.
  - rewrite wrap_under by lia. rewrite (proj2 (Z.ltb_lt _ _)) by lia. cbn. lia.
Qed.

Lemma b2z_bound b : 0 <= b2z b <= 1.
Proof. destruct b; cbn; lia. Qed.
End Mpn.
