(* ===== verification/MpnSpec.v ===== *)
(** * Multi-precision arithmetic: correctness of the loops

    Each loop computes the exact result on the numbers in memory, returns
    the carry, borrow or remaining bits, and changes only the result. *)

From S2P Require Import Prelude LongLong Mpn.
Local Open Scope Z_scope.

Module MpnSpec.
Import LongLong Mpn.

(** ** One limb and the rest *)

Lemma V_insert m p n q v : ¬ range p n q → V (<[q := v]> m) p n = V m p n.
Proof. intros H. apply (V_frame (λ i, i = q)); [by apply frame_insert|]. intros i Hi ->. done. Qed.

Lemma V_first res n v m m' :
  (res < length m)%nat → frame (range (S res) n) (<[res := v]> m) m' → V m' res (S n) = v + B * V m' (S res) n.
Proof.
  intros Hr [_ Hf]. apply V_cons. rewrite Hf by (unfold range; lia). by apply list_lookup_insert_eq.
Qed.

Lemma frame_first res n v m m' : frame (range (S res) n) (<[res := v]> m) m' → frame (range res (S n)) m m'.
Proof.
  intros H. eapply frame_trans; [apply (frame_insert _ m res v); unfold range; lia|]. eapply frame_weaken; [exact H|]. unfold range. lia.
Qed.

Lemma pow_S n : B ^ Z.of_nat (S n) = B * B ^ Z.of_nat n.
Proof. rewrite Nat2Z.inj_succ. apply Z.pow_succ_r. lia. Qed.

(** Ranges and overlaps. *)
Ltac ranges := unfold range, may_overlap in *; try rewrite length_insert in *; first [lia|intros; lia].

(** ** Copying *)

Lemma copy_spec n dst src m :
  wf m → (dst + n <= length m)%nat → (src + n <= length m)%nat → may_overlap dst src n →
  ∃ m', MPN_COPY dst src n m = Val (tt, m') ∧ frame (range dst n) m m' ∧ wf m' ∧ V m' dst n = V m src n.
Proof.
  revert dst src m. induction n as [|n IH]; intros dst src m Hm Hd Hs Ho; [by exists m|]. cbn [MPN_COPY].
  destruct (limb_at m src) as [v Ev]; [lia|]. rewrite (load_bind _ _ _ _ Ev), store_bind by lia.
  destruct (IH (S dst) (S src) (<[dst := v]> m)) as (m' & -> & Hf & Hw & HV); [apply wf_insert; [done|by eapply wf_lookup]|ranges..|].
  exists m'. split; [done|]. split; [by eapply frame_first|]. split; [done|].
  rewrite (V_first dst n v m m'), (V_cons m src n v), HV, V_insert by (done || lia || ranges). done.
Qed.

Lemma copy_decr_spec n dst src m :
  wf m → (dst + n <= length m)%nat → (src + n <= length m)%nat → (src <= dst)%nat →
  ∃ m', MPN_COPY_DECR dst src n m = Val (tt, m') ∧ frame (range dst n) m m' ∧ wf m' ∧ V m' dst n = V m src n.
Proof.
  revert m. induction n as [|n IH]; intros m Hm Hd Hs Ho; [by exists m|]. cbn [MPN_COPY_DECR].
  destruct (limb_at m (src + n)) as [v Ev]; [lia|]. rewrite (load_bind _ _ _ _ Ev), store_bind by lia.
  destruct (IH (<[(dst + n)%nat := v]> m)) as (m' & -> & Hf & Hw & HV); [apply wf_insert; [done|by eapply wf_lookup]|ranges..|].
  exists m'. split; [done|]. split.
  { eapply frame_trans; [apply (frame_insert _ m (dst + n) v); unfold range; lia|]. eapply frame_weaken; [exact Hf|]. unfold range. lia. }
  split; [done|]. rewrite !V_top, HV, Ev, V_insert by ranges. cbn [default from_option id]. f_equal. f_equal.
  destruct Hf as [_ Hf]. rewrite Hf by ranges. by rewrite list_lookup_insert_eq by lia.
Qed.

Lemma zero_spec n dst m :
  wf m → (dst + n <= length m)%nat → ∃ m', MPN_ZERO dst n m = Val (tt, m') ∧ frame (range dst n) m m' ∧ wf m' ∧ V m' dst n = 0.
Proof.
  revert dst m. induction n as [|n IH]; intros dst m Hm Hd; [by exists m|]. cbn [MPN_ZERO]. rewrite store_bind by lia.
  destruct (IH (S dst) (<[dst := 0]> m)) as (m' & -> & Hf & Hw & HV); [by apply wf_insert|ranges|].
  exists m'. split; [done|]. split; [by eapply frame_first|]. split; [done|]. rewrite (V_first dst n 0 m m'), HV by (done || lia). lia.
Qed.

(** ** Addition and subtraction *)

Lemma add_n_loop_spec n res s1 s2 cy m :
  wf m → 0 <= cy <= 1 → (res + n <= length m)%nat → (s1 + n <= length m)%nat → (s2 + n <= length m)%nat →
  may_overlap res s1 n → may_overlap res s2 n →
  ∃ cy' m', add_n_loop n res s1 s2 cy m = Val (cy', m') ∧ frame (range res n) m m' ∧ wf m' ∧ 0 <= cy' <= 1 ∧
    V m' res n + B ^ Z.of_nat n * cy' = V m s1 n + V m s2 n + cy.
Proof.
  revert res s1 s2 cy m. induction n as [|n IH]; intros res s1 s2 cy m Hm Hcy Hr H1 H2 O1 O2.
  { exists cy, m. split_and!; try done; try lia. cbn. lia. }
  cbn [add_n_loop]. destruct (limb_at m s2) as [y Ey]; [lia|]. destruct (limb_at m s1) as [x Ex]; [lia|].
  rewrite (load_bind _ _ _ _ Ey), (load_bind _ _ _ _ Ex), store_bind by lia.
  assert (word x) as Wx by (by eapply wf_lookup). assert (word y) as Wy by (by eapply wf_lookup).
  pose proof (add_carry y cy Wy ltac:(unfold word, B; lia)) as E1. pose proof (wrap_word (y + cy)) as W1. set (y1 := wrap (y + cy)) in *.
  pose proof (add_carry' x y1 Wx W1) as E2. pose proof (wrap_word (x + y1)) as W2. set (y2 := wrap (x + y1)) in *.
  set (c1 := b2z (y1 <? cy)) in *. set (c2 := b2z (y2 <? x)) in *. pose proof (b2z_bound (y1 <? cy)) as B1. pose proof (b2z_bound (y2 <? x)) as B2.
  fold c1 in B1. fold c2 in B2. clearbody y1 y2 c1 c2.
  destruct (IH (S res) (S s1) (S s2) (c2 + c1) (<[res := y2]> m)) as (cy' & m' & -> & Hf & Hw & Hc' & HV); [by apply wf_insert|unfold word, B in *; lia|ranges..|].
  exists cy', m'. split; [done|]. split; [by eapply frame_first|]. split_and!; try done; try lia.
  rewrite (V_first res n y2 m m'), (V_cons m s1 n x), (V_cons m s2 n y) by (done || lia). rewrite !V_insert in HV by ranges.
  rewrite pow_S. nia.
Qed.

Lemma add_n_spec n res s1 s2 m :
  wf m → (0 < n)%nat → (res + n <= length m)%nat → (s1 + n <= length m)%nat → (s2 + n <= length m)%nat →
  may_overlap res s1 n → may_overlap res s2 n →
  ∃ cy m', mpn_add_n res s1 s2 n m = Val (cy, m') ∧ frame (range res n) m m' ∧ wf m' ∧ 0 <= cy <= 1 ∧
    V m' res n + B ^ Z.of_nat n * cy = V m s1 n + V m s2 n.
Proof.
  intros Hm Hn Hr H1 H2 O1 O2. unfold mpn_add_n. rewrite (proj2 (Nat.eqb_neq _ _)) by lia.
  destruct (add_n_loop_spec n res s1 s2 0 m) as (cy & m' & -> & Hf & Hw & Hc & HV); [done|lia|done..|]. exists cy, m'. split_and!; try done; lia.
Qed.

Lemma sub_n_loop_spec n res s1 s2 cy m :
  wf m → 0 <= cy <= 1 → (res + n <= length m)%nat → (s1 + n <= length m)%nat → (s2 + n <= length m)%nat →
  may_overlap res s1 n → may_overlap res s2 n →
  ∃ cy' m', sub_n_loop n res s1 s2 cy m = Val (cy', m') ∧ frame (range res n) m m' ∧ wf m' ∧ 0 <= cy' <= 1 ∧
    V m' res n - B ^ Z.of_nat n * cy' = V m s1 n - V m s2 n - cy.
Proof.
  revert res s1 s2 cy m. induction n as [|n IH]; intros res s1 s2 cy m Hm Hcy Hr H1 H2 O1 O2.
  { exists cy, m. split_and!; try done; try lia. cbn. lia. }
  cbn [sub_n_loop]. destruct (limb_at m s2) as [y Ey]; [lia|]. destruct (limb_at m s1) as [x Ex]; [lia|].
  rewrite (load_bind _ _ _ _ Ey), (load_bind _ _ _ _ Ex), store_bind by lia.
  assert (word x) as Wx by (by eapply wf_lookup). assert (word y) as Wy by (by eapply wf_lookup).
  pose proof (add_carry y cy Wy ltac:(unfold word, B; lia)) as E1. pose proof (wrap_word (y + cy)) as W1. set (y1 := wrap (y + cy)) in *.
  pose proof (sub_borrow x y1 Wx W1) as E2. pose proof (wrap_word (x - y1)) as W2. set (y2 := wrap (x - y1)) in *.
  set (c1 := b2z (y1 <? cy)) in *. set (c2 := b2z (x <? y2)) in *. pose proof (b2z_bound (y1 <? cy)) as B1. pose proof (b2z_bound (x <? y2)) as B2.
  fold c1 in B1. fold c2 in B2. clearbody y1 y2 c1 c2.
  destruct (IH (S res) (S s1) (S s2) (c2 + c1) (<[res := y2]> m)) as (cy' & m' & -> & Hf & Hw & Hc' & HV); [by apply wf_insert|unfold word, B in *; lia|ranges..|].
  exists cy', m'. split; [done|]. split; [by eapply frame_first|]. split_and!; try done; try lia.
  rewrite (V_first res n y2 m m'), (V_cons m s1 n x), (V_cons m s2 n y) by (done || lia). rewrite !V_insert in HV by ranges.
  rewrite pow_S. nia.
Qed.

Lemma sub_n_spec n res s1 s2 m :
  wf m → (0 < n)%nat → (res + n <= length m)%nat → (s1 + n <= length m)%nat → (s2 + n <= length m)%nat →
  may_overlap res s1 n → may_overlap res s2 n →
  ∃ cy m', mpn_sub_n res s1 s2 n m = Val (cy, m') ∧ frame (range res n) m m' ∧ wf m' ∧ 0 <= cy <= 1 ∧
    V m' res n - B ^ Z.of_nat n * cy = V m s1 n - V m s2 n.
Proof.
  intros Hm Hn Hr H1 H2 O1 O2. unfold mpn_sub_n. rewrite (proj2 (Nat.eqb_neq _ _)) by lia.
  destruct (sub_n_loop_spec n res s1 s2 0 m) as (cy & m' & -> & Hf & Hw & Hc & HV); [done|lia|done..|]. exists cy, m'. split_and!; try done; lia.
Qed.

Lemma fin_spec n res s1 m :
  wf m → (res + n <= length m)%nat → (s1 + n <= length m)%nat → may_overlap res s1 n →
  ∃ m', fin res s1 n m = Val (0, m') ∧ frame (range res n) m m' ∧ wf m' ∧ V m' res n = V m s1 n.
Proof.
  intros Hm Hr Hs Ho. unfold fin. destruct (Nat.eqb_spec res s1) as [->|Hne].
  - exists m. done.
  - destruct (copy_spec n res s1 m Hm Hr Hs Ho) as (m' & E & Hf & Hw & HV). rewrite (step_bind _ _ _ _ _ E). by exists m'.
Qed.

Lemma add_1_loop_spec n res s1 m :
  wf m → (res + n <= length m)%nat → (s1 + n <= length m)%nat → may_overlap res s1 n →
  ∃ cy m', add_1_loop n res s1 m = Val (cy, m') ∧ frame (range res n) m m' ∧ wf m' ∧ 0 <= cy <= 1 ∧
    V m' res n + B ^ Z.of_nat n * cy = V m s1 n + 1.
Proof.
  revert res s1 m. induction n as [|n IH]; intros res s1 m Hm Hr Hs Ho.
  { exists 1, m. split_and!; try done. }
  cbn [add_1_loop]. destruct (limb_at m s1) as [x Ex]; [lia|]. rewrite (load_bind _ _ _ _ Ex), store_bind by lia.
  assert (word x) as Wx by (by eapply wf_lookup). pose proof (wrap_word (x + 1)) as W1.
  assert (wf (<[res := wrap (x + 1)]> m)) as Hm1 by (by apply wf_insert).
  destruct (Z.eqb_spec (wrap (x + 1)) 0) as [E0|E0]; cbn [negb].
  - destruct (IH (S res) (S s1) (<[res := wrap (x + 1)]> m)) as (cy & m' & -> & Hf & Hw & Hc & HV); [done|ranges..|].
    exists cy, m'. split; [done|]. split; [by eapply frame_first|]. split_and!; try done; try lia.
    rewrite (V_first res n (wrap (x + 1)) m m'), (V_cons m s1 n x) by (done || lia). rewrite V_insert in HV by ranges.
    assert (x + 1 = B) as Ex1 by (destruct (decide (x + 1 = B)); [done|]; rewrite wrap_id in E0 by (unfold word in *; lia); unfold word in *; lia).
    rewrite E0, pow_S. nia.
  - destruct (fin_spec n (S res) (S s1) (<[res := wrap (x + 1)]> m)) as (m' & -> & Hf & Hw & HV); [done|ranges..|].
    exists 0, m'. split; [done|]. split; [by eapply frame_first|]. split_and!; try done; try lia.
    rewrite (V_first res n (wrap (x + 1)) m m'), (V_cons m s1 n x) by (done || lia). rewrite V_insert in HV by ranges.
    assert (wrap (x + 1) = x + 1) as -> by (apply wrap_id; destruct (decide (x + 1 = B)) as [E|]; [rewrite E, wrap_over in E0 by (unfold B; lia); lia|unfold word in *; lia]).
    lia.
Qed.

Lemma add_1_spec n res s1 v m :
  wf m → word v → (0 < n)%nat → (res + n <= length m)%nat → (s1 + n <= length m)%nat → may_overlap res s1 n →
  ∃ cy m', mpn_add_1 res s1 n v m = Val (cy, m') ∧ frame (range res n) m m' ∧ wf m' ∧ 0 <= cy <= 1 ∧
    V m' res n + B ^ Z.of_nat n * cy = V m s1 n + v.
Proof.
  intros Hm Hv Hn Hr Hs Ho. destruct n as [|n]; [lia|]. cbn [mpn_add_1].
  destruct (limb_at m s1) as [x Ex]; [lia|]. rewrite (load_bind _ _ _ _ Ex), store_bind by lia.
  assert (word x) as Wx by (by eapply wf_lookup). pose proof (add_carry' x v Wx Hv) as E1. pose proof (wrap_word (x + v)) as W1.
  set (y := wrap (x + v)) in *. assert (wf (<[res := y]> m)) as Hm1 by (by apply wf_insert). clearbody y.
  destruct (Z.ltb_spec y x) as [Hc|Hc]; cbn [b2z] in E1.
  - destruct (add_1_loop_spec n (S res) (S s1) (<[res := y]> m)) as (cy & m' & -> & Hf & Hw & Hcy & HV); [done|ranges..|].
    exists cy, m'. split; [done|]. split; [by eapply frame_first|]. split_and!; try done; try lia.
    rewrite (V_first res n y m m'), (V_cons m s1 n x) by (done || lia). rewrite V_insert in HV by ranges. rewrite pow_S. nia.
  - destruct (fin_spec n (S res) (S s1) (<[res := y]> m)) as (m' & -> & Hf & Hw & HV); [done|ranges..|].
    exists 0, m'. split; [done|]. split; [by eapply frame_first|]. split_and!; try done; try lia.
    rewrite (V_first res n y m m'), (V_cons m s1 n x) by (done || lia). rewrite V_insert in HV by ranges. lia.
Qed.

Lemma sub_1_loop_spec n res s1 m :
  wf m → (res + n <= length m)%nat → (s1 + n <= length m)%nat → may_overlap res s1 n →
  ∃ cy m', sub_1_loop n res s1 m = Val (cy, m') ∧ frame (range res n) m m' ∧ wf m' ∧ 0 <= cy <= 1 ∧
    V m' res n - B ^ Z.of_nat n * cy = V m s1 n - 1.
Proof.
  revert res s1 m. induction n as [|n IH]; intros res s1 m Hm Hr Hs Ho.
  { exists 1, m. split_and!; try done. }
  cbn [sub_1_loop]. destruct (limb_at m s1) as [x Ex]; [lia|]. rewrite (load_bind _ _ _ _ Ex), store_bind by lia.
  assert (word x) as Wx by (by eapply wf_lookup). pose proof (wrap_word (x - 1)) as W1.
  assert (wf (<[res := wrap (x - 1)]> m)) as Hm1 by (by apply wf_insert).
  destruct (Z.eqb_spec x 0) as [->|E0]; cbn [negb].
  - destruct (IH (S res) (S s1) (<[res := wrap (0 - 1)]> m)) as (cy & m' & -> & Hf & Hw & Hc & HV); [done|ranges..|].
    exists cy, m'. split; [done|]. split; [by eapply frame_first|]. split_and!; try done; try lia.
    rewrite (V_first res n (wrap (0 - 1)) m m'), (V_cons m s1 n 0) by (done || lia). rewrite V_insert in HV by ranges.
    rewrite (wrap_under (0 - 1)) by (unfold B; lia). rewrite pow_S. nia.
  - destruct (fin_spec n (S res) (S s1) (<[res := wrap (x - 1)]> m)) as (m' & -> & Hf & Hw & HV); [done|ranges..|].
    exists 0, m'. split; [done|]. split; [by eapply frame_first|]. split_and!; try done; try lia.
    rewrite (V_first res n (wrap (x - 1)) m m'), (V_cons m s1 n x) by (done || lia). rewrite V_insert in HV by ranges.
    rewrite (wrap_id (x - 1)) by (unfold word in *; lia). lia.
Qed.

Lemma sub_1_spec n res s1 v m :
  wf m → word v → (0 < n)%nat → (res + n <= length m)%nat → (s1 + n <= length m)%nat → may_overlap res s1 n →
  ∃ cy m', mpn_sub_1 res s1 n v m = Val (cy, m') ∧ frame (range res n) m m' ∧ wf m' ∧ 0 <= cy <= 1 ∧
    V m' res n - B ^ Z.of_nat n * cy = V m s1 n - v.
Proof.
  intros Hm Hv Hn Hr Hs Ho. destruct n as [|n]; [lia|]. cbn [mpn_sub_1].
  destruct (limb_at m s1) as [x Ex]; [lia|]. rewrite (load_bind _ _ _ _ Ex), store_bind by lia.
  assert (word x) as Wx by (by eapply wf_lookup). pose proof (sub_borrow x v Wx Hv) as E1. pose proof (wrap_word (x - v)) as W1.
  set (y := wrap (x - v)) in *. assert (wf (<[res := y]> m)) as Hm1 by (by apply wf_insert). clearbody y.
  destruct (Z.ltb_spec x y) as [Hc|Hc]; cbn [b2z] in E1.
  - destruct (sub_1_loop_spec n (S res) (S s1) (<[res := y]> m)) as (cy & m' & -> & Hf & Hw & Hcy & HV); [done|ranges..|].
    exists cy, m'. split; [done|]. split; [by eapply frame_first|]. split_and!; try done; try lia.
    rewrite (V_first res n y m m'), (V_cons m s1 n x) by (done || lia). rewrite V_insert in HV by ranges. rewrite pow_S. nia.
  - destruct (fin_spec n (S res) (S s1) (<[res := y]> m)) as (m' & -> & Hf & Hw & HV); [done|ranges..|].
    exists 0, m'. split; [done|]. split; [by eapply frame_first|]. split_and!; try done; try lia.
    rewrite (V_first res n y m m'), (V_cons m s1 n x) by (done || lia). rewrite V_insert in HV by ranges. lia.
Qed.

(** ** Multiplication by a limb *)

(** A product with a carry added: it fits two words. *)
Lemma mul_carry x v cy :
  word x → word v → word cy →
  let '(h, l) := umul_ppmm x v in
  let l' := wrap (l + cy) in
  let c := wrap (b2z (l' <? cy) + h) in
  word l' ∧ word c ∧ x * v + cy = l' + B * c.
Proof.
  intros Hx Hv Hc. pose proof (umul_ppmm_spec x v Hx Hv) as H. destruct (umul_ppmm x v) as [h l]. destruct H as (Hh & Hl & E). cbv zeta.
  split; [apply wrap_word|]. split; [apply wrap_word|]. pose proof (add_carry l cy Hl Hc) as E1. pose proof (wrap_word (l + cy)) as W1.
  set (l' := wrap (l + cy)) in *. set (c := b2z (l' <? cy)) in *. pose proof (b2z_bound (l' <? cy)) as Bc. fold c in Bc. clearbody l' c.
  assert (x * v <= (B - 1) * (B - 1)) by (unfold word in *; nia). rewrite wrap_id by (unfold word in *; nia). lia.
Qed.

Lemma mul_1_loop_spec n res s1 v cy m :
  wf m → word v → word cy → (res + n <= length m)%nat → (s1 + n <= length m)%nat → may_overlap res s1 n →
  ∃ cy' m', mul_1_loop n res s1 v cy m = Val (cy', m') ∧ frame (range res n) m m' ∧ wf m' ∧ word cy' ∧
    V m' res n + B ^ Z.of_nat n * cy' = V m s1 n * v + cy.
Proof.
  intros Hm Hv. revert res s1 cy m Hm. induction n as [|n IH]; intros res s1 cy m Hm Hcy Hr Hs Ho.
  { exists cy, m. split_and!; try done. cbn. lia. }
  cbn [mul_1_loop]. destruct (limb_at m s1) as [x Ex]; [lia|]. rewrite (load_bind _ _ _ _ Ex).
  assert (word x) as Wx by (by eapply wf_lookup). pose proof (mul_carry x v cy Wx Hv Hcy) as H. destruct (umul_ppmm x v) as [h l]. cbv zeta in H.
  destruct H as (Wl & Wc & E). set (l' := wrap (l + cy)) in *. set (c := wrap (b2z (l' <? cy) + h)) in *. clearbody l' c. rewrite store_bind by lia.
  destruct (IH (S res) (S s1) c (<[res := l']> m)) as (cy' & m' & -> & Hf & Hw & Hc & HV); [by apply wf_insert|done|ranges..|].
  exists cy', m'. split; [done|]. split; [by eapply frame_first|]. split_and!; try done.
  rewrite (V_first res n l' m m'), (V_cons m s1 n x) by (done || lia). rewrite V_insert in HV by ranges. rewrite pow_S. nia.
Qed.

Lemma mul_1_spec n res s1 v m :
  wf m → word v → (0 < n)%nat → (res + n <= length m)%nat → (s1 + n <= length m)%nat → may_overlap res s1 n →
  ∃ cy m', mpn_mul_1 res s1 n v m = Val (cy, m') ∧ frame (range res n) m m' ∧ wf m' ∧ word cy ∧
    V m' res n + B ^ Z.of_nat n * cy = V m s1 n * v.
Proof.
  intros Hm Hv Hn Hr Hs Ho. unfold mpn_mul_1. rewrite (proj2 (Nat.eqb_neq _ _)) by lia.
  destruct (mul_1_loop_spec n res s1 v 0 m) as (cy & m' & -> & Hf & Hw & Hc & HV); try done. exists cy, m'. split_and!; try done. lia.
Qed.

Lemma addmul_1_loop_spec n res s1 v cy m :
  wf m → word v → word cy → (res + n <= length m)%nat → (s1 + n <= length m)%nat → may_overlap res s1 n →
  ∃ cy' m', addmul_1_loop n res s1 v cy m = Val (cy', m') ∧ frame (range res n) m m' ∧ wf m' ∧ word cy' ∧
    V m' res n + B ^ Z.of_nat n * cy' = V m res n + V m s1 n * v + cy.
Proof.
  intros Hm Hv. revert res s1 cy m Hm. induction n as [|n IH]; intros res s1 cy m Hm Hcy Hr Hs Ho.
  { exists cy, m. split_and!; try done. cbn. lia. }
  cbn [addmul_1_loop]. destruct (limb_at m s1) as [s Es]; [lia|]. rewrite (load_bind _ _ _ _ Es).
  assert (word s) as Ws by (by eapply wf_lookup). pose proof (mul_carry s v cy Ws Hv Hcy) as H.
  assert (s * v <= (B - 1) * (B - 1)) as Hsv by (unfold word in *; nia). destruct (umul_ppmm s v) as [h l]. cbv zeta in H.
  destruct H as (Wl & Wc & E). set (l' := wrap (l + cy)) in *. set (c := wrap (b2z (l' <? cy) + h)) in *. clearbody l' c.
  destruct (limb_at m res) as [x Ex]; [lia|]. rewrite (load_bind _ _ _ _ Ex). assert (word x) as Wx by (by eapply wf_lookup).
  pose proof (add_carry' x l' Wx Wl) as E2. pose proof (wrap_word (x + l')) as W2. set (y := wrap (x + l')) in *.
  set (c2 := b2z (y <? x)) in *. pose proof (b2z_bound (y <? x)) as B2. fold c2 in B2. clearbody y c2.
  rewrite (wrap_id (c + c2)) by (unfold word in *; nia). rewrite store_bind by lia.
  destruct (IH (S res) (S s1) (c + c2) (<[res := y]> m)) as (cy' & m' & -> & Hf & Hw & Hc & HV); [by apply wf_insert|unfold word in *; nia|ranges..|].
  exists cy', m'. split; [done|]. split; [by eapply frame_first|]. split_and!; try done.
  rewrite (V_first res n y m m'), (V_cons m s1 n s), (V_cons m res n x) by (done || lia). rewrite !V_insert in HV by ranges. rewrite pow_S. nia.
Qed.

Lemma addmul_1_spec n res s1 v m :
  wf m → word v → (0 < n)%nat → (res + n <= length m)%nat → (s1 + n <= length m)%nat → may_overlap res s1 n →
  ∃ cy m', mpn_addmul_1 res s1 n v m = Val (cy, m') ∧ frame (range res n) m m' ∧ wf m' ∧ word cy ∧
    V m' res n + B ^ Z.of_nat n * cy = V m res n + V m s1 n * v.
Proof.
  intros Hm Hv Hn Hr Hs Ho. unfold mpn_addmul_1. rewrite (proj2 (Nat.eqb_neq _ _)) by lia.
  destruct (addmul_1_loop_spec n res s1 v 0 m) as (cy & m' & -> & Hf & Hw & Hc & HV); try done. exists cy, m'. split_and!; try done. lia.
Qed.

Lemma submul_1_loop_spec n res s1 v cy m :
  wf m → word v → word cy → (res + n <= length m)%nat → (s1 + n <= length m)%nat → may_overlap res s1 n →
  ∃ cy' m', submul_1_loop n res s1 v cy m = Val (cy', m') ∧ frame (range res n) m m' ∧ wf m' ∧ word cy' ∧
    V m' res n - B ^ Z.of_nat n * cy' = V m res n - V m s1 n * v - cy.
Proof.
  intros Hm Hv. revert res s1 cy m Hm. induction n as [|n IH]; intros res s1 cy m Hm Hcy Hr Hs Ho.
  { exists cy, m. split_and!; try done. cbn. lia. }
  cbn [submul_1_loop]. destruct (limb_at m s1) as [s Es]; [lia|]. rewrite (load_bind _ _ _ _ Es).
  assert (word s) as Ws by (by eapply wf_lookup). pose proof (mul_carry s v cy Ws Hv Hcy) as H.
  assert (s * v <= (B - 1) * (B - 1)) as Hsv by (unfold word in *; nia). destruct (umul_ppmm s v) as [h l]. cbv zeta in H.
  destruct H as (Wl & Wc & E). set (l' := wrap (l + cy)) in *. set (c := wrap (b2z (l' <? cy) + h)) in *. clearbody l' c.
  destruct (limb_at m res) as [x Ex]; [lia|]. rewrite (load_bind _ _ _ _ Ex). assert (word x) as Wx by (by eapply wf_lookup).
  pose proof (sub_borrow x l' Wx Wl) as E2. pose proof (wrap_word (x - l')) as W2. set (y := wrap (x - l')) in *.
  set (c2 := b2z (x <? y)) in *. pose proof (b2z_bound (x <? y)) as B2. fold c2 in B2. clearbody y c2.
  rewrite (wrap_id (c + c2)) by (unfold word in *; nia). rewrite store_bind by lia.
  destruct (IH (S res) (S s1) (c + c2) (<[res := y]> m)) as (cy' & m' & -> & Hf & Hw & Hc & HV); [by apply wf_insert|unfold word in *; nia|ranges..|].
  exists cy', m'. split; [done|]. split; [by eapply frame_first|]. split_and!; try done.
  rewrite (V_first res n y m m'), (V_cons m s1 n s), (V_cons m res n x) by (done || lia). rewrite !V_insert in HV by ranges. rewrite pow_S. nia.
Qed.

Lemma submul_1_spec n res s1 v m :
  wf m → word v → (0 < n)%nat → (res + n <= length m)%nat → (s1 + n <= length m)%nat → may_overlap res s1 n →
  ∃ cy m', mpn_submul_1 res s1 n v m = Val (cy, m') ∧ frame (range res n) m m' ∧ wf m' ∧ word cy ∧
    V m' res n - B ^ Z.of_nat n * cy = V m res n - V m s1 n * v.
Proof.
  intros Hm Hv Hn Hr Hs Ho. unfold mpn_submul_1. rewrite (proj2 (Nat.eqb_neq _ _)) by lia.
  destruct (submul_1_loop_spec n res s1 v 0 m) as (cy & m' & -> & Hf & Hw & Hc & HV); try done. exists cy, m'. split_and!; try done. lia.
Qed.

(** ** Operands of different sizes *)

Lemma frame_lookup (R : nat → Prop) m m' i : frame R m m' → ¬ R i → m' !! i = m !! i.
Proof. intros [_ H]. apply H. Qed.

Lemma frame_length R m m' : frame R m m' → length m' = length m.
Proof. by intros [H _]. Qed.

(** A range is kept and a memory's length too. *)
Ltac frames := unfold range, may_overlap in *; intros; lia.

Lemma split_at m p n k : (k <= n)%nat → V m p n = V m p k + B ^ Z.of_nat k * V m (p + k) (n - k).
Proof. intros H. rewrite <- V_split. f_equal. lia. Qed.

Lemma pow_split n k : (k <= n)%nat → B ^ Z.of_nat n = B ^ Z.of_nat k * B ^ Z.of_nat (n - k).
Proof. intros H. rewrite <- Z.pow_add_r by lia. f_equal. lia. Qed.

Lemma add_spec res s1 n1 s2 n2 m :
  wf m → (n2 <= n1)%nat → (res + n1 <= length m)%nat → (s1 + n1 <= length m)%nat → (s2 + n2 <= length m)%nat →
  may_overlap res s1 n1 → may_overlap res s2 n2 →
  ∃ cy m', mpn_add res s1 n1 s2 n2 m = Val (cy, m') ∧ frame (range res n1) m m' ∧ wf m' ∧ 0 <= cy <= 1 ∧
    V m' res n1 + B ^ Z.of_nat n1 * cy = V m s1 n1 + V m s2 n2.
Proof.
  intros Hm Hn Hr H1 H2 O1 O2. unfold mpn_add.
  assert (∃ cy m1, (if negb (n2 =? 0)%nat then mpn_add_n res s1 s2 n2 else mret 0) m = Val (cy, m1) ∧ frame (range res n2) m m1 ∧ wf m1 ∧ 0 <= cy <= 1 ∧
    V m1 res n2 + B ^ Z.of_nat n2 * cy = V m s1 n2 + V m s2 n2) as (cy & m1 & E & Hf & Hw & Hc & HV).
  { destruct (Nat.eqb_spec n2 0) as [->|]; cbn [negb]; [by exists 0, m|]. apply add_n_spec; frames || done. }
  rewrite (step_bind _ _ _ _ _ E). clear E. destruct (Nat.eqb_spec (n1 - n2) 0) as [En|En]; cbn [negb].
  { exists cy, m1. assert (n1 = n2) as -> by lia. split_and!; try done; lia. }
  pose proof (frame_length _ _ _ Hf) as Hl. destruct (add_1_spec (n1 - n2) (res + n2) (s1 + n2) cy m1) as (cy' & m' & -> & Hf' & Hw' & Hc' & HV');
    [done|unfold word, B; lia|frames..|].
  exists cy', m'. split; [done|]. split; [eapply frame_trans; (eapply frame_weaken; [eassumption|frames])|]. split_and!; try done; try lia.
  rewrite (V_frame _ _ _ _ _ Hf) in HV' by frames. rewrite (split_at m' res n1 n2), (split_at m s1 n1 n2), (pow_split n1 n2), (V_frame _ _ _ res n2 Hf') by frames. nia.
Qed.

Lemma sub_spec res s1 n1 s2 n2 m :
  wf m → (n2 <= n1)%nat → (res + n1 <= length m)%nat → (s1 + n1 <= length m)%nat → (s2 + n2 <= length m)%nat →
  may_overlap res s1 n1 → may_overlap res s2 n2 →
  ∃ cy m', mpn_sub res s1 n1 s2 n2 m = Val (cy, m') ∧ frame (range res n1) m m' ∧ wf m' ∧ 0 <= cy <= 1 ∧
    V m' res n1 - B ^ Z.of_nat n1 * cy = V m s1 n1 - V m s2 n2.
Proof.
  intros Hm Hn Hr H1 H2 O1 O2. unfold mpn_sub.
  assert (∃ cy m1, (if negb (n2 =? 0)%nat then mpn_sub_n res s1 s2 n2 else mret 0) m = Val (cy, m1) ∧ frame (range res n2) m m1 ∧ wf m1 ∧ 0 <= cy <= 1 ∧
    V m1 res n2 - B ^ Z.of_nat n2 * cy = V m s1 n2 - V m s2 n2) as (cy & m1 & E & Hf & Hw & Hc & HV).
  { destruct (Nat.eqb_spec n2 0) as [->|]; cbn [negb]; [by exists 0, m|]. apply sub_n_spec; frames || done. }
  rewrite (step_bind _ _ _ _ _ E). clear E. destruct (Nat.eqb_spec (n1 - n2) 0) as [En|En]; cbn [negb].
  { exists cy, m1. assert (n1 = n2) as -> by lia. split_and!; try done; lia. }
  pose proof (frame_length _ _ _ Hf) as Hl. destruct (sub_1_spec (n1 - n2) (res + n2) (s1 + n2) cy m1) as (cy' & m' & -> & Hf' & Hw' & Hc' & HV');
    [done|unfold word, B; lia|frames..|].
  exists cy', m'. split; [done|]. split; [eapply frame_trans; (eapply frame_weaken; [eassumption|frames])|]. split_and!; try done; try lia.
  rewrite (V_frame _ _ _ _ _ Hf) in HV' by frames. rewrite (split_at m' res n1 n2), (split_at m s1 n1 n2), (pow_split n1 n2), (V_frame _ _ _ res n2 Hf') by frames. nia.
Qed.

(** ** Shifts *)

(** The bits of a shifted limb: those that leave and those that stay. *)
Lemma shift_parts x c :
  word x → 0 < c < 64 → ∃ h l, Z.shiftr x (64 - c) = h ∧ wrap (Z.shiftl x c) = l * 2 ^ c ∧ 0 <= h < 2 ^ c ∧ 0 <= l < 2 ^ (64 - c) ∧ x * 2 ^ c = B * h + l * 2 ^ c.
Proof.
  intros Hx Hc. exists (x / 2 ^ (64 - c)), (x mod 2 ^ (64 - c)). assert (B = 2 ^ (64 - c) * 2 ^ c) as EB by (rewrite <- Z.pow_add_r by lia; by replace (64 - c + c) with 64 by lia).
  assert (0 < 2 ^ c) by lia. assert (0 < 2 ^ (64 - c)) as Hp by lia. pose proof (Z.mod_pos_bound x _ Hp) as Hb. pose proof (Z.div_mod x (2 ^ (64 - c)) ltac:(lia)) as E.
  split; [by apply Z.shiftr_div_pow2; lia|]. assert (x * 2 ^ c = B * (x / 2 ^ (64 - c)) + x mod 2 ^ (64 - c) * 2 ^ c) as E2 by nia.
  split. { unfold wrap, wrapu. rewrite Z.shiftl_mul_pow2 by lia. change (2 ^ 64) with B. rewrite E2, Z.add_comm, (Z.mul_comm B), Z_mod_plus_full. apply Z.mod_small. nia. }
  split; [|split; [lia|done]]. split; [apply Z.div_pos; unfold word in Hx; lia|]. apply Z.div_lt_upper_bound; [done|]. unfold word in Hx. lia.
Qed.

Lemma lshift_loop_spec i wp up cnt h m :
  wf m → 0 < cnt < 64 → word h → (wp + i < length m)%nat → (up + i <= length m)%nat → (up <= wp ∨ wp + i < up)%nat →
  ∃ m', lshift_loop i wp up cnt h m = Val (tt, m') ∧ frame (range wp (S i)) m m' ∧ wf m' ∧
    V m' wp (S i) = V m up i * 2 ^ cnt + B ^ Z.of_nat i * wrap (Z.shiftl h cnt).
Proof.
  intros Hm Hc. revert h m Hm. induction i as [|k IH]; intros h m Hm Hh Hw Hu Ho; cbn [lshift_loop].
  { exists (<[wp := wrap (Z.shiftl h cnt)]> m). unfold store. rewrite (proj2 (Nat.ltb_lt _ _)) by lia.
    split; [done|]. split; [apply frame_insert; unfold range; lia|]. split; [apply wf_insert; [done|apply wrap_word]|].
    rewrite (V_cons _ _ _ (wrap (Z.shiftl h cnt))) by (apply list_lookup_insert_eq; lia). cbn [V]. change (B ^ Z.of_nat 0) with 1. lia. }
  destruct (limb_at m (up + k)) as [v Ev]; [lia|]. rewrite (load_bind _ _ _ _ Ev), store_bind by lia. assert (word v) as Wv by (by eapply wf_lookup).
  destruct (shift_parts h cnt Hh Hc) as (hh & hl & _ & E2 & B1 & B2 & _). destruct (shift_parts v cnt Wv Hc) as (vh & vl & F1 & F2 & C1 & C2 & F3).
  rewrite E2, F1, lor_low by lia. assert (B = 2 ^ (64 - cnt) * 2 ^ cnt) as EB by (rewrite <- Z.pow_add_r by lia; by replace (64 - cnt + cnt) with 64 by lia).
  destruct (IH v (<[(wp + S k)%nat := hl * 2 ^ cnt + vh]> m)) as (m' & -> & Hf & Hw' & HV); [apply wf_insert; [done|unfold word; nia]|done|rewrite ?length_insert; lia..|].
  exists m'. split; [done|]. split.
  { eapply frame_trans; [apply (frame_insert _ m (wp + S k)); unfold range; lia|]. eapply frame_weaken; [exact Hf|frames]. }
  split; [done|]. rewrite V_top, HV, F2, V_insert by frames. rewrite (frame_lookup _ _ _ _ Hf) by frames.
  rewrite list_lookup_insert_eq by lia. cbn [default from_option id]. rewrite (V_top m up k), Ev. cbn [default from_option id].
  rewrite pow_S. nia.
Qed.

Lemma lshift_spec n wp up cnt m :
  wf m → 0 < cnt < 64 → (0 < n)%nat → (wp + n <= length m)%nat → (up + n <= length m)%nat → (up <= wp ∨ wp + n <= up)%nat →
  ∃ r m', mpn_lshift wp up n cnt m = Val (r, m') ∧ frame (range wp n) m m' ∧ wf m' ∧ 0 <= r < 2 ^ cnt ∧
    V m' wp n + B ^ Z.of_nat n * r = V m up n * 2 ^ cnt.
Proof.
  intros Hm Hc Hn Hw Hu Ho. destruct n as [|i]; [lia|]. cbn [mpn_lshift]. destruct (limb_at m (up + i)) as [v Ev]; [lia|].
  rewrite (load_bind _ _ _ _ Ev). assert (word v) as Wv by (by eapply wf_lookup).
  destruct (lshift_loop_spec i wp up cnt v m) as (m' & E & Hf & Hw' & HV); [done|done|done|lia..|]. rewrite (step_bind _ _ _ _ _ E).
  destruct (shift_parts v cnt Wv Hc) as (vh & vl & F1 & F2 & C1 & C2 & F3). exists vh, m'. rewrite F1.
  split_and!; try done; try lia. rewrite HV, F2, V_top, Ev, pow_S. cbn [default from_option id].
  rewrite Z.mul_add_distr_r, <- (Z.mul_assoc _ v), F3. ring.
Qed.

Lemma rshift_loop_spec n wp up cnt l m :
  wf m → 0 < cnt < 64 → word l → (wp + n < length m)%nat → (up + n <= length m)%nat → may_overlap wp up n →
  ∃ m', rshift_loop n wp up cnt l m = Val (tt, m') ∧ frame (range wp (S n)) m m' ∧ wf m' ∧
    V m' wp (S n) = Z.shiftr l cnt + 2 ^ (64 - cnt) * V m up n.
Proof.
  intros Hm Hc. revert wp up l m Hm. induction n as [|n IH]; intros wp up l m Hm Hl Hw Hu Ho; cbn [rshift_loop];
    destruct (shift_parts l (64 - cnt) Hl ltac:(lia)) as (lh & ll & E1 & _ & B1 & _ & _); replace (64 - (64 - cnt)) with cnt in * by lia; rewrite E1 in *;
    assert (B = 2 ^ cnt * 2 ^ (64 - cnt)) as EB by (rewrite <- Z.pow_add_r by lia; by replace (cnt + (64 - cnt)) with 64 by lia);
    assert (0 < 2 ^ cnt) by lia.
  { exists (<[wp := lh]> m). unfold store. rewrite (proj2 (Nat.ltb_lt _ _)) by lia.
    split; [done|]. split; [apply frame_insert; unfold range; lia|]. split; [apply wf_insert; [done|unfold word; nia]|].
    rewrite (V_cons _ _ _ lh) by (apply list_lookup_insert_eq; lia). cbn [V]. lia. }
  destruct (limb_at m up) as [v Ev]; [lia|]. rewrite (load_bind _ _ _ _ Ev), store_bind by lia. assert (word v) as Wv by (by eapply wf_lookup).
  destruct (shift_parts v (64 - cnt) Wv ltac:(lia)) as (vh & vl & F1 & F2 & C1 & C2 & F3). replace (64 - (64 - cnt)) with cnt in * by lia.
  rewrite F2, Z.lor_comm, lor_low by lia.
  destruct (IH (S wp) (S up) v (<[wp := vl * 2 ^ (64 - cnt) + lh]> m)) as (m' & -> & Hf & Hw' & HV); [apply wf_insert; [done|unfold word; nia]|done|ranges..|].
  exists m'. split; [done|]. split; [by eapply frame_first|]. split; [done|].
  rewrite (V_first wp (S n) _ m m' ltac:(lia) Hf), HV, F1, V_insert, (V_cons m up n v) by (done || ranges). nia.
Qed.

Lemma rshift_spec n wp up cnt m :
  wf m → 0 < cnt < 64 → (0 < n)%nat → (wp + n <= length m)%nat → (up + n <= length m)%nat → may_overlap wp up n →
  ∃ r m', mpn_rshift wp up n cnt m = Val (r, m') ∧ frame (range wp n) m m' ∧ wf m' ∧ word r ∧
    B * V m' wp n + r = V m up n * 2 ^ (64 - cnt).
Proof.
  intros Hm Hc Hn Hw Hu Ho. destruct n as [|n]; [lia|]. cbn [mpn_rshift]. destruct (limb_at m up) as [v Ev]; [lia|].
  rewrite (load_bind _ _ _ _ Ev). assert (word v) as Wv by (by eapply wf_lookup).
  destruct (rshift_loop_spec n wp (S up) cnt v m) as (m' & E & Hf & Hw' & HV); [done|done|done|frames..|]. rewrite (step_bind _ _ _ _ _ E).
  destruct (shift_parts v (64 - cnt) Wv ltac:(lia)) as (vh & vl & F1 & F2 & C1 & C2 & F3). replace (64 - (64 - cnt)) with cnt in * by lia.
  exists (wrap (Z.shiftl v (64 - cnt))), m'. split; [done|]. split; [done|]. split; [done|]. split; [apply wrap_word|].
  rewrite HV, F1, F2, (V_cons m up n v Ev). nia.
Qed.

(** ** Comparison *)

Lemma cmp_spec n p q m :
  wf m → (p + n <= length m)%nat → (q + n <= length m)%nat → mpn_cmp p q n m = Val (Z.sgn (V m p n - V m q n), m).
Proof.
  intros Hm. induction n as [|i IH]; intros Hp Hq; [done|]. cbn [mpn_cmp].
  destruct (limb_at m (p + i)) as [x Ex]; [lia|]. destruct (limb_at m (q + i)) as [y Ey]; [lia|].
  rewrite (load_bind _ _ _ _ Ex), (load_bind _ _ _ _ Ey), !V_top, Ex, Ey. cbn [default from_option id].
  pose proof (V_bound m p i Hm) as B1. pose proof (V_bound m q i Hm) as B2.
  destruct (Z.eqb_spec x y) as [->|Hne]; cbn [negb]; [rewrite IH by lia; do 3 f_equal; lia|].
  destruct (Z.ltb_spec y x); unfold mret, M_ret; do 2 f_equal; symmetry; [apply Z.sgn_pos_iff|apply Z.sgn_neg_iff]; nia.
Qed.
End MpnSpec.
