(* ===== verification/MpnMul.v ===== *)
(** * Multi-precision arithmetic: multiplication

    [stdlib/mul_n.c] and [stdlib/mul.c]: the traditional algorithm, the
    algorithm of Karatsuba for operands of the same size, its variant for
    squares, and the multiplication of operands of two sizes in pieces.
    [TMP_ALLOC] is [alloca]: the memory grows by limbs of any contents, and
    shrinks when the function returns. *)

From S2P Require Import Prelude LongLong Mpn MpnSpec.
Local Open Scope Z_scope.

Module MpnMul.
Import LongLong Mpn MpnSpec.

Definition KARATSUBA_THRESHOLD : nat := 32.

(** ** The traditional algorithm *)

(** The product with the first limb is stored. *)
Definition mul_first (prodp up size : nat) (v_limb : Z) : M Z :=
  if v_limb <=? 1 then
    (if v_limb =? 1 then MPN_COPY prodp up size else MPN_ZERO prodp size) ;;
    mret 0
  else mpn_mul_1 prodp up size v_limb.

(** The products with the next [k] limbs at [vp] are added; the last carry. *)
Fixpoint mul_rest (k prodp up vp size : nat) (cy_limb : Z) : M Z :=
  match k with
  | O => mret cy_limb
  | S k =>
      v_limb ← load vp;
      cy_limb ←
        (if v_limb <=? 1 then (if v_limb =? 1 then mpn_add_n prodp prodp up size else mret 0)
         else mpn_addmul_1 prodp up size v_limb);
      store (prodp + size) cy_limb ;;
      mul_rest k (S prodp) up (S vp) size cy_limb
  end.

Definition impn_mul_n_basecase (prodp up vp size : nat) : M unit :=
  v_limb ← load vp;
  cy_limb ← mul_first prodp up size v_limb;
  store (prodp + size) cy_limb ;;
  mul_rest (size - 1) (S prodp) up (S vp) size cy_limb ;;
  mret tt.

Definition impn_sqr_n_basecase (prodp up size : nat) : M unit :=
  v_limb ← load up;
  cy_limb ← mul_first prodp up size v_limb;
  store (prodp + size) cy_limb ;;
  mul_rest (size - 1) (S prodp) up (S up) size cy_limb ;;
  mret tt.

(** ** The algorithm of Karatsuba *)

Definition MPN_MUL_N_RECURSE (impn_mul_n : nat → nat → nat → nat → nat → M unit) (prodp up vp size tspace : nat) : M unit :=
  if (size <? KARATSUBA_THRESHOLD)%nat then impn_mul_n_basecase prodp up vp size
  else impn_mul_n prodp up vp size tspace.

Definition MPN_SQR_N_RECURSE (impn_sqr_n : nat → nat → nat → nat → M unit) (prodp up size tspace : nat) : M unit :=
  if (size <? KARATSUBA_THRESHOLD)%nat then impn_sqr_n_basecase prodp up size
  else impn_sqr_n prodp up size tspace.

(** The distance of the upper and the lower half of an operand, and whether
    the upper one is smaller. *)
Definition half_diff (dst up hsize : nat) : M bool :=
  c ← mpn_cmp (up + hsize) up hsize;
  if 0 <=? c then mpn_sub_n dst (up + hsize) up hsize ;; mret false
  else mpn_sub_n dst up (up + hsize) hsize ;; mret true.

(** Add/copy product H. *)
Definition add_H (prodp size hsize : nat) : M Z :=
  MPN_COPY (prodp + hsize) (prodp + size) hsize ;;
  mpn_add_n (prodp + size) (prodp + size) (prodp + size + hsize) hsize.

(** Add/copy product L (twice). *)
Definition add_L (prodp tspace size hsize : nat) (cy : Z) : M unit :=
  c ← mpn_add_n (prodp + hsize) (prodp + hsize) tspace size;
  let cy := wrap (cy + c) in
  (if negb (cy =? 0) then mpn_add_1 (prodp + hsize + size) (prodp + hsize + size) hsize cy ;; mret tt else mret tt) ;;
  MPN_COPY prodp tspace hsize ;;
  cy ← mpn_add_n (prodp + hsize) (prodp + hsize) (tspace + hsize) hsize;
  if negb (cy =? 0) then mpn_add_1 (prodp + size) (prodp + size) size 1 ;; mret tt else mret tt.

(** From the products H and M to the whole one; [product_L] computes the
    third. *)
Definition add_products (product_L : M unit) (prodp tspace size hsize : nat) (negflg : bool) : M unit :=
  cy ← add_H prodp size hsize;
  cy ← (if negflg then
          c ← mpn_sub_n (prodp + hsize) (prodp + hsize) tspace size; mret (wrap (cy - c))
        else
          c ← mpn_add_n (prodp + hsize) (prodp + hsize) tspace size; mret (wrap (cy + c)));
  product_L ;;
  add_L prodp tspace size hsize cy.

(** The last limbs of an odd size. *)
Definition mul_last (prodp up vp esize size : nat) : M unit :=
  v ← load (vp + esize);
  cy_limb ← mpn_addmul_1 (prodp + esize) up esize v;
  store (prodp + esize + esize) cy_limb ;;
  u ← load (up + esize);
  cy_limb ← mpn_addmul_1 (prodp + esize) vp size u;
  store (prodp + esize + size) cy_limb.

Fixpoint impn_mul_n (fuel : nat) (prodp up vp size tspace : nat) : M unit :=
  match fuel with
  | O => λ _, NoFuel
  | S fuel =>
      let RECURSE := MPN_MUL_N_RECURSE (impn_mul_n fuel) in
      if Nat.odd size then
        let esize := (size - 1)%nat in
        RECURSE prodp up vp esize tspace ;;
        mul_last prodp up vp esize size
      else
        let hsize := Nat.div2 size in
        RECURSE (prodp + size)%nat (up + hsize)%nat (vp + hsize)%nat hsize tspace ;;
        negflg ← half_diff prodp up hsize;
        neg ← half_diff (prodp + hsize) vp hsize;
        let negflg := xorb negflg (negb neg) in
        RECURSE tspace prodp (prodp + hsize)%nat hsize (tspace + size)%nat ;;
        add_products (RECURSE tspace up vp hsize (tspace + size)%nat) prodp tspace size hsize negflg
  end.

Fixpoint impn_sqr_n (fuel : nat) (prodp up size tspace : nat) : M unit :=
  match fuel with
  | O => λ _, NoFuel
  | S fuel =>
      let RECURSE := MPN_SQR_N_RECURSE (impn_sqr_n fuel) in
      if Nat.odd size then
        let esize := (size - 1)%nat in
        RECURSE prodp up esize tspace ;;
        mul_last prodp up up esize size
      else
        let hsize := Nat.div2 size in
        RECURSE (prodp + size)%nat (up + hsize)%nat hsize tspace ;;
        half_diff prodp up hsize ;;
        RECURSE tspace prodp hsize (tspace + size)%nat ;;
        add_products (RECURSE tspace up hsize (tspace + size)%nat) prodp tspace size hsize true
  end.

(** ** The entry points *)

Section Alloc.
(** The contents of storage that [alloca] returns. *)
Context (junk : nat → Z).

Definition with_tmp {A : Type} (n : nat) (f : nat → M A) : M A := λ m,
  match f (length m) (m ++ (junk <$> seq 0 n)) with
  | Val (a, m') => Val (a, take (length m) m')
  | Fault => Fault
  | NoFuel => NoFuel
  end.

Definition mpn_mul_n (prodp up vp size : nat) : M unit :=
  if (up =? vp)%nat then
    if (size <? KARATSUBA_THRESHOLD)%nat then impn_sqr_n_basecase prodp up size
    else with_tmp (2 * size) (λ tspace, impn_sqr_n size prodp up size tspace)
  else
    if (size <? KARATSUBA_THRESHOLD)%nat then impn_mul_n_basecase prodp up vp size
    else with_tmp (2 * size) (λ tspace, impn_mul_n size prodp up vp size tspace).

(** The whole pieces of the longer operand; where the rest starts and how
    long it is. *)
Fixpoint mul_pieces (fuel : nat) (prodp up usize vp vsize tspace tp : nat) : M (nat * nat * nat) :=
  match fuel with
  | O => λ _, NoFuel
  | S fuel =>
      MPN_MUL_N_RECURSE (impn_mul_n vsize) tp up vp vsize tspace ;;
      cy ← mpn_add_n prodp prodp tp vsize;
      mpn_add_1 (prodp + vsize) (tp + vsize) vsize cy ;;
      let prodp := (prodp + vsize)%nat in
      let up := (up + vsize)%nat in
      let usize := (usize - vsize)%nat in
      if (vsize <=? usize)%nat then mul_pieces fuel prodp up usize vp vsize tspace tp else mret (prodp, up, usize)
  end.

(** What is left of the longer operand, if anything: the product by [mul]. *)
Definition mul_left (mul : nat → nat → nat → nat → nat → M Z) (prodp up usize vp vsize tspace : nat) : M unit :=
  if negb (usize =? 0)%nat then
    mul tspace vp vsize up usize ;;
    cy ← mpn_add_n prodp prodp tspace vsize;
    mpn_add_1 (prodp + vsize) (tspace + vsize) usize cy ;;
    mret tt
  else mret tt.

Fixpoint mpn_mul (fuel : nat) (prodp up usize vp vsize : nat) : M Z :=
  match fuel with
  | O => λ _, NoFuel
  | S fuel =>
      let prod_endp := (prodp + usize + vsize - 1)%nat in
      if (vsize <? KARATSUBA_THRESHOLD)%nat then
        if (vsize =? 0)%nat then mret 0 else
        v_limb ← load vp;
        cy_limb ← mul_first prodp up usize v_limb;
        store (prodp + usize) cy_limb ;;
        mul_rest (vsize - 1) (S prodp) up (S vp) usize cy_limb
      else
        with_tmp (2 * vsize) (λ tspace,
          MPN_MUL_N_RECURSE (impn_mul_n vsize) prodp up vp vsize tspace ;;
          let prodp := (prodp + vsize)%nat in
          let up := (up + vsize)%nat in
          let usize := (usize - vsize)%nat in
          (if (vsize <=? usize)%nat then
             with_tmp (2 * vsize) (λ tp,
               '(prodp, up, usize) ← mul_pieces usize prodp up usize vp vsize tspace tp;
               mul_left (mpn_mul fuel) prodp up usize vp vsize tspace)
           else mul_left (mpn_mul fuel) prodp up usize vp vsize tspace) ;;
          load prod_endp)
  end.
End Alloc.

(** ** Correctness of the traditional algorithm *)

Definition apart (p n q k : nat) : Prop := (p + n <= q ∨ q + k <= p)%nat.

Ltac places := rewrite ?length_insert; unfold range, may_overlap, apart in *; intros; lia.

Lemma mul_first_spec prodp up size v m :
  wf m → word v → (0 < size)%nat → (prodp + size <= length m)%nat → (up + size <= length m)%nat → may_overlap prodp up size →
  ∃ cy m', mul_first prodp up size v m = Val (cy, m') ∧ frame (range prodp size) m m' ∧ wf m' ∧ word cy ∧
    V m' prodp size + B ^ Z.of_nat size * cy = V m up size * v.
Proof.
  intros Hm Hv Hs Hp Hu Ho. unfold mul_first. destruct (Z.leb_spec v 1) as [H1|H1]; [|by apply mul_1_spec].
  destruct (Z.eqb_spec v 1) as [->|H0].
  - destruct (copy_spec size prodp up m) as (m' & E & Hf & Hw & HV); try done. rewrite (step_bind _ _ _ _ _ E). exists 0, m'. split_and!; try done. lia.
  - destruct (zero_spec size prodp m) as (m' & E & Hf & Hw & HV); try done. rewrite (step_bind _ _ _ _ _ E). exists 0, m'.
    assert (v = 0) as -> by (unfold word in *; lia). split_and!; try done. lia.
Qed.

(** One limb of the multiplier. *)
Lemma mul_next_spec prodp up size v m :
  wf m → word v → (0 < size)%nat → (prodp + size <= length m)%nat → (up + size <= length m)%nat → may_overlap prodp up size →
  ∃ cy m', (if v <=? 1 then (if v =? 1 then mpn_add_n prodp prodp up size else mret 0) else mpn_addmul_1 prodp up size v) m = Val (cy, m') ∧
    frame (range prodp size) m m' ∧ wf m' ∧ word cy ∧ V m' prodp size + B ^ Z.of_nat size * cy = V m prodp size + V m up size * v.
Proof.
  intros Hm Hv Hs Hp Hu Ho. destruct (Z.leb_spec v 1) as [H1|H1]; [|by apply addmul_1_spec]. destruct (Z.eqb_spec v 1) as [->|H0].
  - destruct (add_n_spec size prodp prodp up m) as (cy & m' & -> & Hf & Hw & Hc & HV); try places; [done..|]. exists cy, m'. split_and!; try done; [unfold word, B; lia|lia].
  - exists 0, m. assert (v = 0) as -> by (unfold word in *; lia). split_and!; try done. lia.
Qed.

(** A limb stored above a number. *)
Lemma V_above (p n : nat) v m : (p + n < length m)%nat → V (<[(p + n)%nat := v]> m) p (S n) = V m p n + B ^ Z.of_nat n * v.
Proof. intros H. rewrite V_top, list_lookup_insert_eq by lia. rewrite V_insert by places. done. Qed.

Lemma mul_rest_spec k prodp up vp size cy m :
  wf m → word cy → (0 < size)%nat → (prodp + size + k <= length m)%nat → (up + size <= length m)%nat → (vp + k <= length m)%nat →
  apart prodp (size + k) up size → apart prodp (size + k) vp k → m !! (prodp + size - 1)%nat = Some cy →
  ∃ cy' m', mul_rest k prodp up vp size cy m = Val (cy', m') ∧ frame (range prodp (size + k)) m m' ∧ wf m' ∧
    m' !! (prodp + size + k - 1)%nat = Some cy' ∧ V m' prodp (size + k) = V m prodp size + V m up size * V m vp k.
Proof.
  revert prodp vp cy m. induction k as [|k IH]; intros prodp vp cy m Hm Hc Hs Hp Hu Hv Ou Ov Ec; cbn [mul_rest].
  { exists cy, m. rewrite !Nat.add_0_r. split_and!; try done. cbn [V]. lia. }
  destruct (limb_at m vp) as [v Ev]; [lia|]. rewrite (load_bind _ _ _ _ Ev). assert (word v) as Wv by (by eapply wf_lookup).
  destruct (mul_next_spec prodp up size v m) as (c & m1 & E & Hf & Hw & Wc & HV); [done|done|places..|]. rewrite (step_bind _ _ _ _ _ E). clear E.
  pose proof (frame_length _ _ _ Hf) as Hl. rewrite store_bind by lia. set (m2 := <[(prodp + size)%nat := c]> m1).
  assert (frame (range prodp (S size)) m m2) as Hf2 by (eapply frame_trans; [eapply frame_weaken; [exact Hf|places]|apply frame_insert; places]).
  destruct (IH (S prodp) (S vp) c m2) as (cy' & m' & -> & Hf' & Hw' & Ec' & HV'); [by apply wf_insert|done|unfold m2; places..| |].
  { unfold m2. replace (S prodp + size - 1)%nat with (prodp + size)%nat by lia. apply list_lookup_insert_eq. lia. }
  exists cy', m'. split; [done|]. split; [eapply frame_trans; (eapply frame_weaken; [eassumption|places])|]. split; [done|].
  split; [rewrite <- Ec'; f_equal; lia|]. replace (size + S k)%nat with (S (size + k)) by lia. cbn [V].
  rewrite HV', (frame_lookup _ _ _ prodp Hf'), (V_frame _ _ _ up size Hf2), (V_frame _ _ _ (S vp) k Hf2) by places.
  assert (V m2 prodp (S size) = V m prodp size + V m up size * v) as E2 by (unfold m2; rewrite V_above by lia; lia).
  cbn [V] in E2. rewrite Ev. cbn [default from_option id]. rewrite !Z.mul_add_distr_l, Z.add_assoc, E2. ring.
Qed.

(** The first limb, then the others. *)
Lemma mul_base_spec prodp up usize vp vsize m :
  wf m → (0 < usize)%nat → (0 < vsize)%nat → (prodp + usize + vsize <= length m)%nat → (up + usize <= length m)%nat → (vp + vsize <= length m)%nat →
  apart prodp (usize + vsize) up usize → apart prodp (usize + vsize) vp vsize →
  ∃ cy m', (v_limb ← load vp; cy_limb ← mul_first prodp up usize v_limb; store (prodp + usize) cy_limb ;;
      mul_rest (vsize - 1) (S prodp) up (S vp) usize cy_limb) m = Val (cy, m') ∧
    frame (range prodp (usize + vsize)) m m' ∧ wf m' ∧ m' !! (prodp + usize + vsize - 1)%nat = Some cy ∧
    V m' prodp (usize + vsize) = V m up usize * V m vp vsize.
Proof.
  intros Hm Hus Hvs Hp Hu Hv Ou Ov. destruct (limb_at m vp) as [v Ev]; [lia|]. rewrite (load_bind _ _ _ _ Ev). assert (word v) as Wv by (by eapply wf_lookup).
  destruct (mul_first_spec prodp up usize v m) as (c & m1 & E & Hf & Hw & Wc & HV); [done|done|places..|]. rewrite (step_bind _ _ _ _ _ E). clear E.
  pose proof (frame_length _ _ _ Hf) as Hl. rewrite store_bind by lia. set (m2 := <[(prodp + usize)%nat := c]> m1).
  assert (frame (range prodp (S usize)) m m2) as Hf2 by (eapply frame_trans; [eapply frame_weaken; [exact Hf|places]|apply frame_insert; places]).
  destruct (mul_rest_spec (vsize - 1) (S prodp) up (S vp) usize c m2) as (cy' & m' & E & Hf' & Hw' & Ec' & HV'); [by apply wf_insert|done|unfold m2; places..| |].
  { unfold m2. replace (S prodp + usize - 1)%nat with (prodp + usize)%nat by lia. apply list_lookup_insert_eq. lia. }
  exists cy', m'. split; [done|]. split; [eapply frame_trans; (eapply frame_weaken; [eassumption|places])|]. split; [done|].
  split; [rewrite <- Ec'; f_equal; lia|]. replace (usize + vsize)%nat with (S (usize + (vsize - 1))) by lia. replace (V m vp vsize) with (V m vp (S (vsize - 1))) by (f_equal; lia). cbn [V].
  rewrite HV', (frame_lookup _ _ _ prodp Hf'), (V_frame _ _ _ up usize Hf2), (V_frame _ _ _ (S vp) _ Hf2) by places.
  assert (V m2 prodp (S usize) = V m up usize * v) as E2 by (unfold m2; rewrite V_above by lia; lia).
  cbn [V] in E2. rewrite Ev. cbn [default from_option id]. rewrite !Z.mul_add_distr_l, Z.add_assoc, E2. ring.
Qed.

(** The product of two operands of [size] limbs; the temporary storage is
    twice as long. *)
Definition multiplies (f : M unit) (prodp up vp size tspace : nat) : Prop := ∀ m,
  wf m → (prodp + 2 * size <= length m)%nat → (up + size <= length m)%nat → (vp + size <= length m)%nat → (tspace + 2 * size <= length m)%nat →
  apart prodp (2 * size) up size → apart prodp (2 * size) vp size → apart prodp (2 * size) tspace (2 * size) →
  apart tspace (2 * size) up size → apart tspace (2 * size) vp size →
  ∃ m', f m = Val (tt, m') ∧ frame (λ i, range prodp (2 * size) i ∨ range tspace (2 * size) i) m m' ∧ wf m' ∧
    V m' prodp (2 * size) = V m up size * V m vp size.

Lemma basecase_spec prodp up vp size m :
  wf m → (0 < size)%nat → (prodp + 2 * size <= length m)%nat → (up + size <= length m)%nat → (vp + size <= length m)%nat →
  apart prodp (2 * size) up size → apart prodp (2 * size) vp size →
  ∃ m', impn_mul_n_basecase prodp up vp size m = Val (tt, m') ∧ frame (range prodp (2 * size)) m m' ∧ wf m' ∧
    V m' prodp (2 * size) = V m up size * V m vp size.
Proof.
  intros Hm Hs Hp Hu Hv Ou Ov. destruct (mul_base_spec prodp up size vp size m) as (cy & m' & E & Hf & Hw & _ & HV); [done|places..|].
  exists m'. replace (2 * size)%nat with (size + size)%nat by lia. split_and!; try done. unfold impn_mul_n_basecase.
  revert E. unfold mbind, M_bind. destruct (load vp m) as [[v m1]| |]; [|done..]. destruct (mul_first prodp up size v m1) as [[c m2]| |]; [|done..].
  destruct (store (prodp + size) c m2) as [[[] m3]| |]; [|done..]. by intros ->.
Qed.

(** ** Correctness of the algorithm of Karatsuba *)

(** What is known of the numbers in a memory is known in the next. *)
Ltac advance Hf :=
  match type of Hf with
  | frame _ ?m ?m' =>
      repeat match goal with
      | H : context [V m ?p ?n] |- _ => rewrite <- (V_frame _ m m' p n Hf) in H by places
      end
  end.

Lemma half_diff_spec dst up h m :
  wf m → (0 < h)%nat → (dst + h <= length m)%nat → (up + 2 * h <= length m)%nat → apart dst h up (2 * h) →
  ∃ neg m', half_diff dst up h m = Val (neg, m') ∧ frame (range dst h) m m' ∧ wf m' ∧
    V m (up + h) h - V m up h = (if neg : bool then - V m' dst h else V m' dst h).
Proof.
  intros Hm Hh Hd Hu Ho. unfold half_diff. rewrite (step_bind _ _ _ _ _ (cmp_spec h (up + h) up m Hm ltac:(lia) ltac:(lia))).
  destruct (Z.leb_spec 0 (Z.sgn (V m (up + h) h - V m up h))) as [H|H].
  - destruct (sub_n_spec h dst (up + h) up m) as (cy & m' & E & Hf & Hw & Hc & HV); [done|places..|]. rewrite (step_bind _ _ _ _ _ E).
    exists false, m'. split_and!; try done. rewrite Z.sgn_nonneg in H. pose proof (V_bound m' dst h Hw). assert (cy = 0 ∨ cy = 1) as [->| ->] by lia; lia.
  - destruct (sub_n_spec h dst up (up + h) m) as (cy & m' & E & Hf & Hw & Hc & HV); [done|places..|]. rewrite (step_bind _ _ _ _ _ E).
    exists true, m'. split_and!; try done. apply Z.lt_nge in H. rewrite Z.sgn_nonneg in H. pose proof (V_bound m' dst h Hw). assert (cy = 0 ∨ cy = 1) as [->| ->] by lia; lia.
Qed.

Lemma V_halves m p h : V m p (2 * h) = V m p h + B ^ Z.of_nat h * V m (p + h) h.
Proof. replace (2 * h)%nat with (h + h)%nat by lia. apply V_split. Qed.

Lemma pow_2 h : B ^ Z.of_nat (2 * h) = B ^ Z.of_nat h * B ^ Z.of_nat h.
Proof. rewrite <- Z.pow_add_r by lia. f_equal. lia. Qed.

Lemma add_H_spec p h m :
  wf m → (0 < h)%nat → (p + 4 * h <= length m)%nat →
  ∃ cy m', add_H p (2 * h) h m = Val (cy, m') ∧ frame (range (p + h) (2 * h)) m m' ∧ wf m' ∧ 0 <= cy <= 1 ∧
    V m' (p + h) (2 * h) + B ^ Z.of_nat (2 * h) * cy = V m (p + 2 * h) h + B ^ Z.of_nat h * (V m (p + 2 * h) h + V m (p + 2 * h + h) h).
Proof.
  intros Hm Hh Hp. unfold add_H. destruct (copy_spec h (p + h) (p + 2 * h) m) as (m1 & E & Hf & Hw & HV); [done|places..|].
  rewrite (step_bind _ _ _ _ _ E). clear E. pose proof (frame_length _ _ _ Hf) as Hl.
  destruct (add_n_spec h (p + 2 * h) (p + 2 * h) (p + 2 * h + h) m1) as (cy & m2 & -> & Hf2 & Hw2 & Hc & HV2); [done|places..|].
  exists cy, m2. split; [done|]. split; [eapply frame_trans; (eapply frame_weaken; [eassumption|places])|]. split_and!; try done; try lia.
  rewrite V_halves, pow_2, (V_frame _ _ _ (p + h) h Hf2) by places. replace (p + h + h)%nat with (p + 2 * h)%nat by lia.
  rewrite (V_frame _ _ _ (p + 2 * h) h Hf), (V_frame _ _ _ (p + 2 * h + h) h Hf) in HV2 by places. nia.
Qed.

(** A carry added above, where it cannot leave the number. *)
Lemma add_above_spec p n c cy m :
  wf m → (0 < n)%nat → (p + n <= length m)%nat → 0 <= c < B → cy = wrap c → V m p n + c < B ^ Z.of_nat n →
  ∃ m', (if negb (cy =? 0) then mpn_add_1 p p n cy ;; mret tt else mret tt) m = Val (tt, m') ∧ frame (range p n) m m' ∧ wf m' ∧ V m' p n = V m p n + c.
Proof.
  intros Hm Hn Hp Hc -> Hlt. rewrite wrap_id by done. destruct (Z.eqb_spec c 0) as [->|H0]; cbn [negb].
  { exists m. split_and!; try done. lia. }
  destruct (add_1_spec n p p c m) as (cy & m' & E & Hf & Hw & Hcy & HV); [done|done|places..|]. rewrite (step_bind _ _ _ _ _ E).
  exists m'. split_and!; try done. pose proof (V_bound m' p n Hw). pose proof (V_bound m p n Hm). assert (cy = 0 ∨ cy = 1) as [->| ->] by lia; lia.
Qed.

Lemma add_L_spec p t h c m :
  wf m → (0 < h)%nat → (p + 4 * h <= length m)%nat → (t + 2 * h <= length m)%nat → apart p (4 * h) t (2 * h) → -1 <= c <= 2 →
  let β := B ^ Z.of_nat h in
  let L := V m t (2 * h) in
  let T := V m (p + h) (2 * h) + β * β * c + L in
  0 <= T → L + β * (T + β * β * V m (p + 2 * h + h) h) < β * β * β * β →
  ∃ m', add_L p t (2 * h) h (wrap c) m = Val (tt, m') ∧ frame (range p (4 * h)) m m' ∧ wf m' ∧
    V m' p (4 * h) = L + β * (T + β * β * V m (p + 2 * h + h) h).
Proof.
  intros Hm Hh Hp Ht Ho Hc β L T HT Hlt. unfold add_L. assert (0 < β) as Hβ by (unfold β, B; lia). pose proof (V_bound m t (2 * h) Hm) as BL. fold L in BL.
  destruct (add_n_spec (2 * h) (p + h) (p + h) t m) as (c1 & m1 & E & Hf & Hw & Hc1 & HV); [done|places..|]. rewrite (step_bind _ _ _ _ _ E). clear E. cbv zeta.
  pose proof (frame_length _ _ _ Hf) as Hl. fold L in HV. rewrite pow_2 in HV, BL. fold β in HV, BL.
  pose proof (V_bound m1 (p + h) (2 * h) Hw) as B1. rewrite pow_2 in B1. fold β in B1. assert (0 <= c + c1) as Hcc by nia.
  set (H1 := V m (p + 2 * h + h) h) in *. assert (V m1 (p + h + 2 * h) h = H1) as HH.
  { unfold H1. rewrite (V_frame _ _ _ _ _ Hf) by places. f_equal. lia. }
  pose proof (V_bound m (p + 2 * h + h) h Hm) as BH. fold H1 β in BH.
  assert (wrap (wrap c + c1) = wrap (c + c1)) as Ew by (unfold wrap, wrapu; apply Zplus_mod_idemp_l).
  destruct (add_above_spec (p + h + 2 * h) h (c + c1) (wrap (wrap c + c1)) m1) as (m2 & E & Hf2 & Hw2 & HV2); [done|places..|unfold B; lia|done| |].
  { rewrite HH. fold β. nia. }
  rewrite (step_bind _ _ _ _ _ E). clear E. pose proof (frame_length _ _ _ Hf2) as Hl2.
  destruct (copy_spec h p t m2) as (m3 & E & Hf3 & Hw3 & HV3); [done|places..|]. rewrite (step_bind _ _ _ _ _ E). clear E. pose proof (frame_length _ _ _ Hf3) as Hl3.
  destruct (add_n_spec h (p + h) (p + h) (t + h) m3) as (c4 & m4 & E & Hf4 & Hw4 & Hc4 & HV4); [done|places..|]. rewrite (step_bind _ _ _ _ _ E). clear E. pose proof (frame_length _ _ _ Hf4) as Hl4.
  assert (V m4 (p + 2 * h) (2 * h) = V m1 (p + 2 * h) h + β * (H1 + (c + c1))) as HV5.
  { rewrite (V_frame _ _ _ _ _ Hf4), (V_frame _ _ _ _ _ Hf3) by places. rewrite V_halves, (V_frame _ _ _ (p + 2 * h) h Hf2) by places.
    replace (p + 2 * h + h)%nat with (p + h + 2 * h)%nat by lia. rewrite HV2, HH. done. }
  assert (V m4 p h + β * V m3 (t + h) h = L) as HL.
  { unfold L. rewrite (V_frame _ _ _ p h Hf4), HV3 by places. rewrite (V_frame _ _ _ (t + h) h Hf3), (V_frame _ _ _ t h Hf2), (V_frame _ _ _ (t + h) h Hf2),
      (V_frame _ _ _ t h Hf), (V_frame _ _ _ (t + h) h Hf), V_halves by places. done. }
  assert (V m3 (p + h) h + β * V m1 (p + 2 * h) h = V m1 (p + h) (2 * h)) as HX.
  { rewrite (V_frame _ _ _ _ _ Hf3), (V_frame _ _ _ _ _ Hf2), V_halves by places. unfold β. do 3 f_equal. lia. }
  assert (L + β * (T + β * β * H1) = V m4 p h + β * V m4 (p + h) h + β * β * (V m4 (p + 2 * h) (2 * h) + c4)) as HT'.
  { unfold T. fold β in HV4. rewrite HV5. rewrite <- HL, <- HX in *. nia. }
  pose proof (V_bound m4 p h Hw4). pose proof (V_bound m4 (p + h) h Hw4).
  assert ((if negb (c4 =? 0) then mpn_add_1 (p + 2 * h) (p + 2 * h) (2 * h) 1 ;; mret tt else mret tt) =
          (if negb (c4 =? 0) then mpn_add_1 (p + 2 * h) (p + 2 * h) (2 * h) c4 ;; mret tt else mret tt)) as ->.
  { assert (c4 = 0 ∨ c4 = 1) as [->| ->] by lia; done. }
  destruct (add_above_spec (p + 2 * h) (2 * h) c4 c4 m4) as (m5 & -> & Hf5 & Hw5 & HV6); [done|places..|unfold B; lia|rewrite wrap_id; [done|unfold word, B; lia]| |].
  { rewrite pow_2. fold β. apply (Z.mul_lt_mono_pos_l (β * β)); nia. }
  exists m5. split; [done|]. split.
  { eapply frame_trans; [|eapply frame_trans; [|eapply frame_trans; [|eapply frame_trans]]]; (eapply frame_weaken; [eassumption|places]). }
  split; [done|]. rewrite HT', <- HV6. replace (4 * h)%nat with (h + (h + 2 * h))%nat by lia. rewrite !V_split. replace (p + h + h)%nat with (p + 2 * h)%nat by lia.
  rewrite (V_frame _ _ _ p h Hf5), (V_frame _ _ _ (p + h) h Hf5) by places. fold β. ring.
Qed.

Lemma add_M_spec p t h neg cy m :
  wf m → (0 < h)%nat → (p + 4 * h <= length m)%nat → (t + 2 * h <= length m)%nat → apart p (4 * h) t (2 * h) → 0 <= cy <= 1 →
  ∃ c m', (if neg : bool then c ← mpn_sub_n (p + h) (p + h) t (2 * h); mret (wrap (cy - c))
           else c ← mpn_add_n (p + h) (p + h) t (2 * h); mret (wrap (cy + c))) m = Val (wrap c, m') ∧
    frame (range (p + h) (2 * h)) m m' ∧ wf m' ∧ -1 <= c <= 2 ∧
    V m' (p + h) (2 * h) + B ^ Z.of_nat (2 * h) * c = V m (p + h) (2 * h) + B ^ Z.of_nat (2 * h) * cy + (if neg then - V m t (2 * h) else V m t (2 * h)).
Proof.
  intros Hm Hh Hp Ht Ho Hc. destruct neg.
  - destruct (sub_n_spec (2 * h) (p + h) (p + h) t m) as (c & m' & E & Hf & Hw & Hc' & HV); [done|places..|]. rewrite (step_bind _ _ _ _ _ E).
    exists (cy - c), m'. split_and!; try done; lia.
  - destruct (add_n_spec (2 * h) (p + h) (p + h) t m) as (c & m' & E & Hf & Hw & Hc' & HV); [done|places..|]. rewrite (step_bind _ _ _ _ _ E).
    exists (cy + c), m'. split_and!; try done; lia.
Qed.

Lemma add_products_spec L p up vp t h neg m :
  multiplies L t up vp h (t + 2 * h) → wf m → (0 < h)%nat → (p + 4 * h <= length m)%nat → (t + 4 * h <= length m)%nat →
  (up + h <= length m)%nat → (vp + h <= length m)%nat → apart p (4 * h) t (4 * h) → apart p (4 * h) up h → apart p (4 * h) vp h →
  apart t (4 * h) up h → apart t (4 * h) vp h →
  let β := B ^ Z.of_nat h in
  let PH := V m (p + 2 * h) (2 * h) in
  let PM := if neg : bool then - V m t (2 * h) else V m t (2 * h) in
  let PL := V m up h * V m vp h in
  0 <= PH + PM + PL → PL + β * (PH + PM + PL) + β * β * PH < β * β * β * β →
  ∃ m', add_products L p t (2 * h) h neg m = Val (tt, m') ∧ frame (λ i, range p (4 * h) i ∨ range t (4 * h) i) m m' ∧ wf m' ∧
    V m' p (4 * h) = PL + β * (PH + PM + PL) + β * β * PH.
Proof.
  intros HL Hm Hh Hp Ht Hu Hv O1 O2 O3 O4 O5 β PH PM PL H0 Hlt. unfold add_products. assert (0 < β) as Hβ by (unfold β, B; lia).
  pose proof (V_bound m (p + 2 * h) h Hm) as BH. assert (PH = V m (p + 2 * h) h + β * V m (p + 2 * h + h) h) as EH by apply V_halves.
  set (H0' := V m (p + 2 * h) h) in *. set (H1 := V m (p + 2 * h + h) h) in *.
  destruct (add_H_spec p h m) as (cy & m1 & E & Hf & Hw & Hc & HV); [done|places..|]. rewrite (step_bind _ _ _ _ _ E). clear E. pose proof (frame_length _ _ _ Hf) as Hl.
  destruct (add_M_spec p t h neg cy m1) as (c & m2 & E & Hf2 & Hw2 & Hc2 & HV2); [done|places..|]. rewrite (step_bind _ _ _ _ _ E). clear E. pose proof (frame_length _ _ _ Hf2) as Hl2.
  rewrite (V_frame _ _ _ t _ Hf) in HV2 by places. fold PM in HV2.
  destruct (HL m2) as (m3 & E & Hf3 & Hw3 & HV3); [done|places..|]. rewrite (step_bind _ _ _ _ _ E). clear E. pose proof (frame_length _ _ _ Hf3) as Hl3.
  rewrite (V_frame _ _ _ up _ Hf2), (V_frame _ _ _ vp _ Hf2), (V_frame _ _ _ up _ Hf), (V_frame _ _ _ vp _ Hf) in HV3 by places. fold PL in HV3.
  assert (V m3 (p + 2 * h + h) h = H1) as E1.
  { rewrite (V_frame _ _ _ _ _ Hf3), (V_frame _ _ _ _ _ Hf2), (V_frame _ _ _ _ _ Hf) by places. done. }
  rewrite <- (V_frame _ _ _ (p + h) _ Hf3) in HV2 by places. rewrite pow_2 in HV, HV2. fold β H0' H1 in HV. fold β in HV2.
  assert (V m3 (p + h) (2 * h) + β * β * c + PL = H0' + β * (H0' + H1) + PM + PL) as ET by lia.
  destruct (add_L_spec p t h c m3) as (m4 & -> & Hf4 & Hw4 & HV4); [done|places..| | |].
  { rewrite HV3. fold β. rewrite ET. nia. }
  { rewrite HV3, E1. fold β. rewrite ET. rewrite EH in Hlt. eapply Z.le_lt_trans; [|exact Hlt]. apply Z.eq_le_incl. ring. }
  exists m4. split; [done|]. split; [eapply frame_trans; [|eapply frame_trans; [|eapply frame_trans]]; (eapply frame_weaken; [eassumption|places])|].
  split; [done|]. rewrite HV4, HV3, E1. fold β. rewrite ET, EH. ring.
Qed.

Lemma mul_last_spec p up vp e m :
  wf m → (0 < e)%nat → (p + 2 * e + 2 <= length m)%nat → (up + e + 1 <= length m)%nat → (vp + e + 1 <= length m)%nat →
  apart p (2 * e + 2) up (e + 1) → apart p (2 * e + 2) vp (e + 1) → V m p (2 * e) = V m up e * V m vp e →
  ∃ m', mul_last p up vp e (e + 1) m = Val (tt, m') ∧ frame (range p (2 * e + 2)) m m' ∧ wf m' ∧ V m' p (2 * e + 2) = V m up (e + 1) * V m vp (e + 1).
Proof.
  intros Hm He Hp Hu Hv Ou Ov HP. unfold mul_last. destruct (limb_at m (vp + e)) as [v Ev]; [lia|]. rewrite (load_bind _ _ _ _ Ev). assert (word v) as Wv by (by eapply wf_lookup).
  destruct (addmul_1_spec e (p + e) up v m) as (c & m1 & E & Hf & Hw & Wc & HV); [done|done|places..|]. rewrite (step_bind _ _ _ _ _ E). clear E.
  pose proof (frame_length _ _ _ Hf) as Hl. rewrite store_bind by lia. set (m2 := <[(p + e + e)%nat := c]> m1).
  assert (frame (range (p + e) (e + 1)) m m2) as Hf2 by (eapply frame_trans; [eapply frame_weaken; [exact Hf|places]|apply frame_insert; places]).
  assert (wf m2) as Hw2 by (by apply wf_insert). pose proof (frame_length _ _ _ Hf2) as Hl2.
  assert (V m2 (p + e) (e + 1) = V m (p + e) e + V m up e * v) as HV2 by (unfold m2; rewrite Nat.add_1_r, V_above by lia; lia).
  destruct (limb_at m (up + e)) as [u Eu]; [lia|]. assert (word u) as Wu by exact (wf_lookup _ _ _ Hm Eu).
  assert (m2 !! (up + e)%nat = Some u) as Eu2 by (rewrite (frame_lookup _ _ _ _ Hf2); [done|places]). rewrite (load_bind _ _ _ _ Eu2).
  destruct (addmul_1_spec (e + 1) (p + e) vp u m2) as (c' & m3 & E & Hf3 & Hw3 & Wc' & HV3); [done|done|places..|]. rewrite (step_bind _ _ _ _ _ E). clear E.
  pose proof (frame_length _ _ _ Hf3) as Hl3. unfold store. rewrite (proj2 (Nat.ltb_lt _ _)) by lia. exists (<[(p + e + (e + 1))%nat := c']> m3).
  assert (frame (range (p + e) (e + 2)) m (<[(p + e + (e + 1))%nat := c']> m3)) as Hf4.
  { eapply frame_trans; [eapply frame_trans; (eapply frame_weaken; [eassumption|places])|apply frame_insert; places]. }
  split; [done|]. split; [eapply frame_weaken; [exact Hf4|places]|]. split; [by apply wf_insert|].
  replace (2 * e + 2)%nat with (e + S (e + 1))%nat by lia. rewrite V_split, V_above, HV3, HV2 by lia.
  rewrite (V_frame _ _ _ vp _ Hf2), (V_frame _ _ _ p e Hf4) by places. rewrite V_halves in HP. rewrite !Nat.add_1_r, !V_top, Eu, Ev. cbn [default from_option id].
  transitivity (V m p e + B ^ Z.of_nat e * V m (p + e) e + B ^ Z.of_nat e * (V m up e * v) + B ^ Z.of_nat e * ((V m vp e + B ^ Z.of_nat e * v) * u)); [ring|]. rewrite HP. ring.
Qed.

Lemma recurse_multiplies rec p u v s t :
  (0 < s)%nat → ((KARATSUBA_THRESHOLD <= s)%nat → multiplies (rec p u v s t) p u v s t) → multiplies (MPN_MUL_N_RECURSE rec p u v s t) p u v s t.
Proof.
  intros Hs Hrec m Hm Hp Hu Hv Ht O1 O2 O3 O4 O5. unfold MPN_MUL_N_RECURSE. destruct (Nat.ltb_spec s KARATSUBA_THRESHOLD) as [Hlt|Hge]; [|by apply Hrec].
  destruct (basecase_spec p u v s m) as (m' & -> & Hf & Hw & HV); try done. exists m'. split_and!; try done. eapply frame_weaken; [exact Hf|auto].
Qed.

Lemma sqr_recurse_multiplies rec p u s t :
  (0 < s)%nat → ((KARATSUBA_THRESHOLD <= s)%nat → multiplies (rec p u s t) p u u s t) → multiplies (MPN_SQR_N_RECURSE rec p u s t) p u u s t.
Proof.
  intros Hs Hrec m Hm Hp Hu Hv Ht O1 O2 O3 O4 O5. unfold MPN_SQR_N_RECURSE. destruct (Nat.ltb_spec s KARATSUBA_THRESHOLD) as [Hlt|Hge]; [|by apply Hrec].
  destruct (basecase_spec p u u s m) as (m' & E & Hf & Hw & HV); try done. exists m'. change (impn_sqr_n_basecase p u s) with (impn_mul_n_basecase p u u s).
  split_and!; try done. eapply frame_weaken; [exact Hf|auto].
Qed.

(** The identity of Karatsuba. *)
Lemma karatsuba_identity β u0 u1 v0 v1 :
  u0 * v0 + β * (u1 * v1 + (u1 - u0) * (v0 - v1) + u0 * v0) + β * β * (u1 * v1) = (u0 + β * u1) * (v0 + β * v1).
Proof. ring. Qed.

Lemma mul_even_spec (R : nat → nat → nat → nat → nat → M unit) h p up vp t :
  (0 < h)%nat → (∀ p u v t, multiplies (R p u v h t) p u v h t) →
  multiplies (R (p + 2 * h)%nat (up + h)%nat (vp + h)%nat h t ;;
    negflg ← half_diff p up h;
    neg ← half_diff (p + h) vp h;
    R t p (p + h)%nat h (t + 2 * h)%nat ;;
    add_products (R t up vp h (t + 2 * h)%nat) p t (2 * h) h (xorb negflg (negb neg))) p up vp (2 * h) t.
Proof.
  intros Hh HR m Hm Hp Hu Hv Ht O1 O2 O3 O4 O5.
  destruct (HR (p + 2 * h)%nat (up + h)%nat (vp + h)%nat t m) as (m1 & E & Hf1 & Hw1 & HV1); [done|places..|]. rewrite (step_bind _ _ _ _ _ E). clear E. pose proof (frame_length _ _ _ Hf1) as L1.
  destruct (half_diff_spec p up h m1) as (nu & m2 & E & Hf2 & Hw2 & HV2); [done|places..|]. rewrite (step_bind _ _ _ _ _ E). clear E. pose proof (frame_length _ _ _ Hf2) as L2.
  destruct (half_diff_spec (p + h) vp h m2) as (nv & m3 & E & Hf3 & Hw3 & HV3); [done|places..|]. rewrite (step_bind _ _ _ _ _ E). clear E. pose proof (frame_length _ _ _ Hf3) as L3.
  destruct (HR t p (p + h)%nat (t + 2 * h)%nat m3) as (m4 & E & Hf4 & Hw4 & HV4); [done|places..|]. rewrite (step_bind _ _ _ _ _ E). clear E. pose proof (frame_length _ _ _ Hf4) as L4.
  rewrite <- (V_frame _ _ _ p h Hf3) in HV2 by places.
  rewrite (V_frame _ _ _ (up + h) h Hf1), (V_frame _ _ _ up h Hf1) in HV2 by places.
  rewrite (V_frame _ _ _ (vp + h) h Hf2), (V_frame _ _ _ vp h Hf2), (V_frame _ _ _ (vp + h) h Hf1), (V_frame _ _ _ vp h Hf1) in HV3 by places.
  rewrite <- (V_frame _ _ _ (p + 2 * h) (2 * h) Hf2), <- (V_frame _ _ _ (p + 2 * h) (2 * h) Hf3), <- (V_frame _ _ _ (p + 2 * h) (2 * h) Hf4) in HV1 by places.
  assert (∀ q, apart p (4 * h) q h → apart t (4 * h) q h → V m4 q h = V m q h) as K.
  { intros q Q1 Q2. rewrite (V_frame _ _ _ q h Hf4), (V_frame _ _ _ q h Hf3), (V_frame _ _ _ q h Hf2), (V_frame _ _ _ q h Hf1) by places. done. }
  rewrite (V_halves m up), (V_halves m vp), <- karatsuba_identity, <- HV1, <- (K up), <- (K vp) by places.
  assert ((V m (up + h) h - V m4 up h) * (V m4 vp h - V m (vp + h) h) = if xorb nu (negb nv) then - V m4 t (2 * h) else V m4 t (2 * h)) as EM.
  { rewrite (K up), (K vp), HV4 by places. destruct nu, nv; cbn [xorb negb]; nia. }
  rewrite EM. replace (2 * (2 * h))%nat with (4 * h)%nat by lia.
  pose proof (V_bound m up h Hm) as B1. pose proof (V_bound m (up + h) h Hm) as B2. pose proof (V_bound m vp h Hm) as B3. pose proof (V_bound m (vp + h) h Hm) as B4.
  destruct (add_products_spec (R t up vp h (t + 2 * h)%nat) p up vp t h (xorb nu (negb nv)) m4) as (m5 & -> & Hf5 & Hw5 & HV5); [done|done|places..| | |].
  { rewrite <- EM, HV1, (K up), (K vp) by places. nia. }
  { rewrite <- EM, HV1, (K up), (K vp), karatsuba_identity by places. set (β := B ^ Z.of_nat h) in *. 
    rewrite <- Z.mul_assoc. apply Z.mul_lt_mono_nonneg; nia. }
  exists m5. split; [done|]. split; [|by split].
  eapply frame_trans; [|eapply frame_trans; [|eapply frame_trans; [|eapply frame_trans]]]; (eapply frame_weaken; [eassumption|places]).
Qed.

Lemma sqr_even_spec (R : nat → nat → nat → nat → M unit) h p up t :
  (0 < h)%nat → (∀ p u t, multiplies (R p u h t) p u u h t) →
  multiplies (R (p + 2 * h)%nat (up + h)%nat h t ;;
    half_diff p up h ;;
    R t p h (t + 2 * h)%nat ;;
    add_products (R t up h (t + 2 * h)%nat) p t (2 * h) h true) p up up (2 * h) t.
Proof.
  intros Hh HR m Hm Hp Hu _ Ht O1 _ O3 O4 _.
  destruct (HR (p + 2 * h)%nat (up + h)%nat t m) as (m1 & E & Hf1 & Hw1 & HV1); [done|places..|]. rewrite (step_bind _ _ _ _ _ E). clear E. pose proof (frame_length _ _ _ Hf1) as L1.
  destruct (half_diff_spec p up h m1) as (nu & m2 & E & Hf2 & Hw2 & HV2); [done|places..|]. rewrite (step_bind _ _ _ _ _ E). clear E. pose proof (frame_length _ _ _ Hf2) as L2.
  destruct (HR t p (t + 2 * h)%nat m2) as (m4 & E & Hf4 & Hw4 & HV4); [done|places..|]. rewrite (step_bind _ _ _ _ _ E). clear E. pose proof (frame_length _ _ _ Hf4) as L4.
  rewrite (V_frame _ _ _ (up + h) h Hf1), (V_frame _ _ _ up h Hf1) in HV2 by places.
  rewrite <- (V_frame _ _ _ (p + 2 * h) (2 * h) Hf2), <- (V_frame _ _ _ (p + 2 * h) (2 * h) Hf4) in HV1 by places.
  assert (V m4 up h = V m up h) as K.
  { rewrite (V_frame _ _ _ up h Hf4), (V_frame _ _ _ up h Hf2), (V_frame _ _ _ up h Hf1) by places. done. }
  rewrite (V_halves m up), <- karatsuba_identity, <- HV1, <- K.
  assert ((V m (up + h) h - V m4 up h) * (V m4 up h - V m (up + h) h) = - V m4 t (2 * h)) as EM by (rewrite K, HV4; destruct nu; nia).
  rewrite EM. replace (2 * (2 * h))%nat with (4 * h)%nat by lia.
  pose proof (V_bound m up h Hm) as B1. pose proof (V_bound m (up + h) h Hm) as B2.
  destruct (add_products_spec (R t up h (t + 2 * h)%nat) p up up t h true m4) as (m5 & -> & Hf5 & Hw5 & HV5); [done|done|places..| | |].
  { rewrite <- EM, HV1, K. nia. }
  { rewrite <- EM, HV1, K, karatsuba_identity. set (β := B ^ Z.of_nat h) in *. rewrite <- Z.mul_assoc. apply Z.mul_lt_mono_nonneg; nia. }
  exists m5. split; [done|]. split; [|by split].
  eapply frame_trans; [|eapply frame_trans; [|eapply frame_trans]]; (eapply frame_weaken; [eassumption|places]).
Qed.

Lemma odd_spec f e p up vp t :
  (0 < e)%nat → multiplies f p up vp e t → multiplies (f ;; mul_last p up vp e (e + 1)) p up vp (e + 1) t.
Proof.
  intros He Hf m Hm Hp Hu Hv Ht O1 O2 O3 O4 O5.
  destruct (Hf m) as (m1 & E & Hf1 & Hw1 & HV1); [done|places..|]. rewrite (step_bind _ _ _ _ _ E). clear E. pose proof (frame_length _ _ _ Hf1) as L1.
  rewrite <- (V_frame _ _ _ up e Hf1), <- (V_frame _ _ _ vp e Hf1) in HV1 by places.
  destruct (mul_last_spec p up vp e m1) as (m2 & -> & Hf2 & Hw2 & HV2); [done|places..|done|].
  exists m2. split; [done|]. split; [eapply frame_trans; (eapply frame_weaken; [eassumption|places])|]. split; [done|].
  rewrite (V_frame _ _ _ up _ Hf1), (V_frame _ _ _ vp _ Hf1) in HV2 by places. rewrite <- HV2. f_equal. lia.
Qed.

Lemma even_or_odd (n : nat) : (1 < n)%nat → if Nat.odd n then ∃ e, (0 < e)%nat ∧ n = (e + 1)%nat else ∃ h, (0 < h)%nat ∧ n = (2 * h)%nat.
Proof.
  intros Hn. destruct (Nat.odd n) eqn:E.
  - apply Nat.odd_spec in E as [k ->]. exists (2 * k)%nat. lia.
  - rewrite <- Nat.negb_even in E. apply negb_false_iff, Nat.even_spec in E as [k ->]. exists k. lia.
Qed.

Lemma impn_mul_n_spec fuel size p u v t : (1 < size)%nat → (size <= fuel)%nat → multiplies (impn_mul_n fuel p u v size t) p u v size t.
Proof.
  revert size p u v t. induction fuel as [|fuel IH]; intros size p u v t H1 Hf; [lia|]. cbn [impn_mul_n].
  assert (∀ s p u v t, (0 < s)%nat → (s < size)%nat → multiplies (MPN_MUL_N_RECURSE (impn_mul_n fuel) p u v s t) p u v s t) as HR.
  { intros s p' u' v' t' H0 Hs. apply recurse_multiplies; [done|]. unfold KARATSUBA_THRESHOLD. intros. apply IH; lia. }
  pose proof (even_or_odd size H1) as H. destruct (Nat.odd size).
  - destruct H as (e & He & ->). rewrite Nat.add_sub. apply odd_spec; [done|]. apply HR; lia.
  - destruct H as (h & Hh & ->). rewrite Nat.div2_double. apply (mul_even_spec (MPN_MUL_N_RECURSE (impn_mul_n fuel))); [done|]. intros. apply HR; lia.
Qed.

Lemma impn_sqr_n_spec fuel size p u t : (1 < size)%nat → (size <= fuel)%nat → multiplies (impn_sqr_n fuel p u size t) p u u size t.
Proof.
  revert size p u t. induction fuel as [|fuel IH]; intros size p u t H1 Hf; [lia|]. cbn [impn_sqr_n].
  assert (∀ s p u t, (0 < s)%nat → (s < size)%nat → multiplies (MPN_SQR_N_RECURSE (impn_sqr_n fuel) p u s t) p u u s t) as HR.
  { intros s p' u' t' H0 Hs. apply sqr_recurse_multiplies; [done|]. unfold KARATSUBA_THRESHOLD. intros. apply IH; lia. }
  pose proof (even_or_odd size H1) as H. destruct (Nat.odd size).
  - destruct H as (e & He & ->). rewrite Nat.add_sub. apply odd_spec; [done|]. apply HR; lia.
  - destruct H as (h & Hh & ->). rewrite Nat.div2_double. apply (sqr_even_spec (MPN_SQR_N_RECURSE (impn_sqr_n fuel))); [done|]. intros. apply HR; lia.
Qed.

(** ** Correctness of the entry points *)

Section AllocSpec.
Context (junk : nat → Z) (Hjunk : ∀ i, word (junk i)).

Lemma V_app m l p n : (p + n <= length m)%nat → V (m ++ l) p n = V m p n.
Proof. revert p. induction n as [|n IH]; intros p H; [done|]. cbn [V]. rewrite lookup_app_l, IH by lia. done. Qed.

Lemma V_take m k p n : (p + n <= k)%nat → V (take k m) p n = V m p n.
Proof. revert p. induction n as [|n IH]; intros p H; [done|]. cbn [V]. rewrite lookup_take_lt, IH by lia. done. Qed.

(** Storage that a function allocates for itself. *)
Lemma alloca_spec {A} (n : nat) (f : nat → M A) (R : nat → Prop) (Q : A → list Z → Prop) m :
  wf m →
  (∀ m0, wf m0 → length m0 = (length m + n)%nat → (∀ i, (i < length m)%nat → m0 !! i = m !! i) →
     ∃ a m', f (length m) m0 = Val (a, m') ∧ frame (λ i, R i ∨ range (length m) n i) m0 m' ∧ wf m' ∧ Q a (take (length m) m')) →
  ∃ a m', with_tmp junk n f m = Val (a, m') ∧ frame R m m' ∧ wf m' ∧ Q a m'.
Proof.
  intros Hm H. unfold with_tmp. destruct (H (m ++ (junk <$> seq 0 n))) as (a & m' & -> & [Hl Hf] & Hw & HQ).
  { apply Forall_app_2; [done|]. apply Forall_fmap, Forall_forall. intros i _. apply Hjunk. }
  { by rewrite length_app, length_fmap, length_seq. }
  { intros i Hi. by apply lookup_app_l. }
  rewrite length_app, length_fmap, length_seq in Hl. exists a, (take (length m) m'). split; [done|]. split; [|split; [by apply Forall_take|done]].
  split; [rewrite length_take; lia|]. intros i Hi. destruct (decide (i < length m)%nat) as [Hlt|Hge].
  - rewrite lookup_take_lt, Hf by (first [lia|unfold range; intros [?|?]; [done|lia]]). by apply lookup_app_l.
  - rewrite !lookup_ge_None_2; [done|lia|rewrite length_take; lia].
Qed.

Lemma V_same m m' p n : (∀ i, range p n i → m' !! i = m !! i) → V m' p n = V m p n.
Proof.
  revert p. induction n as [|n IH]; intros p H; [done|]. cbn [V]. rewrite H, IH by (unfold range; intros; try apply H; unfold range; lia). done.
Qed.

(** Operands of the same size, multiplied by the traditional algorithm or by
    that of Karatsuba, and squared when they are the same: the product is
    exact and nothing but its place changes. *)
Theorem mpn_mul_n_correct prodp up vp size m :
  wf m → (0 < size)%nat → (prodp + 2 * size <= length m)%nat → (up + size <= length m)%nat → (vp + size <= length m)%nat →
  apart prodp (2 * size) up size → apart prodp (2 * size) vp size →
  ∃ m', mpn_mul_n junk prodp up vp size m = Val (tt, m') ∧ frame (range prodp (2 * size)) m m' ∧ wf m' ∧
    V m' prodp (2 * size) = V m up size * V m vp size.
Proof.
  intros Hm Hs Hp Hu Hv O1 O2. unfold mpn_mul_n. destruct (Nat.ltb_spec size KARATSUBA_THRESHOLD) as [Hlt|Hge].
  { destruct (Nat.eqb_spec up vp) as [->|]; by apply basecase_spec. }
  unfold KARATSUBA_THRESHOLD in Hge.
  assert (∀ f, (∀ t, multiplies (f t) prodp up vp size t) →
    ∃ m', with_tmp junk (2 * size) f m = Val (tt, m') ∧ frame (range prodp (2 * size)) m m' ∧ wf m' ∧ V m' prodp (2 * size) = V m up size * V m vp size) as K.
  { intros f Hf. destruct (alloca_spec (2 * size) f (range prodp (2 * size)) (λ _ m', V m' prodp (2 * size) = V m up size * V m vp size) m Hm) as ([] & m' & H); [|by exists m'].
    intros m0 Hm0 Hl H0. destruct (Hf (length m) m0) as (m' & E & Hfr & Hw & HV); [done|places..|]. exists tt, m'. split_and!; try done.
    rewrite V_take, HV by lia. f_equal; apply V_same; intros i Hi; apply H0; unfold range in Hi; lia. }
  destruct (Nat.eqb_spec up vp) as [->|]; apply K; intros; [apply impn_sqr_n_spec|apply impn_mul_n_spec]; lia.
Qed.

(** A product at [tp] added to what is there of the product so far. *)
Lemma piece_spec p t vs n m :
  wf m → (0 < vs)%nat → (0 < n)%nat → (p + vs + n <= length m)%nat → (t + vs + n <= length m)%nat → apart p (vs + n) t (vs + n) →
  V m p vs + V m t (vs + n) < B ^ Z.of_nat (vs + n) →
  ∃ cy m1 c m', mpn_add_n p p t vs m = Val (cy, m1) ∧ mpn_add_1 (p + vs) (t + vs) n cy m1 = Val (c, m') ∧
    frame (range p (vs + n)) m m' ∧ wf m' ∧ V m' p (vs + n) = V m p vs + V m t (vs + n).
Proof.
  intros Hm Hvs Hn Hp Ht O Hlt. destruct (add_n_spec vs p p t m) as (cy & m1 & E & Hf1 & Hw1 & Hc & HV1); [done|places..|]. pose proof (frame_length _ _ _ Hf1) as L1.
  destruct (add_1_spec n (p + vs) (t + vs) cy m1) as (c & m' & E' & Hf2 & Hw2 & Hc2 & HV2); [done|unfold word, B; lia|places..|].
  exists cy, m1, c, m'. split; [done|]. split; [done|]. split; [eapply frame_trans; (eapply frame_weaken; [eassumption|places])|]. split; [done|].
  rewrite (V_frame _ _ _ _ _ Hf1) in HV2 by places. pose proof (V_bound m' p (vs + n) Hw2) as BV.
  rewrite (V_split m t) in *. rewrite (V_split m' p) in *. rewrite (V_frame _ _ _ p vs Hf2) in * by places.
  rewrite Nat2Z.inj_add, Z.pow_add_r in * by lia. assert (0 < B ^ Z.of_nat vs) by (unfold B; lia).
  assert (c = 0 ∨ c = 1) as [->| ->] by lia; nia.
Qed.

(** The sum fits: what is there has [vs] limbs. *)
Lemma piece_fits x y β γ : 0 <= x < β → 0 <= y < γ → ∀ a, 0 <= a < β → a + x * y < β * γ.
Proof. intros. nia. Qed.

Lemma mul_pieces_spec fuel p u us v vs t tp m :
  wf m → (KARATSUBA_THRESHOLD <= vs)%nat → (vs <= us)%nat → (us <= fuel)%nat →
  (p + vs + us <= t)%nat → (u + us <= t)%nat → (v + vs <= t)%nat → (t + 2 * vs <= tp)%nat → (tp + 2 * vs <= length m)%nat →
  apart p (vs + us) u us → apart p (vs + us) v vs →
  ∃ k m', mul_pieces fuel p u us v vs t tp m = Val (p + k, u + k, us - k, m')%nat ∧ (k <= us)%nat ∧ (us - k < vs)%nat ∧
    frame (λ i, range p (vs + k) i ∨ range t (2 * vs) i ∨ range tp (2 * vs) i) m m' ∧ wf m' ∧
    V m' p (vs + k) = V m p vs + V m u k * V m v vs.
Proof.
  unfold KARATSUBA_THRESHOLD. revert p u us m. induction fuel as [|fuel IH]; intros p u us m Hm Ht1 Hle Hf Hp Hu Hv Ht Htp O1 O2; [lia|]. cbn [mul_pieces].
  destruct (recurse_multiplies (impn_mul_n vs) tp u v vs t ltac:(lia) ltac:(intros; apply impn_mul_n_spec; lia) m) as (m1 & E & Hf1 & Hw1 & HV1); [done|places..|].
  rewrite (step_bind _ _ _ _ _ E). clear E. pose proof (frame_length _ _ _ Hf1) as L1. replace (2 * vs)%nat with (vs + vs)%nat in HV1 by lia.
  destruct (piece_spec p tp vs vs m1) as (cy & m2 & c & m3 & E1 & E2 & Hf3 & Hw3 & HV3); [done|places..| |].
  { rewrite HV1, Nat2Z.inj_add, Z.pow_add_r by lia. apply piece_fits; by apply V_bound. }
  rewrite (step_bind _ _ _ _ _ E1), (step_bind _ _ _ _ _ E2). clear E1 E2. pose proof (frame_length _ _ _ Hf3) as L3.
  rewrite HV1, (V_frame _ _ _ p vs Hf1) in HV3 by places.
  assert (frame (λ i, range p (vs + vs) i ∨ range t (2 * vs) i ∨ range tp (2 * vs) i) m m3) as Hf' by (eapply frame_trans; (eapply frame_weaken; [eassumption|places])).
  destruct (Nat.leb_spec vs (us - vs)) as [Hge|Hlt].
  - destruct (IH (p + vs)%nat (u + vs)%nat (us - vs)%nat m3) as (k & m' & -> & Hk & Hk' & Hf4 & Hw4 & HV4); [done|places..|].
    exists (vs + k)%nat, m'. split; [by rewrite !Nat.add_assoc, Nat.sub_add_distr|]. split; [lia|]. split; [lia|].
    split; [eapply frame_trans; (eapply frame_weaken; [eassumption|places])|]. split; [done|].
    rewrite (V_split m' p vs (vs + k)), HV4, (V_frame _ _ _ p vs Hf4), (V_frame _ _ _ (u + vs) k Hf'), (V_frame _ _ _ v vs Hf'), (V_split m u vs k) by places.
    rewrite (V_split m3 p vs vs) in HV3. lia.
  - exists vs, m3. split; [done|]. split; [lia|]. split; [lia|]. split; [done|]. split; done.
Qed.

(** The result of [mpn_mul]. *)
Definition product (prodp up usize vp vsize : nat) (m : list Z) (r : Z) (m' : list Z) : Prop :=
  frame (range prodp (usize + vsize)) m m' ∧ wf m' ∧ m' !! (prodp + usize + vsize - 1)%nat = Some r ∧
  V m' prodp (usize + vsize) = V m up usize * V m vp vsize.

Lemma mul_left_spec (mul : nat → nat → nat → nat → nat → M Z) p u us v vs t m :
  ((0 < us)%nat → ∃ r m', mul t v vs u us m = Val (r, m') ∧ product t v vs u us m r m') →
  wf m → (us < vs)%nat → (p + vs + us <= t)%nat → (u + us <= t)%nat → (v + vs <= t)%nat → (t + 2 * vs <= length m)%nat →
  ∃ m', mul_left mul p u us v vs t m = Val (tt, m') ∧ frame (λ i, range p (vs + us) i ∨ range t (2 * vs) i) m m' ∧ wf m' ∧
    V m' p (vs + us) = V m p vs + V m u us * V m v vs.
Proof.
  intros Hmul Hm Hlt Hp Hu Hv Ht. unfold mul_left. destruct (Nat.eqb_spec us 0) as [->|H0]; cbn [negb].
  { exists m. split_and!; try done. rewrite Nat.add_0_r. cbn [V]. lia. }
  destruct Hmul as (r & m1 & E & Hf1 & Hw1 & _ & HV1); [lia|]. rewrite (step_bind _ _ _ _ _ E). clear E. pose proof (frame_length _ _ _ Hf1) as L1.
  destruct (piece_spec p t vs us m1) as (cy & m2 & c & m3 & E1 & E2 & Hf3 & Hw3 & HV3); [done|places..| |].
  { rewrite HV1, Nat2Z.inj_add, Z.pow_add_r by lia. apply piece_fits; by apply V_bound. }
  rewrite (step_bind _ _ _ _ _ E1), (step_bind _ _ _ _ _ E2). exists m3. split; [done|].
  split; [eapply frame_trans; (eapply frame_weaken; [eassumption|places])|]. split; [done|]. rewrite HV3, HV1, (V_frame _ _ _ p vs Hf1) by places. lia.
Qed.

Lemma load_last m p : (p < length m)%nat → ∃ r, load p m = Val (r, m) ∧ m !! p = Some r.
Proof. intros H. destruct (limb_at m p H) as [r E]. exists r. unfold load. by rewrite E. Qed.

(** The pieces and what is left, above a first product of [vs] limbs. *)
Lemma mul_more_spec (mul : nat → nat → nat → nat → nat → M Z) p u us v vs t m :
  (∀ u us m, wf m → (0 < us)%nat → (us < vs)%nat → (u + us <= t)%nat → (v + vs <= t)%nat → (t + us + vs <= length m)%nat →
     ∃ r m', mul t v vs u us m = Val (r, m') ∧ product t v vs u us m r m') →
  wf m → (KARATSUBA_THRESHOLD <= vs)%nat → (p + vs + us <= t)%nat → (u + us <= t)%nat → (v + vs <= t)%nat → length m = (t + 2 * vs)%nat →
  apart p (vs + us) u us → apart p (vs + us) v vs →
  ∃ m', (if (vs <=? us)%nat then
           with_tmp junk (2 * vs) (λ tp, '(prodp, up, usize) ← mul_pieces us p u us v vs t tp; mul_left mul prodp up usize v vs t)
         else mul_left mul p u us v vs t) m = Val (tt, m') ∧
    frame (λ i, range p (vs + us) i ∨ range t (2 * vs) i) m m' ∧ wf m' ∧ V m' p (vs + us) = V m p vs + V m u us * V m v vs.
Proof.
  intros Hmul Hm Hk Hp Hu Hv Hl O1 O2. destruct (Nat.leb_spec vs us) as [Hge|Hlt].
  2:{ apply mul_left_spec; try done; try lia. intros. apply Hmul; done || lia. }
  destruct (alloca_spec (2 * vs) (λ tp, '(prodp, up, usize) ← mul_pieces us p u us v vs t tp; mul_left mul prodp up usize v vs t)
    (λ i, range p (vs + us) i ∨ range t (2 * vs) i) (λ _ m', V m' p (vs + us) = V m p vs + V m u us * V m v vs) m Hm) as ([] & m' & H); [|by exists m'].
  intros m0 Hm0 Hl0 H0. destruct (mul_pieces_spec us p u us v vs t (length m) m0) as (k & m1 & E & Hk1 & Hk2 & Hf1 & Hw1 & HV1); [done|done|places..|].
  rewrite (step_bind _ _ _ _ _ E). clear E. pose proof (frame_length _ _ _ Hf1) as L1.
  destruct (mul_left_spec mul (p + k) (u + k) (us - k) v vs t m1) as (m2 & E & Hf2 & Hw2 & HV2); [intros; apply Hmul; done || lia|done|places..|].
  exists tt, m2. split; [done|]. split; [eapply frame_trans; (eapply frame_weaken; [eassumption|places])|]. split; [done|].
  rewrite V_take by lia. replace (vs + us)%nat with (k + (vs + (us - k)))%nat by lia. rewrite V_split, HV2, (V_frame _ _ _ p k Hf2) by places.
  rewrite (V_frame _ _ _ (u + k) (us - k) Hf1), (V_frame _ _ _ v vs Hf1) by places. replace (vs + k)%nat with (k + vs)%nat in HV1 by lia. rewrite V_split in HV1.
  assert (∀ q n, (q + n <= length m)%nat → V m0 q n = V m q n) as K by (intros q n Hq; apply V_same; intros i Hi; apply H0; unfold range in Hi; lia).
  rewrite !K in * by lia. rewrite (split_at m u us k Hk1). lia.
Qed.

(** C13. mpn_mul, for operands of at least one limb of which the first is not
    the shorter one, apart from the product in memory, of any contents and
    whatever the temporary storage holds, ends and leaves exactly the product
    of the two numbers at prodp, returns its most significant limb, and changes
    nothing outside the product. This covers the traditional algorithm,
    Karatsuba's recursion with its carries that go below zero, odd sizes, the
    pieces of a longer operand, and the call of itself for what is left. *)
Theorem mpn_mul_correct fuel prodp up usize vp vsize m :
  (vsize < fuel)%nat → wf m → (0 < vsize)%nat → (vsize <= usize)%nat →
  (prodp + usize + vsize <= length m)%nat → (up + usize <= length m)%nat → (vp + vsize <= length m)%nat →
  apart prodp (usize + vsize) up usize → apart prodp (usize + vsize) vp vsize →
  ∃ r m', mpn_mul junk fuel prodp up usize vp vsize m = Val (r, m') ∧ product prodp up usize vp vsize m r m'.
Proof.
  revert prodp up usize vp vsize m. induction fuel as [|fuel IH]; intros p u us v vs m Hf Hm H0 Hle Hp Hu Hv O1 O2; [lia|]. cbn [mpn_mul].
  destruct (Nat.ltb_spec vs KARATSUBA_THRESHOLD) as [Hlt|Hge].
  { rewrite (proj2 (Nat.eqb_neq _ _)) by lia. destruct (mul_base_spec p u us v vs m) as (cy & m' & E & Hfr & Hw & Hc & HV); [done|places..|]. by exists cy, m'. }
  unfold KARATSUBA_THRESHOLD in Hge.
  match goal with |- context [with_tmp junk _ ?f m] =>
    destruct (alloca_spec (2 * vs) f (range p (us + vs)) (λ r m', m' !! (p + us + vs - 1)%nat = Some r ∧ V m' p (us + vs) = V m u us * V m v vs) m Hm)
      as (r & m' & -> & Hfr & Hw & Hr & HV) end; [|by exists r, m'].
  intros m0 Hm0 Hl0 Hs0. destruct (recurse_multiplies (impn_mul_n vs) p u v vs (length m) ltac:(lia) ltac:(intros; apply impn_mul_n_spec; lia) m0) as (m1 & E & Hf1 & Hw1 & HV1); [done|places..|].
  rewrite (step_bind _ _ _ _ _ E). clear E. pose proof (frame_length _ _ _ Hf1) as L1.
  destruct (mul_more_spec (mpn_mul junk fuel) (p + vs) (u + vs) (us - vs) v vs (length m) m1) as (m2 & E & Hf2 & Hw2 & HV2); [|done|unfold KARATSUBA_THRESHOLD; places..|].
  { intros u' us' m' Hm' H1 H2 H3 H4 H5. apply IH; done || places. }
  rewrite (step_bind _ _ _ _ _ E). clear E. pose proof (frame_length _ _ _ Hf2) as L2. destruct (load_last m2 (p + us + vs - 1)) as (r & E & Er); [lia|]. rewrite E.
  exists r, m2. split; [done|]. split; [eapply frame_trans; (eapply frame_weaken; [eassumption|places])|]. split; [done|]. split; [rewrite lookup_take_lt by lia; done|].
  rewrite V_take by lia. replace (us + vs)%nat with (vs + (vs + (us - vs)))%nat by lia. rewrite V_split, HV2, (V_frame _ _ _ p vs Hf2) by places.
  rewrite (V_frame _ _ _ (u + vs) _ Hf1), (V_frame _ _ _ v vs Hf1) by places. replace (2 * vs)%nat with (vs + vs)%nat in HV1 by lia. rewrite V_split in HV1.
  assert (∀ q n, (q + n <= length m)%nat → V m0 q n = V m q n) as K by (intros q n Hq; apply V_same; intros i Hi; apply Hs0; unfold range in Hi; lia).
  rewrite !K in * by lia. rewrite (split_at m u us vs Hle). lia.
Qed.
End AllocSpec.

Lemma mpn_mul_correct_witness :
  wf (replicate 206 7) ∧
  ∃ r m', mpn_mul (λ _, 5) 34 103 0 70 70 33 (replicate 206 7) = Val (r, m') ∧ product 103 0 70 70 33 (replicate 206 7) r m'.
Proof.
  assert (wf (replicate 206 7)) as Hm by (apply Forall_replicate; done). split; [exact Hm|].
  apply (mpn_mul_correct (λ _, 5) ltac:(done) 34 103 0 70 70 33 (replicate 206 7)); try exact Hm; rewrite ?length_replicate; unfold apart; lia.
Defined.
End MpnMul.
