(* ===== verification/MpnDiv.v ===== *)
(** * Multi-precision arithmetic: division

    [stdlib/divrem.c]: division by a normalised divisor of one limb, of two
    limbs, and of more, by estimates of one limb of the quotient from the
    first three limbs of the dividend and two of the divisor.  A pointer that
    moves down through the dividend is an index of the memory. *)

From S2P Require Import Prelude LongLong Mpn MpnSpec MpnMul.
Local Open Scope Z_scope.

Module MpnDiv.
Import LongLong Mpn MpnSpec MpnMul.

(** ** A divisor of one limb *)

Fixpoint divrem_1_num (k qp np : nat) (d n1 : Z) : M Z :=
  match k with
  | O => mret n1
  | S i =>
      n0 ← load (np + i);
      let '(q, n1) := udiv_qrnnd n1 n0 d in
      store (qp + i) q ;;
      divrem_1_num i qp np d n1
  end.

Fixpoint divrem_1_extra (k qp : nat) (d n1 : Z) : M Z :=
  match k with
  | O => mret n1
  | S i =>
      let '(q, n1) := udiv_qrnnd n1 0 d in
      store (qp + i) q ;;
      divrem_1_extra i qp d n1
  end.

Definition divrem_1 (qp qextra_limbs np nsize dp : nat) : M Z :=
  d ← load dp;
  n1 ← load (np + (nsize - 1));
  let '(n1, most_significant_q_limb) := if d <=? n1 then (wrap (n1 - d), 1) else (n1, 0) in
  n1 ← divrem_1_num (nsize - 1) (qp + qextra_limbs) np d n1;
  n1 ← divrem_1_extra qextra_limbs qp d n1;
  store np n1 ;;
  mret most_significant_q_limb.

(** ** A divisor of two limbs *)

(** From the label [q_test]: the quotient, the remainder of the estimate and
    the product of [d0] and the quotient. *)
Fixpoint q_test (fuel : nat) (d1 d0 n2 q r n1 n0 : Z) : M (Z * Z * Z * Z) :=
  match fuel with
  | O => λ _, NoFuel
  | S fuel =>
      if (r <? n1) || ((n1 =? r) && (n2 <? n0)) then
        let q := wrap (q - 1) in
        let '(n1, n0) := sub_ddmmss n1 n0 0 d0 in
        let r := wrap (r + d1) in
        if d1 <=? r then q_test fuel d1 d0 n2 q r n1 n0 else mret (q, r, n1, n0)
      else mret (q, r, n1, n0)
  end.

Definition divrem_2_fix (qp i np : nat) (d1 d0 q r n1 n0 : Z) : M (Z * Z) :=
  n2 ← load np;
  '(q, r, n1, n0) ← q_test 2 d1 d0 n2 q r n1 n0;
  store (qp + i) q ;;
  mret (sub_ddmmss r n2 n1 n0).

(** One limb of the quotient, from the remainder [n1], [n0] and the limb at
    [np]. *)
Definition divrem_2_step (qp i np : nat) (d1 d0 n1 n0 : Z) : M (Z * Z) :=
  if n1 =? d1 then
    let q := B - 1 in
    let r := wrap (n0 + d1) in
    if r <? d1 then
      n2 ← load np;
      store (qp + i) q ;;
      mret (add_ssaaaa (wrap (r - d0)) n2 0 d0)
    else divrem_2_fix qp i np d1 d0 q r (wrap (d0 - b2z (negb (d0 =? 0)))) (wrap (- d0))
  else
    let '(q, r) := udiv_qrnnd n1 n0 d1 in
    let '(n1, n0) := umul_ppmm d0 q in
    divrem_2_fix qp i np d1 d0 q r n1 n0.

Fixpoint divrem_2_loop (k qp qextra_limbs np : nat) (d1 d0 n1 n0 : Z) : M (nat * Z * Z) :=
  match k with
  | O => mret (np, n1, n0)
  | S i =>
      np ← (if (qextra_limbs <=? i)%nat then mret (np - 1)%nat else store np 0 ;; mret np);
      '(n1, n0) ← divrem_2_step qp i np d1 d0 n1 n0;
      divrem_2_loop i qp qextra_limbs np d1 d0 n1 n0
  end.

Definition divrem_2 (qp qextra_limbs np nsize dp : nat) : M Z :=
  let np := (np + (nsize - 2))%nat in
  d1 ← load (dp + 1);
  d0 ← load dp;
  n1 ← load (np + 1);
  n0 ← load np;
  let '(n1, n0, most_significant_q_limb) :=
    if (d1 <=? n1) && ((d1 <? n1) || (d0 <=? n0)) then (sub_ddmmss n1 n0 d1 d0, 1) else (n1, n0, 0) in
  '(np, n1, n0) ← divrem_2_loop (qextra_limbs + (nsize - 2)) qp qextra_limbs np d1 d0 n1 n0;
  store (np + 1) n1 ;;
  store np n0 ;;
  mret most_significant_q_limb.

(** ** A longer divisor *)

(** The loop that corrects the estimate; [n] is the third limb. *)
Fixpoint fix_q (fuel : nat) (dX d1 n q r n1 n0 : Z) : M Z :=
  match fuel with
  | O => λ _, NoFuel
  | S fuel =>
      if (r <? n1) || ((n1 =? r) && (n <? n0)) then
        let q := wrap (q - 1) in
        let r := wrap (r + dX) in
        if r <? dX then mret q else
        fix_q fuel dX d1 n q r (wrap (n1 - b2z (n0 <? d1))) (wrap (n0 - d1))
      else mret q
  end.

Definition est_q (np dsize : nat) (dX d1 n0 : Z) : M Z :=
  if n0 =? dX then mret (B - 1) else
  n ← load (np + (dsize - 1));
  let '(q, r) := udiv_qrnnd n0 n dX in
  let '(n1, n0) := umul_ppmm d1 q in
  n ← load (np + (dsize - 2));
  fix_q 2 dX d1 n q r n1 n0.

(** One limb of the quotient; the dividend has [dsize] limbs at [np] and the
    limb [n2] above them. *)
Definition divrem_n_step (qp i np dp dsize : nat) (dX d1 n2 n0 : Z) : M Z :=
  q ← est_q np dsize dX d1 n0;
  cy_limb ← mpn_submul_1 np dp dsize q;
  q ← (if negb (n2 =? cy_limb) then mpn_add_n np np dp dsize ;; mret (wrap (q - 1)) else mret q);
  store (qp + i) q ;;
  load (np + (dsize - 1)).

Fixpoint divrem_n_loop (k qp qextra_limbs np dp dsize : nat) (dX d1 n0 : Z) : M unit :=
  match k with
  | O => mret tt
  | S i =>
      '(np, n2) ←
        (if (qextra_limbs <=? i)%nat then
           n2 ← load (np - 1 + dsize); mret ((np - 1)%nat, n2)
         else
           n2 ← load (np + (dsize - 1));
           MPN_COPY_DECR (np + 1) np dsize ;;
           store np 0 ;;
           mret (np, n2));
      n0 ← divrem_n_step qp i np dp dsize dX d1 n2 n0;
      divrem_n_loop i qp qextra_limbs np dp dsize dX d1 n0
  end.

Definition divrem_n (qp qextra_limbs np nsize dp dsize : nat) : M Z :=
  let np := (np + (nsize - dsize))%nat in
  dX ← load (dp + (dsize - 1));
  d1 ← load (dp + (dsize - 2));
  n0 ← load (np + (dsize - 1));
  c ← (if dX <=? n0 then (if dX <? n0 then mret 0 else mpn_cmp np dp (dsize - 1)) else mret (-1));
  '(n0, most_significant_q_limb) ←
    (if 0 <=? c then mpn_sub_n np np dp dsize ;; n0 ← load (np + (dsize - 1)); mret (n0, 1) else mret (n0, 0));
  divrem_n_loop (qextra_limbs + (nsize - dsize)) qp qextra_limbs np dp dsize dX d1 n0 ;;
  mret most_significant_q_limb.

Definition mpn_divrem (qp qextra_limbs np nsize dp dsize : nat) : M Z :=
  match dsize with
  | O => fault
  | 1%nat => divrem_1 qp qextra_limbs np nsize dp
  | 2%nat => divrem_2 qp qextra_limbs np nsize dp
  | _ => divrem_n qp qextra_limbs np nsize dp dsize
  end.

(** ** Correctness: a divisor of one limb *)

Lemma divrem_1_num_spec k qp np d n1 m :
  wf m → normalised d → 0 <= n1 < d → (qp + k <= length m)%nat → (np + k <= length m)%nat → (qp + k <= np ∨ np <= qp)%nat →
  ∃ r m', divrem_1_num k qp np d n1 m = Val (r, m') ∧ frame (range qp k) m m' ∧ wf m' ∧ 0 <= r < d ∧
    n1 * B ^ Z.of_nat k + V m np k = V m' qp k * d + r.
Proof.
  intros Hm Hd. revert n1 m Hm. induction k as [|i IH]; intros n1 m Hm Hn Hq Hp Ho; cbn [divrem_1_num].
  { exists n1, m. split_and!; try done; try lia. cbn. lia. }
  destruct (limb_at m (np + i)) as [n0 E0]; [lia|]. rewrite (load_bind _ _ _ _ E0).
  pose proof (udiv_qrnnd_spec n1 n0 d Hd Hn (wf_lookup _ _ _ Hm E0)) as H. destruct (udiv_qrnnd n1 n0 d) as [q n1']. destruct H as (Wq & Hn' & E).
  rewrite store_bind by lia. destruct (IH n1' (<[(qp + i)%nat := q]> m)) as (r & m' & -> & Hf & Hw & Hr & HV); [by apply wf_insert|done|places..|].
  exists r, m'. split; [done|]. split.
  { eapply frame_trans; [apply (frame_insert _ m (qp + i)); places|eapply frame_weaken; [exact Hf|places]]. }
  split_and!; try done; try lia. rewrite V_insert in HV by places. rewrite !V_top, E0, (frame_lookup _ _ _ _ Hf), list_lookup_insert_eq by places.
  cbn [default from_option id]. rewrite pow_S. nia.
Qed.

Lemma divrem_1_extra_spec k qp d n1 m :
  wf m → normalised d → 0 <= n1 < d → (qp + k <= length m)%nat →
  ∃ r m', divrem_1_extra k qp d n1 m = Val (r, m') ∧ frame (range qp k) m m' ∧ wf m' ∧ 0 <= r < d ∧ n1 * B ^ Z.of_nat k = V m' qp k * d + r.
Proof.
  intros Hm Hd. revert n1 m Hm. induction k as [|i IH]; intros n1 m Hm Hn Hq; cbn [divrem_1_extra].
  { exists n1, m. split_and!; try done; try lia. cbn. lia. }
  pose proof (udiv_qrnnd_spec n1 0 d Hd Hn ltac:(done)) as H. destruct (udiv_qrnnd n1 0 d) as [q n1']. destruct H as (Wq & Hn' & E).
  rewrite store_bind by lia. destruct (IH n1' (<[(qp + i)%nat := q]> m)) as (r & m' & -> & Hf & Hw & Hr & HV); [by apply wf_insert|done|places..|].
  exists r, m'. split; [done|]. split.
  { eapply frame_trans; [apply (frame_insert _ m (qp + i)); places|eapply frame_weaken; [exact Hf|places]]. }
  split_and!; try done; try lia. rewrite !V_top, (frame_lookup _ _ _ _ Hf), list_lookup_insert_eq by places.
  cbn [default from_option id]. rewrite pow_S. nia.
Qed.

(** The limbs at [np] that a division may change: one more than the
    dividend has, when it has as many as the divisor and the quotient has a
    fraction. *)
Definition nroom (qextra_limbs nsize dsize : nat) : nat :=
  if (qextra_limbs =? 0)%nat then nsize else Nat.max nsize (S dsize).

(** The quotient, its most significant limb [r], and the remainder. *)
Definition divided (qp qextra_limbs np nsize dp dsize : nat) (m : list Z) (r : Z) (m' : list Z) : Prop :=
  let qsize := (qextra_limbs + (nsize - dsize))%nat in
  frame (λ i, range qp qsize i ∨ range np (nroom qextra_limbs nsize dsize) i) m m' ∧ wf m' ∧ 0 <= r <= 1 ∧
  V m np nsize * B ^ Z.of_nat qextra_limbs = (V m' qp qsize + B ^ Z.of_nat qsize * r) * V m dp dsize + V m' np dsize ∧
  V m' np dsize < V m dp dsize.

Lemma nroom_ge qe ns ds : (ns <= nroom qe ns ds)%nat.
Proof. unfold nroom. destruct (qe =? 0)%nat; lia. Qed.

Lemma divrem_1_spec qp qe np ns dp m :
  wf m → (1 <= ns)%nat → normalised (V m dp 1) → (qp + (qe + (ns - 1)) <= length m)%nat → (np + ns <= length m)%nat → (dp + 1 <= length m)%nat →
  apart qp (qe + (ns - 1)) np 1 →
  ∃ r m', divrem_1 qp qe np ns dp m = Val (r, m') ∧ divided qp qe np ns dp 1 m r m'.
Proof.
  intros Hm Hns Hd Hq Hn Hdp Ho. unfold divrem_1. destruct (limb_at m dp) as [d Ed]; [lia|]. rewrite (load_bind _ _ _ _ Ed).
  destruct (limb_at m (np + (ns - 1))) as [x Ex]; [lia|]. rewrite (load_bind _ _ _ _ Ex). assert (V m dp 1 = d) as EV by (rewrite (V_cons _ _ _ _ Ed); cbn [V]; lia).
  rewrite EV in Hd. pose proof (wf_lookup _ _ _ Hm Ex) as Wx.
  assert (∃ n1 b, (if d <=? x then (wrap (x - d), 1) else (x, 0)) = (n1, b) ∧ 0 <= b <= 1 ∧ x = b * d + n1 ∧ 0 <= n1 < d) as (n1 & b & -> & Hb & Eb & Hn1).
  { unfold normalised, word in *. destruct (Z.leb_spec d x); [exists (x - d), 1; rewrite wrap_id by (unfold word; lia)|exists x, 0]; (split; [done|lia]). }
  destruct (divrem_1_num_spec (ns - 1) (qp + qe) np d n1 m) as (r1 & m1 & E & Hf1 & Hw1 & Hr1 & HV1); [done|done|done|places..|]. rewrite (step_bind _ _ _ _ _ E). clear E.
  pose proof (frame_length _ _ _ Hf1) as L1. destruct (divrem_1_extra_spec qe qp d r1 m1) as (r & m2 & E & Hf2 & Hw2 & Hr & HV2); [done|done|done|places..|]. rewrite (step_bind _ _ _ _ _ E). clear E.
  pose proof (frame_length _ _ _ Hf2) as L2. rewrite store_bind by lia. exists b, (<[np := r]> m2). split; [done|]. pose proof (nroom_ge qe ns 1).
  split. { eapply frame_trans; [eapply frame_trans; (eapply frame_weaken; [eassumption|places])|apply frame_insert; places]. }
  split; [apply wf_insert; [done|unfold word, normalised in *; lia]|]. split; [done|].
  assert (V (<[np := r]> m2) np 1 = r) as -> by (rewrite (V_cons _ _ _ r) by (apply list_lookup_insert_eq; lia); cbn [V]; lia). rewrite EV. split; [|lia].
  rewrite V_insert, V_split, (V_frame _ _ _ (qp + qe) (ns - 1) Hf2) by places. replace (V m np ns) with (V m np (S (ns - 1))) by (f_equal; lia).
  rewrite V_top, Ex. cbn [default from_option id]. rewrite Eb, Nat2Z.inj_add, Z.pow_add_r by lia.
  transitivity ((n1 * B ^ Z.of_nat (ns - 1) + V m np (ns - 1)) * B ^ Z.of_nat qe + b * d * (B ^ Z.of_nat (ns - 1) * B ^ Z.of_nat qe)); [ring|].
  rewrite HV1, Z.mul_add_distr_r, HV2. ring.
Qed.

(** ** Correctness: a divisor of two limbs *)

Lemma pair_lt r n2 n1 n0 : word n2 → word n0 → (r <? n1) || ((n1 =? r) && (n2 <? n0)) = (r * B + n2 <? n1 * B + n0).
Proof.
  unfold word. intros H2 H0. apply eq_true_iff_eq. rewrite orb_true_iff, andb_true_iff, !Z.ltb_lt, Z.eqb_eq. pose proof B_pos. nia.
Qed.

(** Two words are determined by their value modulo [B * B]. *)
Lemma pair_exact h l x : word h → word l → (h * B + l) mod (B * B) = x mod (B * B) → 0 <= x < B * B → h * B + l = x.
Proof. unfold word. intros Hh Hl E Hx. pose proof B_pos. rewrite !Z.mod_small in E by nia. done. Qed.

Lemma q_test_spec fuel d1 d0 n2 N q r n1 n0 m :
  normalised d1 → word d0 → word n2 → word q → word r → word n1 → word n0 →
  n1 * B + n0 = q * d0 → N = (q * d1 + r) * B + n2 → N - q * (d1 * B + d0) < d1 * B + d0 →
  (2 <= fuel)%nat ∨ (1 <= fuel)%nat ∧ d1 <= r →
  ∃ q' r' h l, q_test fuel d1 d0 n2 q r n1 n0 m = Val (q', r', h, l, m) ∧ word q' ∧ word r' ∧ word h ∧ word l ∧
    0 <= N - q' * (d1 * B + d0) < d1 * B + d0 ∧ (r' * B + n2 - (h * B + l)) mod (B * B) = (N - q' * (d1 * B + d0)) mod (B * B).
Proof.
  intros Hd Wd W2. revert q r n1 n0. induction fuel as [|fuel IH]; intros q r n1 n0 Wq Wr W1 W0 EP EN Hlt Hf; [lia|]. cbn [q_test].
  rewrite pair_lt by done. pose proof B_pos as HB. destruct (Z.ltb_spec (r * B + n2) (n1 * B + n0)) as [Ht|Ht].
  - assert (1 <= q) as Hq by (unfold word in *; nia). rewrite (wrap_id (q - 1)) by (unfold word in *; lia).
    pose proof (sub_ddmmss_spec n1 n0 0 d0 W0 Wd) as H. destruct (sub_ddmmss n1 n0 0 d0) as [h l]. destruct H as (Wh & Wl & E).
    apply pair_exact in E; [|done|done|unfold word in *; nia].
    destruct (decide (r + d1 < B)) as [Hc|Hc].
    + rewrite (wrap_id (r + d1)) by (unfold word, normalised in *; lia). rewrite (proj2 (Z.leb_le _ _)) by (unfold word in *; lia).
      apply IH; try done; unfold word, normalised in *; try lia; nia.
    + rewrite (wrap_over (r + d1)) by (unfold word, normalised in *; lia). rewrite (proj2 (Z.leb_gt _ _)) by (unfold word in *; lia).
      exists (q - 1), (r + d1 - B), h, l. split; [done|]. split_and!; try done; [unfold word in *; lia..|unfold word, normalised in *; nia|unfold word, normalised in *; nia|unfold word, normalised in *; nia|].
      replace ((r + d1 - B) * B + n2 - (h * B + l)) with (N - (q - 1) * (d1 * B + d0) + (-1) * (B * B)) by nia. by rewrite Z_mod_plus_full.
  - exists q, r, n1, n0. split; [done|]. split_and!; try done; [nia|]. f_equal. nia.
Qed.

Lemma pair_bound d1 d0 : normalised d1 → word d0 → 0 < d1 * B + d0 < B * B.
Proof. unfold normalised, word. pose proof B_pos. nia. Qed.

Lemma divrem_2_fix_spec qp i np d1 d0 n2 q r n1 n0 m :
  normalised d1 → word d0 → wf m → m !! np = Some n2 → (qp + i < length m)%nat → word q → word r → word n1 → word n0 → n1 * B + n0 = q * d0 →
  (q * d1 + r) * B + n2 - q * (d1 * B + d0) < d1 * B + d0 →
  ∃ q' h l, divrem_2_fix qp i np d1 d0 q r n1 n0 m = Val (h, l, <[(qp + i)%nat := q']> m) ∧ word q' ∧ word h ∧ word l ∧
    (q * d1 + r) * B + n2 = q' * (d1 * B + d0) + (h * B + l) ∧ h * B + l < d1 * B + d0.
Proof.
  intros Hd Wd Hm E2 Hq Wq Wr W1 W0 EP Hlt. unfold divrem_2_fix. rewrite (load_bind _ _ _ _ E2). pose proof (wf_lookup _ _ _ Hm E2) as W2. pose proof B_pos as HB.
  destruct (q_test_spec 2 d1 d0 n2 ((q * d1 + r) * B + n2) q r n1 n0 m) as (q' & r' & h & l & E & Wq' & Wr' & Wh & Wl & HN & HE); try done; [by left|].
  rewrite (step_bind _ _ _ _ _ E). rewrite store_bind by lia. pose proof (sub_ddmmss_spec r' n2 h l W2 Wl) as H. destruct (sub_ddmmss r' n2 h l) as [h' l']. destruct H as (Wh' & Wl' & E').
  rewrite HE in E'. apply pair_exact in E'; [|done|done|unfold word, normalised in *; nia].
  exists q', h', l'. split; [done|]. split_and!; try done; lia.
Qed.

Lemma divrem_2_step_spec qp i np d1 d0 n2 n1 n0 m :
  normalised d1 → word d0 → wf m → m !! np = Some n2 → (qp + i < length m)%nat → word n1 → word n0 → n1 * B + n0 < d1 * B + d0 →
  ∃ q h l, divrem_2_step qp i np d1 d0 n1 n0 m = Val (h, l, <[(qp + i)%nat := q]> m) ∧ word q ∧ word h ∧ word l ∧
    (n1 * B + n0) * B + n2 = q * (d1 * B + d0) + (h * B + l) ∧ h * B + l < d1 * B + d0.
Proof.
  intros Hd Wd Hm E2 Hq W1 W0 Hlt. unfold divrem_2_step. pose proof (wf_lookup _ _ _ Hm E2) as W2. pose proof B_pos as HB.
  destruct (Z.eqb_spec n1 d1) as [->|Hne].
  - assert (n0 < d0) as H0 by lia. destruct (decide (n0 + d1 < B)) as [Hc|Hc].
    + rewrite (wrap_id (n0 + d1)) by (unfold word in *; lia). rewrite (proj2 (Z.ltb_ge _ _)) by (unfold word in *; lia).
      rewrite (proj2 (Z.eqb_neq d0 0)) by (unfold word in *; lia). cbn [negb b2z]. rewrite (wrap_id (d0 - 1)), (wrap_under (- d0)) by (unfold word in *; lia).
      destruct (divrem_2_fix_spec qp i np d1 d0 n2 (B - 1) (n0 + d1) (d0 - 1) (- d0 + B) m) as (q & h & l & E & H1 & H2 & H3 & H4 & H5); try done; try (unfold word in *; lia); [unfold word in *; nia|].
      exists q, h, l. split_and!; try done. lia.
    + rewrite (wrap_over (n0 + d1)) by (unfold word in *; lia). rewrite (proj2 (Z.ltb_lt _ _)) by (unfold word in *; lia).
      rewrite (load_bind _ _ _ _ E2), store_bind by lia. pose proof (add_ssaaaa_spec (wrap (n0 + d1 - B - d0)) n2 0 d0 W2 Wd) as H.
      destruct (add_ssaaaa (wrap (n0 + d1 - B - d0)) n2 0 d0) as [h l]. destruct H as (Wh & Wl & E).
      assert ((wrap (n0 + d1 - B - d0) * B + n2 + (0 * B + d0)) mod (B * B) = ((d1 * B + n0) * B + n2 - (B - 1) * (d1 * B + d0)) mod (B * B)) as E'.
      { rewrite (wrap_under (n0 + d1 - B - d0)) by (unfold word in *; lia). f_equal. ring. }
      assert (0 <= (d1 * B + n0) * B + n2 - (B - 1) * (d1 * B + d0) < d1 * B + d0) as HR.
      { replace ((d1 * B + n0) * B + n2 - (B - 1) * (d1 * B + d0)) with ((n0 + d1 - d0) * B + n2 + d0) by ring. unfold word in *. nia. }
      rewrite E' in E. apply pair_exact in E; [|done|done|pose proof (pair_bound d1 d0 Hd Wd); lia].
      exists (B - 1), h, l. split; [done|]. split_and!; try done; [unfold word; lia|lia..].
  - assert (n1 < d1) as H1 by (unfold word in *; nia). pose proof (udiv_qrnnd_spec n1 n0 d1 Hd ltac:(unfold word in *; lia) W0) as H.
    destruct (udiv_qrnnd n1 n0 d1) as [q r]. destruct H as (Wq & Hr & E). pose proof (umul_ppmm_spec d0 q Wd Wq) as H. destruct (umul_ppmm d0 q) as [ph pl]. destruct H as (Wh & Wl & EP).
    rewrite E. apply divrem_2_fix_spec; try done; [unfold word, normalised in *; lia|lia|]. unfold word, normalised in *. nia.
Qed.

Lemma divrem_2_loop_spec k qp qe np p d1 d0 n1 n0 m :
  normalised d1 → word d0 → wf m → word n1 → word n0 → n1 * B + n0 < d1 * B + d0 →
  p = (np + (k - qe))%nat → (qp + k <= length m)%nat → (p < length m)%nat → (qp + k <= np ∨ np + 2 <= qp)%nat →
  ∃ h l m', divrem_2_loop k qp qe p d1 d0 n1 n0 m = Val (np, h, l, m') ∧ frame (λ i, range qp k i ∨ i = np ∧ (0 < qe)%nat) m m' ∧ wf m' ∧ word h ∧ word l ∧
    (n1 * B + n0) * B ^ Z.of_nat k + V m np (k - qe) * B ^ Z.of_nat (k `min` qe) = V m' qp k * (d1 * B + d0) + (h * B + l) ∧ h * B + l < d1 * B + d0.
Proof.
  intros Hd Wd. revert p n1 n0 m. induction k as [|i IH]; intros p n1 n0 m Hm W1 W0 Hlt -> Hq Hp Ho; cbn [divrem_2_loop].
  { exists n1, n0, m. rewrite Nat.add_0_r. split_and!; try done. change (0 - qe)%nat with 0%nat. cbn [V]. change (B ^ Z.of_nat 0) with 1. lia. }
  destruct (Nat.leb_spec qe i) as [Hle|Hgt].
  - set (p := (np + (i - qe))%nat). replace (np + (S i - qe) - 1)%nat with p by (unfold p; lia). destruct (limb_at m p) as [n2 E2]; [unfold p; lia|].
    destruct (divrem_2_step_spec qp i p d1 d0 n2 n1 n0 m) as (q & h & l & E & Wq & Wh & Wl & EN & Hlt'); try done; [lia|].
    change ((mret p ≫= λ np, '(n1, n0) ← divrem_2_step qp i np d1 d0 n1 n0; divrem_2_loop i qp qe np d1 d0 n1 n0) m) with (('(n1, n0) ← divrem_2_step qp i p d1 d0 n1 n0; divrem_2_loop i qp qe p d1 d0 n1 n0) m).
    rewrite (step_bind _ _ _ _ _ E). destruct (IH p h l (<[(qp + i)%nat := q]> m)) as (h' & l' & m' & -> & Hf & Hw & Wh' & Wl' & EV & Hlt2); [by apply wf_insert|done|done|done|done|unfold p; places..|].
    exists h', l', m'. split; [done|]. split; [eapply frame_trans; [apply (frame_insert _ m (qp + i)); places|eapply frame_weaken; [exact Hf|places]]|]. split_and!; try done.
    rewrite V_insert in EV by places. rewrite V_top, (frame_lookup _ _ _ _ Hf), list_lookup_insert_eq by places. cbn [default from_option id].
    replace (S i - qe)%nat with (S (i - qe)) by lia. rewrite (V_top m). fold p. rewrite E2. cbn [default from_option id]. rewrite !Nat.min_r in * by lia.
    rewrite pow_S. assert (B ^ Z.of_nat (i - qe) * B ^ Z.of_nat qe = B ^ Z.of_nat i) as EB by (rewrite <- Z.pow_add_r by lia; f_equal; lia).
    transitivity (((n1 * B + n0) * B + n2) * B ^ Z.of_nat i + V m np (i - qe) * B ^ Z.of_nat qe); [rewrite <- EB; ring|]. rewrite EN, Z.mul_add_distr_r, <- Z.add_assoc, EV. ring.
  - replace (np + (S i - qe))%nat with np in * by lia. set (m0 := <[np := 0]> m).
    assert ((store np 0 ;; mret np) m = Val (np, m0)) as E0 by (rewrite store_bind by lia; done). rewrite (step_bind _ _ _ _ _ E0). clear E0.
    assert (wf m0) as Hm0 by (by apply wf_insert). assert (length m0 = length m) as L0 by apply length_insert.
    destruct (divrem_2_step_spec qp i np d1 d0 0 n1 n0 m0) as (q & h & l & E & Wq & Wh & Wl & EN & Hlt'); try done; [by apply list_lookup_insert_eq|lia|].
    rewrite (step_bind _ _ _ _ _ E). destruct (IH np h l (<[(qp + i)%nat := q]> m0)) as (h' & l' & m' & -> & Hf & Hw & Wh' & Wl' & EV & Hlt2); [by apply wf_insert|done|done|done|lia|places..|].
    exists h', l', m'. split; [done|].
    split; [eapply frame_trans; [apply (frame_insert _ m np); places|eapply frame_trans; [apply (frame_insert _ m0 (qp + i)); places|eapply frame_weaken; [exact Hf|places]]]|]. split_and!; try done.
    rewrite V_top, (frame_lookup _ _ _ _ Hf), list_lookup_insert_eq by places. cbn [default from_option id]. replace (S i - qe)%nat with 0%nat by lia. replace (i - qe)%nat with 0%nat in EV by lia.
    cbn [V] in *. rewrite pow_S. nia.
Qed.

Lemma divrem_2_spec qp qe np ns dp m :
  wf m → (2 <= ns)%nat → normalised (V m (dp + 1) 1) → (qp + (qe + (ns - 2)) <= length m)%nat → (np + ns <= length m)%nat → (dp + 2 <= length m)%nat →
  apart qp (qe + (ns - 2)) np 2 →
  ∃ r m', divrem_2 qp qe np ns dp m = Val (r, m') ∧ divided qp qe np ns dp 2 m r m'.
Proof.
  intros Hm Hns Hd Hq Hn Hdp Ho. unfold divrem_2. destruct (limb_at m (dp + 1)) as [d1 E1]; [lia|]. rewrite (load_bind _ _ _ _ E1).
  destruct (limb_at m dp) as [d0 E0]; [lia|]. rewrite (load_bind _ _ _ _ E0).
  destruct (limb_at m (np + (ns - 2) + 1)) as [x1 F1]; [lia|]. rewrite (load_bind _ _ _ _ F1). destruct (limb_at m (np + (ns - 2))) as [x0 F0]; [lia|]. rewrite (load_bind _ _ _ _ F0).
  assert (V m (dp + 1) 1 = d1) as EV1 by (rewrite (V_cons _ _ _ _ E1); cbn [V]; lia). rewrite EV1 in Hd.
  assert (V m dp 2 = d1 * B + d0) as EV by (rewrite (V_cons _ _ _ _ E0), <- (Nat.add_1_r dp), EV1; lia).
  pose proof (wf_lookup _ _ _ Hm F1) as W1. pose proof (wf_lookup _ _ _ Hm F0) as W0. pose proof (wf_lookup _ _ _ Hm E0) as Wd. pose proof B_pos as HB.
  assert (∃ n1 n0 b, (if (d1 <=? x1) && ((d1 <? x1) || (d0 <=? x0)) then (sub_ddmmss x1 x0 d1 d0, 1) else (x1, x0, 0)) = (n1, n0, b) ∧ word n1 ∧ word n0 ∧ 0 <= b <= 1 ∧
    x1 * B + x0 = b * (d1 * B + d0) + (n1 * B + n0) ∧ n1 * B + n0 < d1 * B + d0) as (n1 & n0 & b & -> & Wn1 & Wn0 & Hb & Eb & Hlt).
  { replace ((d1 <=? x1) && ((d1 <? x1) || (d0 <=? x0))) with (d1 * B + d0 <=? x1 * B + x0).
    2:{ apply eq_true_iff_eq. rewrite andb_true_iff, orb_true_iff, !Z.leb_le, Z.ltb_lt. unfold word in *. nia. }
    destruct (Z.leb_spec (d1 * B + d0) (x1 * B + x0)); [|exists x1, x0, 0; split_and!; try done; lia].
    pose proof (sub_ddmmss_spec x1 x0 d1 d0 W0 Wd) as H'. destruct (sub_ddmmss x1 x0 d1 d0) as [h l]. destruct H' as (Wh & Wl & E).
    apply pair_exact in E; [|done|done|unfold word, normalised in *; nia]. exists h, l, 1. split_and!; try done; unfold word, normalised in *; nia. }
  destruct (divrem_2_loop_spec (qe + (ns - 2)) qp qe np (np + (ns - 2)) d1 d0 n1 n0 m) as (h & l & m1 & E & Hf & Hw & Wh & Wl & HE & Hlt'); try done; [lia|lia|].
  rewrite (step_bind _ _ _ _ _ E). clear E. pose proof (frame_length _ _ _ Hf) as L1. rewrite store_bind by lia. rewrite store_bind by (rewrite length_insert; lia).
  exists b, (<[np := l]> (<[(np + 1)%nat := h]> m1)). split; [done|]. pose proof (nroom_ge qe ns 2).
  split. { eapply frame_trans; [eapply frame_weaken; [exact Hf|places]|eapply frame_trans; apply frame_insert; places]. }
  split; [by do 2 (apply wf_insert; [|done])|]. split; [done|].
  assert (V (<[np := l]> (<[(np + 1)%nat := h]> m1)) np 2 = h * B + l) as ->.
  { rewrite (V_cons _ _ _ l) by (apply list_lookup_insert_eq; rewrite length_insert; lia). rewrite (V_cons _ _ _ h); [cbn [V]; lia|].
    rewrite list_lookup_insert_ne by lia. rewrite <- (Nat.add_1_r np). apply list_lookup_insert_eq. lia. }
  rewrite EV. split; [|done]. rewrite !V_insert by places. rewrite Nat.add_comm, Nat.add_sub, Nat.min_r, (Nat.add_comm (ns - 2)) in HE by lia.
  rewrite (split_at m np ns (ns - 2)) by lia. replace (ns - (ns - 2))%nat with 2%nat by lia.
  rewrite (V_cons _ _ _ _ F0), <- (Nat.add_1_r (np + (ns - 2))), (V_cons _ _ _ _ F1). cbn [V]. rewrite Nat2Z.inj_add, Z.pow_add_r in * by lia.
  transitivity (V m np (ns - 2) * B ^ Z.of_nat qe + (x1 * B + x0) * (B ^ Z.of_nat qe * B ^ Z.of_nat (ns - 2))); [ring|]. rewrite Eb.
  transitivity ((n1 * B + n0) * (B ^ Z.of_nat qe * B ^ Z.of_nat (ns - 2)) + V m np (ns - 2) * B ^ Z.of_nat qe + b * (d1 * B + d0) * (B ^ Z.of_nat qe * B ^ Z.of_nat (ns - 2))); [ring|]. rewrite HE. ring.
Qed.

(** ** Correctness: a longer divisor *)

Lemma fix_q_test fuel dX d1 n q r n1 n0 m :
  word n0 → word d1 → fix_q fuel dX d1 n q r n1 n0 m = ('(q, _, _, _) ← q_test fuel dX d1 n q r n1 n0; mret q) m.
Proof.
  revert q r n1 n0. induction fuel as [|fuel IH]; intros q r n1 n0 W0 Wd; [done|]. cbn [fix_q q_test]. destruct ((r <? n1) || ((n1 =? r) && (n <? n0))); [|done].
  assert (sub_ddmmss n1 n0 0 d1 = (wrap (n1 - b2z (n0 <? d1)), wrap (n0 - d1))) as ->.
  { unfold sub_ddmmss. do 2 f_equal. rewrite Z.sub_0_r. do 2 f_equal. apply eq_true_iff_eq. rewrite !Z.ltb_lt. unfold word in *. destruct (decide (n0 < d1)).
    - rewrite wrap_under by lia. lia.
    - rewrite wrap_id by (unfold word; lia). lia. }
  rewrite (Z.ltb_antisym dX). destruct (dX <=? wrap (r + dX)); cbn [negb]; [|done]. apply IH; [apply wrap_word|done].
Qed.

Lemma est_q_spec p ds dX d1 n0 x1 x2 m :
  normalised dX → wf m → word d1 → 0 <= n0 <= dX → m !! (p + (ds - 1))%nat = Some x1 → m !! (p + (ds - 2))%nat = Some x2 →
  ∃ q, est_q p ds dX d1 n0 m = Val (q, m) ∧ word q ∧
    if decide (n0 = dX) then q = B - 1 else 0 <= (n0 * B + x1) * B + x2 - q * (dX * B + d1) < dX * B + d1.
Proof.
  intros Hd Hm W1 Hn E1 E2. unfold est_q. pose proof B_pos as HB. case_decide as Hc; [subst n0; rewrite Z.eqb_refl; exists (B - 1); split_and!; try done|].
  rewrite (proj2 (Z.eqb_neq _ _) Hc), (load_bind _ _ _ _ E1). pose proof (wf_lookup _ _ _ Hm E1) as Wx1. pose proof (wf_lookup _ _ _ Hm E2) as Wx2.
  pose proof (udiv_qrnnd_spec n0 x1 dX Hd ltac:(lia) Wx1) as H. destruct (udiv_qrnnd n0 x1 dX) as [q r]. destruct H as (Wq & Hr & E).
  pose proof (umul_ppmm_spec d1 q W1 Wq) as H. destruct (umul_ppmm d1 q) as [ph pl]. destruct H as (Wh & Wl & EP). rewrite (load_bind _ _ _ _ E2), fix_q_test by done.
  destruct (q_test_spec 2 dX d1 x2 ((q * dX + r) * B + x2) q r ph pl m) as (q' & r' & h & l & E' & Wq' & _ & _ & _ & HN & _); try done;
    [unfold word, normalised in *; lia|lia|unfold word, normalised in *; nia|by left|].
  rewrite (step_bind _ _ _ _ _ E'). exists q'. split; [done|]. split; [done|]. rewrite E. exact HN.
Qed.

(** The estimate is the limb of the quotient or one more. *)
Lemma estimate N3 D2 β nl dl q : 0 < D2 → B <= D2 → 0 <= nl < β → 0 <= dl < β → 0 <= q < B → 0 <= N3 - q * D2 < D2 →
  - (D2 * β + dl) <= N3 * β + nl - q * (D2 * β + dl) < D2 * β + dl.
Proof. intros. assert (0 < β) by lia. assert (q * dl <= B * β) by nia. assert (B * β <= D2 * β) by nia. assert (0 <= (N3 - q * D2) * β <= (D2 - 1) * β) by nia. nia. Qed.

Lemma estimate_max dX n2 γ nl dl : B <= 2 * dX → 0 < γ → 0 <= nl → 0 <= dl < γ → n2 = dX →
  dX * γ + dl + (n2 * (γ * B) + nl - (B - 1) * (dX * γ + dl)) >= 0.
Proof. intros H1 H2 H3 H4 ->. pose proof B_pos. nia. Qed.

(** Subtraction of the multiple and the correction. *)
Lemma subtract_spec qp i p dp ds n2 q m :
  wf m → word q → word n2 → (0 < ds)%nat → (p + ds <= length m)%nat → (dp + ds <= length m)%nat → (qp + i < length m)%nat → apart p ds dp ds → ¬ range p ds (qp + i) →
  let D := V m dp ds in
  let N := V m p ds + B ^ Z.of_nat ds * n2 in
  - D <= N - q * D < D → 0 <= N → 0 < D →
  ∃ q' x m', (cy_limb ← mpn_submul_1 p dp ds q;
     q ← (if negb (n2 =? cy_limb) then mpn_add_n p p dp ds ;; mret (wrap (q - 1)) else mret q);
     store (qp + i) q ;;
     load (p + (ds - 1))) m = Val (x, m') ∧ frame (λ j, range p ds j ∨ j = (qp + i)%nat) m m' ∧ wf m' ∧ word q' ∧ m' !! (qp + i)%nat = Some q' ∧
    m' !! (p + (ds - 1))%nat = Some x ∧ N = q' * D + V m' p ds ∧ V m' p ds < D.
Proof.
  intros Hm Wq W2 Hds Hp Hdp Hq Ho Hni D N HN HN0 HD. pose proof B_pos as HB.
  destruct (submul_1_spec ds p dp q m) as (cy & m1 & E & Hf & Hw & Wc & HV); [done|done|places..|]. rewrite (step_bind _ _ _ _ _ E). clear E.
  pose proof (frame_length _ _ _ Hf) as L1. fold D in HV. pose proof (V_bound m1 p ds Hw) as B1. pose proof (V_bound m dp ds Hm) as BD. fold D in BD.
  assert (∃ q' m2, (if negb (n2 =? cy) then mpn_add_n p p dp ds ;; mret (wrap (q - 1)) else mret q) m1 = Val (q', m2) ∧ frame (range p ds) m1 m2 ∧ wf m2 ∧ word q' ∧
    N = q' * D + V m2 p ds ∧ V m2 p ds < D) as (q' & m2 & E & Hf2 & Hw2 & Wq' & EN & Hlt).
  { destruct (Z.eqb_spec n2 cy) as [->|Hne]; cbn [negb].
    - exists q, m1. split_and!; try done; unfold N; lia.
    - assert (n2 + 1 = cy) as Ec by (unfold N in *; unfold word in *; nia).
      assert (1 <= q) as Hq1 by (unfold N in *; unfold word in *; nia).
      destruct (add_n_spec ds p p dp m1) as (c & m2 & E & Hf2 & Hw2 & Hc & HV2); [done|places..|]. rewrite (step_bind _ _ _ _ _ E). exists (q - 1), m2.
      rewrite wrap_id by (unfold word in *; lia). rewrite (V_frame _ _ _ dp ds Hf) in HV2 by places. fold D in HV2. pose proof (V_bound m2 p ds Hw2).
      assert (c = 1) as -> by (unfold N in *; nia). split_and!; try done; [unfold word in *; lia|unfold N in *; nia..]. }
  rewrite (step_bind _ _ _ _ _ E). clear E. pose proof (frame_length _ _ _ Hf2) as L2. rewrite store_bind by lia.
  destruct (load_last (<[(qp + i)%nat := q']> m2) (p + (ds - 1))) as (x & E & Ex); [places|]. rewrite E.
  exists q', x, (<[(qp + i)%nat := q']> m2). split; [done|].
  split; [eapply frame_trans; [eapply frame_trans; (eapply frame_weaken; [eassumption|auto])|apply frame_insert; auto]|]. split; [by apply wf_insert|].
  split_and!; try done; [apply list_lookup_insert_eq; lia|rewrite V_insert by done..]; done.
Qed.

(** A number of at least two limbs by its first two. *)
Lemma V_two m p ds x1 x2 :
  (2 <= ds)%nat → m !! (p + (ds - 1))%nat = Some x1 → m !! (p + (ds - 2))%nat = Some x2 →
  V m p ds = (x1 * B + x2) * B ^ Z.of_nat (ds - 2) + V m p (ds - 2).
Proof.
  intros H E1 E2. replace (V m p ds) with (V m p (S (S (ds - 2)))) by (f_equal; lia). rewrite !V_top, E2.
  replace (p + S (ds - 2))%nat with (p + (ds - 1))%nat by lia. rewrite E1, pow_S. cbn [default from_option id]. ring.
Qed.

Lemma divrem_n_step_spec qp i p dp ds dX d1 n2 m :
  wf m → (3 <= ds)%nat → normalised dX → word n2 → m !! (dp + (ds - 1))%nat = Some dX → m !! (dp + (ds - 2))%nat = Some d1 →
  (p + ds <= length m)%nat → (dp + ds <= length m)%nat → (qp + i < length m)%nat → apart p ds dp ds → ¬ range p ds (qp + i) →
  let D := V m dp ds in
  let N := V m p ds + B ^ Z.of_nat ds * n2 in
  N < D * B →
  ∃ q x m', divrem_n_step qp i p dp ds dX d1 n2 n2 m = Val (x, m') ∧ frame (λ j, range p ds j ∨ j = (qp + i)%nat) m m' ∧ wf m' ∧ word q ∧ m' !! (qp + i)%nat = Some q ∧
    m' !! (p + (ds - 1))%nat = Some x ∧ N = q * D + V m' p ds ∧ V m' p ds < D.
Proof.
  intros Hm Hds Hd W2 EX E1 Hp Hdp Hq Ho Hni D N HN. pose proof B_pos as HB.
  destruct (limb_at m (p + (ds - 1))) as [x1 F1]; [lia|]. destruct (limb_at m (p + (ds - 2))) as [x2 F2]; [lia|].
  pose proof (wf_lookup _ _ _ Hm F1) as Wx1. pose proof (wf_lookup _ _ _ Hm F2) as Wx2. pose proof (wf_lookup _ _ _ Hm E1) as W1.
  set (β := B ^ Z.of_nat (ds - 2)). assert (0 < β) as Hβ by (unfold β, B; lia).
  assert (B ^ Z.of_nat ds = β * B * B) as EB by (unfold β; rewrite (pow_split ds (ds - 2)) by lia; replace (ds - (ds - 2))%nat with 2%nat by lia; change (B ^ Z.of_nat 2) with (B * B); ring).
  pose proof (V_bound m p (ds - 2) Hm) as Bn. pose proof (V_bound m dp (ds - 2) Hm) as Bd. fold β in Bn, Bd.
  assert (D = (dX * B + d1) * β + V m dp (ds - 2)) as ED by (unfold D, β; by apply V_two; [lia|..]).
  assert (N = ((n2 * B + x1) * B + x2) * β + V m p (ds - 2)) as EN by (unfold N; rewrite (V_two m p ds x1 x2), EB by (done || lia); fold β; ring).
  assert (n2 <= dX) as Hn2. { assert (n2 * (β * B) < (dX + 1) * (β * B)) by (rewrite EN, ED in HN; unfold word, normalised in *; nia). nia. }
  destruct (est_q_spec p ds dX d1 n2 x1 x2 m) as (q & E & Wq & Hest); [done|done|done|unfold word in *; lia|done|done|].
  unfold divrem_n_step. rewrite (step_bind _ _ _ _ _ E). clear E. apply subtract_spec; try done; [lia|..|unfold word, normalised in *; nia|unfold word, normalised in *; nia].
  fold D N. case_decide as Hc.
  - subst q. split; [|lia]. pose proof (estimate_max dX n2 (β * B) ((x1 * B + x2) * β + V m p (ds - 2)) (d1 * β + V m dp (ds - 2))) as H. unfold word, normalised in *.
    assert (0 <= d1 * β + V m dp (ds - 2) < β * B) by nia. assert (0 <= (x1 * B + x2) * β + V m p (ds - 2)) by nia. rewrite EN, ED. nia.
  - rewrite EN, ED. unfold word, normalised in *. apply estimate; try done; nia.
Qed.

(** What a loop of [k] steps may change. *)
Definition loop_writes (k qp qe np ds : nat) (j : nat) : Prop := range qp k j ∨ range np (k - qe + ds) j ∨ (j = np + ds ∧ 0 < qe ∧ 0 < k)%nat.

Lemma loop_writes_now i qp qe np ds j : range np (S ds) j ∧ (i < qe)%nat ∨ range (np + (i - qe)) ds j ∨ j = (qp + i)%nat → loop_writes (S i) qp qe np ds j.
Proof. unfold loop_writes, range. lia. Qed.

Lemma loop_writes_then i qp qe np ds j : loop_writes i qp qe np ds j → loop_writes (S i) qp qe np ds j.
Proof. unfold loop_writes, range. lia. Qed.

Lemma loop_writes_not i qp qe np ds : (qp + S i <= np ∨ np + ds <= qp)%nat → ¬ loop_writes i qp qe np ds (qp + i).
Proof. unfold loop_writes, range. lia. Qed.

(** The next dividend: the remainder moved up, and a limb below. *)
Lemma next_dividend i qe np ds n0 m :
  wf m → (0 < ds)%nat → let p := (np + (S i - qe))%nat in let p' := (np + (i - qe))%nat in
  m !! (p + (ds - 1))%nat = Some n0 → (p + ds <= length m)%nat → ((0 < qe)%nat → (np + ds < length m)%nat) →
  ∃ x m1, (if (qe <=? i)%nat then n2 ← load (p - 1 + ds); mret ((p - 1)%nat, n2)
           else n2 ← load (p + (ds - 1)); MPN_COPY_DECR (p + 1) p ds ;; store p 0 ;; mret (p, n2)) m = Val (p', n0, m1) ∧
    frame (λ j, range np (S ds) j ∧ (i < qe)%nat) m m1 ∧ wf m1 ∧ V m1 p' ds + B ^ Z.of_nat ds * n0 = V m p ds * B + x ∧
    x = (if decide (qe <= i)%nat then default 0 (m !! p') else 0) ∧ word x.
Proof.
  intros Hm Hds p p' E0 Hp Hr. destruct (Nat.leb_spec qe i) as [Hle|Hgt].
  - assert (p = S p') as Ep by (unfold p, p'; lia). exists (default 0 (m !! p')), m. rewrite decide_True by done.
    replace (p - 1)%nat with p' by lia. replace (p + (ds - 1))%nat with (p' + ds)%nat in E0 by lia. rewrite (load_bind _ _ _ _ E0).
    split; [done|]. split; [done|]. split; [done|]. split; [|split; [done|by apply wf_default]].
    pose proof (V_top m p' ds) as HT. rewrite E0 in HT. cbn [V default from_option id] in HT. rewrite Ep. lia.
  - assert (p = np ∧ p' = np) as [Ep Ep'] by (unfold p, p'; lia). rewrite Ep, Ep' in *. clearbody p p'. subst p p'. rewrite decide_False by lia. rewrite (load_bind _ _ _ _ E0).
    destruct (copy_decr_spec ds (np + 1) np m) as (m1 & E & Hf & Hw & HV); [done|lia..|]. rewrite (step_bind _ _ _ _ _ E). clear E. pose proof (frame_length _ _ _ Hf) as L1.
    rewrite store_bind by lia. exists 0, (<[np := 0]> m1). split; [done|].
    split; [eapply frame_trans; [eapply frame_weaken; [exact Hf|places]|apply frame_insert; places]|]. split; [by apply wf_insert|]. split; [|done].
    assert (V (<[np := 0]> m1) np (S ds) = B * V m np ds) as HS.
    { rewrite (V_cons _ _ _ 0) by (apply list_lookup_insert_eq; lia). rewrite V_insert, <- (Nat.add_1_r np), HV by places. lia. }
    rewrite V_top in HS. rewrite list_lookup_insert_ne in HS by lia.
    assert (m1 !! (np + ds)%nat = Some n0) as EX.
    { pose proof (V_top m1 (np + 1) (ds - 1)) as H1. replace (S (ds - 1)) with ds in H1 by lia. rewrite HV in H1. pose proof (V_top m np (ds - 1)) as H2. replace (S (ds - 1)) with ds in H2 by lia.
      rewrite E0 in H2. replace (np + 1 + (ds - 1))%nat with (np + ds)%nat in H1 by lia. destruct (limb_at m1 (np + ds)) as [y Ey]; [lia|]. rewrite Ey in *. cbn [default from_option id] in *.
      pose proof (V_bound m1 (np + 1) (ds - 1) Hw). pose proof (V_bound m np (ds - 1) Hm). f_equal. nia. }
    rewrite EX in HS. cbn [default from_option id] in HS. lia.
Qed.

Lemma divrem_n_loop_spec k qp qe np dp ds dX d1 n0 m :
  let p := (np + (k - qe))%nat in
  wf m → (3 <= ds)%nat → normalised dX → m !! (dp + (ds - 1))%nat = Some dX → m !! (dp + (ds - 2))%nat = Some d1 → m !! (p + (ds - 1))%nat = Some n0 →
  V m p ds < V m dp ds → (qp + k <= length m)%nat → (p + ds <= length m)%nat → (dp + ds <= length m)%nat → ((0 < qe)%nat → (np + ds < length m)%nat) →
  (qp + k <= np ∨ np + ds <= qp)%nat → apart qp k dp ds → apart dp ds np (k - qe + ds) → ((0 < qe)%nat → ¬ range dp ds (np + ds)) →
  ∃ m', divrem_n_loop k qp qe p dp ds dX d1 n0 m = Val (tt, m') ∧ frame (loop_writes k qp qe np ds) m m' ∧ wf m' ∧
    V m p ds * B ^ Z.of_nat k + V m np (k - qe) * B ^ Z.of_nat (k `min` qe) = V m' qp k * V m dp ds + V m' np ds ∧ V m' np ds < V m dp ds.
Proof.
  revert n0 m. induction k as [|i IH]; intros n0 m p Hm Hds Hd EX E1 E0 Hlt Hq Hp Hdp Hr Ho Oq On Or; cbn [divrem_n_loop].
  { exists m. change (0 - qe)%nat with 0%nat in *. unfold p in *. rewrite Nat.add_0_r in *. split_and!; try done. cbn [V]. change (B ^ Z.of_nat 0) with 1. lia. }
  destruct (next_dividend i qe np ds n0 m) as (x & m1 & E & Hf1 & Hw1 & HN & Ex & Wx); [done|lia|done|done|done|]. fold p in E. rewrite (step_bind _ _ _ _ _ E). clear E.
  pose proof (frame_length _ _ _ Hf1) as L1. fold p in HN. set (p' := (np + (i - qe))%nat) in *. pose proof (wf_lookup _ _ _ Hm E0) as W0.
  assert (V m1 dp ds = V m dp ds) as ED by (apply (V_frame _ _ _ _ _ Hf1); unfold p, p' in *; places).
  destruct (divrem_n_step_spec qp i p' dp ds dX d1 n0 m1) as (q & y & m2 & E & Hf2 & Hw2 & Wq & Eq & Ey & EN & Hlt2);
    [done|done|done|done|rewrite (frame_lookup _ _ _ _ Hf1); [done|unfold p, p' in *; places]|rewrite (frame_lookup _ _ _ _ Hf1); [done|unfold p, p' in *; places]|unfold p, p' in *; places..| |].
  { rewrite HN, ED. unfold word in Wx. nia. }
  rewrite (step_bind _ _ _ _ _ E). clear E. pose proof (frame_length _ _ _ Hf2) as L2. rewrite ED, HN in EN. rewrite ED in Hlt2.
  assert (frame (λ j, range np (S ds) j ∧ (i < qe)%nat ∨ range p' ds j ∨ j = (qp + i)%nat) m m2) as Hf by (eapply frame_trans; (eapply frame_weaken; [eassumption|places])).
  assert (V m2 dp ds = V m dp ds) as ED2 by (apply (V_frame _ _ _ _ _ Hf); unfold p, p' in *; places).
  destruct (IH y m2) as (m' & E & Hf3 & Hw3 & HV & Hlt3); [done|done|done|rewrite (frame_lookup _ _ _ _ Hf); [done|unfold p, p' in *; places]|rewrite (frame_lookup _ _ _ _ Hf); [done|unfold p, p' in *; places]|done|by rewrite ED2|unfold p, p' in *; places..|].
  rewrite E. exists m'. split; [done|]. split; [eapply frame_trans; [eapply frame_weaken; [exact Hf|intros j; apply loop_writes_now]|eapply frame_weaken; [exact Hf3|intros j; apply loop_writes_then]]|]. split; [done|]. rewrite ED2 in *. split; [|done].
  rewrite (V_top m' qp i), (frame_lookup _ _ _ (qp + i) Hf3), Eq by (by apply loop_writes_not). cbn [default from_option id].
  fold p' in HV. rewrite (V_frame _ _ _ np (i - qe) Hf) in HV by (unfold p, p' in *; places).
  assert (V m np (S i - qe) * B ^ Z.of_nat (S i `min` qe) = V m np (i - qe) * B ^ Z.of_nat (i `min` qe) + x * B ^ Z.of_nat i) as EV.
  { subst x. case_decide as Hle.
    - replace (S i - qe)%nat with (S (i - qe)) by lia. rewrite V_top, !Nat.min_r by lia. fold p'.
      assert (B ^ Z.of_nat (i - qe) * B ^ Z.of_nat qe = B ^ Z.of_nat i) as EB by (rewrite <- Z.pow_add_r by lia; f_equal; lia). rewrite <- EB. ring.
    - replace (S i - qe)%nat with 0%nat by lia. replace (i - qe)%nat with 0%nat by lia. cbn [V]. lia. }
  rewrite EV, pow_S. transitivity ((V m p ds * B + x) * B ^ Z.of_nat i + V m np (i - qe) * B ^ Z.of_nat (i `min` qe)); [ring|]. rewrite EN, Z.mul_add_distr_r, <- Z.add_assoc, HV. ring.
Qed.

Lemma loop_writes_all qp qe np ns ds j :
  (ds <= ns)%nat → loop_writes (qe + (ns - ds)) qp qe np ds j → range qp (qe + (ns - ds)) j ∨ range np (nroom qe ns ds) j.
Proof. unfold loop_writes, nroom, range. intros H. destruct (Nat.eqb_spec qe 0); lia. Qed.

(** The most significant limb of the quotient. *)
Lemma first_q_spec p dp ds dX n0 m :
  wf m → (3 <= ds)%nat → normalised dX → m !! (dp + (ds - 1))%nat = Some dX → m !! (p + (ds - 1))%nat = Some n0 → (p + ds <= length m)%nat → (dp + ds <= length m)%nat → apart p ds dp ds →
  ∃ c n0' r m', (if dX <=? n0 then (if dX <? n0 then mret 0 else mpn_cmp p dp (ds - 1)) else mret (-1)) m = Val (c, m) ∧
    (if 0 <=? c then mpn_sub_n p p dp ds ;; n0 ← load (p + (ds - 1)); mret (n0, 1) else mret (n0, 0)) m = Val (n0', r, m') ∧
    frame (range p ds) m m' ∧ wf m' ∧ 0 <= r <= 1 ∧ m' !! (p + (ds - 1))%nat = Some n0' ∧ V m p ds = r * V m dp ds + V m' p ds ∧ V m' p ds < V m dp ds.
Proof.
  intros Hm Hds Hd EX E0 Hp Hdp Ho. pose proof B_pos as HB. set (β := B ^ Z.of_nat (ds - 1)). assert (0 < β) as Hβ by (unfold β, B; lia).
  pose proof (V_bound m p (ds - 1) Hm) as B1. pose proof (V_bound m dp (ds - 1) Hm) as B2. fold β in B1, B2.
  assert (V m p ds = n0 * β + V m p (ds - 1)) as EN by (replace (V m p ds) with (V m p (S (ds - 1))) by (f_equal; lia); rewrite V_top, E0; unfold β; cbn [default from_option id]; ring).
  assert (V m dp ds = dX * β + V m dp (ds - 1)) as ED by (replace (V m dp ds) with (V m dp (S (ds - 1))) by (f_equal; lia); rewrite V_top, EX; unfold β; cbn [default from_option id]; ring).
  assert (∃ c, (if dX <=? n0 then (if dX <? n0 then mret 0 else mpn_cmp p dp (ds - 1)) else mret (-1)) m = Val (c, m) ∧ (0 <= c ↔ V m dp ds <= V m p ds)) as (c & Ec & Hc).
  { rewrite EN, ED. destruct (Z.leb_spec dX n0); [|exists (-1); split; [done|]; nia]. destruct (Z.ltb_spec dX n0); [exists 0; split; [done|]; nia|].
    rewrite cmp_spec by (done || lia). eexists. split; [done|]. rewrite Z.sgn_nonneg. nia. }
  exists c. destruct (Z.leb_spec 0 c) as [H|H].
  - destruct (sub_n_spec ds p p dp m) as (b & m1 & E & Hf & Hw & Hb & HV); [done|places..|]. pose proof (frame_length _ _ _ Hf) as L1.
    destruct (load_last m1 (p + (ds - 1))) as (y & Ey & Fy); [lia|]. exists y, 1, m1. split; [done|]. split; [by rewrite (step_bind _ _ _ _ _ E), (step_bind _ _ _ _ _ Ey)|].
    pose proof (V_bound m1 p ds Hw). pose proof (V_bound m p ds Hm). assert (B ^ Z.of_nat ds = B * β) as EB by (unfold β; rewrite <- pow_S; do 2 f_equal; lia).
    assert (b = 0) as -> by (assert (b = 0 ∨ b = 1) as [->| ->] by lia; [done|]; apply Hc in H; lia).
    split_and!; try done; [lia|]. unfold normalised in Hd. nia.
  - exists n0, 0, m. split_and!; try done; lia.
Qed.

Lemma divrem_n_spec qp qe np ns dp ds m :
  wf m → (3 <= ds <= ns)%nat → normalised (V m (dp + (ds - 1)) 1) →
  (qp + (qe + (ns - ds)) <= length m)%nat → (np + nroom qe ns ds <= length m)%nat → (dp + ds <= length m)%nat →
  apart qp (qe + (ns - ds)) np ds → apart qp (qe + (ns - ds)) dp ds → apart dp ds np (nroom qe ns ds) →
  ∃ r m', divrem_n qp qe np ns dp ds m = Val (r, m') ∧ divided qp qe np ns dp ds m r m'.
Proof.
  intros Hm Hds Hd Hq Hn Hdp O1 O2 O3. unfold divrem_n. pose proof (nroom_ge qe ns ds) as HR. assert ((0 < qe)%nat → (S ds <= nroom qe ns ds)%nat) as HR' by (unfold nroom; destruct (Nat.eqb_spec qe 0); lia).
  destruct (limb_at m (dp + (ds - 1))) as [dX EX]; [lia|]. rewrite (load_bind _ _ _ _ EX). destruct (limb_at m (dp + (ds - 2))) as [d1 E1]; [lia|]. rewrite (load_bind _ _ _ _ E1).
  set (p := (np + (ns - ds))%nat). destruct (limb_at m (p + (ds - 1))) as [n0 E0]; [unfold p; lia|]. rewrite (load_bind _ _ _ _ E0).
  assert (V m (dp + (ds - 1)) 1 = dX) as EV by (rewrite (V_cons _ _ _ _ EX); cbn [V]; lia). rewrite EV in Hd.
  destruct (first_q_spec p dp ds dX n0 m) as (c & n0' & r & m1 & Ec & E & Hf1 & Hw1 & Hr & E0' & HV1 & Hlt1); [done|lia|done|done|done|unfold p; places..|].
  rewrite (step_bind _ _ _ _ _ Ec), (step_bind _ _ _ _ _ E). clear E Ec. pose proof (frame_length _ _ _ Hf1) as L1.
  assert (V m1 dp ds = V m dp ds) as ED by (apply (V_frame _ _ _ _ _ Hf1); unfold p; places).
  destruct (divrem_n_loop_spec (qe + (ns - ds)) qp qe np dp ds dX d1 n0' m1) as (m2 & E & Hf2 & Hw2 & HV2 & Hlt2);
    rewrite ?(Nat.add_comm qe), ?Nat.add_sub; fold p; rewrite ?ED; try done; try (rewrite (frame_lookup _ _ _ _ Hf1); [done|unfold p; places]); try lia; try (unfold p; places).
  rewrite (Nat.add_comm qe), Nat.add_sub in E. fold p in E. rewrite (step_bind _ _ _ _ _ E). exists r, m2. split; [done|].
  rewrite ?(Nat.add_comm qe), ?Nat.add_sub, ?Nat.min_r, ?ED in HV2 by lia. fold p in HV2. rewrite ED in Hlt2.
  split; [eapply frame_trans; [eapply frame_weaken; [exact Hf1|unfold p; places]|eapply frame_weaken; [exact Hf2|intros j; apply loop_writes_all; lia]]|].
  split; [done|]. split; [done|]. split; [|done]. rewrite (V_frame _ _ _ np (ns - ds) Hf1) in HV2 by (unfold p; places).
  rewrite (split_at m np ns (ns - ds)) by lia. replace (ns - (ns - ds))%nat with ds by lia. fold p. rewrite HV1, (Nat.add_comm qe), Nat2Z.inj_add, Z.pow_add_r in * by lia.
  transitivity (V m1 p ds * (B ^ Z.of_nat (ns - ds) * B ^ Z.of_nat qe) + V m np (ns - ds) * B ^ Z.of_nat qe + r * V m dp ds * (B ^ Z.of_nat (ns - ds) * B ^ Z.of_nat qe)); [ring|]. rewrite HV2. ring.
Qed.

(** C14. mpn_divrem, for a divisor of any size whose most significant bit is
    set, ends with the quotient limbs at qp, fraction limbs included, its most
    significant limb, 0 or 1, as the value, and the remainder, less than the
    divisor, at np: dividend times B to the fraction limbs is quotient times
    divisor plus remainder. One correction of an estimate from three limbs by
    two is always enough, the quotient may lie directly above the remainder,
    and only the quotient and the dividend change, with one limb above the
    dividend in the case that nroom names. *)
Theorem mpn_divrem_correct qp qextra_limbs np nsize dp dsize m :
  let qsize := (qextra_limbs + (nsize - dsize))%nat in
  let nsize' := nroom qextra_limbs nsize dsize in
  wf m → (1 <= dsize <= nsize)%nat → normalised (V m (dp + (dsize - 1)) 1) →
  (qp + qsize <= length m)%nat → (np + nsize' <= length m)%nat → (dp + dsize <= length m)%nat →
  apart qp qsize np dsize → apart qp qsize dp dsize → apart dp dsize np nsize' →
  ∃ r m', mpn_divrem qp qextra_limbs np nsize dp dsize m = Val (r, m') ∧ divided qp qextra_limbs np nsize dp dsize m r m'.
Proof.
  intros qsize nsize' Hm Hds Hd Hq Hn Hdp O1 O2 O3. unfold mpn_divrem. pose proof (nroom_ge qextra_limbs nsize dsize) as HR. fold nsize' in HR.
  destruct dsize as [|[|[|ds]]]; [lia|..].
  - rewrite Nat.add_0_r in Hd. apply divrem_1_spec; done || lia.
  - apply divrem_2_spec; done || lia.
  - apply divrem_n_spec; done || lia.
Qed.

Definition divrem_example : list Z := [0; 0; 0; 1; 2; 2 ^ 63; 5; 6; 7; 8; 9].

Lemma mpn_divrem_correct_witness :
  normalised (V divrem_example (3 + (3 - 1)) 1) ∧
  ∃ r m', mpn_divrem 0 1 6 5 3 3 divrem_example = Val (r, m') ∧ divided 0 1 6 5 3 3 divrem_example r m'.
Proof.
  assert (normalised (V divrem_example (3 + (3 - 1)) 1)) as Hd by (split; by vm_compute). split; [exact Hd|].
  apply (mpn_divrem_correct 0 1 6 5 3 3 divrem_example); try exact Hd; cbn; unfold apart; try lia. repeat constructor; by vm_compute.
Defined.

(** ** What the comment on [mpn_divrem] allows, and what the code does *)

(** The quotient in the place of the dividend meets [QP + DSIZE >= NP], and
    the remainder is stored over it. *)
Example divrem_in_place :
  mpn_divrem 1 0 1 2 0 1 [2 ^ 63; 0; 1] = Val (0, [2 ^ 63; 0; 1]) ∧ V [2 ^ 63; 0; 1] 1 2 = 2 * 2 ^ 63 + 0.
Proof. done. Qed.

(** With a fraction and a dividend as long as the divisor, the limb above the
    dividend is overwritten. *)
Example divrem_above_dividend :
  ∃ m', mpn_divrem 0 1 4 3 1 3 [0; 0; 0; 2 ^ 63; 1; 2; 3; 99] = Val (0, m') ∧ m' !! 7%nat = Some 3.
Proof. eexists. by vm_compute. Qed.
End MpnDiv.
