(* ===== verification/MpnDiv1.v ===== *)
(** * Multi-precision arithmetic: division by a limb

    [stdlib/divmod_1.c] and [stdlib/mod_1.c] with the macros they use:
    [count_leading_zeros] of [longlong.h] with its table, and
    [udiv_qrnnd_preinv] of [gmp-impl.h], which divides by multiplying with an
    inverse.  Whether the inverse is worth its computation is decided by the
    times of the two instructions, which differ between processors: they are
    arguments here. *)

From S2P Require Import Prelude LongLong Mpn MpnSpec MpnMul MpnDiv.
Local Open Scope Z_scope.

Module MpnDiv1.
Import LongLong Mpn MpnSpec MpnMul MpnDiv.

(** ** Leading zeros *)

Definition clz_tab : list Z :=
  [0; 1; 2; 2; 3; 3; 3; 3; 4; 4; 4; 4; 4; 4; 4; 4; 5; 5; 5; 5; 5; 5; 5; 5; 5; 5; 5; 5; 5; 5; 5; 5;
   6; 6; 6; 6; 6; 6; 6; 6; 6; 6; 6; 6; 6; 6; 6; 6; 6; 6; 6; 6; 6; 6; 6; 6; 6; 6; 6; 6; 6; 6; 6; 6;
   7; 7; 7; 7; 7; 7; 7; 7; 7; 7; 7; 7; 7; 7; 7; 7; 7; 7; 7; 7; 7; 7; 7; 7; 7; 7; 7; 7; 7; 7; 7; 7;
   7; 7; 7; 7; 7; 7; 7; 7; 7; 7; 7; 7; 7; 7; 7; 7; 7; 7; 7; 7; 7; 7; 7; 7; 7; 7; 7; 7; 7; 7; 7; 7;
   8; 8; 8; 8; 8; 8; 8; 8; 8; 8; 8; 8; 8; 8; 8; 8; 8; 8; 8; 8; 8; 8; 8; 8; 8; 8; 8; 8; 8; 8; 8; 8;
   8; 8; 8; 8; 8; 8; 8; 8; 8; 8; 8; 8; 8; 8; 8; 8; 8; 8; 8; 8; 8; 8; 8; 8; 8; 8; 8; 8; 8; 8; 8; 8;
   8; 8; 8; 8; 8; 8; 8; 8; 8; 8; 8; 8; 8; 8; 8; 8; 8; 8; 8; 8; 8; 8; 8; 8; 8; 8; 8; 8; 8; 8; 8; 8;
   8; 8; 8; 8; 8; 8; 8; 8; 8; 8; 8; 8; 8; 8; 8; 8; 8; 8; 8; 8; 8; 8; 8; 8; 8; 8; 8; 8; 8; 8; 8; 8].

(** The position of the highest byte that is not zero, from [8 * k] down. *)
Fixpoint high_byte (k : nat) (xr : Z) : Z :=
  match k with
  | O => 0
  | S j => if negb (Z.land (Z.shiftr xr (8 * Z.of_nat k)) 255 =? 0) then 8 * Z.of_nat k else high_byte j xr
  end.

Definition count_leading_zeros (xr : Z) : Z :=
  let a := high_byte 7 xr in
  64 - (default 0 (clz_tab !! Z.to_nat (Z.shiftr xr a)) + a).

(** ** Division by an inverse *)

Definition udiv_qrnnd_preinv (nh nl d di : Z) : Z * Z :=
  let '(q, _) := umul_ppmm nh di in
  let q := wrap (q + nh) in
  let '(xh, xl) := umul_ppmm q d in
  let '(xh, r) := sub_ddmmss nh nl xh xl in
  let '(q, r) :=
    if negb (xh =? 0) then
      let '(xh, r) := sub_ddmmss xh r 0 d in
      let q := wrap (q + 1) in
      if negb (xh =? 0) then
        let '(_, r) := sub_ddmmss xh r 0 d in
        (wrap (q + 1), r)
      else (q, r)
    else (q, r) in
  if d <=? r then (wrap (q + 1), wrap (r - d)) else (q, r).

Definition divisor_limb_inverted (d : Z) : Z :=
  if wrap (Z.shiftl d 1) =? 0 then B - 1 else fst (udiv_qrnnd (wrap (- d)) 0 d).

(** ** The loops *)

(** [div nh nl] divides by the normalised divisor.  The dividend is shifted
    on the way; [n1] is its last limb that was read. *)
Fixpoint divmod_shifted (div : Z → Z → Z * Z) (k quot_ptr dividend_ptr : nat) (steps n1 r : Z) : M Z :=
  match k with
  | O =>
      let '(q, r) := div r (wrap (Z.shiftl n1 steps)) in
      store quot_ptr q ;;
      mret r
  | S i =>
      n0 ← load (dividend_ptr + i);
      let '(q, r) := div r (Z.lor (wrap (Z.shiftl n1 steps)) (Z.shiftr n0 (64 - steps))) in
      store (quot_ptr + S i) q ;;
      divmod_shifted div i quot_ptr dividend_ptr steps n0 r
  end.

Fixpoint divmod_plain (div : Z → Z → Z * Z) (k quot_ptr dividend_ptr : nat) (r : Z) : M Z :=
  match k with
  | O => mret r
  | S i =>
      n0 ← load (dividend_ptr + i);
      let '(q, r) := div r n0 in
      store (quot_ptr + i) q ;;
      divmod_plain div i quot_ptr dividend_ptr r
  end.

Fixpoint mod_shifted (div : Z → Z → Z * Z) (k dividend_ptr : nat) (steps n1 r : Z) : M Z :=
  match k with
  | O =>
      let '(_, r) := div r (wrap (Z.shiftl n1 steps)) in
      mret r
  | S i =>
      n0 ← load (dividend_ptr + i);
      let '(_, r) := div r (Z.lor (wrap (Z.shiftl n1 steps)) (Z.shiftr n0 (64 - steps))) in
      mod_shifted div i dividend_ptr steps n0 r
  end.

Fixpoint mod_plain (div : Z → Z → Z * Z) (k dividend_ptr : nat) (r : Z) : M Z :=
  match k with
  | O => mret r
  | S i =>
      n0 ← load (dividend_ptr + i);
      let '(_, r) := div r n0 in
      mod_plain div i dividend_ptr r
  end.

Section Times.
Context (UMUL_TIME UDIV_TIME : Z).

(** Is an inverse worth it? *)
Definition use_preinv (size : nat) : bool :=
  (2 * UMUL_TIME + 6 <? UDIV_TIME) && (UDIV_TIME <? (UDIV_TIME - (2 * UMUL_TIME + 6)) * Z.of_nat size).

(** Division by the normalised [d] on the two paths. *)
Definition divider (size : nat) (d : Z) : Z → Z → Z * Z :=
  if use_preinv size then let di := divisor_limb_inverted d in λ nh nl, udiv_qrnnd_preinv nh nl d di
  else λ nh nl, udiv_qrnnd nh nl d.

Definition mpn_divmod_1 (quot_ptr dividend_ptr dividend_size : nat) (divisor_limb : Z) : M Z :=
  if (dividend_size =? 0)%nat then mret 0 else
  let normalization_steps := count_leading_zeros divisor_limb in
  if negb (normalization_steps =? 0) then
    let divisor_limb := wrap (Z.shiftl divisor_limb normalization_steps) in
    n1 ← load (dividend_ptr + (dividend_size - 1));
    let r := Z.shiftr n1 (64 - normalization_steps) in
    r ← divmod_shifted (divider dividend_size divisor_limb) (dividend_size - 1) quot_ptr dividend_ptr normalization_steps n1 r;
    mret (Z.shiftr r normalization_steps)
  else
    r ← load (dividend_ptr + (dividend_size - 1));
    if divisor_limb <=? r then divmod_plain (divider dividend_size divisor_limb) dividend_size quot_ptr dividend_ptr 0
    else
      store (quot_ptr + (dividend_size - 1)) 0 ;;
      divmod_plain (divider dividend_size divisor_limb) (dividend_size - 1) quot_ptr dividend_ptr r.

Definition mpn_mod_1 (dividend_ptr dividend_size : nat) (divisor_limb : Z) : M Z :=
  if (dividend_size =? 0)%nat then mret 0 else
  let normalization_steps := count_leading_zeros divisor_limb in
  if negb (normalization_steps =? 0) then
    let divisor_limb := wrap (Z.shiftl divisor_limb normalization_steps) in
    n1 ← load (dividend_ptr + (dividend_size - 1));
    let r := Z.shiftr n1 (64 - normalization_steps) in
    r ← mod_shifted (divider dividend_size divisor_limb) (dividend_size - 1) dividend_ptr normalization_steps n1 r;
    mret (Z.shiftr r normalization_steps)
  else
    r ← load (dividend_ptr + (dividend_size - 1));
    if divisor_limb <=? r then mod_plain (divider dividend_size divisor_limb) dividend_size dividend_ptr 0
    else mod_plain (divider dividend_size divisor_limb) (dividend_size - 1) dividend_ptr r.
End Times.

(** ** Correctness of the macros *)

Lemma clz_tab_spec i : 0 < i < 256 → let b := default 0 (clz_tab !! Z.to_nat i) in 0 < b ∧ 2 ^ (b - 1) <= i < 2 ^ b.
Proof.
  intros Hi. assert (forallb (λ n, let i := Z.of_nat n in let b := default 0 (clz_tab !! n) in (0 <? b) && (2 ^ (b - 1) <=? i) && (i <? 2 ^ b)) (seq 1 255) = true) as H by by vm_compute.
  rewrite forallb_forall in H. specialize (H (Z.to_nat i)). rewrite in_seq, Z2Nat.id in H by lia. specialize (H ltac:(lia)). cbv beta zeta in *. rewrite !andb_true_iff, !Z.ltb_lt, Z.leb_le in H. lia.
Qed.

Lemma high_byte_spec k x : 0 < x < 2 ^ (8 * (Z.of_nat k + 1)) → 0 <= high_byte k x <= 8 * Z.of_nat k ∧ 0 < x / 2 ^ high_byte k x < 256.
Proof.
  induction k as [|k IH]; intros Hx. { cbn [high_byte]. change (2 ^ 0) with 1. rewrite Z.div_1_r. cbn in Hx. lia. }
  cbn [high_byte]. set (a := 8 * Z.of_nat (S k)) in *. rewrite Z.shiftr_div_pow2 by lia. change 255 with (Z.ones 8). rewrite Z.land_ones by lia. change (2 ^ 8) with 256.
  assert (0 <= x / 2 ^ a < 256) as Hd.
  { split; [apply Z.div_pos; lia|]. apply Z.div_lt_upper_bound; [lia|]. replace (2 ^ a * 256) with (2 ^ (a + 8)) by (rewrite Z.pow_add_r by lia; done). unfold a. replace (8 * Z.of_nat (S k) + 8) with (8 * (Z.of_nat (S k) + 1)) by lia. lia. }
  rewrite Z.mod_small by done. destruct (Z.eqb_spec (x / 2 ^ a) 0) as [E|E]; cbn [negb]; [|unfold a in *; lia].
  apply Z.div_small_iff in E; [|lia]. assert (x < 2 ^ a) as Hlt by (destruct E; lia). unfold a in Hlt. replace (8 * Z.of_nat (S k)) with (8 * (Z.of_nat k + 1)) in Hlt by lia. specialize (IH ltac:(lia)). lia.
Qed.

Lemma count_leading_zeros_spec x : 0 < x < B → 0 <= count_leading_zeros x < 64 ∧ normalised (x * 2 ^ count_leading_zeros x).
Proof.
  intros Hx. unfold count_leading_zeros. destruct (high_byte_spec 7 x Hx) as [Ha Hd]. set (a := high_byte 7 x) in *. rewrite Z.shiftr_div_pow2 by lia.
  pose proof (clz_tab_spec (x / 2 ^ a) Hd) as Hb. cbv zeta in Hb. set (b := default 0 (clz_tab !! Z.to_nat (x / 2 ^ a))) in *. clearbody a b.
  assert (b <= 8) as Hb8. { destruct (decide (b <= 8)); [done|]. assert (2 ^ 8 <= 2 ^ (b - 1)) by (apply Z.pow_le_mono_r; lia). lia. }
  assert (2 ^ a * 2 ^ (b - 1) <= x < 2 ^ a * 2 ^ b) as Hxb.
  { pose proof (Z.div_mod x (2 ^ a) ltac:(lia)). pose proof (Z.mod_pos_bound x (2 ^ a) ltac:(lia)). nia. }
  assert (0 < b + a) by lia. split; [cbn in Ha; lia|].
  assert (B = 2 * (2 ^ a * 2 ^ (b - 1)) * 2 ^ (64 - (b + a))) as E1.
  { change B with (2 ^ 64). change 2 with (2 ^ 1) at 2. rewrite <- !Z.pow_add_r by lia. f_equal. lia. }
  assert (2 ^ b = 2 * 2 ^ (b - 1)) as E2 by (rewrite <- Z.pow_succ_r by lia; f_equal; lia).
  assert (0 < 2 ^ (64 - (b + a))) by (apply Z.pow_pos_nonneg; lia). unfold normalised. nia.
Qed.

Lemma divisor_limb_inverted_spec d : normalised d → word (divisor_limb_inverted d) ∧ 0 <= B * B - (B + divisor_limb_inverted d) * d <= d.
Proof.
  intros Hd. unfold divisor_limb_inverted. rewrite Z.shiftl_mul_pow2 by lia. change (2 ^ 1) with 2. pose proof B_pos as HB. unfold normalised in Hd.
  rewrite wrap_over by lia. destruct (Z.eqb_spec (d * 2 - B) 0) as [E|E].
  - unfold word. split; [lia|]. nia.
  - rewrite wrap_under by lia. pose proof (udiv_qrnnd_spec (- d + B) 0 d Hd ltac:(lia) ltac:(done)) as H. destruct (udiv_qrnnd (- d + B) 0 d) as [q r]. destruct H as (Wq & Hr & Eq).
    cbn [fst]. split; [done|]. nia.
Qed.

Lemma pair_high h l : word h → word l → h ≠ 0 → B <= h * B + l.
Proof. unfold word. pose proof B_pos. nia. Qed.

Lemma udiv_qrnnd_preinv_spec nh nl d di :
  normalised d → 0 <= nh < d → word nl → word di → 0 <= B * B - (B + di) * d <= d →
  let '(q, r) := udiv_qrnnd_preinv nh nl d di in word q ∧ 0 <= r < d ∧ nh * B + nl = q * d + r.
Proof.
  intros Hd Hn Wl Wi Hi. unfold udiv_qrnnd_preinv. pose proof B_pos as HB. assert (word d) as Wd by (unfold normalised, word in *; lia). assert (word nh) as Wn by (unfold word in *; lia).
  pose proof (umul_ppmm_spec nh di Wn Wi) as H. destruct (umul_ppmm nh di) as [q0 ql]. destruct H as (Wq0 & Wql & E0).
  assert (0 <= (q0 + nh) * d <= nh * B) as Hqd. { split; [unfold word in *; nia|]. assert ((q0 + nh) * B * d <= nh * B * B) by (unfold word in *; nia). nia. }
  assert (nh * B - (q0 + nh) * d < 2 * d) as Hrem. { assert ((nh * B - (q0 + nh) * d) * B < 2 * d * B) by (unfold word in *; nia). nia. }
  assert (word (q0 + nh)) as Wq by (unfold word in *; nia). rewrite (wrap_id (q0 + nh)) by done. set (q := q0 + nh) in *. clearbody q. clear E0 Wql ql Wq0 q0.
  pose proof (umul_ppmm_spec q d Wq Wd) as H. destruct (umul_ppmm q d) as [xh xl]. destruct H as (Wxh & Wxl & E1).
  pose proof (sub_ddmmss_spec nh nl xh xl Wl Wxl) as H. destruct (sub_ddmmss nh nl xh xl) as [yh r0]. destruct H as (Wyh & Wr0 & E2).
  set (R := nh * B + nl - q * d). assert (0 <= R < B + 2 * d) as HR by (unfold R, word in *; lia).
  rewrite E1 in E2. fold R in E2. apply pair_exact in E2; [|done|done|unfold normalised, B in *; lia].
  assert (∀ k r', R = k * d + r' → 0 <= k <= 3 → 0 <= r' < d → word (wrap (q + k)) ∧ 0 <= r' < d ∧ nh * B + nl = wrap (q + k) * d + r') as Hfin.
  { intros k r' Ek Hk Hr'. assert (q + k < B) by (assert (nh * B <= (d - 1) * B) by (apply Z.mul_le_mono_nonneg_r; lia); apply (Z.mul_lt_mono_pos_r d); [lia|]; unfold R, word in *; lia). rewrite wrap_id by (unfold word in *; lia). unfold R, word in *. split_and!; lia. }
  assert (∀ k r', R = k * d + r' → 0 <= k <= 2 → 0 <= r' < B → let '(q', r'') := if d <=? r' then (wrap (wrap (q + k) + 1), wrap (r' - d)) else (wrap (q + k), r') in
    word q' ∧ 0 <= r'' < d ∧ nh * B + nl = q' * d + r'') as Hlast.
  { intros k r' Ek Hk Hr'. destruct (Z.leb_spec d r').
    - rewrite (wrap_id (r' - d)) by (unfold word, normalised in *; lia). assert (wrap (wrap (q + k) + 1) = wrap (q + (k + 1))) as -> by (unfold wrap, wrapu; rewrite Zplus_mod_idemp_l; f_equal; lia).
      apply Hfin; unfold normalised in *; lia.
    - apply Hfin; lia. }
  assert (wrap (q + 0) = q) as Eq0 by (rewrite Z.add_0_r; by apply wrap_id).
  destruct (Z.eqb_spec yh 0) as [->|Hy]; cbn [negb].
  { specialize (Hlast 0 r0 ltac:(lia) ltac:(lia) Wr0). rewrite Eq0 in Hlast. exact Hlast. }
  pose proof (pair_high yh r0 Wyh Wr0 Hy) as HRB. rewrite E2 in HRB.
  pose proof (sub_ddmmss_spec yh r0 0 d Wr0 Wd) as H. destruct (sub_ddmmss yh r0 0 d) as [zh r1]. destruct H as (Wzh & Wr1 & E3). rewrite E2 in E3.
  apply pair_exact in E3; [|done|done|unfold normalised, B in *; lia].
  destruct (Z.eqb_spec zh 0) as [->|Hz]; cbn [negb].
  { apply (Hlast 1 r1); [lia|lia|exact Wr1]. }
  pose proof (pair_high zh r1 Wzh Wr1 Hz) as HRB2. rewrite E3 in HRB2.
  pose proof (sub_ddmmss_spec zh r1 0 d Wr1 Wd) as H. destruct (sub_ddmmss zh r1 0 d) as [wh r2]. destruct H as (Wwh & Wr2 & E4). rewrite E3 in E4.
  apply pair_exact in E4; [|done|done|unfold normalised, B in *; lia].
  assert (wrap (wrap (q + 1) + 1) = wrap (q + 2)) as -> by (unfold wrap, wrapu; rewrite Zplus_mod_idemp_l; f_equal; lia).
  apply (Hlast 2 r2); [|lia|exact Wr2]. destruct (decide (wh = 0)) as [->|Hw]; [lia|]. pose proof (pair_high wh r2 Wwh Wr2 Hw). unfold word, normalised in *. lia.
Qed.

(** ** Correctness of the functions *)

(** A division of two words by [d]. *)
Definition divides_by (d : Z) (div : Z → Z → Z * Z) : Prop := ∀ nh nl,
  0 <= nh < d → word nl → let '(q, r) := div nh nl in word q ∧ 0 <= r < d ∧ nh * B + nl = q * d + r.

Lemma divider_spec umul udiv size d : normalised d → divides_by d (divider umul udiv size d).
Proof.
  intros Hd nh nl Hn Wl. unfold divider. destruct (use_preinv umul udiv size); [|by apply udiv_qrnnd_spec].
  destruct (divisor_limb_inverted_spec d Hd). by apply udiv_qrnnd_preinv_spec.
Qed.

Lemma divmod_plain_spec div d k qp np r m :
  divides_by d div → wf m → 0 <= r < d → (qp + k <= length m)%nat → (np + k <= length m)%nat → (qp + k <= np ∨ np <= qp)%nat →
  ∃ r' m', divmod_plain div k qp np r m = Val (r', m') ∧ frame (range qp k) m m' ∧ wf m' ∧ 0 <= r' < d ∧
    r * B ^ Z.of_nat k + V m np k = V m' qp k * d + r'.
Proof.
  intros Hdiv. revert r m. induction k as [|i IH]; intros r m Hm Hr Hq Hp Ho; cbn [divmod_plain].
  { exists r, m. split_and!; try done; try lia. cbn. lia. }
  destruct (limb_at m (np + i)) as [n0 E0]; [lia|]. rewrite (load_bind _ _ _ _ E0).
  pose proof (Hdiv r n0 Hr (wf_lookup _ _ _ Hm E0)) as H. destruct (div r n0) as [q r1]. destruct H as (Wq & Hr1 & E).
  rewrite store_bind by lia. destruct (IH r1 (<[(qp + i)%nat := q]> m)) as (r' & m' & -> & Hf & Hw & Hr' & HV); [by apply wf_insert|done|places..|].
  exists r', m'. split; [done|]. split.
  { eapply frame_trans; [apply (frame_insert _ m (qp + i)); places|eapply frame_weaken; [exact Hf|places]]. }
  split_and!; try done; try lia. rewrite V_insert in HV by places. rewrite !V_top, E0, (frame_lookup _ _ _ _ Hf), list_lookup_insert_eq by places.
  cbn [default from_option id]. rewrite pow_S. nia.
Qed.

Lemma divmod_shifted_spec div d k qp np s n1 r m :
  divides_by d div → 0 < s < 64 → wf m → word n1 → 0 <= r < d → (qp + S k <= length m)%nat → (np + k <= length m)%nat → (qp + S k <= np ∨ np <= qp)%nat →
  ∃ r' m', divmod_shifted div k qp np s n1 r m = Val (r', m') ∧ frame (range qp (S k)) m m' ∧ wf m' ∧ 0 <= r' < d ∧
    r * B ^ Z.of_nat (S k) + wrap (Z.shiftl n1 s) * B ^ Z.of_nat k + V m np k * 2 ^ s = V m' qp (S k) * d + r'.
Proof.
  intros Hdiv Hs. revert n1 r m. induction k as [|i IH]; intros n1 r m Hm W1 Hr Hq Hp Ho; cbn [divmod_shifted].
  { pose proof (Hdiv r (wrap (Z.shiftl n1 s)) Hr (wrap_word _)) as H. destruct (div r (wrap (Z.shiftl n1 s))) as [q r1]. destruct H as (Wq & Hr1 & E).
    rewrite store_bind by lia. exists r1, (<[qp := q]> m). split; [done|]. split; [apply frame_insert; places|]. split; [by apply wf_insert|]. split; [done|].
    rewrite (V_cons _ _ _ q) by (apply list_lookup_insert_eq; lia). cbn [V]. change (B ^ Z.of_nat 1) with B. change (B ^ Z.of_nat 0) with 1. lia. }
  destruct (limb_at m (np + i)) as [n0 E0]; [lia|]. rewrite (load_bind _ _ _ _ E0). pose proof (wf_lookup _ _ _ Hm E0) as W0.
  destruct (shift_parts n1 s W1 Hs) as (ah & al & _ & A2 & A3 & A4 & _). destruct (shift_parts n0 s W0 Hs) as (bh & bl & C1 & C2 & C3 & C4 & C5).
  assert (B = 2 ^ (64 - s) * 2 ^ s) as EB by (rewrite <- Z.pow_add_r by lia; by replace (64 - s + s) with 64 by lia).
  rewrite A2, C1, lor_low by lia. pose proof (Hdiv r (al * 2 ^ s + bh) Hr ltac:(unfold word; nia)) as H. destruct (div r (al * 2 ^ s + bh)) as [q r1]. destruct H as (Wq & Hr1 & E).
  rewrite store_bind by lia. destruct (IH n0 r1 (<[(qp + S i)%nat := q]> m)) as (r' & m' & -> & Hf & Hw & Hr' & HV); [by apply wf_insert|done|done|places..|].
  exists r', m'. split; [done|]. split.
  { eapply frame_trans; [apply (frame_insert _ m (qp + S i)); places|eapply frame_weaken; [exact Hf|places]]. }
  split_and!; try done; try lia. rewrite V_insert in HV by places. rewrite (V_top m' qp (S i)), (V_top m np i), E0, (frame_lookup _ _ _ _ Hf), list_lookup_insert_eq by places.
  cbn [default from_option id]. rewrite C2 in HV. rewrite (pow_S (S i)).
  transitivity ((r * B + (al * 2 ^ s + bh)) * B ^ Z.of_nat (S i) + (n0 * 2 ^ s - B * bh) * B ^ Z.of_nat i + V m np i * 2 ^ s); [rewrite (pow_S i); ring|].
  rewrite E, C5. transitivity (q * d * B ^ Z.of_nat (S i) + (r1 * B ^ Z.of_nat (S i) + bl * 2 ^ s * B ^ Z.of_nat i + V m np i * 2 ^ s)); [ring|]. rewrite HV. ring.
Qed.

(** The remainder of the shifted dividend by the shifted divisor. *)
Lemma shift_back v q d s r : 0 <= s → v * 2 ^ s = q * (d * 2 ^ s) + r → 0 <= r < d * 2 ^ s → v = q * d + Z.shiftr r s ∧ 0 <= Z.shiftr r s < d.
Proof.
  intros Hs E Hr. rewrite Z.shiftr_div_pow2 by done. assert (0 < 2 ^ s) by lia. assert (r = (v - q * d) * 2 ^ s) as Er by lia.
  rewrite Er, Z.div_mul by lia. rewrite Er in Hr. split; [lia|]. nia.
Qed.

(** The first limb of a shifted dividend. *)
Lemma shift_start m np n s n1 d :
  wf m → (0 < n)%nat → m !! (np + (n - 1))%nat = Some n1 → 0 < s < 64 → normalised (d * 2 ^ s) → 0 < d →
  0 <= Z.shiftr n1 (64 - s) < d * 2 ^ s ∧
  Z.shiftr n1 (64 - s) * B ^ Z.of_nat (S (n - 1)) + wrap (Z.shiftl n1 s) * B ^ Z.of_nat (n - 1) + V m np (n - 1) * 2 ^ s = V m np n * 2 ^ s.
Proof.
  intros Hm Hn E Hs Hd Hd0. destruct (shift_parts n1 s (wf_lookup _ _ _ Hm E) Hs) as (h & l & E1 & E2 & B1 & B2 & E3). rewrite E1, E2.
  split; [nia|]. replace (V m np n) with (V m np (S (n - 1))) by (f_equal; lia). rewrite V_top, E, pow_S. cbn [default from_option id].
  transitivity (V m np (n - 1) * 2 ^ s + (B * h + l * 2 ^ s) * B ^ Z.of_nat (n - 1)); [ring|]. rewrite <- E3. ring.
Qed.

(** Whatever the instruction times, and so on the path that multiplies by
    an inverse as on the one that divides, mpn_divmod_1 gives the exact
    quotient and remainder by any limb that is not zero, in place or apart, and
    changes nothing but the quotient. *)
Theorem mpn_divmod_1_correct UMUL_TIME UDIV_TIME quot_ptr dividend_ptr dividend_size divisor_limb m :
  wf m → 0 < divisor_limb < B → (quot_ptr + dividend_size <= length m)%nat → (dividend_ptr + dividend_size <= length m)%nat →
  (quot_ptr + dividend_size <= dividend_ptr ∨ dividend_ptr <= quot_ptr)%nat →
  ∃ r m', mpn_divmod_1 UMUL_TIME UDIV_TIME quot_ptr dividend_ptr dividend_size divisor_limb m = Val (r, m') ∧
    frame (range quot_ptr dividend_size) m m' ∧ wf m' ∧ 0 <= r < divisor_limb ∧
    V m dividend_ptr dividend_size = V m' quot_ptr dividend_size * divisor_limb + r.
Proof.
  intros Hm Hd Hq Hn Ho. unfold mpn_divmod_1. destruct (Nat.eqb_spec dividend_size 0) as [->|H0]; [exists 0, m; split_and!; try done; lia|].
  destruct (count_leading_zeros_spec divisor_limb Hd) as [Hs Hnorm]. set (s := count_leading_zeros divisor_limb) in *. clearbody s. cbv zeta.
  destruct (limb_at m (dividend_ptr + (dividend_size - 1))) as [n1 E1]; [lia|]. pose proof (wf_lookup _ _ _ Hm E1) as W1.
  destruct (Z.eqb_spec s 0) as [->|Hs0]; cbn [negb]; rewrite (load_bind _ _ _ _ E1).
  - rewrite Z.mul_1_r in Hnorm. pose proof (divider_spec UMUL_TIME UDIV_TIME dividend_size divisor_limb Hnorm) as Hdiv. destruct (Z.leb_spec divisor_limb n1) as [Hle|Hlt].
    + destruct (divmod_plain_spec _ divisor_limb dividend_size quot_ptr dividend_ptr 0 m Hdiv) as (r & m' & -> & Hf & Hw & Hr & HV); try done; [lia|]. exists r, m'. split_and!; try done; lia.
    + rewrite store_bind by lia. set (m0 := <[(quot_ptr + (dividend_size - 1))%nat := 0]> m).
      destruct (divmod_plain_spec _ divisor_limb (dividend_size - 1) quot_ptr dividend_ptr n1 m0 Hdiv) as (r & m' & -> & Hf & Hw & Hr & HV);
        [by apply wf_insert|unfold word in *; lia|unfold m0; places..|].
      exists r, m'. split; [done|]. split; [eapply frame_trans; [apply (frame_insert _ m (quot_ptr + (dividend_size - 1))); places|eapply frame_weaken; [exact Hf|places]]|]. split_and!; try done; try lia.
      unfold m0 in HV. rewrite V_insert in HV by places. rewrite <- (Nat.sub_add 1 dividend_size), Nat.add_1_r by lia. rewrite !V_top, E1, (frame_lookup _ _ _ _ Hf) by places.
      unfold m0. rewrite list_lookup_insert_eq by lia. cbn [default from_option id]. lia.
  - assert (wrap (Z.shiftl divisor_limb s) = divisor_limb * 2 ^ s) as -> by (rewrite Z.shiftl_mul_pow2 by lia; apply wrap_id; unfold word, normalised in *; lia).
    pose proof (divider_spec UMUL_TIME UDIV_TIME dividend_size (divisor_limb * 2 ^ s) Hnorm) as Hdiv.
    destruct (shift_start m dividend_ptr dividend_size s n1 divisor_limb) as [Hr0 Hst]; try done; [lia..|].
    destruct (divmod_shifted_spec _ (divisor_limb * 2 ^ s) (dividend_size - 1) quot_ptr dividend_ptr s n1 (Z.shiftr n1 (64 - s)) m Hdiv) as (r & m' & E & Hf & Hw & Hr & HV); try done; [lia..|].
    rewrite Hst in HV. rewrite (step_bind _ _ _ _ _ E). replace (S (dividend_size - 1)) with dividend_size in * by lia.
    destruct (shift_back _ _ _ s r ltac:(lia) HV Hr) as [HV' Hr']. exists (Z.shiftr r s), m'. split_and!; try done; lia.
Qed.

Lemma mod_plain_spec div d k np r m :
  divides_by d div → wf m → 0 <= r < d → (np + k <= length m)%nat →
  ∃ q r', mod_plain div k np r m = Val (r', m) ∧ 0 <= r' < d ∧ r * B ^ Z.of_nat k + V m np k = q * d + r'.
Proof.
  intros Hdiv Hm. revert r. induction k as [|i IH]; intros r Hr Hp; cbn [mod_plain].
  { exists 0, r. split_and!; try done; try lia. cbn. lia. }
  destruct (limb_at m (np + i)) as [n0 E0]; [lia|]. rewrite (load_bind _ _ _ _ E0).
  pose proof (Hdiv r n0 Hr (wf_lookup _ _ _ Hm E0)) as H. destruct (div r n0) as [q r1]. destruct H as (Wq & Hr1 & E).
  destruct (IH r1) as (q' & r' & -> & Hr' & HV); [done|lia|]. exists (q * B ^ Z.of_nat i + q'), r'. split_and!; try done; try lia.
  rewrite V_top, E0, pow_S. cbn [default from_option id]. nia.
Qed.

Lemma mod_shifted_spec div d k np s n1 r m :
  divides_by d div → 0 < s < 64 → wf m → word n1 → 0 <= r < d → (np + k <= length m)%nat →
  ∃ q r', mod_shifted div k np s n1 r m = Val (r', m) ∧ 0 <= r' < d ∧
    r * B ^ Z.of_nat (S k) + wrap (Z.shiftl n1 s) * B ^ Z.of_nat k + V m np k * 2 ^ s = q * d + r'.
Proof.
  intros Hdiv Hs Hm. revert n1 r. induction k as [|i IH]; intros n1 r W1 Hr Hp; cbn [mod_shifted].
  { pose proof (Hdiv r (wrap (Z.shiftl n1 s)) Hr (wrap_word _)) as H. destruct (div r (wrap (Z.shiftl n1 s))) as [q r1]. destruct H as (Wq & Hr1 & E).
    exists q, r1. split_and!; try done; try lia. cbn [V]. change (B ^ Z.of_nat 1) with B. change (B ^ Z.of_nat 0) with 1. lia. }
  destruct (limb_at m (np + i)) as [n0 E0]; [lia|]. rewrite (load_bind _ _ _ _ E0). pose proof (wf_lookup _ _ _ Hm E0) as W0.
  destruct (shift_parts n1 s W1 Hs) as (ah & al & _ & A2 & A3 & A4 & _). destruct (shift_parts n0 s W0 Hs) as (bh & bl & C1 & C2 & C3 & C4 & C5).
  assert (B = 2 ^ (64 - s) * 2 ^ s) as EB by (rewrite <- Z.pow_add_r by lia; by replace (64 - s + s) with 64 by lia).
  rewrite A2, C1, lor_low by lia. pose proof (Hdiv r (al * 2 ^ s + bh) Hr ltac:(unfold word; nia)) as H. destruct (div r (al * 2 ^ s + bh)) as [q r1]. destruct H as (Wq & Hr1 & E).
  destruct (IH n0 r1) as (q' & r' & -> & Hr' & HV); [done|done|lia|]. exists (q * B ^ Z.of_nat (S i) + q'), r'. split_and!; try done; try lia.
  rewrite (V_top m np i), E0. cbn [default from_option id]. rewrite C2 in HV. rewrite (pow_S (S i)).
  transitivity ((r * B + (al * 2 ^ s + bh)) * B ^ Z.of_nat (S i) + (n0 * 2 ^ s - B * bh) * B ^ Z.of_nat i + V m np i * 2 ^ s); [rewrite (pow_S i); ring|].
  rewrite E, C5. transitivity (q * d * B ^ Z.of_nat (S i) + (r1 * B ^ Z.of_nat (S i) + bl * 2 ^ s * B ^ Z.of_nat i + V m np i * 2 ^ s)); [ring|]. rewrite HV. ring.
Qed.

(** [mpn_mod_1] returns the remainder and changes nothing. *)
Theorem mpn_mod_1_correct UMUL_TIME UDIV_TIME dividend_ptr dividend_size divisor_limb m :
  wf m → 0 < divisor_limb < B → (dividend_ptr + dividend_size <= length m)%nat →
  mpn_mod_1 UMUL_TIME UDIV_TIME dividend_ptr dividend_size divisor_limb m = Val (V m dividend_ptr dividend_size mod divisor_limb, m).
Proof.
  intros Hm Hd Hn. unfold mpn_mod_1. destruct (Nat.eqb_spec dividend_size 0) as [->|H0]; [by rewrite Zmod_0_l|].
  destruct (count_leading_zeros_spec divisor_limb Hd) as [Hs Hnorm]. set (s := count_leading_zeros divisor_limb) in *. clearbody s. cbv zeta.
  destruct (limb_at m (dividend_ptr + (dividend_size - 1))) as [n1 E1]; [lia|]. pose proof (wf_lookup _ _ _ Hm E1) as W1.
  destruct (Z.eqb_spec s 0) as [->|Hs0]; cbn [negb]; rewrite (load_bind _ _ _ _ E1).
  - rewrite Z.mul_1_r in Hnorm. pose proof (divider_spec UMUL_TIME UDIV_TIME dividend_size divisor_limb Hnorm) as Hdiv. destruct (Z.leb_spec divisor_limb n1) as [Hle|Hlt].
    + destruct (mod_plain_spec _ divisor_limb dividend_size dividend_ptr 0 m Hdiv) as (q & r & -> & Hr & HV); try done; [lia|]. do 2 f_equal. apply Z.mod_unique with q; lia.
    + destruct (mod_plain_spec _ divisor_limb (dividend_size - 1) dividend_ptr n1 m Hdiv) as (q & r & -> & Hr & HV); [done|unfold word in *; lia|lia|].
      do 2 f_equal. apply Z.mod_unique with q; [lia|]. rewrite <- (Nat.sub_add 1 dividend_size), Nat.add_1_r by lia. rewrite V_top, E1. cbn [default from_option id]. lia.
  - assert (wrap (Z.shiftl divisor_limb s) = divisor_limb * 2 ^ s) as -> by (rewrite Z.shiftl_mul_pow2 by lia; apply wrap_id; unfold word, normalised in *; lia).
    pose proof (divider_spec UMUL_TIME UDIV_TIME dividend_size (divisor_limb * 2 ^ s) Hnorm) as Hdiv.
    destruct (shift_start m dividend_ptr dividend_size s n1 divisor_limb) as [Hr0 Hst]; try done; [lia..|].
    destruct (mod_shifted_spec _ (divisor_limb * 2 ^ s) (dividend_size - 1) dividend_ptr s n1 (Z.shiftr n1 (64 - s)) m Hdiv) as (q & r & E & Hr & HV); try done; [lia..|].
    rewrite Hst in HV. rewrite (step_bind _ _ _ _ _ E). destruct (shift_back _ _ _ s r ltac:(lia) HV Hr) as [HV' Hr'].
    unfold mret, M_ret. do 2 f_equal. apply Z.mod_unique with q; lia.
Qed.

Lemma mpn_divmod_1_correct_witness :
  use_preinv 1 100 2 = true ∧
  ∃ r m', mpn_divmod_1 1 100 0 2 2 10 [0; 0; 5; 6] = Val (r, m') ∧ frame (range 0 2) [0; 0; 5; 6] m' ∧ wf m' ∧ 0 <= r < 10 ∧
    V [0; 0; 5; 6] 2 2 = V m' 0 2 * 10 + r.
Proof.
  split; [done|]. apply (mpn_divmod_1_correct 1 100 0 2 2 10 [0; 0; 5; 6]); [repeat constructor; by vm_compute|done|cbn; lia..].
Defined.
End MpnDiv1.
