(* ===== verification/Xdr.v ===== *)
(** * External data representation: the filters of [sunrpc/xdr.c]

    [xdr.c], [xdr_array.c], [xdr_ref.c] and [xdr_intXX_t.c]: one function per
    type encodes, decodes or frees an object, as the operation of the stream
    says.  The streams are those of any implementation of [struct xdr_ops],
    a class here.  An object is a value that the filter reads and replaces; a
    pointer to storage is [None] or the contents of its block, which no other
    pointer of the object shares.  The allocator may refuse any request, and
    the number of blocks that are allocated is counted. *)

From S2P Require Import Prelude.
Local Open Scope Z_scope.

Module Xdr.

Inductive xdr_op : Type := XDR_ENCODE | XDR_DECODE | XDR_FREE.

#[export] Instance xdr_op_eq_dec : EqDecision xdr_op.
Proof. solve_decision. Defined.

(** [struct xdr_ops]; a get that fails returns [None], a put [false]. *)
Class XdrOps (strm : Type) : Type := {
  x_getlong : strm → outcome (option Z * strm);
  x_putlong : Z → strm → outcome (bool * strm);
  x_getbytes : nat → strm → outcome (option (list Z) * strm);
  x_putbytes : list Z → strm → outcome (bool * strm);
  x_getint32 : strm → outcome (option Z * strm);
  x_putint32 : Z → strm → outcome (bool * strm);
}.

(** The answers of the allocator to come, and the blocks allocated. *)
Record host : Type := Host { answers : list bool; live : Z }.

Section Filters.
Context {strm : Type} `{XdrOps strm} (junk : nat → Z).

Definition X (A : Type) : Type := strm * host → outcome (A * (strm * host)).
#[export] Instance X_ret : MRet X := λ A a st, Val (a, st).
#[export] Instance X_bind : MBind X := λ A B f c st,
  match c st with
  | Val (a, st) => f a st
  | Fault => Fault
  | NoFuel => NoFuel
  end.

Definition on_stream {A : Type} (f : strm → outcome (A * strm)) : X A := λ '(s, h),
  match f s with
  | Val (a, s) => Val (a, (s, h))
  | Fault => Fault
  | NoFuel => NoFuel
  end.
Definition xfault {A : Type} : X A := λ _, Fault.

(** [mem_alloc], [calloc] and [mem_free]. *)
Definition mem_alloc : X bool := λ '(s, h),
  match answers h with
  | b :: l => Val (b, (s, Host l (if b then live h + 1 else live h)))
  | [] => Val (true, (s, Host [] (live h + 1)))
  end.
Definition mem_free : X unit := λ '(s, h), Val (tt, (s, Host (answers h) (live h - 1))).

(** [bool_t f (XDR *, A * )]: the value and the object afterwards. *)
Definition filter (A : Type) : Type := xdr_op → A → X (bool * A).

(** The storage of an object that was decoded. *)
Definition xdr_free {A : Type} (proc : filter A) (objp : A) : X A :=
  '(_, objp) ← proc XDR_FREE objp; mret objp.

(** ** Numbers *)

Definition putlong (l : Z) : X bool := on_stream (x_putlong l).
Definition getlong : X (option Z) := on_stream x_getlong.
Definition putint32 (l : Z) : X bool := on_stream (x_putint32 l).
Definition getint32 : X (option Z) := on_stream x_getint32.

(** A number that is put as the word [out v]; [got l] is the value of the
    word [l] that was got. *)
Definition number (put : Z → X bool) (get : X (option Z)) (out got : Z → Z) : filter Z := λ op v,
  match op with
  | XDR_ENCODE => b ← put (out v); mret (b, v)
  | XDR_DECODE =>
      o ← get;
      match o with
      | None => mret (false, v)
      | Some l => mret (true, got l)
      end
  | XDR_FREE => mret (true, v)
  end.

Definition by_long : (Z → Z) → (Z → Z) → filter Z := number putlong getlong.
Definition by_int32 : (Z → Z) → (Z → Z) → filter Z := number putint32 getint32.

Definition xdr_void : filter unit := λ _ _, mret (true, tt).
Definition xdr_int : filter Z := by_long (λ v, v) (wraps 32).
Definition xdr_u_int : filter Z := by_long (λ v, v) (wrapu 32).

Definition xdr_long : filter Z := λ op v,
  match op with
  | XDR_ENCODE => if wraps 32 v =? v then by_long (λ v, v) (λ l, l) op v else mret (false, v)
  | _ => by_long (λ v, v) (λ l, l) op v
  end.

Definition xdr_u_long : filter Z := λ op v,
  match op with
  | XDR_ENCODE => if negb (wrapu 32 v =? v) then mret (false, v) else by_long (λ v, v) (wrapu 32) op v
  | _ => by_long (λ v, v) (wrapu 32) op v
  end.

(** Two longs, the high one first; [join] puts together what was got. *)
Definition two (put : Z → X bool) (get : X (option Z)) (high low : Z → Z) (join : Z → Z → Z) : filter Z := λ op v,
  match op with
  | XDR_ENCODE =>
      b ← put (high v);
      if b : bool then b ← put (low v); mret (b, v) else mret (false, v)
  | XDR_DECODE =>
      o ← get;
      match o with
      | None => mret (false, v)
      | Some t1 =>
          o ← get;
          match o with
          | None => mret (false, v)
          | Some t2 => mret (true, join t1 t2)
          end
      end
  | XDR_FREE => mret (true, v)
  end.

Definition xdr_hyper : filter Z :=
  two putlong getlong (λ v, Z.shiftr v 32) (λ v, v)
    (λ t1 t2, wraps 64 (Z.lor (wraps 64 (Z.shiftl t1 32)) (wrapu 32 t2))).
Definition xdr_u_hyper : filter Z :=
  two putlong getlong (λ v, Z.shiftr v 32) (λ v, wraps 64 v)
    (λ t1 t2, Z.lor (wrapu 64 (Z.shiftl t1 32)) (wrapu 32 t2)).
Definition xdr_longlong_t : filter Z := xdr_hyper.
Definition xdr_u_longlong_t : filter Z := xdr_u_hyper.

Definition xdr_short : filter Z := by_long (λ v, v) (wraps 16).
Definition xdr_u_short : filter Z := by_long (λ v, v) (wrapu 16).

Definition xdr_char : filter Z := λ op cp,
  '(b, i) ← xdr_int op cp;
  if negb b then mret (false, cp) else mret (true, wraps 8 i).
Definition xdr_u_char : filter Z := λ op cp,
  '(b, u) ← xdr_u_int op cp;
  if negb b then mret (false, cp) else mret (true, wrapu 8 u).

Definition xdr_bool : filter Z := by_long (λ v, if v =? 0 then 0 else 1) (λ l, if l =? 0 then 0 else 1).
Definition xdr_enum : filter Z := by_long (λ v, v) (wraps 32).

Definition xdr_int64_t : filter Z :=
  two putint32 getint32 (λ v, wraps 32 (Z.shiftr v 32)) (λ v, wraps 32 v)
    (λ t1 t2, wraps 64 (Z.lor (wraps 64 (Z.shiftl t1 32)) (wrapu 32 t2))).
Definition xdr_uint64_t : filter Z :=
  two putint32 getint32 (λ v, wraps 32 (Z.shiftr v 32)) (λ v, wraps 32 v)
    (λ t1 t2, Z.lor (wrapu 64 (Z.shiftl (wrapu 32 t1) 32)) (wrapu 32 t2)).
Definition xdr_quad_t : filter Z := xdr_int64_t.
Definition xdr_u_quad_t : filter Z := xdr_uint64_t.
Definition xdr_int32_t : filter Z := by_int32 (λ v, v) (λ l, l).
Definition xdr_uint32_t : filter Z := by_int32 (wraps 32) (wrapu 32).
Definition xdr_int16_t : filter Z := by_int32 (λ v, v) (wraps 16).
Definition xdr_uint16_t : filter Z := by_int32 (λ v, v) (wrapu 16).
Definition xdr_int8_t : filter Z := by_int32 (λ v, v) (wraps 8).
Definition xdr_uint8_t : filter Z := by_int32 (λ v, v) (wrapu 8).

(** ** Bytes *)

(** The bytes that fill the last unit. *)
Definition rndup_of (cnt : Z) : Z := let rndup := cnt mod 4 in if 0 <? rndup then 4 - rndup else rndup.

(** [cp] is the object that is read or written. *)
Definition xdr_opaque (cnt : Z) : filter (list Z) := λ op cp,
  if cnt =? 0 then mret (true, cp) else
  let n := Z.to_nat cnt in
  let rndup := rndup_of cnt in
  match op with
  | XDR_DECODE =>
      if (length cp <? n)%nat then xfault else
      o ← on_stream (x_getbytes n);
      match o with
      | None => mret (false, cp)
      | Some bs =>
          let cp := bs ++ drop n cp in
          if rndup =? 0 then mret (true, cp) else
          o ← on_stream (x_getbytes (Z.to_nat rndup));
          mret (bool_decide (is_Some o), cp)
      end
  | XDR_ENCODE =>
      if (length cp <? n)%nat then xfault else
      b ← on_stream (x_putbytes (take n cp));
      if negb b then mret (false, cp) else
      if rndup =? 0 then mret (true, cp) else
      b ← on_stream (x_putbytes (replicate (Z.to_nat rndup) 0));
      mret (b, cp)
  | XDR_FREE => mret (true, cp)
  end.

(** Storage of [n] bytes, if the pointer is null. *)
Definition storage (n : Z) (sp : option (list Z)) : X (option (list Z)) :=
  match sp with
  | Some _ => mret sp
  | None => b ← mem_alloc; mret (if b : bool then Some (junk <$> seq 0 (Z.to_nat n)) else None)
  end.

(** [*cpp] and [*sizep]. *)
Definition xdr_bytes (maxsize : Z) : filter (option (list Z) * Z) := λ op '(sp, size),
  '(b, size) ← xdr_u_int op size;
  if negb b then mret (false, (sp, size)) else
  let nodesize := size in
  if (maxsize <? nodesize) && negb (bool_decide (op = XDR_FREE)) then mret (false, (sp, size)) else
  match op with
  | XDR_DECODE =>
      if nodesize =? 0 then mret (true, (sp, size)) else
      sp ← storage nodesize sp;
      match sp with
      | None => mret (false, (None, size))
      | Some cp => '(b, cp) ← xdr_opaque nodesize op cp; mret (b, (Some cp, size))
      end
  | XDR_ENCODE =>
      match sp with
      | None => if nodesize =? 0 then mret (true, (None, size)) else xfault
      | Some cp => '(b, cp) ← xdr_opaque nodesize op cp; mret (b, (Some cp, size))
      end
  | XDR_FREE =>
      match sp with
      | None => mret (true, (None, size))
      | Some _ => mem_free ;; mret (true, (None, size))
      end
  end.

Definition MAX_NETOBJ_SZ : Z := 1024.
Definition xdr_netobj : filter (option (list Z) * Z) := xdr_bytes MAX_NETOBJ_SZ.

(** The index of the first NUL. *)
Fixpoint strlen (l : list Z) : option Z :=
  match l with
  | [] => None
  | c :: l => if c =? 0 then Some 0 else n ← strlen l; Some (n + 1)
  end.

Definition LASTUNSIGNED : Z := 4294967295.

Definition xdr_string (maxsize : Z) : filter (option (list Z)) := λ op sp,
  match op, sp with
  | XDR_FREE, None => mret (true, None)
  | XDR_ENCODE, None => mret (false, None)
  | _, _ =>
      size ←
        (match op, sp with
         | XDR_DECODE, _ | _, None => mret 0
         | _, Some l => match strlen l with Some n => mret (wrapu 32 n) | None => xfault end
         end);
      '(b, size) ← xdr_u_int op size;
      if negb b then mret (false, sp) else
      if maxsize <? size then mret (false, sp) else
      let nodesize := wrapu 32 (size + 1) in
      if nodesize =? 0 then mret (false, sp) else
      match op with
      | XDR_DECODE =>
          sp ← storage nodesize sp;
          match sp with
          | None => mret (false, None)
          | Some cp =>
              if (length cp <=? Z.to_nat size)%nat then xfault else
              '(b, cp) ← xdr_opaque size op (<[Z.to_nat size := 0]> cp);
              mret (b, Some cp)
          end
      | XDR_ENCODE =>
          match sp with
          | None => xfault
          | Some cp => '(b, cp) ← xdr_opaque size op cp; mret (b, Some cp)
          end
      | XDR_FREE => mem_free ;; mret (true, None)
      end
  end.

Definition xdr_wrapstring : filter (option (list Z)) := λ op sp,
  '(b, sp) ← xdr_string LASTUNSIGNED op sp;
  mret (b, sp).

(** ** Unions, arrays and pointers *)

Fixpoint find_choice {U : Type} (choices : list (Z * filter U)) (dfault : option (filter U)) (dscm : Z) : option (filter U) :=
  match choices with
  | [] => dfault
  | (value, proc) :: choices => if value =? dscm then Some proc else find_choice choices dfault dscm
  end.

Definition xdr_union {U : Type} (choices : list (Z * filter U)) (dfault : option (filter U)) : filter (Z * U) := λ op '(dscm, un),
  '(b, dscm) ← xdr_enum op dscm;
  if negb b then mret (false, (dscm, un)) else
  match find_choice choices dfault dscm with
  | None => mret (false, (dscm, un))
  | Some proc => '(b, un) ← proc op un; mret (b, (dscm, un))
  end.

(** [elproc] on the first [c] elements while it succeeds. *)
Fixpoint xdr_elems {A : Type} (elproc : filter A) (op : xdr_op) (c : nat) (l : list A) : X (bool * list A) :=
  match c with
  | O => mret (true, l)
  | S c =>
      match l with
      | [] => xfault
      | a :: l =>
          '(stat, a) ← elproc op a;
          if negb stat then mret (false, a :: l) else
          '(stat, l) ← xdr_elems elproc op c l;
          mret (stat, a :: l)
      end
  end.

(** [zero] is an element whose bytes are all zero, as [calloc] leaves it. *)
Definition xdr_array {A : Type} (maxsize elsize : Z) (elproc : filter A) (zero : A) : filter (option (list A) * Z) := λ op '(target, size),
  '(b, size) ← xdr_u_int op size;
  if negb b then mret (false, (target, size)) else
  let c := size in
  if elsize =? 0 then xfault else
  if ((maxsize <? c) || (LASTUNSIGNED / elsize <? c)) && negb (bool_decide (op = XDR_FREE)) then mret (false, (target, size)) else
  match target, op with
  | None, XDR_DECODE =>
      if c =? 0 then mret (true, (None, size)) else
      b ← mem_alloc;
      if negb b then mret (false, (None, size)) else
      '(stat, l) ← xdr_elems elproc op (Z.to_nat c) (replicate (Z.to_nat c) zero);
      mret (stat, (Some l, size))
  | None, XDR_FREE => mret (true, (None, size))
  | None, XDR_ENCODE => if c =? 0 then mret (true, (None, size)) else xfault
  | Some l, XDR_FREE =>
      '(stat, _) ← xdr_elems elproc op (Z.to_nat c) l;
      mem_free ;;
      mret (stat, (None, size))
  | Some l, _ =>
      '(stat, l) ← xdr_elems elproc op (Z.to_nat c) l;
      mret (stat, (Some l, size))
  end.

Definition xdr_vector {A : Type} (nelem : nat) (xdr_elem : filter A) : filter (list A) := λ op l, xdr_elems xdr_elem op nelem l.

(** A procedure that is given a null object dereferences it. *)
Definition xdr_reference {A : Type} (proc : filter A) (zero : A) : filter (option A) := λ op loc,
  match loc, op with
  | None, XDR_FREE => mret (true, None)
  | None, XDR_DECODE =>
      b ← mem_alloc;
      if negb b then mret (false, None) else
      '(stat, a) ← proc op zero;
      mret (stat, Some a)
  | None, XDR_ENCODE => xfault
  | Some a, XDR_FREE =>
      '(stat, _) ← proc op a;
      mem_free ;;
      mret (stat, None)
  | Some a, _ =>
      '(stat, a) ← proc op a;
      mret (stat, Some a)
  end.

Definition xdr_pointer {A : Type} (xdr_obj : filter A) (zero : A) : filter (option A) := λ op objp,
  '(b, more_data) ← xdr_bool op (if bool_decide (is_Some objp) then 1 else 0);
  if negb b then mret (false, objp) else
  if more_data =? 0 then mret (true, None) else
  xdr_reference xdr_obj zero op objp.

(** A structure of two members, as the procedures of a program put it
    together. *)
Definition xdr_pair {A B : Type} (pa : filter A) (pb : filter B) : filter (A * B) := λ op '(a, b),
  '(ok, a) ← pa op a;
  if negb ok then mret (false, (a, b)) else
  '(ok, b) ← pb op b;
  mret (ok, (a, b)).
End Filters.
Arguments X : clear implicits.
Arguments filter : clear implicits.
End Xdr.
