(* ===== verification/XdrSpec.v ===== *)
(** * External data representation: what a filter promises

    [Stream] states what an implementation of the stream operations promises,
    [xdr_type] what a type looks like on the wire and in memory, and
    [XdrLaws] what a filter promises on every such stream.  The filters of
    [xdr.c] are instances, and so is whatever is composed from them. *)

From S2P Require Import Prelude Xdr.
Local Open Scope Z_scope.

Module XdrSpec.
Import Xdr.

(** ** Big-endian words *)

Definition be32 (v : Z) : list Z := [v / 16777216 mod 256; v / 65536 mod 256; v / 256 mod 256; v mod 256].
Definition be32_val (bs : list Z) : Z := fold_left (λ acc b, acc * 256 + b) bs 0.
Definition bytes (bs : list Z) : Prop := Forall (λ b, 0 <= b < 256) bs.

Lemma be32_length v : length (be32 v) = 4%nat.
Proof. done. Qed.

Lemma be32_bytes v : bytes (be32 v).
Proof. repeat constructor; apply Z.mod_pos_bound; done. Qed.

Lemma be32_back v : be32_val (be32 v) = v mod 4294967296.
Proof. unfold be32_val, be32. cbn [fold_left]. Z.div_mod_to_equations. lia. Qed.

Lemma be32_mod v : be32 (v mod 4294967296) = be32 v.
Proof.
  unfold be32. assert (∀ k, 0 < k → (256 * k | 4294967296) → v mod 4294967296 / k mod 256 = v / k mod 256) as E.
  { intros k Hk [c Hc]. transitivity ((c * (v / 4294967296) * 256 * k + v mod 4294967296) / k mod 256).
    - rewrite Z.div_add_l, Z.add_comm by lia. by rewrite Z_mod_plus_full.
    - do 2 f_equal. replace (c * (v / 4294967296) * 256 * k) with (c * (256 * k) * (v / 4294967296)) by ring. rewrite <- Hc. pose proof (Z.div_mod v 4294967296 ltac:(lia)). lia. }
  rewrite !E by (lia || by apply Z.mod_divide). do 3 f_equal. pose proof (E 1 ltac:(lia) ltac:(by apply Z.mod_divide)) as E1. rewrite !Z.div_1_r in E1. by rewrite E1.
Qed.

Lemma be32_wraps v : be32 (wraps 32 v) = be32 v.
Proof. rewrite <- (be32_mod (wraps 32 v)), <- (be32_mod v). f_equal. unfold wraps. change (2 ^ 32) with 4294967296. destruct (_ <? _); Z.div_mod_to_equations; lia. Qed.

Lemma be32_val_bound bs : length bs = 4%nat → bytes bs → 0 <= be32_val bs < 4294967296.
Proof.
  intros Hl Hb. destruct bs as [|a [|b [|c [|d [|]]]]]; try done. unfold bytes in Hb. rewrite !Forall_cons in Hb. unfold be32_val. cbn [fold_left]. lia.
Qed.

(** ** Streams *)

Class Stream (strm : Type) `{XdrOps strm} : Type := {
  sinv : strm → Prop;
  (* the stream after the bytes were put, if there is room *)
  emit : strm → list Z → option strm;
  (* the next bytes, if there are so many *)
  absorb : strm → nat → option (list Z * strm);
  emit_inv s bs s' : sinv s → bytes bs → emit s bs = Some s' → sinv s';
  emit_nil s : sinv s → emit s [] = Some s;
  emit_app s a b : emit s (a ++ b) = emit s a ≫= λ s', emit s' b;
  absorb_inv s n bs s' : sinv s → absorb s n = Some (bs, s') → sinv s' ∧ length bs = n ∧ bytes bs;
  absorb_nil s : absorb s 0 = Some ([], s);
  absorb_app s n k : absorb s (n + k) = '(a, s1) ← absorb s n; '(b, s2) ← absorb s1 k; Some (a ++ b, s2);
  putlong_law s v : sinv s →
    match emit s (be32 v) with Some s' => x_putlong v s = Val (true, s') | None => ∃ s', x_putlong v s = Val (false, s') ∧ sinv s' end;
  putint32_law s v : sinv s →
    match emit s (be32 v) with Some s' => x_putint32 v s = Val (true, s') | None => ∃ s', x_putint32 v s = Val (false, s') ∧ sinv s' end;
  putbytes_law s bs : sinv s → bytes bs →
    match emit s bs with Some s' => x_putbytes bs s = Val (true, s') | None => ∃ s', x_putbytes bs s = Val (false, s') ∧ sinv s' end;
  getlong_law s : sinv s →
    match absorb s 4 with Some (bs, s') => x_getlong s = Val (Some (wraps 32 (be32_val bs)), s') | None => ∃ s', x_getlong s = Val (None, s') ∧ sinv s' end;
  getint32_law s : sinv s →
    match absorb s 4 with Some (bs, s') => x_getint32 s = Val (Some (wraps 32 (be32_val bs)), s') | None => ∃ s', x_getint32 s = Val (None, s') ∧ sinv s' end;
  getbytes_law s n : sinv s → (0 < n)%nat →
    match absorb s n with Some (bs, s') => x_getbytes n s = Val (Some bs, s') | None => ∃ s', x_getbytes n s = Val (None, s') ∧ sinv s' end;
}.

(** ** Types *)

(** A type on the wire and in memory: its bytes, the objects that have such
    bytes, the objects that can be decoded into, which hold no storage, the
    objects that can be freed, the blocks an object holds, and which objects
    stand for the same value. *)
Record xdr_type (A : Type) : Type := XdrType {
  xenc : A → list Z;
  xok : A → Prop;
  xfresh : A → Prop;
  xgood : A → Prop;
  xblocks : A → Z;
  xsame : A → A → Prop;
}.
Arguments XdrType {A} _ _ _ _ _ _.
Arguments xenc {A} _ _.
Arguments xok {A} _ _.
Arguments xfresh {A} _ _.
Arguments xgood {A} _ _.
Arguments xblocks {A} _ _.
Arguments xsame {A} _ _ _.

(** No allocation fails. *)
Definition plenty (h : host) : Prop := Forall (eq true) (answers h).

Class XdrLaws {strm : Type} `{Stream strm} {A : Type} (proc : filter strm A) (T : xdr_type A) : Prop := {
  enc_bytes a : xok T a → bytes (xenc T a);
  law_encode a s h : xok T a → sinv s →
    match emit s (xenc T a) with
    | Some s' => proc XDR_ENCODE a (s, h) = Val (true, a, (s', h))
    | None => ∃ s', proc XDR_ENCODE a (s, h) = Val (false, a, (s', h)) ∧ sinv s'
    end;
  law_decode a a0 s h s' : xok T a → xfresh T a0 → sinv s → plenty h → absorb s (length (xenc T a)) = Some (xenc T a, s') →
    ∃ a' h', proc XDR_DECODE a0 (s, h) = Val (true, a', (s', h')) ∧ plenty h' ∧ xsame T a a';
  law_safe a0 s h : xfresh T a0 → sinv s →
    ∃ b a' s' h', proc XDR_DECODE a0 (s, h) = Val (b, a', (s', h')) ∧ sinv s' ∧ xgood T a' ∧ live h' = live h + xblocks T a' ∧ (b = true → xok T a');
  law_free a s h : xgood T a →
    ∃ b a', proc XDR_FREE a (s, h) = Val (b, a', (s, Host (answers h) (live h - xblocks T a))) ∧ xblocks T a' = 0 ∧ (xok T a → b = true);
  law_fresh a : xfresh T a → xgood T a ∧ xblocks T a = 0;
}.

(** ** Steps *)

Section Instances.
Context {strm : Type} {Ops : XdrOps strm} {Str : Stream strm} (junk : nat → Z).

Lemma xbind {A A'} (c : X strm A) (f : A → X strm A') st a st' : c st = Val (a, st') → (c ≫= f) st = f a st'.
Proof. intros E. unfold mbind, X_bind. by rewrite E. Qed.

Lemma on_stream_val {A} (f : strm → outcome (A * strm)) s h a s' : f s = Val (a, s') → on_stream f (s, h) = Val (a, (s', h)).
Proof. intros E. unfold on_stream. by rewrite E. Qed.

Lemma absorb_split s (a b : list Z) s' :
  sinv s → absorb s (length (a ++ b)) = Some (a ++ b, s') → ∃ s1, absorb s (length a) = Some (a, s1) ∧ absorb s1 (length b) = Some (b, s').
Proof.
  intros Hs. rewrite length_app, absorb_app. destruct (absorb s (length a)) as [[x s1]|] eqn:E1; [|done]. cbn.
  destruct (absorb s1 (length b)) as [[y s2]|] eqn:E2; [|done]. cbn. intros [= E ->]. destruct (absorb_inv _ _ _ _ Hs E1) as (_ & Hl & _).
  apply app_inj_1 in E as [-> ->]; [|done]. by exists s1.
Qed.

(** ** Numbers *)

Definition T_num (put : Z → Z) (ok : Z → Prop) : xdr_type Z := XdrType (λ v, be32 (put v)) ok (λ _, True) (λ _, True) (λ _, 0) eq.

Lemma wraps_back v : wraps 32 (be32_val (be32 v)) = wraps 32 v.
Proof. rewrite be32_back. unfold wraps. change (2 ^ 32) with 4294967296. by rewrite Zmod_mod. Qed.

Definition int32 (v : Z) : Prop := -2147483648 <= v < 2147483648.

Lemma wraps_in_int32 v : int32 (wraps 32 v).
Proof. exact (wraps_bound 32 v ltac:(lia)). Qed.

(** Putting and getting a word. *)
Definition puts (put : Z → X strm bool) : Prop := ∀ v s h, sinv s →
  match emit s (be32 v) with Some s' => put v (s, h) = Val (true, (s', h)) | None => ∃ s', put v (s, h) = Val (false, (s', h)) ∧ sinv s' end.
Definition gets (get : X strm (option Z)) : Prop := ∀ s h, sinv s →
  match absorb s 4 with Some (bs, s') => get (s, h) = Val (Some (wraps 32 (be32_val bs)), (s', h)) | None => ∃ s', get (s, h) = Val (None, (s', h)) ∧ sinv s' end.

Lemma putlong_puts : puts putlong.
Proof. intros v s h Hs. pose proof (putlong_law s v Hs) as E. destruct (emit s (be32 v)); [by apply on_stream_val|]. destruct E as (s' & E & Hs'). exists s'. split; [by apply on_stream_val|done]. Qed.
Lemma putint32_puts : puts putint32.
Proof. intros v s h Hs. pose proof (putint32_law s v Hs) as E. destruct (emit s (be32 v)); [by apply on_stream_val|]. destruct E as (s' & E & Hs'). exists s'. split; [by apply on_stream_val|done]. Qed.
Lemma getlong_gets : gets getlong.
Proof. intros s h Hs. pose proof (getlong_law s Hs) as E. destruct (absorb s 4) as [[bs s']|]; [by apply on_stream_val|]. destruct E as (s' & E & Hs'). exists s'. split; [by apply on_stream_val|done]. Qed.
Lemma getint32_gets : gets getint32.
Proof. intros s h Hs. pose proof (getint32_law s Hs) as E. destruct (absorb s 4) as [[bs s']|]; [by apply on_stream_val|]. destruct E as (s' & E & Hs'). exists s'. split; [by apply on_stream_val|done]. Qed.

Lemma free_none (h : host) : Host (answers h) (live h - 0) = h.
Proof. destruct h. cbn. by rewrite Z.sub_0_r. Qed.

Lemma number_laws put get out got ok :
  puts put → gets get → (∀ v, ok v → got (wraps 32 (out v)) = v) → (∀ l, int32 l → ok (got l)) → XdrLaws (number put get out got) (T_num out ok).
Proof.
  intros Hput Hget H1 H2. split; cbn [T_num xenc xok xfresh xgood xblocks xsame].
  - intros a _. apply be32_bytes.
  - intros a s h Ha Hs. unfold number. pose proof (Hput (out a) s h Hs) as E. destruct (emit s (be32 (out a))) as [s'|]; [by rewrite (xbind _ _ _ _ _ E)|].
    destruct E as (s' & E & Hs'). rewrite (xbind _ _ _ _ _ E). by exists s'.
  - intros a a0 s h s' Ha _ Hs Hp E. unfold number. pose proof (Hget s h Hs) as G. rewrite be32_length in E. rewrite E in G.
    rewrite (xbind _ _ _ _ _ G), wraps_back, H1 by done. by exists a, h.
  - intros a0 s h _ Hs. unfold number. pose proof (Hget s h Hs) as G. destruct (absorb s 4) as [[bs s']|] eqn:E.
    + destruct (absorb_inv _ _ _ _ Hs E) as (Hs' & _). rewrite (xbind _ _ _ _ _ G). eexists true, _, s', h. split_and!; try done; [lia|]. intros _. apply H2, wraps_in_int32.
    + destruct G as (s' & G & Hs'). rewrite (xbind _ _ _ _ _ G). exists false, a0, s', h. split_and!; try done. lia.
  - intros a s h _. exists true, a. rewrite free_none. done.
  - done.
Qed.

Definition T_two (high low : Z → Z) (ok : Z → Prop) : xdr_type Z := XdrType (λ v, be32 (high v) ++ be32 (low v)) ok (λ _, True) (λ _, True) (λ _, 0) eq.

Lemma two_laws put get high low join ok :
  puts put → gets get → (∀ v, ok v → join (wraps 32 (high v)) (wraps 32 (low v)) = v) → (∀ x y, int32 x → int32 y → ok (join x y)) →
  XdrLaws (two put get high low join) (T_two high low ok).
Proof.
  intros Hput Hget H1 H2. split; cbn [T_two xenc xok xfresh xgood xblocks xsame].
  - intros a _. apply Forall_app_2; apply be32_bytes.
  - intros a s h Ha Hs. unfold two. rewrite emit_app. pose proof (Hput (high a) s h Hs) as E. destruct (emit s (be32 (high a))) as [s1|] eqn:E1; cbn [mbind option_bind].
    2:{ destruct E as (s' & E & Hs'). rewrite (xbind _ _ _ _ _ E). by exists s'. }
    rewrite (xbind _ _ _ _ _ E). pose proof (Hput (low a) s1 h (emit_inv _ _ _ Hs (be32_bytes _) E1)) as E'. destruct (emit s1 (be32 (low a))) as [s2|]; [by rewrite (xbind _ _ _ _ _ E')|].
    destruct E' as (s' & E' & Hs'). rewrite (xbind _ _ _ _ _ E'). by exists s'.
  - intros a a0 s h s' Ha _ Hs Hp E. destruct (absorb_split _ _ _ _ Hs E) as (s1 & E1 & E2). destruct (absorb_inv _ _ _ _ Hs E1) as (Hs1 & _). rewrite be32_length in E1, E2.
    unfold two. pose proof (Hget s h Hs) as G. rewrite E1 in G. rewrite (xbind _ _ _ _ _ G). pose proof (Hget s1 h Hs1) as G'. rewrite E2 in G'. rewrite (xbind _ _ _ _ _ G'), !wraps_back, H1 by done. by exists a, h.
  - intros a0 s h _ Hs. unfold two. pose proof (Hget s h Hs) as G. destruct (absorb s 4) as [[bs s1]|] eqn:E1.
    2:{ destruct G as (s' & G & Hs'). rewrite (xbind _ _ _ _ _ G). exists false, a0, s', h. split_and!; try done. lia. }
    destruct (absorb_inv _ _ _ _ Hs E1) as (Hs1 & _). rewrite (xbind _ _ _ _ _ G). pose proof (Hget s1 h Hs1) as G'. destruct (absorb s1 4) as [[bs' s2]|] eqn:E2.
    + destruct (absorb_inv _ _ _ _ Hs1 E2) as (Hs2 & _). rewrite (xbind _ _ _ _ _ G'). eexists true, _, s2, h. split_and!; try done; [lia|]. intros _. apply H2; apply wraps_in_int32.
    + destruct G' as (s' & G' & Hs'). rewrite (xbind _ _ _ _ _ G'). exists false, a0, s', h. split_and!; try done. lia.
  - intros a s h _. exists true, a. rewrite free_none. done.
  - done.
Qed.

Definition uint32 (v : Z) : Prop := 0 <= v < 4294967296.
Definition T_int : xdr_type Z := T_num (λ v, v) int32.
Definition T_u_int : xdr_type Z := T_num (λ v, v) uint32.

Lemma wrapu_wraps v : wrapu 32 (wraps 32 v) = wrapu 32 v.
Proof. unfold wrapu, wraps. destruct (_ <? _); [by rewrite Zmod_mod|]. rewrite Zminus_mod, Zmod_mod, Z_mod_same_full, Z.sub_0_r, Zmod_mod. done. Qed.

#[export] Instance xdr_int_laws : XdrLaws xdr_int T_int.
Proof. apply number_laws; [apply putlong_puts|apply getlong_gets|..]; intros v Hv; [|apply wraps_in_int32]. rewrite !wraps_small; unfold int32 in *; try lia. rewrite wraps_small; lia. Qed.

#[export] Instance xdr_enum_laws : XdrLaws xdr_enum T_int.
Proof. exact xdr_int_laws. Qed.

#[export] Instance xdr_u_int_laws : XdrLaws xdr_u_int T_u_int.
Proof.
  apply number_laws; [apply putlong_puts|apply getlong_gets|..]; intros v Hv; [|exact (wrapu_bound 32 v ltac:(lia))]. rewrite wrapu_wraps. apply wrapu_small. unfold uint32 in Hv. lia.
Qed.

#[export] Instance xdr_void_laws : XdrLaws xdr_void (XdrType (λ _, []) (λ _, True) (λ _, True) (λ _, True) (λ _, 0) eq).
Proof.
  split; cbn [xenc xok xfresh xgood xblocks xsame].
  - intros. constructor.
  - intros [] s h _ Hs. by rewrite emit_nil.
  - intros [] [] s h s' _ _ _ Hp E. rewrite absorb_nil in E. injection E as <-. by exists tt, h.
  - intros [] s h _ Hs. exists true, tt, s, h. split_and!; try done. lia.
  - intros [] s h _. exists true, tt. rewrite free_none. done.
  - done.
Qed.

(** A filter that behaves as another on the objects that can be encoded. *)
Lemma laws_guarded {A} (proc proc' : filter strm A) (T : xdr_type A) :
  XdrLaws proc T → (∀ a st, xok T a → proc' XDR_ENCODE a st = proc XDR_ENCODE a st) → (∀ a st, proc' XDR_DECODE a st = proc XDR_DECODE a st) →
  (∀ a st, proc' XDR_FREE a st = proc XDR_FREE a st) → XdrLaws proc' T.
Proof.
  intros [L1 L2 L3 L4 L5 L6] HE HD HF. split; [done|..].
  - intros a s h Ha Hs. rewrite HE by done. by apply L2.
  - intros. rewrite HD. eauto.
  - intros. rewrite HD. eauto.
  - intros. rewrite HF. eauto.
  - done.
Qed.

#[export] Instance xdr_long_laws : XdrLaws xdr_long T_int.
Proof.
  apply (laws_guarded (by_long (λ v, v) (λ l, l))); [|intros a st Ha; unfold xdr_long|done..].
  - apply number_laws; [apply putlong_puts|apply getlong_gets|intros v Hv; apply wraps_small; unfold int32 in Hv; lia|done].
  - rewrite wraps_small by (cbn in Ha; unfold int32 in Ha; lia). by rewrite Z.eqb_refl.
Qed.

#[export] Instance xdr_u_long_laws : XdrLaws xdr_u_long T_u_int.
Proof.
  apply (laws_guarded xdr_u_int); [apply xdr_u_int_laws|intros a st Ha; unfold xdr_u_long|done..].
  rewrite wrapu_small by (cbn in Ha; unfold uint32 in Ha; lia). by rewrite Z.eqb_refl.
Qed.

(** Narrow numbers. *)
Definition T_short : xdr_type Z := T_num (λ v, v) (λ v, -32768 <= v < 32768).
Definition T_u_short : xdr_type Z := T_num (λ v, v) (λ v, 0 <= v < 65536).
Definition T_char : xdr_type Z := T_num (λ v, v) (λ v, -128 <= v < 128).
Definition T_u_char : xdr_type Z := T_num (λ v, v) (λ v, 0 <= v < 256).
Definition T_bool : xdr_type Z := T_num (λ v, if v =? 0 then 0 else 1) (λ v, v = 0 ∨ v = 1).

#[export] Instance xdr_short_laws : XdrLaws xdr_short T_short.
Proof. apply number_laws; [apply putlong_puts|apply getlong_gets|..]; intros v Hv; [rewrite (wraps_small 32), (wraps_small 16) by lia; done|exact (wraps_bound 16 v ltac:(lia))]. Qed.
#[export] Instance xdr_u_short_laws : XdrLaws xdr_u_short T_u_short.
Proof. apply number_laws; [apply putlong_puts|apply getlong_gets|..]; intros v Hv; [rewrite wraps_small by lia; apply wrapu_small; lia|exact (wrapu_bound 16 v ltac:(lia))]. Qed.
#[export] Instance xdr_bool_laws : XdrLaws xdr_bool T_bool.
Proof. apply number_laws; [apply putlong_puts|apply getlong_gets|..]; intros v Hv; [by destruct Hv as [-> | ->]|destruct (v =? 0); lia]. Qed.
#[export] Instance xdr_int32_t_laws : XdrLaws xdr_int32_t T_int.
Proof. apply number_laws; [apply putint32_puts|apply getint32_gets|..]; intros v Hv; [apply wraps_small; unfold int32 in Hv; lia|done]. Qed.
#[export] Instance xdr_int16_t_laws : XdrLaws xdr_int16_t T_short.
Proof. apply number_laws; [apply putint32_puts|apply getint32_gets|..]; intros v Hv; [rewrite (wraps_small 32), (wraps_small 16) by lia; done|exact (wraps_bound 16 v ltac:(lia))]. Qed.
#[export] Instance xdr_uint16_t_laws : XdrLaws xdr_uint16_t T_u_short.
Proof. apply number_laws; [apply putint32_puts|apply getint32_gets|..]; intros v Hv; [rewrite wraps_small by lia; apply wrapu_small; lia|exact (wrapu_bound 16 v ltac:(lia))]. Qed.
#[export] Instance xdr_int8_t_laws : XdrLaws xdr_int8_t T_char.
Proof. apply number_laws; [apply putint32_puts|apply getint32_gets|..]; intros v Hv; [rewrite (wraps_small 32), (wraps_small 8) by lia; done|exact (wraps_bound 8 v ltac:(lia))]. Qed.
#[export] Instance xdr_uint8_t_laws : XdrLaws xdr_uint8_t T_u_char.
Proof. apply number_laws; [apply putint32_puts|apply getint32_gets|..]; intros v Hv; [rewrite wraps_small by lia; apply wrapu_small; lia|exact (wrapu_bound 8 v ltac:(lia))]. Qed.
#[export] Instance xdr_uint32_t_laws : XdrLaws xdr_uint32_t (T_num (wraps 32) uint32).
Proof.
  apply number_laws; [apply putint32_puts|apply getint32_gets|..]; intros v Hv; [|exact (wrapu_bound 32 v ltac:(lia))]. rewrite !wrapu_wraps. apply wrapu_small. unfold uint32 in Hv. lia.
Qed.

(** A character goes through an [int]. *)
Lemma narrow_laws (p : filter strm Z) (cut : Z → Z) (ok ok' : Z → Prop) :
  XdrLaws p (T_num (λ v, v) ok') → (∀ v, ok v → ok' v ∧ cut v = v) → (∀ v, ok' v → ok (cut v)) → (∀ v s h, p XDR_FREE v (s, h) = Val (true, v, (s, h))) →
  XdrLaws (λ op cp, '(b, i) ← p op cp; if negb b then mret (false, cp) else mret (true, cut i)) (T_num (λ v, v) ok).
Proof.
  intros [L1 L2 L3 L4 L5 L6] H1 H2 H3. split; cbn [T_num xenc xok xfresh xgood xblocks xsame] in *.
  - intros a _. apply be32_bytes.
  - intros a s h Ha Hs. destruct (H1 a Ha) as [Ha' Hc]. specialize (L2 a s h Ha' Hs). destruct (emit s (be32 a)) as [s'|].
    + rewrite (xbind _ _ _ _ _ L2). cbn [negb]. by rewrite Hc.
    + destruct L2 as (s' & E & Hs'). rewrite (xbind _ _ _ _ _ E). by exists s'.
  - intros a a0 s h s' Ha _ Hs Hp E. destruct (H1 a Ha) as [Ha' Hc]. destruct (L3 a a0 s h s' Ha' I Hs Hp E) as (a' & h' & E' & Hp' & <-). rewrite (xbind _ _ _ _ _ E'). cbn [negb].
    by exists a, h'; rewrite Hc.
  - intros a0 s h _ Hs. destruct (L4 a0 s h I Hs) as (b & a' & s' & h' & E & Hs' & _ & Hl & Hok). rewrite (xbind _ _ _ _ _ E). destruct b; cbn [negb].
    + exists true, (cut a'), s', h'. split_and!; try done. intros _. auto.
    + exists false, a0, s', h'. by split_and!.
  - intros a s h _. rewrite (xbind _ _ _ _ _ (H3 a s h)). cbn [negb]. exists true, (cut a). rewrite free_none. done.
  - done.
Qed.

#[export] Instance xdr_char_laws : XdrLaws xdr_char T_char.
Proof. apply (narrow_laws xdr_int (wraps 8) _ int32); [apply xdr_int_laws|unfold int32; intros v Hv; split; [lia|apply wraps_small; lia]|intros v _; exact (wraps_bound 8 v ltac:(lia))|done]. Qed.
#[export] Instance xdr_u_char_laws : XdrLaws xdr_u_char T_u_char.
Proof. apply (narrow_laws xdr_u_int (wrapu 8) _ uint32); [apply xdr_u_int_laws|unfold uint32; intros v Hv; split; [lia|apply wrapu_small; lia]|intros v _; exact (wrapu_bound 8 v ltac:(lia))|done]. Qed.

(** ** Numbers of two words *)

Definition int64 (v : Z) : Prop := -9223372036854775808 <= v < 9223372036854775808.
Definition uint64 (v : Z) : Prop := 0 <= v < 18446744073709551616.

Lemma wraps_ex w v : ∃ k, wraps w v = v + k * 2 ^ w.
Proof.
  unfold wraps. destruct (_ <? _); [exists (- (v / 2 ^ w))|exists (- (v / 2 ^ w) - 1)]; pose proof (Zmod_eq_full v (2 ^ w)); destruct (decide (2 ^ w = 0)) as [E|E]; rewrite ?E, ?Z.mod_0_r, ?Z.div_0_r; lia.
Qed.

Lemma join_signed v : int64 v → wraps 64 (Z.lor (wraps 64 (Z.shiftl (wraps 32 (Z.shiftr v 32)) 32)) (wrapu 32 v)) = v.
Proof.
  unfold int64. intros Hv. rewrite Z.shiftr_div_pow2, Z.shiftl_mul_pow2 by lia. change (2 ^ 32) with 4294967296.
  rewrite (wraps_small 32) by (Z.div_mod_to_equations; lia). rewrite (wraps_small 64 (v / 4294967296 * 4294967296)) by (Z.div_mod_to_equations; lia).
  unfold wrapu. change 4294967296 with (2 ^ 32). rewrite lor_low by (try (apply Z.mod_pos_bound); lia). change (2 ^ 32) with 4294967296.
  rewrite wraps_small by (Z.div_mod_to_equations; lia). Z.div_mod_to_equations. lia.
Qed.

Lemma join_unsigned v : uint64 v → Z.lor (wrapu 64 (Z.shiftl (wrapu 32 (Z.shiftr v 32)) 32)) (wrapu 32 v) = v.
Proof.
  unfold uint64. intros Hv. rewrite Z.shiftr_div_pow2, Z.shiftl_mul_pow2 by lia. change (2 ^ 32) with 4294967296.
  rewrite (wrapu_small 32 (v / 4294967296)) by (Z.div_mod_to_equations; lia). rewrite (wrapu_small 64) by (Z.div_mod_to_equations; lia).
  unfold wrapu. change 4294967296 with (2 ^ 32). rewrite lor_low by (try (apply Z.mod_pos_bound); lia). change (2 ^ 32) with 4294967296. Z.div_mod_to_equations. lia.
Qed.

Lemma lor_uint64 x y : 0 <= x < 2 ^ 64 → 0 <= y < 2 ^ 64 → uint64 (Z.lor x y).
Proof.
  intros Hx Hy. unfold uint64. split; [apply Z.lor_nonneg; lia|]. change 18446744073709551616 with (2 ^ 64). destruct (decide (Z.lor x y = 0)) as [->|Hne]; [lia|].
  apply Z.log2_lt_pow2; [pose proof (proj2 (Z.lor_nonneg x y) ltac:(lia)); lia|]. rewrite Z.log2_lor by lia.
  destruct (decide (x = 0)) as [->|]; destruct (decide (y = 0)) as [->|]; cbn [Z.log2]; try (apply Z.max_lub_lt); try lia; try (apply Z.log2_lt_pow2; lia).
Qed.

Definition T_hyper : xdr_type Z := T_two (λ v, Z.shiftr v 32) (λ v, v) int64.

#[export] Instance xdr_hyper_laws : XdrLaws xdr_hyper T_hyper.
Proof.
  apply two_laws; [apply putlong_puts|apply getlong_gets|intros v Hv; rewrite wrapu_wraps; by apply join_signed|intros; exact (wraps_bound 64 _ ltac:(lia))].
Qed.

#[export] Instance xdr_u_hyper_laws : XdrLaws xdr_u_hyper (T_two (λ v, Z.shiftr v 32) (wraps 64) uint64).
Proof.
  apply two_laws; [apply putlong_puts|apply getlong_gets|..].
  - intros v Hv. rewrite wrapu_wraps. rewrite <- (join_unsigned v Hv) at 3. f_equal.
    + unfold wrapu, wraps. rewrite !Z.shiftl_mul_pow2 by lia. change (2 ^ 64) with (2 ^ 32 * 2 ^ 32). rewrite !Z.mul_mod_distr_r by lia. f_equal.
      destruct (_ <? _); [by rewrite Zmod_mod|]. rewrite Zminus_mod, Z_mod_same_full, Z.sub_0_r, !Zmod_mod. done.
    + destruct (wraps_ex 64 v) as [k ->]. unfold wrapu. change (2 ^ 64) with (2 ^ 32 * 2 ^ 32). by rewrite Z.mul_assoc, Z_mod_plus_full.
  - intros x y _ _. apply lor_uint64; [apply wrapu_bound; lia|]. pose proof (wrapu_bound 32 y ltac:(lia)). lia.
Qed.

#[export] Instance xdr_int64_t_laws : XdrLaws xdr_int64_t (T_two (λ v, wraps 32 (Z.shiftr v 32)) (wraps 32) int64).
Proof.
  apply two_laws; [apply putint32_puts|apply getint32_gets|intros v Hv|intros; exact (wraps_bound 64 _ ltac:(lia))].
  rewrite !wrapu_wraps, (wraps_small 32 (wraps 32 _)) by (try apply wraps_bound; lia). by apply join_signed.
Qed.

#[export] Instance xdr_uint64_t_laws : XdrLaws xdr_uint64_t (T_two (λ v, wraps 32 (Z.shiftr v 32)) (wraps 32) uint64).
Proof.
  apply two_laws; [apply putint32_puts|apply getint32_gets|..].
  - intros v Hv. rewrite !wrapu_wraps. by apply join_unsigned.
  - intros x y _ _. apply lor_uint64; [apply wrapu_bound; lia|]. pose proof (wrapu_bound 32 y ltac:(lia)). lia.
Qed.

(** ** Bytes *)

Definition pad (n : Z) : list Z := replicate (Z.to_nat (rndup_of n)) 0.

Lemma pad_nil n : rndup_of n = 0 → pad n = [].
Proof. unfold pad. by intros ->. Qed.

Lemma rndup_nonneg n : 0 <= rndup_of n < 4.
Proof. unfold rndup_of. pose proof (Z.mod_pos_bound n 4 ltac:(lia)). destruct (Z.ltb_spec 0 (n mod 4)); lia. Qed.

Lemma pad_bytes n : bytes (pad n).
Proof. apply Forall_replicate. lia. Qed.

(** An object of [n] bytes; what follows them is kept. *)
Definition T_opaque (n : Z) : xdr_type (list Z) :=
  XdrType (λ cp, take (Z.to_nat n) cp ++ pad n) (λ cp, (Z.to_nat n <= length cp)%nat ∧ bytes (take (Z.to_nat n) cp))
    (λ cp, (Z.to_nat n <= length cp)%nat) (λ _, True) (λ _, 0) (λ cp cp', take (Z.to_nat n) cp = take (Z.to_nat n) cp').

(** What decoding leaves in the object. *)
Lemma opaque_decode n cp s h :
  0 <= n → (Z.to_nat n <= length cp)%nat → sinv s →
  match absorb s (Z.to_nat n + Z.to_nat (rndup_of n)) with
  | Some (bs, s') => xdr_opaque n XDR_DECODE cp (s, h) = Val (true, take (Z.to_nat n) bs ++ drop (Z.to_nat n) cp, (s', h))
  | None => ∃ cp' s', xdr_opaque n XDR_DECODE cp (s, h) = Val (false, cp', (s', h)) ∧ sinv s' ∧ length cp' = length cp ∧ drop (Z.to_nat n) cp' = drop (Z.to_nat n) cp
  end.
Proof.
  intros Hn Hl Hs. unfold xdr_opaque. destruct (Z.eqb_spec n 0) as [->|H0]. { cbn [Z.to_nat Nat.add]. change (rndup_of 0) with 0. cbn. by rewrite absorb_nil. }
  rewrite (proj2 (Nat.ltb_ge _ _)) by lia. rewrite absorb_app. pose proof (getbytes_law s (Z.to_nat n) Hs ltac:(lia)) as G. destruct (absorb s (Z.to_nat n)) as [[bs s1]|] eqn:E1; cbn [mbind option_bind].
  2:{ destruct G as (s' & G & Hs'). rewrite (xbind _ _ _ _ _ (on_stream_val _ _ _ _ _ G)). by exists cp, s'. }
  destruct (absorb_inv _ _ _ _ Hs E1) as (Hs1 & Hb & _). rewrite (xbind _ _ _ _ _ (on_stream_val _ _ _ _ _ G)).
  pose proof (rndup_nonneg n). destruct (Z.eqb_spec (rndup_of n) 0) as [E0|E0].
  { rewrite E0. cbn [Z.to_nat]. rewrite absorb_nil. cbn. rewrite app_nil_r, take_ge by lia. done. }
  pose proof (getbytes_law s1 (Z.to_nat (rndup_of n)) Hs1 ltac:(lia)) as G'. destruct (absorb s1 (Z.to_nat (rndup_of n))) as [[bs' s2]|] eqn:E2; cbn [mbind option_bind].
  - rewrite (xbind _ _ _ _ _ (on_stream_val _ _ _ _ _ G')). rewrite take_app_le, take_ge by lia. done.
  - destruct G' as (s' & G' & Hs'). rewrite (xbind _ _ _ _ _ (on_stream_val _ _ _ _ _ G')). exists (bs ++ drop (Z.to_nat n) cp), s'.
    split; [done|]. split; [done|]. rewrite length_app, length_drop, drop_app_length' by done. split; [lia|done].
Qed.

Lemma opaque_encode n cp s h :
  0 <= n → (Z.to_nat n <= length cp)%nat → bytes (take (Z.to_nat n) cp) → sinv s →
  match emit s (take (Z.to_nat n) cp ++ pad n) with
  | Some s' => xdr_opaque n XDR_ENCODE cp (s, h) = Val (true, cp, (s', h))
  | None => ∃ s', xdr_opaque n XDR_ENCODE cp (s, h) = Val (false, cp, (s', h)) ∧ sinv s'
  end.
Proof.
  intros Hn Hl Hb Hs. unfold xdr_opaque. destruct (Z.eqb_spec n 0) as [->|H0]. { cbn. by rewrite emit_nil. }
  rewrite (proj2 (Nat.ltb_ge _ _)) by lia. rewrite emit_app. pose proof (putbytes_law s _ Hs Hb) as G. destruct (emit s (take (Z.to_nat n) cp)) as [s1|] eqn:E1; cbn [mbind option_bind].
  2:{ destruct G as (s' & G & Hs'). rewrite (xbind _ _ _ _ _ (on_stream_val _ _ _ _ _ G)). by exists s'. }
  rewrite (xbind _ _ _ _ _ (on_stream_val _ _ _ _ _ G)). cbn [negb]. pose proof (emit_inv _ _ _ Hs Hb E1) as Hs1. destruct (Z.eqb_spec (rndup_of n) 0) as [E0|E0].
  { rewrite (pad_nil n E0), emit_nil by done. done. }
  pose proof (putbytes_law s1 (pad n) Hs1 (pad_bytes n)) as G'. destruct (emit s1 (pad n)) as [s2|].
  - by rewrite (xbind _ _ _ _ _ (on_stream_val _ _ _ _ _ G')).
  - destruct G' as (s' & G' & Hs'). rewrite (xbind _ _ _ _ _ (on_stream_val _ _ _ _ _ G')). by exists s'.
Qed.

Lemma opaque_free n cp s h : xdr_opaque n XDR_FREE cp (s, h) = Val (true, cp, (s, h)).
Proof. unfold xdr_opaque. by destruct (n =? 0). Qed.

#[export] Instance xdr_opaque_laws n : 0 <= n → XdrLaws (xdr_opaque n) (T_opaque n).
Proof.
  intros Hn. split; cbn [T_opaque xenc xok xfresh xgood xblocks xsame].
  - intros a [_ Hb]. apply Forall_app_2; [done|apply pad_bytes].
  - intros a s h [Hl Hb] Hs. by apply opaque_encode.
  - intros a a0 s h s' [Hl Hb] H0 Hs Hp E. pose proof (opaque_decode n a0 s h Hn H0 Hs) as D.
    assert (length (take (Z.to_nat n) a ++ pad n) = (Z.to_nat n + Z.to_nat (rndup_of n))%nat) as El by (unfold pad; rewrite length_app, length_take, length_replicate; lia).
    rewrite El in E. rewrite E in D. rewrite D. eexists _, h. split; [done|]. split; [done|].
    assert (length (take (Z.to_nat n) a) = Z.to_nat n) as Et by (rewrite length_take; lia). by rewrite (take_app_length' (take (Z.to_nat n) a) (pad n)), take_app_length' by done.
  - intros a0 s h H0 Hs. pose proof (opaque_decode n a0 s h Hn H0 Hs) as D. destruct (absorb s _) as [[bs s']|] eqn:E.
    + destruct (absorb_inv _ _ _ _ Hs E) as (Hs' & Hl & Hb). rewrite D. eexists true, _, s', h. split; [done|]. split; [done|]. split; [done|]. split; [lia|]. intros _.
      rewrite length_app, take_app_length' by (rewrite length_take; lia). split; [rewrite length_take, length_drop; lia|]. by apply Forall_take.
    + destruct D as (cp' & s' & -> & Hs' & _). exists false, cp', s', h. split_and!; try done. lia.
  - intros a s h _. exists true, a. rewrite free_none, opaque_free. done.
  - done.
Qed.

(** ** Counted bytes *)

Lemma u_int_decode v s h : sinv s →
  match absorb s 4 with
  | Some (bs, s') => xdr_u_int XDR_DECODE v (s, h) = Val (true, be32_val bs, (s', h)) ∧ uint32 (be32_val bs) ∧ sinv s'
  | None => ∃ s', xdr_u_int XDR_DECODE v (s, h) = Val (false, v, (s', h)) ∧ sinv s'
  end.
Proof.
  intros Hs. pose proof (getlong_gets s h Hs) as G. destruct (absorb s 4) as [[bs s']|] eqn:E.
  - destruct (absorb_inv _ _ _ _ Hs E) as (Hs' & Hl & Hb). pose proof (be32_val_bound bs Hl Hb) as Hv. split; [|done]. unfold xdr_u_int, by_long, number. rewrite (xbind _ _ _ _ _ G), wrapu_wraps.
    by rewrite wrapu_small by lia.
  - destruct G as (s' & G & Hs'). exists s'. unfold xdr_u_int, by_long, number. rewrite (xbind _ _ _ _ _ G). done.
Qed.

Lemma u_int_absorb v s a s' : uint32 v → sinv s → absorb s (length (be32 v ++ a)) = Some (be32 v ++ a, s') →
  ∃ s1, (∀ v0 h, xdr_u_int XDR_DECODE v0 (s, h) = Val (true, v, (s1, h))) ∧ sinv s1 ∧ absorb s1 (length a) = Some (a, s').
Proof.
  intros Hv Hs E. destruct (absorb_split _ _ _ _ Hs E) as (s1 & E1 & E2). exists s1. rewrite be32_length in E1. destruct (absorb_inv _ _ _ _ Hs E1) as (Hs1 & _). split_and!; try done.
  intros v0 h. pose proof (u_int_decode v0 s h Hs) as D. rewrite E1 in D. destruct D as (-> & _). rewrite be32_back, Z.mod_small by done. done.
Qed.

(** After the length, whatever encodes the rest. *)
Lemma u_int_emit {A} v s h (rest : list Z) (f : bool * Z → X strm (bool * A)) (a a1 : A) :
  uint32 v → sinv s → (∀ s1, f (false, v) (s1, h) = Val (false, a, (s1, h))) →
  (∀ s1, sinv s1 → match emit s1 rest with Some s' => f (true, v) (s1, h) = Val (true, a1, (s', h)) | None => ∃ s', f (true, v) (s1, h) = Val (false, a, (s', h)) ∧ sinv s' end) →
  match emit s (be32 v ++ rest) with
  | Some s' => (xdr_u_int XDR_ENCODE v ≫= f) (s, h) = Val (true, a1, (s', h))
  | None => ∃ s', (xdr_u_int XDR_ENCODE v ≫= f) (s, h) = Val (false, a, (s', h)) ∧ sinv s'
  end.
Proof.
  intros Hv Hs Hfail Hf. rewrite emit_app. pose proof (law_encode (proc := xdr_u_int) v s h Hv Hs) as E. cbn [T_u_int T_num xenc] in E.
  destruct (emit s (be32 v)) as [s1|] eqn:E1; cbn [mbind option_bind].
  - rewrite (xbind _ _ _ _ _ E). apply Hf. exact (emit_inv _ _ _ Hs (be32_bytes _) E1).
  - destruct E as (s' & E & Hs'). rewrite (xbind _ _ _ _ _ E). exists s'. rewrite Hfail. done.
Qed.

Lemma alloc_plenty s h : plenty h → ∃ h', mem_alloc (strm := strm) (s, h) = Val (true, (s, h')) ∧ plenty h'.
Proof.
  unfold plenty, mem_alloc. destruct h as [[|b l] n]; cbn; intros Hh; [by exists (Host [] (n + 1))|]. apply Forall_cons in Hh as [<- Hh]. by exists (Host l (n + 1)).
Qed.

Lemma alloc_any s h : ∃ b h', mem_alloc (strm := strm) (s, h) = Val (b, (s, h')) ∧ live h' = live h + (if b : bool then 1 else 0).
Proof. unfold mem_alloc. destruct h as [[|[] l] n]; cbn; eexists _, _; (split; [done|]); cbn; lia. Qed.

Definition T_bytes (maxsize : Z) : xdr_type (option (list Z) * Z) :=
  XdrType (λ '(sp, n), be32 n ++ (take (Z.to_nat n) (default [] sp) ++ pad n))
    (λ '(sp, n), uint32 n ∧ n <= maxsize ∧ (Z.to_nat n <= length (default [] sp))%nat ∧ bytes (take (Z.to_nat n) (default [] sp)))
    (λ '(sp, _), sp = None) (λ _, True) (λ '(sp, _), match sp with Some _ => 1 | None => 0 end)
    (λ '(sp, n) '(sp', n'), n = n' ∧ take (Z.to_nat n) (default [] sp) = take (Z.to_nat n) (default [] sp')).

#[export] Instance xdr_bytes_laws maxsize : XdrLaws (xdr_bytes junk maxsize) (T_bytes maxsize).
Proof.
  split; cbn [T_bytes xenc xok xfresh xgood xblocks xsame].
  - intros [sp n] (_ & _ & _ & Hb). apply Forall_app_2; [apply be32_bytes|apply Forall_app_2; [done|apply pad_bytes]].
  - intros [sp n] s h (Hn & Hmax & Hl & Hb) Hs. unfold xdr_bytes. apply u_int_emit; try done. intros s1 Hs1. cbn [negb]. rewrite (proj2 (Z.ltb_ge _ _)) by lia. cbn [andb].
    destruct sp as [cp|]; cbn [default from_option id] in *.
    + pose proof (opaque_encode n cp s1 h ltac:(unfold uint32 in Hn; lia) Hl Hb Hs1) as E. destruct (emit s1 _) as [s'|]; [by rewrite (xbind _ _ _ _ _ E)|].
      destruct E as (s' & E & Hs'). rewrite (xbind _ _ _ _ _ E). by exists s'.
    + assert (n = 0) as -> by (unfold uint32 in Hn; cbn in Hl; lia). cbn. by rewrite emit_nil.
  - intros [sp n] [sp0 n0] s h s' (Hn & Hmax & Hl & Hb) -> Hs Hp E. destruct (u_int_absorb _ _ _ _ Hn Hs E) as (s1 & E1 & Hs1 & E2). unfold xdr_bytes. rewrite (xbind _ _ _ _ _ (E1 n0 h)).
    cbn [negb]. rewrite (proj2 (Z.ltb_ge _ _)) by lia. cbn [andb]. destruct (Z.eqb_spec n 0) as [->|Hn0].
    { exists (None, 0), h. change (pad 0) with (@nil Z) in E2. cbn in E2. rewrite absorb_nil in E2. injection E2 as <-. done. }
    unfold storage. destruct (alloc_plenty s1 h Hp) as (h1 & Ea & Hp1). assert (uint32 n) as Hn' by done. unfold uint32 in Hn'.
    set (cp0 := junk <$> seq 0 (Z.to_nat n)). assert (length cp0 = Z.to_nat n) as Lc by (unfold cp0; by rewrite length_fmap, length_seq).
    assert ((b ← mem_alloc; mret (if b : bool then Some cp0 else None)) (s1, h) = Val (Some cp0, (s1, h1))) as Es by (by rewrite (xbind _ _ _ _ _ Ea)).
    rewrite (xbind _ _ _ _ _ Es). destruct (law_decode (proc := xdr_opaque n) (XdrLaws := xdr_opaque_laws n ltac:(lia)) (default [] sp) cp0 s1 h1 s') as (cp & h' & Ed & Hp' & Hsame); try done; [cbn; lia|].
    rewrite (xbind _ _ _ _ _ Ed). exists (Some cp, n), h'. done.
  - intros [sp n] s h -> Hs. unfold xdr_bytes. pose proof (u_int_decode n s h Hs) as D. destruct (absorb s 4) as [[bs s1]|].
    2:{ destruct D as (s' & D & Hs'). rewrite (xbind _ _ _ _ _ D). exists false, (None, n), s', h. split_and!; try done. lia. }
    destruct D as (D & Hv & Hs1). rewrite (xbind _ _ _ _ _ D). cbn [negb]. set (v := be32_val bs) in *. destruct (Z.ltb_spec maxsize v) as [Hgt|Hle]; cbn [andb].
    { rewrite bool_decide_eq_false_2 by done. exists false, (None, v), s1, h. split_and!; try done. lia. }
    destruct (Z.eqb_spec v 0) as [E0|Hn0]. { exists true, (None, v), s1, h. split_and!; try done; [lia|]. intros _. rewrite E0 in *. cbn. split_and!; try done. constructor. }
    unfold storage. destruct (alloc_any s1 h) as ([] & h1 & Ea & Hlive).
    2:{ assert ((b ← mem_alloc; mret (if b : bool then Some (junk <$> seq 0 (Z.to_nat v)) else None)) (s1, h) = Val (None, (s1, h1))) as Es by (by rewrite (xbind _ _ _ _ _ Ea)).
        rewrite (xbind _ _ _ _ _ Es). exists false, (None, v), s1, h1. split_and!; try done. }
    set (cp0 := junk <$> seq 0 (Z.to_nat v)). assert (length cp0 = Z.to_nat v) as Lc by (unfold cp0; by rewrite length_fmap, length_seq).
    assert ((b ← mem_alloc; mret (if b : bool then Some cp0 else None)) (s1, h) = Val (Some cp0, (s1, h1))) as Es by (by rewrite (xbind _ _ _ _ _ Ea)).
    rewrite (xbind _ _ _ _ _ Es). destruct (law_safe (proc := xdr_opaque v) (XdrLaws := xdr_opaque_laws v ltac:(unfold uint32 in Hv; lia)) cp0 s1 h1) as (b & cp & s' & h' & Ed & Hs' & _ & Hl' & Hok); try done; [cbn; lia|].
    rewrite (xbind _ _ _ _ _ Ed). exists b, (Some cp, v), s', h'. cbn in Hl'. split_and!; try done; [lia|]. intros Hb. destruct (Hok Hb). done.
  - intros [sp n] s h _. unfold xdr_bytes. rewrite (xbind _ _ _ _ _ (eq_refl : xdr_u_int XDR_FREE n (s, h) = Val (true, n, (s, h)))). cbn [negb].
    rewrite bool_decide_eq_true_2, andb_false_r by done. exists true, (None, n). destruct sp; cbn; [done|]. by rewrite free_none.
  - intros [sp n] ->. done.
Qed.

#[export] Instance xdr_netobj_laws : XdrLaws (xdr_netobj junk) (T_bytes MAX_NETOBJ_SZ).
Proof. apply xdr_bytes_laws. Qed.

(** ** Strings *)

Lemma strlen_bound l n : strlen l = Some n → 0 <= n < Z.of_nat (length l) ∧ l !! Z.to_nat n = Some 0.
Proof.
  revert n. induction l as [|c l IH]; intros n; cbn [strlen]; [done|]. destruct (Z.eqb_spec c 0) as [->|Hc]; [intros [= <-]; cbn; split; [lia|done]|].
  destruct (strlen l) as [k|]; [|done]. cbn. intros [= <-]. destruct (IH k eq_refl) as [H1 H2]. cbn [length]. split; [lia|]. replace (Z.to_nat (k + 1)) with (S (Z.to_nat k)) by lia. done.
Qed.

Lemma strlen_at l i : l !! i = Some 0 → ∃ k, strlen l = Some k ∧ 0 <= k <= Z.of_nat i.
Proof.
  revert i. induction l as [|c l IH]; intros i Hi; [done|]. cbn [strlen]. destruct (Z.eqb_spec c 0) as [->|Hc]; [exists 0; split; [done|lia]|].
  destruct i as [|i]; [cbn in Hi; congruence|]. destruct (IH i Hi) as (k & -> & Hk). exists (k + 1). split; [done|lia].
Qed.

(** The string in a block. *)
Definition cstr (l : list Z) : option (list Z) := n ← strlen l; Some (take (Z.to_nat n) l).

Lemma strlen_same l n r : strlen l = Some n → strlen (take (Z.to_nat n) l ++ 0 :: r) = Some n.
Proof.
  revert n. induction l as [|c l IH]; intros n; cbn [strlen]; [done|]. destruct (Z.eqb_spec c 0) as [->|Hc]; [intros [= <-]; done|].
  destruct (strlen l) as [k|] eqn:E; [|done]. cbn. intros [= <-]. destruct (strlen_bound l k E) as [Hk _]. replace (Z.to_nat (k + 1)) with (S (Z.to_nat k)) by lia. cbn [take app strlen].
  rewrite (proj2 (Z.eqb_neq _ _) Hc), (IH k eq_refl). done.
Qed.

Definition T_string (maxsize : Z) : xdr_type (option (list Z)) :=
  XdrType (λ sp : option (list Z), match sp ≫= strlen with Some n => be32 n ++ (take (Z.to_nat n) (default [] sp) ++ pad n) | None => [] end)
    (λ sp, ∃ l n, sp = Some l ∧ strlen l = Some n ∧ n <= maxsize ∧ n + 1 < 4294967296 ∧ bytes (take (Z.to_nat n) l))
    (λ sp, sp = None) (λ sp, match sp with None => True | Some l => ∃ n, strlen l = Some n ∧ n <= maxsize ∧ n + 1 < 4294967296 end)
    (λ sp : option (list Z), match sp with Some _ => 1 | None => 0 end) (λ sp sp', sp ≫= cstr = sp' ≫= cstr).

Lemma string_encode maxsize l n s h :
  strlen l = Some n → n <= maxsize → n + 1 < 4294967296 → bytes (take (Z.to_nat n) l) → sinv s →
  match emit s (be32 n ++ (take (Z.to_nat n) l ++ pad n)) with
  | Some s' => xdr_string junk maxsize XDR_ENCODE (Some l) (s, h) = Val (true, Some l, (s', h))
  | None => ∃ s', xdr_string junk maxsize XDR_ENCODE (Some l) (s, h) = Val (false, Some l, (s', h)) ∧ sinv s'
  end.
Proof.
  intros En Hmax Hlt Hb Hs. destruct (strlen_bound l n En) as [Hn Hz]. unfold xdr_string. rewrite En.
  rewrite (xbind _ _ _ _ _ (eq_refl : mret (M := X strm) (wrapu 32 n) (s, h) = Val (wrapu 32 n, (s, h)))), wrapu_small by lia. apply u_int_emit; try done; [unfold uint32; lia|].
  intros s1 Hs1. cbn [negb]. rewrite (proj2 (Z.ltb_ge _ _)) by lia. rewrite wrapu_small by lia. rewrite (proj2 (Z.eqb_neq _ _)) by lia.
  pose proof (opaque_encode n l s1 h ltac:(lia) ltac:(lia) Hb Hs1) as E. destruct (emit s1 _) as [s'|]; [by rewrite (xbind _ _ _ _ _ E)|].
  destruct E as (s' & E & Hs'). rewrite (xbind _ _ _ _ _ E). by exists s'.
Qed.

(** The end of the string is stored before its bytes are got. *)
Lemma string_decode_block n cp0 s h :
  0 <= n → length cp0 = S (Z.to_nat n) → sinv s →
  ∃ b cp s', xdr_opaque n XDR_DECODE (<[Z.to_nat n := 0]> cp0) (s, h) = Val (b, cp, (s', h)) ∧ sinv s' ∧ cp !! Z.to_nat n = Some 0 ∧ (b = true → bytes (take (Z.to_nat n) cp)) ∧
    (∀ bs s'', absorb s (Z.to_nat n + Z.to_nat (rndup_of n)) = Some (bs, s'') → b = true ∧ s' = s'' ∧ cp = take (Z.to_nat n) bs ++ [0]).
Proof.
  intros Hn Hl Hs. set (cp1 := <[Z.to_nat n := 0]> cp0). assert (length cp1 = S (Z.to_nat n)) as L1 by (unfold cp1; by rewrite length_insert).
  assert (drop (Z.to_nat n) cp1 = [0]) as Ed.
  { unfold cp1. rewrite drop_insert_ge, Nat.sub_diag by lia. destruct (drop (Z.to_nat n) cp0) as [|x [|y r]] eqn:E; pose proof (f_equal length E) as F; rewrite length_drop in F; cbn in F; try lia. done. }
  pose proof (opaque_decode n cp1 s h Hn ltac:(lia) Hs) as D. destruct (absorb s _) as [[bs s']|] eqn:E.
  - destruct (absorb_inv _ _ _ _ Hs E) as (Hs' & Hb & Hbb). rewrite D, Ed. eexists true, _, s'. split; [done|]. split; [done|].
    assert (length (take (Z.to_nat n) bs) = Z.to_nat n) as Lt by (rewrite length_take; lia).
    split; [rewrite lookup_app_r, Lt, Nat.sub_diag by lia; done|]. split; [intros _; rewrite take_app_length' by done; by apply Forall_take|]. intros bs' s'' [= <- <-]. done.
  - destruct D as (cp' & s' & -> & Hs' & Hl' & Hd). exists false, cp', s'. split; [done|]. split; [done|]. split; [|done].
    rewrite <- (Nat.add_0_r (Z.to_nat n)), <- lookup_drop, Hd, Ed. done.
Qed.

Lemma string_storage v (s : strm) h : uint32 v → wrapu 32 (v + 1) ≠ 0 → ∃ b h1, storage junk (wrapu 32 (v + 1)) None (s, h) = Val ((if b : bool then Some (junk <$> seq 0 (S (Z.to_nat v))) else None), (s, h1)) ∧
  live h1 = live h + (if b then 1 else 0) ∧ (plenty h → b = true ∧ plenty h1).
Proof.
  unfold uint32. intros Hv Hne. assert (wrapu 32 (v + 1) = v + 1) as ->. { destruct (decide (v + 1 = 4294967296)) as [E|]; [by rewrite E in Hne|]. apply wrapu_small. lia. }
  unfold storage. destruct (alloc_any s h) as (b & h1 & Ea & Hlive). exists b, h1. rewrite (xbind _ _ _ _ _ Ea). replace (Z.to_nat (v + 1)) with (S (Z.to_nat v)) by lia. split; [done|]. split; [done|].
  intros Hp. destruct (alloc_plenty s h Hp) as (h2 & Ea' & Hp'). rewrite Ea in Ea'. by injection Ea' as -> ->.
Qed.

#[export] Instance xdr_string_laws maxsize : XdrLaws (xdr_string junk maxsize) (T_string maxsize).
Proof.
  split; cbn [T_string xenc xok xfresh xgood xblocks xsame].
  - intros sp (l & n & -> & En & _ & _ & Hb). cbn [mbind option_bind]. rewrite En. cbn [default from_option id]. apply Forall_app_2; [apply be32_bytes|apply Forall_app_2; [done|apply pad_bytes]].
  - intros sp s h (l & n & -> & En & Hmax & Hlt & Hb) Hs. cbn [mbind option_bind]. rewrite En. by apply string_encode.
  - intros sp sp0 s h s' (l & n & -> & En & Hmax & Hlt & Hb) -> Hs Hp E. cbn [mbind option_bind] in E. rewrite En in E. cbn [default from_option id] in E. destruct (strlen_bound l n En) as [Hn Hz].
    destruct (u_int_absorb n s _ s' ltac:(unfold uint32; lia) Hs E) as (s1 & E1 & Hs1 & E2). unfold xdr_string.
    rewrite (xbind _ _ _ _ _ (eq_refl : mret (M := X strm) 0 (s, h) = Val (0, (s, h)))), (xbind _ _ _ _ _ (E1 0 h)). cbn [negb]. rewrite (proj2 (Z.ltb_ge _ _)) by lia.
    assert (wrapu 32 (n + 1) ≠ 0) as Hne by (rewrite wrapu_small; lia). rewrite (proj2 (Z.eqb_neq _ _) Hne).
    destruct (string_storage n s1 h ltac:(unfold uint32; lia) Hne) as (b & h1 & Ea & _ & Hb1). destruct (Hb1 Hp) as [-> Hp1]. rewrite (xbind _ _ _ _ _ Ea).
    set (cp0 := junk <$> seq 0 (S (Z.to_nat n))). assert (length cp0 = S (Z.to_nat n)) as Lc by (unfold cp0; by rewrite length_fmap, length_seq).
    rewrite (proj2 (Nat.leb_gt _ _)) by lia. destruct (string_decode_block n cp0 s1 h1 ltac:(lia) Lc Hs1) as (b & cp & s2 & Ed & _ & _ & _ & Hd). rewrite (xbind _ _ _ _ _ Ed).
    assert (length (take (Z.to_nat n) l) = Z.to_nat n) as Lt by (rewrite length_take; lia).
    rewrite length_app, Lt in E2. unfold pad in E2. rewrite length_replicate in E2. destruct (Hd _ _ E2) as (-> & -> & ->). eexists _, h1. split; [done|]. split; [done|].
    rewrite take_app_length' by done. cbn [mbind option_bind]. unfold cstr. rewrite En, (strlen_same l n [] En). cbn. by rewrite take_app_length' by done.
  - intros sp s h -> Hs. unfold xdr_string. rewrite (xbind _ _ _ _ _ (eq_refl : mret (M := X strm) 0 (s, h) = Val (0, (s, h)))). pose proof (u_int_decode 0 s h Hs) as D. destruct (absorb s 4) as [[bs s1]|].
    2:{ destruct D as (s' & D & Hs'). rewrite (xbind _ _ _ _ _ D). exists false, None, s', h. split_and!; try done. lia. }
    destruct D as (D & Hv & Hs1). rewrite (xbind _ _ _ _ _ D). cbn [negb]. set (v := be32_val bs) in *. clearbody v. destruct (Z.ltb_spec maxsize v) as [Hgt|Hle].
    { exists false, None, s1, h. split_and!; try done. lia. }
    destruct (Z.eqb_spec (wrapu 32 (v + 1)) 0) as [E0|Hne]. { exists false, None, s1, h. split_and!; try done. lia. }
    assert (v + 1 < 4294967296) as Hlt. { unfold uint32 in Hv. destruct (decide (v + 1 = 4294967296)) as [E|]; [by rewrite E in Hne|lia]. }
    destruct (string_storage v s1 h Hv Hne) as ([] & h1 & Ea & Hlive & _); rewrite (xbind _ _ _ _ _ Ea); [|by exists false, None, s1, h1].
    set (cp0 := junk <$> seq 0 (S (Z.to_nat v))). assert (length cp0 = S (Z.to_nat v)) as Lc by (unfold cp0; by rewrite length_fmap, length_seq).
    rewrite (proj2 (Nat.leb_gt _ _)) by lia. unfold uint32 in Hv. destruct (string_decode_block v cp0 s1 h1 ltac:(lia) Lc Hs1) as (b & cp & s2 & Ed & Hs2 & Hz & Hbb & _). rewrite (xbind _ _ _ _ _ Ed).
    destruct (strlen_at cp _ Hz) as (k & Ek & Hk). exists b, (Some cp), s2, h1. split_and!; try done; [exists k; split; [done|lia]|]. intros Hb. exists cp, k. split_and!; try done; try lia.
    specialize (Hbb Hb). replace (take (Z.to_nat k) cp) with (take (Z.to_nat k) (take (Z.to_nat v) cp)) by (rewrite take_take; f_equal; lia). by apply Forall_take.
  - intros [l|] s h Hg; [|exists true, None; rewrite free_none; done]. destruct Hg as (n & En & Hmax & Hlt). destruct (strlen_bound l n En) as [Hn _]. unfold xdr_string. rewrite En.
    rewrite (xbind _ _ _ _ _ (eq_refl : mret (M := X strm) (wrapu 32 n) (s, h) = Val (wrapu 32 n, (s, h)))), wrapu_small by lia.
    rewrite (xbind _ _ _ _ _ (eq_refl : xdr_u_int XDR_FREE n (s, h) = Val (true, n, (s, h)))). cbn [negb]. rewrite (proj2 (Z.ltb_ge _ _)) by lia. rewrite wrapu_small by lia. rewrite (proj2 (Z.eqb_neq _ _)) by lia.
    by exists true, None.
  - intros sp ->. done.
Qed.
End Instances.
End XdrSpec.
