(* ===== verification/XdrCompound.v ===== *)
(** * External data representation: structures, unions, arrays and pointers

    The filters that are composed from other filters keep the promises of
    [XdrLaws] when those do. *)

From S2P Require Import Prelude Xdr XdrSpec.
Local Open Scope Z_scope.

Module XdrCompound.
Import Xdr XdrSpec.

Section Instances.
Context {strm : Type} {Ops : XdrOps strm} {Str : Stream strm}.

Section Compound.
Context {A B : Type} (pa : filter strm A) (pb : filter strm B) (TA : xdr_type A) (TB : xdr_type B).

(** Decoding stops at the member that fails: the next ones are as before. *)
Definition T_pair : xdr_type (A * B) :=
  XdrType (λ '(a, b), xenc TA a ++ xenc TB b) (λ '(a, b), xok TA a ∧ xok TB b) (λ '(a, b), xfresh TA a ∧ xfresh TB b)
    (λ '(a, b), xgood TA a ∧ (xok TA a ∧ xgood TB b ∨ xfresh TB b)) (λ '(a, b), xblocks TA a + xblocks TB b)
    (λ '(a, b) '(a', b'), xsame TA a a' ∧ xsame TB b b').

Context {LA : XdrLaws pa TA} {LB : XdrLaws pb TB}.

#[export] Instance xdr_pair_laws : XdrLaws (xdr_pair pa pb) T_pair.
Proof.
  split; cbn [T_pair xenc xok xfresh xgood xblocks xsame].
  - intros [a b] [Ha Hb]. apply Forall_app_2; by apply enc_bytes.
  - intros [a b] s h [Ha Hb] Hs. unfold xdr_pair. rewrite emit_app. pose proof (law_encode a s h Ha Hs) as E. destruct (emit s (xenc TA a)) as [s1|] eqn:E1; cbn [mbind option_bind].
    2:{ destruct E as (s' & E & Hs'). rewrite (xbind _ _ _ _ _ E). by exists s'. }
    rewrite (xbind _ _ _ _ _ E). cbn [negb]. pose proof (law_encode b s1 h Hb (emit_inv _ _ _ Hs (enc_bytes _ Ha) E1)) as E'. destruct (emit s1 (xenc TB b)) as [s2|]; [by rewrite (xbind _ _ _ _ _ E')|].
    destruct E' as (s' & E' & Hs'). rewrite (xbind _ _ _ _ _ E'). by exists s'.
  - intros [a b] [a0 b0] s h s' [Ha Hb] [Fa Fb] Hs Hp E. destruct (absorb_split _ _ _ _ Hs E) as (s1 & E1 & E2). destruct (absorb_inv _ _ _ _ Hs E1) as (Hs1 & _).
    destruct (law_decode a a0 s h s1 Ha Fa Hs Hp E1) as (a' & h1 & Ea & Hp1 & Sa). destruct (law_decode b b0 s1 h1 s' Hb Fb Hs1 Hp1 E2) as (b' & h2 & Eb & Hp2 & Sb).
    unfold xdr_pair. rewrite (xbind _ _ _ _ _ Ea). cbn [negb]. rewrite (xbind _ _ _ _ _ Eb). by exists (a', b'), h2.
  - intros [a0 b0] s h [Fa Fb] Hs. destruct (law_safe a0 s h Fa Hs) as (ba & a' & s1 & h1 & Ea & Hs1 & Ga & La & Oa). unfold xdr_pair. rewrite (xbind _ _ _ _ _ Ea). destruct ba; cbn [negb].
    + destruct (law_safe b0 s1 h1 Fb Hs1) as (bb & b' & s2 & h2 & Eb & Hs2 & Gb & Lb & Ob). rewrite (xbind _ _ _ _ _ Eb). exists bb, (a', b'), s2, h2. split_and!; try done; [auto|lia|auto].
    + destruct (law_fresh b0 Fb). exists false, (a', b0), s1, h1. split_and!; try done; [by right|lia].
  - intros [a b] s h [Ga Gb]. destruct (law_free a s h Ga) as (ba & a' & Ea & Za & Ta). unfold xdr_pair. rewrite (xbind _ _ _ _ _ Ea). destruct ba; cbn [negb].
    + assert (xgood TB b) as Gb' by (destruct Gb as [[_ ?]|Fb]; [done|by destruct (law_fresh b Fb)]).
      destruct (law_free b s (Host (answers h) (live h - xblocks TA a)) Gb') as (bb & b' & Eb & Zb & Tb). rewrite (xbind _ _ _ _ _ Eb). exists bb, (a', b'). cbn [answers live]. split_and!; [|lia|intros [_ ?]; auto].
      by rewrite Z.sub_add_distr.
    + destruct Gb as [[Oa _]|Fb]; [specialize (Ta Oa); done|]. destruct (law_fresh b Fb) as [_ Zb]. exists false, (a', b). split_and!; [|lia|intros [Oa _]; auto]. rewrite Zb, Z.add_0_r. done.
  - intros [a b] [Fa Fb]. destruct (law_fresh a Fa), (law_fresh b Fb). split; [split; [done|by right]|lia].
Qed.

(** A pointer to storage that is never null on the wire. *)
Definition T_reference : xdr_type (option A) :=
  XdrType (λ o, match o with Some a => xenc TA a | None => [] end) (λ o, match o with Some a => xok TA a | None => False end)
    (λ o, o = None) (λ o, match o with Some a => xgood TA a | None => True end) (λ o, match o with Some a => 1 + xblocks TA a | None => 0 end)
    (λ o o', match o, o' with Some a, Some a' => xsame TA a a' | None, None => True | _, _ => False end).

Context (zero : A) (Hzero : xfresh TA zero).

Lemma xdr_reference_laws : XdrLaws (xdr_reference pa zero) T_reference.
Proof.
  split; cbn [T_reference xenc xok xfresh xgood xblocks xsame].
  - intros [a|] Ha; [by apply enc_bytes|done].
  - intros [a|] s h Ha Hs; [|done]. unfold xdr_reference. pose proof (law_encode a s h Ha Hs) as E. destruct (emit s (xenc TA a)) as [s'|]; [by rewrite (xbind _ _ _ _ _ E)|].
    destruct E as (s' & E & Hs'). rewrite (xbind _ _ _ _ _ E). by exists s'.
  - intros [a|] o s h s' Ha -> Hs Hp E; [|done]. unfold xdr_reference. destruct (alloc_plenty s h Hp) as (h1 & Ea & Hp1). rewrite (xbind _ _ _ _ _ Ea). cbn [negb].
    destruct (law_decode a zero s h1 s' Ha Hzero Hs Hp1 E) as (a' & h' & Ed & Hp' & Hsame). rewrite (xbind _ _ _ _ _ Ed). by exists (Some a'), h'.
  - intros o s h -> Hs. unfold xdr_reference. destruct (alloc_any s h) as ([] & h1 & Ea & Hl); rewrite (xbind _ _ _ _ _ Ea); cbn [negb]; [|by exists false, None, s, h1].
    destruct (law_safe zero s h1 Hzero Hs) as (b & a' & s' & h' & Ed & Hs' & Hg & Hl' & Hok). rewrite (xbind _ _ _ _ _ Ed). exists b, (Some a'), s', h'. split_and!; try done. lia.
  - intros [a|] s h Hg; [|exists true, None; rewrite free_none; done]. destruct (law_free a s h Hg) as (b & a' & E & _ & Ht). unfold xdr_reference. rewrite (xbind _ _ _ _ _ E).
    exists b, None. split_and!; try done. unfold mbind, X_bind, mem_free, mret, X_ret. cbn. do 4 f_equal. lia.
  - intros o ->. done.
Qed.

(** A pointer that may be null. *)
Definition T_pointer : xdr_type (option A) :=
  XdrType (λ o, match o with Some a => be32 1 ++ xenc TA a | None => be32 0 end) (λ o, match o with Some a => xok TA a | None => True end)
    (xfresh T_reference) (xgood T_reference) (xblocks T_reference) (xsame T_reference).

#[local] Existing Instance xdr_reference_laws.

Lemma xdr_pointer_laws : XdrLaws (xdr_pointer pa zero) T_pointer.
Proof.
  split; cbn [T_pointer xenc xok].
  - intros [a|] Ha; [apply Forall_app_2; [apply be32_bytes|by apply enc_bytes]|apply be32_bytes].
  - intros [a|] s h Ha Hs; unfold xdr_pointer; [rewrite bool_decide_eq_true_2 by done|rewrite bool_decide_eq_false_2 by (by intros [? ?])].
    + rewrite emit_app. pose proof (law_encode (proc := xdr_bool) (T := T_bool) 1 s h ltac:(cbn; auto) Hs) as E. cbn [T_bool T_num xenc] in E. cbn [Z.eqb] in E. destruct (emit s (be32 1)) as [s1|] eqn:E1; cbn [mbind option_bind].
      2:{ destruct E as (s' & E & Hs'). rewrite (xbind _ _ _ _ _ E). by exists s'. }
      rewrite (xbind _ _ _ _ _ E). cbn [negb Z.eqb]. apply (law_encode (proc := xdr_reference pa zero) (T := T_reference) (Some a)); [done|exact (emit_inv _ _ _ Hs (be32_bytes _) E1)].
    + pose proof (law_encode (proc := xdr_bool) (T := T_bool) 0 s h ltac:(cbn; auto) Hs) as E. cbn [T_bool T_num xenc] in E. cbn [Z.eqb] in E. destruct (emit s (be32 0)) as [s1|]; [by rewrite (xbind _ _ _ _ _ E)|].
      destruct E as (s' & E & Hs'). rewrite (xbind _ _ _ _ _ E). by exists s'.
  - intros o o0 s h s' Ha F0 Hs Hp E. cbn in F0. subst o0. unfold xdr_pointer. rewrite bool_decide_eq_false_2 by (by intros [? ?]). destruct o as [a|].
    + destruct (absorb_split _ _ _ _ Hs E) as (s1 & E1 & E2). destruct (absorb_inv _ _ _ _ Hs E1) as (Hs1 & _).
      destruct (law_decode (proc := xdr_bool) (T := T_bool) 1 0 s h s1) as (v & h1 & Ev & Hp1 & <-); try done; [cbn; auto|]. rewrite (xbind _ _ _ _ _ Ev). cbn [negb Z.eqb].
      by apply (law_decode (proc := xdr_reference pa zero) (T := T_reference) (Some a)).
    + destruct (law_decode (proc := xdr_bool) (T := T_bool) 0 0 s h s') as (v & h1 & Ev & Hp1 & <-); try done; [cbn; auto|]. rewrite (xbind _ _ _ _ _ Ev). by exists None, h1.
  - intros o0 s h F0 Hs. cbn in F0. subst o0. unfold xdr_pointer. rewrite bool_decide_eq_false_2 by (by intros [? ?]).
    destruct (law_safe (proc := xdr_bool) (T := T_bool) 0 s h) as (b & v & s1 & h1 & Ev & Hs1 & _ & Hl & Hok); try done. rewrite (xbind _ _ _ _ _ Ev). destruct b; cbn [negb].
    2:{ exists false, None, s1, h1. by split_and!. }
    destruct (Z.eqb_spec v 0) as [->|Hv]; [exists true, None, s1, h1; by split_and!|].
    destruct (law_safe (proc := xdr_reference pa zero) (T := T_reference) None s1 h1) as (b & o & s' & h' & Ed & Hs' & Hg & Hl' & Hok'); try done. exists b, o, s', h'.
    split_and!; try done; [change (xblocks T_bool v) with 0 in Hl; change (xblocks T_pointer o) with (xblocks T_reference o); lia|]. intros Hb. specialize (Hok' Hb). by destruct o.
  - intros o s h Hg. unfold xdr_pointer. rewrite (xbind _ _ _ _ _ (eq_refl : xdr_bool XDR_FREE _ (s, h) = Val (true, _, (s, h)))). cbn [negb]. destruct o as [a|].
    + rewrite bool_decide_eq_true_2 by done. cbn [Z.eqb]. by apply (law_free (proc := xdr_reference pa zero) (T := T_reference) (Some a)).
    + rewrite bool_decide_eq_false_2 by (by intros [? ?]). cbn [Z.eqb]. exists true, None. cbn. rewrite free_none. done.
  - intros o F. by apply (law_fresh (proc := xdr_reference pa zero) (T := T_reference)).
Qed.
End Compound.

(** A discriminated union: the arm that the discriminant selects. *)
Section Union.
Context {U : Type}.

Fixpoint find_type (types : list (Z * xdr_type U)) (dfault : option (xdr_type U)) (dscm : Z) : option (xdr_type U) :=
  match types with
  | [] => dfault
  | (value, T) :: types => if value =? dscm then Some T else find_type types dfault dscm
  end.

Definition T_union (types : list (Z * xdr_type U)) (dfault : option (xdr_type U)) : xdr_type (Z * U) :=
  let arm {R : Type} (none : R) (some : xdr_type U → R) (d : Z) : R := match find_type types dfault d with Some T => some T | None => none end in
  XdrType (λ '(d, u), be32 d ++ arm [] (λ T, xenc T u) d) (λ '(d, u), int32 d ∧ arm False (λ T, xok T u) d)
    (λ '(_, u), ∀ d, arm True (λ T, xfresh T u) d) (λ '(d, u), arm True (λ T, xgood T u) d) (λ '(d, u), arm 0 (λ T, xblocks T u) d)
    (λ '(d, u) '(d', u'), d = d' ∧ arm False (λ T, xsame T u u') d).

(** The arms of the union promise what the types say. *)
Class ArmLaws (choices : list (Z * filter strm U)) (types : list (Z * xdr_type U)) : Prop :=
  arm_laws : Forall2 (λ c t, c.1 = t.1 ∧ XdrLaws c.2 t.2) choices types.
Class DefaultLaws (proc : option (filter strm U)) (T : option (xdr_type U)) : Prop :=
  default_laws : option_Forall2 (λ p T, XdrLaws p T) proc T.

Lemma find_laws choices types dproc dT d :
  ArmLaws choices types → DefaultLaws dproc dT → option_Forall2 (λ p T, XdrLaws p T) (find_choice choices dproc d) (find_type types dT d).
Proof. intros HA HD. induction HA as [|[v p] [v' T] cs ts [[= ->] Hp] _ IH]; cbn; [exact HD|]. case_match; [by constructor|done]. Qed.

#[export] Instance xdr_union_laws choices types dproc dT :
  ArmLaws choices types → DefaultLaws dproc dT → XdrLaws (xdr_union choices dproc) (T_union types dT).
Proof.
  intros HA HD. pose proof (λ d, find_laws choices types dproc dT d HA HD) as HF. clear HA HD. split; cbn [T_union xenc xok xfresh xgood xblocks xsame].
  - intros [d u] [_ Ha]. destruct (HF d) as [p T Hp|]; [|done]. apply Forall_app_2; [apply be32_bytes|by apply enc_bytes].
  - intros [d u] s h [Hd Ha] Hs. unfold xdr_union. rewrite emit_app. pose proof (law_encode (proc := xdr_enum) (T := T_int) d s h Hd Hs) as E. cbn [T_int T_num xenc] in E.
    destruct (emit s (be32 d)) as [s1|] eqn:E1; cbn [mbind option_bind]; [|destruct E as (s' & E & Hs'); rewrite (xbind _ _ _ _ _ E); by exists s'].
    rewrite (xbind _ _ _ _ _ E). cbn [negb]. destruct (HF d) as [p T Hp|]; [|done]. pose proof (law_encode u s1 h Ha (emit_inv _ _ _ Hs (be32_bytes _) E1)) as E'.
    destruct (emit s1 (xenc T u)) as [s2|]; [by rewrite (xbind _ _ _ _ _ E')|]. destruct E' as (s' & E' & Hs'). rewrite (xbind _ _ _ _ _ E'). by exists s'.
  - intros [d u] [d0 u0] s h s' [Hd Ha] F0 Hs Hp E. destruct (absorb_split _ _ _ _ Hs E) as (s1 & E1 & E2). destruct (absorb_inv _ _ _ _ Hs E1) as (Hs1 & _).
    destruct (law_decode (proc := xdr_enum) (T := T_int) d d0 s h s1) as (v & h1 & Ev & Hp1 & <-); try done. unfold xdr_union. rewrite (xbind _ _ _ _ _ Ev). cbn [negb]. specialize (F0 d).
    destruct (HF d) as [p T Hlaws|]; [|done]. destruct (law_decode u u0 s1 h1 s' Ha F0 Hs1 Hp1 E2) as (u' & h2 & Eu & Hp2 & Hu). rewrite (xbind _ _ _ _ _ Eu). exists (d, u'), h2.
    by split_and!.
  - intros [d0 u0] s h F0 Hs. unfold xdr_union. destruct (law_safe (proc := xdr_enum) (T := T_int) d0 s h) as (b & d & s1 & h1 & Ev & Hs1 & _ & Hl & Hok); try done.
    rewrite (xbind _ _ _ _ _ Ev). change (xblocks T_int d) with 0 in Hl. pose proof (F0 d) as Fd. destruct b; cbn [negb].
    + destruct (find_choice choices dproc d) as [p|] eqn:Ec; destruct (find_type types dT d) as [T|] eqn:Et; pose proof (HF d) as HFd; rewrite Ec, Et in HFd; inversion HFd as [? ? Hlaws|]; simplify_eq.
      * destruct (law_safe u0 s1 h1 Fd Hs1) as (b & u' & s2 & h2 & Eu & Hs2 & Gu & Lu & Ou). rewrite (xbind _ _ _ _ _ Eu). exists b, (d, u'), s2, h2. rewrite Et. split_and!; try done; [lia|]. intros Hb. split; [by apply Hok|auto].
      * exists false, (d, u0), s1, h1. rewrite Et. split_and!; try done. 
    + exists false, (d, u0), s1, h1. pose proof (HF d) as HFd. destruct (find_type types dT d) as [T|]; inversion HFd as [? ? Hlaws|]; simplify_eq; [|by split_and!].
      destruct (law_fresh u0 Fd). split_and!; try done. lia.
  - intros [d u] s h Gu. unfold xdr_union. rewrite (xbind _ _ _ _ _ (eq_refl : xdr_enum XDR_FREE d (s, h) = Val (true, d, (s, h)))). cbn [negb].
    destruct (find_choice choices dproc d) as [p|] eqn:Ec; destruct (find_type types dT d) as [T|] eqn:Et; pose proof (HF d) as HFd; rewrite Ec, Et in HFd; inversion HFd as [? ? Hlaws|]; simplify_eq.
    + destruct (law_free u s h Gu) as (b & u' & E & Z' & Ht). rewrite (xbind _ _ _ _ _ E). exists b, (d, u'). rewrite Et. split_and!; try done. intros [_ ?]; auto.
    + exists false, (d, u). rewrite Et, free_none. split_and!; try done. by intros [_ ?].
  - intros [d u] F. pose proof (HF d) as HFd. specialize (F d). destruct (find_type types dT d) as [T|]; inversion HFd as [? ? Hlaws|]; simplify_eq; [|done]. by apply law_fresh.
Qed.
End Union.

#[export] Instance arm_laws_nil {U} : ArmLaws (U := U) [] [].
Proof. constructor. Qed.
#[export] Instance arm_laws_cons {U} v (p : filter strm U) T choices types : XdrLaws p T → ArmLaws choices types → ArmLaws ((v, p) :: choices) ((v, T) :: types).
Proof. by constructor. Qed.
#[export] Instance default_laws_none {U} : DefaultLaws (U := U) None None.
Proof. constructor. Qed.
#[export] Instance default_laws_some {U} (p : filter strm U) T : XdrLaws p T → DefaultLaws (Some p) (Some T).
Proof. by constructor. Qed.

(** Elements one after another. *)
Section Elements.
Context {A : Type} (elproc : filter strm A) (T : xdr_type A) {L : XdrLaws elproc T}.

(** Decoding stops at the element that fails. *)
Fixpoint partial (l : list A) : Prop :=
  match l with
  | [] => True
  | a :: l => xgood T a ∧ (xok T a ∧ partial l ∨ Forall (xfresh T) l)
  end.
Definition blocks_of (l : list A) : Z := foldr (λ a n, xblocks T a + n) 0 l.
Definition enc_of (l : list A) : list Z := concat (xenc T <$> l).

Definition T_vector (n : nat) : xdr_type (list A) :=
  XdrType enc_of (λ l, length l = n ∧ Forall (xok T) l) (λ l, length l = n ∧ Forall (xfresh T) l) (λ l, length l = n ∧ partial l) blocks_of (Forall2 (xsame T)).

Lemma blocks_cons a l : blocks_of (a :: l) = xblocks T a + blocks_of l.
Proof. done. Qed.

Lemma fresh_blocks l : Forall (xfresh T) l → partial l ∧ blocks_of l = 0.
Proof. induction 1 as [|a l Ha Hl [IH1 IH2]]; [done|]. destruct (law_fresh a Ha) as [? E]. rewrite blocks_cons. split; [cbn; auto|lia]. Qed.

Lemma elems_encode l s h : Forall (xok T) l → sinv s →
  match emit s (enc_of l) with
  | Some s' => xdr_elems elproc XDR_ENCODE (length l) l (s, h) = Val (true, l, (s', h))
  | None => ∃ s', xdr_elems elproc XDR_ENCODE (length l) l (s, h) = Val (false, l, (s', h)) ∧ sinv s'
  end.
Proof.
  intros Hl. revert s. induction Hl as [|a l Ha Hl IH]; intros s Hs; cbn [enc_of concat fmap list_fmap]; [by rewrite emit_nil|].
  rewrite emit_app. cbn [length xdr_elems]. pose proof (law_encode a s h Ha Hs) as E. destruct (emit s (xenc T a)) as [s1|] eqn:E1; cbn [mbind option_bind].
  2:{ destruct E as (s' & E & Hs'). rewrite (xbind _ _ _ _ _ E). by exists s'. }
  rewrite (xbind _ _ _ _ _ E). cbn [negb]. specialize (IH s1 (emit_inv _ _ _ Hs (enc_bytes _ Ha) E1)). fold (enc_of l). destruct (emit s1 (enc_of l)) as [s2|]; [by rewrite (xbind _ _ _ _ _ IH)|].
  destruct IH as (s' & IH & Hs'). rewrite (xbind _ _ _ _ _ IH). by exists s'.
Qed.

Lemma elems_decode l l0 s h s' : Forall (xok T) l → Forall (xfresh T) l0 → length l0 = length l → sinv s → plenty h → absorb s (length (enc_of l)) = Some (enc_of l, s') →
  ∃ l' h', xdr_elems elproc XDR_DECODE (length l) l0 (s, h) = Val (true, l', (s', h')) ∧ plenty h' ∧ Forall2 (xsame T) l l'.
Proof.
  intros Hl. revert l0 s h. induction Hl as [|a l Ha Hl IH]; intros l0 s h F0 Hlen Hs Hp E.
  - cbn in E. rewrite absorb_nil in E. injection E as <-. cbn [xdr_elems length]. by exists l0, h; destruct l0.
  - destruct l0 as [|a0 l0]; [done|]. apply Forall_cons in F0 as [Fa F0]. destruct (absorb_split _ _ _ _ Hs E) as (s1 & E1 & E2). destruct (absorb_inv _ _ _ _ Hs E1) as (Hs1 & _).
    destruct (law_decode a a0 s h s1 Ha Fa Hs Hp E1) as (a' & h1 & Ea & Hp1 & Sa). destruct (IH l0 s1 h1 F0 ltac:(by injection Hlen) Hs1 Hp1 E2) as (l' & h2 & El & Hp2 & Sl).
    cbn [length xdr_elems]. rewrite (xbind _ _ _ _ _ Ea). cbn [negb]. rewrite (xbind _ _ _ _ _ El). exists (a' :: l'), h2. by split_and!; [..|constructor].
Qed.

Lemma elems_safe l0 s h : Forall (xfresh T) l0 → sinv s →
  ∃ b l s' h', xdr_elems elproc XDR_DECODE (length l0) l0 (s, h) = Val (b, l, (s', h')) ∧ sinv s' ∧ length l = length l0 ∧ partial l ∧ live h' = live h + blocks_of l ∧ (b = true → Forall (xok T) l).
Proof.
  intros F0. revert s h. induction F0 as [|a0 l0 Fa F0 IH]; intros s h Hs; cbn [length xdr_elems].
  - exists true, [], s, h. split_and!; try done. cbn. lia.
  - destruct (law_safe a0 s h Fa Hs) as (b & a & s1 & h1 & Ea & Hs1 & Ga & La & Oa). rewrite (xbind _ _ _ _ _ Ea). destruct b; cbn [negb].
    + destruct (IH s1 h1 Hs1) as (b & l & s' & h' & El & Hs' & Hlen & Pl & Ll & Ol). rewrite (xbind _ _ _ _ _ El). exists b, (a :: l), s', h'. rewrite blocks_cons. split_and!; try done; [cbn; lia|cbn; destruct b; auto|lia|constructor; auto].
    + destruct (fresh_blocks l0 F0) as [_ Z0]. exists false, (a :: l0), s1, h1. rewrite blocks_cons. split_and!; try done; [cbn; auto|lia].
Qed.

Lemma elems_free l s h : partial l →
  ∃ b l', xdr_elems elproc XDR_FREE (length l) l (s, h) = Val (b, l', (s, Host (answers h) (live h - blocks_of l))) ∧ blocks_of l' = 0 ∧ (Forall (xok T) l → b = true).
Proof.
  revert h. induction l as [|a l IH]; intros h; rewrite ?blocks_cons; cbn [length xdr_elems partial].
  - intros _. exists true, []. by rewrite free_none.
  - intros [Ga Hl]. destruct (law_free a s h Ga) as (b & a' & Ea & Za & Ta). rewrite (xbind _ _ _ _ _ Ea). destruct b; cbn [negb].
    + assert (partial l) as Pl by (destruct Hl as [[_ ?]|Fl]; [done|by apply fresh_blocks]). destruct (IH (Host (answers h) (live h - xblocks T a)) Pl) as (b & l' & El & Zl & Tl). rewrite (xbind _ _ _ _ _ El).
      exists b, (a' :: l'). cbn [answers live]. rewrite Z.sub_add_distr. split_and!; [done| |by intros [_ ?]%Forall_cons; auto]. rewrite blocks_cons. lia.
    + destruct Hl as [[Oa _]|Fl]; [by specialize (Ta Oa)|]. destruct (fresh_blocks l Fl) as [_ Z0]. exists false, (a' :: l). rewrite Z0, Z.add_0_r. split_and!; [done| |by intros [Oa _]%Forall_cons; auto].
      rewrite blocks_cons. lia.
Qed.

Lemma enc_of_bytes l : Forall (xok T) l → bytes (enc_of l).
Proof. induction 1 as [|a l Ha _ IH]; [constructor|]. apply Forall_app_2; [by apply enc_bytes|done]. Qed.

#[export] Instance xdr_vector_laws n : XdrLaws (xdr_vector n elproc) (T_vector n).
Proof.
  split; cbn [T_vector xenc xok xfresh xgood xblocks xsame]; unfold xdr_vector.
  - intros l [_ Hl]. by apply enc_of_bytes.
  - intros l s h [<- Hl] Hs. by apply elems_encode.
  - intros l l0 s h s' [<- Hl] [H0 F0] Hs Hp E. by apply elems_decode.
  - intros l0 s h [<- F0] Hs. destruct (elems_safe l0 s h F0 Hs) as (b & l & s' & h' & El & Hs' & Hlen & Pl & Ll & Ol). exists b, l, s', h'. by split_and!; auto.
  - intros l s h [<- Pl]. destruct (elems_free l s h Pl) as (b & l' & El & Zl & Tl). exists b, l'. split_and!; try done. intros [_ ?]; auto.
  - intros l [Hlen Fl]. by destruct (fresh_blocks l Fl).
Qed.

(** A counted array. *)
Definition T_array (maxsize elsize : Z) : xdr_type (option (list A) * Z) :=
  XdrType (λ '(o, n), be32 n ++ enc_of (default [] o))
    (λ '(o, n), uint32 n ∧ n <= maxsize ∧ n <= LASTUNSIGNED / elsize ∧ length (default [] o) = Z.to_nat n ∧ Forall (xok T) (default [] o))
    (λ '(o, _), o = None) (λ '(o, n), match o with Some l => length l = Z.to_nat n ∧ partial l | None => True end)
    (λ '(o, n), match o with Some l => 1 + blocks_of l | None => 0 end) (λ '(o, n) '(o', n'), n = n' ∧ Forall2 (xsame T) (default [] o) (default [] o')).

Context (maxsize elsize : Z) (zero : A).

Lemma array_encode o n s h : 0 < elsize → xok (T_array maxsize elsize) (o, n) → sinv s →
  match emit s (xenc (T_array maxsize elsize) (o, n)) with
  | Some s' => xdr_array maxsize elsize elproc zero XDR_ENCODE (o, n) (s, h) = Val (true, (o, n), (s', h))
  | None => ∃ s', xdr_array maxsize elsize elproc zero XDR_ENCODE (o, n) (s, h) = Val (false, (o, n), (s', h)) ∧ sinv s'
  end.
Proof.
  intros Hel (Hn & Hmax & Hdiv & Hlen & Hl) Hs. cbn [T_array xenc]. unfold xdr_array. apply u_int_emit; try done. intros s1 Hs1. cbn [negb].
  rewrite (proj2 (Z.eqb_neq elsize 0)), !(proj2 (Z.ltb_ge _ _)) by lia. cbn [orb andb]. destruct o as [l|]; cbn [default from_option id] in *.
  - rewrite <- Hlen. pose proof (elems_encode l s1 h Hl Hs1) as E. destruct (emit s1 (enc_of l)) as [s'|]; [by rewrite (xbind _ _ _ _ _ E)|].
    destruct E as (s' & E & Hs'). rewrite (xbind _ _ _ _ _ E). by exists s'.
  - cbn in Hlen. unfold uint32 in Hn. assert (n = 0) as -> by lia. cbn. by rewrite emit_nil.
Qed.

Lemma array_decode o n n0 s h s' : 0 < elsize → xfresh T zero → xok (T_array maxsize elsize) (o, n) → sinv s → plenty h →
  absorb s (length (xenc (T_array maxsize elsize) (o, n))) = Some (xenc (T_array maxsize elsize) (o, n), s') →
  ∃ a' h', xdr_array maxsize elsize elproc zero XDR_DECODE (None, n0) (s, h) = Val (true, a', (s', h')) ∧ plenty h' ∧ xsame (T_array maxsize elsize) (o, n) a'.
Proof.
  intros Hel Hz (Hn & Hmax & Hdiv & Hlen & Hl) Hs Hp E. cbn [T_array xenc] in E. destruct (u_int_absorb n s _ s' Hn Hs E) as (s1 & En & Hs1 & E2). unfold xdr_array.
  rewrite (xbind _ _ _ _ _ (En n0 h)). cbn [negb]. rewrite (proj2 (Z.eqb_neq elsize 0)), !(proj2 (Z.ltb_ge _ _)) by lia. cbn [orb andb]. unfold uint32 in Hn. destruct (Z.eqb_spec n 0) as [->|Hn0].
  - destruct (default [] o) eqn:Eo; [|done]. cbn in E2. rewrite absorb_nil in E2. injection E2 as <-. exists (None, 0), h. cbn. rewrite Eo. done.
  - destruct (alloc_plenty s1 h Hp) as (h1 & Ea & Hp1). rewrite (xbind _ _ _ _ _ Ea). cbn [negb].
    destruct (elems_decode (default [] o) (replicate (Z.to_nat n) zero) s1 h1 s' Hl) as (l' & h' & El & Hp' & Hsame); try done; [by apply Forall_replicate|by rewrite length_replicate|].
    rewrite Hlen in El. rewrite (xbind _ _ _ _ _ El). by exists (Some l', n), h'.
Qed.

Lemma array_safe n0 s h : 0 < elsize → xfresh T zero → sinv s →
  ∃ b a' s' h', xdr_array maxsize elsize elproc zero XDR_DECODE (None, n0) (s, h) = Val (b, a', (s', h')) ∧ sinv s' ∧ xgood (T_array maxsize elsize) a' ∧
    live h' = live h + xblocks (T_array maxsize elsize) a' ∧ (b = true → xok (T_array maxsize elsize) a').
Proof.
  intros Hel Hz Hs. unfold xdr_array. pose proof (u_int_decode n0 s h Hs) as D. destruct (absorb s 4) as [[bs s1]|].
  2:{ destruct D as (s' & D & Hs'). rewrite (xbind _ _ _ _ _ D). exists false, (None, n0), s', h. cbn. split_and!; try done. lia. }
  destruct D as (D & Hn & Hs1). rewrite (xbind _ _ _ _ _ D). cbn [negb]. set (n := be32_val bs) in *. rewrite (proj2 (Z.eqb_neq elsize 0)) by lia. rewrite bool_decide_eq_false_2 by done. cbn [negb].
  rewrite andb_true_r. unfold uint32 in Hn. destruct (Z.ltb_spec maxsize n); cbn [orb]; [exists false, (None, n), s1, h; cbn; split_and!; try done; lia|].
  destruct (Z.ltb_spec (LASTUNSIGNED / elsize) n); [exists false, (None, n), s1, h; cbn; split_and!; try done; lia|].
  destruct (Z.eqb_spec n 0) as [Hn0|Hn0]; [exists true, (None, n), s1, h; cbn [T_array xok xgood xblocks default from_option id]; rewrite Hn0 in *; split_and!; try done; lia|].
  destruct (alloc_any s1 h) as ([] & h1 & Ea & Hl1); rewrite (xbind _ _ _ _ _ Ea); cbn [negb]; [|exists false, (None, n), s1, h1; cbn; split_and!; try done; lia].
  destruct (elems_safe (replicate (Z.to_nat n) zero) s1 h1) as (b & l & s' & h' & El & Hs' & Hlen & Pl & Ll & Ol); [by apply Forall_replicate|done|]. rewrite length_replicate in El, Hlen.
  rewrite (xbind _ _ _ _ _ El). exists b, (Some l, n), s', h'. cbn [T_array xok xgood xblocks default from_option id]. split_and!; try done; [lia|]. intros Hb. split_and!; auto; unfold uint32; lia.
Qed.

Lemma xdr_array_laws : 0 < elsize → xfresh T zero → XdrLaws (xdr_array maxsize elsize elproc zero) (T_array maxsize elsize).
Proof.
  intros Hel Hz. split.
  - intros [o n] (_ & _ & _ & _ & Hl). apply Forall_app_2; [apply be32_bytes|by apply enc_of_bytes].
  - intros [o n] s h Ha Hs. by apply array_encode.
  - intros [o n] [o0 n0] s h s' Ha F0 Hs Hp E. cbn in F0. subst o0. by apply array_decode.
  - intros [o0 n0] s h F0 Hs. cbn in F0. subst o0. by apply array_safe.
  - intros [o n] s h Hg. unfold xdr_array. rewrite (xbind _ _ _ _ _ (eq_refl : xdr_u_int XDR_FREE n (s, h) = Val (true, n, (s, h)))). cbn [negb].
    rewrite (proj2 (Z.eqb_neq elsize 0)), bool_decide_eq_true_2, andb_false_r by (done || lia). destruct o as [l|]; [|exists true, (None, n); cbn; rewrite free_none; done].
    destruct Hg as [Hlen Pl]. rewrite <- Hlen. destruct (elems_free l s h Pl) as (b & l' & El & Zl & Tl). rewrite (xbind _ _ _ _ _ El). exists b, (None, n). split_and!; try done.
    + unfold mbind, X_bind, mem_free, mret, X_ret. cbn. fold (blocks_of l). do 4 f_equal. lia.
    + intros (_ & _ & _ & _ & ?); auto.
  - intros [o n] F. cbn in F. by subst o.
Qed.
End Elements.
End Instances.

(** ** Descriptions of types *)

Inductive num : Type :=
  | n_int | n_u_int | n_long | n_u_long | n_hyper | n_u_hyper | n_longlong_t | n_u_longlong_t | n_short | n_u_short | n_char | n_u_char | n_bool | n_enum
  | n_int64_t | n_uint64_t | n_quad_t | n_u_quad_t | n_int32_t | n_uint32_t | n_int16_t | n_uint16_t | n_int8_t | n_uint8_t.

(** Types that the filters can be put together for: those in which the arms
    of a union have one type, and which are not recursive.  [zero] is an
    element whose bytes are all zero. *)
Inductive desc : Type → Type :=
  | d_void : desc unit
  | d_num : num → desc Z
  | d_opaque : Z → desc (list Z)
  | d_bytes : Z → desc (option (list Z) * Z)
  | d_netobj : desc (option (list Z) * Z)
  | d_string : Z → desc (option (list Z))
  | d_wrapstring : desc (option (list Z))
  | d_pair {A B : Type} : desc A → desc B → desc (A * B)
  | d_reference {A : Type} (zero : A) : desc A → desc (option A)
  | d_pointer {A : Type} (zero : A) : desc A → desc (option A)
  | d_vector {A : Type} : nat → desc A → desc (list A)
  | d_array {A : Type} (maxsize elsize : Z) (zero : A) : desc A → desc (option (list A) * Z)
  | d_union {U : Type} : list (Z * desc U) → option (desc U) → desc (Z * U).

Section Descriptions.
Context {strm : Type} {Ops : XdrOps strm} (junk : nat → Z).

Definition num_proc (n : num) : filter strm Z :=
  match n with
  | n_int => xdr_int | n_u_int => xdr_u_int | n_long => xdr_long | n_u_long => xdr_u_long | n_hyper => xdr_hyper | n_u_hyper => xdr_u_hyper
  | n_longlong_t => xdr_longlong_t | n_u_longlong_t => xdr_u_longlong_t | n_short => xdr_short | n_u_short => xdr_u_short | n_char => xdr_char | n_u_char => xdr_u_char
  | n_bool => xdr_bool | n_enum => xdr_enum | n_int64_t => xdr_int64_t | n_uint64_t => xdr_uint64_t | n_quad_t => xdr_quad_t | n_u_quad_t => xdr_u_quad_t
  | n_int32_t => xdr_int32_t | n_uint32_t => xdr_uint32_t | n_int16_t => xdr_int16_t | n_uint16_t => xdr_uint16_t | n_int8_t => xdr_int8_t | n_uint8_t => xdr_uint8_t
  end.

(** The procedure that a program writes for the type. *)
Fixpoint proc_of {A : Type} (d : desc A) : filter strm A :=
  match d with
  | d_void => xdr_void
  | d_num n => num_proc n
  | d_opaque cnt => xdr_opaque cnt
  | d_bytes maxsize => xdr_bytes junk maxsize
  | d_netobj => xdr_netobj junk
  | d_string maxsize => xdr_string junk maxsize
  | d_wrapstring => xdr_wrapstring junk
  | d_pair da db => xdr_pair (proc_of da) (proc_of db)
  | d_reference zero da => xdr_reference (proc_of da) zero
  | d_pointer zero da => xdr_pointer (proc_of da) zero
  | d_vector n da => xdr_vector n (proc_of da)
  | d_array maxsize elsize zero da => xdr_array maxsize elsize (proc_of da) zero
  | d_union choices dfault =>
      xdr_union ((fix arms (l : list (Z * desc _)) := match l with [] => [] | (v, da) :: l => (v, proc_of da) :: arms l end) choices)
        (match dfault with Some da => Some (proc_of da) | None => None end)
  end.
End Descriptions.

Definition num_type (n : num) : xdr_type Z :=
  match n with
  | n_int | n_long | n_enum | n_int32_t => T_int
  | n_u_int | n_u_long => T_u_int
  | n_uint32_t => T_num (wraps 32) uint32
  | n_hyper | n_longlong_t => T_hyper
  | n_u_hyper | n_u_longlong_t => T_two (λ v, Z.shiftr v 32) (wraps 64) uint64
  | n_int64_t | n_quad_t => T_two (λ v, wraps 32 (Z.shiftr v 32)) (wraps 32) int64
  | n_uint64_t | n_u_quad_t => T_two (λ v, wraps 32 (Z.shiftr v 32)) (wraps 32) uint64
  | n_short | n_int16_t => T_short
  | n_u_short | n_uint16_t => T_u_short
  | n_char | n_int8_t => T_char
  | n_u_char | n_uint8_t => T_u_char
  | n_bool => T_bool
  end.

Definition T_void : xdr_type unit := XdrType (λ _, []) (λ _, True) (λ _, True) (λ _, True) (λ _, 0) eq.

(** The type on the wire and in memory. *)
Fixpoint type_of {A : Type} (d : desc A) : xdr_type A :=
  match d with
  | d_void => T_void
  | d_num n => num_type n
  | d_opaque cnt => T_opaque cnt
  | d_bytes maxsize => T_bytes maxsize
  | d_netobj => T_bytes MAX_NETOBJ_SZ
  | d_string maxsize => T_string maxsize
  | d_wrapstring => T_string LASTUNSIGNED
  | d_pair da db => T_pair (type_of da) (type_of db)
  | d_reference _ da => T_reference (type_of da)
  | d_pointer _ da => T_pointer (type_of da)
  | d_vector n da => T_vector (type_of da) n
  | d_array maxsize elsize _ da => T_array (type_of da) maxsize elsize
  | d_union choices dfault =>
      T_union ((fix arms (l : list (Z * desc _)) := match l with [] => [] | (v, da) :: l => (v, type_of da) :: arms l end) choices)
        (match dfault with Some da => Some (type_of da) | None => None end)
  end.

(** Sizes are not negative, and a zeroed element can be decoded into. *)
Fixpoint desc_wf {A : Type} (d : desc A) : Prop :=
  match d with
  | d_opaque cnt => 0 <= cnt
  | d_pair da db => desc_wf da ∧ desc_wf db
  | d_reference zero da | d_pointer zero da => desc_wf da ∧ xfresh (type_of da) zero
  | d_vector n da => desc_wf da
  | d_array _ elsize zero da => 0 < elsize ∧ desc_wf da ∧ xfresh (type_of da) zero
  | d_union choices dfault =>
      (fix arms (l : list (Z * desc _)) := match l with [] => True | (_, da) :: l => desc_wf da ∧ arms l end) choices ∧
      match dfault with Some da => desc_wf da | None => True end
  | _ => True
  end.

Section Laws.
Context {strm : Type} {Ops : XdrOps strm} {Str : Stream strm} (junk : nat → Z).

Lemma num_laws n : XdrLaws (num_proc (strm := strm) n) (num_type n).
Proof.
  destruct n; cbn [num_proc num_type]; unfold xdr_longlong_t, xdr_u_longlong_t, xdr_quad_t, xdr_u_quad_t; apply _.
Qed.

Lemma wrapstring_laws : XdrLaws (xdr_wrapstring (strm := strm) junk) (T_string LASTUNSIGNED).
Proof.
  assert (∀ op sp st, xdr_wrapstring (strm := strm) junk op sp st = xdr_string junk LASTUNSIGNED op sp st) as E.
  { intros op sp st. unfold xdr_wrapstring, mbind, X_bind. destruct (xdr_string junk LASTUNSIGNED op sp st) as [[[b o] st']| |]; done. }
  apply (laws_guarded (xdr_string junk LASTUNSIGNED)); [apply _|intros; apply E..].
Qed.

(** What is put together from the filters keeps their promises. *)
Fixpoint desc_laws {A : Type} (d : desc A) {struct d} : desc_wf d → XdrLaws (proc_of (strm := strm) junk d) (type_of d).
Proof.
  destruct d as [|n|cnt|maxsize| |maxsize| |A B da db|A zero da|A zero da|A n da|A maxsize elsize zero da|U choices dfault]; cbn [desc_wf proc_of type_of].
  - intros _. apply xdr_void_laws.
  - intros _. apply num_laws.
  - intros H. by apply xdr_opaque_laws.
  - intros _. apply xdr_bytes_laws.
  - intros _. apply xdr_netobj_laws.
  - intros _. apply xdr_string_laws.
  - intros _. apply wrapstring_laws.
  - intros [Ha Hb]. apply xdr_pair_laws; by apply desc_laws.
  - intros [Ha Hz]. apply xdr_reference_laws; [by apply desc_laws|done].
  - intros [Ha Hz]. apply xdr_pointer_laws; [by apply desc_laws|done].
  - intros Ha. apply xdr_vector_laws. by apply desc_laws.
  - intros (He & Ha & Hz). apply xdr_array_laws; [by apply desc_laws|done..].
  - intros [Hc Hd]. apply xdr_union_laws.
    + induction choices as [|[v da] l IH]; [apply arm_laws_nil|]. destruct Hc as [Ha Hl]. apply arm_laws_cons; [by apply desc_laws|by apply IH].
    + destruct dfault as [da|]; [|apply default_laws_none]. apply default_laws_some. by apply desc_laws.
Qed.
End Laws.
End XdrCompound.
