(* ===== verification/XdrMem.v ===== *)
(** * External data representation: streams in memory and the size of a type

    [sunrpc/xdr_mem.c] and [xdr_sizeof.c]: two implementations of the stream
    operations, and what encoding, decoding and freeing amount to on them for
    every type that [XdrCompound.desc] describes. *)

From S2P Require Import Prelude Digest Xdr XdrSpec XdrCompound.
Local Open Scope Z_scope.

Module XdrMem.
Import Digest Xdr XdrSpec XdrCompound.

(** ** Streams in memory *)

(** The buffer at [x_base], the offset of [x_private] in it and [x_handy]. *)
Record mem_stream : Type := MemStream { x_base : list Z; x_private : nat; x_handy : Z }.

Definition xdrmem_create (addr : list Z) (size : Z) : mem_stream := MemStream addr 0 size.

(** The [n] bytes at [x_private]. *)
Definition load (n : nat) (s : mem_stream) : outcome (list Z) :=
  if (x_private s + n <=? length (x_base s))%nat then Val (take n (drop (x_private s) (x_base s))) else Fault.
Definition store (bs : list Z) (s : mem_stream) : outcome (list Z) :=
  if (x_private s + length bs <=? length (x_base s))%nat then Val (list_inserts (x_private s) bs (x_base s)) else Fault.

Definition ntohl (x : Z) : Z := bswap 4 x.
Definition htonl (x : Z) : Z := bswap 4 (wrapu 32 x).

Definition xdrmem_getlong (s : mem_stream) : outcome (option Z * mem_stream) :=
  if x_handy s <? 4 then Val (None, s) else
  let handy := x_handy s - 4 in
  bs ← load 4 s;
  Val (Some (wraps 32 (ntohl (le_word bs))), MemStream (x_base s) (x_private s + 4) handy).

Definition xdrmem_putlong (l : Z) (s : mem_stream) : outcome (bool * mem_stream) :=
  if x_handy s <? 4 then Val (false, s) else
  let handy := x_handy s - 4 in
  base ← store (le_bytes 4 (htonl l)) s;
  Val (true, MemStream base (x_private s + 4) handy).

Definition xdrmem_getbytes (len : nat) (s : mem_stream) : outcome (option (list Z) * mem_stream) :=
  if x_handy s <? Z.of_nat len then Val (None, s) else
  let handy := x_handy s - Z.of_nat len in
  bs ← load len s;
  Val (Some bs, MemStream (x_base s) (x_private s + len) handy).

Definition xdrmem_putbytes (bs : list Z) (s : mem_stream) : outcome (bool * mem_stream) :=
  let len := Z.of_nat (length bs) in
  if x_handy s <? len then Val (false, s) else
  let handy := x_handy s - len in
  base ← store bs s;
  Val (true, MemStream base (x_private s + length bs) handy).

Definition xdrmem_getpos (s : mem_stream) : Z := wrapu 32 (Z.of_nat (x_private s)).

Definition xdrmem_setpos (pos : Z) (s : mem_stream) : bool * mem_stream :=
  let newaddr := pos in
  let lastaddr := Z.of_nat (x_private s) + x_handy s in
  let handy := wrapu 64 (lastaddr - newaddr) in
  if (lastaddr <? newaddr) || (newaddr <? 0) || negb (handy =? wrapu 32 handy) then (false, s) else
  (true, MemStream (x_base s) (Z.to_nat newaddr) (wrapu 32 handy)).

(** The offset of the buffer that is handed out. *)
Definition xdrmem_inline (len : Z) (s : mem_stream) : option nat * mem_stream :=
  if len <=? x_handy s then (Some (x_private s), MemStream (x_base s) (x_private s + Z.to_nat len) (x_handy s - len)) else (None, s).

Definition xdrmem_getint32 (s : mem_stream) : outcome (option Z * mem_stream) :=
  if x_handy s <? 4 then Val (None, s) else
  let handy := x_handy s - 4 in
  bs ← load 4 s;
  Val (Some (wraps 32 (ntohl (le_word bs))), MemStream (x_base s) (x_private s + 4) handy).

Definition xdrmem_putint32 (i : Z) (s : mem_stream) : outcome (bool * mem_stream) :=
  if x_handy s <? 4 then Val (false, s) else
  let handy := x_handy s - 4 in
  base ← store (le_bytes 4 (htonl i)) s;
  Val (true, MemStream base (x_private s + 4) handy).

#[export] Instance xdrmem_ops : XdrOps mem_stream := {
  x_getlong := xdrmem_getlong;
  x_putlong := xdrmem_putlong;
  x_getbytes := xdrmem_getbytes;
  x_putbytes := xdrmem_putbytes;
  x_getint32 := xdrmem_getint32;
  x_putint32 := xdrmem_putint32;
}.

(** What is left of the buffer is as long as [x_handy] says. *)
Definition mem_inv (s : mem_stream) : Prop :=
  0 <= x_handy s ∧ Z.of_nat (x_private s) + x_handy s <= Z.of_nat (length (x_base s)) ∧ bytes (x_base s).

Definition mem_emit (s : mem_stream) (bs : list Z) : option mem_stream :=
  if (length bs <=? Z.to_nat (x_handy s))%nat
  then Some (MemStream (list_inserts (x_private s) bs (x_base s)) (x_private s + length bs) (x_handy s - Z.of_nat (length bs))) else None.

Definition mem_absorb (s : mem_stream) (n : nat) : option (list Z * mem_stream) :=
  if (n <=? Z.to_nat (x_handy s))%nat
  then Some (take n (drop (x_private s) (x_base s)), MemStream (x_base s) (x_private s + n) (x_handy s - Z.of_nat n)) else None.

Lemma ntohl_be32 bs : length bs = 4%nat → bytes bs → ntohl (le_word bs) = be32_val bs.
Proof.
  intros Hl Hb. unfold ntohl, bswap. rewrite <- Hl, le_bytes_word by done. destruct bs as [|a [|b [|c [|d [|]]]]]; try done. cbn. ring.
Qed.

Lemma htonl_be32 v : le_bytes 4 (htonl v) = be32 v.
Proof.
  unfold htonl. rewrite le_bytes_bswap. rewrite <- be32_mod. change (v mod 4294967296) with (wrapu 32 v). unfold be_bytes, be32. cbn. rewrite !Z.div_div by lia. done.
Qed.

Lemma inserts_bytes i bs l : bytes bs → bytes l → bytes (list_inserts i bs l).
Proof.
  intros Hb Hl. apply Forall_lookup. intros j x Hx. apply list_lookup_inserts_Some in Hx as [[_ Hx]|(_ & _ & Hx)]; [exact (Forall_lookup_1 _ _ _ _ Hl Hx)|exact (Forall_lookup_1 _ _ _ _ Hb Hx)].
Qed.

Lemma mem_emit_inv s bs s' : mem_inv s → bytes bs → mem_emit s bs = Some s' → mem_inv s'.
Proof.
  intros (H1 & H2 & H3) Hb. unfold mem_emit. destruct (Nat.leb_spec (length bs) (Z.to_nat (x_handy s))); [|done]. intros [= <-]. unfold mem_inv. cbn. rewrite length_inserts.
  split_and!; [lia..|by apply inserts_bytes].
Qed.

Lemma mem_absorb_inv s n bs s' : mem_inv s → mem_absorb s n = Some (bs, s') → mem_inv s' ∧ length bs = n ∧ bytes bs.
Proof.
  intros (H1 & H2 & H3). unfold mem_absorb. destruct (Nat.leb_spec n (Z.to_nat (x_handy s))); [|done]. intros [= <- <-]. unfold mem_inv. cbn. rewrite length_take, length_drop.
  split_and!; try lia; [done|]. by apply Forall_take, Forall_drop.
Qed.

Lemma load_ok n s : mem_inv s → (n <= Z.to_nat (x_handy s))%nat → load n s = Val (take n (drop (x_private s) (x_base s))).
Proof. intros (H1 & H2 & H3) Hn. unfold load. by rewrite (proj2 (Nat.leb_le _ _)) by lia. Qed.

Lemma store_ok bs s : mem_inv s → (length bs <= Z.to_nat (x_handy s))%nat → store bs s = Val (list_inserts (x_private s) bs (x_base s)).
Proof. intros (H1 & H2 & H3) Hn. unfold store. by rewrite (proj2 (Nat.leb_le _ _)) by lia. Qed.

Lemma mem_put v s : mem_inv s → match mem_emit s (be32 v) with Some s' => xdrmem_putlong v s = Val (true, s') | None => ∃ s', xdrmem_putlong v s = Val (false, s') ∧ mem_inv s' end.
Proof.
  intros Hs. unfold mem_emit, xdrmem_putlong. rewrite be32_length. destruct (Nat.leb_spec 4 (Z.to_nat (x_handy s))) as [Hn|Hn].
  - rewrite (proj2 (Z.ltb_ge _ _)), htonl_be32, store_ok by (done || lia). done.
  - rewrite (proj2 (Z.ltb_lt _ _)) by lia. by exists s.
Qed.

Lemma mem_get s : mem_inv s → match mem_absorb s 4 with Some (bs, s') => xdrmem_getlong s = Val (Some (wraps 32 (be32_val bs)), s') | None => ∃ s', xdrmem_getlong s = Val (None, s') ∧ mem_inv s' end.
Proof.
  intros Hs. pose proof (mem_absorb_inv s 4) as Hinv. unfold mem_absorb, xdrmem_getlong in *. destruct (Nat.leb_spec 4 (Z.to_nat (x_handy s))) as [Hn|Hn].
  - destruct (Hinv _ _ Hs eq_refl) as (_ & Hl & Hb). rewrite (proj2 (Z.ltb_ge _ _)), load_ok by (done || lia). cbn [mbind outcome_bind]. by rewrite ntohl_be32.
  - rewrite (proj2 (Z.ltb_lt _ _)) by lia. by exists s.
Qed.

#[export] Instance mem_laws : Stream mem_stream.
Proof.
  refine {| sinv := mem_inv; emit := mem_emit; absorb := mem_absorb |}.
  - apply mem_emit_inv.
  - intros [base p n] _. unfold mem_emit. cbn. by rewrite Nat.add_0_r, Z.sub_0_r.
  - intros s a b. unfold mem_emit. rewrite length_app, list_inserts_app_l, (Nat.add_comm (length a) (x_private s)). destruct (Nat.leb_spec (length a) (Z.to_nat (x_handy s))); cbn [mbind option_bind x_base x_private x_handy].
    + replace (length a + length b <=? Z.to_nat (x_handy s))%nat with (length b <=? Z.to_nat (x_handy s - Z.of_nat (length a)))%nat.
      2:{ destruct (Nat.leb_spec (length a + length b) (Z.to_nat (x_handy s))); [apply Nat.leb_le|apply Nat.leb_gt]; lia. }
      case_match; [|done]. do 2 f_equal; lia.
    + by rewrite (proj2 (Nat.leb_gt _ _)) by lia.
  - apply mem_absorb_inv.
  - intros [base p n]. unfold mem_absorb. cbn. by rewrite Nat.add_0_r, Z.sub_0_r.
  - intros s n k. unfold mem_absorb. destruct (Nat.leb_spec n (Z.to_nat (x_handy s))); cbn [mbind option_bind x_base x_private x_handy].
    + replace (n + k <=? Z.to_nat (x_handy s))%nat with (k <=? Z.to_nat (x_handy s - Z.of_nat n))%nat.
      2:{ destruct (Nat.leb_spec (n + k) (Z.to_nat (x_handy s))); [apply Nat.leb_le|apply Nat.leb_gt]; lia. }
      case_match; [|done]. cbn. rewrite <- drop_drop, take_take_drop. do 3 f_equal; lia.
    + by rewrite (proj2 (Nat.leb_gt _ _)) by lia.
  - intros s v. apply mem_put.
  - intros s v. apply mem_put.
  - intros s bs Hs _. cbn. unfold mem_emit, xdrmem_putbytes. destruct (Nat.leb_spec (length bs) (Z.to_nat (x_handy s))) as [Hn|Hn].
    + rewrite (proj2 (Z.ltb_ge _ _)), store_ok by (done || (destruct Hs; lia)). done.
    + rewrite (proj2 (Z.ltb_lt _ _)) by (destruct Hs; lia). by exists s.
  - apply mem_get.
  - apply mem_get.
  - intros s n Hs _. cbn. unfold mem_absorb, xdrmem_getbytes. destruct (Nat.leb_spec n (Z.to_nat (x_handy s))) as [Hn|Hn].
    + rewrite (proj2 (Z.ltb_ge _ _)), load_ok by (done || (destruct Hs; lia)). done.
    + rewrite (proj2 (Z.ltb_lt _ _)) by (destruct Hs; lia). by exists s.
Defined.

(** ** The size of what would be put *)

(** The stream of [xdr_sizeof]: [x_handy] counts; nothing can be got. *)
Record size_stream : Type := SizeStream { size_handy : Z }.

Definition x_putlong (_ : Z) (s : size_stream) : outcome (bool * size_stream) := Val (true, SizeStream (wrapu 32 (size_handy s + 4))).
Definition x_putbytes (bs : list Z) (s : size_stream) : outcome (bool * size_stream) :=
  Val (true, SizeStream (wrapu 32 (size_handy s + Z.of_nat (length bs)))).
Definition x_putint32 (_ : Z) (s : size_stream) : outcome (bool * size_stream) := Val (true, SizeStream (wrapu 32 (size_handy s + 4))).
Definition harmless {A : Type} (s : size_stream) : outcome (option A * size_stream) := Val (None, s).

#[export] Instance sizeof_ops : XdrOps size_stream := {
  Xdr.x_getlong := harmless;
  Xdr.x_putlong := x_putlong;
  Xdr.x_getbytes := λ _, harmless;
  Xdr.x_putbytes := x_putbytes;
  Xdr.x_getint32 := harmless;
  Xdr.x_putint32 := x_putint32;
}.

Definition xdr_sizeof {A : Type} (func : filter size_stream A) (data : A) (h : host) : outcome Z :=
  '(stat, _, (x, _)) ← func XDR_ENCODE data (SizeStream 0, h);
  Val (if stat : bool then size_handy x else 0).

Lemma wrapu_add_l a b : wrapu 32 (wrapu 32 a + b) = wrapu 32 (a + b).
Proof. unfold wrapu. by rewrite Zplus_mod_idemp_l. Qed.

#[export] Instance size_laws : Stream size_stream.
Proof.
  refine {| sinv := λ s, uint32 (size_handy s); emit := λ s bs, Some (SizeStream (wrapu 32 (size_handy s + Z.of_nat (length bs))));
    absorb := λ s n, match n with O => Some ([], s) | S _ => None end |}.
  - intros s bs s' _ _ [= <-]. exact (wrapu_bound 32 _ ltac:(lia)).
  - intros [n] Hn. cbn in *. rewrite Z.add_0_r, wrapu_small; [done|]. unfold uint32 in Hn. lia.
  - intros s a b. cbn. by rewrite length_app, wrapu_add_l, Nat2Z.inj_add, Z.add_assoc.
  - intros s [|n] bs s' Hs; [|done]. intros [= <- <-]. split_and!; try done. constructor.
  - done.
  - intros s [|n] k; [|done]. cbn. by destruct k.
  - done.
  - done.
  - done.
  - intros s Hs. by exists s.
  - intros s Hs. by exists s.
  - intros s [|n] Hs Hn; [lia|]. by exists s.
Defined.

(** ** What the filters do on these streams *)

(** Moving to a position of the buffer, as far as it reaches. *)
Theorem xdrmem_setpos_getpos (s : mem_stream) (pos : Z) :
  mem_inv s → 0 <= pos < 4294967296 → Z.of_nat (x_private s) + x_handy s < 4294967296 →
  if pos <=? Z.of_nat (x_private s) + x_handy s
  then ∃ s', xdrmem_setpos pos s = (true, s') ∧ xdrmem_getpos s' = pos ∧ mem_inv s' ∧ Z.of_nat (x_private s') + x_handy s' = Z.of_nat (x_private s) + x_handy s
  else xdrmem_setpos pos s = (false, s).
Proof.
  intros (H1 & H2 & H3) Hp Hl. unfold xdrmem_setpos. destruct (Z.leb_spec pos (Z.of_nat (x_private s) + x_handy s)) as [Hle|Hgt].
  - rewrite (wrapu_small 64), (wrapu_small 32), Z.eqb_refl, !(proj2 (Z.ltb_ge _ _)) by lia. cbn. eexists. split; [done|]. unfold xdrmem_getpos, mem_inv. cbn. rewrite wrapu_small by lia.
    split_and!; try done; lia.
  - by rewrite (proj2 (Z.ltb_lt _ _)) by lia.
Qed.

Lemma create_inv addr size : bytes addr → 0 <= size <= Z.of_nat (length addr) → mem_inv (xdrmem_create addr size).
Proof. intros Hb Hs. unfold mem_inv. cbn. split_and!; try done; lia. Qed.

Lemma inserts_front {A} (bs l : list A) : (length bs <= length l)%nat → list_inserts 0 bs l = bs ++ drop (length bs) l.
Proof. intros Hl. rewrite <- (take_drop (length bs) l) at 1. apply list_inserts_0_r. rewrite length_take. lia. Qed.

(** C15. Encoding an object of a type put together from the filters of xdr.c,
    xdr_array.c, xdr_ref.c and xdr_intXX_t.c into a memory stream writes
    exactly the bytes of its type and nothing else and leaves the object as it
    is, and decoding that buffer into a blank object, with every allocation
    granted, succeeds, gives the same object back and stops at the same
    position. If the buffer is too small, encoding returns FALSE and does not
    fault. The types are those that desc describes: numbers, opaque data, byte
    strings, strings, structures, vectors, arrays, references and pointers, and
    unions all of whose arms have the same type; recursive types are not among
    them. *)
Theorem xdr_roundtrip {A : Type} (junk : nat → Z) (d : desc A) (a a0 : A) (addr : list Z) (size : Z) (h : host) :
  desc_wf d → xok (type_of d) a → xfresh (type_of d) a0 → bytes addr → 0 <= size <= Z.of_nat (length addr) → size < 4294967296 → plenty h →
  let enc := xenc (type_of d) a in
  let n := Z.of_nat (length enc) in
  if n <=? size
  then ∃ s, proc_of junk d XDR_ENCODE a (xdrmem_create addr size, h) = Val (true, a, (s, h)) ∧ x_base s = enc ++ drop (length enc) addr ∧ xdrmem_getpos s = n ∧
       ∃ a' s' h', proc_of junk d XDR_DECODE a0 (xdrmem_create (x_base s) size, h) = Val (true, a', (s', h')) ∧ xsame (type_of d) a a' ∧ xdrmem_getpos s' = n
  else ∃ s, proc_of junk d XDR_ENCODE a (xdrmem_create addr size, h) = Val (false, a, (s, h)).
Proof.
  intros Hd Ha H0 Hb Hs Hlt Hp enc n. pose proof (desc_laws (strm := mem_stream) junk d Hd) as L. pose proof (law_encode a (xdrmem_create addr size) h Ha (create_inv _ _ Hb Hs)) as E.
  fold enc in E. cbn [emit mem_laws] in E. unfold mem_emit in E. cbn [xdrmem_create x_handy x_private x_base] in E. unfold n. destruct (Z.leb_spec (Z.of_nat (length enc)) size) as [Hn|Hn].
  - rewrite (proj2 (Nat.leb_le _ _)), inserts_front in E by lia. eexists. split; [exact E|]. cbn [x_base]. split_and!; try done; [unfold xdrmem_getpos; cbn; apply wrapu_small; lia|].
    set (addr' := enc ++ drop (length enc) addr). assert (length addr' = length addr) as Hl by (unfold addr'; rewrite length_app, length_drop; lia).
    assert (bytes addr') as Hb' by (apply Forall_app_2; [by apply (enc_bytes (XdrLaws := L))|by apply Forall_drop]).
    destruct (law_decode (XdrLaws := L) a a0 (xdrmem_create addr' size) h (MemStream addr' (length enc) (size - Z.of_nat (length enc))) Ha H0 (create_inv addr' size Hb' ltac:(lia)) Hp) as (a' & h' & Ed & _ & Hsame).
    { fold enc. cbn [absorb mem_laws]. unfold mem_absorb. cbn [xdrmem_create x_handy x_private x_base]. rewrite (proj2 (Nat.leb_le _ _)) by lia. unfold addr'. by rewrite drop_0, take_app_length. }
    eexists a', _, h'. split; [exact Ed|]. split; [done|]. unfold xdrmem_getpos. cbn. apply wrapu_small. lia.
  - rewrite (proj2 (Nat.leb_gt _ _)) in E by lia. destruct E as (s' & E & _). by exists s'.
Qed.

(** C16. For every type that desc describes (with unions only of arms of one
    type, and without recursive types), decoding whatever bytes there are into
    a blank object never faults, even if allocations are refused; what is
    decoded with success is an object of the type, within its limits; and after
    success or failure xdr_free releases every block that decoding allocated,
    each once. *)
Theorem xdr_decode_safe {A : Type} (junk : nat → Z) (d : desc A) (a0 : A) (addr : list Z) (size : Z) (h : host) :
  desc_wf d → xfresh (type_of d) a0 → bytes addr → 0 <= size <= Z.of_nat (length addr) →
  ∃ b a s h', proc_of junk d XDR_DECODE a0 (xdrmem_create addr size, h) = Val (b, a, (s, h')) ∧ (b = true → xok (type_of d) a) ∧
    live h' = live h + xblocks (type_of d) a ∧
    ∃ a', xdr_free (proc_of junk d) a (s, h') = Val (a', (s, Host (answers h') (live h))) ∧ xblocks (type_of d) a' = 0.
Proof.
  intros Hd H0 Hb Hs. pose proof (desc_laws (strm := mem_stream) junk d Hd) as L. destruct (law_safe (XdrLaws := L) a0 (xdrmem_create addr size) h H0 (create_inv _ _ Hb Hs)) as (b & a & s & h' & E & _ & Hg & Hl & Hok).
  exists b, a, s, h'. split_and!; try done. destruct (law_free (XdrLaws := L) a s h' Hg) as (b' & a' & Ef & Hz & _). exists a'. split; [|done]. unfold xdr_free. rewrite (xbind _ _ _ _ _ Ef).
  unfold mret, X_ret. do 4 f_equal. lia.
Qed.

(** [xdr_sizeof] gives the number of bytes that encoding would put. *)
Theorem xdr_sizeof_correct {A : Type} (junk : nat → Z) (d : desc A) (a : A) (h : host) :
  desc_wf d → xok (type_of d) a → xdr_sizeof (proc_of junk d) a h = Val (wrapu 32 (Z.of_nat (length (xenc (type_of d) a)))).
Proof.
  intros Hd Ha. pose proof (desc_laws (strm := size_stream) junk d Hd) as L. pose proof (law_encode (XdrLaws := L) a (SizeStream 0) h Ha ltac:(cbn; unfold uint32; lia)) as E. cbn [emit size_laws] in E.
  unfold xdr_sizeof. rewrite E. done.
Qed.

(** A record of a number, a string, a list of shorts behind a pointer, and a
    union. *)
Definition ex_desc : desc (Z * (option (list Z) * (option (option (list Z) * Z) * (Z * Z)))) :=
  d_pair (d_num n_hyper) (d_pair (d_string 10) (d_pair (d_pointer (None, 0) (d_array 3 2 0 (d_num n_short))) (d_union [(0, d_num n_int); (1, d_num n_bool)] None))).
Definition ex_obj : Z * (option (list Z) * (option (option (list Z) * Z) * (Z * Z))) := (-5000000000, (Some [104; 105; 0], (Some (Some [1; -2], 2), (1, 1)))).

Lemma ex_desc_wf : desc_wf ex_desc.
Proof. cbn. split_and!; done || lia. Defined.

Lemma ex_obj_ok : xok (type_of ex_desc) ex_obj.
Proof.
  cbn. unfold int64, int32, uint32. split_and!; try lia; [|by vm_compute|repeat constructor; lia]. exists [104; 105; 0], 2. split_and!; try done; [lia..|]. repeat constructor; lia.
Defined.

Lemma ex_fresh : xfresh (type_of ex_desc) (0, (None, (None, (0, 0)))).
Proof. cbn. split_and!; try done. intros d. destruct d as [|[]|]; done. Defined.

Lemma xdr_roundtrip_witness :
  ∃ s, proc_of (λ _, 7) ex_desc XDR_ENCODE ex_obj (xdrmem_create (replicate 50 9) 50, Host [] 3) = Val (true, ex_obj, (s, Host [] 3)) ∧
    take 40 (x_base s) = [255; 255; 255; 254; 213; 250; 14; 0; 0; 0; 0; 2; 104; 105; 0; 0; 0; 0; 0; 1; 0; 0; 0; 2; 0; 0; 0; 1; 255; 255; 255; 254; 0; 0; 0; 1; 0; 0; 0; 1] ∧
    ∃ a' s' h', proc_of (λ _, 7) ex_desc XDR_DECODE (0, (None, (None, (0, 0)))) (xdrmem_create (x_base s) 50, Host [] 3) = Val (true, a', (s', h')) ∧
      xsame (type_of ex_desc) ex_obj a' ∧ xdrmem_getpos s' = 40.
Proof.
  destruct (xdr_roundtrip (λ _, 7) ex_desc ex_obj (0, (None, (None, (0, 0)))) (replicate 50 9) 50 (Host [] 3)) as (s & E & Hb & _ & a' & s' & h' & D & Hsame & Hpos);
    [apply ex_desc_wf|apply ex_obj_ok|apply ex_fresh|apply Forall_replicate; lia|cbn; lia|lia|constructor|].
  exists s. split; [exact E|]. split; [by rewrite Hb|]. exists a', s', h'. split; [exact D|]. split; [exact Hsame|]. rewrite Hpos. reflexivity.
Defined.

Lemma xdr_decode_safe_witness :
  ∃ b a s h', proc_of (λ _, 7) ex_desc XDR_DECODE (0, (None, (None, (0, 0)))) (xdrmem_create (replicate 24 0 ++ [0; 0; 0; 9]) 28, Host [true; false] 3) = Val (b, a, (s, h')) ∧
    ∃ a', xdr_free (proc_of (λ _, 7) ex_desc) a (s, h') = Val (a', (s, Host (answers h') 3)).
Proof.
  destruct (xdr_decode_safe (λ _, 7) ex_desc (0, (None, (None, (0, 0)))) (replicate 24 0 ++ [0; 0; 0; 9]) 28 (Host [true; false] 3)) as (b & a & s & h' & E & _ & _ & a' & F & _);
    [apply ex_desc_wf|apply ex_fresh|apply Forall_app_2; [apply Forall_replicate; lia|repeat constructor; lia]|cbn; lia|].
  exists b, a, s, h'. split; [exact E|]. by exists a'.
Defined.

Lemma xdr_sizeof_correct_witness : xdr_sizeof (proc_of (λ _, 7) ex_desc) ex_obj (Host [] 0) = Val 40.
Proof. rewrite (xdr_sizeof_correct (λ _, 7) ex_desc ex_obj (Host [] 0) ex_desc_wf ex_obj_ok). reflexivity. Defined.
End XdrMem.
