(* ===== verification/RpcMsg.v ===== *)
(** * Call messages of remote procedures: [sunrpc/rpc_cmsg.c]

    [xdr_callmsg] works on the buffer of the stream where the stream can hand
    it out, and calls the filters where it cannot; [rpc_prot.c] has the
    filters of the parts.  The streams are those in memory. *)

From S2P Require Import Prelude Digest Xdr XdrSpec XdrMem.
Local Open Scope Z_scope.

Module RpcMsg.
Import Digest Xdr XdrSpec XdrMem.

Definition MAX_AUTH_BYTES : Z := 400.
Definition RPC_MSG_VERSION : Z := 2.
Definition CALL : Z := 0.

Record opaque_auth : Type := OpaqueAuth { oa_flavor : Z; oa_base : option (list Z); oa_length : Z }.
Record call_body : Type := CallBody { cb_rpcvers : Z; cb_prog : Z; cb_vers : Z; cb_proc : Z; cb_cred : opaque_auth; cb_verf : opaque_auth }.
(** [struct rpc_msg] of a call. *)
Record rpc_msg : Type := RpcMsg { rm_xid : Z; rm_direction : Z; rm_call : call_body }.

Definition set_flavor (x : Z) (oa : opaque_auth) : opaque_auth := OpaqueAuth x (oa_base oa) (oa_length oa).
Definition set_length (x : Z) (oa : opaque_auth) : opaque_auth := OpaqueAuth (oa_flavor oa) (oa_base oa) x.
Definition set_base (x : option (list Z)) (oa : opaque_auth) : opaque_auth := OpaqueAuth (oa_flavor oa) x (oa_length oa).
Definition on_call (f : call_body → call_body) (m : rpc_msg) : rpc_msg := RpcMsg (rm_xid m) (rm_direction m) (f (rm_call m)).
Definition set_xid (x : Z) (m : rpc_msg) : rpc_msg := RpcMsg x (rm_direction m) (rm_call m).
Definition set_direction (x : Z) (m : rpc_msg) : rpc_msg := RpcMsg (rm_xid m) x (rm_call m).
Definition set_rpcvers (x : Z) : rpc_msg → rpc_msg := on_call (λ c, CallBody x (cb_prog c) (cb_vers c) (cb_proc c) (cb_cred c) (cb_verf c)).
Definition set_prog (x : Z) : rpc_msg → rpc_msg := on_call (λ c, CallBody (cb_rpcvers c) x (cb_vers c) (cb_proc c) (cb_cred c) (cb_verf c)).
Definition set_vers (x : Z) : rpc_msg → rpc_msg := on_call (λ c, CallBody (cb_rpcvers c) (cb_prog c) x (cb_proc c) (cb_cred c) (cb_verf c)).
Definition set_proc (x : Z) : rpc_msg → rpc_msg := on_call (λ c, CallBody (cb_rpcvers c) (cb_prog c) (cb_vers c) x (cb_cred c) (cb_verf c)).
Definition set_cred (x : opaque_auth) : rpc_msg → rpc_msg := on_call (λ c, CallBody (cb_rpcvers c) (cb_prog c) (cb_vers c) (cb_proc c) x (cb_verf c)).
Definition set_verf (x : opaque_auth) : rpc_msg → rpc_msg := on_call (λ c, CallBody (cb_rpcvers c) (cb_prog c) (cb_vers c) (cb_proc c) (cb_cred c) x).

Section Messages.
Context (junk : nat → Z).
Local Notation X := (X mem_stream).
Local Notation filter := (filter mem_stream).

Definition xdr_opaque_auth : filter opaque_auth := λ op ap,
  '(b, x) ← xdr_enum op (oa_flavor ap);
  let ap := set_flavor x ap in
  if b : bool then '(b, (base, len)) ← xdr_bytes junk MAX_AUTH_BYTES op (oa_base ap, oa_length ap); mret (b, OpaqueAuth (oa_flavor ap) base len)
  else mret (false, ap).

(** One member: the filter, where the member is, what follows if it
    succeeds. *)
Definition member {A : Type} (f : filter A) (op : xdr_op) (get : rpc_msg → A) (set : A → rpc_msg → rpc_msg) (m : rpc_msg) (next : rpc_msg → X (bool * rpc_msg)) : X (bool * rpc_msg) :=
  '(b, x) ← f op (get m);
  let m := set x m in
  if b : bool then next m else mret (false, m).

(** The members one after another. *)
Definition callmsg_members : filter rpc_msg := λ op m,
  member xdr_u_long op rm_xid set_xid m (λ m,
  member xdr_enum op rm_direction set_direction m (λ m,
  if negb (rm_direction m =? CALL) then mret (false, m) else
  member xdr_u_long op (cb_rpcvers ∘ rm_call) set_rpcvers m (λ m,
  if negb (cb_rpcvers (rm_call m) =? RPC_MSG_VERSION) then mret (false, m) else
  member xdr_u_long op (cb_prog ∘ rm_call) set_prog m (λ m,
  member xdr_u_long op (cb_vers ∘ rm_call) set_vers m (λ m,
  member xdr_u_long op (cb_proc ∘ rm_call) set_proc m (λ m,
  member xdr_opaque_auth op (cb_cred ∘ rm_call) set_cred m (λ m,
  member xdr_opaque_auth op (cb_verf ∘ rm_call) set_verf m (λ m, mret (true, m))))))))).

Definition xdr_callhdr : filter rpc_msg := λ op m,
  let m := set_rpcvers RPC_MSG_VERSION (set_direction CALL m) in
  if negb (bool_decide (op = XDR_ENCODE)) then mret (false, m) else
  member xdr_u_long op rm_xid set_xid m (λ m,
  member xdr_enum op rm_direction set_direction m (λ m,
  member xdr_u_long op (cb_rpcvers ∘ rm_call) set_rpcvers m (λ m,
  member xdr_u_long op (cb_prog ∘ rm_call) set_prog m (λ m,
  member xdr_u_long op (cb_vers ∘ rm_call) set_vers m (λ m, mret (true, m)))))).

(** ** In the buffer *)

Definition RNDUP (x : Z) : Z := Z.land (wrapu 32 (x + 4 - 1)) (wrapu 32 (Z.lnot (4 - 1))).

Definition XDR_INLINE (len : Z) : X (option nat) := λ '(s, h), let '(o, s) := xdrmem_inline len s in Val (o, (s, h)).

(** Memory at an offset of the buffer. *)
Definition buf_read (buf n : nat) : X (list Z) := λ '(s, h),
  if (buf + n <=? length (x_base s))%nat then Val (take n (drop buf (x_base s)), (s, h)) else Fault.
Definition buf_write (buf : nat) (bs : list Z) : X unit := λ '(s, h),
  if (buf + length bs <=? length (x_base s))%nat then Val (tt, (MemStream (list_inserts buf bs (x_base s)) (x_private s) (x_handy s), h)) else Fault.

(** The macros also step the pointer, which is returned. *)
Definition IXDR_GET_INT32 (buf : nat) : X (Z * nat) := bs ← buf_read buf 4; mret (wraps 32 (ntohl (le_word bs)), (buf + 4)%nat).
Definition IXDR_GET_LONG (buf : nat) : X (Z * nat) := '(v, buf) ← IXDR_GET_INT32 buf; mret (wrapu 32 v, buf).
Definition IXDR_GET_ENUM (buf : nat) : X (Z * nat) := '(v, buf) ← IXDR_GET_LONG buf; mret (wraps 32 v, buf).
Definition IXDR_PUT_INT32 (buf : nat) (v : Z) : X nat := buf_write buf (le_bytes 4 (htonl v)) ;; mret (buf + 4)%nat.

(** [memcpy (buf, oa->oa_base, oa->oa_length)], if there is anything. *)
Definition put_auth (buf : nat) (oa : opaque_auth) : X nat :=
  buf ← IXDR_PUT_INT32 buf (oa_flavor oa);
  buf ← IXDR_PUT_INT32 buf (oa_length oa);
  if oa_length oa =? 0 then mret buf else
  match oa_base oa with
  | Some l => if (length l <? Z.to_nat (oa_length oa))%nat then xfault else buf_write buf (take (Z.to_nat (oa_length oa)) l) ;; mret (buf + Z.to_nat (RNDUP (oa_length oa)))%nat
  | None => xfault
  end.

(** [oa->oa_length] bytes follow.  A block that was not got is written to
    all the same. *)
Definition get_auth (oa : opaque_auth) : X (bool * opaque_auth) :=
  if oa_length oa =? 0 then mret (true, oa) else
  if MAX_AUTH_BYTES <? oa_length oa then mret (false, oa) else
  base ← storage junk (oa_length oa) (oa_base oa);
  let oa := set_base base oa in
  o ← XDR_INLINE (RNDUP (oa_length oa));
  match base with
  | None =>
      match o with
      | None => o ← on_stream (x_getbytes (Z.to_nat (oa_length oa))); match o with None => mret (false, oa) | Some _ => xfault end
      | Some _ => xfault
      end
  | Some cp =>
      match o with
      | None => '(b, cp) ← xdr_opaque (oa_length oa) XDR_DECODE cp; mret (b, set_base (Some cp) oa)
      | Some buf =>
          if (length cp <? Z.to_nat (oa_length oa))%nat then xfault else
          bs ← buf_read buf (Z.to_nat (oa_length oa));
          mret (true, set_base (Some (bs ++ drop (Z.to_nat (oa_length oa)) cp)) oa)
      end
  end.

(** The verifier: its two words in a buffer or by the filters. *)
Definition get_verf (oa : opaque_auth) : X (bool * opaque_auth) :=
  o ← XDR_INLINE (2 * 4);
  '(b, oa) ←
    (match o with
     | None =>
         '(b, x) ← xdr_enum XDR_DECODE (oa_flavor oa);
         let oa := set_flavor x oa in
         if negb b then mret (false, oa) else
         '(b, x) ← xdr_u_int XDR_DECODE (oa_length oa);
         mret (b, set_length x oa)
     | Some buf =>
         '(v, buf) ← IXDR_GET_ENUM buf;
         let oa := set_flavor v oa in
         '(v, buf) ← IXDR_GET_INT32 buf;
         mret (true, set_length (wrapu 32 v) oa)
     end);
  if negb b then mret (false, oa) else get_auth oa.

(** What is done with a buffer; [None] if the stream has none. *)
Definition callmsg_put (m : rpc_msg) : X (option (bool * rpc_msg)) :=
  let c := rm_call m in
  if MAX_AUTH_BYTES <? oa_length (cb_cred c) then mret (Some (false, m)) else
  if MAX_AUTH_BYTES <? oa_length (cb_verf c) then mret (Some (false, m)) else
  o ← XDR_INLINE (8 * 4 + RNDUP (oa_length (cb_cred c)) + 2 * 4 + RNDUP (oa_length (cb_verf c)));
  match o with
  | None => mret None
  | Some buf =>
      buf ← IXDR_PUT_INT32 buf (rm_xid m);
      buf ← IXDR_PUT_INT32 buf (rm_direction m);
      if negb (rm_direction m =? CALL) then mret (Some (false, m)) else
      buf ← IXDR_PUT_INT32 buf (cb_rpcvers c);
      if negb (cb_rpcvers c =? RPC_MSG_VERSION) then mret (Some (false, m)) else
      buf ← IXDR_PUT_INT32 buf (cb_prog c);
      buf ← IXDR_PUT_INT32 buf (cb_vers c);
      buf ← IXDR_PUT_INT32 buf (cb_proc c);
      buf ← put_auth buf (cb_cred c);
      _ ← put_auth buf (cb_verf c);
      mret (Some (true, m))
  end.

Definition callmsg_get (m : rpc_msg) : X (option (bool * rpc_msg)) :=
  o ← XDR_INLINE (8 * 4);
  match o with
  | None => mret None
  | Some buf =>
      '(v, buf) ← IXDR_GET_LONG buf;
      let m := set_xid v m in
      '(v, buf) ← IXDR_GET_ENUM buf;
      let m := set_direction v m in
      if negb (rm_direction m =? CALL) then mret (Some (false, m)) else
      '(v, buf) ← IXDR_GET_LONG buf;
      let m := set_rpcvers v m in
      if negb (cb_rpcvers (rm_call m) =? RPC_MSG_VERSION) then mret (Some (false, m)) else
      '(v, buf) ← IXDR_GET_LONG buf;
      let m := set_prog v m in
      '(v, buf) ← IXDR_GET_LONG buf;
      let m := set_vers v m in
      '(v, buf) ← IXDR_GET_LONG buf;
      let m := set_proc v m in
      '(v, buf) ← IXDR_GET_ENUM buf;
      let oa := set_flavor v (cb_cred (rm_call m)) in
      '(v, buf) ← IXDR_GET_INT32 buf;
      let oa := set_length (wrapu 32 v) oa in
      '(b, oa) ← get_auth oa;
      let m := set_cred oa m in
      if negb b then mret (Some (false, m)) else
      '(b, oa) ← get_verf (cb_verf (rm_call m));
      mret (Some (b, set_verf oa m))
  end.

Definition xdr_callmsg : filter rpc_msg := λ op m,
  o ←
    (match op with
     | XDR_ENCODE => callmsg_put m
     | XDR_DECODE => callmsg_get m
     | XDR_FREE => mret None
     end);
  match o with
  | Some r => mret r
  | None => callmsg_members op m
  end.

(** ** Both ways to decode *)

Definition adv (n : nat) (s : mem_stream) : mem_stream := MemStream (x_base s) (x_private s + n) (x_handy s - Z.of_nat n).
Definition word (s : mem_stream) (off : nat) : Z := be32_val (take 4 (drop (x_private s + off) (x_base s))).

Lemma adv_inv n s : mem_inv s → Z.of_nat n <= x_handy s → mem_inv (adv n s).
Proof. intros (H1 & H2 & H3) Hn. unfold mem_inv, adv. cbn. split_and!; try done; lia. Qed.

Lemma adv_adv a b s : adv b (adv a s) = adv (a + b) s.
Proof. unfold adv. cbn. f_equal; lia. Qed.

Lemma word_adv a s off : word (adv a s) off = word s (a + off).
Proof. unfold word, adv. cbn. by rewrite Nat.add_assoc. Qed.

Lemma word_bound s off : mem_inv s → Z.of_nat off + 4 <= x_handy s → uint32 (word s off).
Proof.
  intros (H1 & H2 & H3) Hn. apply be32_val_bound; [rewrite length_take, length_drop; lia|by apply Forall_take, Forall_drop].
Qed.

Lemma word_absorb s : mem_inv s → 4 <= x_handy s → mem_absorb s 4 = Some (take 4 (drop (x_private s) (x_base s)), adv 4 s).
Proof. intros Hs H4. unfold mem_absorb. by rewrite (proj2 (Nat.leb_le _ _)) by lia. Qed.

Lemma u_int_word v s h : mem_inv s → 4 <= x_handy s → xdr_u_int XDR_DECODE v (s, h) = Val (true, word s 0, (adv 4 s, h)).
Proof.
  intros Hs H4. pose proof (u_int_decode v s h Hs) as D. cbn [absorb mem_laws] in D. rewrite word_absorb in D by done. destruct D as (-> & _). unfold word. by rewrite Nat.add_0_r.
Qed.

Lemma u_long_word v s h : mem_inv s → 4 <= x_handy s → xdr_u_long XDR_DECODE v (s, h) = Val (true, word s 0, (adv 4 s, h)).
Proof. exact (u_int_word v s h). Qed.

Lemma enum_word v s h : mem_inv s → 4 <= x_handy s → xdr_enum XDR_DECODE v (s, h) = Val (true, wraps 32 (word s 0), (adv 4 s, h)).
Proof.
  intros Hs H4. pose proof (getlong_gets s h Hs) as D. cbn [absorb mem_laws] in D. rewrite word_absorb in D by done. unfold xdr_enum, by_long, number. rewrite (xbind _ _ _ _ _ D). unfold word. rewrite Nat.add_0_r.
  by rewrite (wraps_small 32 (wraps 32 _)) by (lia || exact (wraps_bound 32 _ ltac:(lia))).
Qed.

(** The pointer into the buffer of [s], [off] bytes on; the stream may have
    moved. *)
Lemma get_int32_word s s' h off : mem_inv s → x_base s' = x_base s → Z.of_nat off + 4 <= x_handy s →
  IXDR_GET_INT32 (x_private s + off) (s', h) = Val (wraps 32 (word s off), (x_private s + (off + 4))%nat, (s', h)).
Proof.
  intros Hs Hb Hn. pose proof Hs as (H1 & H2 & H3). unfold IXDR_GET_INT32. assert (buf_read (x_private s + off) 4 (s', h) = Val (take 4 (drop (x_private s + off) (x_base s)), (s', h))) as E.
  { unfold buf_read. rewrite Hb. by rewrite (proj2 (Nat.leb_le _ _)) by lia. }
  rewrite (xbind _ _ _ _ _ E), ntohl_be32, Nat.add_assoc; [done|rewrite length_take, length_drop; lia|by apply Forall_take, Forall_drop].
Qed.

Lemma get_long_word s s' h off : mem_inv s → x_base s' = x_base s → Z.of_nat off + 4 <= x_handy s →
  IXDR_GET_LONG (x_private s + off) (s', h) = Val (word s off, (x_private s + (off + 4))%nat, (s', h)).
Proof.
  intros Hs Hb Hn. unfold IXDR_GET_LONG. rewrite (xbind _ _ _ _ _ (get_int32_word s s' h off Hs Hb Hn)), wrapu_wraps. rewrite wrapu_small; [done|]. apply (word_bound s off Hs Hn).
Qed.

Lemma get_enum_word s s' h off : mem_inv s → x_base s' = x_base s → Z.of_nat off + 4 <= x_handy s →
  IXDR_GET_ENUM (x_private s + off) (s', h) = Val (wraps 32 (word s off), (x_private s + (off + 4))%nat, (s', h)).
Proof. intros Hs Hb Hn. unfold IXDR_GET_ENUM. by rewrite (xbind _ _ _ _ _ (get_long_word s s' h off Hs Hb Hn)). Qed.

Lemma inline_some len s h : 0 <= len <= x_handy s → XDR_INLINE len (s, h) = Val (Some (x_private s), (adv (Z.to_nat len) s, h)).
Proof. intros Hl. unfold XDR_INLINE, xdrmem_inline. rewrite (proj2 (Z.leb_le _ _)) by lia. unfold adv. by rewrite Z2Nat.id by lia. Qed.

Lemma inline_none len s h : x_handy s < len → XDR_INLINE len (s, h) = Val (None, (s, h)).
Proof. intros Hl. unfold XDR_INLINE, xdrmem_inline. by rewrite (proj2 (Z.leb_gt _ _)) by lia. Qed.

Lemma RNDUP_rndup n : 0 <= n <= MAX_AUTH_BYTES → RNDUP n = n + rndup_of n.
Proof.
  intros Hn. unfold MAX_AUTH_BYTES in Hn. assert (forallb (λ k, RNDUP (Z.of_nat k) =? Z.of_nat k + rndup_of (Z.of_nat k)) (seq 0 401) = true) as E by (vm_compute; reflexivity).
  rewrite forallb_forall in E. specialize (E (Z.to_nat n)). rewrite Z2Nat.id in E by lia. apply Z.eqb_eq, E, in_seq. lia.
Qed.

(** What [xdr_bytes] does after the length. *)
Definition bytes_tail (base : option (list Z)) (size : Z) : X (bool * (option (list Z) * Z)) :=
  if (MAX_AUTH_BYTES <? size) then mret (false, (base, size)) else
  if size =? 0 then mret (true, (base, size)) else
  sp ← storage junk size base;
  match sp with
  | None => mret (false, (None, size))
  | Some cp => '(b, cp) ← xdr_opaque size XDR_DECODE cp; mret (b, (Some cp, size))
  end.

Lemma bytes_after base v s h : mem_inv s → 4 <= x_handy s →
  xdr_bytes junk MAX_AUTH_BYTES XDR_DECODE (base, v) (s, h) = bytes_tail base (word s 0) (adv 4 s, h).
Proof.
  intros Hs H4. unfold xdr_bytes. rewrite (xbind _ _ _ _ _ (u_int_word v s h Hs H4)). cbn [negb]. rewrite bool_decide_eq_false_2 by done. cbn [negb]. by rewrite andb_true_r.
Qed.

(** Credentials or a verifier that can be decoded into: the pointer is null,
    or to a block that holds what is accepted, as in a server. *)
Definition room (base : option (list Z)) : Prop := match base with None => True | Some l => MAX_AUTH_BYTES <= Z.of_nat (length l) end.

Lemma storage_room base n (s : mem_stream) h : plenty h → room base → n <= MAX_AUTH_BYTES →
  ∃ cp h1, storage junk n base (s, h) = Val (Some cp, (s, h1)) ∧ plenty h1 ∧ (Z.to_nat n <= length cp)%nat.
Proof.
  intros Hp Hr Hn. destruct base as [l|]; cbn [room] in Hr; [by exists l, h; split_and!; [..|lia]|].
  destruct (alloc_plenty s h Hp) as (h1 & Ea & Hp1). eexists _, h1. unfold storage. rewrite (xbind _ _ _ _ _ Ea). split; [done|]. by rewrite length_fmap, length_seq.
Qed.

Lemma get_auth_tail oa s h : mem_inv s → plenty h → room (oa_base oa) → uint32 (oa_length oa) →
  ∃ b oa' s1 s2 h', get_auth oa (s, h) = Val (b, oa', (s1, h')) ∧ bytes_tail (oa_base oa) (oa_length oa) (s, h) = Val (b, (oa_base oa', oa_length oa'), (s2, h')) ∧
    oa_flavor oa' = oa_flavor oa ∧ plenty h' ∧ (b = true → s1 = s2 ∧ mem_inv s1).
Proof.
  intros Hs Hp Hb Hn. pose proof Hs as Hs0. unfold get_auth, bytes_tail. destruct (Z.eqb_spec (oa_length oa) 0) as [E0|E0].
  { rewrite E0. cbn. exists true, oa, s, s, h. rewrite E0. done. }
  destruct (Z.ltb_spec MAX_AUTH_BYTES (oa_length oa)) as [Hm|Hm]; [by exists false, oa, s, s, h|].
  destruct (storage_room (oa_base oa) (oa_length oa) s h Hp Hb Hm) as (cp & h1 & Es & Hp1 & Hl).
  rewrite !(xbind _ _ _ _ _ Es). unfold uint32 in Hn. cbn [set_base oa_length]. rewrite RNDUP_rndup by lia. pose proof (rndup_nonneg (oa_length oa)) as Hr.
  pose proof (opaque_decode (oa_length oa) cp s h1 ltac:(lia) ltac:(lia) Hs) as D. cbn [absorb mem_laws] in D. unfold mem_absorb in D. destruct Hs as (H1 & H2 & H3).
  destruct (Z.leb_spec (oa_length oa + rndup_of (oa_length oa)) (x_handy s)) as [Hle|Hgt].
  - rewrite (proj2 (Nat.leb_le _ _)) in D by lia. rewrite (xbind _ _ _ _ _ (inline_some (oa_length oa + rndup_of (oa_length oa)) s h1 ltac:(lia))), (xbind _ _ _ _ _ D), (proj2 (Nat.ltb_ge _ _)) by lia.
    assert (buf_read (x_private s) (Z.to_nat (oa_length oa)) (adv (Z.to_nat (oa_length oa + rndup_of (oa_length oa))) s, h1) =
      Val (take (Z.to_nat (oa_length oa)) (drop (x_private s) (x_base s)), (adv (Z.to_nat (oa_length oa + rndup_of (oa_length oa))) s, h1))) as Er.
    { unfold buf_read. cbn [adv x_base]. by rewrite (proj2 (Nat.leb_le _ _)) by lia. }
    rewrite (xbind _ _ _ _ _ Er). eexists true, _, _, _, h1. split; [done|]. split; [cbn; rewrite take_take, Nat.min_l by lia; done|]. split_and!; try done. intros _.
    split; [unfold adv; f_equal; lia|]. apply adv_inv; [done|lia].
  - rewrite (proj2 (Nat.leb_gt _ _)) in D by lia. destruct D as (cp' & s' & D & _). rewrite (xbind _ _ _ _ _ (inline_none (oa_length oa + rndup_of (oa_length oa)) s h1 ltac:(lia))), !(xbind _ _ _ _ _ D). by eexists false, _, s', s', h1.
Qed.

(** The words of the credentials or of the verifier, and the rest. *)
Lemma auth_equiv oa s h : mem_inv s → plenty h → room (oa_base oa) → 8 <= x_handy s →
  ∃ b oa' s1 s2 h', get_auth (set_length (word s 4) (set_flavor (wraps 32 (word s 0)) oa)) (adv 8 s, h) = Val (b, oa', (s1, h')) ∧
    xdr_opaque_auth XDR_DECODE oa (s, h) = Val (b, oa', (s2, h')) ∧ plenty h' ∧ (b = true → s1 = s2 ∧ mem_inv s1).
Proof.
  intros Hs Hp Hb H8. set (oa1 := set_length (word s 4) (set_flavor (wraps 32 (word s 0)) oa)).
  destruct (get_auth_tail oa1 (adv 8 s) h) as (b & oa' & s1 & s2 & h' & Ef & Et & Hf & Hp' & Hsame); [apply adv_inv; [done|lia]|done|done|apply word_bound; [done|lia]|].
  exists b, oa', s1, s2, h'. split_and!; try done. unfold xdr_opaque_auth. rewrite (xbind _ _ _ _ _ (enum_word (oa_flavor oa) s h Hs ltac:(lia))). cbn [set_flavor oa_base oa_length oa_flavor].
  assert (xdr_bytes junk MAX_AUTH_BYTES XDR_DECODE (oa_base oa, oa_length oa) (adv 4 s, h) = Val (b, (oa_base oa', oa_length oa'), (s2, h'))) as Eb.
  { rewrite bytes_after by (apply adv_inv || (unfold adv; cbn); done || lia). rewrite word_adv, adv_adv. exact Et. }
  rewrite (xbind _ _ _ _ _ Eb). unfold oa1 in Hf. cbn in Hf. by rewrite <- Hf; destruct oa'.
Qed.

Lemma enum_short v s h : x_handy s < 4 → xdr_enum XDR_DECODE v (s, h) = Val (false, v, (s, h)).
Proof. intros H4. unfold xdr_enum, by_long, number, getlong, on_stream, mbind, X_bind. cbn. unfold xdrmem_getlong. by rewrite (proj2 (Z.ltb_lt _ _)) by lia. Qed.

Lemma u_int_short v s h : x_handy s < 4 → xdr_u_int XDR_DECODE v (s, h) = Val (false, v, (s, h)).
Proof. intros H4. unfold xdr_u_int, by_long, number, getlong, on_stream, mbind, X_bind. cbn. unfold xdrmem_getlong. by rewrite (proj2 (Z.ltb_lt _ _)) by lia. Qed.

Lemma verf_equiv oa s h : mem_inv s → plenty h → room (oa_base oa) →
  ∃ b oa' s1 s2 h', get_verf oa (s, h) = Val (b, oa', (s1, h')) ∧ xdr_opaque_auth XDR_DECODE oa (s, h) = Val (b, oa', (s2, h')) ∧ (b = true → s1 = s2).
Proof.
  intros Hs Hp Hb. unfold get_verf. change (2 * 4) with 8. destruct (Z.le_gt_cases 8 (x_handy s)) as [H8|H8].
  - rewrite (xbind _ _ _ _ _ (inline_some 8 s h ltac:(lia))). change (Z.to_nat 8) with 8%nat.
    pose proof (get_enum_word s (adv 8 s) h 0 Hs eq_refl ltac:(lia)) as E1. rewrite Nat.add_0_r in E1. pose proof (get_int32_word s (adv 8 s) h 4 Hs eq_refl ltac:(lia)) as E2.
    destruct (auth_equiv oa s h Hs Hp Hb H8) as (b & oa' & s1 & s2 & h' & Ef & Es & _ & Hsame). exists b, oa', s1, s2, h'. split; [|split; [done|by intros []%Hsame]].
    unfold mbind at 1, X_bind at 1. rewrite (xbind _ _ _ _ _ E1), (xbind _ _ _ _ _ E2), wrapu_wraps, wrapu_small by (apply (word_bound s 4 Hs); lia). exact Ef.
  - rewrite (xbind _ _ _ _ _ (inline_none 8 s h ltac:(lia))). unfold xdr_opaque_auth. destruct (Z.le_gt_cases 4 (x_handy s)) as [H4|H4].
    + pose proof (enum_word (oa_flavor oa) s h Hs ltac:(lia)) as E1. assert (x_handy (adv 4 s) < 4) as H4' by (unfold adv; cbn; lia).
      exists false, (set_flavor (wraps 32 (word s 0)) oa), (adv 4 s), (adv 4 s), h. unfold mbind at 1, X_bind at 1. rewrite !(xbind _ _ _ _ _ E1). cbn [negb].
      cbn [set_flavor oa_flavor oa_base oa_length]. rewrite (xbind _ _ _ _ _ (u_int_short _ _ h H4')). split; [done|]. split; [|done]. unfold xdr_bytes, mbind, X_bind. by rewrite (u_int_short _ _ h H4').
    + pose proof (enum_short (oa_flavor oa) s h ltac:(lia)) as E1. exists false, (set_flavor (oa_flavor oa) oa), s, s, h. unfold mbind at 1, X_bind at 1. by rewrite !(xbind _ _ _ _ _ E1).
Qed.

(** Decoding never faults. *)
Definition safe_at (c : X (bool * rpc_msg)) (s : mem_stream) (h : host) : Prop := ∃ b m s' h', c (s, h) = Val (b, m, (s', h')).

Lemma member_safe {A} (f : filter A) (T : xdr_type A) get set m next s h :
  XdrLaws f T → xfresh T (get m) → mem_inv s → (∀ x s h, mem_inv s → safe_at (next (set x m)) s h) → safe_at (member f XDR_DECODE get set m next) s h.
Proof.
  intros L Hf Hs Hnext. unfold member, safe_at. destruct (law_safe (XdrLaws := L) (get m) s h Hf Hs) as (b & x & s1 & h1 & E & Hs1 & _). rewrite (xbind _ _ _ _ _ E).
  destruct b; [by apply Hnext|]. by eexists false, _, s1, h1.
Qed.

Lemma bytes_safe base v s h : room base → mem_inv s → ∃ b x s' h', xdr_bytes junk MAX_AUTH_BYTES XDR_DECODE (base, v) (s, h) = Val (b, x, (s', h')) ∧ mem_inv s'.
Proof.
  intros Hr Hs. destruct base as [cp|]; cbn [room] in Hr.
  2:{ destruct (law_safe (XdrLaws := xdr_bytes_laws (Str := mem_laws) junk MAX_AUTH_BYTES) (None, v) s h eq_refl Hs) as (b & x & s' & h' & E & Hs' & _). by exists b, x, s', h'. }
  destruct (Z.le_gt_cases 4 (x_handy s)) as [H4|H4].
  2:{ eexists false, _, s, h. unfold xdr_bytes, mbind, X_bind. by rewrite u_int_short by lia. }
  rewrite bytes_after by done. assert (mem_inv (adv 4 s)) as Ha by (by apply adv_inv). pose proof (word_bound s 0 Hs ltac:(lia)) as Hw. unfold uint32 in Hw.
  unfold bytes_tail. case_match; [by eexists false, _, _, h|]. case_match; [by eexists true, _, _, h|]. cbn [storage].
  pose proof (opaque_decode (word s 0) cp (adv 4 s) h ltac:(lia) ltac:(lia) Ha) as D. destruct (absorb (adv 4 s) _) as [[bs s']|] eqn:E.
  - destruct (absorb_inv (Stream := mem_laws) _ _ _ _ Ha E) as (Hs' & _). eexists true, _, s', h. split; [|done]. unfold mbind at 1, X_bind at 1. cbn. by rewrite (xbind _ _ _ _ _ D).
  - destruct D as (cp' & s' & D & Hs' & _). eexists false, _, s', h. split; [|done]. unfold mbind at 1, X_bind at 1. cbn. by rewrite (xbind _ _ _ _ _ D).
Qed.

Lemma auth_member_safe get set m next s h :
  room (oa_base (get m)) → mem_inv s → (∀ x s h, mem_inv s → safe_at (next (set x m)) s h) → safe_at (member xdr_opaque_auth XDR_DECODE get set m next) s h.
Proof.
  intros Hb Hs Hnext. unfold member, safe_at, xdr_opaque_auth. destruct (law_safe (XdrLaws := xdr_enum_laws (Str := mem_laws)) (oa_flavor (get m)) s h I Hs) as (b & x & s1 & h1 & E & Hs1 & _).
  destruct b; [|unfold mbind at 1, X_bind at 1; rewrite (xbind _ _ _ _ _ E); by eexists false, _, s1, h1].
  destruct (bytes_safe (oa_base (get m)) (oa_length (get m)) s1 h1 Hb Hs1) as (b & [base len] & s2 & h2 & E2 & Hs2).
  unfold mbind at 1, X_bind at 1. rewrite (xbind _ _ _ _ _ E). cbn [set_flavor oa_base oa_length oa_flavor]. rewrite (xbind _ _ _ _ _ E2). destruct b; [by apply Hnext|]. by eexists false, _, s2, h2.
Qed.

Lemma members_safe m s h : mem_inv s → room (oa_base (cb_cred (rm_call m))) → room (oa_base (cb_verf (rm_call m))) → safe_at (callmsg_members XDR_DECODE m) s h.
Proof.
  intros Hs Hc Hv. unfold callmsg_members. eapply member_safe; [apply xdr_u_long_laws|done|done|]. clear s h Hs. intros x1 s h Hs.
  eapply member_safe; [apply xdr_enum_laws|done|done|]. clear s h Hs. intros x2 s h Hs. case_match; [by eexists _, _, _, _|].
  eapply member_safe; [apply xdr_u_long_laws|done|done|]. clear s h Hs. intros x3 s h Hs. case_match; [by eexists _, _, _, _|].
  do 3 (eapply member_safe; [apply xdr_u_long_laws|done|done|]; clear s h Hs; intros ? s h Hs).
  apply auth_member_safe; [done|done|]. clear s h Hs. intros x7 s h Hs. apply auth_member_safe; [done|done|]. clear s h Hs. intros x8 s h Hs. by eexists _, _, _, _.
Qed.

(** C17. For whatever bytes there are, and as long as allocations are granted,
    xdr_callmsg, which decodes in the buffer of the stream, gives the same
    value, the same message and the same allocations as decoding the members
    one after another with the filters, and on success the same position. Each
    of the two pointers to credentials and verifier in the message that is
    decoded into is null or points to at least MAX_AUTH_BYTES (400) bytes, as
    in the server. *)
Theorem xdr_callmsg_decode_equiv (m : rpc_msg) (s : mem_stream) (h : host) :
  mem_inv s → plenty h → room (oa_base (cb_cred (rm_call m))) → room (oa_base (cb_verf (rm_call m))) →
  ∃ b m' s1 s2 h', xdr_callmsg XDR_DECODE m (s, h) = Val (b, m', (s1, h')) ∧ callmsg_members XDR_DECODE m (s, h) = Val (b, m', (s2, h')) ∧ (b = true → s1 = s2).
Proof.
  intros Hs Hp Hc Hv. unfold xdr_callmsg, callmsg_get. change (8 * 4) with 32. destruct (Z.le_gt_cases 32 (x_handy s)) as [H32|H32].
  2:{ destruct (members_safe m s h Hs Hc Hv) as (b & m' & s' & h' & E). exists b, m', s', s', h'. unfold mbind at 1, X_bind at 1. by rewrite (xbind _ _ _ _ _ (inline_none 32 s h ltac:(lia))). }
  unfold mbind at 1, X_bind at 1. rewrite (xbind _ _ _ _ _ (inline_some 32 s h ltac:(lia))). change (Z.to_nat 32) with 32%nat. unfold callmsg_members, member.
  assert (∀ k, Z.of_nat k <= 28 → mem_inv (adv k s) ∧ 4 <= x_handy (adv k s)) as Hk by (intros k Hk; split; [apply adv_inv; [done|lia]|unfold adv; cbn; lia]).
  assert (∀ k v, Z.of_nat k <= 28 → xdr_u_long XDR_DECODE v (adv k s, h) = Val (true, word s k, (adv (k + 4) s, h))) as SL.
  { intros k v Hle. destruct (Hk k Hle). by rewrite u_long_word, word_adv, adv_adv, Nat.add_0_r. }
  pose proof (λ off, get_long_word s (adv 32 s) h off Hs eq_refl) as FL.
  pose proof (get_long_word s (adv 32 s) h 0 Hs eq_refl ltac:(lia)) as F0. rewrite Nat.add_0_r in F0. rewrite (xbind _ _ _ _ _ F0), (xbind _ _ _ _ _ (u_long_word _ s h Hs ltac:(lia))).
  rewrite (xbind _ _ _ _ _ (get_enum_word s (adv 32 s) h 4 Hs eq_refl ltac:(lia))). destruct (Hk 4%nat ltac:(lia)) as [Hk1 Hk2]. rewrite (xbind _ _ _ _ _ (enum_word _ (adv 4 s) h Hk1 Hk2)), word_adv, adv_adv.
  cbn [Nat.add]. destruct (negb (rm_direction _ =? CALL)); [by eexists false, _, _, _, h|].
  rewrite (xbind _ _ _ _ _ (FL 8%nat ltac:(lia))), (xbind _ _ _ _ _ (SL 8%nat _ ltac:(lia))). cbn [Nat.add]. destruct (negb (cb_rpcvers _ =? RPC_MSG_VERSION)); [by eexists false, _, _, _, h|].
  rewrite (xbind _ _ _ _ _ (FL 12%nat ltac:(lia))), (xbind _ _ _ _ _ (SL 12%nat _ ltac:(lia))). cbn [Nat.add].
  rewrite (xbind _ _ _ _ _ (FL 16%nat ltac:(lia))), (xbind _ _ _ _ _ (SL 16%nat _ ltac:(lia))). cbn [Nat.add].
  rewrite (xbind _ _ _ _ _ (FL 20%nat ltac:(lia))), (xbind _ _ _ _ _ (SL 20%nat _ ltac:(lia))). cbn [Nat.add].
  rewrite (xbind _ _ _ _ _ (get_enum_word s (adv 32 s) h 24 Hs eq_refl ltac:(lia))). cbn [Nat.add]. rewrite (xbind _ _ _ _ _ (get_int32_word s (adv 32 s) h 28 Hs eq_refl ltac:(lia))).
  rewrite wrapu_wraps, wrapu_small by (apply (word_bound s 28 Hs); lia).
  set (m6 := set_proc _ _). destruct (auth_equiv (cb_cred (rm_call m6)) (adv 24 s) h) as (b & oa' & s1 & s2 & h1 & Ef & Es & Hp1 & Hsame); [by destruct (Hk 24%nat ltac:(lia))|done|done|unfold adv; cbn; lia|].
  rewrite !word_adv, adv_adv in Ef. cbn [Nat.add] in Ef. rewrite (xbind _ _ _ _ _ Ef). unfold compose. rewrite (xbind _ _ _ _ _ Es). destruct b; cbn [negb]; [|by eexists false, _, s1, s2, h1].
  destruct (Hsame eq_refl) as [<- Hs1]. destruct (verf_equiv (cb_verf (rm_call (set_cred oa' m6))) s1 h1 Hs1 Hp1 Hv) as (b & ov & s3 & s4 & h2 & Ef2 & Es2 & Hsame2).
  rewrite (xbind _ _ _ _ _ Ef2), (xbind _ _ _ _ _ Es2). exists b, (set_verf ov (set_cred oa' m6)), s3, s4, h2. split_and!; try done. by destruct b.
Qed.

(** ** Encoding into the buffer *)

Definition wr (off : nat) (bs : list Z) (s : mem_stream) : mem_stream := MemStream (list_inserts off bs (x_base s)) (x_private s) (x_handy s).

Lemma wr_wr off a b s : wr (off + length a) b (wr off a s) = wr off (a ++ b) s.
Proof. unfold wr. cbn. by rewrite list_inserts_app_l, (Nat.add_comm off). Qed.

Lemma buf_write_ok off bs s h : (off + length bs <= length (x_base s))%nat → buf_write off bs (s, h) = Val (tt, (wr off bs s, h)).
Proof. intros Hl. unfold buf_write. by rewrite (proj2 (Nat.leb_le _ _)) by lia. Qed.

(** A word after what was written at [p]. *)
Lemma ixdr_put_word p bs v s h : (p + length bs + 4 <= length (x_base s))%nat →
  IXDR_PUT_INT32 (p + length bs) v (wr p bs s, h) = Val ((p + length (bs ++ be32 v))%nat, (wr p (bs ++ be32 v) s, h)).
Proof.
  intros Hl. unfold IXDR_PUT_INT32. rewrite htonl_be32. assert (buf_write (p + length bs) (be32 v) (wr p bs s, h) = Val (tt, (wr p (bs ++ be32 v) s, h))) as E.
  { rewrite buf_write_ok, wr_wr; [done|]. unfold wr. cbn [x_base]. rewrite length_inserts, be32_length. lia. }
  rewrite (xbind _ _ _ _ _ E). by replace (p + length (bs ++ be32 v))%nat with (p + length bs + 4)%nat by (rewrite length_app, be32_length; lia).
Qed.

(** The bytes of an authenticator that are written. *)
Definition auth_bytes (oa : opaque_auth) : list Z := take (Z.to_nat (oa_length oa)) (default [] (oa_base oa)).
Definition auth_wire (oa : opaque_auth) : list Z := be32 (oa_flavor oa) ++ be32 (oa_length oa) ++ auth_bytes oa.
Definition auth_ok (oa : opaque_auth) : Prop :=
  int32 (oa_flavor oa) ∧ 0 <= oa_length oa <= MAX_AUTH_BYTES ∧ (Z.to_nat (oa_length oa) <= length (default [] (oa_base oa)))%nat ∧ bytes (auth_bytes oa).

Lemma auth_bytes_length oa : auth_ok oa → length (auth_bytes oa) = Z.to_nat (oa_length oa).
Proof. intros (_ & _ & Hl & _). unfold auth_bytes. rewrite length_take. lia. Qed.

Lemma put_auth_ok p bs oa s h : auth_ok oa → (p + length bs + length (auth_wire oa) <= length (x_base s))%nat →
  put_auth (p + length bs) oa (wr p bs s, h) = Val ((p + length bs + 8 + Z.to_nat (RNDUP (oa_length oa)))%nat, (wr p (bs ++ auth_wire oa) s, h)).
Proof.
  intros Ha Hl. pose proof (auth_bytes_length oa Ha) as Hab. destruct Ha as (_ & Hn & Hb & _). unfold auth_wire in Hl. rewrite !length_app, !be32_length in Hl. unfold put_auth, auth_wire.
  rewrite (xbind _ _ _ _ _ (ixdr_put_word p bs (oa_flavor oa) s h ltac:(lia))). rewrite (xbind _ _ _ _ _ (ixdr_put_word p (bs ++ be32 (oa_flavor oa)) (oa_length oa) s h ltac:(rewrite length_app, be32_length; lia))).
  rewrite (app_assoc bs), (app_assoc (bs ++ _)). set (bs1 := (bs ++ be32 (oa_flavor oa)) ++ be32 (oa_length oa)). assert (length bs1 = length bs + 8)%nat as L1 by (unfold bs1; rewrite !length_app, !be32_length; lia).
  destruct (Z.eqb_spec (oa_length oa) 0) as [E0|E0].
  - assert (auth_bytes oa = []) as -> by (apply nil_length_inv; rewrite Hab, E0; done). rewrite app_nil_r, E0. change (Z.to_nat (RNDUP 0)) with 0%nat. by replace (p + length bs + 8 + 0)%nat with (p + length bs1)%nat by lia.
  - unfold auth_bytes in *. destruct (oa_base oa) as [l|]; cbn [default from_option id] in *; [|cbn in Hb; lia]. rewrite (proj2 (Nat.ltb_ge _ _)) by lia.
    assert (buf_write (p + length bs1) (take (Z.to_nat (oa_length oa)) l) (wr p bs1 s, h) = Val (tt, (wr p (bs1 ++ take (Z.to_nat (oa_length oa)) l) s, h))) as E.
    { rewrite buf_write_ok, wr_wr; [done|]. unfold wr. cbn [x_base]. rewrite length_inserts. lia. }
    rewrite (xbind _ _ _ _ _ E). by replace (p + length bs + 8)%nat with (p + length bs1)%nat by lia.
Qed.

(** The header and the credentials, and the verifier after the padding. *)
Definition head_wire (m : rpc_msg) : list Z :=
  (((((be32 (rm_xid m) ++ be32 (rm_direction m)) ++ be32 (cb_rpcvers (rm_call m))) ++ be32 (cb_prog (rm_call m))) ++ be32 (cb_vers (rm_call m))) ++ be32 (cb_proc (rm_call m))) ++ auth_wire (cb_cred (rm_call m)).
Definition verf_at (m : rpc_msg) : nat := 32 + Z.to_nat (RNDUP (oa_length (cb_cred (rm_call m)))).
Definition call_size (m : rpc_msg) : nat := verf_at m + 8 + Z.to_nat (RNDUP (oa_length (cb_verf (rm_call m)))).
Definition call_ok (m : rpc_msg) : Prop :=
  let c := rm_call m in
  uint32 (rm_xid m) ∧ rm_direction m = CALL ∧ cb_rpcvers c = RPC_MSG_VERSION ∧ uint32 (cb_prog c) ∧ uint32 (cb_vers c) ∧ uint32 (cb_proc c) ∧ auth_ok (cb_cred c) ∧ auth_ok (cb_verf c).

Lemma RNDUP_bound oa : auth_ok oa → oa_length oa <= RNDUP (oa_length oa) <= 404.
Proof. intros (_ & Hn & _). rewrite RNDUP_rndup by done. pose proof (rndup_nonneg (oa_length oa)). unfold MAX_AUTH_BYTES in Hn. lia. Qed.

Lemma wire_length oa : auth_ok oa → length (auth_wire oa) = (8 + Z.to_nat (oa_length oa))%nat.
Proof. intros Ha. unfold auth_wire. rewrite !length_app, !be32_length, (auth_bytes_length oa Ha). lia. Qed.

Lemma head_length m : call_ok m → length (head_wire m) = (32 + Z.to_nat (oa_length (cb_cred (rm_call m))))%nat.
Proof. intros (_ & _ & _ & _ & _ & _ & Hc & _). unfold head_wire. rewrite !length_app, !be32_length, (wire_length _ Hc). lia. Qed.

(** What encoding leaves; the bytes that fill the last units are kept. *)
Definition call_encoded (m : rpc_msg) (s : mem_stream) : mem_stream :=
  adv (call_size m) (wr (x_private s + verf_at m) (auth_wire (cb_verf (rm_call m))) (wr (x_private s) (head_wire m) s)).

Lemma xdr_callmsg_encode (m : rpc_msg) (s : mem_stream) (h : host) :
  call_ok m → mem_inv s → Z.of_nat (call_size m) <= x_handy s → xdr_callmsg XDR_ENCODE m (s, h) = Val (true, m, (call_encoded m s, h)).
Proof.
  intros Hm Hs Hn. pose proof (head_length m Hm) as Hhl. destruct Hm as (_ & Hd & Hv & _ & _ & _ & Hc & Hf). pose proof (RNDUP_bound _ Hc) as Rc. pose proof (RNDUP_bound _ Hf) as Rf.
  pose proof (wire_length _ Hc) as Lc. pose proof (wire_length _ Hf) as Lf. pose proof Hc as (_ & Nc & _). pose proof Hf as (_ & Nf & _). destruct Hs as (H1 & H2 & _).
  unfold call_size, verf_at in Hn. unfold xdr_callmsg, callmsg_put. rewrite !(proj2 (Z.ltb_ge _ _)) by lia. unfold mbind at 1, X_bind at 1.
  rewrite (xbind _ _ _ _ _ (inline_some (8 * 4 + RNDUP (oa_length (cb_cred (rm_call m))) + 2 * 4 + RNDUP (oa_length (cb_verf (rm_call m)))) s h ltac:(lia))).
  set (n := Z.to_nat (8 * 4 + _ + 2 * 4 + _)). set (p := x_private s). set (c := rm_call m) in *.
  assert (∀ bs v, (length bs <= 28)%nat → IXDR_PUT_INT32 (p + length bs) v (wr p bs (adv n s), h) = Val ((p + length (bs ++ be32 v))%nat, (wr p (bs ++ be32 v) (adv n s), h))) as P.
  { intros bs v Hl. apply ixdr_put_word. change (x_base (adv n s)) with (x_base s). unfold p. lia. }
  pose proof (P [] (rm_xid m) ltac:(cbn; lia)) as P0. cbn [length app] in P0. rewrite Nat.add_0_r in P0. change (wr p [] (adv n s)) with (adv n s) in P0. rewrite (xbind _ _ _ _ _ P0). clear P0.
  set (b1 := be32 (rm_xid m)). assert (length b1 = 4%nat) as L1 by done. rewrite (xbind _ _ _ _ _ (P b1 (rm_direction m) ltac:(lia))), (proj2 (Z.eqb_eq _ _) Hd). cbn [negb].
  set (b2 := b1 ++ be32 (rm_direction m)). assert (length b2 = 8%nat) as L2 by (unfold b2; rewrite length_app, be32_length; lia).
  rewrite (xbind _ _ _ _ _ (P b2 (cb_rpcvers c) ltac:(lia))), (proj2 (Z.eqb_eq _ _) Hv). cbn [negb]. set (b3 := b2 ++ be32 (cb_rpcvers c)). assert (length b3 = 12%nat) as L3 by (unfold b3; rewrite length_app, be32_length; lia).
  rewrite (xbind _ _ _ _ _ (P b3 (cb_prog c) ltac:(lia))). set (b4 := b3 ++ be32 (cb_prog c)). assert (length b4 = 16%nat) as L4 by (unfold b4; rewrite length_app, be32_length; lia).
  rewrite (xbind _ _ _ _ _ (P b4 (cb_vers c) ltac:(lia))). set (b5 := b4 ++ be32 (cb_vers c)). assert (length b5 = 20%nat) as L5 by (unfold b5; rewrite length_app, be32_length; lia).
  rewrite (xbind _ _ _ _ _ (P b5 (cb_proc c) ltac:(lia))). set (b6 := b5 ++ be32 (cb_proc c)). assert (length b6 = 24%nat) as L6 by (unfold b6; rewrite length_app, be32_length; lia).
  assert (p + length b6 + length (auth_wire (cb_cred c)) <= length (x_base (adv n s)))%nat as Hroom by (change (x_base (adv n s)) with (x_base s); unfold p; lia).
  rewrite (xbind _ _ _ _ _ (put_auth_ok p b6 (cb_cred c) (adv n s) h Hc Hroom)). change (b6 ++ auth_wire (cb_cred c)) with (head_wire m).
  replace (p + length b6 + 8 + Z.to_nat (RNDUP (oa_length (cb_cred c))))%nat with (p + verf_at m)%nat by (unfold verf_at; fold c; lia).
  pose proof (put_auth_ok (p + verf_at m) [] (cb_verf c) (wr p (head_wire m) (adv n s)) h Hf) as E. cbn [length app] in E. rewrite Nat.add_0_r in E.
  change (wr (p + verf_at m) [] (wr p (head_wire m) (adv n s))) with (wr p (head_wire m) (adv n s)) in E.
  assert (p + verf_at m + length (auth_wire (cb_verf c)) <= length (x_base (wr p (head_wire m) (adv n s))))%nat as Hroom2.
  { unfold wr. cbn [x_base]. rewrite length_inserts. change (x_base (adv n s)) with (x_base s). unfold p, verf_at. fold c. lia. }
  rewrite (xbind _ _ _ _ _ (E Hroom2)). unfold call_encoded. fold p c. replace n with (call_size m) by (unfold n, call_size, verf_at; fold c; lia). done.
Qed.

(** ** Reading back *)

Lemma read_in {A} n off p (l b : list A) : (off + n <= length l)%nat → (p + length l <= length b)%nat → take n (drop (p + off) (list_inserts p l b)) = take n (drop off l).
Proof.
  intros Hn Hl. apply list_eq. intros i. destruct (decide (i < n)%nat) as [Hi|Hi]; [|by rewrite !lookup_take_ge by lia]. rewrite !lookup_take_lt, !lookup_drop, list_lookup_inserts by lia.
  f_equal. lia.
Qed.

Lemma read_before {A} n a c (l b : list A) : (a + n <= c)%nat → take n (drop a (list_inserts c l b)) = take n (drop a b).
Proof.
  intros Hn. apply list_eq. intros i. destruct (decide (i < n)%nat) as [Hi|Hi]; [|by rewrite !lookup_take_ge by lia]. by rewrite !lookup_take_lt, !lookup_drop, list_lookup_inserts_lt by lia.
Qed.

(** Credentials or a verifier whose bytes are there. *)
Lemma get_auth_ok oa s h : mem_inv s → plenty h → room (oa_base oa) → 0 <= oa_length oa <= MAX_AUTH_BYTES → RNDUP (oa_length oa) <= x_handy s →
  ∃ base h', get_auth oa (s, h) = Val (true, set_base base oa, (adv (Z.to_nat (RNDUP (oa_length oa))) s, h')) ∧ plenty h' ∧
    take (Z.to_nat (oa_length oa)) (default [] base) = take (Z.to_nat (oa_length oa)) (drop (x_private s) (x_base s)).
Proof.
  intros (H1 & H2 & H3) Hp Hb Hn Hh. unfold get_auth. destruct (Z.eqb_spec (oa_length oa) 0) as [E0|E0].
  { exists (oa_base oa), h. rewrite E0. change (Z.to_nat (RNDUP 0)) with 0%nat. destruct oa, s. unfold adv. cbn in *. subst. rewrite Nat.add_0_r, Z.sub_0_r. done. }
  rewrite (proj2 (Z.ltb_ge _ _)) by lia. destruct (storage_room (oa_base oa) (oa_length oa) s h Hp Hb ltac:(lia)) as (cp & h1 & Es & Hp1 & Hl).
  rewrite (xbind _ _ _ _ _ Es). cbn [set_base oa_length]. rewrite RNDUP_rndup in * by lia. pose proof (rndup_nonneg (oa_length oa)) as Hr.
  rewrite (xbind _ _ _ _ _ (inline_some (oa_length oa + rndup_of (oa_length oa)) s h1 ltac:(lia))), (proj2 (Nat.ltb_ge _ _)) by lia. set (s' := adv _ s).
  set (bs := take (Z.to_nat (oa_length oa)) (drop (x_private s) (x_base s))). assert (length bs = Z.to_nat (oa_length oa)) as Hbs by (unfold bs; rewrite length_take, length_drop; lia).
  assert (buf_read (x_private s) (Z.to_nat (oa_length oa)) (s', h1) = Val (bs, (s', h1))) as Er.
  { unfold buf_read. change (x_base s') with (x_base s). by rewrite (proj2 (Nat.leb_le _ _)) by lia. }
  rewrite (xbind _ _ _ _ _ Er). eexists (Some _), h1. split; [done|]. split; [done|]. cbn [default from_option id]. by rewrite take_app_length' by done.
Qed.

Lemma get_verf_ok oa s h : mem_inv s → plenty h → room (oa_base oa) → 8 <= x_handy s → 0 <= word s 4 <= MAX_AUTH_BYTES → 8 + RNDUP (word s 4) <= x_handy s →
  ∃ base h', get_verf oa (s, h) = Val (true, OpaqueAuth (wraps 32 (word s 0)) base (word s 4), (adv (8 + Z.to_nat (RNDUP (word s 4))) s, h')) ∧
    take (Z.to_nat (word s 4)) (default [] base) = take (Z.to_nat (word s 4)) (drop (x_private s + 8) (x_base s)).
Proof.
  intros Hs Hp Hb H8 Hn Hh. unfold get_verf. change (2 * 4) with 8. rewrite (xbind _ _ _ _ _ (inline_some 8 s h ltac:(lia))). change (Z.to_nat 8) with 8%nat.
  pose proof (get_enum_word s (adv 8 s) h 0 Hs eq_refl ltac:(lia)) as E1. rewrite Nat.add_0_r in E1. pose proof (get_int32_word s (adv 8 s) h 4 Hs eq_refl ltac:(lia)) as E2.
  unfold mbind at 1, X_bind at 1. rewrite (xbind _ _ _ _ _ E1), (xbind _ _ _ _ _ E2), wrapu_wraps, wrapu_small by (apply (word_bound s 4 Hs); lia).
  destruct (get_auth_ok (set_length (word s 4) (set_flavor (wraps 32 (word s 0)) oa)) (adv 8 s) h) as (base & h' & E & _ & Ht); [apply adv_inv; [done|lia]|done|done|done|unfold adv; cbn [x_handy]; cbn [set_length oa_length]; lia|].
  exists base, h'. split; [|done]. rewrite adv_adv in E. exact E.
Qed.

Lemma get_head m s h : mem_inv s → 32 <= x_handy s → wraps 32 (word s 4) = CALL → word s 8 = RPC_MSG_VERSION →
  callmsg_get m (s, h) =
    (let m1 := set_proc (word s 20) (set_vers (word s 16) (set_prog (word s 12) (set_rpcvers (word s 8) (set_direction (wraps 32 (word s 4)) (set_xid (word s 0) m))))) in
     '(b, oa) ← get_auth (set_length (word s 28) (set_flavor (wraps 32 (word s 24)) (cb_cred (rm_call m))));
     if negb b then mret (Some (false, set_cred oa m1)) else
     '(b, ov) ← get_verf (cb_verf (rm_call m));
     mret (Some (b, set_verf ov (set_cred oa m1)))) (adv 32 s, h).
Proof.
  intros Hs H32 Hd Hv. unfold callmsg_get. change (8 * 4) with 32. rewrite (xbind _ _ _ _ _ (inline_some 32 s h ltac:(lia))). change (Z.to_nat 32) with 32%nat.
  pose proof (λ off, get_long_word s (adv 32 s) h off Hs eq_refl) as FL. pose proof (FL 0%nat ltac:(lia)) as F0. rewrite Nat.add_0_r in F0. rewrite (xbind _ _ _ _ _ F0).
  rewrite (xbind _ _ _ _ _ (get_enum_word s (adv 32 s) h 4 Hs eq_refl ltac:(lia))). cbn [Nat.add]. cbn [set_direction rm_direction]. rewrite (proj2 (Z.eqb_eq _ _) Hd). cbn [negb].
  rewrite (xbind _ _ _ _ _ (FL 8%nat ltac:(lia))). cbn [Nat.add]. cbn [set_rpcvers on_call rm_call cb_rpcvers]. rewrite (proj2 (Z.eqb_eq _ _) Hv). cbn [negb].
  rewrite (xbind _ _ _ _ _ (FL 12%nat ltac:(lia))). cbn [Nat.add]. rewrite (xbind _ _ _ _ _ (FL 16%nat ltac:(lia))). cbn [Nat.add]. rewrite (xbind _ _ _ _ _ (FL 20%nat ltac:(lia))). cbn [Nat.add].
  rewrite (xbind _ _ _ _ _ (get_enum_word s (adv 32 s) h 24 Hs eq_refl ltac:(lia))). cbn [Nat.add]. rewrite (xbind _ _ _ _ _ (get_int32_word s (adv 32 s) h 28 Hs eq_refl ltac:(lia))).
  rewrite wrapu_wraps, wrapu_small by (apply (word_bound s 28 Hs); lia). done.
Qed.

(** Messages with the same members. *)
Definition auth_same (a b : opaque_auth) : Prop := oa_flavor a = oa_flavor b ∧ oa_length a = oa_length b ∧ auth_bytes a = auth_bytes b.
Definition call_same (a b : rpc_msg) : Prop :=
  rm_xid a = rm_xid b ∧ rm_direction a = rm_direction b ∧ cb_rpcvers (rm_call a) = cb_rpcvers (rm_call b) ∧ cb_prog (rm_call a) = cb_prog (rm_call b) ∧
  cb_vers (rm_call a) = cb_vers (rm_call b) ∧ cb_proc (rm_call a) = cb_proc (rm_call b) ∧ auth_same (cb_cred (rm_call a)) (cb_cred (rm_call b)) ∧ auth_same (cb_verf (rm_call a)) (cb_verf (rm_call b)).

(** The stream at the start of what was encoded. *)
Definition rewound (m : rpc_msg) (s : mem_stream) : mem_stream := MemStream (x_base (call_encoded m s)) (x_private s) (x_handy s).

Section Rewound.
Context (m : rpc_msg) (s : mem_stream) (Hm : call_ok m) (Hs : mem_inv s) (Hn : Z.of_nat (call_size m) <= x_handy s).
Local Notation d := (rewound m s).
Local Notation c := (rm_call m).

Lemma verf_place : (length (head_wire m) <= verf_at m)%nat ∧ (verf_at m + length (auth_wire (cb_verf c)) <= call_size m)%nat.
Proof.
  pose proof (head_length m Hm). destruct Hm as (_ & _ & _ & _ & _ & _ & Hc & Hf). pose proof (RNDUP_bound _ Hc). pose proof (RNDUP_bound _ Hf). pose proof (wire_length _ Hf).
  destruct Hc as (_ & ? & _). destruct Hf as (_ & ? & _). unfold call_size, verf_at. lia.
Qed.

Lemma rewound_inv : mem_inv d.
Proof.
  destruct Hs as (H1 & H2 & H3). unfold mem_inv, rewound, call_encoded, adv, wr. cbn [x_base x_private x_handy]. rewrite !length_inserts. split_and!; try lia. destruct Hm as (_ & _ & _ & _ & _ & _ & (_ & _ & _ & Hc) & (_ & _ & _ & Hf)).
  repeat (apply inserts_bytes || apply Forall_app_2 || apply be32_bytes || done).
Qed.

Lemma read_head off n : (off + n <= length (head_wire m))%nat → take n (drop (x_private s + off) (x_base d)) = take n (drop off (head_wire m)).
Proof.
  intros Ho. destruct verf_place. destruct Hs as (_ & H2 & _). unfold rewound, call_encoded, adv, wr. cbn [x_base x_private x_handy]. rewrite read_before by lia. apply read_in; lia.
Qed.

Lemma read_verf off n : (off + n <= length (auth_wire (cb_verf c)))%nat →
  take n (drop (x_private s + verf_at m + off) (x_base d)) = take n (drop off (auth_wire (cb_verf c))).
Proof.
  intros Ho. destruct verf_place. destruct Hs as (_ & H2 & _). unfold rewound, call_encoded, adv, wr. cbn [x_base x_private x_handy]. apply read_in; [lia|]. rewrite length_inserts. lia.
Qed.

Lemma head_word off v : (off <= 28)%nat → take 4 (drop off (head_wire m)) = be32 v → word d off = v mod 4294967296.
Proof. intros Ho E. unfold word. change (x_private d) with (x_private s). rewrite read_head, E by (rewrite (head_length m Hm); lia). apply be32_back. Qed.

Lemma head_words :
  word d 0 = rm_xid m ∧ wraps 32 (word d 4) = rm_direction m ∧ word d 8 = cb_rpcvers c ∧ word d 12 = cb_prog c ∧ word d 16 = cb_vers c ∧ word d 20 = cb_proc c ∧
  wraps 32 (word d 24) = oa_flavor (cb_cred c) ∧ word d 28 = oa_length (cb_cred c).
Proof.
  rewrite (head_word 0 (rm_xid m)), (head_word 4 (rm_direction m)), (head_word 8 (cb_rpcvers c)), (head_word 12 (cb_prog c)), (head_word 16 (cb_vers c)), (head_word 20 (cb_proc c)),
    (head_word 24 (oa_flavor (cb_cred c))), (head_word 28 (oa_length (cb_cred c))) by (lia || reflexivity).
  destruct Hm as (Hx & Hd & Hv & H12 & H16 & H20 & (Hf & Hl & _) & _). rewrite Hd, Hv. unfold MAX_AUTH_BYTES in Hl. split_and!; try done; try (by apply Z.mod_small); [|apply Z.mod_small; lia].
  rewrite <- be32_back, wraps_back. apply wraps_small; [lia|]. exact Hf.
Qed.

Lemma verf_words : wraps 32 (word d (verf_at m)) = oa_flavor (cb_verf c) ∧ word d (verf_at m + 4) = oa_length (cb_verf c).
Proof.
  destruct Hm as (_ & _ & _ & _ & _ & _ & _ & Hv). pose proof (wire_length _ Hv) as Hl. unfold word. change (x_private d) with (x_private s). rewrite Nat.add_assoc.
  rewrite <- (Nat.add_0_r (x_private s + verf_at m)), (read_verf 0) by lia. rewrite Nat.add_0_r, (read_verf 4) by lia. change (take 4 (drop 0 (auth_wire (cb_verf c)))) with (be32 (oa_flavor (cb_verf c))).
  change (take 4 (drop 4 (auth_wire (cb_verf c)))) with (be32 (oa_length (cb_verf c))). destruct Hv as (Hf & Hlen & _). unfold MAX_AUTH_BYTES in Hlen. rewrite wraps_back, be32_back, Z.mod_small by lia.
  split; [apply wraps_small; [lia|exact Hf]|done].
Qed.
End Rewound.

(** C18. A call message with credentials and a verifier of at most 400 bytes,
    for which the stream has room, is encoded in the buffer, and decoding what
    was written, with every allocation granted, gives a message with the same
    members and the same bytes of credentials and verifier, and stops where
    encoding stopped. Each of the two pointers to credentials and verifier in
    the message that is decoded into is null or points to at least
    MAX_AUTH_BYTES (400) bytes, as in the server. *)
Theorem xdr_callmsg_roundtrip (m m0 : rpc_msg) (s : mem_stream) (h : host) :
  call_ok m → mem_inv s → Z.of_nat (call_size m) <= x_handy s → plenty h → room (oa_base (cb_cred (rm_call m0))) → room (oa_base (cb_verf (rm_call m0))) →
  ∃ s1, xdr_callmsg XDR_ENCODE m (s, h) = Val (true, m, (s1, h)) ∧ x_private s1 = (x_private s + call_size m)%nat ∧
    ∃ m' h', xdr_callmsg XDR_DECODE m0 (MemStream (x_base s1) (x_private s) (x_handy s), h) = Val (true, m', (s1, h')) ∧ call_same m m'.
Proof.
  intros Hm Hs Hn Hp Hc0 Hv0. exists (call_encoded m s). split; [by apply xdr_callmsg_encode|]. split; [done|]. fold (rewound m s). pose proof (rewound_inv m s Hm Hs) as Hd.
  destruct (head_words m s Hm Hs Hn) as (W0 & W4 & W8 & W12 & W16 & W20 & W24 & W28). destruct (verf_words m s Hm Hs Hn) as (V0 & V4).
  pose proof Hm as (_ & Hdir & Hver & _ & _ & _ & Hc & Hv). pose proof (RNDUP_bound _ Hc) as Rc. pose proof (RNDUP_bound _ Hv) as Rv. pose proof Hc as (_ & Nc & _). pose proof Hv as (_ & Nv & _).
  assert (x_handy (rewound m s) = x_handy s) as Eh by done. pose proof Hn as Hn'. unfold call_size in Hn'. assert (Z.of_nat (verf_at m) = 32 + RNDUP (oa_length (cb_cred (rm_call m)))) as Ev by (unfold verf_at; lia).
  unfold xdr_callmsg, mbind at 1, X_bind at 1. rewrite get_head by (done || lia || congruence). rewrite W0, W4, W8, W12, W16, W20, W24, W28. set (m1 := set_proc _ _).
  destruct (get_auth_ok (set_length (oa_length (cb_cred (rm_call m))) (set_flavor (oa_flavor (cb_cred (rm_call m))) (cb_cred (rm_call m0)))) (adv 32 (rewound m s)) h) as (base & h1 & E1 & Hp1 & T1);
    [apply adv_inv; [done|lia]|done|done|done|cbn [set_length oa_length adv x_handy]; lia|].
  cbn [set_length set_flavor oa_length] in E1, T1. rewrite adv_adv in E1. change (32 + Z.to_nat (RNDUP (oa_length (cb_cred (rm_call m)))))%nat with (verf_at m) in E1. rewrite (xbind _ _ _ _ _ E1). cbn [negb].
  assert (word (adv (verf_at m) (rewound m s)) 0 = word (rewound m s) (verf_at m)) as WV0 by (by rewrite word_adv, Nat.add_0_r).
  destruct (get_verf_ok (cb_verf (rm_call m0)) (adv (verf_at m) (rewound m s)) h1) as (vb & h2 & E2 & T2); [apply adv_inv; [done|lia]|done|done|cbn [adv x_handy]; lia|rewrite word_adv, V4; done|rewrite word_adv, V4; cbn [adv x_handy]; lia|].
  rewrite WV0, word_adv, V0, V4 in E2. rewrite word_adv, V4 in T2. rewrite (xbind _ _ _ _ _ E2), adv_adv. eexists _, h2. split.
  { replace (verf_at m + (8 + _))%nat with (call_size m) by (unfold call_size; lia). reflexivity. }
  unfold call_same, auth_same. cbn. split_and!; try done; unfold auth_bytes at 2; cbn.
  - rewrite T1. cbn [adv x_private x_base]. change (x_private (rewound m s)) with (x_private s). rewrite (read_head m s Hm Hs Hn) by (rewrite (head_length m Hm); lia).
    change (drop 32 (head_wire m)) with (auth_bytes (cb_cred (rm_call m))). by rewrite take_ge by (rewrite (auth_bytes_length _ Hc); lia).
  - rewrite T2. cbn [adv x_private x_base]. change (x_private (rewound m s)) with (x_private s). rewrite (read_verf m s Hm Hs Hn) by (rewrite (wire_length _ Hv); lia).
    change (drop 8 (auth_wire (cb_verf (rm_call m)))) with (auth_bytes (cb_verf (rm_call m))). by rewrite take_ge by (rewrite (auth_bytes_length _ Hv); lia).
Qed.

(** The result of the allocation is not looked at: if it was refused, the
    credentials are copied to a null pointer. *)
Theorem xdr_callmsg_alloc_unchecked (m0 : rpc_msg) (s : mem_stream) (l : list bool) (n : Z) :
  mem_inv s → wraps 32 (word s 4) = CALL → word s 8 = RPC_MSG_VERSION → 0 < word s 28 <= MAX_AUTH_BYTES → 32 + RNDUP (word s 28) <= x_handy s → oa_base (cb_cred (rm_call m0)) = None →
  xdr_callmsg XDR_DECODE m0 (s, Host (false :: l) n) = Fault.
Proof.
  intros Hs Hd Hv Hl Hh Hb. assert (0 <= RNDUP (word s 28)) as Hr by (apply Z.land_nonneg; left; apply (wrapu_bound 32); lia).
  unfold xdr_callmsg, mbind at 1, X_bind at 1. rewrite get_head by (done || lia). unfold get_auth. cbn [set_length set_flavor oa_length oa_base]. rewrite Hb.
  rewrite (proj2 (Z.eqb_neq _ _)), (proj2 (Z.ltb_ge _ _)) by lia. unfold storage. unfold mbind at 1, X_bind at 1.
  assert ((b ← mem_alloc; mret (if b : bool then Some (junk <$> seq 0 (Z.to_nat (word s 28))) else None)) (adv 32 s, Host (false :: l) n) = Val (None, (adv 32 s, Host l n))) as Es by done.
  rewrite (xbind _ _ _ _ _ Es). cbn [set_base oa_length]. rewrite (xbind _ _ _ _ _ (inline_some (RNDUP (word s 28)) (adv 32 s) (Host l n) ltac:(unfold adv; cbn [x_handy]; lia))). done.
Qed.

Lemma member_encode {A} (f : filter A) (T : xdr_type A) get set m next s s1 h :
  XdrLaws f T → xok T (get m) → set (get m) m = m → mem_inv s → emit s (xenc T (get m)) = Some s1 → member f XDR_ENCODE get set m next (s, h) = next m (s1, h).
Proof. intros L Hok Hset Hs E. unfold member. pose proof (law_encode (XdrLaws := L) (get m) s h Hok Hs) as P. rewrite E in P. rewrite (xbind _ _ _ _ _ P). by rewrite Hset. Qed.

(** The part of a call that stays the same: five words, whatever direction
    and version the message had. *)
Theorem xdr_callhdr_encode (m : rpc_msg) (s s' : mem_stream) (h : host) :
  uint32 (rm_xid m) → uint32 (cb_prog (rm_call m)) → uint32 (cb_vers (rm_call m)) → mem_inv s →
  mem_emit s (be32 (rm_xid m) ++ be32 CALL ++ be32 RPC_MSG_VERSION ++ be32 (cb_prog (rm_call m)) ++ be32 (cb_vers (rm_call m))) = Some s' →
  xdr_callhdr XDR_ENCODE m (s, h) = Val (true, set_rpcvers RPC_MSG_VERSION (set_direction CALL m), (s', h)).
Proof.
  intros Hx Hp Hv Hs E. pose proof (emit_app (Stream := mem_laws)) as EA. cbn [emit mem_laws] in EA. unfold xdr_callhdr. rewrite bool_decide_eq_true_2 by done. cbn [negb].
  set (m1 := set_rpcvers _ _). assert (∀ t v t', mem_inv t → mem_emit t (be32 v) = Some t' → mem_inv t') as HI by (intros t v t' Ht; apply mem_emit_inv; [done|apply be32_bytes]).
  rewrite EA in E. destruct (mem_emit s _) as [s1|] eqn:E1; cbn [mbind option_bind] in E; [|done]. pose proof (HI _ _ _ Hs E1) as Hs1.
  rewrite EA in E. destruct (mem_emit s1 _) as [s2|] eqn:E2; cbn [mbind option_bind] in E; [|done]. pose proof (HI _ _ _ Hs1 E2) as Hs2.
  rewrite EA in E. destruct (mem_emit s2 _) as [s3|] eqn:E3; cbn [mbind option_bind] in E; [|done]. pose proof (HI _ _ _ Hs2 E3) as Hs3.
  rewrite EA in E. destruct (mem_emit s3 _) as [s4|] eqn:E4; cbn [mbind option_bind] in E; [|done]. pose proof (HI _ _ _ Hs3 E4) as Hs4.
  rewrite (member_encode xdr_u_long T_u_int _ _ m1 _ s s1 h) by (apply _ || done). rewrite (member_encode xdr_enum T_int _ _ m1 _ s1 s2 h) by (apply _ || done).
  rewrite (member_encode xdr_u_long T_u_int _ _ m1 _ s2 s3 h) by (apply _ || done). rewrite (member_encode xdr_u_long T_u_int _ _ m1 _ s3 s4 h) by (apply _ || done).
  by rewrite (member_encode xdr_u_long T_u_int _ _ m1 _ s4 s' h) by (apply _ || done).
Qed.
End Messages.

Definition no_auth : opaque_auth := OpaqueAuth 0 None 0.
Definition ex_call : rpc_msg := RpcMsg 305419896 CALL (CallBody RPC_MSG_VERSION 100003 4 1 (OpaqueAuth 1 (Some [1; 2; 3; 4; 5; 99]) 5) no_auth).
Definition ex_blank : rpc_msg := RpcMsg 0 0 (CallBody 0 0 0 0 no_auth no_auth).

Lemma xdr_callmsg_roundtrip_witness :
  ∃ s1, xdr_callmsg (λ _, 7) XDR_ENCODE ex_call (xdrmem_create (replicate 60 170) 60, Host [] 0) = Val (true, ex_call, (s1, Host [] 0)) ∧ x_private s1 = 48%nat ∧
    ∃ m' h', xdr_callmsg (λ _, 7) XDR_DECODE ex_blank (MemStream (x_base s1) 0 60, Host [] 0) = Val (true, m', (s1, h')) ∧ call_same ex_call m'.
Proof.
  apply (xdr_callmsg_roundtrip (λ _, 7) ex_call ex_blank (xdrmem_create (replicate 60 170) 60) (Host [] 0)); try reflexivity.
  - unfold call_ok, auth_ok, uint32, int32. cbn. unfold MAX_AUTH_BYTES. split_and!; try lia; try done; repeat constructor; lia.
  - apply create_inv; [apply Forall_replicate; lia|cbn; lia].
  - vm_compute. discriminate.
  - constructor.
Defined.

(** A message of a server, whose credentials and verifier are decoded into
    blocks of its own. *)
Definition ex_server : rpc_msg := RpcMsg 0 0 (CallBody 0 0 0 0 (OpaqueAuth 0 (Some (replicate 400 9)) 0) (OpaqueAuth 0 (Some (replicate 400 9)) 0)).

Lemma xdr_callmsg_decode_equiv_witness :
  ∃ b m' s1 s2 h', xdr_callmsg (λ _, 7) XDR_DECODE ex_server (xdrmem_create (be32 9 ++ be32 0 ++ be32 2 ++ replicate 16 0 ++ be32 3 ++ [1; 2; 3; 0] ++ replicate 7 1) 43, Host [] 0) = Val (b, m', (s1, h')) ∧
    callmsg_members (λ _, 7) XDR_DECODE ex_server (xdrmem_create (be32 9 ++ be32 0 ++ be32 2 ++ replicate 16 0 ++ be32 3 ++ [1; 2; 3; 0] ++ replicate 7 1) 43, Host [] 0) = Val (b, m', (s2, h')) ∧ (b = true → s1 = s2).
Proof.
  apply (xdr_callmsg_decode_equiv (λ _, 7) ex_server); try reflexivity.
  - apply create_inv; [|cbn; lia]. repeat (apply Forall_app_2 || apply be32_bytes || (apply Forall_replicate; lia)); repeat constructor; lia.
  - constructor.
  - cbn. unfold MAX_AUTH_BYTES. lia.
  - cbn. unfold MAX_AUTH_BYTES. lia.
Defined.
End RpcMsg.
