(* ===== verification/Tzset.v ===== *)
(** * Time zones given as rules: [time/tzset.c]

    The value of [TZ] in the POSIX syntax is parsed to two rules, and the
    rules say, year by year, when daylight saving time is in force.  A pointer
    into the value is the rest of the string with its NUL; the strings of
    [__tzstring_len] are kept in a list, and the allocator may refuse any
    request.  Data files are those of [tzfile.c]: whether one was found is an
    argument. *)

From S2P Require Import Prelude Strtol Calendar.
Local Open Scope Z_scope.

Module Tzset.
Import Strtol Calendar.

(** ** Data *)

(** A name: a literal of the source, or the bytes of a string of
    [tzstring_list] from an offset on. *)
Inductive tzname : Type :=
  | Literal (s : list Z)
  | Interned (i off : nat).

Inductive rule_type : Type := J0 | J1 | M.
#[export] Instance rule_type_eq_dec : EqDecision rule_type.
Proof. solve_decision. Defined.

Record tz_rule : Type := TzRule {
  r_name : option tzname;
  r_type : rule_type;
  r_m : Z; r_n : Z; r_d : Z;
  r_secs : Z;
  r_offset : Z;
  r_change : Z;
  r_computed_for : Z;
}.

(** The static variables of the file. *)
Record tz_state : Type := TzState {
  tz_rules : tz_rule * tz_rule;
  tzstring_list : list (list Z);
  answers : list bool;
  daylight : Z;
  timezone : Z;
  tz_names : option tzname * option tzname;
  old_tz : option (list Z);
  is_initialized : bool;
  use_tzfile : bool;
}.

Definition T (A : Type) : Type := tz_state → outcome (A * tz_state).
#[export] Instance T_ret : MRet T := λ A a st, Val (a, st).
#[export] Instance T_bind : MBind T := λ A B f c st,
  match c st with
  | Val (a, st) => f a st
  | Fault => Fault
  | NoFuel => NoFuel
  end.
Definition lift {A : Type} (o : outcome A) : T A := λ st, a ← o; Val (a, st).

Definition set_rules (r : tz_rule * tz_rule) : T unit := λ st,
  Val (tt, TzState r (tzstring_list st) (answers st) (daylight st) (timezone st) (tz_names st) (old_tz st) (is_initialized st) (use_tzfile st)).
Definition set_old_tz (o : option (list Z)) : T unit := λ st,
  Val (tt, TzState (tz_rules st) (tzstring_list st) (answers st) (daylight st) (timezone st) (tz_names st) o (is_initialized st) (use_tzfile st)).
Definition set_use_tzfile (b : bool) : T unit := λ st,
  Val (tt, TzState (tz_rules st) (tzstring_list st) (answers st) (daylight st) (timezone st) (tz_names st) (old_tz st) (is_initialized st) b).
Definition get_rules : T (tz_rule * tz_rule) := λ st, Val (tz_rules st, st).
Definition get_names : T (option tzname * option tzname) := λ st, Val (tz_names st, st).
Definition malloc : T bool := λ st,
  match answers st with
  | b :: l => Val (b, TzState (tz_rules st) (tzstring_list st) l (daylight st) (timezone st) (tz_names st) (old_tz st) (is_initialized st) (use_tzfile st))
  | [] => Val (true, st)
  end.

(** [tz_rules[which]]. *)
Definition rule_of (which : bool) (r : tz_rule * tz_rule) : tz_rule := if which then r.2 else r.1.
Definition on_rule (which : bool) (f : tz_rule → tz_rule) : T unit :=
  r ← get_rules;
  set_rules (if which then (r.1, f r.2) else (f r.1, r.2)).

Definition with_name (x : option tzname) (r : tz_rule) : tz_rule := TzRule x (r_type r) (r_m r) (r_n r) (r_d r) (r_secs r) (r_offset r) (r_change r) (r_computed_for r).
Definition with_type (x : rule_type) (r : tz_rule) : tz_rule := TzRule (r_name r) x (r_m r) (r_n r) (r_d r) (r_secs r) (r_offset r) (r_change r) (r_computed_for r).
Definition with_m (x : Z) (r : tz_rule) : tz_rule := TzRule (r_name r) (r_type r) x (r_n r) (r_d r) (r_secs r) (r_offset r) (r_change r) (r_computed_for r).
Definition with_n (x : Z) (r : tz_rule) : tz_rule := TzRule (r_name r) (r_type r) (r_m r) x (r_d r) (r_secs r) (r_offset r) (r_change r) (r_computed_for r).
Definition with_d (x : Z) (r : tz_rule) : tz_rule := TzRule (r_name r) (r_type r) (r_m r) (r_n r) x (r_secs r) (r_offset r) (r_change r) (r_computed_for r).
Definition with_secs (x : Z) (r : tz_rule) : tz_rule := TzRule (r_name r) (r_type r) (r_m r) (r_n r) (r_d r) x (r_offset r) (r_change r) (r_computed_for r).
Definition with_offset (x : Z) (r : tz_rule) : tz_rule := TzRule (r_name r) (r_type r) (r_m r) (r_n r) (r_d r) (r_secs r) x (r_change r) (r_computed_for r).
Definition with_change (x : Z) (r : tz_rule) : tz_rule := TzRule (r_name r) (r_type r) (r_m r) (r_n r) (r_d r) (r_secs r) (r_offset r) x (r_computed_for r).
Definition with_computed_for (x : Z) (r : tz_rule) : tz_rule := TzRule (r_name r) (r_type r) (r_m r) (r_n r) (r_d r) (r_secs r) (r_offset r) (r_change r) x.

(** ** Names *)

(** The first string that ends in [s]. *)
Fixpoint find_string (s : list Z) (i : nat) (l : list (list Z)) : option (nat * nat) :=
  match l with
  | [] => None
  | t :: l =>
      if (length s <=? length t)%nat && bool_decide (drop (length t - length s) t = s) then Some (i, (length t - length s)%nat)
      else find_string s (S i) l
  end.

Definition add_string (s : list Z) : T (option tzname) := λ st,
  Val (Some (Interned (length (tzstring_list st)) 0),
       TzState (tz_rules st) (tzstring_list st ++ [s]) (answers st) (daylight st) (timezone st) (tz_names st) (old_tz st) (is_initialized st) (use_tzfile st)).

(** [s] is the first [len] characters. *)
Definition __tzstring_len (s : list Z) : T (option tzname) := λ st,
  match find_string s 0 (tzstring_list st) with
  | Some (i, off) => Val (Some (Interned i off), st)
  | None => (b ← malloc; if negb b then mret None else add_string s) st
  end.

Definition update_vars : T unit := λ st,
  let '(r0, r1) := tz_rules st in
  Val (tt, TzState (r0, r1) (tzstring_list st) (answers st) (if r_offset r0 =? r_offset r1 then 0 else 1) (- r_offset r0) (r_name r0, r_name r1)
             (old_tz st) (is_initialized st) (use_tzfile st)).

Definition compute_offset (ss mm hh : Z) : Z :=
  let ss := if 59 <? ss then 59 else ss in
  let mm := if 59 <? mm then 59 else mm in
  let hh := if 24 <? hh then 24 else hh in
  ss + mm * 60 + hh * 60 * 60.

Definition alpha (c : Z) : bool := (97 <=? c) && (c <=? 122) || (65 <=? c) && (c <=? 90).
Definition isdigit (c : Z) : bool := (48 <=? c) && (c <=? 57).
Definition quoted (c : Z) : bool := alpha c || isdigit c || (c =? 43) || (c =? 45).

(** The characters from [p] on while [f] holds, and the rest. *)
Fixpoint span (f : Z → bool) (p : list Z) : outcome (list Z * list Z) :=
  match p with
  | [] => Fault
  | c :: p' => if f c then (λ r, (c :: r.1, r.2)) <$> span f p' else Val ([], p)
  end.

Definition hd (p : list Z) : T Z := lift (deref (head p)).

Definition parse_tzname (tz : list Z) (which : bool) : T (bool * list Z) :=
  '(start, p) ← lift (span alpha tz);
  o ←
    (if (length start <? 3)%nat then
       c ← hd tz;
       if negb (c =? 60) then mret None else
       '(start, p) ← lift (span quoted (tail tz));
       c ← hd p;
       mret (if negb (c =? 62) || (length start <? 3)%nat then None else Some (start, tail p))
     else mret (Some (start, p)));
  match o with
  | None => mret (false, tz)
  | Some (start, p) =>
      name ← __tzstring_len start;
      match name with
      | None => mret (false, tz)
      | Some _ => on_rule which (with_name name) ;; mret (true, p)
      end
  end.

(** ** Numbers: [sscanf] with the conversions [%hu] and [%n] *)

(** [%hu]: the number and what follows it. *)
Definition scan_hu (p : list Z) : outcome (option (Z * list Z)) :=
  k ← skip_space p;
  let p := drop k p in
  c ← deref (head p);
  let signed := (c =? 45) || (c =? 43) in
  '(ds, rest) ← span isdigit (if signed then tail p else p);
  if (length ds =? 0)%nat then Val None else
  num ← strtoul ((if signed then [c] else []) ++ ds ++ [0]) 10;
  Val (Some (wrapu 16 (ret num), rest)).

(** [sep%hu] after a conversion. *)
Definition scan_next (sep : Z) (p : list Z) : outcome (option (Z * list Z)) :=
  c ← deref (head p);
  if c =? sep then scan_hu (tail p) else Val None.

(** ["%hu%n:%hu%n:%hu%n"]: the number of conversions, the three variables,
    and the string after [consumed] characters. *)
Definition scan_time (p : list Z) (hh mm ss : Z) : outcome (Z * (Z * Z * Z) * list Z) :=
  o ← scan_hu p;
  match o with
  | None => Val (0, (hh, mm, ss), p)
  | Some (hh, p) =>
      o ← scan_next 58 p;
      match o with
      | None => Val (1, (hh, mm, ss), p)
      | Some (mm, p) =>
          o ← scan_next 58 p;
          match o with
          | None => Val (2, (hh, mm, ss), p)
          | Some (ss, p) => Val (3, (hh, mm, ss), p)
          end
      end
  end.

Definition parse_offset (tz : list Z) (which : bool) : T (bool * list Z) :=
  c ← hd tz;
  if negb which && ((c =? 0) || (negb (c =? 43) && negb (c =? 45) && negb (isdigit c))) then mret (false, tz) else
  let '(sign, tz) := if (c =? 45) || (c =? 43) then (if c =? 45 then 1 else -1, tail tz) else (-1, tz) in
  '(n, (hh, mm, ss), rest) ← lift (scan_time tz 0 0 0);
  if 0 <? n then
    on_rule which (with_offset (wraps 32 (sign * compute_offset ss mm hh))) ;; mret (true, rest)
  else if negb which then
    on_rule false (with_offset 0) ;; mret (false, tz)
  else
    r ← get_rules;
    on_rule true (with_offset (r_offset r.1 + 60 * 60)) ;; mret (true, rest).

(** ["M%hu.%hu.%hu%n"] from [p] on, which starts with [M]; the members that
    were converted are stored. *)
Definition scan_M (p : list Z) (which : bool) : T (option (list Z)) :=
  o ← lift (scan_hu (tail p));
  match o with
  | None => mret None
  | Some (m, p) =>
      on_rule which (with_m m) ;;
      o ← lift (scan_next 46 p);
      match o with
      | None => mret None
      | Some (n, p) =>
          on_rule which (with_n n) ;;
          o ← lift (scan_next 46 p);
          match o with
          | None => mret None
          | Some (d, p) => on_rule which (with_d d) ;; mret (Some p)
          end
      end
  end.

(** The date of the change; [None] where the function returns false. *)
Definition parse_date (tz : list Z) (which : bool) : T (option (list Z)) :=
  c ← hd tz;
  if (c =? 74) || isdigit c then
    let type := if c =? 74 then J1 else J0 in
    on_rule which (with_type type) ;;
    let tz := if c =? 74 then tail tz else tz in
    c1 ← hd tz;
    if (c =? 74) && negb (isdigit c1) then mret None else
    num ← lift (strtoul tz 10);
    let d := ret num in
    endp ← lift (deref (endptr num));
    if (endp =? 0)%nat || (365 <? d) then mret None else
    if bool_decide (type = J1) && (d =? 0) then mret None else
    on_rule which (with_d d) ;; mret (Some (drop endp tz))
  else if c =? 77 then
    on_rule which (with_type M) ;;
    o ← scan_M tz which;
    rs ← get_rules;
    let r := rule_of which rs in
    match o with
    | None => mret None
    | Some tz =>
        if (r_m r <? 1) || (12 <? r_m r) || (r_n r <? 1) || (5 <? r_n r) || (6 <? r_d r) then mret None else mret (Some tz)
    end
  else if c =? 0 then
    on_rule which (λ r, let r := with_type M r in if which then with_d 0 (with_n 1 (with_m 11 r)) else with_d 0 (with_n 2 (with_m 3 r))) ;;
    mret (Some tz)
  else mret None.

Definition parse_rule (tz0 : list Z) (which : bool) : T (bool * list Z) :=
  c ← hd tz0;
  let tz := if c =? 44 then tail tz0 else tz0 in
  o ← parse_date tz which;
  match o with
  | None => mret (false, tz0)
  | Some tz =>
      c ← hd tz;
      if negb (c =? 0) && negb (c =? 47) && negb (c =? 44) then mret (false, tz0) else
      o ←
        (if c =? 47 then
           let tz := tail tz in
           c ← hd tz;
           if c =? 0 then mret None else
           let negative := c =? 45 in
           let tz := if negative then tail tz else tz in
           '(_, (hh, mm, ss), tz) ← lift (scan_time tz 2 0 0);
           on_rule which (with_secs ((if negative then -1 else 1) * (hh * 60 * 60 + mm * 60 + ss))) ;; mret (Some tz)
         else on_rule which (with_secs (2 * 60 * 60)) ;; mret (Some tz));
      match o with
      | None => mret (false, tz0)
      | Some tz => on_rule which (with_computed_for (-1)) ;; mret (true, tz)
      end
  end.

Definition blank_rule : tz_rule := TzRule None J0 0 0 0 0 0 0 0.

(** [default_file]: is there a file with default rules for the zones? *)
Definition __tzset_parse_tz (default_file : bool) (tz : list Z) : T unit :=
  set_rules (with_name (Some (Literal [])) blank_rule, with_name (Some (Literal [])) blank_rule) ;;
  '(b, tz) ← parse_tzname tz false;
  '(b, tz) ← (if b : bool then parse_offset tz false else mret (false, tz));
  if negb b then update_vars else
  c ← hd tz;
  if c =? 0 then
    r ← get_rules;
    on_rule true (λ r1, with_offset (r_offset r.1) (with_name (r_name r.1) r1)) ;; update_vars
  else
    '(b, tz) ← parse_tzname tz true;
    '(stop, tz) ←
      (if b : bool then
         '(_, tz) ← parse_offset tz true;
         c ← hd tz;
         last ← (if c =? 0 then mret true else if c =? 44 then c1 ← hd (tail tz); mret (c1 =? 0) else mret false);
         if last : bool then
           set_use_tzfile default_file ;;
           (if default_file then set_old_tz None ;; mret (true, tz) else mret (false, tz))
         else mret (false, tz)
       else mret (false, tz));
    if stop : bool then mret tt else
    '(b, tz) ← parse_rule tz false;
    (if b : bool then _ ← parse_rule tz true; mret tt else mret tt) ;;
    update_vars.

(** ** The times of change *)

(** Arithmetic on [int] that overflows is a fault. *)
Definition int (x : Z) : outcome Z := if (INT_MIN <=? x) && (x <=? INT_MAX) then Val x else Fault.

(** January 1st of the year, as a day. *)
Definition january (year : Z) : outcome Z :=
  if 1970 <? year then
    a ← int ((year - 1970) * 365);
    let y1 := year - 1 in
    b ← int (a + (Z.quot y1 4 - Z.quot 1970 4));
    c ← int (b - (Z.quot y1 100 - Z.quot 1970 100));
    int (c + (Z.quot y1 400 - Z.quot 1970 400))
  else Val 0.

(** [myday[i]] where [myday] is [&__mon_yday[leap][m]]: the two rows follow
    each other in one table. *)
Definition mon_yday_at (leap : bool) (m i : Z) : outcome Z :=
  let k := (if leap then 13 else 0) + m + i in
  if k <? 0 then Fault else deref ((mon_yday false ++ mon_yday true) !! Z.to_nat k).

(** [for (i = 1; i < rule->n; ++i)], [k] rounds at most; [upto] is the read of
    [myday[0]], [before] is [myday[-1]]. *)
Fixpoint week_loop (k : nat) (upto : outcome Z) (before d : Z) : outcome Z :=
  match k with
  | O => Val d
  | S k =>
      u ← upto;
      if u - before <=? d + 7 then Val d else week_loop k upto before (d + 7)
  end.

(** The day of the week of the first day of the month. *)
Definition zeller (year m : Z) : outcome Z :=
  let m1 := Z.rem (m + 9) 12 + 1 in
  yy0 ← (if m <=? 2 then int (year - 1) else Val year);
  let yy1 := Z.quot yy0 100 in
  let yy2 := Z.rem yy0 100 in
  let dow := Z.rem (Z.quot (26 * m1 - 2) 10 + 1 + yy2 + Z.quot yy2 4 + Z.quot yy1 4 - 2 * yy1) 7 in
  Val (if dow <? 0 then dow + 7 else dow).

Definition SECSPERDAY : Z := 86400.

Definition compute_change (rule : tz_rule) (year : Z) : outcome tz_rule :=
  if negb (year =? -1) && (r_computed_for rule =? year) then Val rule else
  days ← january year;
  let t := days * SECSPERDAY in
  t ←
    (match r_type rule with
     | J1 =>
         let t := t + (r_d rule - 1) * SECSPERDAY in
         Val (if (60 <=? r_d rule) && isleap year then t + SECSPERDAY else t)
     | J0 => Val (t + r_d rule * SECSPERDAY)
     | M =>
         let myday := mon_yday_at (isleap year) (r_m rule) in
         before ← myday (-1);
         let t := t + before * SECSPERDAY in
         dow ← zeller year (r_m rule);
         let d := r_d rule - dow in
         let d := if d <? 0 then d + 7 else d in
         d ← week_loop (Z.to_nat (r_n rule - 1)) (myday 0) before d;
         Val (t + d * SECSPERDAY)
     end);
  Val (with_computed_for year (with_change (t - r_offset rule + r_secs rule) rule)).

(** [__tz_compute]: is daylight saving time in force?  Only the members
    [tm_year], [tm_isdst], [tm_zone] and [tm_gmtoff] matter; the last three
    are returned. *)
Definition __tz_compute (timer year : Z) : T (Z * option tzname * Z) :=
  y ← lift (int (1900 + year));
  r ← get_rules;
  r0 ← lift (compute_change r.1 y);
  r1 ← lift (compute_change r.2 y);
  set_rules (r0, r1) ;;
  let isdst :=
    if r_change r1 <? r_change r0 then (timer <? r_change r1) || (r_change r0 <=? timer)
    else (r_change r0 <=? timer) && (timer <? r_change r1) in
  names ← get_names;
  mret (if isdst then 1 else 0, (if isdst then names.2 else names.1), r_offset (if isdst then r1 else r0)).

(** The part of [__tz_convert] after the call of [tzset_internal], for local
    time and when no file is in use: the broken down time, the zone and the
    offset, or [errno]. *)
Definition tz_convert_local (timer : Z) : T (tm * option tzname * Z + Z) :=
  r ← lift (offtime timer 0 0);
  match r with
  | inr e => mret (inr e)
  | inl tp =>
      '(isdst, zone, gmtoff) ← __tz_compute timer (tm_year tp);
      let leap_correction := 0 in
      r ← lift (offtime timer (gmtoff - leap_correction) isdst);
      match r with
      | inr e => mret (inr e)
      | inl tp => mret (inl (tp, zone, gmtoff))
      end
  end.

(** ** The environment *)

Definition TZDEFAULT : list Z := $"/etc/localtime" ++ [0].

(** The string up to the NUL. *)
Fixpoint cstr (p : list Z) : outcome (list Z) :=
  match p with
  | [] => Fault
  | c :: p => if c =? 0 then Val [] else (c ::.) <$> cstr p
  end.

Definition same_string (p q : list Z) : outcome bool :=
  a ← cstr p; b ← cstr q; Val (bool_decide (a = b)).

(** [env] is [getenv ("TZ")]; [file] says whether there is a data file of
    that name. *)
Definition tzset_internal (file : list Z → bool) (default_file : bool) (always : bool) (env : option (list Z)) : T unit := λ st,
  if is_initialized st && negb always then Val (tt, st) else
  let st := TzState (tz_rules st) (tzstring_list st) (answers st) (daylight st) (timezone st) (tz_names st) (old_tz st) true (use_tzfile st) in
  (tz ←
     (match env with
      | None => mret None
      | Some p =>
          c ← hd p;
          let p := if c =? 0 then $"Universal" ++ [0] else p in
          c ← hd p;
          mret (Some (if c =? 58 then tail p else p))
      end);
   same ←
     (match old_tz st, tz with
      | Some o, Some p => lift (same_string p o)
      | _, _ => mret false
      end);
   if same : bool then mret tt else
   let tz := default TZDEFAULT tz in
   r ← get_rules;
   set_rules (with_name None r.1, with_name None r.2) ;;
   s ← lift (cstr tz);
   b ← malloc;
   set_old_tz (if b : bool then Some (s ++ [0]) else None) ;;
   set_use_tzfile (file s) ;;
   if file s then mret tt else
   dflt ← lift (same_string tz TZDEFAULT);
   if bool_decide (s = []) || dflt then
     let utc := with_change (-1) (with_name (Some (Literal $"UTC")) blank_rule) in
     set_rules (utc, utc) ;; update_vars
   else __tzset_parse_tz default_file tz) st.

Definition set_tzname : T unit := λ st,
  if use_tzfile st then Val (tt, st)
  else Val (tt, TzState (tz_rules st) (tzstring_list st) (answers st) (daylight st) (timezone st) (r_name (tz_rules st).1, r_name (tz_rules st).2)
                  (old_tz st) (is_initialized st) (use_tzfile st)).

Definition __tzset (file : list Z → bool) (default_file : bool) (env : option (list Z)) : T unit :=
  tzset_internal file default_file true env ;; set_tzname.

(** With the data file or by the rules. *)
Definition tz_convert_either (tzfile_convert : Z → T (tm * option tzname * Z + Z)) (timer : Z) : T (tm * option tzname * Z + Z) := λ st,
  (if use_tzfile st then tzfile_convert timer else tz_convert_local timer) st.

(** [__tz_convert] for local time: [own] says that the result goes to the
    static buffer, as in [localtime]; what [__tzfile_compute] and the second
    [__offtime] make of a data file is an argument. *)
Definition __tz_convert (tzfile_convert : Z → T (tm * option tzname * Z + Z)) (file : list Z → bool) (default_file own : bool) (env : option (list Z)) (timer : Z)
    : T (tm * option tzname * Z + Z) :=
  tzset_internal file default_file own env ;;
  tz_convert_either tzfile_convert timer.
End Tzset.
