(* ===== verification/TzChange.v ===== *)
(** * When the time changes

    What a rule says of a year, in terms of the calendar, and that
    [compute_change] computes it; the local time of any second. *)

From S2P Require Import Prelude Calendar Tzset.
Local Open Scope Z_scope.

Module TzChange.
Import Calendar Tzset.

(** ** What a rule says *)

(** Day 0, the first of 1970, was a Thursday. *)
Definition weekday (day : Z) : Z := (day + 4) mod 7.

(** The days of the year before the month that is [k] months after
    January. *)
Definition ystart (leap : bool) (k : Z) : Z := default 0 (mon_yday leap !! Z.to_nat k).

(** [J1]: a month and day that do not depend on the year; [J0]: a day of the
    year; [M]: the [n]th time in the month that it is the day [d] of the
    week, or the last. *)
Definition rule_day (r : tz_rule) (y day : Z) : Prop :=
  let leap := isleap y in
  match r_type r with
  | J0 => day = days_before y + r_d r
  | J1 => ∃ mon mday, 0 <= mon < 12 ∧ 1 <= mday <= ystart false (mon + 1) - ystart false mon ∧ ystart false mon + mday = r_d r ∧
            day = days_before y + ystart leap mon + mday - 1
  | M => ∃ mday, 1 <= mday <= ystart leap (r_m r) - ystart leap (r_m r - 1) ∧ day = days_before y + ystart leap (r_m r - 1) + mday - 1 ∧ weekday day = r_d r ∧
           (7 * (r_n r - 1) < mday <= 7 * r_n r ∨ mday <= 7 * (r_n r - 1) ∧ ystart leap (r_m r) - ystart leap (r_m r - 1) < mday + 7)
  end.

(** What the parser accepts. *)
Definition rule_ok (r : tz_rule) : Prop :=
  match r_type r with
  | J0 => 0 <= r_d r <= 365
  | J1 => 1 <= r_d r <= 365
  | M => 1 <= r_m r <= 12 ∧ 1 <= r_n r <= 5 ∧ 0 <= r_d r <= 6
  end.

(** The second of the change in the year. *)
Definition is_change (r : tz_rule) (y t : Z) : Prop := ∃ day, rule_day r y day ∧ t = day * 86400 - r_offset r + r_secs r.

(** The last year whose days can be counted in an [int] the way it is
    done. *)
Definition YEAR_MAX : Z := 5881459.

Lemma january_spec y : 1970 <= y <= YEAR_MAX → january y = Val (days_before y).
Proof.
  intros Hy. unfold YEAR_MAX in Hy. unfold january. destruct (Z.ltb_spec 1970 y).
  - assert (∀ b, 0 < b → Z.quot (y - 1) b = (y - 1) / b) as E by (intros b Hb; apply Z.quot_div_nonneg; lia). rewrite !E by lia.
    change (Z.quot 1970 4) with 492. change (Z.quot 1970 100) with 19. change (Z.quot 1970 400) with 4. unfold int, INT_MIN, INT_MAX, days_before, leaps. change (1969 / 4 - 1969 / 100 + 1969 / 400) with 477.
    rewrite (proj2 (andb_true_iff _ _)) by (split; lia). cbn [mbind outcome_bind]. rewrite (proj2 (andb_true_iff _ _)) by (split; euclid). cbn [mbind outcome_bind].
    rewrite (proj2 (andb_true_iff _ _)) by (split; euclid). cbn [mbind outcome_bind]. rewrite (proj2 (andb_true_iff _ _)) by (split; euclid). f_equal. lia.
  - assert (y = 1970) as -> by lia. done.
Qed.

(** After it the sum overflows. *)
Lemma january_overflow y : YEAR_MAX < y <= INT_MAX → january y = Fault.
Proof.
  intros Hy. unfold YEAR_MAX, INT_MAX in Hy. unfold january. rewrite (proj2 (Z.ltb_lt _ _)) by lia. unfold int, INT_MIN, INT_MAX.
  destruct ((-2147483648 <=? (y - 1970) * 365) && ((y - 1970) * 365 <=? 2147483647)) eqn:E; [|done]. cbn [mbind outcome_bind].
  rewrite Z.quot_div_nonneg by lia. change (Z.quot 1970 4) with 492. apply andb_true_iff in E as [_ E%Z.leb_le].
  rewrite (proj2 (andb_false_iff _ _)); [done|]. right. apply Z.leb_gt. euclid.
Qed.

Lemma months m : 1 <= m <= 12 → m = 1 ∨ m = 2 ∨ m = 3 ∨ m = 4 ∨ m = 5 ∨ m = 6 ∨ m = 7 ∨ m = 8 ∨ m = 9 ∨ m = 10 ∨ m = 11 ∨ m = 12.
Proof. lia. Qed.

(** The years by centuries. *)
Lemma leaps_century a b : 0 <= b < 100 → leaps (100 * a + b) = 24 * a + b / 4 + a / 4.
Proof. intros Hb. unfold leaps. euclid. Qed.

Lemma congruence_spec k c a b : 0 <= a → 0 <= b < 100 → (k - c) mod 7 = 0 →
  (let dow := Z.rem (k + b + Z.quot b 4 + Z.quot a 4 - 2 * a) 7 in if dow <? 0 then dow + 7 else dow) = (365 * (100 * a + b) + leaps (100 * a + b) + c) mod 7.
Proof. intros Ha Hb Hc. rewrite leaps_century by done. rewrite !Z.quot_div_nonneg by lia. cbv zeta. zcase; euclid. Qed.

Ltac ystart_const := repeat match goal with |- context [ystart ?l ?k] => let v := eval vm_compute in (ystart l k) in change (ystart l k) with v end.

(** Days from an arbitrary one to the first of the month [m]: whole years,
    leap days, and a number that depends on the month. *)
Definition month_const (m : Z) : Z := if m <=? 2 then 365 + ystart false (m - 1) else ystart false (m - 1).

Lemma month_first y m : 1 <= m <= 12 →
  let y0 := if m <=? 2 then y - 1 else y in
  days_before y + ystart (isleap y) (m - 1) = 365 * y0 + leaps y0 + (month_const m - 365 * 1970 - 477).
Proof.
  intros Hm. unfold days_before, month_const. change (leaps 1969) with 477. pose proof (leaps_succ y) as Es.
  destruct (months m Hm) as [->|[->|[->|[->|[->|[->|[->|[->|[->|[->|[->| ->]]]]]]]]]]]; cbn [Z.leb Z.compare Pos.compare Pos.compare_cont]; destruct (isleap y); ystart_const; lia.
Qed.

(** Zeller's congruence is the calendar's day of the week. *)
Lemma zeller_spec y m : 1 <= m <= 12 → 1970 <= y <= INT_MAX → zeller y m = Val (weekday (days_before y + ystart (isleap y) (m - 1))).
Proof.
  intros Hm Hy. unfold INT_MAX in Hy. unfold zeller, weekday. rewrite (month_first y m Hm). set (y0 := if m <=? 2 then y - 1 else y).
  assert ((if m <=? 2 then int (y - 1) else Val y) = Val y0) as ->.
  { unfold y0, int, INT_MIN, INT_MAX. destruct (m <=? 2); [|done]. by rewrite (proj2 (andb_true_iff _ _)) by (split; lia). }
  cbn [mbind outcome_bind]. assert (1969 <= y0) as Hy0 by (unfold y0; destruct (m <=? 2); lia).
  rewrite (Z.quot_div_nonneg y0 100), (Z.rem_mod_nonneg y0 100) by lia. set (k := Z.quot (26 * (Z.rem (m + 9) 12 + 1) - 2) 10 + 1).
  assert ((k - (month_const m - 365 * 1970 - 477 + 4)) mod 7 = 0) as Hk by (unfold k; destruct (months m Hm) as [->|[->|[->|[->|[->|[->|[->|[->|[->|[->|[->| ->]]]]]]]]]]]; vm_compute; done).
  pose proof (congruence_spec k _ (y0 / 100) (y0 mod 100) ltac:(apply Z.div_pos; lia) ltac:(apply Z.mod_pos_bound; lia) Hk) as C. cbv zeta in C |- *. rewrite C, <- Z.div_mod, Z.add_assoc by lia. done.
Qed.

Lemma week_loop_spec k a b d : 0 <= d → d < b - a →
  ∃ r, week_loop k (Val b) a d = Val r ∧ 0 <= r < b - a ∧ (r - d) mod 7 = 0 ∧ (r = d + 7 * Z.of_nat k ∨ r < d + 7 * Z.of_nat k ∧ b - a <= r + 7).
Proof.
  revert d. induction k as [|k IH]; intros d H0 Hd; cbn [week_loop mbind outcome_bind].
  - exists d. split; [done|]. split; [lia|]. split; [by rewrite Z.sub_diag|lia].
  - destruct (Z.leb_spec (b - a) (d + 7)); [exists d; split; [done|]; split; [lia|]; split; [by rewrite Z.sub_diag|lia]|].
    destruct (IH (d + 7) ltac:(lia) ltac:(lia)) as (r & E & H1 & H2 & H3). exists r. split; [done|]. split; [lia|]. split; [euclid|lia].
Qed.

Lemma month_length leap m : 1 <= m <= 12 → ∃ a b, mon_yday_at leap m (-1) = Val a ∧ mon_yday_at leap m 0 = Val b ∧ ystart leap (m - 1) = a ∧ ystart leap m = b ∧ 28 <= b - a <= 31.
Proof.
  intros Hm. unfold ystart. destruct (months m Hm) as [->|[->|[->|[->|[->|[->|[->|[->|[->|[->|[->| ->]]]]]]]]]]]; destruct leap; eexists _, _; split_and!; (reflexivity || by vm_compute).
Qed.

(** A day of a year without a leap day. *)
Lemma julian_date d : 1 <= d <= 365 → ∃ mon mday, 0 <= mon < 12 ∧ 1 <= mday <= ystart false (mon + 1) - ystart false mon ∧ ystart false mon + mday = d ∧
  ∀ leap, ystart leap mon + mday - 1 = d - 1 + (if (60 <=? d) && leap then 1 else 0).
Proof.
  intros Hd. assert (∃ mon, 0 <= mon < 12 ∧ ystart false mon < d <= ystart false (mon + 1)) as (mon & Hm & Hin).
  { destruct (Z.le_gt_cases d 31); [exists 0; ystart_const; lia|]. destruct (Z.le_gt_cases d 59); [exists 1; ystart_const; lia|]. destruct (Z.le_gt_cases d 90); [exists 2; ystart_const; lia|].
    destruct (Z.le_gt_cases d 120); [exists 3; ystart_const; lia|]. destruct (Z.le_gt_cases d 151); [exists 4; ystart_const; lia|]. destruct (Z.le_gt_cases d 181); [exists 5; ystart_const; lia|].
    destruct (Z.le_gt_cases d 212); [exists 6; ystart_const; lia|]. destruct (Z.le_gt_cases d 243); [exists 7; ystart_const; lia|]. destruct (Z.le_gt_cases d 273); [exists 8; ystart_const; lia|].
    destruct (Z.le_gt_cases d 304); [exists 9; ystart_const; lia|]. destruct (Z.le_gt_cases d 334); [exists 10; ystart_const; lia|]. exists 11; ystart_const; lia. }
  exists mon, (d - ystart false mon). split_and!; try lia. intros leap.
  assert (ystart leap mon - ystart false mon = if (1 <? mon) && leap then 1 else 0) as E by (destruct (months (mon + 1) ltac:(lia)) as [Em|[Em|[Em|[Em|[Em|[Em|[Em|[Em|[Em|[Em|[Em|Em]]]]]]]]]]];
    (replace mon with (mon + 1 - 1) by lia); rewrite Em; destruct leap; reflexivity).
  assert ((60 <=? d) = (1 <? mon)) as ->; [|lia]. destruct (Z.ltb_spec 1 mon) as [Hlt|Hle]; [apply Z.leb_le|apply Z.leb_gt].
  - assert (59 <= ystart false mon); [|lia]. destruct (months (mon + 1) ltac:(lia)) as [Em|[Em|[Em|[Em|[Em|[Em|[Em|[Em|[Em|[Em|[Em|Em]]]]]]]]]]]; (replace mon with (mon + 1 - 1) by lia); try lia; rewrite Em; vm_compute; done.
  - assert (mon = 0 ∨ mon = 1) as [-> | ->] by lia; revert Hin; ystart_const; lia.
Qed.

(** ** [compute_change] *)

Lemma month_day r y : r_type r = M → rule_ok r → 1970 <= y <= INT_MAX →
  ∃ before dow w, mon_yday_at (isleap y) (r_m r) (-1) = Val before ∧ zeller y (r_m r) = Val dow ∧
    (let d := r_d r - dow in
     week_loop (Z.to_nat (r_n r - 1)) (mon_yday_at (isleap y) (r_m r) 0) before (if d <? 0 then d + 7 else d) = Val w) ∧
    rule_day r y (days_before y + before + w).
Proof.
  intros Ht Hr Hy. unfold rule_ok in Hr. rewrite Ht in Hr. destruct Hr as (Hm & Hn & Hd). destruct (month_length (isleap y) (r_m r) Hm) as (a & b & Ea & Eb & Ya & Yb & Hl).
  pose proof (zeller_spec y (r_m r) Hm Hy) as Ez. rewrite Ya in Ez. set (dow := weekday (days_before y + a)) in *.
  assert (0 <= dow < 7) as Hdow by (apply Z.mod_pos_bound; lia). set (d := if r_d r - dow <? 0 then r_d r - dow + 7 else r_d r - dow).
  assert (0 <= d < 7 ∧ (d + dow - r_d r) mod 7 = 0) as [Hd0 Hd7] by (unfold d; destruct (Z.ltb_spec (r_d r - dow) 0); split; try lia; [by replace (r_d r - dow + 7 + dow - r_d r) with 7 by lia|by replace (r_d r - dow + dow - r_d r) with 0 by lia]).
  destruct (week_loop_spec (Z.to_nat (r_n r - 1)) a b d ltac:(lia) ltac:(lia)) as (w & Ew & W1 & W2 & W3). exists a, dow, w. split_and!; [done|done|cbv zeta; by rewrite Eb|]. clearbody d.
  unfold rule_day. rewrite Ht, Ya, Yb. exists (w + 1). split; [lia|]. split; [lia|]. split; [|lia]. unfold dow, weekday in *. clear W3 W1 Hl Ea Eb Ya Yb. euclid.
Qed.

Lemma compute_change_spec r y : rule_ok r → 1970 <= y <= YEAR_MAX → (r_computed_for r = y → is_change r y (r_change r)) →
  ∃ t, compute_change r y = Val (with_computed_for y (with_change t r)) ∧ is_change r y t.
Proof.
  intros Hr Hy Hc. unfold compute_change. rewrite (proj2 (Z.eqb_neq y (-1))) by lia. cbn [negb andb]. destruct (Z.eqb_spec (r_computed_for r) y) as [Ey|Ey].
  { exists (r_change r). split; [destruct r; cbn in Ey; by subst|by apply Hc]. }
  rewrite january_spec by done. cbn [mbind outcome_bind]. unfold SECSPERDAY. destruct (r_type r) eqn:Et.
  - eexists. split; [done|]. exists (days_before y + r_d r). unfold rule_day. rewrite Et. split; [done|lia].
  - cbn [mbind outcome_bind]. eexists. split; [done|]. unfold rule_ok in Hr. rewrite Et in Hr. destruct (julian_date (r_d r) Hr) as (mon & mday & Hm & Hd & Es & El). specialize (El (isleap y)).
    exists (days_before y + ystart (isleap y) mon + mday - 1). unfold rule_day. rewrite Et. split; [by exists mon, mday|]. destruct ((60 <=? r_d r) && isleap y); lia.
  - assert (1970 <= y <= INT_MAX) as Hy' by (unfold YEAR_MAX, INT_MAX in *; lia). destruct (month_day r y Et Hr Hy') as (a & dow & w & Ea & Ez & Ew & Hday). cbv zeta in Ew.
    cbv zeta. rewrite Ea. cbn [mbind outcome_bind]. rewrite Ez. cbn [mbind outcome_bind]. rewrite Ew. cbn [mbind outcome_bind]. eexists. split; [done|].
    eexists. split; [exact Hday|]. lia.
Qed.

(** ** Local time *)

(** Daylight saving time, between the two changes of the year or outside of
    them. *)
Definition dst_at (t0 t1 timer : Z) : Prop := if t1 <? t0 then ~ (t1 <= timer < t0) else t0 <= timer < t1.

Lemma dst_test t0 t1 timer :
  (if t1 <? t0 then (timer <? t1) || (t0 <=? timer) else (t0 <=? timer) && (timer <? t1)) = true ↔ dst_at t0 t1 timer.
Proof. unfold dst_at. destruct (t1 <? t0); rewrite ?orb_true_iff, ?andb_true_iff; lia. Qed.

(** A rule whose time of change, if there is one, is right. *)
Definition rule_wf (r : tz_rule) : Prop :=
  rule_ok r ∧ (∀ y, 1970 <= y → r_computed_for r = y → is_change r y (r_change r)) ∧ - 604800 <= r_offset r <= 604800.

Lemma year_days y : year_len y <= 366 ∧ days_before (y + 1) = days_before y + year_len y.
Proof.
  unfold year_len. split; [destruct (isleap y); lia|]. pose proof (leaps_succ y) as E. unfold days_before. replace (y + 1 - 1) with y by lia. destruct (isleap y); lia.
Qed.

Lemma days_before_le y y' : y <= y' → days_before y <= days_before y'.
Proof. intros H. destruct (Z.eq_dec y y') as [->|Hne]; [lia|]. pose proof (days_before_lt y y' ltac:(lia)) as Hlt. assert (365 <= year_len y) by (unfold year_len; destruct (isleap y); lia). lia. Qed.

(** The year of a day. *)
Lemma year_between lo hi y d : days_before lo <= days_before y + d < days_before hi → in_year y d = true → lo <= y < hi.
Proof.
  intros Hd Hin. unfold in_year in Hin. apply andb_true_iff in Hin as [Hin1 Hin2]. split.
  - apply Z.le_ngt. intros Hlt. pose proof (days_before_lt y lo Hlt). lia.
  - apply Z.lt_nge. intros Hle. pose proof (days_before_le hi y Hle). lia.
Qed.

Lemma is_change_same r t y : (∀ y' t', is_change (with_computed_for y (with_change t r)) y' t' ↔ is_change r y' t').
Proof. done. Qed.

Lemma rule_wf_computed r y t : rule_wf r → is_change r y t → rule_wf (with_computed_for y (with_change t r)).
Proof. intros (H1 & H2 & H3) Ht. split; [done|]. split; [|done]. intros y' _ Hy'. cbn in Hy'. subst y'. exact Ht. Qed.

Lemma tbind {A B} (c : T A) (f : A → T B) st a st' : c st = Val (a, st') → (c ≫= f) st = f a st'.
Proof. intros E. unfold mbind, T_bind. by rewrite E. Qed.

Lemma lift_val {A} (o : outcome A) a st : o = Val a → lift o st = Val (a, st).
Proof. by intros ->. Qed.

Lemma compute_steps timer y st r0 r1 : INT_MIN <= y <= INT_MAX → compute_change (tz_rules st).1 y = Val r0 → compute_change (tz_rules st).2 y = Val r1 →
  let dst := if r_change r1 <? r_change r0 then (timer <? r_change r1) || (r_change r0 <=? timer) else (r_change r0 <=? timer) && (timer <? r_change r1) in
  __tz_compute timer (y - 1900) st =
    Val (if dst then 1 else 0, (if dst then (tz_names st).2 else (tz_names st).1), r_offset (if dst then r1 else r0),
         TzState (r0, r1) (tzstring_list st) (answers st) (daylight st) (timezone st) (tz_names st) (old_tz st) (is_initialized st) (use_tzfile st)).
Proof.
  intros Hy C0 C1 dst. unfold __tz_compute. replace (1900 + (y - 1900)) with y by lia. assert (int y = Val y) as Ei by (unfold int; by rewrite (proj2 (andb_true_iff _ _)) by (split; lia)).
  rewrite (tbind _ _ _ _ _ (lift_val _ _ st Ei)). rewrite (tbind _ _ _ _ _ (eq_refl : get_rules st = Val (tz_rules st, st))).
  rewrite (tbind _ _ _ _ _ (lift_val _ _ st C0)), (tbind _ _ _ _ _ (lift_val _ _ st C1)). done.
Qed.

Lemma convert_steps timer st st1 tp tp2 isdst zone off :
  offtime timer 0 0 = Val (inl tp) → __tz_compute timer (tm_year tp) st = Val (isdst, zone, off, st1) → offtime timer off isdst = Val (inl tp2) →
  tz_convert_local timer st = Val (inl (tp2, zone, off), st1).
Proof.
  intros E1 E2 E3. unfold tz_convert_local. rewrite (tbind _ _ _ _ _ (lift_val _ _ st E1)). cbv beta iota. rewrite (tbind _ _ _ _ _ E2). cbv beta iota zeta. rewrite Z.sub_0_r.
  by rewrite (tbind _ _ _ _ _ (lift_val _ _ st1 E3)).
Qed.

Lemma days_known : days_before (YEAR_MAX + 1) = 2147439626 ∧ days_before 1970 = 0 ∧ days_before 1950 = -7305 ∧ days_before 6000000 = 2190735472.
Proof. split_and!; reflexivity. Qed.

(** C19. For every second from 1970 to the last day that an int can count and
    any two rules of the three kinds, local time is the broken down time of the
    second plus the offset of the zone in force, which is daylight saving time
    exactly between the two changes of the year, or outside of them where they
    are the other way round. The changes are on the days the rules name by the
    calendar: the month and day of a Julian day whether or not the year is a
    leap year, the day of the year, and the nth or last day of the week of the
    month. What is kept for the next call is right as well. *)
Theorem local_time_correct (timer : Z) (st : tz_state) :
  0 <= timer < days_before (YEAR_MAX + 1) * 86400 → rule_wf (tz_rules st).1 → rule_wf (tz_rules st).2 →
  ∃ y t0 t1 tp zone off st', days_before y * 86400 <= timer < days_before (y + 1) * 86400 ∧
    is_change (tz_rules st).1 y t0 ∧ is_change (tz_rules st).2 y t1 ∧
    tz_convert_local timer st = Val (inl (tp, zone, off), st') ∧ broken_down (timer + off) tp ∧
    (dst_at t0 t1 timer ∧ tm_isdst tp = 1 ∧ zone = (tz_names st).2 ∧ off = r_offset (tz_rules st).2 ∨
     ~ dst_at t0 t1 timer ∧ tm_isdst tp = 0 ∧ zone = (tz_names st).1 ∧ off = r_offset (tz_rules st).1) ∧
    rule_wf (tz_rules st').1 ∧ rule_wf (tz_rules st').2.
Proof.
  intros Ht W0 W1. destruct days_known as (EM & E1970 & E1950 & E6). rewrite EM in Ht.
  destruct (offtime_spec timer 0 0) as (y & d & Ed & Hin & Hoff); [unfold LONG_MIN, LONG_MAX; lia|lia|]. rewrite Z.add_0_r in *.
  assert (1970 <= y < YEAR_MAX + 1) as Hy by (apply (year_between _ _ y d); [rewrite Ed, EM, E1970; euclid|done]).
  rewrite bool_decide_eq_true_2 in Hoff by (unfold int_ok, INT_MIN, INT_MAX, YEAR_MAX in *; lia). destruct Hoff as (tp & Eo & _ & _ & Ey).
  destruct (compute_change_spec (tz_rules st).1 y) as (t0 & C0 & I0); [apply W0|lia|apply W0; lia|]. destruct (compute_change_spec (tz_rules st).2 y) as (t1 & C1 & I1); [apply W1|lia|apply W1; lia|].
  pose proof (compute_steps timer y st _ _ ltac:(unfold INT_MIN, INT_MAX, YEAR_MAX in *; lia) C0 C1) as Ec. rewrite <- Ey in Ec. cbn [r_change r_offset with_computed_for with_change] in Ec.
  set (r0 := with_computed_for y (with_change t0 (tz_rules st).1)) in *. set (r1 := with_computed_for y (with_change t1 (tz_rules st).2)) in *.
  set (st1 := TzState (r0, r1) _ _ _ _ _ _ _ _) in Ec. pose proof (dst_test t0 t1 timer) as Hdt. cbv zeta in Ec. set (dst := if t1 <? t0 then _ else _) in *.
  set (off := r_offset (if dst then r1 else r0)) in *. assert (- 604800 <= off <= 604800) as Ho by (unfold off; destruct dst; [apply W1|apply W0]).
  destruct (offtime_spec timer off (if dst then 1 else 0)) as (y2 & d2 & Ed2 & Hin2 & Hoff2); [unfold LONG_MIN, LONG_MAX; lia|lia|].
  assert (1950 <= y2 < 6000000) as Hy2 by (apply (year_between _ _ y2 d2); [rewrite Ed2, E1950, E6; euclid|done]).
  rewrite bool_decide_eq_true_2 in Hoff2 by (unfold int_ok, INT_MIN, INT_MAX; lia). destruct Hoff2 as (tp2 & Eo2 & Hbd & Hdst & _).
  exists y, t0, t1, tp2, (if dst then (tz_names st).2 else (tz_names st).1), off, st1. destruct (year_days y) as [_ Eyd]. unfold in_year in Hin. apply andb_true_iff in Hin as [Hin1 Hin3].
  split; [rewrite Eyd; split; euclid|]. split; [exact I0|]. split; [exact I1|]. split; [exact (convert_steps _ _ _ _ _ _ _ _ Eo Ec Eo2)|]. split; [exact Hbd|].
  split; [rewrite Hdst, <- Hdt; unfold off; destruct dst; [left|right]; done|]. split; by apply rule_wf_computed.
Qed.

(** Years that cannot be counted in an [int]. *)
Theorem local_time_overflow (timer : Z) (st : tz_state) :
  days_before (YEAR_MAX + 1) * 86400 <= timer <= LONG_MAX → r_computed_for (tz_rules st).1 <= YEAR_MAX →
  tz_convert_local timer st = Fault ∨ ∃ e, tz_convert_local timer st = Val (inr e, st).
Proof.
  intros Ht Hc. destruct days_known as (EM & _). rewrite EM in Ht. destruct (offtime_spec timer 0 0) as (y & d & Ed & Hin & Hoff); [unfold LONG_MIN, LONG_MAX in *; lia|lia|]. rewrite Z.add_0_r in *.
  assert (YEAR_MAX < y) as Hy.
  { apply Z.lt_nge. intros Hle. pose proof (days_before_le y YEAR_MAX Hle) as Hb. destruct (year_days y) as [_ Ey1]. pose proof (days_before_le (y + 1) (YEAR_MAX + 1) ltac:(lia)) as Hb1. unfold in_year in Hin. apply andb_true_iff in Hin as [_ Hin%Z.ltb_lt].
    rewrite Ey1, EM in Hb1. euclid. }
  unfold tz_convert_local. case_bool_decide as Hok; [|right; exists EOVERFLOW; by rewrite (tbind _ _ _ _ _ (lift_val _ _ st Hoff))]. destruct Hoff as (tp & Eo & _ & _ & Ey). left.
  rewrite (tbind _ _ _ _ _ (lift_val _ _ st Eo)). unfold mbind at 1, T_bind at 1. enough (__tz_compute timer (tm_year tp) st = Fault) as -> by done. unfold __tz_compute. rewrite Ey. replace (1900 + (y - 1900)) with y by lia.
  unfold int at 1. destruct ((INT_MIN <=? y) && (y <=? INT_MAX)) eqn:Ei; [|done]. apply andb_true_iff in Ei as [_ Ei%Z.leb_le].
  rewrite (tbind _ _ _ _ _ (lift_val _ _ st (eq_refl : Val y = Val y))). rewrite (tbind _ _ _ _ _ (eq_refl : get_rules st = Val (tz_rules st, st))). unfold mbind at 1, T_bind at 1, lift at 1, compute_change.
  rewrite (proj2 (Z.eqb_neq (r_computed_for _) y)), andb_false_r by (unfold YEAR_MAX in *; lia). rewrite january_overflow by lia. done.
Qed.

(** Before 1970 the changes are counted from the first day of 1970. *)
Theorem january_before_epoch (y : Z) : y <= 1970 → january y = Val 0.
Proof. intros Hy. unfold january. by rewrite (proj2 (Z.ltb_ge _ _)) by lia. Qed.

(** Central European time. *)
Definition ex_std : tz_rule := TzRule (Some (Literal $"CET")) M 3 5 0 7200 3600 0 (-1).
Definition ex_dst : tz_rule := TzRule (Some (Literal $"CEST")) M 10 5 0 10800 7200 0 (-1).
Definition ex_tz : tz_state := TzState (ex_std, ex_dst) [] [] 1 (-3600) (r_name ex_std, r_name ex_dst) None true false.

Lemma local_time_correct_witness :
  ∃ y t0 t1 tp zone off st', days_before y * 86400 <= 1743296400 < days_before (y + 1) * 86400 ∧
    is_change ex_std y t0 ∧ is_change ex_dst y t1 ∧
    tz_convert_local 1743296400 ex_tz = Val (inl (tp, zone, off), st') ∧ broken_down (1743296400 + off) tp ∧
    (dst_at t0 t1 1743296400 ∧ tm_isdst tp = 1 ∧ zone = r_name ex_dst ∧ off = 7200 ∨
     ~ dst_at t0 t1 1743296400 ∧ tm_isdst tp = 0 ∧ zone = r_name ex_std ∧ off = 3600) ∧
    rule_wf (tz_rules st').1 ∧ rule_wf (tz_rules st').2.
Proof.
  apply (local_time_correct 1743296400 ex_tz).
  - destruct days_known as (-> & _). lia.
  - unfold rule_wf, rule_ok. cbn. split_and!; try lia; intros y Hy Hc; lia.
  - unfold rule_wf, rule_ok. cbn. split_and!; try lia; intros y Hy Hc; lia.
Defined.
End TzChange.
