(* ===== verification/TzParse.v ===== *)
(** * The syntax of [TZ]

    The texts of the POSIX syntax, as relations between a text and what it
    stands for, and that the parser reads every one of them. *)

From S2P Require Import Prelude Strtol Calendar Tzset TzChange.
Local Open Scope Z_scope.

Module TzParse.
Import Strtol Calendar Tzset TzChange.

(** ** Texts *)

(** A number that fits an [unsigned short]. *)
Definition num (cs : list Z) (v : Z) : Prop := cs ≠ [] ∧ ∃ ds, digit_string 10 cs ds ∧ v = horner 10 0 ds ∧ v < 65536.

(** Hours, minutes and seconds. *)
Inductive time_text : list Z → Z → Prop :=
  | tt_h a h : num a h → time_text a (h * 3600)
  | tt_hm a h b m : num a h → num b m → time_text (a ++ 58 :: b) (h * 3600 + m * 60)
  | tt_hms a h b m c s : num a h → num b m → num c s → time_text (a ++ 58 :: b ++ 58 :: c) (h * 3600 + m * 60 + s).

(** An offset: west of Greenwich is positive in the text. *)
Inductive clock_text : list Z → Z → Prop :=
  | ct_h a h : num a h → h <= 24 → clock_text a (h * 3600)
  | ct_hm a h b m : num a h → num b m → h <= 24 → m <= 59 → clock_text (a ++ 58 :: b) (h * 3600 + m * 60)
  | ct_hms a h b m c s : num a h → num b m → num c s → h <= 24 → m <= 59 → s <= 59 → clock_text (a ++ 58 :: b ++ 58 :: c) (h * 3600 + m * 60 + s).
Inductive offset_text : list Z → Z → Prop :=
  | ot_none a v : clock_text a v → offset_text a (- v)
  | ot_plus a v : clock_text a v → offset_text (43 :: a) (- v)
  | ot_minus a v : clock_text a v → offset_text (45 :: a) v.

Inductive name_text : list Z → list Z → Prop :=
  | nt_alpha s : Forall (λ c, alpha c = true) s → (3 <= length s)%nat → name_text s s
  | nt_quoted s : Forall (λ c, quoted c = true) s → (3 <= length s)%nat → name_text (60 :: s ++ [62]) s.

(** When in the year. *)
Inductive date : Type := DJ0 (d : Z) | DJ1 (d : Z) | DM (m n d : Z).
Inductive date_text : list Z → date → Prop :=
  | dt_J0 a d : num a d → d <= 365 → date_text a (DJ0 d)
  | dt_J1 a d : num a d → 1 <= d <= 365 → date_text (74 :: a) (DJ1 d)
  | dt_M a m b n c d : num a m → num b n → num c d → 1 <= m <= 12 → 1 <= n <= 5 → d <= 6 → date_text (77 :: a ++ 46 :: b ++ 46 :: c) (DM m n d).
Inductive rule_text : list Z → date → Z → Prop :=
  | rt_plain a dt : date_text a dt → rule_text a dt 7200
  | rt_time a dt b secs : date_text a dt → time_text b secs → rule_text (a ++ 47 :: b) dt secs
  | rt_minus a dt b secs : date_text a dt → time_text b secs → rule_text (a ++ 47 :: 45 :: b) dt (- secs).

(** A zone: standard time and, if there is, daylight saving time with the
    two changes. *)
Record zone : Type := Zone { z_std : list Z; z_off : Z; z_dst : option (list Z * Z * (date * Z) * (date * Z)) }.

Inductive tz_text : list Z → zone → Prop :=
  | tz_std a s b off : name_text a s → offset_text b off → tz_text (a ++ b) (Zone s off None)
  | tz_rules_off a s b off c s' e off' f d1 t1 g d2 t2 :
      name_text a s → offset_text b off → name_text c s' → offset_text e off' → rule_text f d1 t1 → rule_text g d2 t2 →
      tz_text (a ++ b ++ c ++ e ++ 44 :: f ++ 44 :: g) (Zone s off (Some (s', off', (d1, t1), (d2, t2))))
  | tz_rules_hour a s b off c s' f d1 t1 g d2 t2 :
      name_text a s → offset_text b off → name_text c s' → rule_text f d1 t1 → rule_text g d2 t2 →
      tz_text (a ++ b ++ c ++ 44 :: f ++ 44 :: g) (Zone s off (Some (s', off + 3600, (d1, t1), (d2, t2))))
  | tz_default a s b off c s' :
      name_text a s → offset_text b off → name_text c s' →
      tz_text (a ++ b ++ c) (Zone s off (Some (s', off + 3600, (DM 3 2 0, 7200), (DM 11 1 0, 7200)))).

(** ** Steps *)

Definition upd (which : bool) (f : tz_rule → tz_rule) (st : tz_state) : tz_state :=
  TzState (if which then ((tz_rules st).1, f (tz_rules st).2) else (f (tz_rules st).1, (tz_rules st).2)) (tzstring_list st) (answers st) (daylight st) (timezone st)
    (tz_names st) (old_tz st) (is_initialized st) (use_tzfile st).

Lemma on_rule_val which f st : on_rule which f st = Val (tt, upd which f st).
Proof. by destruct which. Qed.

Lemma upd_upd which f g st : upd which f (upd which g st) = upd which (λ r, f (g r)) st.
Proof. by destruct which. Qed.

Lemma rule_of_upd which f st : rule_of which (tz_rules (upd which f st)) = f (rule_of which (tz_rules st)).
Proof. by destruct which. Qed.

Lemma hd_val c p st : hd (c :: p) st = Val (c, st).
Proof. done. Qed.

(** ** Numbers *)

Lemma digit10 c d : digit 10 c = Some d → isdigit c = true.
Proof.
  unfold digit, isdigit. destruct ((48 <=? c) && (c <=? 57)) eqn:E; [done|]. cbn. destruct (isalpha c) eqn:Ea; [|done]. cbn. unfold isalpha, toupper in *.
  destruct ((97 <=? c) && (c <=? 122)) eqn:E2; cbn; intros H; case_match; try done; lia.
Qed.

Lemma non_digit10 x : isdigit x = false → non_digit 10 x.
Proof. intros Hx. right. destruct (digit 10 x) as [d|] eqn:E; [|done]. apply digit10 in E. congruence. Qed.

Lemma digit_string_digits cs ds : digit_string 10 cs ds → Forall (λ c, isdigit c = true) cs.
Proof. induction 1 as [|c d cs ds [_ H] _ IH]; constructor; [by eapply digit10|done]. Qed.

Lemma num_digits cs v : num cs v → Forall (λ c, isdigit c = true) cs ∧ 0 <= v < 65536.
Proof.
  intros (_ & ds & Hd & -> & Hlt). split; [by eapply digit_string_digits|]. split; [|done]. apply (horner_ge 10 0 ds); [lia..|]. eapply Forall_impl; [by eapply digit_string_bound|]. intros d Hb. cbn in Hb. lia.
Qed.

Lemma span_spec f cs x t : Forall (λ c, f c = true) cs → f x = false → span f (cs ++ x :: t) = Val (cs, x :: t).
Proof. induction 1 as [|c cs Hc _ IH]; intros Hx; cbn [app span]; [by rewrite Hx|]. rewrite Hc, IH by done. done. Qed.

(** [strtoul] on the number. *)
Lemma strtoul_num cs v x t : num cs v → isdigit x = false → strtoul (cs ++ x :: t) 10 = Val (Conv v (Some (length cs)) None).
Proof.
  intros Hn Hx. pose proof (num_digits cs v Hn) as [_ Hv]. destruct Hn as (Hne & ds & Hd & -> & Hlt).
  pose proof (strtoul_correct 10 [] [] [] cs x t false 10 ds) as E. cbn [app] in E. rewrite E.
  - rewrite (proj2 (Z.ltb_ge _ _)) by (unfold ULONG_MAX; lia). rewrite wrapu_small by lia. done.
  - split; [constructor|constructor| |done|done|by apply non_digit10]. destruct cs as [|c [|c' cs]]; [done|..]; apply np_given; (lia || done).
Qed.

Lemma digit_not_space c : isdigit c = true → isspace c = false ∧ (c =? 45) || (c =? 43) = false.
Proof. unfold isdigit, isspace. intros [H1%Z.leb_le H2%Z.leb_le]%andb_true_iff. split; [rewrite orb_false_iff, andb_false_iff; lia|rewrite orb_false_iff; lia]. Qed.

Lemma scan_hu_num cs v x t : num cs v → isdigit x = false → scan_hu (cs ++ x :: t) = Val (Some (v, x :: t)).
Proof.
  intros Hn Hx. pose proof (num_digits cs v Hn) as [Hds Hv]. pose proof Hn as (Hne & _). destruct cs as [|c cs]; [done|]. pose proof (digit_not_space c (Forall_inv Hds)) as [Hsp Hsg].
  unfold scan_hu. cbn [app]. pose proof (skip_space_spec [] c (cs ++ x :: t) (Forall_nil_2 _) Hsp) as Es. cbn [app length] in Es. rewrite Es. cbn [drop mbind outcome_bind head deref]. rewrite Hsg.
  change (c :: cs ++ x :: t) with ((c :: cs) ++ x :: t). rewrite span_spec by done. cbn [mbind outcome_bind length Nat.eqb app]. change (c :: cs ++ [0]) with ((c :: cs) ++ 0 :: []).
  rewrite (strtoul_num (c :: cs) v 0 []) by done. cbn [mbind outcome_bind ret]. by rewrite wrapu_small by (change (2 ^ 16) with 65536; lia).
Qed.

Lemma scan_next_num sep cs v x t : num cs v → isdigit x = false → scan_next sep (sep :: cs ++ x :: t) = Val (Some (v, x :: t)).
Proof. intros Hn Hx. unfold scan_next. cbn [head deref mbind outcome_bind]. rewrite Z.eqb_refl. cbn [tail]. by apply scan_hu_num. Qed.

Lemma scan_next_none sep x t : x ≠ sep → scan_next sep (x :: t) = Val None.
Proof. intros Hx. unfold scan_next. cbn [head deref mbind outcome_bind]. by rewrite (proj2 (Z.eqb_neq _ _)). Qed.

(** ** Times and offsets *)

(** What may follow a time. *)
Definition after_time (x : Z) : Prop := isdigit x = false ∧ x ≠ 58.

Lemma scan_time_text cs secs x t h0 : time_text cs secs → after_time x →
  ∃ n h m s, scan_time (cs ++ x :: t) h0 0 0 = Val (n, (h, m, s), x :: t) ∧ 0 < n ∧ h * 60 * 60 + m * 60 + s = secs.
Proof.
  intros Ht [Hx H58]. unfold scan_time. assert (isdigit 58 = false) as D58 by done. destruct Ht as [a h Ha|a h b m Ha Hb|a h b m c s Ha Hb Hc].
  - rewrite (scan_hu_num a h x t) by done. cbn [mbind outcome_bind]. rewrite scan_next_none by done. exists 1, h, 0, 0. split; [done|]. lia.
  - rewrite <- app_assoc. cbn [app]. rewrite (scan_hu_num a h 58) by done. cbn [mbind outcome_bind]. rewrite (scan_next_num 58 b m x t) by done. cbn [mbind outcome_bind]. rewrite scan_next_none by done.
    exists 2, h, m, 0. split; [done|]. lia.
  - rewrite <- app_assoc. cbn [app]. rewrite <- app_assoc. cbn [app]. rewrite (scan_hu_num a h 58) by done. cbn [mbind outcome_bind]. rewrite (scan_next_num 58 b m 58) by done. cbn [mbind outcome_bind].
    rewrite (scan_next_num 58 c s x t) by done. exists 3, h, m, s. split; [done|]. lia.
Qed.

Lemma scan_clock cs v x t : clock_text cs v → after_time x →
  ∃ n h m s, scan_time (cs ++ x :: t) 0 0 0 = Val (n, (h, m, s), x :: t) ∧ 0 < n ∧ compute_offset s m h = v ∧ 0 <= v <= 93600.
Proof.
  intros Ht [Hx H58]. unfold scan_time, compute_offset. assert (isdigit 58 = false) as D58 by done. destruct Ht as [a h Ha Hh|a h b m Ha Hb Hh Hm|a h b m c s Ha Hb Hc Hh Hm Hs];
    repeat match goal with H : num _ _ |- _ => pose proof (num_digits _ _ H) as [_ ?]; revert H end; intros.
  - rewrite (scan_hu_num a h x t) by done. cbn [mbind outcome_bind]. rewrite scan_next_none by done. exists 1, h, 0, 0. rewrite !(proj2 (Z.ltb_ge _ _)) by lia. split; [done|]. lia.
  - rewrite <- app_assoc. cbn [app]. rewrite (scan_hu_num a h 58) by done. cbn [mbind outcome_bind]. rewrite (scan_next_num 58 b m x t) by done. cbn [mbind outcome_bind]. rewrite scan_next_none by done.
    exists 2, h, m, 0. rewrite !(proj2 (Z.ltb_ge _ _)) by lia. split; [done|]. lia.
  - rewrite <- app_assoc. cbn [app]. rewrite <- app_assoc. cbn [app]. rewrite (scan_hu_num a h 58) by done. cbn [mbind outcome_bind]. rewrite (scan_next_num 58 b m 58) by done. cbn [mbind outcome_bind].
    rewrite (scan_next_num 58 c s x t) by done. exists 3, h, m, s. rewrite !(proj2 (Z.ltb_ge _ _)) by lia. split; [done|]. lia.
Qed.

Lemma clock_head cs v : clock_text cs v → ∃ c r, cs = c :: r ∧ isdigit c = true.
Proof.
  assert (∀ a h, num a h → ∃ c r, a = c :: r ∧ isdigit c = true) as Hn.
  { intros a h Ha. pose proof (num_digits a h Ha) as [Hd _]. destruct Ha as [Hne _]. destruct a as [|c r]; [done|]. exists c, r. split; [done|]. by inversion Hd. }
  destruct 1 as [a h Ha _|a h b m Ha _ _ _|a h b m c s Ha _ _ _ _ _]; destruct (Hn a h Ha) as (x & r & -> & Hx); by eexists _, _.
Qed.

Lemma parse_offset_text cs off x t which st : offset_text cs off → after_time x →
  parse_offset (cs ++ x :: t) which st = Val ((true, x :: t), upd which (with_offset off) st).
Proof.
  intros Ho Hx. assert (∃ c p a v, cs ++ x :: t = c :: p ∧ clock_text a v ∧ ((c = 43 ∨ c = 45 ∨ isdigit c = true) ∧ c ≠ 0) ∧
    (if (c =? 45) || (c =? 43) then p else c :: p) = a ++ x :: t ∧ (if c =? 45 then v else - v) = off) as (c & p & a & v & -> & Hc & [Hcs Hc0] & Hp & Hoff).
  { destruct Ho as [a v Ha|a v Ha|a v Ha]; [|by exists 43, (a ++ x :: t), a, v; split_and!; auto|by exists 45, (a ++ x :: t), a, v; split_and!; auto].
    destruct (clock_head a v Ha) as (c & r & -> & Hd). exists c, (r ++ x :: t), (c :: r), v. pose proof (digit_not_space c Hd) as [_ Hs]. split_and!; try done; [auto|by intros ->|by rewrite Hs|].
    apply orb_false_iff in Hs as [-> _]. done. }
  destruct (scan_clock a v x t Hc Hx) as (n & h & m & s & Es & Hn & Ev & Hv). unfold parse_offset. rewrite (tbind _ _ _ _ _ (hd_val c p st)).
  assert (negb which && ((c =? 0) || negb (c =? 43) && negb (c =? 45) && negb (isdigit c)) = false) as ->.
  { destruct which; [done|]. cbn [negb andb]. rewrite (proj2 (Z.eqb_neq c 0)) by done. destruct Hcs as [->|[->| ->]]; [done|done|]. cbn [orb negb]. by rewrite !andb_false_r. }
  assert ((if (c =? 45) || (c =? 43) then (if c =? 45 then 1 else -1, tail (c :: p)) else (-1, c :: p)) = (if c =? 45 then 1 else -1, a ++ x :: t)) as ->.
  { rewrite <- Hp. cbn [tail]. destruct (c =? 45), (c =? 43); done. }
  rewrite (tbind _ _ _ _ _ (lift_val _ _ st Es)). rewrite (proj2 (Z.ltb_lt _ _) Hn). rewrite (tbind _ _ _ _ _ (on_rule_val _ _ _)), Ev.
  replace (wraps 32 ((if c =? 45 then 1 else -1) * v)) with off; [done|]. rewrite wraps_small; destruct (c =? 45); lia.
Qed.

(** Without an offset daylight saving time is an hour ahead. *)
Lemma parse_offset_none x t st : x = 44 ∨ x = 0 →
  parse_offset (x :: t) true st = Val ((true, x :: t), upd true (with_offset (r_offset (tz_rules st).1 + 3600)) st).
Proof.
  intros Hx. unfold parse_offset. rewrite (tbind _ _ _ _ _ (hd_val x t st)). cbn [negb andb]. assert (scan_time (x :: t) 0 0 0 = Val (0, (0, 0, 0), x :: t)) as Es by (by destruct Hx as [-> | ->]).
  assert ((if (x =? 45) || (x =? 43) then (if x =? 45 then 1 else -1, tail (x :: t)) else (-1, x :: t)) = (-1, x :: t)) as -> by (by destruct Hx as [-> | ->]).
  by rewrite (tbind _ _ _ _ _ (lift_val _ _ st Es)).
Qed.

(** ** Dates *)

Definition set_date (dt : date) (r : tz_rule) : tz_rule :=
  match dt with
  | DJ0 d => with_d d (with_type J0 r)
  | DJ1 d => with_d d (with_type J1 r)
  | DM m n d => with_d d (with_n n (with_m m (with_type M r)))
  end.

(** What may follow a date. *)
Definition after_date (x : Z) : Prop := x = 0 ∨ x = 47 ∨ x = 44.

Lemma after_date_digit x : after_date x → isdigit x = false ∧ x ≠ 46.
Proof. by intros [-> |[-> | ->]]. Qed.

Lemma parse_J c a d x t which st : (c = 74 ∧ 1 <= d ∨ isdigit c = true ∧ c ≠ 74) → num a d → d <= 365 → isdigit x = false → (if c =? 74 then True else ∃ r, a = c :: r) →
  parse_date ((if c =? 74 then [74] else []) ++ a ++ x :: t) which st = Val (Some (x :: t), upd which (set_date (if c =? 74 then DJ1 d else DJ0 d)) st).
Proof.
  intros Hc Ha Hd Hx Hr. pose proof (num_digits a d Ha) as [Hds Hv]. pose proof Ha as (Hne & _). assert (∃ c1 r1, a = c1 :: r1 ∧ isdigit c1 = true) as (c1 & r1 & Ea & Hc1).
  { destruct a as [|c1 r1]; [done|]. exists c1, r1. split; [done|]. by inversion Hds. }
  set (ty := if c =? 74 then J1 else J0). set (st1 := upd which (with_type ty) st).
  assert ((if c =? 74 then [74] else []) ++ a ++ x :: t = c :: (if c =? 74 then a ++ x :: t else r1 ++ x :: t)) as Ep.
  { destruct (Z.eqb_spec c 74) as [->|Hne']; [done|]. destruct Hr as [r Er]. rewrite Er in Ea. injection Ea as <- <-. by rewrite Er. }
  unfold parse_date. rewrite Ep at 1. rewrite (tbind _ _ _ _ _ (hd_val _ _ st)). assert ((c =? 74) || isdigit c = true) as -> by (destruct Hc as [[-> _]|[-> _]]; [done|apply orb_true_r]).
  rewrite (tbind _ _ _ _ _ (on_rule_val _ _ _)). fold ty st1. cbv zeta.
  assert ((if c =? 74 then tail ((if c =? 74 then [74] else []) ++ a ++ x :: t) else (if c =? 74 then [74] else []) ++ a ++ x :: t) = a ++ x :: t) as -> by (by destruct (c =? 74)).
  assert (hd (a ++ x :: t) st1 = Val (c1, st1)) as Eh by (by rewrite Ea). rewrite (tbind _ _ _ _ _ Eh), Hc1, andb_false_r.
  rewrite (tbind _ _ _ _ _ (lift_val _ _ st1 (strtoul_num a d x t Ha Hx))). cbn [ret endptr deref]. rewrite (tbind _ _ _ _ _ (lift_val _ _ st1 (eq_refl : Val (length a) = Val (length a)))).
  rewrite (proj2 (Nat.eqb_neq _ _)) by (rewrite Ea; done). rewrite (proj2 (Z.ltb_ge _ _)) by lia. cbn [orb].
  assert (bool_decide (ty = J1) && (d =? 0) = false) as ->.
  { unfold ty. destruct (Z.eqb_spec c 74); [|by rewrite bool_decide_eq_false_2]. destruct Hc as [[_ Hd1]|[_ ?]]; [|done]. rewrite (proj2 (Z.eqb_neq d 0)) by lia. apply andb_false_r. }
  rewrite (tbind _ _ _ _ _ (on_rule_val _ _ _)), drop_app_length. unfold st1. rewrite upd_upd. unfold ty. by destruct (c =? 74).
Qed.

Lemma parse_M a m b n c d x t which st : num a m → num b n → num c d → 1 <= m <= 12 → 1 <= n <= 5 → d <= 6 → isdigit x = false →
  parse_date (77 :: a ++ 46 :: b ++ 46 :: c ++ x :: t) which st = Val (Some (x :: t), upd which (set_date (DM m n d)) st).
Proof.
  intros Ha Hb Hc Hm Hn Hd Hx. pose proof (num_digits c d Hc) as [_ Hd0]. unfold parse_date. rewrite (tbind _ _ _ _ _ (hd_val _ _ st)). change ((77 =? 74) || isdigit 77) with false. change (77 =? 77) with true. cbv iota.
  rewrite (tbind _ _ _ _ _ (on_rule_val _ _ _)). set (st1 := upd which (with_type M) st).
  assert (scan_M (77 :: a ++ 46 :: b ++ 46 :: c ++ x :: t) which st1 = Val (Some (x :: t), upd which (set_date (DM m n d)) st)) as Es.
  { unfold scan_M. cbn [tail]. rewrite (tbind _ _ _ _ _ (lift_val _ _ st1 (scan_hu_num a m 46 _ Ha eq_refl))), (tbind _ _ _ _ _ (on_rule_val _ _ _)).
    rewrite (tbind _ _ _ _ _ (lift_val _ _ _ (scan_next_num 46 b n 46 _ Hb eq_refl))), (tbind _ _ _ _ _ (on_rule_val _ _ _)).
    rewrite (tbind _ _ _ _ _ (lift_val _ _ _ (scan_next_num 46 c d x t Hc Hx))), (tbind _ _ _ _ _ (on_rule_val _ _ _)). unfold st1. by rewrite !upd_upd. }
  rewrite (tbind _ _ _ _ _ Es). set (st2 := upd which (set_date (DM m n d)) st). rewrite (tbind _ _ _ _ _ (eq_refl : get_rules st2 = Val (tz_rules st2, st2))). cbv zeta. unfold st2 at 1 2 3 4 5. rewrite !rule_of_upd.
  cbn [set_date with_d with_n with_m with_type r_m r_n r_d]. rewrite !(proj2 (Z.ltb_ge _ _)) by lia. done.
Qed.

Lemma parse_date_text a dt x t which st : date_text a dt → after_date x → parse_date (a ++ x :: t) which st = Val (Some (x :: t), upd which (set_date dt) st).
Proof.
  intros Hdt [Hx _]%after_date_digit. destruct Hdt as [a d Ha Hd|a d Ha Hd|a m b n c d Ha Hb Hc Hm Hn Hd].
  - pose proof (num_digits a d Ha) as [Hds _]. pose proof Ha as (Hne & _). destruct a as [|c r]; [done|]. pose proof (Forall_inv Hds) as Hc. cbn in Hc.
    assert (c ≠ 74) as H74 by (by intros ->). pose proof (parse_J c (c :: r) d x t which st (or_intror (conj Hc H74)) Ha Hd Hx) as E. rewrite (proj2 (Z.eqb_neq _ _) H74) in E. apply E. by exists r.
  - apply (parse_J 74 a d x t which st); (done || lia || (left; lia)).
  - cbn [app]. rewrite <- app_assoc. cbn [app]. rewrite <- app_assoc. cbn [app]. by apply parse_M.
Qed.

(** At the end of the string the rules of the United States are taken. *)
Lemma parse_date_default t which st :
  parse_date (0 :: t) which st = Val (Some (0 :: t), upd which (set_date (if which then DM 11 1 0 else DM 3 2 0)) st).
Proof. by destruct which. Qed.

(** ** Rules *)

Definition set_rule (dt : date) (secs : Z) (r : tz_rule) : tz_rule := with_computed_for (-1) (with_secs secs (set_date dt r)).

Lemma time_head cs secs : time_text cs secs → ∃ c r, cs = c :: r ∧ isdigit c = true.
Proof.
  assert (∀ a h, num a h → ∃ c r, a = c :: r ∧ isdigit c = true) as Hn.
  { intros a h Ha. pose proof (num_digits a h Ha) as [Hd _]. destruct Ha as [Hne _]. destruct a as [|c r]; [done|]. exists c, r. split; [done|]. by inversion Hd. }
  destruct 1 as [a h Ha|a h b m Ha _|a h b m c s Ha _ _]; destruct (Hn a h Ha) as (x & r & -> & Hx); by eexists _, _.
Qed.

(** After the date. *)
Lemma parse_rule_time tz0 tz b (neg : bool) secs x t which st f :
  parse_date tz which st = Val (Some (47 :: (if neg then [45] else []) ++ b ++ x :: t), upd which f st) → (∃ c p, tz0 = c :: p ∧ tz = if c =? 44 then p else tz0) → time_text b secs → after_time x →
  parse_rule tz0 which st = Val ((true, x :: t), upd which (λ r, with_computed_for (-1) (with_secs (if neg then - secs else secs) (f r))) st).
Proof.
  intros Ed (c & p & -> & Etz) Hb Hx. destruct (time_head b secs Hb) as (c1 & r1 & Eb & Hc1). destruct (scan_time_text b secs x t 2 Hb Hx) as (n & h & m & s & Es & _ & Ev). unfold parse_rule.
  rewrite (tbind _ _ _ _ _ (hd_val _ _ st)). cbn [tail]. rewrite <- Etz, (tbind _ _ _ _ _ Ed). set (st1 := upd which f st). rewrite (tbind _ _ _ _ _ (hd_val _ _ st1)).
  change (negb (47 =? 0) && negb (47 =? 47) && negb (47 =? 44)) with false. cbv iota. cbn [tail]. change (47 =? 47) with true. cbv iota.
  set (st2 := upd which (with_secs ((if neg then -1 else 1) * (h * 60 * 60 + m * 60 + s))) st1).
  match goal with |- ?c0 st1 = _ => match c0 with mbind _ ?c1' => assert (c1' st1 = Val (Some (x :: t), st2)) as Et end end.
  { assert (hd ((if neg then [45] else []) ++ b ++ x :: t) st1 = Val (if neg then 45 else c1, st1)) as Eh by (destruct neg; [done|by rewrite Eb]). rewrite (tbind _ _ _ _ _ Eh).
    assert (((if neg then 45 else c1) =? 0) = false) as -> by (destruct neg; [done|]; apply Z.eqb_neq; by intros ->). assert (((if neg then 45 else c1) =? 45) = neg) as ->.
    { destruct neg; [done|]. apply Z.eqb_neq. by intros ->. }
    assert ((if neg then tail ((if neg then [45] else []) ++ b ++ x :: t) else (if neg then [45] else []) ++ b ++ x :: t) = b ++ x :: t) as -> by (by destruct neg).
    rewrite (tbind _ _ _ _ _ (lift_val _ _ st1 Es)), (tbind _ _ _ _ _ (on_rule_val _ _ _)). done. }
  rewrite (tbind _ _ _ _ _ Et), (tbind _ _ _ _ _ (on_rule_val _ _ _)). unfold st2, st1. rewrite !upd_upd. replace ((if neg then -1 else 1) * (h * 60 * 60 + m * 60 + s)) with (if neg then - secs else secs) by (destruct neg; lia). done.
Qed.

Lemma parse_rule_plain tz0 tz x t which st f :
  parse_date tz which st = Val (Some (x :: t), upd which f st) → (∃ c p, tz0 = c :: p ∧ tz = if c =? 44 then p else tz0) → x = 0 ∨ x = 44 →
  parse_rule tz0 which st = Val ((true, x :: t), upd which (λ r, with_computed_for (-1) (with_secs 7200 (f r))) st).
Proof.
  intros Ed (c & p & -> & Etz) Hx. unfold parse_rule. rewrite (tbind _ _ _ _ _ (hd_val _ _ st)). cbn [tail]. rewrite <- Etz, (tbind _ _ _ _ _ Ed). set (st1 := upd which f st). rewrite (tbind _ _ _ _ _ (hd_val _ _ st1)).
  assert (negb (x =? 0) && negb (x =? 47) && negb (x =? 44) = false ∧ (x =? 47) = false) as [-> ->] by (by destruct Hx as [-> | ->]).
  match goal with |- ?c0 st1 = _ => match c0 with mbind _ ?c1' => assert (c1' st1 = Val (Some (x :: t), upd which (with_secs 7200) st1)) as Et by (by rewrite (tbind _ _ _ _ _ (on_rule_val _ _ _))) end end.
  rewrite (tbind _ _ _ _ _ Et), (tbind _ _ _ _ _ (on_rule_val _ _ _)). unfold st1. by rewrite !upd_upd.
Qed.

Lemma parse_rule_text a dt secs x t which st : rule_text a dt secs → x = 0 ∨ x = 44 →
  parse_rule (44 :: a ++ x :: t) which st = Val ((true, x :: t), upd which (set_rule dt secs) st).
Proof.
  intros Hr Hx. assert (after_time x) as Hxt by (by destruct Hx as [-> | ->]). destruct Hr as [a dt Hd|a dt b secs Hd Hb|a dt b secs Hd Hb].
  - apply (parse_rule_plain _ (a ++ x :: t)); [apply parse_date_text; [done|destruct Hx; [by left|by right; right]]|by eexists 44, _|done].
  - rewrite <- app_assoc. cbn [app]. apply (parse_rule_time _ (a ++ 47 :: b ++ x :: t) b false secs); [apply (parse_date_text a dt 47 (b ++ x :: t)); [done|by right; left]|by eexists 44, _|done..].
  - rewrite <- app_assoc. cbn [app]. apply (parse_rule_time _ (a ++ 47 :: 45 :: b ++ x :: t) b true secs); [apply (parse_date_text a dt 47 (45 :: b ++ x :: t)); [done|by right; left]|by eexists 44, _|done..].
Qed.

(** ** Names *)

(** The characters of a name. *)
Definition name_is (l : list (list Z)) (o : option tzname) (s : list Z) : Prop :=
  match o with
  | Some (Literal s') => s = s'
  | Some (Interned i off) => ∃ t, l !! i = Some t ∧ drop off t = s
  | None => False
  end.

Lemma name_is_grows l l' o s : l `prefix_of` l' → name_is l o s → name_is l' o s.
Proof. intros Hp. destruct o as [[s'|i off]|]; [done| |done]. intros (t & Ht & Hd). exists t. split; [by eapply prefix_lookup_Some|done]. Qed.

(** More strings were allocated. *)
Definition grow (l : list (list Z)) (ans : list bool) (st : tz_state) : tz_state :=
  TzState (tz_rules st) l ans (daylight st) (timezone st) (tz_names st) (old_tz st) (is_initialized st) (use_tzfile st).

Lemma find_string_spec s i l j off : find_string s i l = Some (j, off) → (i <= j)%nat ∧ ∃ t, l !! (j - i)%nat = Some t ∧ drop off t = s.
Proof.
  revert i. induction l as [|t l IH]; intros i; cbn [find_string]; [done|]. destruct ((length s <=? length t)%nat && bool_decide (drop (length t - length s) t = s)) eqn:E.
  - intros [= <- <-]. split; [done|]. rewrite Nat.sub_diag. exists t. split; [done|]. apply andb_true_iff in E as [_ E]. by apply bool_decide_eq_true in E.
  - intros [Hle (u & Hu & Hd)]%IH. split; [lia|]. exists u. split; [|done]. by replace (j - i)%nat with (S (j - S i)) by lia.
Qed.

Lemma tzstring_len_spec s st : Forall (eq true) (answers st) →
  ∃ nm l ans, __tzstring_len s st = Val (Some nm, grow l ans st) ∧ name_is l (Some nm) s ∧ tzstring_list st `prefix_of` l ∧ Forall (eq true) ans.
Proof.
  intros Ha. unfold __tzstring_len. destruct (find_string s 0 (tzstring_list st)) as [[i off]|] eqn:E.
  - apply find_string_spec in E as (_ & t & Ht & Hd). rewrite Nat.sub_0_r in Ht. exists (Interned i off), (tzstring_list st), (answers st). split; [by destruct st|]. split; [by exists t|]. done.
  - exists (Interned (length (tzstring_list st)) 0), (tzstring_list st ++ [s]), (tail (answers st)). split; [|split; [exists s; split; [by apply list_lookup_middle|done]|]].
    + unfold mbind, T_bind, malloc. destruct st as [? ? [|b l] ? ? ? ? ? ?]; cbn in *; [done|]. by inversion Ha as [|? ? <- ?]; subst.
    + split; [by apply prefix_app_r|]. destruct (answers st); [done|]. by inversion Ha.
Qed.

Lemma parse_tzname_text a s x t which st : name_text a s → alpha x = false → Forall (eq true) (answers st) →
  ∃ nm l ans, parse_tzname (a ++ x :: t) which st = Val ((true, x :: t), upd which (with_name (Some nm)) (grow l ans st)) ∧
    name_is l (Some nm) s ∧ tzstring_list st `prefix_of` l ∧ Forall (eq true) ans.
Proof.
  intros Hn Hx Ha. destruct (tzstring_len_spec s st Ha) as (nm & l & ans & Es & Hnm & Hp & Hans). exists nm, l, ans. split; [|done]. unfold parse_tzname. destruct Hn as [s Hs Hl|s Hs Hl].
  - rewrite (tbind _ _ _ _ _ (lift_val _ _ st (span_spec alpha s x t Hs Hx))). rewrite (proj2 (Nat.ltb_ge _ _)) by lia.
    rewrite (tbind _ _ _ _ _ (eq_refl : mret (M := T) (Some (s, x :: t)) st = Val (Some (s, x :: t), st))). rewrite (tbind _ _ _ _ _ Es), (tbind _ _ _ _ _ (on_rule_val _ _ _)). done.
  - cbn [app]. rewrite <- app_assoc. cbn [app]. rewrite (tbind _ _ _ _ _ (lift_val _ _ st (eq_refl : span alpha (60 :: s ++ 62 :: x :: t) = Val ([], _)))). change (length ([] : list Z) <? 3)%nat with true. cbv iota.
    match goal with |- ?c0 st = _ => match c0 with mbind _ ?c1 => assert (c1 st = Val (Some (s, x :: t), st)) as E end end.
    { rewrite (tbind _ _ _ _ _ (hd_val _ _ st)). change (negb (60 =? 60)) with false. cbv iota. cbn [tail]. rewrite (tbind _ _ _ _ _ (lift_val _ _ st (span_spec quoted s 62 (x :: t) Hs eq_refl))), (tbind _ _ _ _ _ (hd_val _ _ st)).
      change (negb (62 =? 62)) with false. rewrite (proj2 (Nat.ltb_ge _ _)) by lia. done. }
    rewrite (tbind _ _ _ _ _ E), (tbind _ _ _ _ _ Es), (tbind _ _ _ _ _ (on_rule_val _ _ _)). done.
Qed.

(** ** The whole value *)

Lemma name_head a s : name_text a s → ∃ c r, a = c :: r ∧ after_time c ∧ c ≠ 0.
Proof.
  destruct 1 as [s Hs Hl|s Hs Hl]; [|by eexists 60, _]. destruct s as [|c r]; [cbn in Hl; lia|]. pose proof (Forall_inv Hs) as Hc. cbn in Hc. exists c, r. split; [done|]. unfold after_time, alpha, isdigit in *.
  rewrite andb_false_iff. lia.
Qed.

Lemma offset_head b off : offset_text b off → ∃ c r, b = c :: r ∧ alpha c = false.
Proof.
  destruct 1 as [a v Ha|a v Ha|a v Ha]; [|by eexists _, _..]. destruct (clock_head a v Ha) as (c & r & -> & Hc). exists c, r. split; [done|]. unfold alpha, isdigit in *. rewrite orb_false_iff, !andb_false_iff. lia.
Qed.

Lemma offset_range b off : offset_text b off → - 93600 <= off <= 93600.
Proof. intros Ho. destruct Ho as [a v Ha|a v Ha|a v Ha]; destruct (scan_clock a v 0 [] Ha) as (_ & _ & _ & _ & _ & _ & _ & Hv); try done; lia. Qed.

Lemma rule_head a dt secs : rule_text a dt secs → ∃ c r, a = c :: r ∧ c ≠ 0.
Proof.
  assert (∀ a dt, date_text a dt → ∃ c r, a = c :: r ∧ c ≠ 0) as Hd.
  { intros a0 dt0 [a1 d Ha _|a1 d Ha _|]; [|by eexists _, _..]. pose proof (num_digits a1 d Ha) as [Hds _]. destruct Ha as [Hne _]. destruct a1 as [|c r]; [done|]. exists c, r. split; [done|]. inversion Hds; subst. by intros ->. }
  destruct 1 as [a dt H|a dt b secs H _|a dt b secs H _]; destruct (Hd _ _ H) as (c & r & -> & Hc); by eexists _, _.
Qed.

(** What the two rules must be. *)
Definition zone_rules (l : list (list Z)) (z : zone) (r : tz_rule * tz_rule) : Prop :=
  name_is l (r_name r.1) (z_std z) ∧ r_offset r.1 = z_off z ∧
  match z_dst z with
  | None => r_name r.2 = r_name r.1 ∧ r_offset r.2 = z_off z ∧ (∀ y t0 t1, is_change r.1 y t0 → is_change r.2 y t1 → t0 = t1)
  | Some (s', off', (d1, t1), (d2, t2)) => name_is l (r_name r.2) s' ∧ r_offset r.2 = off' ∧ r.1 = set_rule d1 t1 r.1 ∧ r.2 = set_rule d2 t2 r.2
  end.

(** The head of the value: standard time. *)
Lemma parse_std a s b off x t st : name_text a s → offset_text b off → after_time x → Forall (eq true) (answers st) →
  ∃ nm l ans, Forall (eq true) ans ∧ name_is l (Some nm) s ∧
    (∀ (k : bool * list Z → T unit), ('(b, tz) ← parse_tzname (a ++ b ++ x :: t) false; r ← (if b : bool then parse_offset tz false else mret (false, tz)); k r) st =
      k (true, x :: t) (upd false (λ r, with_offset off (with_name (Some nm) r)) (grow l ans st))).
Proof.
  intros Hn Ho Hx Ha. destruct (offset_head b off Ho) as (c & r & -> & Hc). destruct (parse_tzname_text a s c (r ++ x :: t) false st Hn Hc Ha) as (nm & l & ans & E & Hnm & _ & Hans).
  exists nm, l, ans. split; [done|]. split; [done|]. intros k. cbn [app]. rewrite (tbind _ _ _ _ _ E). cbv iota. change (c :: r ++ x :: t) with ((c :: r) ++ x :: t).
  rewrite (tbind _ _ _ _ _ (parse_offset_text (c :: r) off x t false _ Ho Hx)), upd_upd. done.
Qed.

Lemma date_ok a dt secs r : date_text a dt → rule_ok (set_rule dt secs r).
Proof. destruct 1 as [a d Ha Hd|a d Ha Hd|a m b n c d Ha Hb Hc Hm Hn Hd]; unfold rule_ok; cbn; [destruct (num_digits a d Ha); lia|lia|destruct (num_digits c d Hc); lia]. Qed.

Lemma rule_text_date a dt secs : rule_text a dt secs → ∃ b, date_text b dt.
Proof. destruct 1; by eexists. Qed.

Lemma set_rule_again dt secs r : set_rule dt secs (set_rule dt secs r) = set_rule dt secs r.
Proof. by destruct dt. Qed.

(** A rule that was set and is not computed for a year yet. *)
Lemma set_rule_wf a dt secs r : date_text a dt → - 604800 <= r_offset r <= 604800 → rule_wf (set_rule dt secs r).
Proof. intros Hd Ho. split; [by eapply date_ok|]. split; [intros y Hy E; cbn in E; lia|]. by destruct dt. Qed.

(** The state that the value asks for. *)
Definition zone_set (z : zone) (st : tz_state) : Prop :=
  zone_rules (tzstring_list st) z (tz_rules st) ∧ rule_wf (tz_rules st).1 ∧ rule_wf (tz_rules st).2 ∧ timezone st = - z_off z ∧
  daylight st = (if r_offset (tz_rules st).1 =? r_offset (tz_rules st).2 then 0 else 1) ∧ tz_names st = (r_name (tz_rules st).1, r_name (tz_rules st).2).

Lemma update_vars_spec z st st' : zone_rules (tzstring_list st) z (tz_rules st) → rule_wf (tz_rules st).1 → rule_wf (tz_rules st).2 →
  update_vars st = Val (tt, st') → zone_set z st'.
Proof. intros Hz W0 W1. unfold update_vars. destruct (tz_rules st) as [r0 r1] eqn:E. intros [= <-]. unfold zone_set. cbn in *. split_and!; try done. f_equal. apply Hz. Qed.

(** The two rules at the end. *)
Lemma parse_rules_tail f d1 t1 g d2 t2 t st : rule_text f d1 t1 → rule_text g d2 t2 →
  ('(b, tz) ← parse_rule (44 :: f ++ 44 :: g ++ 0 :: t) false; (if b : bool then _ ← parse_rule tz true; mret tt else mret tt) ;; update_vars) st =
    update_vars (upd true (set_rule d2 t2) (upd false (set_rule d1 t1) st)).
Proof.
  intros Hf Hg. rewrite (tbind _ _ _ _ _ (parse_rule_text f d1 t1 44 (g ++ 0 :: t) false st Hf (or_intror eq_refl))). cbv iota. set (st1 := upd false _ st).
  assert ((_ ← parse_rule (44 :: g ++ 0 :: t) true; mret tt) st1 = Val (tt, upd true (set_rule d2 t2) st1)) as E by (by rewrite (tbind _ _ _ _ _ (parse_rule_text g d2 t2 0 t true st1 Hg (or_introl eq_refl)))).
  by rewrite (tbind _ _ _ _ _ E).
Qed.

(** Daylight saving time with rules. *)
Lemma parse_dst a s tz1 f d1 t1 g d2 t2 t off' st : name_text a s → (∃ x p, tz1 = x :: p ∧ alpha x = false) → Forall (eq true) (answers st) →
  (∀ st, parse_offset tz1 true (st : tz_state) = Val ((true, 44 :: f ++ 44 :: g ++ 0 :: t), upd true (with_offset (off' (r_offset (tz_rules st).1))) st)) → rule_text f d1 t1 → rule_text g d2 t2 →
  ∃ nm l ans, name_is l (Some nm) s ∧ tzstring_list st `prefix_of` l ∧
    ('(b, tz) ← parse_tzname (a ++ tz1) true;
     '(stop, tz) ←
       (if b : bool then
          '(_, tz) ← parse_offset tz true;
          c ← hd tz;
          last ← (if c =? 0 then mret true else if c =? 44 then c1 ← hd (tail tz); mret (c1 =? 0) else mret false);
          if last : bool then
            set_use_tzfile false ;; mret (false, tz)
          else mret (false, tz)
        else mret (false, tz));
     if stop : bool then mret tt else
     '(b, tz) ← parse_rule tz false;
     (if b : bool then _ ← parse_rule tz true; mret tt else mret tt) ;;
     update_vars) st =
    update_vars (upd true (set_rule d2 t2) (upd false (set_rule d1 t1) (upd true (λ r, with_offset (off' (r_offset (tz_rules st).1)) (with_name (Some nm) r)) (grow l ans st)))).
Proof.
  intros Hn (x & p & -> & Hx) Ha Ho Hf Hg. destruct (parse_tzname_text a s x p true st Hn Hx Ha) as (nm & l & ans & E & Hnm & Hp & _). exists nm, l, ans. split; [done|]. split; [done|].
  rewrite (tbind _ _ _ _ _ E). cbv iota. set (st1 := upd true (with_name (Some nm)) (grow l ans st)). set (tz2 := 44 :: f ++ 44 :: g ++ 0 :: t).
  match goal with |- ?c0 st1 = _ => match c0 with mbind _ ?c1 => assert (c1 st1 = Val ((false, tz2), upd true (with_offset (off' (r_offset (tz_rules st).1))) st1)) as E1 end end.
  { rewrite (tbind _ _ _ _ _ (Ho st1)). cbv iota. rewrite (tbind _ _ _ _ _ (hd_val _ _ _)). change (44 =? 0) with false. change (44 =? 44) with true. cbv iota. cbn [tail].
    destruct (rule_head f d1 t1 Hf) as (c & r & -> & Hc). cbn [app]. set (st2 := upd true _ st1).
    assert ((c1 ← hd (c :: r ++ 44 :: g ++ 0 :: t); mret (c1 =? 0)) st2 = Val (false, st2)) as El by (by rewrite (tbind _ _ _ _ _ (hd_val _ _ _)), (proj2 (Z.eqb_neq _ _) Hc)).
    rewrite (tbind _ _ _ _ _ El). by unfold tz2. }
  rewrite (tbind _ _ _ _ _ E1). cbv iota. unfold tz2. rewrite (parse_rules_tail f d1 t1 g d2 t2) by done. unfold st1. by rewrite upd_upd.
Qed.

(** Standard time, then daylight saving time: what comes out. *)
Lemma zone_dst_set s off s' off' d1 t1 d2 t2 f g nm nm' l l' ans ans' st st' :
  name_is l (Some nm) s → name_is l' (Some nm') s' → l `prefix_of` l' → - 93600 <= off <= 93600 → - 97200 <= off' <= 97200 → date_text f d1 → date_text g d2 →
  update_vars (upd true (set_rule d2 t2) (upd false (set_rule d1 t1) (upd true (λ r, with_offset off' (with_name (Some nm') r)) (grow l' ans'
    (upd false (λ r, with_offset off (with_name (Some nm) r)) (grow l ans st)))))) = Val (tt, st') →
  zone_set (Zone s off (Some (s', off', (d1, t1), (d2, t2)))) st'.
Proof.
  intros Hnm Hnm' Hp Ho Ho' Hd1 Hd2. apply update_vars_spec.
  - unfold zone_rules. cbn [z_std z_off z_dst tzstring_list upd grow tz_rules fst snd]. split_and!.
    + destruct d1; by eapply name_is_grows.
    + by destruct d1.
    + by destruct d2.
    + by destruct d2.
    + by rewrite set_rule_again.
    + by rewrite set_rule_again.
  - eapply set_rule_wf; [done|cbn; lia].
  - eapply set_rule_wf; [done|cbn; lia].
Qed.

Definition no_file (st : tz_state) : tz_state :=
  TzState (tz_rules st) (tzstring_list st) (answers st) (daylight st) (timezone st) (tz_names st) (old_tz st) (is_initialized st) false.

(** No rules: those of the United States. *)
Lemma parse_rules_default t st :
  ('(b, tz) ← parse_rule (0 :: t) false; (if b : bool then _ ← parse_rule tz true; mret tt else mret tt) ;; update_vars) st =
    update_vars (upd true (set_rule (DM 11 1 0) 7200) (upd false (set_rule (DM 3 2 0) 7200) st)).
Proof.
  assert (∀ which st, parse_rule (0 :: t) which st = Val ((true, 0 :: t), upd which (set_rule (if which then DM 11 1 0 else DM 3 2 0) 7200) st)) as E.
  { intros which st0. apply (parse_rule_plain _ (0 :: t) 0 t which st0 (set_date (if which then DM 11 1 0 else DM 3 2 0))); [apply parse_date_default|by eexists 0, t|by left]. }
  rewrite (tbind _ _ _ _ _ (E false st)). cbv iota. set (st1 := upd false _ st). assert ((_ ← parse_rule (0 :: t) true; mret tt) st1 = Val (tt, upd true (set_rule (DM 11 1 0) 7200) st1)) as E1 by (by rewrite (tbind _ _ _ _ _ (E true st1))).
  by rewrite (tbind _ _ _ _ _ E1).
Qed.

Ltac num_lit l := split; [done|]; exists l; split; [repeat (constructor; [by split|]); constructor|split; [reflexivity|lia]].

(** The value is read as the zone it describes. *)
Lemma parse_tz_spec (cs : list Z) (z : zone) (t : list Z) (st : tz_state) :
  tz_text cs z → Forall (eq true) (answers st) → ∃ st', __tzset_parse_tz false (cs ++ 0 :: t) st = Val (tt, st') ∧ zone_set z st' ∧ (use_tzfile st = false → use_tzfile st' = false).
Proof.
  intros Ht Ha. unfold __tzset_parse_tz. set (r0 := with_name (Some (Literal [])) blank_rule). set (st0 := TzState (r0, r0) (tzstring_list st) (answers st) (daylight st) (timezone st) (tz_names st) (old_tz st) (is_initialized st) (use_tzfile st)).
  rewrite (tbind _ _ _ _ _ (eq_refl : set_rules (r0, r0) st = Val (tt, st0))). destruct Ht as [a s b off Hn Ho|a s b off c s' e off' f d1 t1 g d2 t2 Hn Ho Hn' Ho' Hf Hg|a s b off c s' f d1 t1 g d2 t2 Hn Ho Hn' Hf Hg|a s b off c s' Hn Ho Hn'].
  - rewrite <- app_assoc. destruct (parse_std a s b off 0 t st0 Hn Ho ltac:(done) Ha) as (nm & l & ans & Hans & Hnm & E). rewrite E. clear E. pose proof (offset_range b off Ho) as Hr. eexists. split; [reflexivity|]. split; [|done].
    unfold zone_set, zone_rules, rule_wf, rule_ok. cbn. split_and!; try done; try lia; try (intros y Hy Hc; lia). intros y t0 t1 (day & Hday & ->) (day' & Hday' & ->). cbn in *. lia.
  - destruct (name_head c s' Hn') as (x & p & -> & Hx & Hx0). repeat first [rewrite <- app_assoc|progress cbn [app]].
    destruct (parse_std a s b off x (p ++ e ++ 44 :: f ++ 44 :: g ++ 0 :: t) st0 Hn Ho Hx Ha) as (nm & l & ans & Hans & Hnm & E). rewrite E. clear E. cbn [negb]. set (st1 := upd false _ _).
    rewrite (tbind _ _ _ _ _ (hd_val _ _ st1)), (proj2 (Z.eqb_neq _ _) Hx0). change (x :: p ++ e ++ 44 :: f ++ 44 :: g ++ 0 :: t) with ((x :: p) ++ (e ++ 44 :: f ++ 44 :: g ++ 0 :: t)).
    destruct (offset_head e off' Ho') as (ce & re & Ee & Hce). destruct (parse_dst (x :: p) s' (e ++ 44 :: f ++ 44 :: g ++ 0 :: t) f d1 t1 g d2 t2 t (λ _, off') st1 Hn') as (nm' & l' & ans' & Hnm' & Hpre & E); [by rewrite Ee; eexists _, _|done| |done|done|].
    { intros st2. by apply parse_offset_text. }
    rewrite E. clear E. destruct (rule_text_date _ _ _ Hf) as [a1 Hd1]. destruct (rule_text_date _ _ _ Hg) as [a2 Hd2]. pose proof (offset_range b off Ho). pose proof (offset_range e off' Ho').
    eexists. split; [reflexivity|]. split; [|done]. eapply (zone_dst_set s off s' off' d1 t1 d2 t2 a1 a2 nm nm' l l' ans ans' st0); try done; lia.
  - destruct (name_head c s' Hn') as (x & p & -> & Hx & Hx0). repeat first [rewrite <- app_assoc|progress cbn [app]].
    destruct (parse_std a s b off x (p ++ 44 :: f ++ 44 :: g ++ 0 :: t) st0 Hn Ho Hx Ha) as (nm & l & ans & Hans & Hnm & E). rewrite E. clear E. cbn [negb]. set (st1 := upd false _ _).
    rewrite (tbind _ _ _ _ _ (hd_val _ _ st1)), (proj2 (Z.eqb_neq _ _) Hx0). change (x :: p ++ 44 :: f ++ 44 :: g ++ 0 :: t) with ((x :: p) ++ (44 :: f ++ 44 :: g ++ 0 :: t)).
    destruct (parse_dst (x :: p) s' (44 :: f ++ 44 :: g ++ 0 :: t) f d1 t1 g d2 t2 t (λ o, o + 3600) st1 Hn') as (nm' & l' & ans' & Hnm' & Hpre & E); [by eexists _, _|done| |done|done|].
    { intros st2. by apply parse_offset_none; left. }
    rewrite E. clear E. destruct (rule_text_date _ _ _ Hf) as [a1 Hd1]. destruct (rule_text_date _ _ _ Hg) as [a2 Hd2]. pose proof (offset_range b off Ho).
    eexists. split; [reflexivity|]. split; [|done]. eapply (zone_dst_set s off s' (off + 3600) d1 t1 d2 t2 a1 a2 nm nm' l l' ans ans' st0); try done; lia.
  - destruct (name_head c s' Hn') as (x & p & -> & Hx & Hx0). repeat first [rewrite <- app_assoc|progress cbn [app]].
    destruct (parse_std a s b off x (p ++ 0 :: t) st0 Hn Ho Hx Ha) as (nm & l & ans & Hans & Hnm & E). rewrite E. clear E. cbn [negb]. set (st1 := upd false _ _).
    rewrite (tbind _ _ _ _ _ (hd_val _ _ st1)), (proj2 (Z.eqb_neq _ _) Hx0). change (x :: p ++ 0 :: t) with ((x :: p) ++ (0 :: t)).
    destruct (parse_tzname_text (x :: p) s' 0 t true st1 Hn' eq_refl Hans) as (nm' & l' & ans' & E & Hnm' & Hpre & _). rewrite (tbind _ _ _ _ _ E). clear E. pose proof (offset_range b off Ho). cbv iota.
    set (st2 := upd true (with_name (Some nm')) (grow l' ans' st1)). set (st3 := no_file (upd true (with_offset (off + 3600)) st2)).
    match goal with |- ∃ st', ?c0 st2 = _ ∧ _ => match c0 with mbind _ ?c1 => assert (c1 st2 = Val ((false, 0 :: t), st3)) as E1 end end.
    { rewrite (tbind _ _ _ _ _ (parse_offset_none 0 t st2 (or_intror eq_refl))). done. }
    rewrite (tbind _ _ _ _ _ E1). cbv iota. rewrite parse_rules_default.
    eexists. split; [reflexivity|]. split; [|done]. eapply (zone_dst_set s off s' (off + 3600) (DM 3 2 0) 7200 (DM 11 1 0) 7200 $"M3.2.0" $"M11.1.0" nm nm' l l' ans ans' (no_file st0)); try done; [lia| |].
    + apply (dt_M [51] 3 [50] 2 [48] 0); try lia; [num_lit [3]|num_lit [2]|num_lit [0]].
    + apply (dt_M [49; 49] 11 [49] 1 [48] 0); try lia; [num_lit [1; 1]|num_lit [1]|num_lit [0]].
Qed.

(** ** Through the environment *)

Lemma num_nul_free cs v : num cs v → nul_free cs.
Proof. intros [Hd _]%num_digits. eapply Forall_impl; [exact Hd|]. by intros c Hc ->. Qed.

Lemma name_nul_free a s : name_text a s → nul_free a.
Proof.
  destruct 1 as [s Hs Hl|s Hs Hl]; [eapply Forall_impl; [exact Hs|]; by intros c Hc ->|]. apply Forall_cons. split; [done|]. apply Forall_app_2; [|by repeat constructor]. eapply Forall_impl; [exact Hs|]. by intros c Hc ->.
Qed.

Ltac nul_free_text := repeat (apply Forall_app_2 || (apply Forall_cons; split; [done|]) || by (eapply num_nul_free; eassumption) || apply Forall_nil_2).

Lemma offset_nul_free b off : offset_text b off → nul_free b.
Proof.
  assert (∀ a v, clock_text a v → nul_free a) as Hc by (destruct 1; nul_free_text). destruct 1 as [a v Ha|a v Ha|a v Ha]; [by eapply Hc|..]; apply Forall_cons; (split; [done|by eapply Hc]).
Qed.

Lemma rule_nul_free a dt secs : rule_text a dt secs → nul_free a.
Proof.
  assert (∀ a v, time_text a v → nul_free a) as Ht by (destruct 1; nul_free_text). assert (∀ a dt, date_text a dt → nul_free a) as Hd by (destruct 1; nul_free_text).
  destruct 1 as [a dt H|a dt b secs H H'|a dt b secs H H']; [by eapply Hd|..]; (apply Forall_app_2; [by eapply Hd|]); repeat (apply Forall_cons; split; [done|]); by eapply Ht.
Qed.

Lemma tz_nul_free cs z : tz_text cs z → nul_free cs.
Proof.
  destruct 1; repeat (apply Forall_app_2 || (apply Forall_cons; split; [done|]) || by (eapply name_nul_free; eassumption) || by (eapply offset_nul_free; eassumption) || by (eapply rule_nul_free; eassumption)).
Qed.

(** The value starts with a letter or a quote. *)
Lemma name_text_head a s : name_text a s → ∃ c r, a = c :: r ∧ c ≠ 0 ∧ c ≠ 58 ∧ c ≠ 47.
Proof.
  destruct 1 as [s Hs Hl|s Hs Hl]; [|by eexists 60, _]. destruct s as [|c r]; [cbn in Hl; lia|]. pose proof (Forall_inv Hs) as Hc. cbn in Hc. exists c, r. by split_and!; try (intros ->; done).
Qed.

Lemma tz_head cs z : tz_text cs z → ∃ c r, cs = c :: r ∧ c ≠ 0 ∧ c ≠ 58 ∧ c ≠ 47.
Proof.
  pose proof name_text_head as Hn.
  destruct 1 as [a s b off H _|a s b off c s' e off' f d1 t1 g d2 t2 H|a s b off c s' f d1 t1 g d2 t2 H|a s b off c s' H]; destruct (Hn a s H) as (x & r & -> & Hx); by eexists _, _.
Qed.

Lemma tz_cstr_spec s t : nul_free s → Tzset.cstr (s ++ 0 :: t) = Val s.
Proof. induction 1 as [|c s Hc _ IH]; [done|]. cbn [app Tzset.cstr]. rewrite (proj2 (Z.eqb_neq _ _) Hc), IH. done. Qed.

(** The string that was set last, if any, is another one. *)
Definition changed (cs : list Z) (st : tz_state) : Prop :=
  match old_tz st with Some o => ∃ s t, nul_free s ∧ o = s ++ 0 :: t ∧ s ≠ cs | None => True end.

(** A value of [TZ] that names no data file and is not the one set last goes
    to the parser. *)
Lemma tzset_internal_parse (file : list Z → bool) (cs t : list Z) (c : Z) (r : list Z) (st : tz_state) :
  cs = c :: r → c ≠ 0 → c ≠ 58 → c ≠ 47 → nul_free cs → Forall (eq true) (answers st) → changed cs st → file cs = false →
  ∃ st1, tzset_internal file false true (Some (cs ++ 0 :: t)) st = __tzset_parse_tz false (cs ++ 0 :: t) st1 ∧ Forall (eq true) (answers st1) ∧ use_tzfile st1 = false.
Proof.
  intros Ehd Hc0 Hc58 Hc47 Hnf Ha Hc Hfile. pose proof (tz_cstr_spec cs t Hnf) as Ecs.
  set (st1 := TzState (tz_rules st) (tzstring_list st) (answers st) (daylight st) (timezone st) (tz_names st) (old_tz st) true (use_tzfile st)).
  unfold tzset_internal. rewrite andb_false_r. fold st1. unfold mbind at 1, T_bind at 1.
  assert (hd (cs ++ 0 :: t) st1 = Val (c, st1)) as Eh by (by rewrite Ehd). rewrite (tbind _ _ _ _ _ Eh), (proj2 (Z.eqb_neq _ _) Hc0), (tbind _ _ _ _ _ Eh), (proj2 (Z.eqb_neq _ _) Hc58).
  match goal with |- context [mret (M := T) ?x st1] => change (mret (M := T) x st1) with (Val (x, st1)) end. cbv beta iota.
  match goal with |- ∃ st', ?c0 st1 = _ ∧ _ => match c0 with mbind _ ?c1 => assert (c1 st1 = Val (false, st1)) as Es end end.
  { unfold changed in Hc. destruct (old_tz st) as [o|] eqn:Eo; cbn [old_tz st1]; rewrite ?Eo; [|done]. destruct Hc as (s & t' & Hs & -> & Hne). apply lift_val. unfold same_string.
    rewrite Ecs, (tz_cstr_spec s t' Hs). cbn. by rewrite bool_decide_eq_false_2. }
  rewrite (tbind _ _ _ _ _ Es). cbn [default from_option id]. rewrite (tbind _ _ _ _ _ (eq_refl : get_rules st1 = Val (tz_rules st1, st1))).
  set (r' := (with_name None (tz_rules st1).1, with_name None (tz_rules st1).2)). set (st2 := TzState r' (tzstring_list st) (answers st) (daylight st) (timezone st) (tz_names st) (old_tz st) true (use_tzfile st)).
  rewrite (tbind _ _ _ _ _ (eq_refl : set_rules r' st1 = Val (tt, st2))). rewrite (tbind _ _ _ _ _ (lift_val _ _ st2 Ecs)).
  assert (∃ st3, malloc st2 = Val (true, st3) ∧ Forall (eq true) (answers st3)) as (st3 & Em & Ha3).
  { unfold malloc. cbn [answers st2]. destruct (answers st) as [|b l] eqn:El; [by exists st2|]. apply Forall_cons in Ha as [<- Ha]. by eexists. }
  rewrite (tbind _ _ _ _ _ Em). set (st4 := TzState (tz_rules st3) (tzstring_list st3) (answers st3) (daylight st3) (timezone st3) (tz_names st3) (Some (cs ++ [0])) (is_initialized st3) (use_tzfile st3)).
  rewrite (tbind _ _ _ _ _ (eq_refl : set_old_tz (Some (cs ++ [0])) st3 = Val (tt, st4))). rewrite Hfile. rewrite (tbind _ _ _ _ _ (eq_refl : set_use_tzfile false st4 = Val (tt, no_file st4))).
  assert (same_string (cs ++ 0 :: t) TZDEFAULT = Val false) as Ed.
  { unfold same_string. rewrite Ecs. change (Tzset.cstr TZDEFAULT) with (Val $"/etc/localtime"). cbn [mbind outcome_bind]. rewrite bool_decide_eq_false_2; [done|]. rewrite Ehd. intros [= E _]. done. }
  rewrite (tbind _ _ _ _ _ (lift_val _ _ _ Ed)). rewrite bool_decide_eq_false_2 by (by rewrite Ehd). cbn [orb]. by exists (no_file st4).
Qed.

Lemma tzset_internal_zone (file : list Z → bool) (cs : list Z) (z : zone) (t : list Z) (st : tz_state) :
  tz_text cs z → Forall (eq true) (answers st) → changed cs st → file cs = false →
  ∃ st', tzset_internal file false true (Some (cs ++ 0 :: t)) st = Val (tt, st') ∧ zone_set z st' ∧ use_tzfile st' = false.
Proof.
  intros Ht Ha Hc Hfile. destruct (tz_head cs z Ht) as (c & r & Ehd & Hc0 & Hc58 & Hc47).
  destruct (tzset_internal_parse file cs t c r st) as (st1 & -> & Ha1 & Hf1); try done; [by eapply tz_nul_free|].
  destruct (parse_tz_spec cs z t st1 Ht Ha1) as (st' & E & Hz & Hf). exists st'. auto.
Qed.


(** [localtime] converts with the zone that [TZ] describes: the call is the
    conversion by rules, from a state in which the zone is set. *)
Theorem localtime_zone tzfile_convert (file : list Z → bool) (cs : list Z) (z : zone) (t : list Z) (timer : Z) (st : tz_state) :
  tz_text cs z → Forall (eq true) (answers st) → changed cs st → file cs = false →
  ∃ st', __tz_convert tzfile_convert file false true (Some (cs ++ 0 :: t)) timer st = tz_convert_local timer st' ∧ zone_set z st'.
Proof.
  intros Ht Ha Hc Hfile. destruct (tzset_internal_zone file cs z t st) as (st2 & E & Hz & Hu); [done..|].
  exists st2. split; [|done]. unfold __tz_convert. rewrite (tbind _ _ _ _ _ E). unfold tz_convert_either. by rewrite Hu.
Qed.

(** ** Where the parser leaves a rule it does not accept *)

(** A month that is out of range is stored before it is checked, and what
    computes the time of change reads its table there.  Up to month 26 the
    read is in the table, if not in the row of the year, in some years. *)
Inductive bad_month : list Z → Prop :=
  | bad_month_intro a s b off c s' e a1 m b1 n c1 d rest :
      name_text a s → offset_text b off → name_text c s' → e = [] ∨ (∃ o, offset_text e o) → num a1 m → num b1 n → num c1 d → 26 < m →
      nul_free rest → (∀ x r, rest = x :: r → isdigit x = false) →
      bad_month (a ++ b ++ c ++ e ++ 44 :: 77 :: a1 ++ 46 :: b1 ++ 46 :: c1 ++ rest).

Lemma parse_bad_month a m b n c d x t st : num a m → num b n → num c d → 12 < m → isdigit x = false →
  ∃ tz, parse_rule (44 :: 77 :: a ++ 46 :: b ++ 46 :: c ++ x :: t) false st = Val ((false, tz), upd false (set_date (DM m n d)) st).
Proof.
  intros Ha Hb Hd Hm Hx. eexists. unfold parse_rule. rewrite (tbind _ _ _ _ _ (hd_val _ _ st)). change (44 =? 44) with true. cbv iota. cbn [tail].
  set (st1 := upd false (set_date (DM m n d)) st).
  assert (parse_date (77 :: a ++ 46 :: b ++ 46 :: c ++ x :: t) false st = Val (None, st1)) as Ed; [|by rewrite (tbind _ _ _ _ _ Ed)].
  unfold parse_date. rewrite (tbind _ _ _ _ _ (hd_val _ _ st)). change ((77 =? 74) || isdigit 77) with false. change (77 =? 77) with true. cbv iota. rewrite (tbind _ _ _ _ _ (on_rule_val _ _ _)).
  assert (scan_M (77 :: a ++ 46 :: b ++ 46 :: c ++ x :: t) false (upd false (with_type M) st) = Val (Some (x :: t), st1)) as Es.
  { unfold scan_M. cbn [tail]. rewrite (tbind _ _ _ _ _ (lift_val _ _ _ (scan_hu_num a m 46 _ Ha eq_refl))), (tbind _ _ _ _ _ (on_rule_val _ _ _)).
    rewrite (tbind _ _ _ _ _ (lift_val _ _ _ (scan_next_num 46 b n 46 _ Hb eq_refl))), (tbind _ _ _ _ _ (on_rule_val _ _ _)).
    rewrite (tbind _ _ _ _ _ (lift_val _ _ _ (scan_next_num 46 c d x t Hd Hx))), (tbind _ _ _ _ _ (on_rule_val _ _ _)). unfold st1. by rewrite !upd_upd. }
  rewrite (tbind _ _ _ _ _ Es). rewrite (tbind _ _ _ _ _ (eq_refl : get_rules st1 = Val (tz_rules st1, st1))). cbn [st1 upd tz_rules rule_of fst set_date with_d with_n with_m with_type r_m r_n r_d].
  rewrite (proj2 (Z.ltb_lt 12 m)) by done. by rewrite orb_true_r.
Qed.

(** The parser gives up, and the month stays. *)
Lemma parse_tz_bad_month cs t st : bad_month cs → Forall (eq true) (answers st) →
  ∃ st', __tzset_parse_tz false (cs ++ 0 :: t) st = Val (tt, st') ∧ use_tzfile st' = use_tzfile st ∧
    r_type (tz_rules st').1 = M ∧ 26 < r_m (tz_rules st').1 ∧ r_computed_for (tz_rules st').1 = 0.
Proof.
  intros Hbad Ha. destruct Hbad as [a s b off c s' e a1 m b1 n c1 d rest Hn Ho Hn' He Hm1 Hn1 Hd1 Hm Hrest Hx].
  unfold __tzset_parse_tz. set (r0 := with_name (Some (Literal [])) blank_rule). set (st0 := TzState (r0, r0) (tzstring_list st) (answers st) (daylight st) (timezone st) (tz_names st) (old_tz st) (is_initialized st) (use_tzfile st)).
  rewrite (tbind _ _ _ _ _ (eq_refl : set_rules (r0, r0) st = Val (tt, st0))). repeat first [rewrite <- app_assoc|progress cbn [app]].
  assert (∃ x1 t1, rest ++ 0 :: t = x1 :: t1 ∧ isdigit x1 = false) as (x1 & t1 & -> & Hx1) by (destruct rest as [|x1 r1]; [by exists 0, t|exists x1, (r1 ++ 0 :: t); split; [done|by eapply Hx]]).
  set (tz2 := 44 :: 77 :: a1 ++ 46 :: b1 ++ 46 :: c1 ++ x1 :: t1). destruct (name_head c s' Hn') as (x & p & -> & Hxt & Hx0). cbn [app].
  destruct (parse_std a s b off x (p ++ e ++ tz2) st0 Hn Ho Hxt Ha) as (nm & l & ans & Hans & _ & E). rewrite E. clear E. cbn [negb]. set (st1 := upd false _ _).
  rewrite (tbind _ _ _ _ _ (hd_val _ _ st1)), (proj2 (Z.eqb_neq _ _) Hx0). change (x :: p ++ e ++ tz2) with ((x :: p) ++ (e ++ tz2)).
  assert (∃ y q, e ++ tz2 = y :: q ∧ alpha y = false) as (y & q & Ey & Hy).
  { destruct He as [->|[o Hoe]]; [by eexists 44, _|]. destruct (offset_head e o Hoe) as (y & q & -> & Hy). by eexists y, _. }
  destruct (parse_tzname_text (x :: p) s' y q true st1 Hn' Hy Hans) as (nm' & l' & ans' & E & _). rewrite <- Ey in E. rewrite (tbind _ _ _ _ _ E). clear E. cbv iota. set (st2 := upd true _ _).
  assert (∃ o, parse_offset (e ++ tz2) true st2 = Val ((true, tz2), upd true (with_offset o) st2)) as (o & Eo).
  { destruct He as [->|[o Hoe]]; [eexists; by apply parse_offset_none; left|]. exists o. by apply parse_offset_text. }
  set (st3 := upd true _ st2) in Eo.
  match goal with |- ∃ st', ?c0 st2 = _ ∧ _ => match c0 with mbind _ ?c1 => assert (c1 st2 = Val ((false, tz2), st3)) as E1 by (by rewrite (tbind _ _ _ _ _ Eo)) end end.
  rewrite (tbind _ _ _ _ _ E1). cbv iota. destruct (parse_bad_month a1 m b1 n c1 d x1 t1 st3) as (tz & Er); [(done || lia)..|]. fold tz2 in Er. rewrite (tbind _ _ _ _ _ Er). eexists. split; [reflexivity|]. done.
Qed.

Lemma compute_change_out r y : r_type r = M → 26 < r_m r → r_computed_for r ≠ y → 1970 <= y <= YEAR_MAX → compute_change r y = Fault.
Proof.
  intros Ht Hm Hc Hy. unfold compute_change. rewrite (proj2 (Z.eqb_neq (r_computed_for r) y)), andb_false_r by done. rewrite january_spec by done. cbn [mbind outcome_bind]. rewrite Ht. cbv zeta.
  assert (∀ leap, mon_yday_at leap (r_m r) (-1) = Fault) as ->; [|done]. intros leap. unfold mon_yday_at. rewrite (proj2 (Z.ltb_ge _ _)) by (destruct leap; lia).
  rewrite (proj2 (lookup_ge_None _ _)); [done|]. cbn [mon_yday app length]. destruct leap; lia.
Qed.

Lemma tbind_fault {A B} (c : T A) (f : A → T B) st : c st = Fault → (c ≫= f) st = Fault.
Proof. intros E. unfold mbind, T_bind. by rewrite E. Qed.

Lemma convert_fault timer st : 0 <= timer < days_before (YEAR_MAX + 1) * 86400 → r_type (tz_rules st).1 = M → 26 < r_m (tz_rules st).1 → r_computed_for (tz_rules st).1 = 0 → tz_convert_local timer st = Fault.
Proof.
  intros Ht Hty Hm Hc. destruct days_known as (EM & E1970 & _). rewrite EM in Ht. destruct (offtime_spec timer 0 0) as (y & d & Ed & Hin & Hoff); [unfold LONG_MIN, LONG_MAX; lia|lia|]. rewrite Z.add_0_r in *.
  assert (1970 <= y < YEAR_MAX + 1) as Hy by (apply (year_between _ _ y d); [rewrite Ed, EM, E1970; euclid|done]).
  rewrite bool_decide_eq_true_2 in Hoff by (unfold int_ok, INT_MIN, INT_MAX, YEAR_MAX in *; lia). destruct Hoff as (tp & Eo & _ & _ & Ey).
  unfold tz_convert_local. rewrite (tbind _ _ _ _ _ (lift_val _ _ st Eo)). apply tbind_fault. unfold __tz_compute. rewrite Ey. replace (1900 + (y - 1900)) with y by lia.
  assert (int y = Val y) as Ei by (unfold int, INT_MIN, INT_MAX, YEAR_MAX in *; by rewrite (proj2 (andb_true_iff _ _)) by (split; lia)).
  rewrite (tbind _ _ _ _ _ (lift_val _ _ st Ei)). rewrite (tbind _ _ _ _ _ (eq_refl : get_rules st = Val (tz_rules st, st))). apply tbind_fault. unfold lift. rewrite compute_change_out; (done || lia).
Qed.

Lemma bad_month_nul_free cs : bad_month cs → nul_free cs.
Proof.
  destruct 1 as [a s b off c s' e a1 m b1 n c1 d rest Hn Ho Hn' He Hm1 Hn1 Hd1 Hm Hrest Hx]. assert (nul_free e) by (destruct He as [->|[o He]]; [constructor|by eapply offset_nul_free]).
  repeat (apply Forall_app_2 || (apply Forall_cons; split; [done|]) || by (eapply name_nul_free; eassumption) || by (eapply offset_nul_free; eassumption) || by (eapply num_nul_free; eassumption) || done).
Qed.

Lemma bad_month_head cs : bad_month cs → ∃ c r, cs = c :: r ∧ c ≠ 0 ∧ c ≠ 58 ∧ c ≠ 47.
Proof.
  destruct 1 as [a s b off c s' e a1 m b1 n c1 d rest Hn]. destruct (name_text_head a s Hn) as (x & r & -> & Hx). by eexists _, _.
Qed.

(** C21. When TZ, with any names and offsets, has a first rule Mm.n.d with a
    month m above 26 (and numbers below 65536), whatever follows it, the rule
    is rejected but the month stays in it, and localtime, called for any time
    from 1970 to the last year compute_change can count (5881459), reads
    outside of the table __mon_yday, of which the two rows are taken as one
    array. There is no data file of that name and none with default rules
    (posixrules), allocations are granted, and the value of TZ is not the one
    that was set last. *)
Theorem bad_month_faults tzfile_convert (file : list Z → bool) (cs t : list Z) (timer : Z) (st : tz_state) :
  bad_month cs → Forall (eq true) (answers st) → changed cs st → file cs = false → 0 <= timer < days_before (YEAR_MAX + 1) * 86400 →
  __tz_convert tzfile_convert file false true (Some (cs ++ 0 :: t)) timer st = Fault.
Proof.
  intros Hb Ha Hc Hf Ht. destruct (bad_month_head cs Hb) as (c & r & Ehd & Hc0 & Hc58 & Hc47).
  destruct (tzset_internal_parse file cs t c r st) as (st1 & E & Ha1 & Hf1); try done; [by apply bad_month_nul_free|].
  destruct (parse_tz_bad_month cs t st1 Hb Ha1) as (st' & Ep & Hu & H1 & H2 & H3). unfold __tz_convert. rewrite Ep in E. rewrite (tbind _ _ _ _ _ E). unfold tz_convert_either. rewrite Hu, Hf1. by apply convert_fault.
Qed.

Definition tz_blank : tz_state := TzState (blank_rule, blank_rule) [] [] 0 0 (None, None) None false false.


Lemma bad_month_faults_witness : __tz_convert (λ _, mret (inr 0)) (λ _, false) false true (Some ($"CET-1CEST,M77.1.0,M10.5.0" ++ [0])) 0 tz_blank = Fault.
Proof.
  apply (bad_month_faults (λ _, mret (inr 0)) (λ _, false) $"CET-1CEST,M77.1.0,M10.5.0" [] 0 tz_blank); [|constructor|done|done|destruct days_known as (-> & _); lia].
  apply (bad_month_intro $"CET" $"CET" $"-1" 3600 $"CEST" $"CEST" [] $"77" 77 $"1" 1 $"0" 0 $",M10.5.0"); [|..|lia| |].
  - apply nt_alpha; [by repeat constructor|cbn; lia].
  - apply (ot_minus $"1" 3600), (ct_h $"1" 1); [num_lit [1]|lia].
  - apply nt_alpha; [by repeat constructor|cbn; lia].
  - by left.
  - num_lit [7; 7].
  - num_lit [1].
  - num_lit [0].
  - by repeat constructor.
  - by intros x r [= <- _].
Defined.
End TzParse.
