(* ===== verification/Gconv.v ===== *)
(** * Character sets: the loops of [iconv/gconv_simple.c]

    [iconv/loop.c] is a loop around a body that converts one character to or
    from the internal format, 32-bit words; here it is a function of the body.
    The bodies are those for ISO 646 (ASCII), UTF-8 and UCS-2 in both byte
    orders.  Transliteration is off.  A buffer is the list of the bytes that
    are left, or the bytes written and the room that is left. *)

From S2P Require Import Prelude Digest.
Local Open Scope Z_scope.

Module Gconv.
Import Digest.

(** The results of [gconv.h] that the loops give. *)
Inductive gconv_status : Type := GCONV_OK | GCONV_EMPTY_INPUT | GCONV_FULL_OUTPUT | GCONV_ILLEGAL_INPUT | GCONV_INCOMPLETE_INPUT.

#[export] Instance gconv_status_eq_dec : EqDecision gconv_status.
Proof. solve_decision. Defined.

(** What a round of the loop does: it stores bytes and steps over the
    character; it stops; it runs one of the two error handlers, or ends the
    round some other way, with the length to step over. *)
Inductive step : Type :=
  | Emit (o : list Z) (n : nat)
  | Break (r : gconv_status)
  | FromErr (n : nat)
  | ToErr (n : nat)
  | Skip (n : nat)
  | Silent (n : nat).

(** [irreversible] points to a count or is null. *)
Record out_state : Type := OutState { written : list Z; room : nat; irreversible : option Z }.

Section Loop.
Context (min_in min_out : nat) (body : list Z → nat → outcome step) (ignore_errors : bool).

Definition ignore_errors_p (st : out_state) : bool := bool_decide (is_Some (irreversible st)) && ignore_errors.
Definition count_error (st : out_state) : out_state := OutState (written st) (room st) (Z.add 1 <$> irreversible st).

Fixpoint convert_loop (fuel : nat) (result : gconv_status) (inp : list Z) (st : out_state) : outcome (gconv_status * list Z * out_state) :=
  match inp with
  | [] => Val (result, [], st)
  | _ =>
      if (length inp <? min_in)%nat then Val (GCONV_INCOMPLETE_INPUT, inp, st) else
      if (room st <? min_out)%nat then Val (GCONV_FULL_OUTPUT, inp, st) else
      match fuel with
      | O => NoFuel
      | S fuel =>
          s ← body inp (room st);
          match s with
          | Emit o n =>
              if (room st <? length o)%nat then Fault else
              convert_loop fuel result (drop n inp) (OutState (written st ++ o) (room st - length o) (irreversible st))
          | Break r => Val (r, inp, st)
          | FromErr n | ToErr n =>
              if ignore_errors_p st then convert_loop fuel GCONV_ILLEGAL_INPUT (drop n inp) (count_error st) else Val (GCONV_ILLEGAL_INPUT, inp, st)
          | Skip n => convert_loop fuel result (drop n inp) st
          | Silent n => if ignore_errors_p st then convert_loop fuel result (drop n inp) (count_error st) else Val (GCONV_ILLEGAL_INPUT, inp, st)
          end
      end
  end.

(** The whole function, on the input and the output buffer. *)
Definition LOOPFCT (inp : list Z) (st : out_state) : outcome (gconv_status * list Z * out_state) := convert_loop (length inp) GCONV_EMPTY_INPUT inp st.
End Loop.

(** A word and a half word of the input. *)
Definition word (inp : list Z) : Z := le_word (take 4 inp).
Definition get16 (inp : list Z) : Z := le_word (take 2 inp).

(** [UNICODE_TAG_HANDLER (c, 4)], then the handler for characters that are
    not there. *)
Definition tag_or_err (c : Z) : step := if Z.shiftr c 7 =? Z.shiftr 917504 7 then Skip 4 else ToErr 4.

(** ** ISO 646 *)

Definition ascii_internal_body (inp : list Z) (_ : nat) : outcome step :=
  c ← deref (head inp);
  Val (if 127 <? c then FromErr 1 else Emit (le_bytes 4 c) 1).

Definition internal_ascii_body (inp : list Z) (_ : nat) : outcome step :=
  let c := word inp in
  Val (if 127 <? c then tag_or_err c else Emit [c] 4).

(** ** UTF-8 *)

(** [for (step = 2; step < 6; ++step)], from [step] on, [k] rounds. *)
Fixpoint find_step (k : nat) (step wc : Z) : Z :=
  match k with
  | O => step
  | S k => if Z.land wc (wrapu 32 (Z.shiftl 4294967295 (5 * step + 1))) =? 0 then step else find_step k (step + 1) wc
  end.

(** The bytes after the first, from the last one back, and what is left of
    the character. *)
Fixpoint put_tail (k : nat) (wc : Z) (acc : list Z) : list Z * Z :=
  match k with
  | O => (acc, wc)
  | S k => put_tail k (Z.shiftr wc 6) (Z.lor 128 (Z.land wc 63) :: acc)
  end.

Definition internal_utf8_body (inp : list Z) (room : nat) : outcome step :=
  let wc := word inp in
  Val (if wc <? 128 then Emit [wc] 4
       else if (wc <=? 2147483647) && ((wc <? 55296) || (57343 <? wc)) then
         let step := find_step 4 2 wc in
         if Z.of_nat room <? step then Break GCONV_FULL_OUTPUT else
         let first := wrapu 8 (Z.shiftr (Z.lnot 255) step) in
         let '(rest, wc) := put_tail (Z.to_nat (step - 1)) wc [] in
         Emit (Z.lor first wc :: rest) 4
       else ToErr 4).

(** The number of bytes that the first one announces, and its part of the
    character. *)
Definition lead (ch : Z) : option (nat * Z) :=
  if (194 <=? ch) && (ch <? 224) then Some (2%nat, Z.land ch 31)
  else if Z.land ch 240 =? 224 then Some (3%nat, Z.land ch 15)
  else if Z.land ch 248 =? 240 then Some (4%nat, Z.land ch 7)
  else if Z.land ch 252 =? 248 then Some (5%nat, Z.land ch 3)
  else if Z.land ch 254 =? 252 then Some (6%nat, Z.land ch 1)
  else None.

Definition trailing (b : Z) : bool := Z.land b 192 =? 128.

(** How many of the first [k] bytes are trailing ones, up to the first that
    is not. *)
Fixpoint count_trailing (k : nat) (l : list Z) : nat :=
  match k, l with
  | S k, b :: l => if trailing b then S (count_trailing k l) else O
  | _, _ => O
  end.

(** [for (i = 1; i < cnt; ++i)]: [i] and the character. *)
Fixpoint read_trailing (k : nat) (i : nat) (ch : Z) (l : list Z) : outcome (nat * Z) :=
  match k with
  | O => Val (i, ch)
  | S k =>
      byte ← deref (head l);
      if negb (trailing byte) then Val (i, ch) else read_trailing k (S i) (Z.lor (wrapu 32 (Z.shiftl ch 6)) (Z.land byte 63)) (tail l)
  end.

Definition utf8_internal_body (inp : list Z) (_ : nat) : outcome step :=
  ch ← deref (head inp);
  if ch <? 128 then Val (Emit (le_bytes 4 ch) 1) else
  match lead ch with
  | None => Val (FromErr (1 + count_trailing 4 (tail inp)))
  | Some (cnt, ch) =>
      if (length inp <? cnt)%nat then
        let i := S (count_trailing (length inp) (tail inp)) in
        Val (if (i =? length inp)%nat then Break GCONV_INCOMPLETE_INPUT else FromErr i)
      else
        '(i, ch) ← read_trailing (cnt - 1) 1 ch (tail inp);
        if (i <? cnt)%nat || ((2 <? cnt)%nat && (Z.shiftr ch (5 * Z.of_nat cnt - 4) =? 0)) || ((55296 <=? ch) && (ch <=? 57343)) then Val (FromErr i)
        else Val (Emit (le_bytes 4 ch) cnt)
  end.

(** [mbstate_t]: [__count] and [__value.__wch]. *)
Record mbstate_t : Type := MbState { count : Z; wch : Z }.

(** [STORE_REST]: the bytes of a character that is not complete, kept in the
    conversion state. *)
Fixpoint store_trailing (ch : Z) (r : Z) (l : list Z) : Z * Z :=
  match l with
  | [] => (ch, r)
  | b :: l => store_trailing (Z.lor (wrapu 32 (Z.shiftl ch 6)) (Z.land b 63)) (r - 1) l
  end.

Definition STORE_REST (inp : list Z) : outcome mbstate_t :=
  ch ← deref (head inp);
  if (ch =? 192) || (ch =? 193) then Fault else
  let '(cnt, ch) :=
    if (194 <=? ch) && (ch <? 224) then (2, Z.land ch 31)
    else if Z.land ch 240 =? 224 then (3, Z.land ch 15)
    else if Z.land ch 248 =? 240 then (4, Z.land ch 7)
    else if Z.land ch 252 =? 248 then (5, Z.land ch 3)
    else (6, Z.land ch 1) in
  let '(ch, r) := store_trailing ch (cnt - 1) (tail inp) in
  Val (MbState (Z.lor (Z.of_nat (length inp)) (Z.shiftl cnt 8)) (wrapu 32 (Z.shiftl ch (r * 6)))).

(** [UNPACK_BYTES]: the bytes from the last of the character back; those that
    are not there yet are left out.  [bytebuf] up to [inlen] is set only when
    [inlen] is not over the length of the character. *)
Fixpoint unpack_tail (ntotal : nat) (inlen : nat) (wch : Z) (acc : list Z) : list Z * Z :=
  match ntotal with
  | O => (acc, wch)
  | S k => unpack_tail k inlen (Z.shiftr wch 6) (if (S k <? inlen)%nat then Z.lor 128 (Z.land wch 63) :: acc else acc)
  end.

Definition inmask : list Z := [192; 224; 240; 248; 252].

Definition UNPACK_BYTES (state : mbstate_t) : outcome (list Z) :=
  let ntotal := Z.shiftr (count state) 8 in
  let inlen := Z.land (count state) 255 in
  if (ntotal <? 2) || (ntotal <? inlen) || (inlen <? 1) then Fault else
  first ← deref (inmask !! Z.to_nat (ntotal - 2));
  let '(rest, wch) := unpack_tail (Z.to_nat (ntotal - 1)) (Z.to_nat inlen) (wch state) [] in
  Val (Z.lor first wch :: rest).

(** [SINGLE (utf8_internal_loop)]: one character, the first bytes of which are
    in the state.  The [do] loop reads a byte before it looks at [inend]. *)
Definition utf8_internal_loop_single (ignore_errors : bool) (state : mbstate_t) (inp : list Z) (st : out_state)
    : outcome (gconv_status * list Z * out_state * mbstate_t) :=
  buf ← UNPACK_BYTES state;
  if (room st <? 4)%nat then Val (GCONV_FULL_OUTPUT, inp, st, state) else
  if (6 <=? length buf)%nat then Fault else
  if bool_decide (inp = []) then Fault else
  let bytebuf := buf ++ take (6 - length buf) inp in
  let kept := Z.to_nat (Z.land (count state) 7) in
  let found n st := if (n <=? kept)%nat then Fault else Val (GCONV_OK, drop (n - kept) inp, st, MbState 0 (wch state)) in
  let failed n := if ignore_errors_p ignore_errors st then found n (count_error st) else Val (GCONV_ILLEGAL_INPUT, inp, st, state) in
  s ← utf8_internal_body bytebuf (room st);
  match s with
  | Emit o n => if (room st <? length o)%nat then Fault else found n (OutState (written st ++ o) (room st - length o) (irreversible st))
  | Break GCONV_INCOMPLETE_INPUT =>
      if (length bytebuf =? 6)%nat then Fault else
      state' ← STORE_REST bytebuf;
      Val (GCONV_INCOMPLETE_INPUT, drop (length bytebuf - kept) inp, st, state')
  | Break r => Val (r, inp, st, state)
  | Skip n => found n st
  | FromErr n | ToErr n | Silent n => failed n
  end.

(** [__gconv_transform_utf8_internal] as the last step, not flushing. *)
Definition utf8_internal_loop (ignore_errors : bool) : list Z → out_state → outcome (gconv_status * list Z * out_state) :=
  LOOPFCT 1 4 utf8_internal_body ignore_errors.

Definition gconv_transform_utf8_internal (ignore_errors consume_incomplete : bool) (state : mbstate_t) (inp : list Z) (st : out_state)
    : outcome (gconv_status * list Z * out_state * mbstate_t) :=
  '(status, inp, st, state) ←
    (if consume_incomplete && negb (Z.land (count state) 7 =? 0) then utf8_internal_loop_single ignore_errors state inp st
     else Val (GCONV_OK, inp, st, state));
  if negb (bool_decide (status = GCONV_OK)) then Val (status, inp, st, state) else
  '(status, inp, st) ← utf8_internal_loop ignore_errors inp st;
  if consume_incomplete && bool_decide (status = GCONV_INCOMPLETE_INPUT) then
    state' ← STORE_REST inp;
    Val (status, [], st, state')
  else Val (status, inp, st, state).

(** [mbrtowc] where the character set of the locale is UTF-8: the result,
    whether [errno] is set to [EILSEQ], the bytes stored in the [wchar_t], and
    the state.  The input is [n] bytes from [s]; [None] is a null [s]. *)
Definition mbrtowc (state : mbstate_t) (s : option (list Z)) : outcome (Z * bool * list Z * mbstate_t) :=
  let s := default [0] s in
  if bool_decide (s = []) then Val (wrapu 64 (-2), false, [], state) else
  '(status, rest, st, state) ← gconv_transform_utf8_internal false true state s (OutState [] 4 (Some 0));
  match status with
  | GCONV_OK | GCONV_EMPTY_INPUT | GCONV_FULL_OUTPUT =>
      if negb (bool_decide (written st = [])) && (le_word (written st) =? 0) then
        if count state =? 0 then Val (0, false, written st, state) else Fault
      else Val (Z.of_nat (length s - length rest), false, written st, state)
  | GCONV_INCOMPLETE_INPUT => Val (wrapu 64 (-2), false, written st, state)
  | GCONV_ILLEGAL_INPUT => Val (wrapu 64 (-1), true, written st, state)
  end.

(** ** UCS-2 *)

Definition ucs2_internal_body (inp : list Z) (_ : nat) : outcome step :=
  let u1 := get16 inp in
  Val (if (55296 <=? u1) && (u1 <? 57344) then FromErr 2 else Emit (le_bytes 4 u1) 2).

Definition internal_ucs2_body (inp : list Z) (_ : nat) : outcome step :=
  let val := word inp in
  Val (if 65536 <=? val then tag_or_err val
       else if (55296 <=? val) && (val <? 57344) then FromErr 4
       else Emit (le_bytes 2 val) 4).

Definition ucs2reverse_internal_body (inp : list Z) (_ : nat) : outcome step :=
  let u1 := bswap 2 (get16 inp) in
  Val (if (55296 <=? u1) && (u1 <? 57344) then Silent 2 else Emit (le_bytes 4 u1) 2).

Definition internal_ucs2reverse_body (inp : list Z) (_ : nat) : outcome step :=
  let val := word inp in
  Val (if 65536 <=? val then tag_or_err val
       else if (55296 <=? val) && (val <? 57344) then Silent 4
       else Emit (le_bytes 2 (bswap 2 val)) 4).
End Gconv.
