(* ===== verification/GconvUtf8.v ===== *)
(** * UTF-8: the bytes of a character, and the bodies of the two loops

    [utf8 c] is the encoding of RFC 2279, of one to six bytes.  The lemmas say
    that the body that encodes writes it, that the body that decodes reads it
    and accepts nothing else, and that the bytes kept between two calls are
    the bytes read so far. *)

From S2P Require Import Prelude Digest Gconv.
Local Open Scope Z_scope.

Module GconvUtf8.
Import Digest Gconv.

(** ** The encoding *)

(** The characters: 31 bits, and no surrogates. *)
Definition scalar (c : Z) : Prop := 0 <= c <= 2147483647 ∧ ¬ 55296 <= c <= 57343.

#[export] Instance scalar_dec c : Decision (scalar c).
Proof. unfold scalar. apply _. Defined.

Definition utf8_size (c : Z) : nat :=
  if c <? 2 ^ 7 then 1 else if c <? 2 ^ 11 then 2 else if c <? 2 ^ 16 then 3 else if c <? 2 ^ 21 then 4 else if c <? 2 ^ 26 then 5 else 6.

(** The marker bits of the first byte of [n]. *)
Definition mark (n : nat) : Z := 256 - 2 ^ (8 - Z.of_nat n).

(** The [k] trailing bytes: six bits each, the highest first. *)
Fixpoint tails (k : nat) (c : Z) : list Z :=
  match k with
  | O => []
  | S k => (128 + (c / 64 ^ Z.of_nat k) mod 64) :: tails k c
  end.

Definition utf8 (c : Z) : list Z :=
  match utf8_size c with
  | S (S k) as n => (mark n + c / 64 ^ Z.of_nat (S k)) :: tails (S k) c
  | _ => [c]
  end.

(** Bytes that begin a character and do not end it. *)
Definition incomplete (l : list Z) : Prop :=
  ∃ b l' cnt m, l = b :: l' ∧ lead b = Some (cnt, m) ∧ (length l < cnt)%nat ∧ Forall (λ b, trailing b = true) l'.

(** ** Trailing bytes *)

Lemma tails_length k c : length (tails k c) = k.
Proof. induction k as [|k IH]; cbn; [done|]. by rewrite IH. Qed.

Lemma pow64_S k : 64 ^ Z.of_nat (S k) = 64 * 64 ^ Z.of_nat k.
Proof. rewrite Nat2Z.inj_succ, Z.pow_succ_r by lia. done. Qed.

Lemma pow64_pos k : 0 < 64 ^ Z.of_nat k.
Proof. apply Z.pow_pos_nonneg; lia. Qed.

Lemma tails_snoc k c : tails (S k) c = tails k (c / 64) ++ [128 + c mod 64].
Proof.
  induction k as [|k IH]; [cbn; by rewrite Z.div_1_r|].
  change (tails (S (S k)) c) with ((128 + c / 64 ^ Z.of_nat (S k) mod 64) :: tails (S k) c). rewrite IH.
  cbn [tails app]. do 3 f_equal. rewrite pow64_S, Z.div_div by (pose proof (pow64_pos k); lia). done.
Qed.

(** Only the low bits matter. *)
Lemma tails_high k a c : tails k (a * 64 ^ Z.of_nat k + c) = tails k c.
Proof.
  revert a; induction k as [|k IH]; intros a; [done|]. cbn [tails]. pose proof (pow64_pos k). f_equal.
  - f_equal. rewrite pow64_S. replace (a * (64 * 64 ^ Z.of_nat k) + c) with (c + (a * 64) * 64 ^ Z.of_nat k) by lia.
    rewrite Z.div_add by lia. by rewrite Z.mod_add by lia.
  - rewrite pow64_S. replace (a * (64 * 64 ^ Z.of_nat k)) with ((64 * a) * 64 ^ Z.of_nat k) by lia. apply IH.
Qed.

(** Finite checks over the bytes. *)
Lemma byte_check (P : Z → Prop) : Forall P (seqZ 0 256) → ∀ b, 0 <= b < 256 → P b.
Proof. intros F b Hb. rewrite Forall_forall in F. apply F, elem_of_seqZ. lia. Qed.

Lemma trailing_spec b : 0 <= b < 256 → trailing b = true → 128 <= b < 192 ∧ Z.land b 63 = b - 128.
Proof.
  revert b. apply (byte_check (λ b, trailing b = true → 128 <= b < 192 ∧ Z.land b 63 = b - 128)).
  apply (bool_decide_unpack _). by vm_compute.
Qed.

Lemma trailing_tail x : 0 <= x < 64 → trailing (128 + x) = true.
Proof.
  intros Hx. assert (Forall (λ x, trailing (128 + x) = true) (seqZ 0 64)) as F by (apply (bool_decide_unpack _); by vm_compute).
  rewrite Forall_forall in F. apply F, elem_of_seqZ. lia.
Qed.

Lemma tails_trailing k c : Forall (λ b, trailing b = true) (tails k c).
Proof. induction k as [|k IH]; constructor; [|done]. apply trailing_tail, Z.mod_pos_bound. lia. Qed.

Lemma tails_ok k c : bytes_ok (tails k c).
Proof. induction k as [|k IH]; constructor; [|done]. pose proof (Z.mod_pos_bound (c / 64 ^ Z.of_nat k) 64). lia. Qed.

(** The value of trailing bytes. *)
Definition tail_value (l : list Z) : Z := foldl (λ v b, v * 64 + (b - 128)) 0 l.

Lemma tail_fold l v : foldl (λ v b, v * 64 + (b - 128)) v l = v * 64 ^ Z.of_nat (length l) + tail_value l.
Proof.
  unfold tail_value. revert v. induction l as [|b l IH]; intros v; cbn [foldl length]; [cbn; lia|].
  rewrite IH, (IH (0 * 64 + _)), pow64_S. lia.
Qed.

Lemma tail_value_cons b l : tail_value (b :: l) = (b - 128) * 64 ^ Z.of_nat (length l) + tail_value l.
Proof. unfold tail_value at 1. cbn [foldl]. rewrite tail_fold. lia. Qed.

Lemma tail_value_tails k c : 0 <= c → tail_value (tails k c) = c mod 64 ^ Z.of_nat k.
Proof.
  intros Hc. induction k as [|k IH]; [by rewrite Z.mod_1_r|]. cbn [tails]. pose proof (pow64_pos k).
  rewrite tail_value_cons, tails_length, IH, pow64_S, (Z.mul_comm 64), Z.rem_mul_r by lia. ring.
Qed.

(** Trailing bytes are those of their value. *)
Lemma tails_value l : bytes_ok l → Forall (λ b, trailing b = true) l → 0 <= tail_value l < 64 ^ Z.of_nat (length l) ∧ tails (length l) (tail_value l) = l.
Proof.
  induction l as [|b l IH]; intros Hok Ht; [by cbn|]. inversion Hok; inversion Ht; subst. destruct IH as [Hv E]; [done..|].
  destruct (trailing_spec b) as [Hb _]; [done..|]. rewrite tail_value_cons. pose proof (pow64_pos (length l)). split.
  - cbn [length]. rewrite pow64_S. nia.
  - cbn [length tails]. rewrite tails_high, E. f_equal.
    rewrite Z.div_add_l, (Z.div_small (tail_value l)), Z.add_0_r, Z.mod_small by lia. lia.
Qed.

(** Appending six bits. *)
Lemma push_bits v b : 0 <= v → v * 64 + 64 <= 2 ^ 32 → 0 <= b < 256 → trailing b = true →
  Z.lor (wrapu 32 (Z.shiftl v 6)) (Z.land b 63) = v * 64 + (b - 128).
Proof.
  intros Hv Hb Hr Ht. destruct (trailing_spec b) as [? ->]; [done..|]. rewrite Z.shiftl_mul_pow2 by lia.
  rewrite wrapu_small by lia. apply (lor_low 6); lia.
Qed.

(** ** First bytes *)

Lemma lead_spec b cnt m : 0 <= b < 256 → lead b = Some (cnt, m) →
  (2 <= cnt <= 6)%nat ∧ b = mark cnt + m ∧ 0 <= m < 2 ^ (7 - Z.of_nat cnt) ∧ (cnt = 2%nat → 2 <= m).
Proof.
  intros Hb E. revert b Hb E.
  set (d := λ b, default (2%nat, 2) (lead b)).
  assert (∀ b, 0 <= b < 256 → lead b = None ∨ ((2 <= (d b).1 <= 6)%nat ∧ b = mark (d b).1 + (d b).2 ∧
    0 <= (d b).2 < 2 ^ (7 - Z.of_nat (d b).1) ∧ ((d b).1 ≠ 2%nat ∨ 2 <= (d b).2))) as H.
  { apply byte_check. apply (bool_decide_unpack _). by vm_compute. }
  intros b Hb E. unfold d in H. destruct (H b Hb) as [N|N]; rewrite E in N; [done|]. cbn in N. intuition.
Qed.

Lemma lead_mark n m : (2 <= n <= 6)%nat → 0 <= m < 2 ^ (7 - Z.of_nat n) → (n = 2%nat → 2 <= m) → lead (mark n + m) = Some (n, m).
Proof.
  intros Hn Hm H2.
  assert (Forall (λ n, Forall (λ m, n = 2%nat ∧ m < 2 ∨ lead (mark n + m) = Some (n, m)) (seqZ 0 (2 ^ (7 - Z.of_nat n)))) (seq 2 5)) as F.
  { apply (bool_decide_unpack _). by vm_compute. }
  rewrite Forall_forall in F. specialize (F n). rewrite elem_of_seq, Forall_forall in F.
  destruct (F ltac:(lia) m) as [[? ?]|]; [rewrite elem_of_seqZ; lia|specialize (H2 ltac:(done)); lia|done].
Qed.

Lemma mark_lead_big n m : (2 <= n <= 6)%nat → 0 <= m < 2 ^ (7 - Z.of_nat n) → 192 <= mark n + m < 256.
Proof. intros Hn Hm. destruct n as [|[|[|[|[|[|[|n]]]]]]]; try lia; unfold mark; cbn in *; lia. Qed.

(** The numbers that a length allows. *)
Definition fits (cnt : nat) (m v : Z) : Prop :=
  (2 <= cnt <= 6)%nat ∧ 0 <= m < 2 ^ (7 - Z.of_nat cnt) ∧ 0 <= v < 64 ^ Z.of_nat (cnt - 1) ∧ (cnt = 2%nat → 2 <= m)
  ∧ ((2 < cnt)%nat → 2 ^ (5 * Z.of_nat cnt - 4) <= m * 64 ^ Z.of_nat (cnt - 1) + v).

Ltac lengths cnt := destruct cnt as [|[|[|[|[|[|[|cnt]]]]]]]; try lia.

(** Closed powers are numbers. *)
Ltac powers :=
  repeat match goal with
  | |- context [?a ^ ?e] => let v := eval vm_compute in (a ^ e) in match v with Zpos _ => change (a ^ e) with v end
  | H : context [?a ^ ?e] |- _ => let v := eval vm_compute in (a ^ e) in match v with Zpos _ => change (a ^ e) with v in H end
  end.

Ltac sizes := unfold utf8_size; powers; repeat case_match; try lia.

Lemma fits_size cnt m v : fits cnt m v → utf8_size (m * 64 ^ Z.of_nat (cnt - 1) + v) = cnt.
Proof.
  intros (Hn & Hm & Hv & H2 & Hb). unfold utf8_size.
  lengths cnt; cbn [Nat.sub] in *; sizes.
Qed.

Lemma fits_utf8 cnt m v : fits cnt m v → utf8 (m * 64 ^ Z.of_nat (cnt - 1) + v) = (mark cnt + m) :: tails (cnt - 1) v.
Proof.
  intros F. pose proof (fits_size _ _ _ F) as E. destruct F as (Hn & Hm & Hv & _). pose proof (pow64_pos (cnt - 1)).
  unfold utf8. rewrite E. destruct cnt as [|[|k]]; [lia..|]. replace (S (S k) - 1)%nat with (S k) in * by lia.
  rewrite tails_high, Z.div_add_l, (Z.div_small v) by lia. by rewrite Z.add_0_r.
Qed.

Lemma utf8_size_cases c : 128 <= c <= 2147483647 →
  let n := utf8_size c in (2 <= n <= 6)%nat ∧ c < 2 ^ (5 * Z.of_nat n + 1) ∧ (n = 2%nat ∨ 2 ^ (5 * Z.of_nat n - 4) <= c).
Proof. intros Hc. cbv zeta. unfold utf8_size. repeat case_match; powers; lia. Qed.

Lemma fits_exists c : 128 <= c <= 2147483647 → ∃ cnt m v, fits cnt m v ∧ c = m * 64 ^ Z.of_nat (cnt - 1) + v.
Proof.
  intros Hc. pose proof (utf8_size_cases c Hc) as (Hn & Hlt & Hge). set (cnt := utf8_size c) in *. clearbody cnt.
  exists cnt, (c / 64 ^ Z.of_nat (cnt - 1)), (c mod 64 ^ Z.of_nat (cnt - 1)). unfold fits.
  pose proof (pow64_pos (cnt - 1)). rewrite (Z.mul_comm (c / _)), <- Z_div_mod_eq_full.
  split_and!; try lia; try (apply Z.div_pos; lia); try (apply Z.mod_pos_bound; lia).
  - apply Z.div_lt_upper_bound; [lia|]. lengths cnt; cbn [Nat.sub] in *; powers; lia.
  - intros ->. cbn [Nat.sub] in *. powers. apply Z.div_le_lower_bound; lia.
Qed.

(** ** The body that decodes *)

Lemma read_trailing_all k i ch l t : 0 <= ch → (ch + 1) * 64 ^ Z.of_nat k <= 2 ^ 32 → length l = k → bytes_ok l → Forall (λ b, trailing b = true) l →
  read_trailing k i ch (l ++ t) = Val ((i + k)%nat, ch * 64 ^ Z.of_nat k + tail_value l).
Proof.
  revert i ch l. induction k as [|k IH]; intros i ch l Hc Hb Hl Hok Ht.
  - destruct l; [|done]. cbn. repeat f_equal; lia.
  - destruct l as [|b l]; [done|]. apply Forall_cons in Hok as [Hb0 Hok], Ht as [Ht0 Ht]. injection Hl as Hl. pose proof (pow64_pos k). rewrite pow64_S in Hb.
    destruct (trailing_spec b) as [Hb' _]; [done..|].
    cbn [app read_trailing head tail deref]. cbn [mbind outcome_bind]. rewrite Ht0. cbn [negb]. rewrite push_bits by (done || nia).
    rewrite IH by (done || nia). rewrite tail_value_cons, pow64_S, Hl. do 2 f_equal; [lia|ring].
Qed.

Lemma read_trailing_some k i ch l : (k <= length l)%nat → ∃ j v, (j <= k)%nat ∧ read_trailing k i ch l = Val ((i + j)%nat, v) ∧ Forall (λ b, trailing b = true) (take j l).
Proof.
  revert i ch l. induction k as [|k IH]; intros i ch l Hl; [exists O, ch; rewrite Nat.add_0_r; by repeat constructor|].
  destruct l as [|b l]; [cbn in Hl; lia|]. cbn [read_trailing head tail deref take]. cbn [mbind outcome_bind].
  destruct (trailing b) eqn:E; cbn [negb]; [|exists O, ch; rewrite Nat.add_0_r; split_and!; [lia|done|constructor]].
  destruct (IH (S i) (Z.lor (wrapu 32 (Z.shiftl ch 6)) (Z.land b 63)) l) as (j & v & Hj & -> & HF); [cbn in Hl; lia|].
  exists (S j), v. split_and!; [lia|do 2 f_equal; lia|]. by constructor.
Qed.

Lemma count_trailing_le k l : (count_trailing k l <= k)%nat ∧ (count_trailing k l <= length l)%nat.
Proof. revert l; induction k as [|k IH]; intros [|b l]; cbn; try lia. case_match; [|lia]. specialize (IH l). lia. Qed.

Lemma count_trailing_take k l : Forall (λ b, trailing b = true) (take (count_trailing k l) l).
Proof. revert l; induction k as [|k IH]; intros [|b l]; cbn; [constructor..|]. destruct (trailing b) eqn:E; constructor; [done|apply IH]. Qed.

Lemma count_trailing_all k l : (length l <= k)%nat → count_trailing k l = length l ↔ Forall (λ b, trailing b = true) l.
Proof.
  revert l; induction k as [|k IH]; intros [|b l] Hl; cbn in *; try (split; [by constructor|done]); [lia|].
  rewrite Forall_cons, <- IH by lia. destruct (trailing b); naive_solver lia.
Qed.

(** A first byte, and enough trailing ones. *)
Lemma fits_read cnt m l t : (2 <= cnt <= 6)%nat → 0 <= m < 2 ^ (7 - Z.of_nat cnt) → length l = (cnt - 1)%nat → bytes_ok l → Forall (λ b, trailing b = true) l →
  read_trailing (cnt - 1) 1 m (l ++ t) = Val (cnt, m * 64 ^ Z.of_nat (cnt - 1) + tail_value l).
Proof.
  intros Hn Hm Hl Hok Ht. rewrite read_trailing_all by (first [done | lia | lengths cnt; cbn [Nat.sub] in *; powers; lia]).
  do 2 f_equal. lia.
Qed.

Lemma fits_long cnt m v : (2 <= cnt <= 6)%nat → 0 <= m < 2 ^ (7 - Z.of_nat cnt) → 0 <= v < 64 ^ Z.of_nat (cnt - 1) → (cnt = 2%nat → 2 <= m) →
  ((2 <? cnt)%nat && (Z.shiftr (m * 64 ^ Z.of_nat (cnt - 1) + v) (5 * Z.of_nat cnt - 4) =? 0) = false ↔ fits cnt m v)
  ∧ m * 64 ^ Z.of_nat (cnt - 1) + v <= 2147483647.
Proof.
  intros Hn Hm Hv H2. pose proof (pow64_pos (cnt - 1)). split.
  - assert (0 < 2 ^ (5 * Z.of_nat cnt - 4)) by (apply Z.pow_pos_nonneg; lia).
    rewrite Z.shiftr_div_pow2 by lia. rewrite andb_false_iff, Nat.ltb_ge, Z.eqb_neq, Z.div_small_iff by lia. unfold fits.
    split; [intros [?|?]; split_and!; try done; lia|]. intros (_ & _ & _ & _ & Hb). destruct (decide (2 < cnt)%nat); [|lia]. right. specialize (Hb ltac:(done)). lia.
  - lengths cnt; cbn [Nat.sub] in *; powers; lia.
Qed.

Lemma surrogate_test c : (55296 <=? c) && (c <=? 57343) = false ↔ ¬ 55296 <= c <= 57343.
Proof. rewrite andb_false_iff, !Z.leb_gt. lia. Qed.

Lemma utf8_ascii c : c < 128 → utf8 c = [c].
Proof. intros Hc. unfold utf8, utf8_size. destruct (Z.ltb_spec c (2 ^ 7)); [done|lia]. Qed.

(** The body on a first byte that announces [cnt]. *)
Lemma body_lead b cnt m l room : 128 <= b < 256 → lead b = Some (cnt, m) → bytes_ok l →
  utf8_internal_body (b :: l) room =
    if (S (length l) <? cnt)%nat then Val (if (S (count_trailing (S (length l)) l) =? S (length l))%nat then Break GCONV_INCOMPLETE_INPUT else FromErr (S (count_trailing (S (length l)) l)))
    else '(i, ch) ← read_trailing (cnt - 1) 1 m l;
      if (i <? cnt)%nat || ((2 <? cnt)%nat && (Z.shiftr ch (5 * Z.of_nat cnt - 4) =? 0)) || ((55296 <=? ch) && (ch <=? 57343)) then Val (FromErr i)
      else Val (Emit (le_bytes 4 ch) cnt).
Proof.
  intros Hb El Hok. unfold utf8_internal_body. cbn [head tail deref length]. cbn [mbind outcome_bind].
  destruct (Z.ltb_spec b 128); [lia|]. by rewrite El.
Qed.

Lemma decode_utf8 c t room : scalar c → utf8_internal_body (utf8 c ++ t) room = Val (Emit (le_bytes 4 c) (length (utf8 c))).
Proof.
  intros [Hc Hs]. destruct (decide (c < 128)) as [Hlt|Hge].
  { rewrite utf8_ascii by done. unfold utf8_internal_body. cbn. destruct (Z.ltb_spec c 128); [done|lia]. }
  destruct (fits_exists c) as (cnt & m & v & F & E); [lia|]. rewrite E, fits_utf8 by done. rewrite E in Hc, Hs. destruct F as (Hn & Hm & Hv & H2 & Hb).
  cbn [length]. rewrite tails_length. pose proof (mark_lead_big cnt m Hn Hm). unfold utf8_internal_body.
  cbn [app head tail deref]. cbn [mbind outcome_bind]. destruct (Z.ltb_spec (mark cnt + m) 128); [lia|]. rewrite lead_mark by done.
  cbn [length]. rewrite length_app, tails_length. destruct (Nat.ltb_spec (S (cnt - 1 + length t)) cnt); [lia|].
  rewrite fits_read, tail_value_tails, Z.mod_small by (done || lia || apply tails_length || apply tails_ok || apply tails_trailing).
  cbn [mbind outcome_bind]. rewrite Nat.ltb_irrefl. destruct (fits_long cnt m v) as [HL _]; [done..|].
  rewrite (proj2 HL) by done. rewrite (proj2 (surrogate_test _)) by done. cbn [orb]. do 2 f_equal. lia.
Qed.

(** What passes the tests is a character. *)
Lemma decode_accept cnt m l i ch : (2 <= cnt <= 6)%nat → 0 <= m < 2 ^ (7 - Z.of_nat cnt) → (cnt = 2%nat → 2 <= m) → (cnt - 1 <= length l)%nat → bytes_ok l →
  Forall (λ b, trailing b = true) (take (cnt - 1) l) → read_trailing (cnt - 1) 1 m l = Val (i, ch) →
  (i <? cnt)%nat || ((2 <? cnt)%nat && (Z.shiftr ch (5 * Z.of_nat cnt - 4) =? 0)) || ((55296 <=? ch) && (ch <=? 57343)) = false →
  ∃ c t, scalar c ∧ mark cnt + m :: l = utf8 c ++ t.
Proof.
  intros Hn Hm H2 Hl Hok HF ER Ecase. rewrite <- (take_drop (cnt - 1) l) in Hok. apply Forall_app in Hok as [Hok1 _].
  assert (length (take (cnt - 1) l) = (cnt - 1)%nat) as Hlen by (rewrite length_take; lia).
  rewrite <- (take_drop (cnt - 1) l), fits_read in ER by done. injection ER as Ei Ech.
  destruct (tails_value (take (cnt - 1) l)) as [Hv Et]; [done..|]. rewrite Hlen in Hv, Et.
  destruct (fits_long cnt m (tail_value (take (cnt - 1) l))) as [HL Hmax]; [done..|]. rewrite Ech in HL, Hmax.
  apply orb_false_iff in Ecase as [Ecase Esur]. apply orb_false_iff in Ecase as [_ Elong]. apply HL in Elong.
  exists ch, (drop (cnt - 1) l). apply surrogate_test in Esur. pose proof (pow64_pos (cnt - 1)). split; [split; [rewrite <- Ech in *; nia|done]|].
  rewrite <- Ech, fits_utf8, Et by done. cbn [app]. by rewrite take_drop.
Qed.

(** The body accepts nothing else, and takes for incomplete what is. *)
Lemma decode_result inp room : bytes_ok inp → inp ≠ [] → ∃ s, utf8_internal_body inp room = Val s ∧
  match s with
  | Emit _ _ => ∃ c t, scalar c ∧ inp = utf8 c ++ t
  | Break r => r = GCONV_INCOMPLETE_INPUT ∧ incomplete inp
  | FromErr n => (1 <= n <= length inp)%nat ∧ ¬ incomplete inp ∧ Forall (λ b, trailing b = true) (tail (take n inp))
  | _ => False
  end.
Proof.
  intros Hok Hne. destruct inp as [|b l]; [done|]. apply Forall_cons in Hok as [Hb Hok].
  destruct (decide (b < 128)) as [Hlt|Hge].
  { unfold utf8_internal_body. cbn. destruct (Z.ltb_spec b 128); [|lia]. eexists; split; [done|]. exists b, l. split; [split; lia|].
    by rewrite utf8_ascii. }
  destruct (lead b) as [[cnt m]|] eqn:El.
  2: { unfold utf8_internal_body. cbn [head tail deref]. cbn [mbind outcome_bind]. destruct (Z.ltb_spec b 128); [lia|].
    rewrite El. eexists; split; [done|]. pose proof (count_trailing_le 4 l). split_and!; [cbn [length]; lia..| |apply count_trailing_take].
    intros (b' & l' & cnt & m & [= <- <-] & E & _). congruence. }
  rewrite (body_lead _ cnt m) by (done || lia). destruct (lead_spec b cnt m) as (Hn & Eb & Hm & H2); [done..|].
  destruct (Nat.ltb_spec (S (length l)) cnt) as [Hs|Hs].
  - eexists; split; [done|]. destruct (Nat.eqb_spec (S (count_trailing (S (length l)) l)) (S (length l))) as [E|E].
    + split; [done|]. exists b, l, cnt, m. split_and!; [done..|]. injection E as E. by apply (count_trailing_all (S (length l))) in E; [|lia].
    + pose proof (count_trailing_le (S (length l)) l). split_and!; [cbn [length]; lia..| |apply count_trailing_take].
      intros (b' & l' & ? & ? & [= <- <-] & _ & _ & HF).
      apply E. f_equal. apply count_trailing_all; [lia|done].
  - assert (¬ incomplete (b :: l)) as Hni. { intros (b' & l' & cnt' & m' & [= <- <-] & E & Hlt & _). rewrite El in E. injection E as <- <-. cbn in Hlt. lia. }
    destruct (read_trailing_some (cnt - 1) 1 m l) as (j & ch & Hj & ER & HF); [lia|]. rewrite ER. cbn [mbind outcome_bind].
    destruct (_ || _) eqn:Ecase; eexists; (split; [done|]); [split_and!; [cbn [length]; lia..|done|done]|]. subst b.
    assert (j = (cnt - 1)%nat) as ->. { rewrite !orb_false_iff, Nat.ltb_ge in Ecase. lia. }
    apply (decode_accept cnt m l (1 + (cnt - 1)) ch); auto; lia.
Qed.

(** ** The body that encodes *)

Lemma le_word_le_bytes n x : le_word (le_bytes n x) = x mod 256 ^ Z.of_nat n.
Proof.
  revert x; induction n as [|n IH]; intros x; [by rewrite Z.mod_1_r|]. cbn [le_bytes].
  change (le_word (x mod 256 :: le_bytes n (x / 256))) with (x mod 256 + 256 * le_word (le_bytes n (x / 256))).
  rewrite IH, Nat2Z.inj_succ, Z.pow_succ_r, Z.rem_mul_r by lia. done.
Qed.

Lemma word_le_bytes c t : 0 <= c < 2 ^ 32 → word (le_bytes 4 c ++ t) = c.
Proof.
  intros Hc. unfold word. rewrite take_app_length' by (by rewrite le_bytes_length). rewrite le_word_le_bytes. by apply Z.mod_small.
Qed.

(** A mask of the bits from [k] up. *)
Lemma high_mask c k : 0 <= c < 2 ^ 32 → 0 <= k → (Z.land c (wrapu 32 (Z.shiftl 4294967295 k)) =? 0) = (c <? 2 ^ k).
Proof.
  intros Hc Hk. assert (Z.land c (wrapu 32 (Z.shiftl 4294967295 k)) = Z.shiftl (Z.shiftr c k) k) as ->.
  { apply Z.bits_inj'. intros i Hi. unfold wrapu. rewrite Z.land_spec, <- (Z.mod_small c (2 ^ 32)) by done.
    change 4294967295 with (Z.ones 32). destruct (decide (i < 32)).
    - rewrite !Z.mod_pow2_bits_low by lia. destruct (decide (i < k)).
      + by rewrite !Z.shiftl_spec_low, andb_false_r by lia.
      + rewrite !Z.shiftl_spec, Z.shiftr_spec by lia. rewrite Z.ones_spec_low, andb_true_r by lia.
        replace (i - k + k) with i by lia. by rewrite Z.mod_pow2_bits_low by lia.
    - rewrite !Z.mod_pow2_bits_high by lia. destruct (decide (i < k)).
      + by rewrite Z.shiftl_spec_low by lia.
      + rewrite Z.shiftl_spec, Z.shiftr_spec by lia. replace (i - k + k) with i by lia. by rewrite Z.mod_pow2_bits_high by lia. }
  assert (0 < 2 ^ k) by (apply Z.pow_pos_nonneg; lia).
  rewrite Z.shiftl_mul_pow2, Z.shiftr_div_pow2 by lia. destruct (Z.ltb_spec c (2 ^ k)).
  - by rewrite Z.div_small by lia.
  - apply Z.eqb_neq. assert (1 <= c / 2 ^ k) by (apply Z.div_le_lower_bound; lia). nia.
Qed.

Lemma find_step_size c : 128 <= c <= 2147483647 → find_step 4 2 c = Z.of_nat (utf8_size c).
Proof.
  intros Hc. cbn [find_step]. rewrite !high_mask by lia. unfold utf8_size. destruct (Z.ltb_spec c (2 ^ 7)); [lia|]. repeat case_match; lia.
Qed.

Lemma low_bits c : Z.lor 128 (Z.land c 63) = 128 + c mod 64.
Proof.
  change 63 with (Z.ones 6). rewrite Z.land_ones by lia. change 128 with (2 * 2 ^ 6). apply lor_low; [lia|]. apply Z.mod_pos_bound. lia.
Qed.

Lemma put_tail_tails k c acc : put_tail k c acc = (tails k c ++ acc, c / 64 ^ Z.of_nat k).
Proof.
  revert c acc. induction k as [|k IH]; intros c acc; [cbn; by rewrite Z.div_1_r|]. cbn [put_tail].
  rewrite IH, low_bits, tails_snoc, <- app_assoc, Z.shiftr_div_pow2, pow64_S, Z.div_div by (pose proof (pow64_pos k); lia). done.
Qed.

(** The first byte. *)
Lemma first_byte n m : (2 <= n <= 6)%nat → 0 <= m < 2 ^ (7 - Z.of_nat n) → Z.lor (mark n) m = mark n + m.
Proof.
  intros Hn Hm. assert (mark n = (2 ^ (Z.of_nat n + 1) - 2) * 2 ^ (7 - Z.of_nat n)) as -> by (lengths n; reflexivity).
  apply lor_low; lia.
Qed.

Lemma encode_utf8 c t room : scalar c → (1 <= room)%nat →
  internal_utf8_body (le_bytes 4 c ++ t) room = Val (if (room <? length (utf8 c))%nat then Break GCONV_FULL_OUTPUT else Emit (utf8 c) 4).
Proof.
  intros [Hc Hs] Hr. unfold internal_utf8_body. rewrite word_le_bytes by lia. destruct (Z.ltb_spec c 128) as [Hlt|Hge].
  { rewrite utf8_ascii by done. cbn [length]. destruct (Nat.ltb_spec room 1); [lia|done]. }
  assert ((c <=? 2147483647) && ((c <? 55296) || (57343 <? c)) = true) as -> by (rewrite andb_true_iff, orb_true_iff; lia).
  destruct (fits_exists c) as (cnt & m & v & F & E); [lia|]. pose proof (fits_size _ _ _ F) as Es. rewrite <- E in Es.
  pose proof (fits_utf8 _ _ _ F) as Eu. rewrite <- E in Eu. rewrite find_step_size, Es by lia.
  destruct F as (Hn & Hm & Hv & _ & _). pose proof (pow64_pos (cnt - 1)).
  rewrite Eu. cbn [length]. rewrite tails_length. replace (S (cnt - 1)) with cnt by lia.
  destruct (Nat.ltb_spec room cnt), (Z.ltb_spec (Z.of_nat room) (Z.of_nat cnt)); try lia; [done|].
  replace (Z.to_nat (Z.of_nat cnt - 1)) with (cnt - 1)%nat by lia. rewrite put_tail_tails, app_nil_r, E.
  rewrite Z.div_add_l, Z.div_small, Z.add_0_r, tails_high by lia.
  replace (wrapu 8 (Z.shiftr (Z.lnot 255) (Z.of_nat cnt))) with (mark cnt) by (lengths cnt; reflexivity).
  by rewrite first_byte.
Qed.

(** Every other word is an error. *)
Lemma encode_bad w t room : 0 <= w < 2 ^ 32 → ¬ scalar w → internal_utf8_body (le_bytes 4 w ++ t) room = Val (ToErr 4).
Proof.
  intros Hw Hs. unfold internal_utf8_body. rewrite word_le_bytes by done. destruct (Z.ltb_spec w 128); [destruct Hs; split; lia|].
  destruct (_ && _) eqn:E; [|done]. rewrite andb_true_iff, orb_true_iff in E. destruct Hs; split; lia.
Qed.

End GconvUtf8.
