(* ===== verification/GconvLoop.v ===== *)
(** * The conversion loops are exact

    A loop is described by a [conversion]: the characters that both sides
    have, their bytes on each side, and the minimal sizes and the body.  The
    laws [ConversionOk] say what one round of the body does; from them, the
    loop of [iconv/loop.c] is shown to convert exactly the characters that the
    input begins with, and to stop or skip where there is none.  The laws are
    proved for the eight loops of ASCII, UTF-8 and UCS-2. *)

From S2P Require Import Prelude Digest Gconv GconvUtf8.
Local Open Scope Z_scope.

Module GconvLoop.
Import Digest Gconv GconvUtf8.

(** ** What a loop is to do *)

Record conversion : Type := Conversion {
  valid : Z → Prop;             (* the characters *)
  source : Z → list Z;          (* their bytes in the input *)
  target : Z → list Z;          (* and in the output *)
  min_from : nat;
  min_to : nat;
  body : list Z → nat → outcome step;
  partial : list Z → Prop;      (* what may turn into a character *)
  junk : list Z → Prop;         (* what is skipped at an error *)
  tag : list Z → Prop;          (* what is skipped and is no error *)
  silent : list Z → bool;       (* an error that does not show in the result when skipped *)
}.

Definition no_char (cv : conversion) (inp : list Z) : Prop := ∀ c t, valid cv c → inp ≠ source cv c ++ t.

(** One round of the body. *)
Class ConversionOk (cv : conversion) : Prop := {
  conv_char c t room : valid cv c → (min_to cv <= room)%nat →
    body cv (source cv c ++ t) room = Val (if (room <? length (target cv c))%nat then Break GCONV_FULL_OUTPUT else Emit (target cv c) (length (source cv c)));
  conv_size c : valid cv c → (1 <= length (source cv c))%nat ∧ (min_from cv <= length (source cv c))%nat ∧ (min_to cv <= length (target cv c))%nat;
  conv_short inp : inp ≠ [] → (length inp < min_from cv)%nat → partial cv inp;
  conv_other inp room : bytes_ok inp → inp ≠ [] → (min_from cv <= length inp)%nat →
    (∃ c t, valid cv c ∧ inp = source cv c ++ t) ∨
    no_char cv inp ∧ ∃ s, body cv inp room = Val s ∧
      match s with
      | Emit _ _ => False
      | Break r => r = GCONV_INCOMPLETE_INPUT ∧ partial cv inp
      | FromErr n | ToErr n => (1 <= n <= length inp)%nat ∧ ¬ partial cv inp ∧ junk cv (take n inp) ∧ silent cv (take n inp) = false
      | Silent n => (1 <= n <= length inp)%nat ∧ ¬ partial cv inp ∧ junk cv (take n inp) ∧ silent cv (take n inp) = true
      | Skip n => (1 <= n <= length inp)%nat ∧ tag cv (take n inp)
      end;
}.

Section Exact.
Context (cv : conversion) `{!ConversionOk cv} (ignore : bool).

(** The reference: from an input to what is left of it, the output, the
    number of errors skipped, and the number of those that show. *)
Inductive converts : list Z → list Z → list Z → nat → nat → Prop :=
  | converts_stop inp : converts inp inp [] 0 0
  | converts_char c t rest out e l : valid cv c → converts t rest out e l → converts (source cv c ++ t) rest (target cv c ++ out) e l
  | converts_skip j t rest out e l : ignore = true → junk cv j → no_char cv (j ++ t) → converts t rest out e l →
      converts (j ++ t) rest out (S e) (if silent cv j then l else S l)
  | converts_tag j t rest out e l : tag cv j → no_char cv (j ++ t) → converts t rest out e l → converts (j ++ t) rest out e l.

(** What a status says of the rest of the input, the room left and the
    errors skipped. *)
Definition status_ok (r : gconv_status) (rest : list Z) (room' : nat) (l : nat) : Prop :=
  match r with
  | GCONV_OK => False
  | GCONV_EMPTY_INPUT => rest = [] ∧ l = O
  | GCONV_FULL_OUTPUT => rest ≠ [] ∧ ∀ c t, valid cv c → rest = source cv c ++ t → (room' < length (target cv c))%nat
  | GCONV_INCOMPLETE_INPUT => rest ≠ [] ∧ no_char cv rest ∧ partial cv rest
  | GCONV_ILLEGAL_INPUT => if ignore then rest = [] ∧ (0 < l)%nat else rest ≠ [] ∧ no_char cv rest ∧ ¬ partial cv rest
  end.

(** The status that a loop carries. *)
Definition carried (l : nat) : gconv_status := if (0 <? l)%nat then GCONV_ILLEGAL_INPUT else GCONV_EMPTY_INPUT.

(** The loop, from a point where [l0] errors that show have been skipped. *)
Definition loop_ok (flag : bool) (fuel l0 : nat) (inp : list Z) (st : out_state) : Prop :=
  ∃ r rest out e l, convert_loop (min_from cv) (min_to cv) (body cv) flag fuel (carried l0) inp st
      = Val (r, rest, OutState (written st ++ out) (room st - length out) (Z.add (Z.of_nat e) <$> irreversible st))
    ∧ (length out <= room st)%nat ∧ converts inp rest out e l ∧ status_ok r rest (room st - length out) (l0 + l).

Lemma irreversible_0 st : (Z.add (Z.of_nat 0) <$> irreversible st) = irreversible st.
Proof. by destruct (irreversible st). Qed.

Lemma loop_stop flag fuel l0 inp st r :
  convert_loop (min_from cv) (min_to cv) (body cv) flag fuel (carried l0) inp st = Val (r, inp, st) →
  status_ok r inp (room st) l0 → loop_ok flag fuel l0 inp st.
Proof.
  intros E Hs. exists r, inp, [], O, O. cbn [length]. rewrite E, app_nil_r, Nat.sub_0_r, irreversible_0, Nat.add_0_r. destruct st.
  split_and!; [done|lia|constructor|done].
Qed.

Lemma no_char_short inp : (length inp < min_from cv)%nat → no_char cv inp.
Proof. intros Hs c t Hv ->. destruct (conv_size c Hv) as (_ & ? & _). rewrite length_app in Hs. lia. Qed.

Lemma loop_empty flag fuel l0 st : (ignore = false → l0 = O) → loop_ok flag fuel l0 [] st.
Proof.
  intros H0. apply loop_stop with (carried l0); [by destruct fuel|]. unfold carried, status_ok.
  destruct (Nat.ltb_spec 0 l0); [|split; [done|lia]]. destruct ignore; [done|lia].
Qed.

Lemma gconv_loop_round flag fuel result inp st s :
  inp ≠ [] → (min_from cv <= length inp)%nat → (min_to cv <= room st)%nat → body cv inp (room st) = Val s →
  convert_loop (min_from cv) (min_to cv) (body cv) flag (S fuel) result inp st =
    match s with
    | Emit o n =>
        if (room st <? length o)%nat then Fault else
        convert_loop (min_from cv) (min_to cv) (body cv) flag fuel result (drop n inp) (OutState (written st ++ o) (room st - length o) (irreversible st))
    | Break r => Val (r, inp, st)
    | FromErr n | ToErr n =>
        if ignore_errors_p flag st then convert_loop (min_from cv) (min_to cv) (body cv) flag fuel GCONV_ILLEGAL_INPUT (drop n inp) (count_error st)
        else Val (GCONV_ILLEGAL_INPUT, inp, st)
    | Skip n => convert_loop (min_from cv) (min_to cv) (body cv) flag fuel result (drop n inp) st
    | Silent n =>
        if ignore_errors_p flag st then convert_loop (min_from cv) (min_to cv) (body cv) flag fuel result (drop n inp) (count_error st)
        else Val (GCONV_ILLEGAL_INPUT, inp, st)
    end.
Proof.
  intros Hne Hin Hout E. destruct inp as [|b inp]; [done|]. cbn [convert_loop].
  rewrite (proj2 (Nat.ltb_ge _ _) Hin), (proj2 (Nat.ltb_ge _ _) Hout), E. done.
Qed.

(** A character is converted. *)
Lemma loop_char flag fuel l0 c t st : valid cv c → (length (target cv c) <= room st)%nat →
  loop_ok flag fuel l0 t (OutState (written st ++ target cv c) (room st - length (target cv c)) (irreversible st)) →
  loop_ok flag (S fuel) l0 (source cv c ++ t) st.
Proof.
  intros Hv Hr (r & rest & out & e & l & E & Hl & HC & HS). destruct (conv_size c Hv) as (? & ? & ?). cbn [written room irreversible] in *.
  exists r, rest, (target cv c ++ out), e, l. rewrite length_app. split_and!; [|lia|by constructor|by rewrite Nat.sub_add_distr].
  erewrite gconv_loop_round; [|intros [E0 _]%app_nil; rewrite E0 in *; cbn in *; lia|rewrite length_app; lia|lia|apply conv_char; [done|lia]].
  destruct (Nat.ltb_spec (room st) (length (target cv c))); [lia|]. rewrite (proj2 (Nat.ltb_ge _ _)) by lia.
  by rewrite drop_app_length, E, <- app_assoc, Nat.sub_add_distr.
Qed.

(** An error is skipped. *)
Lemma count_errors e st : (Z.add (Z.of_nat e) <$> irreversible (count_error st)) = (Z.add (Z.of_nat (S e)) <$> irreversible st).
Proof. destruct st as [w n [i|]]; cbn; [|done]. f_equal. lia. Qed.

Lemma loop_error flag fuel l0 inp n st : inp ≠ [] → (1 <= n <= length inp)%nat → ¬ partial cv inp → junk cv (take n inp) → no_char cv inp →
  convert_loop (min_from cv) (min_to cv) (body cv) flag (S fuel) (carried l0) inp st =
    (if ignore then convert_loop (min_from cv) (min_to cv) (body cv) flag fuel (carried (if silent cv (take n inp) then l0 else S l0)) (drop n inp) (count_error st)
     else Val (GCONV_ILLEGAL_INPUT, inp, st)) →
  (ignore = true → loop_ok flag fuel (if silent cv (take n inp) then l0 else S l0) (drop n inp) (count_error st)) → loop_ok flag (S fuel) l0 inp st.
Proof.
  intros Hne Hn Hp Hj Hno E1 Hrest. destruct (decide (ignore = true)) as [Hi|Hi%not_true_is_false].
  - destruct (Hrest Hi) as (r & rest & out & e & l & E & Hl & HC & HS). rewrite Hi in E1.
    exists r, rest, out, (S e), (if silent cv (take n inp) then l else S l).
    rewrite E1, E, count_errors. split_and!; [done..| |destruct (silent cv _); [done|by rewrite Nat.add_succ_r]].
    rewrite <- (take_drop n inp) at 1. apply converts_skip; [done..|by rewrite take_drop|done].
  - rewrite Hi in E1. apply loop_stop with GCONV_ILLEGAL_INPUT; [done|]. cbn. by rewrite Hi.
Qed.

(** So is a tag. *)
Lemma loop_tag flag fuel l0 inp n st : (1 <= n <= length inp)%nat → tag cv (take n inp) → no_char cv inp →
  convert_loop (min_from cv) (min_to cv) (body cv) flag (S fuel) (carried l0) inp st =
    convert_loop (min_from cv) (min_to cv) (body cv) flag fuel (carried l0) (drop n inp) st →
  loop_ok flag fuel l0 (drop n inp) st → loop_ok flag (S fuel) l0 inp st.
Proof.
  intros Hn Ht Hno E1 (r & rest & out & e & l & E & Hl & HC & HS). exists r, rest, out, e, l. rewrite E1, E. split_and!; [done..| |done].
  rewrite <- (take_drop n inp) at 1. apply converts_tag; [done..|by rewrite take_drop|done].
Qed.

Lemma loop_exact flag fuel l0 inp st : bytes_ok inp → (length inp <= fuel)%nat → ignore = ignore_errors_p flag st → (ignore = false → l0 = O) →
  loop_ok flag fuel l0 inp st.
Proof.
  revert l0 inp st. induction fuel as [|fuel IH]; intros l0 inp st Hok Hf Hi H0.
  { destruct inp; [|cbn in Hf; lia]. by apply loop_empty. }
  destruct (decide (inp = [])) as [->|Hne]; [by apply loop_empty|].
  assert (Hdrop : ∀ n e1 st', (1 <= n <= length inp)%nat → irreversible st' = irreversible st ∨ irreversible st' = irreversible (count_error st) → (ignore = false → e1 = O) →
    loop_ok flag fuel e1 (drop n inp) st').
  { intros n e1 st' Hn Hst He1. apply IH; [by apply Forall_drop|rewrite length_drop; lia| |done].
    rewrite Hi. unfold ignore_errors_p. destruct Hst as [->| ->]; [done|]. by destruct st as [w m [i|]]. }
  destruct (decide (length inp < min_from cv)%nat) as [Hs|Hin].
  { apply loop_stop with GCONV_INCOMPLETE_INPUT; [destruct inp; [done|]; cbn [convert_loop]; by rewrite (proj2 (Nat.ltb_lt _ _) Hs)|].
    split_and!; [done|by apply no_char_short|by apply conv_short]. }
  destruct (decide (room st < min_to cv)%nat) as [Hs|Hout].
  { apply loop_stop with GCONV_FULL_OUTPUT.
    - destruct inp; [done|]; cbn [convert_loop]. by rewrite (proj2 (Nat.ltb_ge _ _)), (proj2 (Nat.ltb_lt _ _) Hs) by lia.
    - split; [done|]. intros c t Hv _. destruct (conv_size c Hv) as (_ & _ & ?). lia. }
  destruct (conv_other inp (room st)) as [(c & t & Hv & E)|(Hno & s & Eb & Hs)]; [done|done|lia|..].
  - subst inp. destruct (conv_size c Hv) as (Hsz & _ & _). rewrite length_app in *. destruct (decide (length (target cv c) <= room st)%nat) as [Hr|Hr].
    + apply loop_char; [done..|]. specialize (Hdrop (length (source cv c)) l0 (OutState (written st ++ target cv c) (room st - length (target cv c)) (irreversible st))).
      rewrite drop_app_length in Hdrop. apply Hdrop; [lia|by left|done].
    + apply loop_stop with GCONV_FULL_OUTPUT.
      * erewrite gconv_loop_round; [|done|rewrite length_app; lia|lia|apply conv_char; [done|lia]]. by rewrite (proj2 (Nat.ltb_lt _ _)) by lia.
      * split; [done|]. intros c' t' Hv' E. pose proof (conv_char c t (room st) Hv ltac:(lia)) as E1. rewrite E, conv_char in E1 by (done || lia).
        destruct (Nat.ltb_spec (room st) (length (target cv c'))); [done|]. by rewrite (proj2 (Nat.ltb_lt _ _)) in E1 by lia.
  - pose proof (gconv_loop_round flag fuel (carried l0) inp st s Hne ltac:(lia) ltac:(lia) Eb) as ER. rewrite <- Hi in ER.
    destruct s as [o n|r|n|n|n|n]; [done|..].
    1: { destruct Hs as [-> Hp]. by apply loop_stop with GCONV_INCOMPLETE_INPUT. }
    3: { destruct Hs as (Hn & Ht). apply loop_tag with n; [done..|]. apply Hdrop; [done|by left|done]. }
    all: destruct Hs as (Hn & Hp & Hj & Hsil); apply loop_error with n; [done..| |intros; apply Hdrop; [done|by right|rewrite Hsil; congruence]].
    all: by rewrite ER, Hsil.
Qed.

(** The whole function on characters that both sides have, with room. *)
Lemma convert_chars flag cs w k i : Forall (valid cv) cs →
  LOOPFCT (min_from cv) (min_to cv) (body cv) flag (cs ≫= source cv) (OutState w (length (cs ≫= target cv) + k) i)
  = Val (GCONV_EMPTY_INPUT, [], OutState (w ++ (cs ≫= target cv)) k i).
Proof.
  unfold LOOPFCT. assert (∀ fuel, Forall (valid cv) cs → (length (cs ≫= source cv) <= fuel)%nat →
    convert_loop (min_from cv) (min_to cv) (body cv) flag fuel GCONV_EMPTY_INPUT (cs ≫= source cv) (OutState w (length (cs ≫= target cv) + k) i)
    = Val (GCONV_EMPTY_INPUT, [], OutState (w ++ (cs ≫= target cv)) k i)) as H; [|by intros; apply H].
  revert w. induction cs as [|c cs IH]; intros w fuel Hv Hf; [cbn; rewrite app_nil_r; by destruct fuel|].
  apply Forall_cons in Hv as [Hc Hv]. rewrite !bind_cons in *. rewrite !length_app in *. destruct (conv_size c Hc) as (? & ? & ?).
  destruct fuel as [|fuel]; [lia|]. erewrite gconv_loop_round; [|intros [E0 _]%app_nil; rewrite E0 in *; cbn in *; lia|rewrite length_app; lia|cbn; lia|apply conv_char; [done|cbn; lia]].
  cbn [room written irreversible]. rewrite !(proj2 (Nat.ltb_ge _ _)) by lia. rewrite drop_app_length.
  replace (length (target cv c) + length (cs ≫= target cv) + k - length (target cv c))%nat with (length (cs ≫= target cv) + k)%nat by lia.
  rewrite IH by (done || lia). by rewrite <- app_assoc.
Qed.
End Exact.

(** ** The eight loops *)

Inductive charset : Type := ASCII | UTF8 | UCS2 | UCS2_REVERSE.

Definition encodable (cs : charset) (c : Z) : Prop :=
  match cs with ASCII => 0 <= c < 128 | UTF8 => scalar c | UCS2 | UCS2_REVERSE => scalar c ∧ c < 65536 end.

Definition encode (cs : charset) (c : Z) : list Z :=
  match cs with ASCII => [c] | UTF8 => utf8 c | UCS2 => le_bytes 2 c | UCS2_REVERSE => be_bytes 2 c end.

(** [MIN_NEEDED_FROM] of the loops that decode, [MIN_NEEDED_TO] of the others. *)
Definition unit_size (cs : charset) : nat := match cs with ASCII | UTF8 => 1 | UCS2 | UCS2_REVERSE => 2 end.

Definition to_internal_body (cs : charset) : list Z → nat → outcome step :=
  match cs with ASCII => ascii_internal_body | UTF8 => utf8_internal_body | UCS2 => ucs2_internal_body | UCS2_REVERSE => ucs2reverse_internal_body end.

Definition from_internal_body (cs : charset) : list Z → nat → outcome step :=
  match cs with ASCII => internal_ascii_body | UTF8 => internal_utf8_body | UCS2 => internal_ucs2_body | UCS2_REVERSE => internal_ucs2reverse_body end.

(** A Unicode tag, which ASCII and UCS-2 do not have. *)
Definition tag_word (cs : charset) (j : list Z) : Prop := cs ≠ UTF8 ∧ ∃ w, 917504 <= w < 917632 ∧ j = le_bytes 4 w.

(** What is skipped at an error: a whole unit; in UTF-8, a byte and trailing
    ones, so that no first byte is lost. *)
Definition skipped (cs : charset) (j : list Z) : Prop :=
  match cs with UTF8 => ∃ b l, j = b :: l ∧ Forall (λ b, trailing b = true) l | _ => length j = unit_size cs end.

Definition to_internal (cs : charset) : conversion :=
  {| valid := encodable cs; source := encode cs; target := le_bytes 4; min_from := unit_size cs; min_to := 4; body := to_internal_body cs;
     partial := match cs with UTF8 => incomplete | _ => λ l, (length l < unit_size cs)%nat end; junk := skipped cs; tag := λ _, False;
     silent := λ _, match cs with UCS2_REVERSE => true | _ => false end |}.

(** Into reversed UCS-2, a surrogate is skipped silently. *)
Definition from_internal (cs : charset) : conversion :=
  {| valid := encodable cs; source := le_bytes 4; target := encode cs; min_from := 4; min_to := unit_size cs; body := from_internal_body cs;
     partial := λ l, (length l < 4)%nat; junk := λ j, length j = 4%nat; tag := tag_word cs;
     silent := λ j, match cs with UCS2_REVERSE => le_word j <? 65536 | _ => false end |}.

(** Words at the head of an input. *)
Lemma split_word n inp : bytes_ok inp → (n <= length inp)%nat → ∃ w t, 0 <= w < 256 ^ Z.of_nat n ∧ inp = le_bytes n w ++ t.
Proof.
  intros Hok Hn. assert (bytes_ok (take n inp)) as Ht by by apply Forall_take.
  pose proof (le_bytes_word _ Ht) as E. rewrite length_take_le in E by done.
  exists (le_word (take n inp)), (drop n inp). rewrite E, take_drop. split; [|done].
  rewrite <- E, le_word_le_bytes. apply Z.mod_pos_bound. lia.
Qed.

Lemma le_bytes_inj n w w' t t' : 0 <= w < 256 ^ Z.of_nat n → 0 <= w' < 256 ^ Z.of_nat n → le_bytes n w ++ t = le_bytes n w' ++ t' → w = w'.
Proof.
  intros Hw Hw' [E _]%app_inj_1; [|by rewrite !le_bytes_length]. apply (f_equal le_word) in E. by rewrite !le_word_le_bytes, !Z.mod_small in E.
Qed.

Lemma take_word n w t : take n (le_bytes n w ++ t) = le_bytes n w.
Proof. rewrite take_app_length'; [done|by rewrite le_bytes_length]. Qed.

Lemma encodable_range cs c : encodable cs c → 0 <= c < 2 ^ 32.
Proof. destruct cs; cbn; unfold scalar; lia. Qed.

Lemma encode_length cs c : encodable cs c → (unit_size cs <= length (encode cs c))%nat.
Proof.
  intros Hc. destruct cs; cbn [unit_size encode]; try (unfold be_bytes; rewrite ?length_reverse, le_bytes_length; lia); [cbn; lia|].
  unfold utf8. destruct (utf8_size c) as [|[|k]]; cbn [length]; lia.
Qed.

#[export] Instance encodable_dec cs c : Decision (encodable cs c).
Proof. destruct cs; cbn; apply _. Defined.

(** The errors of the loops that encode. *)
Lemma tag_or_err_spec cs w t : 0 <= w < 2 ^ 32 → cs ≠ UTF8 → 65536 <= w ∨ cs = ASCII → ∃ s, tag_or_err w = s ∧
  match s with
  | ToErr n => n = 4%nat ∧ silent (from_internal cs) (take n (le_bytes 4 w ++ t)) = false
  | Skip n => n = 4%nat ∧ tag_word cs (take n (le_bytes 4 w ++ t))
  | _ => False
  end.
Proof.
  intros Hw Hcs Hbig. unfold tag_or_err. eexists; split; [done|]. rewrite !Z.shiftr_div_pow2 by lia.
  change (917504 / 2 ^ 7) with 7168. destruct (Z.eqb_spec (w / 2 ^ 7) 7168) as [E|E]; (split; [done|]); rewrite take_word.
  - split; [done|]. exists w. split; [|done]. change (2 ^ 7) with 128 in E. pose proof (Z.div_mod w 128). pose proof (Z.mod_pos_bound w 128). lia.
  - destruct cs; try done. cbn [silent from_internal]. rewrite le_word_le_bytes, Z.mod_small by (cbn; lia). apply Z.ltb_ge. by destruct Hbig.
Qed.

Lemma surrogate_half c : (55296 <=? c) && (c <? 57344) = bool_decide (55296 <= c <= 57343).
Proof. case_bool_decide; [apply andb_true_iff|apply andb_false_iff]; lia. Qed.

Lemma from_internal_char cs c t room : encodable cs c → (unit_size cs <= room)%nat →
  from_internal_body cs (le_bytes 4 c ++ t) room = Val (if (room <? length (encode cs c))%nat then Break GCONV_FULL_OUTPUT else Emit (encode cs c) 4).
Proof.
  intros Hc Hr. pose proof (encodable_range _ _ Hc) as Hw. destruct cs; cbn [from_internal_body encode encodable unit_size] in *;
    [|apply encode_utf8; done|..]; rewrite (proj2 (Nat.ltb_ge _ _)) by (unfold be_bytes; rewrite ?length_reverse, ?le_bytes_length; done).
  - unfold internal_ascii_body. rewrite word_le_bytes by done. by rewrite (proj2 (Z.ltb_ge _ _)) by lia.
  - unfold internal_ucs2_body. destruct Hc as [[? ?] ?]. rewrite word_le_bytes, surrogate_half, bool_decide_eq_false_2 by done.
    by rewrite (proj2 (Z.leb_gt _ _)) by lia.
  - unfold internal_ucs2reverse_body. destruct Hc as [[? ?] ?]. rewrite word_le_bytes, surrogate_half, bool_decide_eq_false_2, le_bytes_bswap by done.
    by rewrite (proj2 (Z.leb_gt _ _)) by lia.
Qed.

Lemma from_internal_bad cs w t room : 0 <= w < 2 ^ 32 → ¬ encodable cs w → ∃ s, from_internal_body cs (le_bytes 4 w ++ t) room = Val s ∧
  match s with
  | FromErr n | ToErr n => n = 4%nat ∧ silent (from_internal cs) (take n (le_bytes 4 w ++ t)) = false
  | Silent n => n = 4%nat ∧ silent (from_internal cs) (take n (le_bytes 4 w ++ t)) = true
  | Skip n => n = 4%nat ∧ tag_word cs (take n (le_bytes 4 w ++ t))
  | _ => False
  end.
Proof.
  intros Hw Hn. destruct cs; cbn [from_internal_body encodable] in *.
  - unfold internal_ascii_body. rewrite word_le_bytes, (proj2 (Z.ltb_lt _ _)) by lia. eexists; split; [done|].
    destruct (tag_or_err_spec ASCII w t) as (s & -> & Hs); [done..|by right|]. by destruct s.
  - rewrite encode_bad by done. eexists; split; [done|]. done.
  - unfold internal_ucs2_body. rewrite word_le_bytes by done. destruct (Z.leb_spec 65536 w).
    { eexists; split; [done|]. destruct (tag_or_err_spec UCS2 w t) as (s & -> & Hs); [done..|by left|]. by destruct s. }
    rewrite surrogate_half. case_bool_decide; [|unfold scalar in Hn; lia]. by eexists.
  - unfold internal_ucs2reverse_body. rewrite word_le_bytes by done. destruct (Z.leb_spec 65536 w).
    { eexists; split; [done|]. destruct (tag_or_err_spec UCS2_REVERSE w t) as (s & -> & Hs); [done..|by left|]. by destruct s. }
    rewrite surrogate_half. case_bool_decide; [|unfold scalar in Hn; lia]. eexists; split; [done|]. split; [done|]. rewrite take_word.
    cbn [silent from_internal]. rewrite le_word_le_bytes, Z.mod_small by (cbn; lia). by apply Z.ltb_lt.
Qed.

#[export] Instance from_internal_ok cs : ConversionOk (from_internal cs).
Proof.
  split; cbn [valid source target min_from min_to body partial junk tag from_internal].
  - intros c t room Hc Hr. rewrite le_bytes_length. by apply from_internal_char.
  - intros c Hc. rewrite le_bytes_length. pose proof (encode_length _ _ Hc). lia.
  - done.
  - intros inp room Hok Hne Hlen. destruct (split_word 4 inp) as (w & t & Hw & ->); [done..|]. change (256 ^ Z.of_nat 4) with (2 ^ 32) in Hw.
    destruct (decide (encodable cs w)) as [Hc|Hn]; [left; by exists w, t|]. right. split.
    { intros c t' Hc E. apply le_bytes_inj in E as ->; [done..|]. apply (encodable_range cs), Hc. }
    destruct (from_internal_bad cs w t room) as (s & E & Hs); [done..|]. exists s. split; [done|].
    rewrite length_app, le_bytes_length. destruct s; try done; destruct Hs as [-> Hs]; (split; [lia|]); [..|done|];
      (split; [lia|split; [by rewrite take_word, le_bytes_length|done]]).
Qed.

(** The loops that decode. *)
Lemma get16_word w t : 0 <= w < 2 ^ 16 → get16 (le_bytes 2 w ++ t) = w.
Proof. intros Hw. unfold get16. rewrite take_word, le_word_le_bytes. by apply Z.mod_small. Qed.

Lemma le_word_bound bs : bytes_ok bs → 0 <= le_word bs < 256 ^ Z.of_nat (length bs).
Proof. intros Hok. rewrite <- (le_bytes_word bs) at 1 2 by done. rewrite le_word_le_bytes. apply Z.mod_pos_bound. lia. Qed.

(** A swapped half word, seen as a half word of the other order. *)
Lemma bswap_be w : bswap 2 (bswap 2 w) = w mod 2 ^ 16 ∧ le_bytes 2 (bswap 2 w) = be_bytes 2 w ∧ 0 <= bswap 2 w < 2 ^ 16.
Proof.
  split_and!; [|apply le_bytes_bswap|..].
  - unfold bswap at 1. rewrite le_bytes_bswap. unfold be_bytes. rewrite reverse_involutive. apply le_word_le_bytes.
  - apply (le_word_bound (reverse (le_bytes 2 w))). apply Forall_reverse, le_bytes_range.
  - change (2 ^ 16) with (256 ^ Z.of_nat 2). unfold bswap. rewrite <- (le_bytes_length 2 w) at 2. rewrite <- length_reverse. apply le_word_bound, Forall_reverse, le_bytes_range.
Qed.

Lemma to_internal_char cs c t room : encodable cs c → to_internal_body cs (encode cs c ++ t) room = Val (Emit (le_bytes 4 c) (length (encode cs c))).
Proof.
  intros Hc. destruct cs; cbn [to_internal_body encode encodable] in *; [|by apply decode_utf8|..].
  - unfold ascii_internal_body. cbn [app head deref]. cbn [mbind outcome_bind]. by rewrite (proj2 (Z.ltb_ge _ _)) by lia.
  - unfold ucs2_internal_body. destruct Hc as [[? ?] ?]. by rewrite get16_word, surrogate_half, bool_decide_eq_false_2, le_bytes_length by (done || lia).
  - unfold ucs2reverse_internal_body. destruct Hc as [[? ?] ?]. destruct (bswap_be c) as (E & E' & ?).
    rewrite <- E', get16_word, E, Z.mod_small by lia. by rewrite surrogate_half, bool_decide_eq_false_2, le_bytes_length.
Qed.

(** Whatever the body takes for a character is one. *)
Lemma to_internal_cases cs inp room : bytes_ok inp → inp ≠ [] → (unit_size cs <= length inp)%nat →
  (∃ c t, encodable cs c ∧ inp = encode cs c ++ t) ∨
  ∃ s, to_internal_body cs inp room = Val s ∧
    match s with
    | Break r => r = GCONV_INCOMPLETE_INPUT ∧ partial (to_internal cs) inp
    | FromErr n => (1 <= n <= length inp)%nat ∧ ¬ partial (to_internal cs) inp ∧ skipped cs (take n inp) ∧ cs ≠ UCS2_REVERSE
    | Silent n => (1 <= n <= length inp)%nat ∧ ¬ partial (to_internal cs) inp ∧ skipped cs (take n inp) ∧ cs = UCS2_REVERSE
    | _ => False
    end.
Proof.
  intros Hok Hne Hlen. destruct cs; cbn [to_internal_body encode encodable unit_size] in *.
  - destruct inp as [|b t]; [done|]. apply Forall_cons in Hok as [Hb _]. destruct (decide (b < 128)); [left; exists b, t; split; [lia|done]|].
    right. unfold ascii_internal_body. cbn [head deref]. cbn [mbind outcome_bind]. rewrite (proj2 (Z.ltb_lt _ _)) by lia.
    eexists; split; [done|]. cbn. split_and!; [lia..|done|done].
  - destruct (decode_result inp room) as (s & E & Hs); [done..|]. destruct s as [o n|r|n| | |]; [by left|right..]; eexists; (split; [done|]); try done.
    destruct Hs as (Hn & Hp & Ht). split_and!; [lia..|done| |done]. destruct (take n inp) as [|b l] eqn:Et; [|by exists b, l].
    apply (f_equal length) in Et. rewrite length_take in Et. cbn in Et. lia.
  - destruct (split_word 2 inp) as (w & t & Hw & ->); [done..|]. change (256 ^ Z.of_nat 2) with (2 ^ 16) in Hw.
    destruct (decide (55296 <= w <= 57343)); [right|left; exists w, t; split; [split; [split; lia|lia]|done]].
    unfold ucs2_internal_body. rewrite get16_word, surrogate_half, bool_decide_eq_true_2 by done. eexists; split; [done|].
    cbn [partial to_internal unit_size skipped]. rewrite take_word, length_app, !le_bytes_length. split_and!; lia || done.
  - destruct (split_word 2 inp) as (w & t & Hw & ->); [done..|]. change (256 ^ Z.of_nat 2) with (2 ^ 16) in Hw.
    destruct (bswap_be w) as (E & E' & Hb). destruct (bswap_be (bswap 2 w)) as (_ & E2 & _). rewrite E, Z.mod_small in E2 by done.
    destruct (decide (55296 <= bswap 2 w <= 57343)); [right|left; exists (bswap 2 w), t; split; [split; [split; lia|lia]|by rewrite E2]].
    unfold ucs2reverse_internal_body. rewrite get16_word, surrogate_half, bool_decide_eq_true_2 by done. eexists; split; [done|].
    cbn [partial to_internal unit_size skipped]. rewrite take_word, length_app, !le_bytes_length. split_and!; lia || done.
Qed.

#[export] Instance to_internal_ok cs : ConversionOk (to_internal cs).
Proof.
  split; cbn [valid source target min_from min_to body partial junk tag to_internal].
  - intros c t room Hc Hr. rewrite to_internal_char by done. by rewrite le_bytes_length, (proj2 (Nat.ltb_ge _ _)) by done.
  - intros c Hc. rewrite le_bytes_length. pose proof (encode_length _ _ Hc). destruct cs; cbn [unit_size] in *; lia.
  - intros inp Hne Hs. destruct cs; try done. destruct inp; [done|]. cbn in Hs. lia.
  - intros inp room Hok Hne Hlen. destruct (to_internal_cases cs inp room) as [Hc|(s & E & Hs)]; [done..|by left|right]. split.
    + intros c t Hc ->. cbn [valid source to_internal] in *. rewrite to_internal_char in E by done. by injection E as <-.
    + exists s. split; [done|]. destruct s; try done; destruct Hs as (Hn & Hp & Hj & Hcs); split_and!; try done; try lia; by destruct cs.
Qed.

(** ** The loops *)

(** The loop function of a conversion. *)
Definition gconv_loop (cv : conversion) (ignore_errors : bool) : list Z → out_state → outcome (gconv_status * list Z * out_state) :=
  LOOPFCT (min_from cv) (min_to cv) (body cv) ignore_errors.

(** C22. On any bytes, with any room and with errors ignored or not, each of
    the eight loops between the internal format and ASCII, UTF-8 and UCS-2 in
    both byte orders returns, writes within the buffer, and does what the
    reference relation does: it converts the characters that the input begins
    with, one after the other, skips Unicode tags where the set has none, and
    skips an error only when told to and counts it. In UTF-8 nothing but
    trailing bytes is skipped after the first one. The status tells why it
    stopped: the input is used up, the next character does not fit, the rest
    begins a character and does not end it, or the rest begins with no
    character and cannot become one. *)
Theorem gconv_loop_exact (cs : charset) (decode ignore_errors : bool) (inp : list Z) (st : out_state) : bytes_ok inp →
  let cv := if decode then to_internal cs else from_internal cs in
  let ignore := ignore_errors_p ignore_errors st in
  ∃ r rest out e l, gconv_loop cv ignore_errors inp st
      = Val (r, rest, OutState (written st ++ out) (room st - length out) (Z.add (Z.of_nat e) <$> irreversible st))
    ∧ (length out <= room st)%nat ∧ converts cv ignore inp rest out e l ∧ status_ok cv ignore r rest (room st - length out) l.
Proof.
  intros Hok cv ignore. assert (ConversionOk cv) by (unfold cv; destruct decode; apply _).
  apply (loop_exact cv ignore ignore_errors (length inp) 0 inp st); done.
Qed.

Lemma gconv_loop_exact_witness : ∃ r rest out e l, gconv_loop (to_internal UTF8) true [65; 195; 40; 226; 130; 172; 240] (OutState [] 12 (Some 0))
      = Val (r, rest, OutState ([] ++ out) (12 - length out) (Z.add (Z.of_nat e) <$> Some 0))
    ∧ (length out <= 12)%nat ∧ converts (to_internal UTF8) true [65; 195; 40; 226; 130; 172; 240] rest out e l
    ∧ status_ok (to_internal UTF8) true r rest (12 - length out) l.
Proof. apply (gconv_loop_exact UTF8 true true [65; 195; 40; 226; 130; 172; 240] (OutState [] 12 (Some 0))). repeat constructor; lia. Defined.

(** C23. In each of the four character sets, a sequence of characters that the
    set has is encoded, with room that is just enough, to its bytes, for UTF-8
    those of RFC 2279, and decoding the bytes gives the characters back. *)
Theorem gconv_roundtrip (cs : charset) (ignore_errors : bool) (chars : list Z) (i : option Z) : Forall (encodable cs) chars →
  let bytes := chars ≫= encode cs in
  let words := chars ≫= le_bytes 4 in
  gconv_loop (from_internal cs) ignore_errors words (OutState [] (length bytes) i) = Val (GCONV_EMPTY_INPUT, [], OutState bytes 0 i)
  ∧ gconv_loop (to_internal cs) ignore_errors bytes (OutState [] (length words) i) = Val (GCONV_EMPTY_INPUT, [], OutState words 0 i).
Proof.
  intros Hc bytes words. unfold gconv_loop. pose proof (convert_chars (from_internal cs) ignore_errors chars [] 0 i Hc) as E1.
  pose proof (convert_chars (to_internal cs) ignore_errors chars [] 0 i Hc) as E2. rewrite Nat.add_0_r in E1, E2. split; [exact E1|exact E2].
Qed.

Lemma gconv_roundtrip_witness :
  let bytes := [36; 233; 8364; 128512; 2147483647] ≫= encode UTF8 in
  let words := [36; 233; 8364; 128512; 2147483647] ≫= le_bytes 4 in
  gconv_loop (from_internal UTF8) false words (OutState [] (length bytes) None) = Val (GCONV_EMPTY_INPUT, [], OutState bytes 0 None)
  ∧ gconv_loop (to_internal UTF8) false bytes (OutState [] (length words) None) = Val (GCONV_EMPTY_INPUT, [], OutState words 0 None).
Proof. apply (gconv_roundtrip UTF8 false [36; 233; 8364; 128512; 2147483647] None). repeat constructor; cbn; unfold scalar; lia. Defined.

(** A surrogate is skipped in both byte orders of UCS-2; only one of the two
    reports it. *)
Example ucs2_orders_differ :
  gconv_loop (to_internal UCS2) true [0; 216; 65; 0] (OutState [] 4 (Some 0)) = Val (GCONV_ILLEGAL_INPUT, [], OutState [65; 0; 0; 0] 0 (Some 1))
  ∧ gconv_loop (to_internal UCS2_REVERSE) true [216; 0; 0; 65] (OutState [] 4 (Some 0)) = Val (GCONV_EMPTY_INPUT, [], OutState [65; 0; 0; 0] 0 (Some 1)).
Proof. by vm_compute. Qed.

End GconvLoop.
