(* ===== verification/GconvStream.v ===== *)
(** * Characters split between calls, and [mbrtowc]

    With [consume_incomplete], the bytes of a character that is not complete
    are packed into the [mbstate_t] ([STORE_REST]), and the next call unpacks
    them in front of its input.  The state stands for these bytes: converting
    with it is converting the bytes and the input as one.  [mbrtowc] is one
    such call with room for one character. *)

From S2P Require Import Prelude Digest Gconv GconvUtf8 GconvLoop.
Local Open Scope Z_scope.

Module GconvStream.
Import Digest Gconv GconvUtf8 GconvLoop.

(** ** Packing and unpacking *)

Lemma store_trailing_value ch r l : 0 <= ch → (ch + 1) * 64 ^ Z.of_nat (length l) <= 2 ^ 32 → bytes_ok l → Forall (λ b, trailing b = true) l →
  store_trailing ch r l = (ch * 64 ^ Z.of_nat (length l) + tail_value l, r - Z.of_nat (length l)).
Proof.
  revert ch r. induction l as [|b l IH]; intros ch r Hc Hb Hok Ht; [cbn; f_equal; lia|].
  apply Forall_cons in Hok as [Hb0 Hok], Ht as [Ht0 Ht]. cbn [length] in *. rewrite pow64_S in Hb. pose proof (pow64_pos (length l)).
  destruct (trailing_spec b) as [? _]; [done..|]. cbn [store_trailing]. rewrite push_bits, IH by (done || nia).
  rewrite tail_value_cons, pow64_S. f_equal; [ring|lia].
Qed.

Lemma unpack_tail_tails k n w acc : unpack_tail k (S n) w acc = (take n (tails k w) ++ acc, w / 64 ^ Z.of_nat k).
Proof.
  revert w acc. induction k as [|k IH]; intros w acc; [cbn; by rewrite take_nil, Z.div_1_r|]. cbn [unpack_tail]. rewrite IH. pose proof (pow64_pos k).
  rewrite Z.shiftr_div_pow2, pow64_S, Z.div_div by lia. change (2 ^ 6) with 64. f_equal. rewrite tails_snoc, take_app, tails_length, low_bits.
  destruct (Nat.ltb_spec (S k) (S n)).
  - rewrite (take_ge [_]) by (cbn; lia). by rewrite <- app_assoc.
  - replace (n - k)%nat with O by lia. by rewrite app_nil_r.
Qed.

(** The trailing bytes that are there are the first ones of the number with
    the missing ones shifted in. *)
Lemma tails_shifted j r x : take j (tails (j + r) (x * 64 ^ Z.of_nat r)) = tails j x.
Proof.
  induction j as [|j IH]; [done|]. cbn [Nat.add tails take]. rewrite IH. f_equal. f_equal. f_equal.
  pose proof (pow64_pos r). pose proof (pow64_pos j). rewrite Nat2Z.inj_add, Z.pow_add_r, (Z.mul_comm (64 ^ Z.of_nat j)), <- Z.div_div, Z.div_mul by lia. done.
Qed.

Lemma store_lead b cnt m l : 0 <= b < 256 → lead b = Some (cnt, m) →
  STORE_REST (b :: l) = let '(ch, r) := store_trailing m (Z.of_nat cnt - 1) l in
    Val (MbState (Z.lor (Z.of_nat (S (length l))) (Z.shiftl (Z.of_nat cnt) 8)) (wrapu 32 (Z.shiftl ch (r * 6)))).
Proof.
  intros Hb El. destruct (lead_spec b cnt m) as (Hn & Eb & Hm & H2); [done..|]. unfold STORE_REST. cbn [head tail deref length]. cbn [mbind outcome_bind].
  assert (194 <= b) as H194. { destruct (decide (cnt = 2%nat)) as [->|]; [specialize (H2 eq_refl); unfold mark in Eb; lia|]. lengths cnt; unfold mark in Eb; powers; lia. }
  destruct (Z.eqb_spec b 192); [lia|]. destruct (Z.eqb_spec b 193); [lia|]. cbn [orb]. clear Hn Eb Hm H2. unfold lead in El.
  destruct ((194 <=? b) && (b <? 224)); [by injection El as <- <-|]. destruct (Z.land b 240 =? 224); [by injection El as <- <-|].
  destruct (Z.land b 248 =? 240); [by injection El as <- <-|]. destruct (Z.land b 252 =? 248); [by injection El as <- <-|].
  destruct (Z.land b 254 =? 252); [by injection El as <- <-|done].
Qed.

(** The fields of [__count]. *)
Lemma count_fields n cnt : (1 <= n <= 5)%nat → (2 <= cnt <= 6)%nat →
  Z.shiftr (Z.of_nat n + 256 * Z.of_nat cnt) 8 = Z.of_nat cnt ∧ Z.land (Z.of_nat n + 256 * Z.of_nat cnt) 255 = Z.of_nat n
  ∧ Z.land (Z.of_nat n + 256 * Z.of_nat cnt) 7 = Z.of_nat n.
Proof.
  intros Hn Hc. rewrite Z.shiftr_div_pow2 by lia. change 255 with (Z.ones 8). change 7 with (Z.ones 3). rewrite !Z.land_ones by lia.
  change (2 ^ 8) with 256. change (2 ^ 3) with 8. split_and!; [symmetry; apply Z.div_unique with (Z.of_nat n)|symmetry; apply Z.mod_unique with (Z.of_nat cnt)|symmetry; apply Z.mod_unique with (32 * Z.of_nat cnt)]; lia.
Qed.

(** What is stored is what is unpacked. *)
Lemma store_unpack p : bytes_ok p → incomplete p → ∃ s, STORE_REST p = Val s ∧ UNPACK_BYTES s = Val p
  ∧ Z.land (count s) 7 = Z.of_nat (length p) ∧ (1 <= length p <= 5)%nat.
Proof.
  intros Hok (b & l & cnt & m & -> & El & Hlt & Ht). apply Forall_cons in Hok as [Hb Hok]. destruct (lead_spec b cnt m) as (Hn & Eb & Hm & _); [done..|].
  cbn [length] in Hlt. rewrite (store_lead b cnt m) by done. pose proof (pow64_pos (length l)) as Hp.
  assert ((m + 1) * 64 ^ Z.of_nat (cnt - 1) <= 2 ^ 31) as Hmax by (lengths cnt; cbn [Nat.sub] in *; powers; lia).
  set (r := (cnt - S (length l))%nat). assert (64 ^ Z.of_nat (cnt - 1) = 64 ^ Z.of_nat (length l) * 64 ^ Z.of_nat r) as Epow.
  { rewrite <- Z.pow_add_r by lia. f_equal. unfold r. lia. }
  pose proof (pow64_pos r) as Hr. rewrite store_trailing_value by (done || nia). destruct (tails_value l) as [Hv Etl]; [done..|].
  set (x := m * 64 ^ Z.of_nat (length l) + tail_value l). replace ((Z.of_nat cnt - 1 - Z.of_nat (length l)) * 6) with (6 * Z.of_nat r) by (unfold r; lia).
  assert (Ew : wrapu 32 (Z.shiftl x (6 * Z.of_nat r)) = x * 64 ^ Z.of_nat r).
  { rewrite Z.shiftl_mul_pow2, Z.pow_mul_r by lia. change (2 ^ 6) with 64. apply wrapu_small. unfold x. split; [nia|].
    apply Z.lt_le_trans with ((m + 1) * 64 ^ Z.of_nat (cnt - 1)); [rewrite Epow; nia|]. lia. }
  rewrite Ew, lor_byte by lia. eexists; split; [done|]. destruct (count_fields (S (length l)) cnt) as (E8 & E255 & E7); [lia..|].
  unfold UNPACK_BYTES. cbn [count wch length]. rewrite E8, E255, E7. split; [|split; [done|lia]].
  rewrite !(proj2 (Z.ltb_ge _ _)) by lia. cbn [orb]. replace (Z.to_nat (Z.of_nat cnt - 2)) with (cnt - 2)%nat by lia.
  assert (inmask !! (cnt - 2)%nat = Some (mark cnt)) as -> by (clear -Hn; lengths cnt; reflexivity). cbn [deref]. cbn [mbind outcome_bind].
  rewrite Nat2Z.id. replace (Z.to_nat (Z.of_nat cnt - 1)) with (length l + r)%nat by (unfold r; lia).
  rewrite unpack_tail_tails, tails_shifted, app_nil_r. subst x. rewrite tails_high, Etl.
  rewrite Nat2Z.inj_add, Z.pow_add_r, (Z.mul_comm (64 ^ Z.of_nat (length l))), <- Z.div_div, Z.div_mul by lia.
  rewrite Z.div_add_l, Z.div_small, Z.add_0_r by lia. by rewrite first_byte, <- Eb.
Qed.

(** ** A character on the edge *)

Lemma incomplete_break p room : bytes_ok p → incomplete p → utf8_internal_body p room = Val (Break GCONV_INCOMPLETE_INPUT).
Proof.
  intros Hok (b & l & cnt & m & -> & El & Hlt & Ht). apply Forall_cons in Hok as [Hb Hok]. destruct (lead_spec b cnt m) as (Hn & Eb & Hm & _); [done..|].
  pose proof (mark_lead_big cnt m Hn Hm). rewrite (body_lead b cnt m) by (done || lia). cbn [length] in Hlt. rewrite (proj2 (Nat.ltb_lt _ _)) by done.
  by rewrite (proj2 (count_trailing_all (S (length l)) l ltac:(lia)) Ht), Nat.eqb_refl.
Qed.

Lemma incomplete_no_char p : bytes_ok p → incomplete p → no_char (to_internal UTF8) p.
Proof.
  intros Hok Hp c t Hc ->. cbn [valid source to_internal encodable encode] in *.
  pose proof (incomplete_break _ 4 Hok Hp) as E. by rewrite decode_utf8 in E.
Qed.

(** The beginning of a character is incomplete. *)
Lemma prefix_incomplete c p q t : scalar c → p ≠ [] → p ++ q = utf8 c ++ t → (length p < length (utf8 c))%nat → incomplete p.
Proof.
  intros [Hc Hs] Hne E Hlt. destruct p as [|b l]; [done|]. destruct (decide (c < 128)); [rewrite utf8_ascii in Hlt by done; cbn in Hlt; lia|].
  destruct (fits_exists c) as (cnt & m & v & F & Ec); [lia|]. rewrite Ec, fits_utf8 in E, Hlt by done. destruct F as (Hn & Hm & Hv & H2 & _).
  cbn [length app] in *. rewrite tails_length in Hlt. injection E as -> E. exists (mark cnt + m), l, cnt, m.
  split_and!; [done|by apply lead_mark|cbn; lia|]. apply (f_equal (take (length l))) in E.
  rewrite take_app_length, take_app_le in E by (rewrite tails_length; lia). rewrite E. apply Forall_take, tails_trailing.
Qed.

Lemma incomplete_prefix p q : p ≠ [] → incomplete (p ++ q) → incomplete p.
Proof.
  intros Hne (b & l & cnt & m & E & El & Hlt & Ht). destruct p as [|b' p]; [done|]. injection E as -> <-. exists b, p, cnt, m.
  rewrite Forall_app in Ht. cbn in *. rewrite length_app in Hlt. split_and!; [done|done|lia|naive_solver].
Qed.

(** What is no beginning of a character does not become one. *)
Lemma bad_app p q : bytes_ok p → p ≠ [] → no_char (to_internal UTF8) p → ¬ incomplete p → no_char (to_internal UTF8) (p ++ q) ∧ ¬ incomplete (p ++ q).
Proof.
  intros Hok Hne Hno Hni. split; [|by intros ?%incomplete_prefix].
  intros c t Hc E. cbn [valid source to_internal encodable encode] in *. destruct (decide (length p < length (utf8 c))%nat).
  - by apply Hni, (prefix_incomplete c p q t).
  - apply (Hno c (drop (length (utf8 c)) p)); [done|]. cbn. apply (f_equal (take (length p))) in E.
    rewrite take_app_length, take_app_ge in E by lia. rewrite E at 2. by rewrite drop_app_length, <- E.
Qed.

(** The body looks at six bytes. *)
Lemma count_trailing_prefix k n l : (k <= n)%nat → count_trailing k (take n l) = count_trailing k l.
Proof. revert n l; induction k as [|k IH]; intros [|n] [|b l] Hk; cbn; try done; try lia. by rewrite IH by lia. Qed.

Lemma read_trailing_prefix k n i ch l : (k <= n)%nat → read_trailing k i ch (take n l) = read_trailing k i ch l.
Proof.
  revert n i ch l; induction k as [|k IH]; intros [|n] i ch [|b l] Hk; try done; try lia. cbn [take read_trailing head tail deref]. cbn [mbind outcome_bind].
  case_match; [done|]. apply IH. lia.
Qed.

Lemma body_six l room : bytes_ok l → utf8_internal_body (take 6 l) room = utf8_internal_body l room.
Proof.
  intros Hok. destruct (decide (length l <= 6)%nat); [by rewrite take_ge|]. destruct l as [|b l]; [done|]. apply Forall_cons in Hok as [Hb Hok].
  cbn [length] in *. change (take 6 (b :: l)) with (b :: take 5 l). unfold utf8_internal_body. cbn [head tail deref]. cbn [mbind outcome_bind].
  case_match; [done|]. destruct (lead b) as [[cnt m]|] eqn:El; [|by rewrite count_trailing_prefix by lia].
  destruct (lead_spec b cnt m) as (Hn & _); [done..|]. cbn [length]. rewrite length_take.
  rewrite (proj2 (Nat.ltb_ge (S (5 `min` length l)) cnt)), (proj2 (Nat.ltb_ge (S (length l)) cnt)) by lia. by rewrite read_trailing_prefix by lia.
Qed.

(** ** The state *)

(** A state stands for the bytes of a character read so far. *)
Definition holds (s : mbstate_t) (p : list Z) : Prop :=
  p = [] ∧ count s = 0 ∨ bytes_ok p ∧ incomplete p ∧ STORE_REST p = Val s.

Lemma holds_store p : bytes_ok p → incomplete p → ∃ s, STORE_REST p = Val s ∧ holds s p.
Proof. intros Hok Hp. destruct (store_unpack p Hok Hp) as (s & E & _). exists s. split; [done|]. by right. Qed.

Section Calls.
Context (flag : bool).

(** A call of the loop, by the class of what is in front of it. *)
Lemma utf8_loop_full inp st : inp ≠ [] → (room st < 4)%nat → utf8_internal_loop flag inp st = Val (GCONV_FULL_OUTPUT, inp, st).
Proof.
  intros Hne Hr. unfold utf8_internal_loop, LOOPFCT. destruct inp as [|b l]; [done|].
  cbn [length convert_loop]. by rewrite (proj2 (Nat.ltb_ge (S (length l)) 1)), (proj2 (Nat.ltb_lt (room st) 4)) by lia.
Qed.

Lemma utf8_loop_round inp st s : inp ≠ [] → (4 <= room st)%nat → utf8_internal_body inp (room st) = Val s →
  match s with
  | Break r => utf8_internal_loop flag inp st = Val (r, inp, st)
  | FromErr n => ignore_errors_p flag st = false → utf8_internal_loop flag inp st = Val (GCONV_ILLEGAL_INPUT, inp, st)
  | _ => True
  end.
Proof.
  intros Hne Hr E. pose proof (gconv_loop_round (to_internal UTF8) flag (pred (length inp)) GCONV_EMPTY_INPUT inp st s Hne) as HR.
  unfold utf8_internal_loop, LOOPFCT. destruct inp as [|b l]; [done|]. cbn [length pred] in *. specialize (HR ltac:(cbn; lia) Hr E). cbn [min_from min_to body to_internal unit_size to_internal_body] in HR.
  rewrite HR. destruct s; try done. by intros ->.
Qed.

(** The loop does not depend on how much fuel it is given over the length. *)
Lemma convert_loop_fuel a b bd fuel fuel' r inp st x : (fuel <= fuel')%nat → convert_loop a b bd flag fuel r inp st = Val x → convert_loop a b bd flag fuel' r inp st = Val x.
Proof.
  revert fuel' r inp st. induction fuel as [|fuel IH]; intros [|fuel'] r inp st Hf E; try done; [|lia|].
  { destruct inp; [done|]. cbn [convert_loop] in *. case_match; [done|]. case_match; done. }
  destruct inp; [done|]. cbn [convert_loop] in *. case_match; [done|]. case_match; [done|].
  destruct (bd _ _) as [s| |]; cbn [mbind outcome_bind] in *; try done. destruct s; repeat case_match; try done; apply IH; (lia || done).
Qed.

Lemma utf8_loop_char c t st x : scalar c → (4 <= room st)%nat →
  utf8_internal_loop flag t (OutState (written st ++ le_bytes 4 c) (room st - 4) (irreversible st)) = Val x →
  utf8_internal_loop flag (utf8 c ++ t) st = Val x.
Proof.
  intros Hc Hr E. pose proof (encode_length UTF8 c Hc) as Hl. cbn [unit_size encode] in Hl. unfold utf8_internal_loop, LOOPFCT in *.
  destruct (length (utf8 c ++ t)) as [|n] eqn:En; rewrite length_app in En; [lia|].
  pose proof (gconv_loop_round (to_internal UTF8) flag n GCONV_EMPTY_INPUT (utf8 c ++ t) st (Emit (le_bytes 4 c) (length (utf8 c)))) as HR.
  cbn [min_from min_to body to_internal unit_size to_internal_body] in HR. rewrite HR, le_bytes_length, (proj2 (Nat.ltb_ge _ _)), drop_app_length; [|done|..].
  - apply convert_loop_fuel with (length t); [lia|done].
  - intros [E0 _]%app_nil. rewrite E0 in Hl. cbn in Hl. lia.
  - rewrite length_app. lia.
  - done.
  - by apply decode_utf8.
Qed.
End Calls.

(** ** One call *)

(** The class of an input: a character, the beginning of one, or neither. *)
Lemma classify inp : bytes_ok inp → inp ≠ [] →
  (∃ c t, scalar c ∧ inp = utf8 c ++ t) ∨ incomplete inp ∨ no_char (to_internal UTF8) inp ∧ ¬ incomplete inp ∧ ∀ room, ∃ n, utf8_internal_body inp room = Val (FromErr n).
Proof.
  intros Hok Hne. destruct (to_internal_cases UTF8 inp 4) as [H|(s & E & Hs)]; [done|done|destruct inp; cbn; [done|lia]|by left|right].
  destruct s as [| |n| | |n]; try done; [left; by destruct Hs| |by destruct Hs as (_ & _ & _ & ?)]. right. destruct Hs as (_ & Hni & _).
  assert (no_char (to_internal UTF8) inp) as Hno. { intros c t Hc ->. cbn in E. by rewrite decode_utf8 in E. }
  split_and!; [done..|]. intros room. destruct (decode_result inp room) as (s' & -> & Hs2); [done..|].
  destruct s'; try done; [destruct Hs2 as (c & t & Hc & ->); by destruct (Hno c t Hc)|by destruct Hs2|by eexists].
Qed.

(** The buffer of the call for one character. *)
Lemma bytebuf_six (p q : list Z) : (length p <= 5)%nat → p ++ take (6 - length p) q = take 6 (p ++ q).
Proof. intros Hp. by rewrite take_app, (take_ge p) by lia. Qed.

Section Single.
Context (flag : bool) (s : mbstate_t) (p q : list Z) (st : out_state).
Context (Hp : incomplete p) (Hokp : bytes_ok p) (Hs : STORE_REST p = Val s) (Hok : bytes_ok q) (Hq : q ≠ []).

Local Notation single := (utf8_internal_loop_single flag s q st).

Lemma single_start : (4 <= room st)%nat → (1 <= length p <= 5)%nat ∧
  single = (sp ← utf8_internal_body (p ++ q) (room st);
    let found n st := if (n <=? length p)%nat then Fault else Val (GCONV_OK, drop (n - length p) q, st, MbState 0 (wch s)) in
    let failed n := if ignore_errors_p flag st then found n (count_error st) else Val (GCONV_ILLEGAL_INPUT, q, st, s) in
    match sp with
    | Emit o n => if (room st <? length o)%nat then Fault else found n (OutState (written st ++ o) (room st - length o) (irreversible st))
    | Break GCONV_INCOMPLETE_INPUT =>
        if (length (take 6 (p ++ q)) =? 6)%nat then Fault else
        state' ← STORE_REST (take 6 (p ++ q));
        Val (GCONV_INCOMPLETE_INPUT, drop (length (take 6 (p ++ q)) - length p) q, st, state')
    | Break r => Val (r, q, st, s)
    | Skip n => found n st
    | FromErr n | ToErr n | Silent n => failed n
    end).
Proof.
  intros Hr. destruct (store_unpack p Hokp Hp) as (s' & E & EU & E7 & Hlen). rewrite Hs in E. injection E as <-. split; [done|].
  unfold utf8_internal_loop_single. rewrite EU. cbn [mbind outcome_bind]. rewrite (proj2 (Nat.ltb_ge (room st) 4)), (proj2 (Nat.leb_gt 6 (length p))) by lia.
  rewrite bool_decide_eq_false_2 by done. rewrite bytebuf_six, E7, Nat2Z.id, body_six by (lia || by apply Forall_app). done.
Qed.

Lemma single_full : (room st < 4)%nat → single = Val (GCONV_FULL_OUTPUT, q, st, s).
Proof.
  intros Hr. destruct (store_unpack p Hokp Hp) as (s' & E & EU & _). rewrite Hs in E. injection E as <-.
  unfold utf8_internal_loop_single. rewrite EU. cbn [mbind outcome_bind]. by rewrite (proj2 (Nat.ltb_lt (room st) 4)).
Qed.

Lemma single_char c t : (4 <= room st)%nat → scalar c → p ++ q = utf8 c ++ t →
  single = Val (GCONV_OK, t, OutState (written st ++ le_bytes 4 c) (room st - 4) (irreversible st), MbState 0 (wch s)).
Proof.
  intros Hr Hc E. destruct (single_start Hr) as [Hlen ->]. rewrite E, decode_utf8 by done. cbn [mbind outcome_bind]. rewrite le_bytes_length, (proj2 (Nat.ltb_ge _ _)) by done.
  assert (length p < length (utf8 c))%nat as Hlt.
  { apply Nat.lt_nge. intros Hge. apply (incomplete_no_char p Hokp Hp c (drop (length (utf8 c)) p)); [done|]. cbn [source to_internal encode].
    apply (f_equal (take (length p))) in E. rewrite take_app_length, take_app_ge in E by lia. rewrite E at 2. by rewrite drop_app_length, <- E. }
  cbv zeta. rewrite (proj2 (Nat.leb_gt _ _)) by done. do 4 f_equal. apply (f_equal (drop (length (utf8 c)))) in E. rewrite drop_app_length, drop_app_ge in E by lia. done.
Qed.

Lemma single_incomplete : (4 <= room st)%nat → incomplete (p ++ q) → ∃ s', single = Val (GCONV_INCOMPLETE_INPUT, [], st, s') ∧ holds s' (p ++ q).
Proof.
  intros Hr Hi. destruct (single_start Hr) as [Hlen ->]. assert (bytes_ok (p ++ q)) as Hok' by by apply Forall_app. rewrite incomplete_break by done. cbn [mbind outcome_bind].
  destruct (store_unpack _ Hok' Hi) as (_ & _ & _ & _ & Hl5). rewrite take_ge by lia. rewrite (proj2 (Nat.eqb_neq _ _)) by lia.
  destruct (holds_store _ Hok' Hi) as (s' & -> & Hh). exists s'. cbn [mbind outcome_bind]. split; [|done]. do 4 f_equal. apply drop_ge. rewrite length_app. lia.
Qed.

Lemma single_bad n : (4 <= room st)%nat → utf8_internal_body (p ++ q) (room st) = Val (FromErr n) → ignore_errors_p flag st = false →
  single = Val (GCONV_ILLEGAL_INPUT, q, st, s).
Proof. intros Hr E Hi. destruct (single_start Hr) as [Hlen ->]. rewrite E. cbn [mbind outcome_bind]. by rewrite Hi. Qed.
End Single.

(** ** The state refines the bytes it stands for *)

Lemma converts_suffix cv ignore inp rest out e l : converts cv ignore inp rest out e l → ∃ t, inp = t ++ rest.
Proof. induction 1 as [|c t ????? _ [u ->]|j t ????? _ _ _ [u ->]|j t ????? _ _ [u ->]]; [by exists []|eexists; by rewrite app_assoc..]. Qed.

(** A call of the loop, in the terms of [gconv_loop]. *)
Lemma utf8_loop_exact flag inp st : bytes_ok inp → ignore_errors_p flag st = false →
  ∃ r rest out, utf8_internal_loop flag inp st = Val (r, rest, OutState (written st ++ out) (room st - length out) (irreversible st))
    ∧ bytes_ok rest ∧ (length out <= room st)%nat ∧ converts (to_internal UTF8) false inp rest out 0 0
    ∧ status_ok (to_internal UTF8) false r rest (room st - length out) 0.
Proof.
  intros Hok Hi. destruct (loop_exact (to_internal UTF8) false flag (length inp) 0 inp st) as (r & rest & out & e & l & E & Hl & HC & HS); [done..|].
  assert (e = O ∧ l = O) as [-> ->]. { clear -HC. remember false as ig. induction HC; naive_solver. }
  rewrite irreversible_0 in E. exists r, rest, out. destruct (converts_suffix _ _ _ _ _ _ _ HC) as [t ->]. apply Forall_app in Hok as [_ Hok]. done.
Qed.

(** The rest of the call, once nothing is pending. *)
Lemma finish_refines flag s q st : count s = 0 → bytes_ok q → ignore_errors_p flag st = false →
  ∃ r rest st' s' p', ('(status, inp, st) ← utf8_internal_loop flag q st;
      if true && bool_decide (status = GCONV_INCOMPLETE_INPUT) then state' ← STORE_REST inp; Val (status, [], st, state') else Val (status, inp, st, s))
      = Val (r, rest, st', s')
    ∧ holds s' p' ∧ utf8_internal_loop flag q st = Val (r, p' ++ rest, st') ∧ (r = GCONV_INCOMPLETE_INPUT ∧ rest = [] ∨ r ≠ GCONV_INCOMPLETE_INPUT ∧ p' = []).
Proof.
  intros Hs Hok Hi. destruct (utf8_loop_exact flag q st Hok Hi) as (r & rest & out & -> & Hokr & _ & _ & HS). cbn [mbind outcome_bind andb].
  case_bool_decide as Hr.
  - subst r. destruct HS as (Hne & _ & Hp). destruct (holds_store rest Hokr Hp) as (s' & -> & Hh). cbn [mbind outcome_bind].
    eexists _, [], _, s', rest. rewrite app_nil_r. split_and!; [done..|by left].
  - eexists r, rest, _, s, []. split_and!; [done|by left|done|by right].
Qed.

Lemma transform_refines flag s p q st : holds s p → bytes_ok q → p = [] ∨ q ≠ [] → ignore_errors_p flag st = false →
  ∃ r rest st' s' p', gconv_transform_utf8_internal flag true s q st = Val (r, rest, st', s')
    ∧ holds s' p' ∧ utf8_internal_loop flag (p ++ q) st = Val (r, p' ++ rest, st') 
    ∧ (r = GCONV_INCOMPLETE_INPUT ∧ rest = [] ∨ r ≠ GCONV_INCOMPLETE_INPUT ∧ (p' = [] ∨ p' = p ∧ rest = q ∧ st' = st)).
Proof.
  intros Hh Hok Hq Hi. unfold gconv_transform_utf8_internal. destruct Hh as [[-> Hc]|(Hokp & Hp & Hs)].
  { rewrite Hc. change (true && negb (Z.land 0 7 =? 0)) with false. cbn iota. cbn [mbind outcome_bind]. rewrite bool_decide_eq_true_2 by done. cbn [negb].
    destruct (finish_refines flag s q st Hc Hok Hi) as (r & rest & st' & s' & p' & E & ?). exists r, rest, st', s', p'. split; [exact E|naive_solver]. }
  destruct (store_unpack p Hokp Hp) as (s0 & E0 & _ & E7 & Hlen). rewrite Hs in E0. injection E0 as <-. rewrite E7.
  destruct Hq as [->|Hq]; [cbn in Hlen; lia|]. rewrite (proj2 (Z.eqb_neq _ _)) by lia. cbn [andb negb].
  assert (p ++ q ≠ []) as Hne by by intros [_ ?]%app_nil. assert (bytes_ok (p ++ q)) as Hok' by by apply Forall_app.
  assert (Hstay : holds s p) by by right. destruct (decide (room st < 4)%nat) as [Hr|Hr].
  { rewrite (single_full flag s p q st) by done. cbn [mbind outcome_bind]. rewrite bool_decide_eq_false_2 by done. cbn [negb].
    exists GCONV_FULL_OUTPUT, q, st, s, p. rewrite utf8_loop_full by done. naive_solver. }
  destruct (classify (p ++ q)) as [(c & t & Hc & E)|[Hi'|(_ & Hni & Hbad)]]; [done..| | |].
  - rewrite (single_char flag s p q st Hp Hokp Hs Hok Hq c t) by (done || lia). cbn [mbind outcome_bind]. rewrite bool_decide_eq_true_2 by done. cbn [negb].
    assert (bytes_ok t) as Hokt by (rewrite E in Hok'; by apply Forall_app in Hok' as [_ ?]).
    destruct (finish_refines flag (MbState 0 (wch s)) t (OutState (written st ++ le_bytes 4 c) (room st - 4) (irreversible st))) as (r & rest & st' & s' & p' & E1 & Hh & EL & Hor); [done..|].
    exists r, rest, st', s', p'. rewrite E. split_and!; [exact E1|done|apply utf8_loop_char; [done|lia|done]|tauto].
  - destruct (single_incomplete flag s p q st Hp Hokp Hs Hok Hq) as (s' & -> & Hh); [lia|done|]. cbn [mbind outcome_bind]. rewrite bool_decide_eq_false_2 by done. cbn [negb].
    exists GCONV_INCOMPLETE_INPUT, [], st, s', (p ++ q). rewrite app_nil_r. split_and!; [done..| |by left].
    by apply (utf8_loop_round flag _ st _ Hne ltac:(lia) (incomplete_break _ _ Hok' Hi')).
  - exists GCONV_ILLEGAL_INPUT, q, st, s, p. destruct (Hbad (room st)) as (n & En). rewrite (single_bad flag s p q st Hp Hokp Hs Hok Hq n) by (done || lia).
    split_and!; [done..|by apply (utf8_loop_round flag _ st _ Hne ltac:(lia) En)|naive_solver].
Qed.

(** At an error, a call leaves everything as it is. *)
Lemma transform_bad flag s p q st n : holds s p → bytes_ok q → q ≠ [] → (4 <= room st)%nat → ignore_errors_p flag st = false →
  utf8_internal_body (p ++ q) (room st) = Val (FromErr n) → gconv_transform_utf8_internal flag true s q st = Val (GCONV_ILLEGAL_INPUT, q, st, s).
Proof.
  intros Hh Hok Hq Hr Hi En. unfold gconv_transform_utf8_internal. destruct Hh as [[-> Hc]|(Hokp & Hp & Hs)].
  - rewrite Hc. change (true && negb (Z.land 0 7 =? 0)) with false. cbn iota. cbn [mbind outcome_bind]. rewrite bool_decide_eq_true_2 by done. cbn [negb].
    by rewrite (utf8_loop_round flag q st _ Hq Hr En Hi).
  - destruct (store_unpack p Hokp Hp) as (s0 & E0 & _ & E7 & Hlen). rewrite Hs in E0. injection E0 as <-. rewrite E7.
    rewrite (proj2 (Z.eqb_neq _ _)) by lia. cbn [andb negb]. by rewrite (single_bad flag s p q st Hp Hokp Hs Hok Hq n).
Qed.

(** ** Any pieces *)

(** The characters before the rest are converted first, whatever follows. *)
Lemma loop_resume flag a rest out b st x e l : converts (to_internal UTF8) false a rest out e l → (length out <= room st)%nat →
  utf8_internal_loop flag (rest ++ b) (OutState (written st ++ out) (room st - length out) (irreversible st)) = Val x →
  utf8_internal_loop flag (a ++ b) st = Val x.
Proof.
  intros HC. revert st. remember false as ig eqn:Eig.
  induction HC as [inp|c t rest out e l Hc _ IH|j t rest out e l Hig|j t rest out e l Ht]; intros st Hr E; [|..|congruence|by destruct Ht].
  - cbn [length] in E. rewrite app_nil_r, Nat.sub_0_r in E. by destruct st.
  - cbn [valid target source to_internal encodable encode] in *. rewrite length_app, le_bytes_length in Hr, E. rewrite <- app_assoc. apply utf8_loop_char; [done|lia|].
    apply IH; [cbn; lia|]. cbn [written room irreversible]. by rewrite <- app_assoc, <- Nat.sub_add_distr.
Qed.

(** Where the loop stopped for good, more input does not change it. *)
Lemma loop_stopped flag a b st r rest st' : bytes_ok a → bytes_ok b → ignore_errors_p flag st = false →
  utf8_internal_loop flag a st = Val (r, rest, st') → r ≠ GCONV_EMPTY_INPUT → r ≠ GCONV_INCOMPLETE_INPUT →
  utf8_internal_loop flag (a ++ b) st = Val (r, rest ++ b, st').
Proof.
  intros Ha Hb Hi E He Hin. destruct (utf8_loop_exact flag a st Ha Hi) as (r' & rest' & out & E' & Hok & Hl & HC & HS). rewrite E in E'. injection E' as -> -> ->.
  set (st' := OutState _ _ _) in *. apply loop_resume with rest' out 0%nat 0%nat; [done..|]. fold st'. assert (ignore_errors_p flag st' = false) as Hi' by done.
  assert (rest' ≠ []) as Hne by (destruct r'; try done; by destruct HS). assert (rest' ++ b ≠ []) as Hne' by by intros [? _]%app_nil.
  assert (bytes_ok (rest' ++ b)) as Hok' by by apply Forall_app.
  assert (utf8_internal_loop flag rest' st' = Val (r', rest', st')) as Estop.
  { destruct (utf8_loop_exact flag rest' st' Hok Hi') as (r2 & rest2 & out2 & E2 & _). pose proof (loop_resume flag a rest' out [] st (r2, rest2, OutState (written st' ++ out2) (room st' - length out2) (irreversible st')) 0 0 HC Hl) as HR.
    fold st' in HR. rewrite !app_nil_r in HR. specialize (HR E2). rewrite E in HR. by rewrite E2. }
  destruct (decide (room st' < 4)%nat) as [Hr|Hr]; [rewrite utf8_loop_full in Estop by done; rewrite utf8_loop_full by done; congruence|].
  destruct (classify rest' Hok Hne) as [(c & t & Hc & E1)|[Hp|(Hno & Hni & Hbad)]].
  - destruct r'; try done; [destruct HS as [_ HS]; specialize (HS c t Hc E1); cbn [target to_internal] in HS; rewrite le_bytes_length in HS; cbn in Hr; lia|].
    destruct HS as (_ & HS & _). by destruct (HS c t).
  - pose proof (utf8_loop_round flag rest' st' _ Hne ltac:(lia) (incomplete_break _ _ Hok Hp)) as E1. cbn beta iota in E1. congruence.
  - destruct (Hbad (room st')) as [n En]. pose proof (utf8_loop_round flag rest' st' _ Hne ltac:(lia) En Hi') as E1. rewrite E1 in Estop. injection Estop as <-.
    destruct (bad_app rest' b) as [Hno' Hni']; [done..|]. destruct (classify (rest' ++ b)) as [(c & t & Hc & E2)|[Hp|(_ & _ & Hbad')]]; [done..| |done|].
    + by destruct (Hno' c t).
    + destruct (Hbad' (room st')) as [m Em]. by apply (utf8_loop_round flag _ st' _ Hne' ltac:(lia) Em).
Qed.

(** The input in pieces, one call for each: after a call that used its piece
    up, the next goes on with the state; otherwise the pieces left are unread. *)
Fixpoint convert_pieces (flag : bool) (s : mbstate_t) (q : list Z) (qs : list (list Z)) (st : out_state) : outcome (gconv_status * list Z * out_state * mbstate_t) :=
  '(r, rest, st, s) ← gconv_transform_utf8_internal flag true s q st;
  match qs with
  | [] => Val (r, rest, st, s)
  | q' :: qs =>
      if bool_decide (r = GCONV_EMPTY_INPUT ∨ r = GCONV_INCOMPLETE_INPUT) then convert_pieces flag s q' qs st
      else Val (r, rest ++ q' ++ concat qs, st, s)
  end.

(** C24. With errors not ignored, UTF-8 input cut into any pieces that are not
    empty, also within characters, and converted by one call after the other
    with the conversion state gives the output, the status and the unread bytes
    of one run of the loop on the whole: the state stands for the bytes of the
    character that is not complete, and no call reads outside of its input or
    fails an assertion. (With errors ignored, or for an empty piece within a
    character, the code does fail the assertion, or reads a byte that is not
    there: single_ignoring_errors and single_without_input.) *)
Theorem utf8_pieces (flag : bool) (s : mbstate_t) (p q : list Z) (qs : list (list Z)) (st : out_state) :
  holds s p → Forall bytes_ok (q :: qs) → Forall (λ q, q ≠ []) (q :: qs) → ignore_errors_p flag st = false →
  ∃ r rest st' s' p', convert_pieces flag s q qs st = Val (r, rest, st', s') ∧ holds s' p'
    ∧ utf8_internal_loop flag (p ++ q ++ concat qs) st = Val (r, p' ++ rest, st').
Proof.
  revert s p q st. induction qs as [|q' qs IH]; intros s p q st Hh Hok Hne Hi; apply Forall_cons in Hok as [Hokq Hok], Hne as [Hneq Hne];
    destruct (transform_refines flag s p q st) as (r & rest & st' & s' & p' & E & Hh' & EL & Hor); try (done || by right); cbn [convert_pieces]; rewrite E; cbn [mbind outcome_bind].
  { exists r, rest, st', s', p'. cbn [concat]. by rewrite app_nil_r. }
  assert (bytes_ok p) as Hokp by (destruct Hh as [[-> _]|(? & _)]; [constructor|done]). assert (bytes_ok (p ++ q)) as Hokpq by by apply Forall_app.
  assert (bytes_ok (q' ++ concat qs)) as Hokqs.
  { clear -Hok. apply Forall_cons in Hok as [H1 H2]. apply Forall_app. split; [done|]. induction H2; [constructor|]. by apply Forall_app. }
  rewrite (app_assoc p q). case_bool_decide as Hr.
  - destruct (utf8_loop_exact flag (p ++ q) st Hokpq Hi) as (r2 & rest2 & out & E2 & _ & Hl & HC & HS). rewrite EL in E2. injection E2 as <- <- ->.
    assert (rest = []) as ->. { destruct Hr as [->| ->]; [by destruct HS as [[_ ?]%app_nil _]|by destruct Hor as [[_ ?]|[? _]]]. }
    rewrite app_nil_r in HC. destruct (IH s' p' q' (OutState (written st ++ out) (room st - length out) (irreversible st)) Hh' Hok Hne Hi) as (r3 & rest3 & st3 & s3 & p3 & E3 & Hh3 & EL3).
    exists r3, rest3, st3, s3, p3. split_and!; [exact E3|done|]. eapply loop_resume; [exact HC|exact Hl|exact EL3].
  - exists r, (rest ++ q' ++ concat qs), st', s', p'. rewrite (app_assoc p'). split_and!; [done..|]. apply loop_stopped; try done; tauto.
Qed.

Lemma utf8_pieces_witness : ∃ r rest st' s' p', convert_pieces false (MbState 0 0) [36; 226] [[130]; [172; 240; 159]] (OutState [] 12 None) = Val (r, rest, st', s') ∧ holds s' p'
    ∧ utf8_internal_loop false ([] ++ [36; 226] ++ concat [[130]; [172; 240; 159]]) (OutState [] 12 None) = Val (r, p' ++ rest, st').
Proof.
  apply (utf8_pieces false (MbState 0 0) [] [36; 226] [[130]; [172; 240; 159]] (OutState [] 12 None)).
  - by left.
  - repeat constructor; lia.
  - by repeat constructor.
  - reflexivity.
Defined.

(** With errors ignored, the bytes that are skipped can all be bytes of the
    state, which the assertion on the consumed input excludes; and a call with
    nothing to read reads a byte all the same.  [iconv] does not get there, as
    [__gconv] does not consume incomplete characters, nor does [mbrtowc],
    which ignores no errors and returns early when there is no input. *)
Example single_ignoring_errors : convert_pieces true (MbState 0 0) [224] [[65]] (OutState [] 12 (Some 0)) = Fault.
Proof. vm_compute. reflexivity. Qed.

Example single_without_input : convert_pieces false (MbState 0 0) [224] [[]] (OutState [] 12 (Some 0)) = Fault.
Proof. vm_compute. reflexivity. Qed.

(** ** [mbrtowc] *)

Lemma holds_nil s : holds s [] → count s = 0.
Proof. intros [[_ ?]|(_ & (b & l & cnt & m & E & _) & _)]; [done|discriminate E]. Qed.

Lemma mbrtowc_call s bs : bs ≠ [] → mbrtowc s (Some bs) =
  ('(status, rest, st, state) ← gconv_transform_utf8_internal false true s bs (OutState [] 4 (Some 0));
   match status with
   | GCONV_OK | GCONV_EMPTY_INPUT | GCONV_FULL_OUTPUT =>
       if negb (bool_decide (written st = [])) && (le_word (written st) =? 0) then
         if count state =? 0 then Val (0, false, written st, state) else Fault
       else Val (Z.of_nat (length bs - length rest), false, written st, state)
   | GCONV_INCOMPLETE_INPUT => Val (wrapu 64 (-2), false, written st, state)
   | GCONV_ILLEGAL_INPUT => Val (wrapu 64 (-1), true, written st, state)
   end).
Proof. intros Hne. unfold mbrtowc. cbn [default from_option id]. by rewrite bool_decide_eq_false_2. Qed.

(** The loop with room for one character. *)
Lemma loop_one c t : scalar c → ∃ r, (r = GCONV_EMPTY_INPUT ∨ r = GCONV_FULL_OUTPUT) ∧
  utf8_internal_loop false (utf8 c ++ t) (OutState [] 4 (Some 0)) = Val (r, t, OutState (le_bytes 4 c) 0 (Some 0)).
Proof.
  intros Hc. destruct (decide (t = [])) as [->|Hne].
  - exists GCONV_EMPTY_INPUT. split; [by left|]. by apply utf8_loop_char.
  - exists GCONV_FULL_OUTPUT. split; [by right|]. apply utf8_loop_char; [done|cbn; lia|]. by rewrite utf8_loop_full by (done || cbn; lia).
Qed.

Lemma mbrtowc_bad s p bs : holds s p → bytes_ok bs → bs ≠ [] → (∀ c t, scalar c → p ++ bs ≠ utf8 c ++ t) → ¬ incomplete (p ++ bs) →
  mbrtowc s (Some bs) = Val (2 ^ 64 - 1, true, [], s).
Proof.
  intros Hh Hok Hne Hno Hni. assert (bytes_ok p) as Hokp by (destruct Hh as [[-> _]|(? & _)]; [constructor|done]).
  destruct (classify (p ++ bs)) as [(c & t & Hc & E)|[Hp|(_ & _ & Hbad)]]; [by apply Forall_app|by intros [_ ?]%app_nil|by destruct (Hno c t)|done|].
  destruct (Hbad 4%nat) as [n En]. rewrite mbrtowc_call by done. rewrite (transform_bad false s p bs (OutState [] 4 (Some 0)) n) by done. done.
Qed.

(** C25. In a UTF-8 locale, with p the bytes that the state stands for, mbrtowc
    returns the number of bytes of the input that complete the character that p
    and the input begin with, or 0 for the null character, stores it and leaves
    the initial state; returns (size_t) -2 and keeps all the bytes when they
    begin a character and do not end it; and otherwise returns (size_t) -1 with
    EILSEQ and changes nothing. *)
Theorem mbrtowc_correct (s : mbstate_t) (p bs : list Z) : holds s p → bytes_ok bs → bs ≠ [] →
  (∀ c t, scalar c → p ++ bs = utf8 c ++ t → ∃ s', holds s' []
     ∧ mbrtowc s (Some bs) = Val (if c =? 0 then 0 else Z.of_nat (length (utf8 c) - length p), false, le_bytes 4 c, s'))
  ∧ (incomplete (p ++ bs) → ∃ s', holds s' (p ++ bs) ∧ mbrtowc s (Some bs) = Val (2 ^ 64 - 2, false, [], s'))
  ∧ ((∀ c t, scalar c → p ++ bs ≠ utf8 c ++ t) → ¬ incomplete (p ++ bs) → mbrtowc s (Some bs) = Val (2 ^ 64 - 1, true, [], s)).
Proof.
  intros Hh Hok Hne. set (st0 := OutState [] 4 (Some 0)).
  assert (bytes_ok p) as Hokp by (destruct Hh as [[-> _]|(? & _)]; [constructor|done]). assert (bytes_ok (p ++ bs)) as Hok' by by apply Forall_app.
  assert (p ++ bs ≠ []) as Hne' by by intros [_ ?]%app_nil. split_and!; [| |by apply mbrtowc_bad].
  all: destruct (transform_refines false s p bs st0) as (r & rest & st' & s' & p' & ET & Hh' & EL & Hor); try (done || by right).
  all: rewrite mbrtowc_call by done; fold st0; rewrite ET; cbn [mbind outcome_bind].
  - intros c t Hc E. rewrite E in EL. destruct (loop_one c t Hc) as (r' & Hr' & E1). fold st0 in E1. rewrite E1 in EL. exists s'.
    assert (r = r' ∧ p' ++ rest = t ∧ st' = OutState (le_bytes 4 c) 0 (Some 0)) as (-> & Et & ->) by (split_and!; congruence).
    assert (p' = []) as -> by (destruct Hor as [[-> _]|[_ [?|(_ & _ & ?)]]]; [by destruct Hr'|done|by exfalso]).
    cbn [app] in Et. subst t. split; [done|]. cbn [written]. rewrite le_word_le_bytes, Z.mod_small by (destruct Hc; cbn; lia).
    rewrite bool_decide_eq_false_2 by done. cbn [negb andb]. rewrite (holds_nil _ Hh'). apply (f_equal length) in E. rewrite !length_app in E.
    destruct Hr' as [->| ->]; case_match; (done || (do 4 f_equal; lia)).
  - intros Hp. pose proof (utf8_loop_round false _ st0 _ Hne' ltac:(cbn; lia) (incomplete_break _ _ Hok' Hp)) as E1. cbn beta iota in E1. rewrite E1 in EL. injection EL as <- E <-.
    assert (rest = []) as -> by (by destruct Hor as [[_ ?]|[? _]]). rewrite app_nil_r in E. subst p'. by exists s'.
Qed.

Lemma mbrtowc_correct_witness :
  (∀ c t, scalar c → [226; 130] ++ [172; 65] = utf8 c ++ t → ∃ s', holds s' []
     ∧ mbrtowc (MbState 770 8320) (Some [172; 65]) = Val (if c =? 0 then 0 else Z.of_nat (length (utf8 c) - length [226; 130]), false, le_bytes 4 c, s'))
  ∧ (incomplete ([226; 130] ++ [172; 65]) → ∃ s', holds s' ([226; 130] ++ [172; 65]) ∧ mbrtowc (MbState 770 8320) (Some [172; 65]) = Val (2 ^ 64 - 2, false, [], s'))
  ∧ ((∀ c t, scalar c → [226; 130] ++ [172; 65] ≠ utf8 c ++ t) → ¬ incomplete ([226; 130] ++ [172; 65]) →
     mbrtowc (MbState 770 8320) (Some [172; 65]) = Val (2 ^ 64 - 1, true, [], MbState 770 8320)).
Proof.
  apply (mbrtowc_correct (MbState 770 8320) [226; 130] [172; 65]).
  - right. split; [repeat constructor; lia|]. split; [|by vm_compute]. exists 226, [130], 3%nat, 2. by repeat constructor.
  - repeat constructor; lia.
  - done.
Defined.
End GconvStream.
